(* ===== verification/_CoqProject ===== *)
-Q . S2P
Prelude.v
Bytes.v
Virtio.v
VirtioInv.v
VirtioSpec.v
VirtioExample.v
BufCache.v
Bio.v
Log.v
Crash.v
LogDisk.v
CString.v
Fs.v
FsAlloc.v
FsMap.v
FsData.v
FsPath.v
FsExample.v
FsDir.v
Pipe.v
Uart.v
Console.v
Printf.v
Spinlock.v
PageAlloc.v
Kalloc.v
Slab.v
Memory.v
Vm.v
VmUser.v
ProcTable.v
Capability.v
Sched.v
SleepLock.v
Futex.v
CpuAffinity.v
Cgroups.v
Qos.v
Binder.v
MsgQueue.v
ShareMem.v
File.v
Mbuf.v
Packet.v
Net.v
NetInv.v
Socket.v
NetSpec.v
NetExample.v
SysPath.v
SysDir.v
SysFile.v
SysSpec.v
Proc.v
Freezer.v
ProcLife.v
ProcSpec.v
SysProc.v
