(* ===== verification/Prelude.v ===== *)
(** * A verification of the YYDS-OS kernel

    YYDS-OS is a RISC-V teaching kernel in C (src/kernel).  This library
    translates parts of it to Rocq, function by function, and proves what makes
    them correct.  C integers are values of [Z] with the wrap-around of their
    type written out; kernel code is a function in the state monad [ST], whose
    outcome is a value and a new state, a panic, or [Blocks] for a thread that
    goes to sleep.  Critical sections under a spin lock are atomic: the locks
    themselves are in [Spinlock], and the other components are sequential code
    that runs with its lock held.  Where code runs without a lock and that
    matters, it is cut into steps: the driver ([Virtio]), sleep locks
    ([SleepLock]), the scheduler loops and clone ([Sched]), exit and wait
    ([Proc]), futexes ([Futex]).  A commit of the log, which [end_op] runs
    without the lock of the log while no call is admitted, is one step.

    ** The storage stack

    - [Virtio] is virtio_disk.c: processes, the interrupt handler and the device
      around the descriptor rings, as a step relation.  [VirtioInv] is its
      invariant, [VirtioSpec] shows that it implements a disk of blocks with
      atomic operations ([virtio_refines]), so that the layers above may take
      the disk as a store, and that no call is stuck ([virtio_progress]) unless
      an interrupt is lost, which [VirtioExample] shows to be possible.
    - [BufCache] is the interface of the buffer cache: operations, and the
      promises on what block contents the kernel sees, who holds a buffer and
      how often it is referenced.  [Bio] is bio.c (hashed rings, tick-based
      recycling, sleep locks of buffers) and proves that it implements the
      interface ([bread_refines]), that a block is cached at most once
      ([bcache_one_copy]), and which buffer is recycled.
    - [Log] is log.c over any [BufCache]: transactions, absorption, reservation,
      commit and recovery.  [Crash] composes it with bio.c and a disk that loses
      everything but the sectors written: a crash after any number of sector
      writes of a commit, followed by any number of crashes in recovery, leaves
      all or nothing of the transaction ([commit_crash_atomic]), recovery ends
      ([recovery_completes]), and a commit installs every block.
    - [LogDisk] is what fs.c relies on inside a transaction, as a class with
      its laws, and shows that log.c over bio.c satisfies them.  [Fs] is all of
      fs.c over that interface.  [FsAlloc] (the block bitmap), [FsMap] (the
      block map with its three levels, and the blocks a change of it may log),
      [FsData] (reads, writes, the write/read round trip, and how many blocks a
      write logs), [FsPath] (path elements, the inode cache) prove
      its properties; [FsExample] runs it on a concrete disk, for the witnesses.
      [FsDir] takes the contents of a directory as a list of entries and shows
      that it is a map from names to inodes on which [dirlookup] and [dirlink]
      look up and insert.
    - [Uart] is the transmit ring of uart.c and [Console] console.c: the buffer
      with its three indices holds lines that are edited until they are complete
      ([console_refines], with what a full buffer does in raw mode).  [Printf] is printf.c; [snprintf_correct] says that it
      writes the text of the format, cut to the buffer.
    - [Bytes] are little-endian fields of blocks, [CString] is string.c, [Pipe]
      is pipe.c ([pipe_stream]: a pipe is a queue of bytes, of which a read loses
      at most one, to an unmapped address), [File] is file.c,
      which puts pipes, inodes and transactions together behind file handles.

    ** Memory

    - [PageAlloc] is the page allocator as its clients see it; [Kalloc] is
      kalloc.c, which implements it ([kalloc_exclusive]); [Slab] is slab.c over
      any page allocator (objects handed out are disjoint, shrinking gives back
      exactly the empty pages).
    - [Vm] is vm.c with the copy-on-write part of kalloc.c: page tables are
      bytes in pages of [Kalloc], [lpte] is the last-level entry of an address,
      [pt_ok] says that table pages are owned by their table alone, [frame],
      [unmapped], [map_to] say what a call changes.  [VmUser] proves that ranges
      are mapped and unmapped exactly, that an address space grows all or
      nothing, that copyin returns what the user sees, and that a
      copy-on-write fault isolates the page.
    - [Memory] reads and writes memory by address; [ShareMem] is sharemem.c over
      [Vm] (segments are created all or nothing) and [MsgQueue] messagequeue.c,
      with messages as the bytes the code lays out.

    ** Processes

    - [Spinlock] is spinlock.c for several CPUs as a step relation, one access
      to a lock per step (mutual exclusion, the count [noff] also while a CPU
      spins, interrupts off meanwhile, which panics are possible).  [SleepLock] is
      sleeplock.c over sleep and wakeup, one line of code per step: exclusion,
      no lost wakeup and no deadlock for any number of processes.
    - [ProcTable] has the process states and the search loops of the scheduler.
      [Sched] is the scheduler of proc.c (deadline, real-time and
      multi-level-feedback classes).  One turn as a function: which process it
      chooses, and the schedule of one CPU.  The loops of several CPUs as a step
      relation, with the unlocked boost counter, clone and snapshots: the ranges
      of the fields, and that a process runs on one CPU at a time unless clone
      loses a race ([clone_runs_twice] is such a run).
    - [Proc] is [struct proc] and the operations on the table; its runs show
      that wait misses no exit, except in init.  [ProcLife] is the rest of proc.c
      (allocproc, freeproc, fork, exit, wait, clone, join, growproc, userinit)
      over memory, files, shared memory and message queues, each run on its part
      of the kernel state [psys]; [keeps] says which fields of the table a call
      leaves alone.  [ProcSpec] has the theorems on fork, wait, growproc, join,
      clone and kill and runs them on a concrete machine.
    - [Capability] is capability.c, [Futex] futex.c, [CpuAffinity] cpuaffinity.c:
      their tables as records, each call as a function, invariants over any
      sequence of calls.
    - The services on top of the process table: [Cgroups] is cgroups.c (the
      limits, the traffic rate, the invariant of the table of groups),
      [Freezer] the freezer (its automatic pass does to every process what its
      specification says), [Qos] the quality-of-service queues (the linked
      lists are first-in first-out queues; one call that corrupts them), and
      [Binder] binder.c (registration, call, receive and reply: the reply
      reaches the caller).

    ** The network

    - [Mbuf] is the packet buffer of net.h with the operations on one buffer and
      the IP checksum ([in_cksum_correct]: it is the ones-complement sum);
      [Packet] the headers net.c writes, as the bytes they become.
    - [Net] is net.c, e1000.c and the delivery of sysnet.c: buffers at the
      addresses [PageAlloc] gives out, the two descriptor rings, the queues
      linked through the buffers.  A use of a buffer or a socket whose page is
      gone is the panic of a kernel trap.  [NetInv] is the ownership invariant
      with the effect of every function on it.  [Socket] is the rest of
      sysnet.c with its system calls, over the file table of [File].
    - [NetSpec] takes the calls and the card as a step relation: each buffer is
      in one place at any time, and the calls return or wait except in the cases
      listed in [net_buffers_safe], and a datagram written on one host is read unchanged
      on another ([udp_roundtrip]).  [NetExample] proves the defects of the
      code ([connect_twice_faults] and others) and runs two hosts over [Kalloc].

    ** System calls

    - [SysPath] is the calls of sysfile.c on paths (link, unlink, create, open of
      an inode with its symbolic links, mkdir, rename, ...) over [Fs]; [SysDir]
      shows that an erased entry takes exactly its name out of the directory.
    - [SysFile] is its calls on descriptors (dup, read, write, close, open, pipe,
      lseek, readdir, getdents, flock, ...) over [File] and [Socket].  [SysSpec]
      has a small program logic for reference counts and the accounting theorem
      [fd_refs_exact] over any sequence of calls, which counts the descriptors
      that [sys_dup_new] leaves dangling ([dup_new_dangles]).
    - [SysProc] is the part of sysproc.c with logic of its own: credentials, groups
      and sessions, signals, semaphores, the environment, sbrk and sleep.

    ** Bounds and fuel

    Recursion that is not structural takes a [nat].  Loops over a bounded range
    get the number of their iterations (a page or block count plus one or two
    for partial first and last units), and the theorems about them show that
    the result is reached.  [walk] and [freewalk] recurse on the three levels
    of the table.  The chain of messages in messagequeue.c and the linked queues
    of [Qos] have no bound in the code; there the fuel is a parameter, running
    out of it is [Blocks] or [None], and the theorems say how much is enough.
    The receive loop of e1000.c gets one turn per descriptor, which
    [net_buffers_safe] shows to be enough for the packets that are there.

    ** Parameters

    Devices of file.c (and its calls to sockets, which [Socket] supplies), the
    memory behind a page ([ram], for a copy that leaves it), the symbols of the linker script ([kend],
    etext, trampoline), the entry point forkret, the addresses of the entries
    of the process table ([proc_at]), and the values of device registers are
    parameters.  Above the driver the disk is a store of blocks with synchronous
    writes, as [virtio_refines] justifies; the virtio device itself is the
    environment of [Virtio], free in its order and timing.  User
    page tables are considered below [USERTOP], where the trap frame and the
    trampoline begin.

    ** Not modelled

    Traps, the PCI bus and the configuration of the network card and the serial
    port, the interrupt controller and boot code, which work on hardware
    registers; the fetching of integer and pointer arguments of system calls from
    the trap frame (with the page it may allocate), sys_mmap and sys_exec; exec
    and memory-mapped areas; and, of the services built on processes, abilities,
    embassy, checkpointing (but for the scheduling fields), versioning, the distributed file system and sysfs.
    The switch between kernel stacks is a change of the state of a process.
    Weak memory and the TLB are outside the model.

    ** This file

    Machine integers, outcomes and the monad, record update, search loops,
    function update and lists of lists. *)

From Stdlib Require Export ZArith Lia String.
From stdpp Require Export base tactics option numbers list_numbers strings list relations.

#[global] Open Scope Z_scope.

(** ** Machine integers

    C integers are values of [Z]; an operation of the source that can leave
    the range of its type is followed by the wrap of that type. *)

Definition u8 (z : Z) : Z := z mod 2 ^ 8.
Definition u16 (z : Z) : Z := z mod 2 ^ 16.
Definition u32 (z : Z) : Z := z mod 2 ^ 32.
Definition u64 (z : Z) : Z := z mod 2 ^ 64.
Definition i32 (z : Z) : Z := (z + 2 ^ 31) mod 2 ^ 32 - 2 ^ 31.

Lemma u32_range z : 0 ≤ u32 z < 2 ^ 32.
Proof. apply Z.mod_pos_bound; lia. Qed.

Lemma u64_range z : 0 ≤ u64 z < 2 ^ 64.
Proof. apply Z.mod_pos_bound; lia. Qed.

Lemma i32_range z : - 2 ^ 31 ≤ i32 z < 2 ^ 31.
Proof. unfold i32. pose proof (Z.mod_pos_bound (z + 2 ^ 31) (2 ^ 32)). lia. Qed.

Lemma u32_small z : 0 ≤ z < 2 ^ 32 → u32 z = z.
Proof. apply Z.mod_small. Qed.

Lemma u64_small z : 0 ≤ z < 2 ^ 64 → u64 z = z.
Proof. apply Z.mod_small. Qed.

Lemma i32_small z : - 2 ^ 31 ≤ z < 2 ^ 31 → i32 z = z.
Proof. intros H. unfold i32. rewrite Z.mod_small; lia. Qed.

Lemma u32_add_idemp a b : u32 (u32 a + b) = u32 (a + b).
Proof. apply Zplus_mod_idemp_l. Qed.

Lemma u32_sub_idemp a b : u32 (u32 a - b) = u32 (a - b).
Proof. apply Zminus_mod_idemp_l. Qed.

Lemma i32_u32 z : - 2 ^ 31 ≤ z < 2 ^ 31 → i32 (u32 z) = z.
Proof. intros H. unfold i32, u32. rewrite Zplus_mod_idemp_l, Z.mod_small; lia. Qed.

(** A bit of a mask, as C tests it. *)
Lemma land_bit_zero m i : 0 ≤ i → (Z.land m (Z.shiftl 1 i) =? 0) = negb (Z.testbit m i).
Proof.
  intros Hi. rewrite Z.shiftl_1_l. destruct (Z.testbit m i) eqn:E; simpl.
  - apply Z.eqb_neq. intros H. apply (f_equal (λ z, Z.testbit z i)) in H.
    by rewrite Z.land_spec, Z.pow2_bits_true, E, Z.bits_0 in H by lia.
  - apply Z.eqb_eq. apply Z.bits_inj'. intros n Hn. rewrite Z.land_spec, Z.bits_0, Z.pow2_bits_eqb by lia.
    destruct (Z.eqb_spec i n) as [->|]; [by rewrite E|by rewrite andb_false_r].
Qed.

(** Words of [n] bits under the bit operations. *)
Lemma word_bits n x : 0 ≤ n → 0 ≤ x < 2 ^ n ↔ 0 ≤ x ∧ ∀ k, n ≤ k → Z.testbit x k = false.
Proof.
  intros Hn. split.
  - intros Hx. split; [lia|]. intros k Hk. destruct (decide (x = 0)) as [->|]; [apply Z.bits_0|].
    apply Z.bits_above_log2; [lia|]. apply Z.log2_lt_pow2; [lia|].
    assert (2 ^ n ≤ 2 ^ k) by (apply Z.pow_le_mono_r; lia). lia.
  - intros [Hx Hk]. split; [done|]. destruct (decide (x = 0)) as [->|]; [by apply Z.pow_pos_nonneg|].
    apply Z.log2_lt_pow2; [lia|]. destruct (decide (Z.log2 x < n)) as [|Hge]; [done|].
    specialize (Hk (Z.log2 x) ltac:(lia)). rewrite Z.bit_log2 in Hk by lia. done.
Qed.

Lemma word_lor n x y : 0 ≤ n → 0 ≤ x < 2 ^ n → 0 ≤ y < 2 ^ n → 0 ≤ Z.lor x y < 2 ^ n.
Proof.
  intros Hn [Hx Hxb]%word_bits [Hy Hyb]%word_bits; [|done..]. apply word_bits; [done|].
  split; [by apply Z.lor_nonneg|]. intros k Hk. by rewrite Z.lor_spec, Hxb, Hyb.
Qed.

Lemma word_land n x y : 0 ≤ n → 0 ≤ x < 2 ^ n → 0 ≤ Z.land x y < 2 ^ n.
Proof.
  intros Hn [Hx Hxb]%word_bits; [|done]. apply word_bits; [done|].
  split; [apply Z.land_nonneg; by left|]. intros k Hk. by rewrite Z.land_spec, Hxb.
Qed.

Lemma flag_bit n k : 0 ≤ n → 0 ≤ k → Z.testbit (Z.shiftl 1 n) k = bool_decide (n = k).
Proof.
  intros Hn Hk. rewrite Z.shiftl_1_l, Z.pow2_bits_eqb by done. destruct (Z.eqb_spec n k); symmetry.
  - by apply bool_decide_true.
  - by apply bool_decide_false.
Qed.

(** ** Outcomes of kernel code

    A call returns a value, calls [panic], or blocks: [Blocks] is the outcome
    of a thread that would enter [sleep] waiting for another thread. *)

Inductive outcome (A : Type) : Type :=
| Ret (a : A)
| Panic (msg : string)
| Blocks.
Arguments Ret {A} a.
Arguments Panic {A} msg.
Arguments Blocks {A}.

(** Kernel code over a state of type [S], with stdpp's monad notations. *)
Definition ST (S A : Type) : Type := S → outcome (A * S).

#[global] Instance ST_ret S : MRet (ST S) := λ A a s, Ret (a, s).
#[global] Instance ST_bind S : MBind (ST S) := λ A B k m s,
  match m s with
  | Ret (a, s') => k a s'
  | Panic msg => Panic msg
  | Blocks => Blocks
  end.

Definition panic {S A : Type} (msg : string) : ST S A := λ _, Panic msg.
Definition blocks {S A : Type} : ST S A := λ _, Blocks.
Definition get {S : Type} : ST S S := λ s, Ret (s, s).
Definition put {S : Type} (s : S) : ST S () := λ _, Ret ((), s).
Definition gets {S A : Type} (f : S → A) : ST S A := λ s, Ret (f s, s).
Definition modify {S : Type} (f : S → S) : ST S () := λ s, Ret ((), f s).

(** The state a run ends in (the start state when it does not return). *)
Definition after {S A : Type} (m : ST S A) (s : S) : S :=
  match m s with Ret (_, s') => s' | _ => s end.

(** The value a run returns, to evaluate on concrete states. *)
Definition value {S A : Type} (m : ST S A) (s : S) : option A :=
  match m s with Ret (a, _) => Some a | _ => None end.

Lemma run_after {S A : Type} (m : ST S A) (s : S) a : value m s = Some a → m s = Ret (a, after m s).
Proof. unfold value, after. destruct (m s) as [[x s']| |]; naive_solver. Qed.

(** [for (i = 0; i < n; i++) body(i)]. *)
Fixpoint for_loop {S : Type} (i n : nat) (body : nat → ST S ()) : ST S () :=
  match n with
  | O => mret ()
  | S n' => _ ← body i; for_loop (i + 1)%nat n' body
  end.

Section bind.
Context {S A B : Type}.
Implicit Types (m : ST S A) (k : A → ST S B) (s : S).

Lemma bind_Ret m k s a s' : m s = Ret (a, s') → (m ≫= k) s = k a s'.
Proof. intros H. unfold mbind, ST_bind. by rewrite H. Qed.

Lemma bind_Ret_inv m k s b s'' :
  (m ≫= k) s = Ret (b, s'') → ∃ a s', m s = Ret (a, s') ∧ k a s' = Ret (b, s'').
Proof. unfold mbind, ST_bind. destruct (m s) as [[a s']| |]; naive_solver. Qed.
End bind.

(** An invariant of the loop index and the state carries through a loop. *)
Lemma for_loop_inv {T : Type} (I : nat → T → Prop) (body : nat → ST T ()) i n s :
  I i s →
  (∀ k s, (i ≤ k < i + n)%nat → I k s → ∃ s', body k s = Ret ((), s') ∧ I (k + 1)%nat s') →
  ∃ s', for_loop i n body s = Ret ((), s') ∧ I (i + n)%nat s'.
Proof.
  revert i s. induction n as [|n IH]; intros i s Hi Hstep; simpl.
  - exists s. split; [done|]. by rewrite Nat.add_0_r.
  - destruct (Hstep i s ltac:(lia) Hi) as (s1 & E1 & H1). rewrite (bind_Ret _ _ _ _ _ E1).
    destruct (IH (i + 1)%nat s1 H1) as (s2 & E2 & H2).
    + intros k s' Hk. apply Hstep. lia.
    + exists s2. split; [done|]. by replace (i + S n)%nat with (i + 1 + n)%nat by lia.
Qed.

(** [run m s a s'] : the code [m] started in [s] returns [a] and leaves [s']. *)
Abbreviation run m s a s' := (m s = Ret (a, s')) (only parsing).

Lemma run_det {S A : Type} (m : ST S A) s a b t u : run m s a t → run m s b u → a = b ∧ t = u.
Proof. intros E E'. rewrite E in E'. by injection E' as -> ->. Qed.
Lemma run_get {S : Type} (s : S) : run get s s s.
Proof. done. Qed.
Lemma run_modify {S : Type} (f : S → S) (s : S) : run (modify f) s () (f s).
Proof. done. Qed.

(** Steps one bind of a goal [run (m ≫= k) s _ _] given what [m] returns. *)
Ltac step_with H := rewrite (bind_Ret _ _ _ _ _ H); cbn beta iota.

(** What every step keeps holds in every reachable state. *)
Lemma rtc_invariant {S : Type} (R : relation S) (I : S → Prop) s t :
  (∀ s t, I s → R s t → I t) → I s → rtc R s t → I t.
Proof. intros Hstep Hs. revert t. apply rtc_ind_r; [done|]. eauto. Qed.

(** ** Field update of a record: [r <| f := v |>] and [r <| f ::= g |>].

    The setter of a projection is computed from the record's eta expansion,
    which each record type declares as an instance of [Fields]. *)

Class Fields (R : Type) := fields_eta : R → R.
#[global] Hint Mode Fields ! : typeclass_instances.
Class FieldSet {R T : Type} (p : R → T) := field_set : (T → T) → R → R.

Definition update {R T : Type} (p : R → T) `{!FieldSet p} (f : T → T) (r : R) : R := field_set f r.
Arguments update {R T} p {_} f r /.
Arguments field_set {R T} p {_} f r /.

Ltac derive_field_set :=
  match goal with
  | |- @FieldSet ?R ?T ?p =>
      let inst := constr:(_ : Fields R) in
      let e := eval hnf in inst in
      match eval pattern p in e with
      | ?g _ => let s := eval cbv beta in (fun (f : T → T) => g (fun r => f (p r))) in exact s
      end
  end.
#[global] Hint Extern 1 (FieldSet _) => derive_field_set : typeclass_instances.

Declare Scope kernel_scope.
#[global] Open Scope kernel_scope.
Notation "r '<|' p '::=' f '|>'" := (update p f r)
  (at level 1, left associativity, p at level 9, f at level 99) : kernel_scope.
Notation "r '<|' p ':=' v '|>'" := (update p (λ _, v) r)
  (at level 1, left associativity, p at level 9, v at level 99) : kernel_scope.

(** An update in place writes the new element. *)
Lemma alter_insert_eq {A} (f : A → A) i (l : list A) x : l !! i = Some x → alter f i l = <[i := f x]> l.
Proof.
  intros Hx. apply list_eq. intros j. destruct (decide (j = i)) as [->|].
  - rewrite list_lookup_alter_eq, Hx, list_lookup_insert_eq; [done|by eapply lookup_lt_Some].
  - by rewrite list_lookup_alter_ne, list_lookup_insert_ne.
Qed.

(** How many elements satisfy [f]. *)
Fixpoint tally {A : Type} (f : A → bool) (l : list A) : Z :=
  match l with [] => 0 | x :: l => (if f x then 1 else 0) + tally f l end.

Lemma tally_bound {A} (f : A → bool) l : 0 ≤ tally f l ≤ Z.of_nat (length l).
Proof. induction l as [|x l IH]; cbn; [lia|]. destruct (f x); lia. Qed.

Lemma tally_insert {A} (f : A → bool) l i x y : l !! i = Some x →
  tally f (<[i := y]> l) = tally f l - (if f x then 1 else 0) + (if f y then 1 else 0).
Proof.
  revert i. induction l as [|z l IH]; intros [|i]; [done|done| |].
  - intros [= ->]. cbn. lia.
  - intros Hi. change (<[S i := y]> (z :: l)) with (z :: <[i := y]> l). cbn [tally]. rewrite (IH i Hi). lia.
Qed.

Lemma tally_zero {A} (f : A → bool) l : tally f l = 0 ↔ ∀ i x, l !! i = Some x → f x = false.
Proof.
  induction l as [|y l IH]; cbn; [by split|]. pose proof (tally_bound f l). destruct (f y) eqn:Hy.
  - split; [lia|]. intros H'. specialize (H' 0%nat y eq_refl). congruence.
  - rewrite Z.add_0_l, IH. split; [|intros H' i; apply (H' (S i))]. intros H' [|i] x; cbn; [by intros [= <-]|apply H'].
Qed.

Lemma tally_fmap {A B} (f : B → bool) (g : A → B) l : tally f (g <$> l) = tally (λ x, f (g x)) l.
Proof. induction l as [|x l IH]; cbn; [done|]. by rewrite IH. Qed.
Lemma tally_add {A} (f g h : A → bool) l :
  (∀ x, (if f x then 1 else 0) = (if g x then 1 else 0) + (if h x then 1 else 0)) → tally f l = tally g l + tally h l.
Proof. intros H. induction l as [|x l IH]; cbn; [done|]. rewrite IH, H. lia. Qed.

(** ** Arrays searched by a loop: [findi f l] is the index the loop
    [for (i = 0; i < n; i++) if (f(l[i])) break;] stops at. *)

Fixpoint findi {A : Type} (f : A → bool) (l : list A) : option nat :=
  match l with
  | [] => None
  | x :: l' => if f x then Some 0%nat else S <$> findi f l'
  end.

Section findi.
Context {A : Type}.
Implicit Types (f : A → bool) (l : list A).

Lemma findi_Some f l i :
  findi f l = Some i ↔
  (∃ x, l !! i = Some x ∧ f x = true) ∧ ∀ j y, (j < i)%nat → l !! j = Some y → f y = false.
Proof.
  revert i. induction l as [|x l IH]; intros i; simpl.
  - split; [done|]. intros [(y & Hy & _) _]. by rewrite lookup_nil in Hy.
  - destruct (f x) eqn:Hx.
    + split.
      * intros [= <-]. split; [by exists x|lia].
      * intros [_ Hlt]. destruct i as [|i]; [done|].
        specialize (Hlt 0%nat x ltac:(lia) eq_refl). congruence.
    + rewrite fmap_Some. split.
      * intros (k & Hk & ->). apply IH in Hk as [Hex Hlt]. split; [done|].
        intros [|j] y Hj Hy; simpl in Hy; [congruence|]. apply (Hlt j); [lia|done].
      * intros [(y & Hy & Hfy) Hlt]. destruct i as [|i]; simpl in Hy; [congruence|].
        exists i. split; [|done]. apply IH. split; [by exists y|].
        intros j z Hj Hz. apply (Hlt (S j)); [lia|done].
Qed.

Lemma findi_None f l : findi f l = None ↔ ∀ i x, l !! i = Some x → f x = false.
Proof.
  induction l as [|x l IH]; simpl.
  - split; [|done]. intros _ i y. by rewrite lookup_nil.
  - destruct (f x) eqn:Hx.
    + split; [done|]. intros H. specialize (H 0%nat x eq_refl). congruence.
    + rewrite fmap_None, IH. split.
      * intros H [|i] y Hy; simpl in Hy; [congruence|]. by apply (H i).
      * intros H i. apply (H (S i)).
Qed.

Lemma findi_lookup f l i : findi f l = Some i → ∃ x, l !! i = Some x ∧ f x = true.
Proof. intros H. by apply findi_Some in H as [? _]. Qed.

Lemma findi_lt f l i : findi f l = Some i → (i < length l)%nat.
Proof. intros (x & Hx & _)%findi_lookup. by apply lookup_lt_Some in Hx. Qed.

Lemma findi_is_Some f l i x : l !! i = Some x → f x = true → is_Some (findi f l).
Proof.
  intros Hi Hx. destruct (findi f l) eqn:E; [done|].
  rewrite findi_None in E. specialize (E i x Hi). congruence.
Qed.

Lemma findi_ext f g l : (∀ x, x ∈ l → f x = g x) → findi f l = findi g l.
Proof.
  induction l as [|x l IH]; intros H; simpl; [done|].
  rewrite (H x) by left. rewrite IH; [done|]. intros y Hy. apply H. by right.
Qed.

Lemma findi_alter f (g : A → A) i l : (∀ x, f (g x) = f x) → findi f (alter g i l) = findi f l.
Proof.
  intros H. revert i. induction l as [|x l IH]; intros [|i]; [done..| |].
  - simpl. by rewrite H.
  - change (alter g (S i) (x :: l)) with (x :: alter g i l). simpl. by rewrite IH.
Qed.
End findi.

Lemma alter_insert {A : Type} (f : A → A) (l : list A) i x : l !! i = Some x → alter f i l = <[i := f x]> l.
Proof.
  intros H. apply list_eq. intros j. destruct (decide (j = i)) as [->|].
  - rewrite list_lookup_alter_eq, H, list_lookup_insert_eq by (by eapply lookup_lt_Some). done.
  - by rewrite list_lookup_alter_ne, list_lookup_insert_ne.
Qed.

Lemma list_delete_insert_eq {A : Type} (l : list A) i x : delete i (<[i := x]> l) = delete i l.
Proof.
  revert i. induction l as [|y l IH]; intros [|i]; [done..|].
  change (<[S i := x]> (y :: l)) with (y :: <[i := x]> l). cbn. by rewrite IH.
Qed.

Lemma forallb_lookup {A : Type} (f : A → bool) l i x : forallb f l = true → l !! i = Some x → f x = true.
Proof.
  intros H Hx. rewrite forallb_forall in H. apply H, list_elem_of_In. by apply list_elem_of_lookup_2 in Hx.
Qed.

(** ** Arrays and memories as functions of an address, updated at one place *)

Definition fupd {A : Type} (b : Z) (v : A) (f : Z → A) : Z → A := λ b', if decide (b' = b) then v else f b'.

Lemma fupd_eq {A : Type} (f : Z → A) b v : fupd b v f b = v.
Proof. unfold fupd. by case_decide. Qed.

Lemma fupd_ne {A : Type} (f : Z → A) b b' v : b' ≠ b → fupd b v f b' = f b'.
Proof. intros. unfold fupd. by case_decide. Qed.

Create HintDb fupd.
#[export] Hint Rewrite @fupd_eq : fupd.
#[export] Hint Rewrite @fupd_ne using (congruence || lia) : fupd.

(** ** Lists of lists: rings, free lists and hash chains *)

Section concat.
Context {A : Type}.
Implicit Types (R : list (list A)) (l : list A).

Lemma elem_of_concat_lookup R x : x ∈ concat R ↔ ∃ j l, R !! j = Some l ∧ x ∈ l.
Proof.
  induction R as [|l R IH]; simpl.
  - split; [intros []%not_elem_of_nil|]. by intros (j & l & Hl & _).
  - rewrite elem_of_app, IH. split.
    + intros [H|(j & l' & Hl' & H)]; [by exists 0%nat, l|by exists (S j), l'].
    + intros ([|j] & l' & Hl' & H); simpl in Hl'; [left; congruence|right; by exists j, l'].
Qed.

Lemma NoDup_concat_unique R j1 j2 l1 l2 x :
  NoDup (concat R) → R !! j1 = Some l1 → R !! j2 = Some l2 → x ∈ l1 → x ∈ l2 → j1 = j2.
Proof.
  revert j1 j2. induction R as [|l R IH]; intros j1 j2 Hnd H1 H2 Hx1 Hx2; [done|].
  simpl in Hnd. apply NoDup_app in Hnd as (_ & Hdis & Hnd).
  assert (∀ j l', R !! j = Some l' → x ∈ l → x ∈ l' → False) as Hno.
  { intros j l' Hl' Hin Hin'. apply (Hdis x Hin), elem_of_concat_lookup. by exists j, l'. }
  destruct j1 as [|j1], j2 as [|j2]; simpl in H1, H2; simplify_eq; try done.
  - by destruct (Hno j2 l2).
  - by destruct (Hno j1 l1).
  - f_equal. by apply (IH j1 j2).
Qed.

Lemma NoDup_concat_lookup R j l : NoDup (concat R) → R !! j = Some l → NoDup l.
Proof.
  revert j. induction R as [|l' R IH]; intros j Hnd Hj; [done|].
  simpl in Hnd. apply NoDup_app in Hnd as (Hl & _ & Hnd).
  destruct j as [|j]; simpl in Hj; [by simplify_eq|by apply (IH j)].
Qed.

Lemma concat_alter_perm R f j l :
  R !! j = Some l → l ++ concat (alter f j R) ≡ₚ f l ++ concat R.
Proof.
  revert j. induction R as [|l' R IH]; intros [|j] Hj; simpl in Hj; simplify_eq.
  - change (alter f 0%nat (l :: R)) with (f l :: R). simpl. by rewrite Permutation_app_swap_app.
  - change (alter f (S j) (l' :: R)) with (l' :: alter f j R). simpl.
    specialize (IH j Hj).
    rewrite (Permutation_app_comm l'), app_assoc, IH, (Permutation_app_comm l'). by rewrite app_assoc.
Qed.
End concat.

Lemma NoDup_filter_ne_perm (l : list nat) v :
  NoDup l → v ∈ l → l ≡ₚ v :: filter (λ x, x ≠ v) l.
Proof.
  intros Hnd Hv. apply NoDup_Permutation; [done| |].
  - constructor; [|by apply NoDup_filter]. rewrite list_elem_of_filter. naive_solver.
  - intros x. rewrite elem_of_cons, list_elem_of_filter.
    destruct (decide (x = v)); naive_solver.
Qed.
