(* ===== verification/Bytes.v ===== *)
(** * Little-endian fields of a byte buffer

    Disk blocks are arrays of bytes that the kernel reads through casts
    (a [uint] array, an array of [struct dinode], ...).  On RISC-V a
    field of [n] bytes at byte offset [off] is stored little-endian; [ld] and
    [st] read and write such a field, and their laws are the only facts the
    file-system components use about the layout. *)

From S2P Require Import Prelude.

(** A block of the disk: a list of bytes, values of [Z] in [0, 256). *)
Abbreviation block := (list Z).

Definition byte_at (d : block) (i : nat) : Z := default 0 (d !! i).

Fixpoint ld (n off : nat) (d : block) : Z :=
  match n with
  | O => 0
  | S n' => byte_at d off + 256 * ld n' (S off) d
  end.

Fixpoint st (n off : nat) (v : Z) (d : block) : block :=
  match n with
  | O => d
  | S n' => st n' (S off) (v / 256) (<[off := v mod 256]> d)
  end.

Definition is_byte (z : Z) : Prop := 0 ≤ z < 256.
Definition is_bytes (d : block) : Prop := Forall is_byte d.

Lemma length_st n off v d : length (st n off v d) = length d.
Proof. revert off v d; induction n as [|n IH]; intros; simpl; [done|]. by rewrite IH, length_insert. Qed.

Lemma st_lookup_ne n off v d i :
  (i < off ∨ off + n ≤ i)%nat → st n off v d !! i = d !! i.
Proof.
  revert off v d; induction n as [|n IH]; intros off v d Hi; simpl; [done|].
  rewrite IH by lia. apply list_lookup_insert_ne. lia.
Qed.

Lemma st_byte_at_ne n off v d i :
  (i < off ∨ off + n ≤ i)%nat → byte_at (st n off v d) i = byte_at d i.
Proof. intros H. unfold byte_at. by rewrite st_lookup_ne. Qed.

Lemma ld_ext n off d d' :
  (∀ i, (off ≤ i < off + n)%nat → byte_at d i = byte_at d' i) → ld n off d = ld n off d'.
Proof.
  revert off. induction n as [|n IH]; intros off H; simpl; [done|].
  rewrite (H off) by lia. rewrite (IH (S off)); [done|]. intros i Hi. apply H. lia.
Qed.

Lemma ld_st_ne n off v m off' d :
  (off' + m ≤ off ∨ off + n ≤ off')%nat → ld m off' (st n off v d) = ld m off' d.
Proof. intros H. apply ld_ext. intros i Hi. apply st_byte_at_ne. lia. Qed.

Lemma ld_st_eq n off v d :
  (off + n ≤ length d)%nat → ld n off (st n off v d) = v mod 256 ^ Z.of_nat n.
Proof.
  revert off v d. induction n as [|n IH]; intros off v d Hlen; simpl ld; simpl st.
  - by rewrite Z.mod_1_r.
  - rewrite IH by (rewrite length_insert; lia).
    rewrite st_byte_at_ne by lia.
    unfold byte_at at 1. rewrite list_lookup_insert_eq by lia. simpl default.
    rewrite Nat2Z.inj_succ, Z.pow_succ_r by lia.
    rewrite Z.rem_mul_r by lia. lia.
Qed.

Lemma ld_range n off d : is_bytes d → 0 ≤ ld n off d < 256 ^ Z.of_nat n.
Proof.
  intros Hd. revert off. induction n as [|n IH]; intros off; simpl ld; [lia|].
  rewrite Nat2Z.inj_succ, Z.pow_succ_r by lia. specialize (IH (S off)).
  assert (0 ≤ byte_at d off < 256); [|nia].
  unfold byte_at. destruct (d !! off) as [x|] eqn:Hx; simpl; [|lia].
  by apply (Forall_lookup_1 _ _ _ _ Hd Hx).
Qed.

Lemma is_bytes_st n off v d : is_bytes d → is_bytes (st n off v d).
Proof.
  revert off v d. induction n as [|n IH]; intros off v d Hd; simpl; [done|].
  apply IH, Forall_insert; [done|]. apply Z.mod_pos_bound. lia.
Qed.

(** [a[i]] and [a[i] = v] where [a] is [bp->data] cast to a [uint] pointer. *)
Definition ld32 (i : nat) (d : block) : Z := ld 4 (4 * i) d.
Definition st32 (i : nat) (v : Z) (d : block) : block := st 4 (4 * i) v d.

Lemma ld32_st32_eq i v d : (4 * i + 4 ≤ length d)%nat → ld32 i (st32 i v d) = u32 v.
Proof. intros H. apply ld_st_eq. lia. Qed.

Lemma ld32_st32_ne i j v d : i ≠ j → ld32 j (st32 i v d) = ld32 j d.
Proof. intros H. apply ld_st_ne. lia. Qed.

Lemma ld32_range i d : is_bytes d → 0 ≤ ld32 i d < 2 ^ 32.
Proof. apply (ld_range 4). Qed.

Lemma length_st32 i v d : length (st32 i v d) = length d.
Proof. apply length_st. Qed.

Lemma ld_replicate_0 n o m : ld n o (replicate m 0) = 0.
Proof.
  revert o. induction n as [|n IH]; intros o; simpl ld; [done|]. rewrite IH. unfold byte_at.
  destruct (replicate m 0 !! o) eqn:E; [|done]. by apply lookup_replicate in E as [-> _].
Qed.

Lemma ld32_replicate_0 i n : ld32 i (replicate n 0) = 0.
Proof. apply ld_replicate_0. Qed.

(** [bs] stored over the bytes of [d] from [o] on. *)
Definition splice (o : nat) (bs : list Z) (d : block) : block :=
  take o d ++ bs ++ drop (o + length bs) d.

Lemma splice_length o bs d : (o + length bs ≤ length d)%nat → length (splice o bs d) = length d.
Proof. intros H. unfold splice. rewrite !length_app, length_take, length_drop. lia. Qed.

Lemma splice_byte o bs d j :
  (o + length bs ≤ length d)%nat →
  byte_at (splice o bs d) j = if decide (o ≤ j < o + length bs)%nat then byte_at bs (j - o) else byte_at d j.
Proof.
  intros H. unfold splice, byte_at. case_decide as Hj.
  - rewrite lookup_app_r by (rewrite length_take; lia). rewrite length_take.
    rewrite lookup_app_l by lia. do 2 f_equal. lia.
  - destruct (decide (j < o)%nat).
    + rewrite lookup_app_l by (rewrite length_take; lia). by rewrite lookup_take_lt by lia.
    + rewrite lookup_app_r by (rewrite length_take; lia). rewrite length_take.
      rewrite lookup_app_r by lia. rewrite lookup_drop. do 2 f_equal. lia.
Qed.

#[global] Opaque ld st.
