(* ===== verification/Virtio.v ===== *)
(** * virtio_disk.c: the disk driver over its descriptor ring

    Processes call [virtio_disk_rw], which waits for three free descriptors,
    hands a request to the device and sleeps until the interrupt handler says
    that it is finished.  A process works with [vdisk_lock] held from one sleep
    to the next, so that part of the function is one transition; the device
    does not take the lock, and its transitions come between any two accesses
    of the handler to the rings.  A pointer the device follows is the object it
    points to ([daddr]).

    The device is the legacy virtio block device the comments of the driver
    describe: it takes the heads of chains from the available ring in order,
    finishes requests in any order and at any time, with any status, and
    reports them in the used ring with its interrupt line raised. *)

From stdpp Require Import functions.
From S2P Require Import Prelude Bytes.

Definition NUM : nat := 8.
Definition BSIZE : Z := 1024.
Definition VRING_DESC_F_NEXT : Z := 1.
Definition VRING_DESC_F_WRITE : Z := 2.
Definition VIRTIO_BLK_T_IN : Z := 0.
Definition VIRTIO_BLK_T_OUT : Z := 1.

(** What a descriptor points to: nothing, the header on the stack of a process,
    the data of a buffer, the status byte of an entry of [disk.info]. *)
Inductive daddr := ANull | AHdr (t : nat) | AData (b : nat) | AStatus (i : nat).

Record VRingDesc := VDesc { d_addr : daddr; d_len : Z; d_flags : Z; d_next : nat }.
#[export] Instance VRingDesc_fields : Fields VRingDesc := λ d, VDesc (d_addr d) (d_len d) (d_flags d) (d_next d).

Record virtio_blk_outhdr := OutHdr { h_type : Z; h_reserved : Z; h_sector : Z }.

(** The fields of a buffer the driver uses. *)
Record vbuf := VBuf { vb_blockno : Z; vb_data : block; vb_disk : Z }.
#[export] Instance vbuf_fields : Fields vbuf := λ b, VBuf (vb_blockno b) (vb_data b) (vb_disk b).

Inductive chan := ChFree | ChBuf (b : nat).
#[export] Instance chan_eq_dec : EqDecision chan.
Proof. solve_decision. Defined.

(** Where a process is in [virtio_disk_rw], with its local variables: outside,
    waiting for descriptors, or waiting for the device. *)
Inductive vcall :=
| VIdle
| VAlloc (b : nat) (w : bool) (sector : Z)
| VWait (b : nat) (w : bool) (i0 i1 i2 : nat).

(** The interrupt handler: not running, in its loop, or at the acknowledgement.
    It holds [vdisk_lock] in the last two. *)
Inductive hpc := HOut | HLoop | HAck.

(** A request the device has taken from the ring. *)
Record devreq := DevReq { r_head : nat; r_write : bool; r_sector : Z; r_buf : nat; r_stat : nat }.

Record vsys := VSys {
  desc : nat → VRingDesc;
  avail : Z → nat;                      (* avail[2 + i] *)
  avail_idx : Z;                        (* avail[1] *)
  used : Z → nat;                       (* used->elems[i].id *)
  used_id : Z;                          (* used->id *)
  free : list bool;
  used_idx : Z;
  info_b : nat → option nat;            (* info[i].b *)
  info_status : nat → Z;                (* info[i].status *)
  bufs : nat → vbuf;
  hdr : nat → virtio_blk_outhdr;        (* buf0 on the stack of each process *)
  call : nat → vcall;
  asleep : nat → option chan;           (* the channel a process sleeps on *)
  ipc : hpc;
  notify : bool;                        (* QUEUE_NOTIFY written, queue not yet drained *)
  irq : bool;                           (* INTERRUPT_STATUS *)
  dv_last : Z;                          (* how far the device has looked in avail *)
  dv_fly : list devreq;                 (* the requests it works on *)
  sectors : Z → block;                  (* what the medium holds, by sector *)
}.
#[export] Instance vsys_fields : Fields vsys := λ s,
  VSys (desc s) (avail s) (avail_idx s) (used s) (used_id s) (free s) (used_idx s) (info_b s) (info_status s)
    (bufs s) (hdr s) (call s) (asleep s) (ipc s) (notify s) (irq s) (dv_last s) (dv_fly s) (sectors s).

(** ** The driver *)

Definition disk_wakeup (ch : chan) : ST vsys () :=
  modify (λ s, s <| asleep ::= λ f t, if decide (f t = Some ch) then None else f t |>).

Definition sleep_on (t : nat) (ch : chan) (c : vcall) : ST vsys () :=
  modify (λ s, s <| call ::= <[t := c]> |> <| asleep ::= <[t := Some ch]> |>).

(** Find a free descriptor, mark it non-free, return its index. *)
Definition alloc_desc : ST vsys (option nat) :=
  s ← get;
  match findi id (free s) with
  | Some i => _ ← modify (λ s, s <| free ::= <[i := false]> |>); mret (Some i)
  | None => mret None
  end.

Definition free_desc (i : nat) : ST vsys () :=
  if (NUM <=? i)%nat then panic "virtio_disk_intr 1"
  else
    s ← get;
    if default true (free s !! i) then panic "virtio_disk_intr 2"
    else
      _ ← modify (λ s, s <| desc ::= λ D, <[i := (D i) <| d_addr := ANull |>]> D |> <| free ::= <[i := true]> |>);
      disk_wakeup ChFree.

(** The loop of [free_chain]; [NUM + 1] turns are enough, as every turn frees a
    descriptor that was not free. *)
Fixpoint free_chain_from (fuel i : nat) : ST vsys () :=
  match fuel with
  | O => blocks
  | S fuel' =>
      _ ← free_desc i;
      s ← get;
      if Z.land (d_flags (desc s i)) VRING_DESC_F_NEXT =? 0 then mret ()
      else free_chain_from fuel' (d_next (desc s i))
  end.
Definition free_chain (i : nat) : ST vsys () := free_chain_from (S NUM) i.

Fixpoint free_descs (idx : list nat) : ST vsys () :=
  match idx with
  | [] => mret ()
  | i :: idx' => _ ← free_desc i; free_descs idx'
  end.

(** The loop of [alloc3_desc] with [n] descriptors to get and [idx] got. *)
Fixpoint alloc_from (n : nat) (idx : list nat) : ST vsys (option (list nat)) :=
  match n with
  | O => mret (Some idx)
  | S n' =>
      r ← alloc_desc;
      match r with
      | Some i => alloc_from n' (idx ++ [i])
      | None => _ ← free_descs idx; mret None
      end
  end.
Definition alloc3_desc : ST vsys (option (list nat)) := alloc_from 3 [].

(** Format the three descriptors, record the buffer, put the head into the
    available ring and notify the device. *)
Definition rw_submit (t b : nat) (w : bool) (sector : Z) (i0 i1 i2 : nat) : ST vsys () :=
  _ ← modify (λ s, s <| hdr ::= <[t := OutHdr (if w then VIRTIO_BLK_T_OUT else VIRTIO_BLK_T_IN) 0 sector]> |>);
  _ ← modify (λ s, s <| desc ::= <[i0 := VDesc (AHdr t) 16 VRING_DESC_F_NEXT i1]> |>);
  _ ← modify (λ s, s <| desc ::= <[i1 := VDesc (AData b) BSIZE
          (Z.lor (if w then 0 else VRING_DESC_F_WRITE) VRING_DESC_F_NEXT) i2]> |>);
  _ ← modify (λ s, s <| info_status ::= <[i0 := 0]> |>
                     <| desc ::= <[i2 := VDesc (AStatus i0) 1 VRING_DESC_F_WRITE 0]> |>);
  _ ← modify (λ s, s <| bufs ::= λ B, <[b := (B b) <| vb_disk := 1 |>]> B |> <| info_b ::= <[i0 := Some b]> |>);
  _ ← modify (λ s, s <| avail ::= fupd (avail_idx s mod Z.of_nat NUM) i0 |>);
  _ ← modify (λ s, s <| avail_idx ::= λ n, u16 (n + 1) |>);
  modify (λ s, s <| notify := true |>).

(** [while (b->disk == 1) sleep(b, ...)] and the rest of the function. *)
Definition rw_wait (t b : nat) (w : bool) (i0 i1 i2 : nat) : ST vsys () :=
  s ← get;
  if vb_disk (bufs s b) =? 1 then sleep_on t (ChBuf b) (VWait b w i0 i1 i2)
  else
    _ ← modify (λ s, s <| info_b ::= <[i0 := None]> |>);
    _ ← free_chain i0;
    modify (λ s, s <| call ::= <[t := VIdle]> |>).

(** One turn of the loop that gets the descriptors. *)
Definition rw_alloc (t b : nat) (w : bool) (sector : Z) : ST vsys () :=
  r ← alloc3_desc;
  match r with
  | Some [i0; i1; i2] => _ ← rw_submit t b w sector i0 i1 i2; rw_wait t b w i0 i1 i2
  | _ => sleep_on t ChFree (VAlloc b w sector)
  end.

Definition virtio_disk_rw (t b : nat) (w : bool) : ST vsys () :=
  s ← get;
  rw_alloc t b w (u32 (vb_blockno (bufs s b) * (BSIZE / 512))).

(** What a process does when it is back from [sleep]. *)
Definition rw_resume (t : nat) : ST vsys () :=
  s ← get;
  match call s t with
  | VIdle => mret ()
  | VAlloc b w sector => rw_alloc t b w sector
  | VWait b w i0 i1 i2 => rw_wait t b w i0 i1 i2
  end.

(** The test and the body of the loop of the interrupt handler. *)
Definition intr_more (s : vsys) : bool := negb (used_idx s mod Z.of_nat NUM =? used_id s mod Z.of_nat NUM).

(** The two out-of-range outcomes are accesses the code makes unchecked: the
    model stops where the code would read past [info] or through a null buffer. *)
Definition intr_body : ST vsys () :=
  s ← get;
  let id := used s (used_idx s) in
  if (NUM <=? id)%nat then panic "info[id]: out of bounds"
  else if negb (info_status s id =? 0) then panic "virtio_disk_intr status"
  else
    match info_b s id with
    | None => panic "info[id].b: null pointer"
    | Some b =>
        _ ← modify (λ s, s <| bufs ::= λ B, <[b := (B b) <| vb_disk := 0 |>]> B |>);
        _ ← disk_wakeup (ChBuf b);
        modify (λ s, s <| used_idx ::= λ n, (n + 1) mod Z.of_nat NUM |>)
    end.

Definition intr_ack : ST vsys () := modify (λ s, s <| irq := false |>).

(** The handler, when the device does nothing in between; the loop visits an
    entry of the ring at most once. *)
Fixpoint intr_loop (fuel : nat) : ST vsys () :=
  match fuel with
  | O => blocks
  | S fuel' => s ← get; if intr_more s then _ ← intr_body; intr_loop fuel' else mret ()
  end.
Definition virtio_disk_intr : ST vsys () := _ ← intr_loop NUM; intr_ack.

(** [virtio_disk_init]: the registers it reads are [reg]; the result is the
    writes to registers in order (the page number of the rings is [pfn]), and the
    state of the driver with its rings cleared. *)
Definition VIRTIO_MMIO_MAGIC_VALUE : Z := 0x000.
Definition VIRTIO_MMIO_VERSION : Z := 0x004.
Definition VIRTIO_MMIO_DEVICE_ID : Z := 0x008.
Definition VIRTIO_MMIO_VENDOR_ID : Z := 0x00c.
Definition VIRTIO_MMIO_DEVICE_FEATURES : Z := 0x010.
Definition VIRTIO_MMIO_DRIVER_FEATURES : Z := 0x020.
Definition VIRTIO_MMIO_GUEST_PAGE_SIZE : Z := 0x028.
Definition VIRTIO_MMIO_QUEUE_SEL : Z := 0x030.
Definition VIRTIO_MMIO_QUEUE_NUM_MAX : Z := 0x034.
Definition VIRTIO_MMIO_QUEUE_NUM : Z := 0x038.
Definition VIRTIO_MMIO_QUEUE_PFN : Z := 0x040.
Definition VIRTIO_MMIO_STATUS : Z := 0x070.
Definition VIRTIO_CONFIG_S_ACKNOWLEDGE : Z := 1.
Definition VIRTIO_CONFIG_S_DRIVER : Z := 2.
Definition VIRTIO_CONFIG_S_DRIVER_OK : Z := 4.
Definition VIRTIO_CONFIG_S_FEATURES_OK : Z := 8.

(** The feature bits the driver turns off: RO, SCSI, CONFIG_WCE, MQ, ANY_LAYOUT,
    EVENT_IDX, INDIRECT_DESC. *)
Definition refused_features : list Z := [5; 7; 11; 12; 27; 29; 28].
Definition negotiate (features : Z) : Z :=
  fold_left (λ f k, Z.land f (Z.lnot (Z.shiftl 1 k))) refused_features features.

Definition virtio_setup (reg : Z → Z) (pfn : Z) : outcome (list (Z * Z)) :=
  if negb (reg VIRTIO_MMIO_MAGIC_VALUE =? 0x74726976) || negb (reg VIRTIO_MMIO_VERSION =? 1) ||
     negb (reg VIRTIO_MMIO_DEVICE_ID =? 2) || negb (reg VIRTIO_MMIO_VENDOR_ID =? 0x554d4551)
  then Panic "could not find virtio disk"
  else
    let st1 := VIRTIO_CONFIG_S_ACKNOWLEDGE in
    let st2 := Z.lor st1 VIRTIO_CONFIG_S_DRIVER in
    let st3 := Z.lor st2 VIRTIO_CONFIG_S_FEATURES_OK in
    let st4 := Z.lor st3 VIRTIO_CONFIG_S_DRIVER_OK in
    if reg VIRTIO_MMIO_QUEUE_NUM_MAX =? 0 then Panic "virtio disk has no queue 0"
    else if reg VIRTIO_MMIO_QUEUE_NUM_MAX <? Z.of_nat NUM then Panic "virtio disk max queue too short"
    else Ret [(VIRTIO_MMIO_STATUS, st1); (VIRTIO_MMIO_STATUS, st2);
              (VIRTIO_MMIO_DRIVER_FEATURES, u32 (negotiate (reg VIRTIO_MMIO_DEVICE_FEATURES)));
              (VIRTIO_MMIO_STATUS, st3); (VIRTIO_MMIO_STATUS, st4);
              (VIRTIO_MMIO_GUEST_PAGE_SIZE, 4096); (VIRTIO_MMIO_QUEUE_SEL, 0);
              (VIRTIO_MMIO_QUEUE_NUM, Z.of_nat NUM); (VIRTIO_MMIO_QUEUE_PFN, pfn)].

(** The driver after [virtio_disk_init], the medium and the buffers as they are. *)
Definition virtio_disk_init (D : Z → block) (B : nat → vbuf) (H : nat → virtio_blk_outhdr) : vsys :=
  VSys (λ _, VDesc ANull 0 0 0) (λ _, O) 0 (λ _, O) 0 (replicate NUM true) 0 (λ _, None) (λ _, 0)
    B H (λ _, VIdle) (λ _, None) HOut false false 0 [] D.

(** ** The device *)

Definition flag_on (f m : Z) : bool := negb (Z.land f m =? 0).

(** The request the chain at [h] describes, if it is one of a block device:
    a header, the data with the direction the header asks for, a status byte. *)
Definition dev_request (s : vsys) (h : nat) : option devreq :=
  let d0 := desc s h in
  let d1 := desc s (d_next d0) in
  let d2 := desc s (d_next d1) in
  match d_addr d0, d_addr d1, d_addr d2 with
  | AHdr t, AData b, AStatus i =>
      let w := h_type (hdr s t) =? VIRTIO_BLK_T_OUT in
      if flag_on (d_flags d0) VRING_DESC_F_NEXT && negb (flag_on (d_flags d0) VRING_DESC_F_WRITE) && (d_len d0 =? 16)
         && flag_on (d_flags d1) VRING_DESC_F_NEXT && eqb (flag_on (d_flags d1) VRING_DESC_F_WRITE) (negb w)
         && (d_len d1 =? BSIZE) && negb (flag_on (d_flags d2) VRING_DESC_F_NEXT)
         && flag_on (d_flags d2) VRING_DESC_F_WRITE && (d_len d2 =? 1)
      then Some (DevReq h w (h_sector (hdr s t)) b i) else None
  | _, _, _ => None
  end.

(** Two sectors starting at [x]. *)
Definition rd_sectors (D : Z → block) (x : Z) : block := D x ++ D (x + 1).
Definition wr_sectors (D : Z → block) (x : Z) (d : block) : Z → block :=
  fupd (x + 1) (drop 512 d) (fupd x (take 512 d) D).

(** The transfer of a request. *)
Definition dev_transfer (r : devreq) (s : vsys) : vsys :=
  if r_write r then s <| sectors ::= λ D, wr_sectors D (r_sector r) (vb_data (bufs s (r_buf r))) |>
  else s <| bufs ::= λ B, <[r_buf r := (B (r_buf r)) <| vb_data := rd_sectors (sectors s) (r_sector r) |>]> B |>.

(** The device reports request [r] with status [st]; a request that fails
    transfers nothing. *)
Definition dev_report (r : devreq) (st : Z) (s : vsys) : vsys :=
  (if st =? 0 then dev_transfer r s else s)
    <| info_status ::= <[r_stat r := st]> |>
    <| used ::= fupd (used_id s mod Z.of_nat NUM) (r_head r) |>
    <| used_id ::= λ n, u16 (n + 1) |> <| irq := true |>.

(** ** The system *)

Definition uses (c : vcall) : option nat :=
  match c with VIdle => None | VAlloc b _ _ | VWait b _ _ _ _ => Some b end.

(** A block operation, as the callers see it, and its result: the data of the
    buffer when the call returns. *)
Inductive bop := BRead (n : Z) | BWrite (n : Z) (d : block).
Inductive vevent := Invoke (t : nat) (o : bop) | Return (t : nat) (d : block).

Definition op_of (x : vbuf) (w : bool) : bop :=
  if w then BWrite (vb_blockno x) (vb_data x) else BRead (vb_blockno x).

Inductive v_step : vsys → option vevent → vsys → Prop :=
| VCall t b w s s' :
    (* the caller holds the sleep lock of the buffer, and the block is on the disk *)
    ipc s = HOut → call s t = VIdle → (∀ t', uses (call s t') ≠ Some b) →
    0 ≤ vb_blockno (bufs s b) < 2 ^ 31 → length (vb_data (bufs s b)) = 1024%nat →
    run (virtio_disk_rw t b w) s () s' → v_step s (Some (Invoke t (op_of (bufs s b) w))) s'
| VRun t b s s' :
    ipc s = HOut → asleep s t = None → uses (call s t) = Some b → run (rw_resume t) s () s' →
    v_step s (if call s' t is VIdle then Some (Return t (vb_data (bufs s' b))) else None) s'
| VKill t s : v_step s None (s <| asleep ::= <[t := None]> |>)
| VBuf_set b n d s :
    (* the owner of a buffer that is not in a call changes it *)
    (∀ t, uses (call s t) ≠ Some b) →
    v_step s None (s <| bufs ::= λ B, <[b := VBuf n d (vb_disk (B b))]> B |>)
| VEnter s : irq s = true → ipc s = HOut → v_step s None (s <| ipc := HLoop |>)
| VCollect s s' : ipc s = HLoop → intr_more s = true → run intr_body s () s' → v_step s None s'
| VExit s : ipc s = HLoop → intr_more s = false → v_step s None (s <| ipc := HAck |>)
| VAck s s' : ipc s = HAck → run intr_ack s () s' → v_step s None (s' <| ipc := HOut |>)
| VPop r s :
    notify s = true → dv_last s ≠ avail_idx s →
    dev_request s (avail s (dv_last s mod Z.of_nat NUM)) = Some r →
    v_step s None (s <| dv_fly ::= λ l, l ++ [r] |> <| dv_last ::= λ n, u16 (n + 1) |>
                     <| notify := negb (u16 (dv_last s + 1) =? avail_idx s) |>)
| VReport l1 r l2 st s :
    dv_fly s = l1 ++ r :: l2 →
    v_step s None ((dev_report r st s) <| dv_fly := l1 ++ l2 |>).

(** Runs with the events the callers see. *)
Inductive v_run (s : vsys) : list vevent → vsys → Prop :=
| VRefl : v_run s [] s
| VNext tr l u u' : v_run s tr u → v_step u l u' → v_run s (tr ++ option_list l) u'.

(** ** The specification: a disk of blocks with atomic operations

    A call is announced, takes effect at one moment, and returns. *)
Inductive bcall := BNone | BPending (o : bop) | BDone (d : block).
Record bdst := Bdst { bd_disk : Z → block; bd_call : nat → bcall }.

Inductive bd_step : bdst → option vevent → bdst → Prop :=
| BInvoke D C t o : C t = BNone → bd_step (Bdst D C) (Some (Invoke t o)) (Bdst D (<[t := BPending o]> C))
| BReadS D C t n : C t = BPending (BRead n) → bd_step (Bdst D C) None (Bdst D (<[t := BDone (D n)]> C))
| BWriteS D C t n d : C t = BPending (BWrite n d) →
    bd_step (Bdst D C) None (Bdst (fupd n d D) (<[t := BDone d]> C))
| BReturn D C t d : C t = BDone d → bd_step (Bdst D C) (Some (Return t d)) (Bdst D (<[t := BNone]> C)).

Inductive bd_run (a : bdst) : list vevent → bdst → Prop :=
| BRefl : bd_run a [] a
| BNext tr l b b' : bd_run a tr b → bd_step b l b' → bd_run a (tr ++ option_list l) b'.
