(* ===== verification/VirtioInv.v ===== *)
(** * The invariant of the disk driver and the effect of its functions on it *)

From stdpp Require Import functions.
From S2P Require Import Prelude Bytes Virtio.

(** ** Descriptors given out and taken back *)

(** [s'] is [s] with the descriptors of [idx], free in [s], marked as used. *)
Definition taken (idx : list nat) (s s' : vsys) : Prop :=
  ∃ F, s' = s <| free := F |> ∧ NoDup idx ∧ length F = length (free s) ∧
    (∀ i, i ∈ idx → free s !! i = Some true ∧ F !! i = Some false) ∧ (∀ i, i ∉ idx → F !! i = free s !! i) ∧
    tally id (free s) = tally id F + Z.of_nat (length idx).

(** [s'] is [s] with the descriptors of [idx] given back and the processes that wait
    for one woken. *)
Definition gave_back (idx : list nat) (s s' : vsys) : Prop :=
  ∃ D F A, s' = s <| desc := D |> <| free := F |> <| asleep := A |> ∧ length F = length (free s) ∧
    (∀ i, i ∉ idx → D i = desc s i) ∧
    (∀ i, d_flags (D i) = d_flags (desc s i) ∧ d_next (D i) = d_next (desc s i)) ∧
    (∀ i, i ∈ idx → F !! i = Some true) ∧ (∀ i, i ∉ idx → F !! i = free s !! i) ∧
    (∀ t, A t = asleep s t ∨ A t = None) ∧ (idx ≠ [] → ∀ t, A t ≠ Some ChFree).

Lemma taken_nil s : taken [] s s.
Proof. exists (free s). destruct s. split_and!; first [done|by constructor|by intros i ?%elem_of_nil|cbn; lia]. Qed.

Lemma alloc_desc_taken idx s s1 : taken idx s s1 →
  (∃ i s2, run alloc_desc s1 (Some i) s2 ∧ taken (idx ++ [i]) s s2) ∨
  (run alloc_desc s1 None s1 ∧ tally id (free s) = Z.of_nat (length idx)).
Proof.
  intros (F & -> & Hnd & Hlen & Hin & Hout & Ht). unfold alloc_desc, mbind, ST_bind. cbn -[findi].
  destruct (findi id F) as [i|] eqn:E; [left|right].
  - apply findi_lookup in E as (x & Hi & Hx). cbn in Hx. subst x.
    assert (Hn : i ∉ idx) by (intros H%Hin; naive_solver).
    eexists i, _. split; [done|]. exists (<[i := false]> F). cbn. split_and!.
    + by destruct s.
    + apply NoDup_app. split_and!; [done| |apply NoDup_singleton].
      intros j Hj ->%list_elem_of_singleton. done.
    + by rewrite length_insert.
    + intros j [Hj| ->%list_elem_of_singleton]%elem_of_app.
      * rewrite list_lookup_insert_ne by (by intros ->). by apply Hin.
      * rewrite list_lookup_insert_eq by (by eapply lookup_lt_Some). split; [|done]. by rewrite <-Hout.
    + intros j Hj. rewrite not_elem_of_app, list_elem_of_singleton in Hj. rewrite list_lookup_insert_ne by naive_solver.
      naive_solver.
    + rewrite (tally_insert _ _ _ _ _ Hi), length_app. cbn. cbn in Ht. lia.
  - split; [done|]. rewrite Ht. rewrite findi_None in E. assert (tally id F = 0) as ->; [|lia].
    apply tally_zero. apply E.
Qed.

Lemma gave_back_nil s : gave_back [] s s.
Proof. exists (desc s), (free s), (asleep s). destruct s. split_and!; first [done|by intros i ?%elem_of_nil|by left]. Qed.

Lemma gave_back_cons idx i s s1 : gave_back idx s s1 → length (free s) = NUM → free s1 !! i = Some false →
  ∃ s2, run (free_desc i) s1 () s2 ∧ gave_back (i :: idx) s s2.
Proof.
  intros (D & F & A & -> & Hlen & HD & HDf & Hin & Hout & HA & HA') Hn Hi. cbn in Hi. cbn in Hlen.
  unfold free_desc. rewrite (proj2 (Nat.leb_gt NUM i)) by (rewrite <-Hn, <-Hlen; by eapply lookup_lt_Some).
  unfold mbind, ST_bind. cbn -[NUM]. rewrite Hi. cbn -[NUM]. eexists. split; [done|].
  exists (<[i := (D i) <| d_addr := ANull |>]> D), (<[i := true]> F), (λ t, if decide (A t = Some ChFree) then None else A t).
  split; [reflexivity|].
  split_and!.
  - by rewrite length_insert.
  - intros j Hj. rewrite not_elem_of_cons in Hj. rewrite fn_lookup_insert_ne by naive_solver. naive_solver.
  - intros j. destruct (decide (i = j)) as [<-|]; [rewrite fn_lookup_insert|rewrite fn_lookup_insert_ne by done]; apply HDf.
  - intros j [->|Hj]%elem_of_cons; [apply list_lookup_insert_eq; by eapply lookup_lt_Some|].
    destruct (decide (i = j)) as [<-|]; [apply list_lookup_insert_eq; by eapply lookup_lt_Some|].
    rewrite list_lookup_insert_ne by done. by apply Hin.
  - intros j Hj. rewrite not_elem_of_cons in Hj. rewrite list_lookup_insert_ne by naive_solver. naive_solver.
  - intros t. case_decide; [by right|apply HA].
  - intros _ t. case_decide; [done|naive_solver].
Qed.

Lemma free_descs_gave_back idx old s s1 : gave_back old s s1 → length (free s) = NUM → NoDup (old ++ idx) →
  (∀ i, i ∈ idx → free s !! i = Some false) →
  ∃ s2, run (free_descs idx) s1 () s2 ∧ gave_back (reverse idx ++ old) s s2.
Proof.
  revert old s1. induction idx as [|i idx IH]; intros old s1 Hf Hn Hnd Hin; cbn [free_descs].
  - by exists s1.
  - assert (Hi : free s1 !! i = Some false).
    { destruct Hf as (D & F & A & -> & _ & _ & _ & _ & Hout & _). cbn. rewrite Hout; [apply Hin; left|].
      apply NoDup_app in Hnd as (_ & H & _). intros Ho. apply (H i Ho). left. }
    destruct (gave_back_cons _ _ _ _ Hf Hn Hi) as (s2 & E & Hf2). step_with E.
    destruct (IH (i :: old) s2) as (s3 & E3 & Hf3); [done|done| |intros j Hj; apply Hin; by right|].
    + cbn. by rewrite Permutation_middle.
    + exists s3. split; [done|]. by rewrite reverse_cons, <-app_assoc.
Qed.

(** A failed allocation gives everything back. *)
Definition gave_up (s s' : vsys) : Prop :=
  ∃ D A, s' = s <| desc := D |> <| asleep := A |> ∧
    (∀ i, free s !! i = Some false → D i = desc s i) ∧ (∀ t, A t = asleep s t ∨ A t = None).

Lemma taken_gave_up idx s s1 : taken idx s s1 → length (free s) = NUM →
  ∃ s2, run (free_descs idx) s1 () s2 ∧ gave_up s s2.
Proof.
  intros (F & -> & Hnd & Hlen & Hin & Hout & Ht) Hn.
  destruct (free_descs_gave_back idx [] _ _ (gave_back_nil (s <| free := F |>))) as (s2 & E & Hf); [cbn; lia|done|naive_solver|].
  exists s2. split; [done|]. destruct Hf as (D & F' & A & -> & Hlen' & HD & _ & Hin' & Hout' & HA & _).
  rewrite app_nil_r in *. assert (F' = free s) as ->.
  { apply list_eq. intros i. destruct (decide (i ∈ idx)) as [Hi|Hi].
    - rewrite Hin' by (by rewrite elem_of_reverse). symmetry. by apply Hin.
    - rewrite Hout' by (by rewrite elem_of_reverse). by apply Hout. }
  exists D, A. split_and!; [by destruct s| |done]. intros i Hi. apply HD. rewrite elem_of_reverse.
  intros Hx%Hin. naive_solver.
Qed.

Lemma alloc_from_spec n idx s s1 : taken idx s s1 → length (free s) = NUM →
  (∃ L s2, run (alloc_from n idx) s1 (Some (idx ++ L)) s2 ∧ length L = n ∧ taken (idx ++ L) s s2) ∨
  (∃ s2, run (alloc_from n idx) s1 None s2 ∧ tally id (free s) < Z.of_nat (length idx + n) ∧ gave_up s s2).
Proof.
  intros Ht Hn. revert idx s1 Ht. induction n as [|n IH]; intros idx s1 Ht; cbn [alloc_from].
  - left. exists [], s1. by rewrite app_nil_r.
  - destruct (alloc_desc_taken _ _ _ Ht) as [(i & s2 & E & Ht2)|[E Hc]]; step_with E.
    + destruct (IH _ _ Ht2) as [(L & s3 & E3 & HL & Ht3)|(s3 & E3 & Hlt & Hg)]; [left|right].
      * exists (i :: L), s3. rewrite <-app_assoc in E3, Ht3. cbn. by rewrite HL.
      * exists s3. split_and!; [done| |done]. rewrite length_app in Hlt. cbn in Hlt. lia.
    + right. destruct (taken_gave_up _ _ _ Ht Hn) as (s2 & E2 & Hg). step_with E2.
      exists s2. split_and!; [done|lia|done].
Qed.

Lemma alloc3_spec s : length (free s) = NUM →
  (∃ i0 i1 i2 s', run alloc3_desc s (Some [i0; i1; i2]) s' ∧ taken [i0; i1; i2] s s') ∨
  (∃ s', run alloc3_desc s None s' ∧ tally id (free s) < 3 ∧ gave_up s s').
Proof.
  intros Hn. destruct (alloc_from_spec 3 [] s s (taken_nil s) Hn) as [(L & s' & E & HL & Ht)|H]; [left|by right].
  destruct L as [|i0 [|i1 [|i2 [|]]]]; try done. by exists i0, i1, i2, s'.
Qed.

Lemma free_chain_step fuel i s s' : run (free_desc i) s () s' →
  free_chain_from (S fuel) i s =
    if flag_on (d_flags (desc s' i)) VRING_DESC_F_NEXT then free_chain_from fuel (d_next (desc s' i)) s' else Ret ((), s').
Proof.
  intros E. cbn [free_chain_from]. step_with E. unfold mbind, ST_bind, flag_on. cbn [get]. by destruct (_ =? 0).
Qed.

(** A chain of three goes back whole. *)
Lemma free_chain_gave_back s i0 i1 i2 : length (free s) = NUM → NoDup [i0; i1; i2] →
  (∀ i, i ∈ [i0; i1; i2] → free s !! i = Some false) →
  flag_on (d_flags (desc s i0)) VRING_DESC_F_NEXT = true → d_next (desc s i0) = i1 →
  flag_on (d_flags (desc s i1)) VRING_DESC_F_NEXT = true → d_next (desc s i1) = i2 →
  flag_on (d_flags (desc s i2)) VRING_DESC_F_NEXT = false →
  ∃ s', run (free_chain i0) s () s' ∧ gave_back [i2; i1; i0] s s'.
Proof.
  intros Hn Hnd Hin Hf0 Hx0 Hf1 Hx1 Hf2. unfold free_chain.
  assert (Hstep : ∀ L i s1, gave_back L s s1 → i ∉ L → free s !! i = Some false →
    ∃ s2, run (free_desc i) s1 () s2 ∧ gave_back (i :: L) s s2 ∧ d_flags (desc s2 i) = d_flags (desc s i) ∧
      d_next (desc s2 i) = d_next (desc s i)).
  { intros L i s1 H1 Hi Hb. destruct (gave_back_cons L i s s1 H1 Hn) as (s2 & E & H2).
    - destruct H1 as (D & F & A & -> & _ & _ & _ & _ & Hout & _). cbn. by rewrite Hout.
    - exists s2. split_and!; [done..| |]; destruct H2 as (D & F & A & -> & _ & _ & Hd & _); cbn; apply Hd. }
  rewrite !NoDup_cons, !not_elem_of_cons in Hnd.
  destruct (Hstep [] i0 s (gave_back_nil s)) as (s1 & E1 & H1 & Hfl1 & Hnx1); [set_solver|apply Hin; set_solver|].
  rewrite (free_chain_step _ _ _ _ E1), Hfl1, Hf0, Hnx1, Hx0.
  destruct (Hstep [i0] i1 s1 H1) as (s2 & E2 & H2 & Hfl2 & Hnx2); [set_solver|apply Hin; set_solver|].
  unfold NUM. rewrite (free_chain_step _ _ _ _ E2), Hfl2, Hf1, Hnx2, Hx1.
  destruct (Hstep [i1; i0] i2 s2 H2) as (s3 & E3 & H3 & Hfl3 & Hnx3); [set_solver|apply Hin; set_solver|].
  rewrite (free_chain_step _ _ _ _ E3), Hfl3, Hf2. by exists s3.
Qed.

(** ** The invariant *)

(** The descriptors of a call that waits for the device. *)
Definition ids (c : vcall) : list nat := match c with VWait _ _ i0 i1 i2 => [i0; i1; i2] | _ => [] end.

(** Every descriptor is free or belongs to one call. *)
Record own_ok (F : list bool) (C : nat → vcall) : Prop := OwnOk {
  own_len : length F = NUM;
  own_busy : ∀ t d, d ∈ ids (C t) → F !! d = Some false;
  own_nodup : ∀ t, NoDup (ids (C t));
  own_uniq : ∀ t t' d, d ∈ ids (C t) → d ∈ ids (C t') → t = t';
  own_all : ∀ d, F !! d = Some false → ∃ t, d ∈ ids (C t);
}.

(** A buffer is in at most one call, and is a block of the disk. *)
Definition buf_ok (C : nat → vcall) (B : nat → vbuf) : Prop :=
  (∀ t t' b, uses (C t) = Some b → uses (C t') = Some b → t = t') ∧
  ∀ t b, uses (C t) = Some b → 0 ≤ vb_blockno (B b) < 2 ^ 31 ∧ length (vb_data (B b)) = 1024%nat.

(** What the device finds when it follows the chain of a call. *)
Definition call_ok (D : nat → VRingDesc) (I : nat → option nat) (H : nat → virtio_blk_outhdr) (B : nat → vbuf)
    (t : nat) (c : vcall) : Prop :=
  match c with
  | VIdle => True
  | VAlloc b w x => x = 2 * vb_blockno (B b)
  | VWait b w i0 i1 i2 =>
      D i0 = VDesc (AHdr t) 16 VRING_DESC_F_NEXT i1 ∧
      D i1 = VDesc (AData b) BSIZE (Z.lor (if w then 0 else VRING_DESC_F_WRITE) VRING_DESC_F_NEXT) i2 ∧
      D i2 = VDesc (AStatus i0) 1 VRING_DESC_F_WRITE 0 ∧ I i0 = Some b ∧
      H t = OutHdr (if w then VIRTIO_BLK_T_OUT else VIRTIO_BLK_T_IN) 0 (2 * vb_blockno (B b))
  end.

(** The requests that are not finished, by the heads of their chains. *)
Definition heads_ok (C : nat → vcall) (B : nat → vbuf) (L : list nat) : Prop :=
  NoDup L ∧ (∀ h, h ∈ L → ∃ t b w i1 i2, C t = VWait b w h i1 i2 ∧ vb_disk (B b) = 1) ∧
  ∀ t b w h i1 i2, C t = VWait b w h i1 i2 → vb_disk (B b) = 1 → h ∈ L.

Definition fly_ok (C : nat → vcall) (B : nat → vbuf) (l : list devreq) : Prop :=
  ∀ r, r ∈ l → ∃ t b w i1 i2, C t = VWait b w (r_head r) i1 i2 ∧
    r = DevReq (r_head r) w (2 * vb_blockno (B b)) b (r_head r).

(** The entries of a ring from [x] on. *)
Definition ring_is (R : Z → nat) (x : Z) (L : list nat) : Prop :=
  ∀ j h, L !! j = Some h → R ((x + Z.of_nat j) mod Z.of_nat NUM) = h.
Definition avail_ok (R : Z → nat) (last idx : Z) (Q : list nat) : Prop :=
  0 ≤ last < 2 ^ 16 ∧ idx = u16 (last + Z.of_nat (length Q)) ∧ ring_is R last Q.
Definition used_ok (R : Z → nat) (x id : Z) (U : list nat) : Prop :=
  0 ≤ x < Z.of_nat NUM ∧ 0 ≤ id < 2 ^ 16 ∧ id mod Z.of_nat NUM = (x + Z.of_nat (length U)) mod Z.of_nat NUM ∧ ring_is R x U.

(** Who sleeps has a reason to. *)
Definition sleep_ok (C : nat → vcall) (A : nat → option chan) (B : nat → vbuf) (F : list bool) : Prop :=
  ∀ t ch, A t = Some ch →
    match ch with
    | ChFree => (∃ b w x, C t = VAlloc b w x) ∧ tally id F < 3
    | ChBuf b => ∃ w i0 i1 i2, C t = VWait b w i0 i1 i2 ∧ vb_disk (B b) = 1
    end.

(** [Q] is queued for the device, [U] reported by it and not yet collected. *)
Record vinv (s : vsys) (Q U : list nat) : Prop := VInv {
  v_own : own_ok (free s) (call s);
  v_buf : buf_ok (call s) (bufs s);
  v_call : ∀ t, call_ok (desc s) (info_b s) (hdr s) (bufs s) t (call s t);
  v_heads : heads_ok (call s) (bufs s) (Q ++ (r_head <$> dv_fly s) ++ U);
  v_fly : fly_ok (call s) (bufs s) (dv_fly s);
  v_avail : avail_ok (avail s) (dv_last s) (avail_idx s) Q;
  v_used : used_ok (used s) (used_idx s) (used_id s) U;
  v_sleep : sleep_ok (call s) (asleep s) (bufs s) (free s);
  v_notify : Q ≠ [] → notify s = true;
  v_sectors : ∀ x, length (sectors s x) = 512%nat;
}.

(** The call of the specification a process is in: it has taken effect once
    the device has reported it. *)
Definition acall (B : nat → vbuf) (St : nat → Z) (U : list nat) (c : vcall) : bcall :=
  match c with
  | VIdle => BNone
  | VAlloc b w _ => BPending (op_of (B b) w)
  | VWait b w h _ _ =>
      if decide (vb_disk (B b) = 1 ∧ ¬ (h ∈ U ∧ St h = 0)) then BPending (op_of (B b) w) else BDone (vb_data (B b))
  end.

Definition vrel (s : vsys) (U : list nat) (a : bdst) : Prop :=
  (∀ n, 0 ≤ n < 2 ^ 31 → bd_disk a n = rd_sectors (sectors s) (2 * n)) ∧
  ∀ t, bd_call a t = acall (bufs s) (info_status s) U (call s t).

Definition vsim (s : vsys) (a : bdst) : Prop := ∃ Q U, vinv s Q U ∧ vrel s U a.

(** ** How the parts change *)

#[local] Hint Rewrite @fn_lookup_insert : vfn.
#[local] Hint Rewrite @fn_lookup_insert_ne using congruence : vfn.
Ltac at_call t k := destruct (decide (t = k)) as [<-|?]; autorewrite with vfn in *.

Lemma ids_uses c d : d ∈ ids c → ∃ b w i0 i1 i2, c = VWait b w i0 i1 i2.
Proof. destruct c; cbn; [by intros ?%elem_of_nil..|eauto 10]. Qed.

Section own.
Context (F : list bool) (C : nat → vcall) (O : own_ok F C).

Lemma own_lt t d : d ∈ ids (C t) → (d < NUM)%nat.
Proof using O. intros H. rewrite <-(own_len F C O). eapply lookup_lt_Some. by eapply own_busy. Qed.

Lemma desc_keep t c : ids c = ids (C t) → own_ok F (<[t := c]> C).
Proof using O.
  intros E. assert (E' : ∀ k, ids ((<[t := c]> C) k) = ids (C k)) by (intros k; by at_call t k).
  destruct O as [H1 H2 H3 H4 H5]. constructor; [done|intros k..|intros d Hd]; try setoid_rewrite E'; eauto.
Qed.

Lemma desc_take F' t b w i0 i1 i2 : ids (C t) = [] → NoDup [i0; i1; i2] → length F' = length F →
  (∀ i, i ∈ [i0; i1; i2] → F !! i = Some true ∧ F' !! i = Some false) → (∀ i, i ∉ [i0; i1; i2] → F' !! i = F !! i) →
  own_ok F' (<[t := VWait b w i0 i1 i2]> C).
Proof using O.
  intros Et Hnd Hlen Hin Hout. destruct O as [H1 H2 H3 H4 H5].
  assert (Hne : ∀ k d, d ∈ ids (C k) → d ∉ [i0; i1; i2]).
  { intros k d Hd Hx. apply H2 in Hd. apply Hin in Hx as [Hx _]. congruence. }
  constructor.
  - congruence.
  - intros k d. at_call t k; cbn [ids]; [intros Hd; by apply Hin|]. intros Hd. rewrite Hout; eauto.
  - intros k. by at_call t k.
  - intros k k' d. at_call t k; at_call t k'; cbn [ids]; try done; [| |by apply H4].
    + intros Hd Hd'. by destruct (Hne k' d).
    + intros Hd Hd'. by destruct (Hne k d).
  - intros d Hd. destruct (decide (d ∈ [i0; i1; i2])) as [Hx|Hx].
    + exists t. by autorewrite with vfn.
    + rewrite Hout in Hd by done. destruct (H5 d Hd) as [k Hk]. exists k.
      at_call t k; [|done]. rewrite Et in Hk. by apply elem_of_nil in Hk.
Qed.

Lemma desc_drop F' t : length F' = length F →
  (∀ i, i ∈ ids (C t) → F' !! i = Some true) → (∀ i, i ∉ ids (C t) → F' !! i = F !! i) →
  own_ok F' (<[t := VIdle]> C).
Proof using O.
  intros Hlen Hin Hout. destruct O as [H1 H2 H3 H4 H5]. constructor.
  - congruence.
  - intros k d. at_call t k; cbn [ids]; [by intros ?%elem_of_nil|]. intros Hd. rewrite Hout; [eauto|].
    intros Hd'. by pose proof (H4 _ _ _ Hd Hd').
  - intros k. at_call t k; [constructor|done].
  - intros k k' d. at_call t k; at_call t k'; cbn [ids]; try done; [by intros ?%elem_of_nil|by intros ? ?%elem_of_nil|by apply H4].
  - intros d Hd. destruct (decide (d ∈ ids (C t))) as [Hx|Hx]; [rewrite Hin in Hd; done|].
    rewrite Hout in Hd by done. destruct (H5 d Hd) as [k Hk]. exists k. by at_call t k.
Qed.

(** Fewer requests than ring entries: the second descriptor of a chain is no head. *)
Lemma heads_short B L : heads_ok C B L → (length L < NUM)%nat.
Proof using O.
  intros (Hnd & Hh & _). destruct L as [|h L]; [unfold NUM; cbn; lia|].
  assert (Hlt : ∀ x, x ∈ h :: L → (x < NUM)%nat).
  { intros x (t & b & w & i1 & i2 & E & _)%Hh. apply (own_lt t). rewrite E. by left. }
  destruct (Hh h) as (t & b & w & i1 & i2 & E & _); [by left|].
  assert (Hi : i1 ∉ h :: L).
  { intros (t' & b' & w' & j1 & j2 & E' & _)%Hh. assert (t' = t) as ->.
    { apply (own_uniq F C O _ _ i1); [rewrite E'|rewrite E]; set_solver. }
    rewrite E in E'. injection E' as -> -> -> _ _. pose proof (own_nodup F C O t) as Hn. rewrite E in Hn.
    apply NoDup_cons in Hn as [Hn _]. apply Hn. by left. }
  assert (length (i1 :: h :: L) ≤ length (seq 0 NUM))%nat as Hl; [|rewrite length_seq in Hl; cbn in *; lia].
  apply submseteq_length, NoDup_submseteq; [by constructor|]. intros x Hx. apply elem_of_seq. split; [lia|].
  apply elem_of_cons in Hx as [->|Hx]; [|by apply Hlt]. apply (own_lt t). rewrite E. set_solver.
Qed.

Lemma wait_inj t t' b w i1 i2 b' w' j1 j2 h :
  C t = VWait b w h i1 i2 → C t' = VWait b' w' h j1 j2 → t = t' ∧ b = b' ∧ w = w' ∧ i1 = j1 ∧ i2 = j2.
Proof using O.
  intros E E'. assert (t = t') as ->; [apply (own_uniq F C O _ _ h); [rewrite E|rewrite E']; by left|].
  rewrite E in E'. by injection E' as -> -> -> ->.
Qed.
End own.

(** The invariant depends on the buffers in calls, and not on their bytes. *)
Section agree.
Context (C : nat → vcall) (B B' : nat → vbuf).
Context (H : ∀ t b, uses (C t) = Some b → vb_blockno (B' b) = vb_blockno (B b) ∧
  length (vb_data (B' b)) = length (vb_data (B b))).

Lemma buf_agree : buf_ok C B → buf_ok C B'.
Proof using H. intros [H1 H2]. split; [done|]. intros t b Hb. destruct (H t b Hb) as (-> & ->). by eapply H2. Qed.
Lemma call_agree D I X t : call_ok D I X B t (C t) → call_ok D I X B' t (C t).
Proof using H. intros Hc. specialize (H t). destruct (C t) as [|b|b]; [done|..]; cbn in *; by destruct (H b eq_refl) as (-> & _). Qed.
Lemma fly_agree l : fly_ok C B l → fly_ok C B' l.
Proof using H.
  intros Hf r (t & b & w & i1 & i2 & E & Er)%Hf. exists t, b, w, i1, i2. by destruct (H t b) as [-> _]; [rewrite E|].
Qed.

Context (Hd : ∀ t b, uses (C t) = Some b → vb_disk (B' b) = vb_disk (B b)).
Lemma wait_agree t b w i0 i1 i2 : C t = VWait b w i0 i1 i2 → vb_disk (B' b) = vb_disk (B b).
Proof using Hd. intros E. apply (Hd t). by rewrite E. Qed.
Lemma heads_agree L : heads_ok C B L → heads_ok C B' L.
Proof using Hd.
  intros (Hn & Hh & Hc). split_and!; [done| |].
  - intros h (t & b & w & i1 & i2 & E & Ho)%Hh. exists t, b, w, i1, i2. by rewrite (wait_agree _ _ _ _ _ _ E).
  - intros t b w h i1 i2 E. rewrite (wait_agree _ _ _ _ _ _ E). by eapply Hc.
Qed.
Lemma sleep_agree A F : sleep_ok C A B F → sleep_ok C A B' F.
Proof using Hd.
  intros Hs t ch Ht. specialize (Hs t ch Ht). destruct ch as [|b]; [done|].
  destruct Hs as (w & i0 & i1 & i2 & E & Ho). exists w, i0, i1, i2. by rewrite (wait_agree _ _ _ _ _ _ E).
Qed.
End agree.

Lemma acall_ext B B' St St' U U' c : (∀ b, uses c = Some b → B' b = B b) →
  (∀ b w h i1 i2, c = VWait b w h i1 i2 → (h ∈ U' ∧ St' h = 0) ↔ (h ∈ U ∧ St h = 0)) →
  acall B' St' U' c = acall B St U c.
Proof.
  intros HB HU. destruct c as [|b w x|b w h i1 i2]; cbn in *; [done|by rewrite HB|]. rewrite (HB b eq_refl).
  by rewrite (decide_ext _ _ _ _ (and_iff_compat_l _ (not_iff_compat (HU _ _ _ _ _ eq_refl)))).
Qed.

(** Sleepers may be woken at any time. *)
Lemma sleep_woken C A A' B F : (∀ t, A' t = A t ∨ A' t = None) → sleep_ok C A B F → sleep_ok C A' B F.
Proof. intros HA Hs t ch Ht. destruct (HA t) as [E|E]; rewrite E in Ht; [by apply Hs|done]. Qed.

Lemma buf_set C B t c : buf_ok C B →
  (∀ b, uses c = Some b → (∀ t', uses (C t') = Some b → t' = t) ∧ 0 ≤ vb_blockno (B b) < 2 ^ 31 ∧
     length (vb_data (B b)) = 1024%nat) → buf_ok (<[t := c]> C) B.
Proof.
  intros [H1 H2] Hc. split.
  - intros k k' b. at_call t k; at_call t k'; [done|..|apply H1].
    + intros [Hx _]%Hc Hk. symmetry. by apply Hx.
    + intros Hk [Hx _]%Hc. by apply Hx.
  - intros k b. at_call t k; [intros [_ Hx]%Hc; done|apply H2].
Qed.

Lemma call_ext D D' I I' X X' B t c : call_ok D I X B t c →
  (∀ d, d ∈ ids c → D' d = D d ∧ I' d = I d) → X' t = X t → call_ok D' I' X' B t c.
Proof.
  intros H Hd HX. destruct c as [|b w x|b w i0 i1 i2]; [done..|]. cbn in *.
  destruct (Hd i0) as [-> ->]; [set_solver|]. destruct (Hd i1) as [-> _]; [set_solver|].
  destruct (Hd i2) as [-> _]; [set_solver|]. by rewrite HX.
Qed.

(** The requests stay the same when a process without one moves. *)
Lemma heads_keep C B L t c : heads_ok C B L → ids (C t) = [] → ids c = [] → heads_ok (<[t := c]> C) B L.
Proof.
  intros (Hn & Hh & Hc) Et Ec. split_and!; [done| |].
  - intros h (k & b & w & i1 & i2 & E & Hd)%Hh. exists k, b, w, i1, i2. split; [|done].
    at_call t k; [by rewrite E in Et|done].
  - intros k b w h i1 i2. at_call t k; [by intros ->|apply Hc].
Qed.

Lemma fly_keep C B l t c : fly_ok C B l → ids (C t) = [] → fly_ok (<[t := c]> C) B l.
Proof.
  intros Hf Et r (k & b & w & i1 & i2 & E & Hr)%Hf. exists k, b, w, i1, i2. split; [|done].
  at_call t k; [by rewrite E in Et|done].
Qed.
