(* ===== verification/VirtioSpec.v ===== *)
(** * The disk driver implements a disk with atomic block operations *)

From stdpp Require Import functions.
From S2P Require Import Prelude Bytes Virtio VirtioInv.

#[local] Hint Rewrite @fn_lookup_insert : vfn.
#[local] Hint Rewrite @fn_lookup_insert_ne using congruence : vfn.

(** ** The rings *)

Lemma u16_mod8 z : u16 z mod Z.of_nat NUM = z mod Z.of_nat NUM.
Proof. apply Z.mod_mod_divide. by exists 8192. Qed.

Lemma ring_shift R x y L : x mod Z.of_nat NUM = y mod Z.of_nat NUM → ring_is R x L → ring_is R y L.
Proof. intros E H j h Hj. rewrite Zplus_mod, <-E, <-Zplus_mod. by apply H. Qed.

Lemma ring_head R x h L : ring_is R x (h :: L) → R (x mod Z.of_nat NUM) = h.
Proof. intros H. specialize (H O h eq_refl). by rewrite Z.add_0_r in H. Qed.

Lemma ring_tail R x h L : ring_is R x (h :: L) → ring_is R (x + 1) L.
Proof. intros H j k Hj. rewrite <-Z.add_assoc. rewrite <-(H (S j) k Hj). do 2 f_equal. lia. Qed.

Lemma ring_snoc R x L h i : (length L < NUM)%nat → i = (x + Z.of_nat (length L)) mod Z.of_nat NUM → ring_is R x L →
  ring_is (fupd i h R) x (L ++ [h]).
Proof.
  intros Hl -> H j k Hj. apply lookup_app_Some in Hj as [Hj|[Hj Hk]].
  - rewrite fupd_ne; [by apply H|]. apply lookup_lt_Some in Hj. unfold NUM in *.
    intros E. assert (Z.of_nat (length L) - Z.of_nat j = 0); [|lia].
    assert (Hm : (Z.of_nat (length L) - Z.of_nat j) mod Z.of_nat 8 = 0).
    { replace (Z.of_nat (length L) - Z.of_nat j) with ((x + Z.of_nat (length L)) - (x + Z.of_nat j)) by lia.
      rewrite Zminus_mod, E, Z.sub_diag. done. }
    rewrite Z.mod_small in Hm; lia.
  - apply list_lookup_singleton_Some in Hk as [Hk <-]. replace j with (length L) by lia. by rewrite fupd_eq.
Qed.

(** ** The device *)

Lemma dev_request_call s t b w i0 i1 i2 : call_ok (desc s) (info_b s) (hdr s) (bufs s) t (VWait b w i0 i1 i2) →
  dev_request s i0 = Some (DevReq i0 w (2 * vb_blockno (bufs s b)) b i0).
Proof.
  intros (E0 & E1 & E2 & _ & EH). unfold dev_request. rewrite E0. cbn [d_next d_addr]. rewrite E1. cbn [d_next d_addr].
  rewrite E2. cbn [d_next d_addr]. rewrite EH. by destruct w.
Qed.

Definition bd_sim (a : bdst) (l : option vevent) (a' : bdst) : Prop := (l = None ∧ a' = a) ∨ bd_step a l a'.

(** A step of the driver or the device that the specification does not see. *)
Definition silent (s s' : vsys) : Prop := ∀ a, vsim s a → vsim s' a.

Lemma pop_silent s r : notify s = true → dv_last s ≠ avail_idx s →
  dev_request s (avail s (dv_last s mod Z.of_nat NUM)) = Some r →
  silent s (s <| dv_fly ::= λ l, l ++ [r] |> <| dv_last ::= λ n, u16 (n + 1) |>
              <| notify := negb (u16 (dv_last s + 1) =? avail_idx s) |>).
Proof.
  intros Hn Hne Hr a (Q & U & V & R). destruct V as [V1 V2 V3 V4 V5 V6 V7 V8 V9 V10].
  destruct V6 as (Hl & Hi & Hring). destruct Q as [|h Q].
  { rewrite Z.add_0_r in Hi. unfold u16 in Hi. rewrite Z.mod_small in Hi; done. }
  rewrite (ring_head _ _ _ _ Hring) in Hr.
  destruct (proj1 (proj2 V4) h) as (t & b & w & i1 & i2 & E & Hd); [by left|].
  pose proof (V3 t) as Hc. rewrite E in Hc. rewrite (dev_request_call _ _ _ _ _ _ _ Hc) in Hr. injection Hr as <-.
  exists Q, U. split; [|exact R]. constructor; cbn; try done.
  - rewrite fmap_app. cbn. destruct V4 as (Hnd & Hh & Hc').
    assert (P : h :: Q ++ (r_head <$> dv_fly s) ++ U ≡ₚ Q ++ ((r_head <$> dv_fly s) ++ [h]) ++ U) by solve_Permutation.
    cbn in Hnd, Hh, Hc'. split_and!; [by rewrite <-P|intros k; rewrite <-P; apply Hh|].
    intros k b' w' h' j1 j2. rewrite <-P. apply Hc'.
  - intros r [Hr| ->%list_elem_of_singleton]%elem_of_app; [by apply V5|]. exists t, b, w, i1, i2. cbn. by rewrite E.
  - unfold avail_ok. split_and!.
    + apply Z.mod_pos_bound. lia.
    + apply Z.mod_pos_bound. lia.
    + rewrite Hi. cbn [length]. unfold u16. rewrite Zplus_mod_idemp_l. f_equal. lia.
    + apply (ring_shift _ (dv_last s + 1)); [by rewrite u16_mod8|]. by eapply ring_tail.
  - intros HQ. apply negb_true_iff, Z.eqb_neq. rewrite Hi. intros Hx.
    assert (Hq : (length (h :: Q) < NUM)%nat).
    { pose proof (heads_short _ _ V1 _ _ V4) as Hs. rewrite length_app in Hs. lia. }
    destruct Q as [|h' Q]; [done|]. cbn [length] in *. unfold u16, NUM in *.
    assert (Hm : (Z.of_nat (S (length Q))) mod 2 ^ 16 = 0).
    { replace (Z.of_nat (S (length Q))) with ((dv_last s + Z.of_nat (S (S (length Q)))) - (dv_last s + 1)) by lia.
      rewrite Zminus_mod, <-Hx, Z.sub_diag. done. }
    rewrite Z.mod_small in Hm; lia.
Qed.

Lemma rd_wr D m n d : length d = 1024%nat → (∀ x, length (D x) = 512%nat) →
  rd_sectors (wr_sectors D (2 * n) d) (2 * m) = fupd n d (λ k, rd_sectors D (2 * k)) m.
Proof.
  intros Hd HD. unfold rd_sectors, wr_sectors. destruct (decide (m = n)) as [->|].
  - rewrite fupd_ne, !fupd_eq by lia. apply take_drop.
  - by rewrite !fupd_ne by lia.
Qed.

Lemma wr_length D x d y : length d = 1024%nat → (∀ x, length (D x) = 512%nat) → length (wr_sectors D x d y) = 512%nat.
Proof.
  intros Hd HD. unfold wr_sectors. destruct (decide (y = x + 1)) as [->|]; [rewrite fupd_eq, length_drop; lia|].
  rewrite fupd_ne by done. destruct (decide (y = x)) as [->|]; [rewrite fupd_eq, length_take; lia|]. by rewrite fupd_ne.
Qed.

(** What a report leaves of the invariant, for a transfer that keeps the shape of
    the buffers and the sectors. *)
Lemma report_inv s Q U l1 r l2 B' D' st :
  vinv s Q U → dv_fly s = l1 ++ r :: l2 →
  (∀ t b, uses (call s t) = Some b → vb_blockno (B' b) = vb_blockno (bufs s b) ∧
     length (vb_data (B' b)) = length (vb_data (bufs s b))) →
  (∀ t b, uses (call s t) = Some b → vb_disk (B' b) = vb_disk (bufs s b)) →
  (∀ x, length (D' x) = 512%nat) →
  vinv (s <| bufs := B' |> <| sectors := D' |> <| info_status ::= <[r_stat r := st]> |>
          <| used ::= fupd (used_id s mod Z.of_nat NUM) (r_head r) |>
          <| used_id ::= λ n, u16 (n + 1) |> <| irq := true |> <| dv_fly := l1 ++ l2 |>) Q (U ++ [r_head r]).
Proof.
  intros [V1 V2 V3 V4 V5 V6 V7 V8 V9 V10] Hl HB HB2 HD.
  constructor; cbn; try done.
  - by eapply buf_agree.
  - intros t. by apply (call_agree _ _ _ HB).
  - apply (heads_agree _ _ _ HB2). rewrite Hl in V4. rewrite fmap_app in *. cbn in V4.
    assert (P : Q ++ ((r_head <$> l1) ++ r_head r :: (r_head <$> l2)) ++ U ≡ₚ
      Q ++ ((r_head <$> l1) ++ (r_head <$> l2)) ++ U ++ [r_head r]) by solve_Permutation.
    destruct V4 as (Hnd & Hh & Hc). split_and!; [by rewrite <-P|intros k; rewrite <-P; apply Hh|].
    intros k b' w' h' j1 j2. rewrite <-P. apply Hc.
  - apply (fly_agree _ _ _ HB). intros x Hx. apply V5. rewrite Hl. set_solver.
  - pose proof (heads_short _ _ V1 _ _ V4) as Hs. rewrite !length_app in Hs.
    destruct V7 as (Hx & Hi & Hm & HR). unfold used_ok. split_and!; [lia..| | | |].
    + apply Z.mod_pos_bound. lia.
    + apply Z.mod_pos_bound. lia.
    + rewrite u16_mod8, length_app, Nat2Z.inj_add, Z.add_assoc. cbn [length]. rewrite Zplus_mod, Hm, <-Zplus_mod. done.
    + apply ring_snoc; [lia|done|done].
  - by apply (sleep_agree _ _ _ HB2).
Qed.

(** The calls of the other processes do not notice a report. *)
Lemma acall_report s Q U h t b w i1 i2 B' st t' :
  vinv s Q U → call s t = VWait b w h i1 i2 → (∀ b', b' ≠ b → B' b' = bufs s b') → t' ≠ t →
  acall B' (<[h := st]> (info_status s)) (U ++ [h]) (call s t') = acall (bufs s) (info_status s) U (call s t').
Proof.
  intros V E HB Ht. apply acall_ext.
  - intros b' Hb. apply HB. intros ->. apply Ht. apply (proj1 (v_buf _ _ _ V) _ _ b); [done|by rewrite E].
  - intros b' w' h' j1 j2 E'. assert (h' ≠ h).
    { intros ->. apply Ht. by destruct (wait_inj _ _ (v_own _ _ _ V) _ _ _ _ _ _ _ _ _ _ _ E' E). }
    autorewrite with vfn. rewrite elem_of_app, list_elem_of_singleton. naive_solver.
Qed.

(** A report of a request [r] in flight: the call it belongs to. *)
Section report.
Context (s : vsys) (a : bdst) (Q U : list nat) (l1 l2 : list devreq) (r : devreq).
Context (V : vinv s Q U) (R : vrel s U a) (Hl : dv_fly s = l1 ++ r :: l2).
Local Notation h := (r_head r).

Lemma report_call : ∃ t w i1 i2, call s t = VWait (r_buf r) w h i1 i2 ∧ vb_disk (bufs s (r_buf r)) = 1 ∧
  r_stat r = h ∧ r_write r = w ∧ r_sector r = 2 * vb_blockno (bufs s (r_buf r)) ∧
  0 ≤ vb_blockno (bufs s (r_buf r)) < 2 ^ 31 ∧ length (vb_data (bufs s (r_buf r))) = 1024%nat ∧ h ∉ U ∧
  bd_call a t = BPending (op_of (bufs s (r_buf r)) w).
Proof using V R Hl.
  pose proof V as [V1 V2 _ V4 V5 _ _ _ _ _].
  destruct (V5 r) as (t & b & w & i1 & i2 & E & Er); [rewrite Hl; set_solver|].
  assert (r_buf r = b) as -> by (by rewrite Er). exists t, w, i1, i2.
  pose proof (proj2 V2 t b) as Hb. rewrite E in Hb. destruct (Hb eq_refl) as [Hbn Hlen].
  assert (Hd1 : vb_disk (bufs s b) = 1).
  { destruct (proj1 (proj2 V4) h) as (t' & b' & w' & j1 & j2 & E' & Hd'); [rewrite Hl, fmap_app; set_solver|].
    destruct (wait_inj _ _ V1 _ _ _ _ _ _ _ _ _ _ _ E E') as (_ & -> & _). done. }
  assert (HU : h ∉ U).
  { destruct V4 as (Hnd & _). rewrite Hl, fmap_app in Hnd. apply NoDup_app in Hnd as (_ & _ & Hnd).
    apply NoDup_app in Hnd as (_ & Hnd & _). apply Hnd. set_solver. }
  split_and!; [done|done|by rewrite Er|by rewrite Er|by rewrite Er|lia|lia|done|done|]. rewrite (proj2 R), E. cbn. rewrite decide_True; [done|]. naive_solver.
Qed.

Lemma report_fail st : st ≠ 0 → vsim ((dev_report r st s) <| dv_fly := l1 ++ l2 |>) a.
Proof using V R Hl.
  intros Hne. destruct report_call as (t & w & i1 & i2 & E & Hd & Hst & _ & _ & _ & _ & HU & _).
  unfold dev_report. rewrite (proj2 (Z.eqb_neq st 0)) by done. exists Q, (U ++ [h]). split.
  - by apply (report_inv s Q U l1 r l2 (bufs s) (sectors s) st), V.
  - split; cbn -[Z.mul]; [apply R|]. intros t'. rewrite Hst, (proj2 R). destruct (decide (t = t')) as [<-|].
    + rewrite E. cbn. rewrite !decide_True; [done|..]; autorewrite with vfn; naive_solver.
    + symmetry. by eapply acall_report.
Qed.

Lemma report_write : r_write r = true →
  ∃ a', bd_step a None a' ∧ vsim ((dev_report r 0 s) <| dv_fly := l1 ++ l2 |>) a'.
Proof using V R Hl.
  intros Hwr. destruct report_call as (t & w & i1 & i2 & E & Hd & Hst & Hw & Hx & Hbn & Hlen & HU & Hold).
  unfold dev_report, dev_transfer. cbn [Z.eqb]. rewrite Hx, Hwr. rewrite Hwr in Hw. subst w.
  set (x := bufs s (r_buf r)) in *.
  exists (Bdst (fupd (vb_blockno x) (vb_data x) (bd_disk a)) (<[t := BDone (vb_data x)]> (bd_call a))).
  split; [destruct a; by constructor|]. exists Q, (U ++ [h]). split.
  - apply (report_inv s Q U l1 r l2 (bufs s) (wr_sectors (sectors s) (2 * vb_blockno x) (vb_data x)) 0); [done..|].
    intros y. by apply wr_length, V.
  - split; cbn -[Z.mul rd_sectors].
    + intros n Hn. rewrite rd_wr by (done || apply V). unfold fupd. by destruct decide; [|apply R].
    + intros t'. rewrite Hst. destruct (decide (t = t')) as [<-|]; autorewrite with vfn.
      * rewrite E. cbn. rewrite decide_False; [done|]. autorewrite with vfn. set_solver.
      * rewrite (proj2 R). symmetry. by eapply acall_report.
Qed.

Lemma report_read : r_write r = false →
  ∃ a', bd_step a None a' ∧ vsim ((dev_report r 0 s) <| dv_fly := l1 ++ l2 |>) a'.
Proof using V R Hl.
  intros Hwr. destruct report_call as (t & w & i1 & i2 & E & Hd & Hst & Hw & Hx & Hbn & Hlen & HU & Hold).
  unfold dev_report, dev_transfer. cbn [Z.eqb]. rewrite Hx, Hwr. rewrite Hwr in Hw. subst w.
  set (b := r_buf r) in *. set (d := rd_sectors (sectors s) (2 * vb_blockno (bufs s b))).
  set (B' := <[b := (bufs s b) <| vb_data := d |>]> (bufs s)).
  assert (Hdl : length d = 1024%nat) by (unfold d, rd_sectors; rewrite length_app, !(v_sectors _ _ _ V); done).
  exists (Bdst (bd_disk a) (<[t := BDone d]> (bd_call a))). split.
  { unfold d. rewrite <-(proj1 R) by done. destruct a. by constructor. }
  exists Q, (U ++ [h]). split.
  - apply (report_inv s Q U l1 r l2 B' (sectors s) 0); [done..| | |apply V]; intros t' b' _; unfold B';
      (destruct (decide (b = b')) as [<-|]; autorewrite with vfn; [|done]); cbn; [by rewrite Hdl|done].
  - split; cbn -[Z.mul]; [apply R|]. intros t'. fold B'. rewrite Hst. destruct (decide (t = t')) as [<-|]; autorewrite with vfn.
    + rewrite E. cbn. rewrite decide_False; [by unfold B'; autorewrite with vfn|]. autorewrite with vfn. set_solver.
    + rewrite (proj2 R). symmetry. eapply acall_report; [done..| |done]. intros b' Hb'. unfold B'. by autorewrite with vfn.
Qed.
End report.

Lemma report_sim s a l1 r l2 st : vsim s a → dv_fly s = l1 ++ r :: l2 →
  ∃ a', bd_sim a None a' ∧ vsim ((dev_report r st s) <| dv_fly := l1 ++ l2 |>) a'.
Proof.
  intros (Q & U & V & R) Hl. destruct (decide (st = 0)) as [->|Hne].
  - destruct (r_write r) eqn:Hw; [destruct (report_write s a Q U l1 l2 r V R Hl Hw) as (a' & ? & ?)
      |destruct (report_read s a Q U l1 l2 r V R Hl Hw) as (a' & ? & ?)]; exists a'; split; [by right|done|by right|done].
  - exists a. split; [by left|]. by eapply report_fail.
Qed.

(** ** The interrupt handler *)

Definition collected (b : nat) (s : vsys) : vsys :=
  s <| bufs ::= λ B, <[b := (B b) <| vb_disk := 0 |>]> B |>
    <| asleep ::= λ f t, if decide (f t = Some (ChBuf b)) then None else f t |>
    <| used_idx ::= λ n, (n + 1) mod Z.of_nat NUM |>.

Lemma more_pending s Q U : vinv s Q U → intr_more s = negb (bool_decide (U = [])).
Proof.
  intros V. destruct (v_used _ _ _ V) as (Hx & Hi & Hm & _). unfold intr_more. rewrite Hm. f_equal.
  pose proof (heads_short _ _ (v_own _ _ _ V) _ _ (v_heads _ _ _ V)) as Hs. rewrite !length_app in Hs.
  destruct U as [|h U].
  - rewrite Z.add_0_r, Z.eqb_refl. done.
  - apply Z.eqb_neq. intros E. cbn [length] in *. unfold NUM in *.
    assert (Hz : Z.of_nat (S (length U)) mod Z.of_nat 8 = 0).
    { replace (Z.of_nat (S (length U))) with ((used_idx s + Z.of_nat (S (length U))) - used_idx s) by lia.
      rewrite Zminus_mod, <-E, Z.sub_diag. done. }
    rewrite Z.mod_small in Hz; lia.
Qed.

(** The handler collects the oldest report, and panics if it is an error. *)
Lemma intr_body_run s Q h U : vinv s Q (h :: U) →
  ∃ t b w i1 i2, call s t = VWait b w h i1 i2 ∧ vb_disk (bufs s b) = 1 ∧
    intr_body s = if info_status s h =? 0 then Ret ((), collected b s) else Panic "virtio_disk_intr status".
Proof.
  intros V. destruct (proj1 (proj2 (v_heads _ _ _ V)) h) as (t & b & w & i1 & i2 & E & Hd); [set_solver|].
  exists t, b, w, i1, i2. split_and!; [done..|]. destruct (v_used _ _ _ V) as (Hx & _ & _ & HR).
  apply ring_head in HR. rewrite Z.mod_small in HR by done.
  pose proof (v_call _ _ _ V t) as Hc. rewrite E in Hc. destruct Hc as (_ & _ & _ & HI & _).
  unfold intr_body. unfold mbind at 1, ST_bind at 1. cbn [get]. rewrite HR, HI.
  rewrite (proj2 (Nat.leb_gt NUM h)); [by destruct (_ =? 0)|]. apply (own_lt _ _ (v_own _ _ _ V) t). rewrite E. by left.
Qed.

Section collect.
Context (s : vsys) (Q U : list nat) (h t b i1 i2 : nat) (w : bool).
Context (V : vinv s Q (h :: U)) (E : call s t = VWait b w h i1 i2).
Local Notation B' := (bufs (collected b s)).

Lemma collected_other t' b' : uses (call s t') = Some b' → t' ≠ t → b' ≠ b.
Proof using V E. intros H Hne ->. apply Hne. apply (proj1 (v_buf _ _ _ V) _ _ b); [done|by rewrite E]. Qed.
Lemma collected_ne b' : b' ≠ b → B' b' = bufs s b'.
Proof. intros H. cbn. by autorewrite with vfn. Qed.
Lemma collected_eq : B' b = (bufs s b) <| vb_disk := 0 |>.
Proof. cbn. by autorewrite with vfn. Qed.
Lemma collected_shape (k x : nat) : uses (call s k) = Some x →
  vb_blockno (B' x) = vb_blockno (bufs s x) ∧ length (vb_data (B' x)) = length (vb_data (bufs s x)).
Proof. intros _. destruct (decide (x = b)) as [->|]; [by rewrite collected_eq|by rewrite collected_ne]. Qed.

Lemma collected_heads : heads_ok (call s) B' (Q ++ (r_head <$> dv_fly s) ++ U).
Proof using V E.
  destruct (v_heads _ _ _ V) as (Hnd & Hh & Hc).
  assert (P : Q ++ (r_head <$> dv_fly s) ++ h :: U ≡ₚ h :: Q ++ (r_head <$> dv_fly s) ++ U) by solve_Permutation.
  rewrite P in Hnd. apply NoDup_cons in Hnd as [Hn Hnd]. split_and!; [done|..].
  - intros k Hk. destruct (Hh k) as (t' & b' & w' & j1 & j2 & E' & Hd'); [rewrite P; by right|].
    exists t', b', w', j1, j2. split; [done|]. rewrite collected_ne; [done|]. apply (collected_other t'); [by rewrite E'|].
    intros ->. congruence.
  - intros t' b' w' h' j1 j2 E'. destruct (decide (b' = b)) as [->|Hne]; [by rewrite collected_eq|].
    rewrite collected_ne by done. intros Hd'. specialize (Hc _ _ _ _ _ _ E' Hd'). rewrite P in Hc.
    apply elem_of_cons in Hc as [->|]; [|done]. destruct Hne.
    by destruct (wait_inj _ _ (v_own _ _ _ V) _ _ _ _ _ _ _ _ _ _ _ E' E) as (_ & -> & _).
Qed.

Lemma collected_inv : vinv (collected b s) Q U.
Proof using V E.
  pose proof collected_heads as HH. destruct V as [V1 V2 V3 V4 V5 V6 V7 V8 V9 V10]. constructor; try done.
  - eapply buf_agree; [|done]. apply collected_shape.
  - intros k. apply (call_agree _ _ _ collected_shape), V3.
  - by apply (fly_agree _ _ _ collected_shape).
  - destruct V7 as (Hx & Hi & Hm & HR). unfold used_ok. cbn -[NUM].
    pose proof (Z.mod_pos_bound (used_idx s + 1) (Z.of_nat NUM) eq_refl). split_and!; [lia..| |].
    + rewrite Hm, Zplus_mod_idemp_l. cbn [length]. f_equal. lia.
    + apply (ring_shift _ (used_idx s + 1)); [by rewrite Zmod_mod|]. by eapply ring_tail.
  - intros k ch. cbn. case_decide as Hk; [done|]. intros Hc. specialize (V8 k ch Hc). destruct ch as [|b']; [done|].
    destruct V8 as (w' & j0 & j1 & j2 & E' & Hd'). exists w', j0, j1, j2. split; [done|].
    rewrite fn_lookup_insert_ne; [done|]. intros ->. congruence.
Qed.

Lemma collected_sim a : vrel s (h :: U) a → info_status s h = 0 → vsim (collected b s) a.
Proof using V E.
  intros R Hst. exists Q, U. split; [apply collected_inv|]. split; cbn -[Z.mul]; [apply R|].
  intros k. rewrite (proj2 R). symmetry. destruct (decide (t = k)) as [<-|Hne].
  - rewrite E. cbn. rewrite !decide_False; [by autorewrite with vfn|rewrite Hst; set_solver|].
    autorewrite with vfn. naive_solver.
  - apply acall_ext.
    + intros b' Hb. apply collected_ne. by apply (collected_other k).
    + intros b' w' h' j1 j2 E'. rewrite elem_of_cons. assert (h' ≠ h); [|naive_solver].
      intros ->. apply Hne. by destruct (wait_inj _ _ (v_own _ _ _ V) _ _ _ _ _ _ _ _ _ _ _ E E').
Qed.
End collect.

Lemma collect_silent s s' : intr_more s = true → run intr_body s () s' → silent s s'.
Proof.
  intros Hm Hr a (Q & U & V & R). rewrite (more_pending _ _ _ V) in Hm. destruct U as [|h U]; [done|].
  destruct (intr_body_run _ _ _ _ V) as (t & b & w & i1 & i2 & E & Hd & Hb). rewrite Hr in Hb.
  destruct (Z.eqb_spec (info_status s h) 0) as [Hz|]; [|done]. injection Hb as ->. by eapply collected_sim.
Qed.

(** The handler without a device that reports in between: its loop ends with
    everything collected, if there was no error. *)
Lemma virtio_disk_intr_run s Q U : vinv s Q U → (∀ h, h ∈ U → info_status s h = 0) →
  ∃ s', run virtio_disk_intr s () s' ∧ vinv s' Q [] ∧ irq s' = false ∧
    ∀ h t b w i1 i2, h ∈ U → call s t = VWait b w h i1 i2 → vb_disk (bufs s' b) = 0.
Proof.
  intros V HU. unfold virtio_disk_intr.
  assert (Hlen : (length U < NUM)%nat).
  { pose proof (heads_short _ _ (v_own _ _ _ V) _ _ (v_heads _ _ _ V)) as Hs. rewrite !length_app in Hs. lia. }
  assert (Hloop : ∃ s', run (intr_loop NUM) s () s' ∧ vinv s' Q [] ∧ call s' = call s ∧
    (∀ b, vb_disk (bufs s b) = 0 → vb_disk (bufs s' b) = 0) ∧
    ∀ h t b w i1 i2, h ∈ U → call s t = VWait b w h i1 i2 → vb_disk (bufs s' b) = 0).
  { revert Hlen. generalize NUM at 1 2 as n. intros n. revert n s V HU. induction U as [|h U IH]; intros [|n] s V HU Hn; cbn in Hn; [lia| |lia|].
    - exists s. split_and!; [|done..|by intros * ?%elem_of_nil]. cbn [intr_loop]. unfold mbind, ST_bind. cbn [get].
      by rewrite (more_pending _ _ _ V).
    - destruct (intr_body_run _ _ _ _ V) as (t & b & w & i1 & i2 & E & Hd & Hb). rewrite HU in Hb by (by left).
      destruct (IH n (collected b s)) as (s' & Hr & V' & HC & Hk & HB); [by eapply collected_inv| |lia|].
      + intros k Hk. apply HU. by right.
      + exists s'. split_and!; [|done|done| |].
        * cbn [intr_loop]. unfold mbind at 1, ST_bind at 1. cbn [get]. rewrite (more_pending _ _ _ V). cbn. by step_with Hb.
        * intros b' Hb'. apply Hk. destruct (decide (b = b')) as [<-|]; cbn; by autorewrite with vfn.
        * intros h' t' b' w' j1 j2 [->|Hh]%elem_of_cons E'; [|by eapply HB].
          destruct (wait_inj _ _ (v_own _ _ _ V) _ _ _ _ _ _ _ _ _ _ _ E' E) as (_ & -> & _). apply Hk. cbn. by autorewrite with vfn. }
  destruct Hloop as (s' & Hr & V' & _ & _ & HB). step_with Hr. eexists. split; [done|]. split_and!; [by destruct V'|done|exact HB].
Qed.

(** ** virtio_disk_rw *)

(** The state in which a process sleeps after it has handed over its request. *)
Definition submitted (t b : nat) (w : bool) (x : Z) (i0 i1 i2 : nat) (s : vsys) : vsys :=
  s <| hdr ::= <[t := OutHdr (if w then VIRTIO_BLK_T_OUT else VIRTIO_BLK_T_IN) 0 x]> |>
    <| desc ::= λ D, <[i2 := VDesc (AStatus i0) 1 VRING_DESC_F_WRITE 0]>
         (<[i1 := VDesc (AData b) BSIZE (Z.lor (if w then 0 else VRING_DESC_F_WRITE) VRING_DESC_F_NEXT) i2]>
           (<[i0 := VDesc (AHdr t) 16 VRING_DESC_F_NEXT i1]> D)) |>
    <| info_status ::= <[i0 := 0]> |> <| bufs ::= λ B, <[b := (B b) <| vb_disk := 1 |>]> B |>
    <| info_b ::= <[i0 := Some b]> |> <| avail ::= fupd (avail_idx s mod Z.of_nat NUM) i0 |>
    <| avail_idx ::= λ n, u16 (n + 1) |> <| notify := true |>
    <| call ::= <[t := VWait b w i0 i1 i2]> |> <| asleep ::= <[t := Some (ChBuf b)]> |>.

Lemma submit_run t b w x i0 i1 i2 s :
  run (rw_submit t b w x i0 i1 i2 ≫= λ _, rw_wait t b w i0 i1 i2) s () (submitted t b w x i0 i1 i2 s).
Proof.
  unfold rw_submit, rw_wait, sleep_on, modify, mbind, ST_bind. cbn -[NUM BSIZE fupd insert fn_insert].
  rewrite fn_lookup_insert. done.
Qed.

(** A process about to ask for descriptors for a read or write of buffer [b]. *)
Section start.
Context (s : vsys) (Q U : list nat) (t b : nat) (w : bool) (x : Z) (V : vinv s Q U).
Context (Hids : ids (call s t) = []) (Hb : ∀ t', uses (call s t') = Some b → t' = t).
Context (Hbn : 0 ≤ vb_blockno (bufs s b) < 2 ^ 31) (Hlen : length (vb_data (bufs s b)) = 1024%nat).
Context (Hx : x = 2 * vb_blockno (bufs s b)).

Lemma start_buf c : uses c = Some b → buf_ok (<[t := c]> (call s)) (bufs s).
Proof. intros E. apply buf_set; [apply V|]. intros b'. rewrite E. intros [= <-]. done. Qed.

(** No descriptors: the process sleeps, and the others do not notice. *)
Lemma gave_up_inv s1 : gave_up s s1 → tally id (free s) < 3 →
  vinv (s1 <| call ::= <[t := VAlloc b w x]> |> <| asleep ::= <[t := Some ChFree]> |>) Q U.
Proof.
  intros (D & A & -> & HD & HA) Ht. pose proof V as [V1 V2 V3 V4 V5 V6 V7 V8 V9 V10]. constructor; cbn; try done.
  - by apply desc_keep.
  - by apply start_buf.
  - intros k. destruct (decide (t = k)) as [<-|]; autorewrite with vfn; [done|].
    eapply call_ext; [apply V3|intros d Hd|done]. split; [|done]. apply HD. by eapply own_busy.
  - by apply heads_keep.
  - by apply fly_keep.
  - intros k ch. destruct (decide (t = k)) as [<-|]; autorewrite with vfn; [intros [= <-]; eauto|].
    intros Hk. destruct (HA k) as [E|E]; rewrite E in Hk; [|done]. specialize (V8 k ch Hk).
    destruct ch as [|b']; cbn in *; autorewrite with vfn; done.
Qed.

(** The three descriptors are there: the request is queued. *)
Context (i0 i1 i2 : nat) (s1 : vsys) (T : taken [i0; i1; i2] s s1).
Local Notation s2 := (submitted t b w x i0 i1 i2 s1).

Lemma submitted_other k d : d ∈ ids (call s k) → d ∉ [i0; i1; i2].
Proof.
  destruct T as (F & -> & _ & _ & Hin & _). intros Hd Hi. apply (own_busy _ _ (v_own _ _ _ V)) in Hd.
  destruct (Hin d Hi) as [H _]. by rewrite H in Hd.
Qed.

Lemma submitted_head : i0 ∉ Q ++ (r_head <$> dv_fly s) ++ U.
Proof.
  intros Hi. destruct (proj1 (proj2 (v_heads _ _ _ V)) i0 Hi) as (k & b' & w' & j1 & j2 & E & _).
  apply (submitted_other k i0); [rewrite E|]; set_solver.
Qed.

Lemma submitted_shape (k y : nat) : uses (call s2 k) = Some y →
  vb_blockno (bufs s2 y) = vb_blockno (bufs s y) ∧ length (vb_data (bufs s2 y)) = length (vb_data (bufs s y)).
Proof.
  intros _. destruct T as (F & -> & _). cbn. destruct (decide (b = y)) as [<-|]; autorewrite with vfn; done.
Qed.

Lemma submitted_disk (k y : nat) : k ≠ t → uses (call s k) = Some y → vb_disk (bufs s2 y) = vb_disk (bufs s y).
Proof.
  intros Hk Hy. destruct T as (F & -> & _). cbn. rewrite fn_lookup_insert_ne; [done|]. intros ->. by apply Hk, Hb.
Qed.

Lemma submitted_heads : heads_ok (call s2) (bufs s2) ((Q ++ [i0]) ++ (r_head <$> dv_fly s) ++ U).
Proof.
  pose proof submitted_head as Hn. pose proof submitted_disk as HB. destruct T as (F & -> & _). cbn in *.
  destruct (v_heads _ _ _ V) as (Hnd & Hh & Hc).
  assert (P : (Q ++ [i0]) ++ (r_head <$> dv_fly s) ++ U ≡ₚ i0 :: Q ++ (r_head <$> dv_fly s) ++ U) by solve_Permutation.
  split_and!; [rewrite P; by constructor| |].
  - intros h. rewrite P. intros [->|Hx']%elem_of_cons.
    + exists t, b, w, i1, i2. by autorewrite with vfn.
    + destruct (Hh h Hx') as (k & b' & w' & j1 & j2 & E & Hd). exists k, b', w', j1, j2.
      assert (k ≠ t) by (intros ->; by rewrite E in Hids). autorewrite with vfn. split; [done|].
      rewrite (HB k) by (by rewrite ?E). done.
  - intros k b' w' h j1 j2. rewrite P. destruct (decide (t = k)) as [<-|]; autorewrite with vfn.
    + intros [= -> -> -> -> ->] _. by left.
    + intros E. rewrite (HB k) by (by rewrite ?E). intros Hd. right. by eapply Hc.
Qed.

Lemma submitted_call k : call_ok (desc s2) (info_b s2) (hdr s2) (bufs s2) k (call s2 k).
Proof.
  apply (call_agree (call s2) (bufs s)); [apply submitted_shape|].
  pose proof submitted_other as Ho. destruct T as (F & -> & Hnd & _). cbn in *.
  destruct (decide (t = k)) as [<-|]; autorewrite with vfn.
  - rewrite !NoDup_cons, !not_elem_of_cons in Hnd. destruct Hnd as ((? & ? & _) & (? & _) & _).
    cbn. autorewrite with vfn. by rewrite Hx.
  - eapply call_ext; [apply V|intros d Hd|by autorewrite with vfn]. specialize (Ho k d Hd).
    rewrite !not_elem_of_cons in Ho. destruct Ho as (? & ? & ? & _). by autorewrite with vfn.
Qed.
Lemma submitted_inv : vinv s2 (Q ++ [i0]) U.
Proof.
  pose proof submitted_heads as HH. pose proof submitted_call as HC. pose proof submitted_shape as HS.
  pose proof submitted_disk as HB.
  assert (Hq : (length Q < NUM)%nat).
  { pose proof (heads_short _ _ (v_own _ _ _ V) _ _ (v_heads _ _ _ V)) as Hs. rewrite length_app in Hs. lia. }
  pose proof V as [V1 V2 V3 V4 V5 V6 V7 V8 V9 V10]. destruct T as (F & -> & Hnd & HlF & Hin & Hout & Ht).
  constructor; try done.
  - cbn. by eapply desc_take.
  - eapply buf_agree; [apply HS|]. by apply start_buf.
  - eapply fly_agree; [apply HS|]. by apply fly_keep.
  - destruct V6 as (Hl & Hi & HR). unfold avail_ok. cbn -[NUM fupd]. split_and!; [lia..| |].
    + rewrite Hi, length_app. cbn [length]. unfold u16. rewrite Zplus_mod_idemp_l. f_equal. lia.
    + apply ring_snoc; [done| |done]. by rewrite Hi, u16_mod8.
  - intros k ch. cbn. destruct (decide (t = k)) as [<-|Hk]; autorewrite with vfn.
    + intros [= <-]. exists w, i0, i1, i2. by autorewrite with vfn.
    + intros Ha. specialize (V8 k ch Ha). destruct ch as [|b']; [|].
      * destruct V8 as [Hw V8]. autorewrite with vfn. split; [done|]. cbn [length] in Ht. lia.
      * destruct V8 as (w' & j0 & j1 & j2 & E & Hd). exists w', j0, j1, j2. autorewrite with vfn. split; [done|].
        etrans; [apply (HB k); [congruence|by rewrite E]|exact Hd].
Qed.

(** The specification does not notice either: the call is pending. *)
Lemma submitted_acall k : acall (bufs s2) (info_status s2) U (call s2 k) =
  if decide (t = k) then BPending (op_of (bufs s b) w) else acall (bufs s) (info_status s) U (call s k).
Proof.
  pose proof submitted_head as Hn. pose proof submitted_other as Ho. destruct T as (F & -> & _). cbn in *.
  destruct (decide (t = k)) as [<-|Hk]; autorewrite with vfn.
  - cbn. autorewrite with vfn. rewrite decide_True; [by destruct w|]. set_solver.
  - apply acall_ext.
    + intros b' Hy. rewrite fn_lookup_insert_ne; [done|]. intros ->. by apply Hk, eq_sym, Hb.
    + intros b' w' h' j1 j2 E'. assert (h' ≠ i0); [|by autorewrite with vfn]. intros ->.
      apply (Ho k i0); [rewrite E'|]; set_solver.
Qed.
End start.

Lemma gave_up_acall s s1 t c A U k : gave_up s s1 →
  acall (bufs s1) (info_status s1) U (call (s1 <| call ::= <[t := c]> |> <| asleep ::= A |>) k) =
  acall (bufs s) (info_status s) U (<[t := c]> (call s) k).
Proof. by intros (D & A' & -> & _). Qed.

(** The loop that gets descriptors always ends in a sleep, with the request
    queued or not, and the call pending. *)
Lemma rw_alloc_sim s Q U t b w x : vinv s Q U → ids (call s t) = [] → (∀ t', uses (call s t') = Some b → t' = t) →
  0 ≤ vb_blockno (bufs s b) < 2 ^ 31 → length (vb_data (bufs s b)) = 1024%nat → x = 2 * vb_blockno (bufs s b) →
  ∃ s' Q', run (rw_alloc t b w x) s () s' ∧ vinv s' Q' U ∧ call s' t ≠ VIdle ∧ sectors s' = sectors s ∧
    ∀ k, acall (bufs s') (info_status s') U (call s' k) =
      if decide (t = k) then BPending (op_of (bufs s b) w) else acall (bufs s) (info_status s) U (call s k).
Proof.
  intros V Hids Hb Hbn Hlen Hx. unfold rw_alloc.
  destruct (alloc3_spec s (own_len _ _ (v_own _ _ _ V))) as [(i0 & i1 & i2 & s1 & E & T)|(s1 & E & Ht & G)]; step_with E.
  - rewrite submit_run. eexists _, (Q ++ [i0]). split; [done|]. split_and!.
    + by eapply submitted_inv.
    + cbn. by autorewrite with vfn.
    + by destruct T as (F & -> & _).
    + intros k. by eapply submitted_acall.
  - eexists _, Q. split; [done|]. split_and!.
    + by eapply gave_up_inv.
    + cbn. by autorewrite with vfn.
    + by destruct G as (D & A & -> & _).
    + intros k. etrans; [exact (gave_up_acall s s1 t _ _ U k G)|].
      destruct (decide (t = k)) as [<-|]; by autorewrite with vfn.
Qed.

(** ** A call that the handler has seen finished returns *)
Section finish.
Context (s : vsys) (Q U : list nat) (t b : nat) (w : bool) (i0 i1 i2 : nat) (V : vinv s Q U).
Context (E : call s t = VWait b w i0 i1 i2) (Hd : vb_disk (bufs s b) ≠ 1) (Ha : asleep s t = None).

Lemma finish_head : i0 ∉ Q ++ (r_head <$> dv_fly s) ++ U.
Proof.
  intros Hi. destruct (proj1 (proj2 (v_heads _ _ _ V)) i0 Hi) as (k & b' & w' & j1 & j2 & E' & Hd').
  destruct (wait_inj _ _ (v_own _ _ _ V) _ _ _ _ _ _ _ _ _ _ _ E E') as (_ & -> & _). done.
Qed.

Lemma finish_heads L : heads_ok (call s) (bufs s) L → heads_ok (<[t := VIdle]> (call s)) (bufs s) L.
Proof.
  intros (Hn & Hh & Hc). split_and!; [done| |].
  - intros h (k & b' & w' & j1 & j2 & E' & Hd')%Hh. exists k, b', w', j1, j2. split; [|done].
    rewrite fn_lookup_insert_ne; [done|]. intros ->. rewrite E in E'. by injection E' as -> _ _ _ _.
  - intros k b' w' h j1 j2. destruct (decide (t = k)) as [<-|]; autorewrite with vfn; [done|apply Hc].
Qed.

Lemma finish_fly : fly_ok (<[t := VIdle]> (call s)) (bufs s) (dv_fly s).
Proof.
  pose proof finish_head as Hn. intros r Hr. destruct (v_fly _ _ _ V r Hr) as (k & b' & w' & j1 & j2 & E' & Er). exists k, b', w', j1, j2.
  split; [|done]. rewrite fn_lookup_insert_ne; [done|]. intros ->. rewrite E in E'. injection E' as -> -> -> _ _.
  apply Hn. rewrite !elem_of_app. right; left. apply list_elem_of_fmap. by exists r.
Qed.

Lemma finish_inv s2 : gave_back [i2; i1; i0] (s <| info_b ::= <[i0 := None]> |>) s2 →
  vinv (s2 <| call ::= <[t := VIdle]> |>) Q U.
Proof.
  intros (D & F & A & -> & HF & HD & _ & Hin & Hout & HA & HA'). cbn in HF, HD, Hout, HA.
  pose proof finish_fly as Hfly. pose proof V as [V1 V2 V3 V4 V5 V6 V7 V8 V9 V10]. constructor; cbn; try done.
  - apply desc_drop with (F := free s); [done..| |]; intros i; rewrite E; cbn; intros Hi; [apply Hin|apply Hout]; set_solver.
  - by apply buf_set.
  - intros k. destruct (decide (t = k)) as [<-|Hk]; autorewrite with vfn; [done|].
    eapply call_ext; [apply V3|intros d Hx|done]. assert (Hn : d ∉ [i2; i1; i0]).
    { intros Hi. apply Hk. apply (own_uniq _ _ V1 _ _ d); [rewrite E; cbn; set_solver|done]. }
    split; [by apply HD|]. rewrite fn_lookup_insert_ne; [done|]. set_solver.
  - by apply finish_heads.
  - intros k ch Hk. destruct (HA k) as [Ek|Ek]; [|congruence]. rewrite Ek in Hk.
    assert (k ≠ t) by congruence. autorewrite with vfn. destruct ch as [|b']; [destruct (HA' ltac:(done) k); congruence|].
    apply (V8 k _ Hk).
Qed.

Lemma finish_run : ∃ s', run (rw_wait t b w i0 i1 i2) s () s' ∧ vinv s' Q U ∧ bufs s' = bufs s ∧
  info_status s' = info_status s ∧ sectors s' = sectors s ∧ call s' = <[t := VIdle]> (call s).
Proof.
  unfold rw_wait. unfold mbind at 1, ST_bind at 1. cbn [get]. rewrite (proj2 (Z.eqb_neq _ _) Hd).
  pose proof (v_call _ _ _ V t) as Hc. rewrite E in Hc. destruct Hc as (E0 & E1 & E2 & _).
  destruct (free_chain_gave_back (s <| info_b ::= <[i0 := None]> |>) i0 i1 i2) as (s2 & Er & Hf).
  - apply V.
  - pose proof (own_nodup _ _ (v_own _ _ _ V) t) as H. by rewrite E in H.
  - intros i Hi. apply (own_busy _ _ (v_own _ _ _ V) t). by rewrite E.
  - cbn. by rewrite E0.
  - cbn. by rewrite E0.
  - cbn. rewrite E1. by destruct w.
  - cbn. by rewrite E1.
  - cbn. by rewrite E2.
  - pose proof (finish_inv _ Hf) as V'. step_with (run_modify (λ s, s <| info_b ::= <[i0 := None]> |>) s). step_with Er.
    eexists. split; [done|]. split; [done|]. by destruct Hf as (D & F & A & -> & _).
Qed.
End finish.

(** ** Every step is a step of the specification *)

Lemma sector_of n : 0 ≤ n < 2 ^ 31 → u32 (n * (BSIZE / 512)) = 2 * n.
Proof. intros H. unfold u32. change (BSIZE / 512) with 2. rewrite Z.mod_small; lia. Qed.

Lemma invoke_run s Q U t b w : vinv s Q U → call s t = VIdle → (∀ t', uses (call s t') ≠ Some b) →
  0 ≤ vb_blockno (bufs s b) < 2 ^ 31 → length (vb_data (bufs s b)) = 1024%nat →
  ∃ s' Q', run (virtio_disk_rw t b w) s () s' ∧ vinv s' Q' U ∧ call s' t ≠ VIdle ∧ sectors s' = sectors s ∧
    ∀ k, acall (bufs s') (info_status s') U (call s' k) =
      if decide (t = k) then BPending (op_of (bufs s b) w) else acall (bufs s) (info_status s) U (call s k).
Proof.
  intros V E Hb Hbn Hlen. unfold virtio_disk_rw. unfold mbind, ST_bind. cbn [get].
  eapply rw_alloc_sim; [done|by rewrite E|by intros t' H%Hb|done|done|by apply sector_of].
Qed.

Lemma wait_sleeps s Q U t b w i0 i1 i2 : vinv s Q U → call s t = VWait b w i0 i1 i2 → vb_disk (bufs s b) = 1 →
  ∃ s', run (rw_wait t b w i0 i1 i2) s () s' ∧ vinv s' Q U ∧ bufs s' = bufs s ∧ info_status s' = info_status s ∧
    sectors s' = sectors s ∧ ∀ k, call s' k = call s k.
Proof.
  intros V E Hd. unfold rw_wait. unfold mbind, ST_bind. cbn [get]. rewrite (proj2 (Z.eqb_eq _ _) Hd).
  assert (HC : ∀ k, <[t := VWait b w i0 i1 i2]> (call s) k = call s k).
  { intros k. destruct (decide (t = k)) as [<-|]; by autorewrite with vfn. }
  eexists. split; [done|]. split; [|by split_and!]. pose proof V as [V1 V2 V3 V4 V5 V6 V7 V8 V9 V10].
  constructor; cbn -[insert]; try done.
  - apply desc_keep; [done|]. by rewrite E.
  - destruct V2 as [H1 H2]. split; intros ? *; rewrite ?HC; [apply H1|apply H2].
  - intros k. rewrite HC. apply V3.
  - destruct V4 as (Hn & Hh & Hc). split_and!; [done| |].
    + intros h. setoid_rewrite HC. apply Hh.
    + intros *. rewrite HC. apply Hc.
  - intros r. setoid_rewrite HC. apply V5.
  - intros k ch. rewrite HC. destruct (decide (t = k)) as [<-|]; autorewrite with vfn; [|apply V8].
    intros [= <-]. by exists w, i0, i1, i2.
Qed.

(** A process that is awake finishes its part: it sleeps again, with its call
    as it was, or returns. *)
Lemma resume_run s Q U t b : vinv s Q U → asleep s t = None → uses (call s t) = Some b →
  ∃ s' Q', run (rw_resume t) s () s' ∧ vinv s' Q' U ∧ sectors s' = sectors s ∧
    ((call s' t ≠ VIdle ∧ ∀ k, acall (bufs s') (info_status s') U (call s' k) = acall (bufs s) (info_status s) U (call s k)) ∨
     (call s' t = VIdle ∧ acall (bufs s) (info_status s) U (call s t) = BDone (vb_data (bufs s' b)) ∧
      ∀ k, acall (bufs s') (info_status s') U (call s' k) =
        if decide (t = k) then BNone else acall (bufs s) (info_status s) U (call s k))).
Proof.
  intros V Ha Hu. unfold rw_resume. unfold mbind at 1, ST_bind at 1. cbn [get].
  pose proof (v_call _ _ _ V t) as Hc. destruct (v_buf _ _ _ V) as [Huniq Hblk]. destruct (Hblk t b Hu) as [Hbn Hlen].
  destruct (call s t) as [|b' w x|b' w i0 i1 i2] eqn:E; [done|injection Hu as ->..].
  - destruct (rw_alloc_sim s Q U t b w x) as (s' & Q' & Er & V' & Hn & Hs & Hk); [done|by rewrite E| |done..|].
    + intros t' H'. apply (Huniq _ _ b); [done|by rewrite E].
    + exists s', Q'. split_and!; [done..|]. left. split; [done|]. intros k. rewrite Hk.
      destruct decide as [<-|]; [by rewrite E|done].
  - destruct (decide (vb_disk (bufs s b) = 1)) as [Hd|Hd].
    + destruct (wait_sleeps _ _ _ _ _ _ _ _ _ V E Hd) as (s' & Er & V' & HB & HI & Hs & HC).
      exists s', Q. split_and!; [done..|]. left. rewrite HB, HI. split; [by rewrite HC, E|]. intros k. by rewrite HC.
    + destruct (finish_run _ _ _ _ _ _ _ _ _ V E Hd Ha) as (s' & Er & V' & HB & HI & Hs & HC).
      exists s', Q. split_and!; [done..|]. right. rewrite HB, HI, HC. autorewrite with vfn. split_and!; [done| |].
      * cbn. rewrite decide_False; [done|naive_solver].
      * intros k. destruct decide as [<-|]; by autorewrite with vfn.
Qed.

Lemma bufset_silent s b n d : (∀ t, uses (call s t) ≠ Some b) →
  silent s (s <| bufs ::= λ B, <[b := VBuf n d (vb_disk (B b))]> B |>).
Proof.
  intros Hb a (Q & U & V & R). set (B' := <[b := VBuf n d (vb_disk (bufs s b))]> (bufs s)).
  assert (HB : ∀ t b', uses (call s t) = Some b' → B' b' = bufs s b').
  { intros t b' H'. unfold B'. rewrite fn_lookup_insert_ne; [done|]. intros ->. by apply (Hb t). }
  exists Q, U. pose proof V as [V1 V2 V3 V4 V5 V6 V7 V8 V9 V10]. split.
  - constructor; cbn; try done; fold B'.
    + eapply buf_agree; [|done]. intros t b' H'. by rewrite (HB t).
    + intros t. apply (call_agree (call s) (bufs s)); [|done]. intros t' b' H'. by rewrite (HB t').
    + eapply heads_agree; [|done]. intros t b' H'. by rewrite (HB t).
    + eapply fly_agree; [|done]. intros t b' H'. by rewrite (HB t).
    + eapply sleep_agree; [|done]. intros t b' H'. by rewrite (HB t).
  - split; cbn -[Z.mul]; [apply R|]. intros t. fold B'. rewrite (proj2 R). symmetry. apply acall_ext; [apply HB|done].
Qed.

Lemma step_sim s l s' a : vsim s a → v_step s l s' → ∃ a', bd_sim a l a' ∧ vsim s' a'.
Proof.
  intros Hs Hst. destruct Hst as [t b w s s' Hp E Hb Hbn Hlen Hr|t b s s' Hp Ha Hu Hr|t s|b n d s Hb|s Hi Hp|s s' Hp Hm Hr
    |s Hp Hm|s s' Hp Hr|r s Hn Hne Hr|l1 r l2 st s Hl].
  - destruct Hs as (Q & U & V & R). destruct (invoke_run s Q U t b w) as (s1 & Q' & Er & V' & _ & Hsec & Hk); [done..|].
    rewrite Hr in Er. injection Er as <-.
    exists (Bdst (bd_disk a) (<[t := BPending (op_of (bufs s b) w)]> (bd_call a))). split.
    + right. destruct a. constructor. pose proof (proj2 R t) as H. by rewrite E in H.
    + exists Q', U. split; [done|]. split; [rewrite Hsec; apply R|]. intros k. rewrite Hk. cbn.
      destruct decide as [<-|]; autorewrite with vfn; [done|apply R].
  - destruct Hs as (Q & U & V & R). destruct (resume_run s Q U t b V Ha Hu) as (s1 & Q' & Er & V' & Hsec & Hk).
    rewrite Hr in Er. injection Er as <-. destruct Hk as [[Hc Hk]|(Hc & Hd & Hk)].
    + exists a. split; [left; by destruct (call s' t)|]. exists Q', U. split; [done|].
      split; [rewrite Hsec; apply R|]. intros k. rewrite Hk. apply R.
    + rewrite Hc. exists (Bdst (bd_disk a) (<[t := BNone]> (bd_call a))). split.
      * right. destruct a. constructor. by rewrite <-Hd, <-(proj2 R t).
      * exists Q', U. split; [done|]. split; [rewrite Hsec; apply R|]. intros k. rewrite Hk. cbn.
        destruct decide as [<-|]; autorewrite with vfn; [done|apply R].
  - exists a. split; [by left|]. destruct Hs as (Q & U & V & R). exists Q, U. split; [|done].
    destruct V as [V1 V2 V3 V4 V5 V6 V7 V8 V9 V10]. constructor; try done. eapply sleep_woken; [|done].
    intros k. cbn. destruct (decide (t = k)) as [<-|]; autorewrite with vfn; [by right|by left].
  - exists a. split; [by left|]. by apply (bufset_silent s b).
  - exists a. split; [by left|]. destruct Hs as (Q & U & V & R). exists Q, U. split; [by destruct V|done].
  - exists a. split; [by left|]. by eapply collect_silent.
  - exists a. split; [by left|]. destruct Hs as (Q & U & V & R). exists Q, U. split; [by destruct V|done].
  - exists a. split; [by left|]. injection Hr as <-. destruct Hs as (Q & U & V & R). exists Q, U. split; [by destruct V|done].
  - exists a. split; [by left|]. by apply pop_silent.
  - by apply report_sim.
Qed.

(** ** Theorems *)

Definition bd_init (D : Z → block) : bdst := Bdst (λ n, rd_sectors D (2 * n)) (λ _, BNone).

Lemma init_sim D B H : (∀ x, length (D x) = 512%nat) → vsim (virtio_disk_init D B H) (bd_init D).
Proof.
  intros HD. exists [], []. split; [|by split]. constructor; cbn; try done.
  - constructor; cbn [ids].
    + reflexivity.
    + by intros t d ?%elem_of_nil.
    + intros t. constructor.
    + by intros t t' d ?%elem_of_nil.
    + intros d Hd. change [_; _; _; _; _; _; _; _] with (replicate 8 true) in Hd. by apply lookup_replicate in Hd as [Hd _].
  - split_and!; [constructor|by intros h ?%elem_of_nil|done].
  - by intros r ?%elem_of_nil.
Qed.

Lemma run_sim D B H tr s : (∀ x, length (D x) = 512%nat) → v_run (virtio_disk_init D B H) tr s →
  ∃ a, bd_run (bd_init D) tr a ∧ vsim s a.
Proof.
  intros HD. induction 1 as [|tr l u u' _ (a & Ha & Hs) Hst]; [exists (bd_init D); split; [constructor|by apply init_sim]|].
  destruct (step_sim _ _ _ _ Hs Hst) as (a' & [[-> ->]|Hb] & Hs').
  - exists a. cbn. by rewrite app_nil_r.
  - exists a'. split; [|done]. by eapply BNext.
Qed.

(** C10. The driver over its rings is a disk of blocks with atomic operations: for
    any number of processes, any interleaving of their calls with the interrupt
    handler, spurious wakeups, and a device that works on requests in any order
    and may report errors, the calls and returns the callers see are calls and
    returns of the specification, in which each call takes effect at one moment
    between them, reads return the block at that moment, and the medium holds
    the blocks of the specification. *)
Theorem virtio_refines (D : Z → block) (B : nat → vbuf) (H : nat → virtio_blk_outhdr) (tr : list vevent) (s : vsys) :
  (∀ x, length (D x) = 512%nat) → v_run (virtio_disk_init D B H) tr s →
  ∃ a, bd_run (bd_init D) tr a ∧ ∀ n, 0 ≤ n < 2 ^ 31 → bd_disk a n = rd_sectors (sectors s) (2 * n).
Proof. intros HD Hr. destruct (run_sim _ _ _ _ _ HD Hr) as (a & Ha & Q & U & _ & R). exists a. split; [done|apply R]. Qed.

(** Some process in a call, the handler or the device can go on. *)
Definition can_move (s : vsys) : Prop :=
  (∃ t b s', ipc s = HOut ∧ asleep s t = None ∧ uses (call s t) = Some b ∧ run (rw_resume t) s () s') ∨
  (ipc s = HOut ∧ irq s = true) ∨
  (ipc s = HLoop ∧ (intr_more s = false ∨ (∃ s', run intr_body s () s') ∨ intr_body s = Panic "virtio_disk_intr status")) ∨
  ipc s = HAck ∨
  (∃ r, notify s = true ∧ dv_last s ≠ avail_idx s ∧ dev_request s (avail s (dv_last s mod Z.of_nat NUM)) = Some r) ∨
  dv_fly s ≠ [].

(** The device has reported a request, but its interrupt line is down. *)
Definition report_unseen (s : vsys) : Prop := ipc s = HOut ∧ irq s = false ∧ intr_more s = true.

(** A request of a process that sleeps is somewhere on its way. *)
Lemma request_moves s Q U t b w i0 i1 i2 : vinv s Q U → ipc s = HOut →
  call s t = VWait b w i0 i1 i2 → vb_disk (bufs s b) = 1 → can_move s ∨ report_unseen s.
Proof.
  intros V Hp E Hd. pose proof (proj2 (proj2 (v_heads _ _ _ V)) _ _ _ _ _ _ E Hd) as Hi.
  rewrite !elem_of_app in Hi. destruct Hi as [Hi|[Hi|Hi]].
  - left. do 4 right. left. destruct Q as [|h Q]; [by apply elem_of_nil in Hi|].
    destruct (proj1 (proj2 (v_heads _ _ _ V)) h) as (t' & b' & w' & j1 & j2 & E' & _); [by left|].
    pose proof (v_call _ _ _ V t') as Hc. rewrite E' in Hc. eexists. split; [by apply (v_notify _ _ _ V)|].
    destruct (v_avail _ _ _ V) as (Hl & Hx & HR). split.
    + pose proof (heads_short _ _ (v_own _ _ _ V) _ _ (v_heads _ _ _ V)) as Hs. rewrite length_app in Hs.
      rewrite Hx. cbn [length] in *. unfold u16, NUM in *. intros Hm.
      assert (Hz : Z.of_nat (S (length Q)) mod 2 ^ 16 = 0).
      { replace (Z.of_nat (S (length Q))) with ((dv_last s + Z.of_nat (S (length Q))) - dv_last s) by lia.
        rewrite Zminus_mod, <-Hm, (Z.mod_small (dv_last s)), Z.sub_diag by done. done. }
      rewrite Z.mod_small in Hz; lia.
    + rewrite (ring_head _ _ _ _ HR). by apply (dev_request_call _ t' b' w' h j1 j2).
  - left. do 5 right. intros Hf. rewrite Hf in Hi. by apply elem_of_nil in Hi.
  - destruct (irq s) eqn:Hq; [left; right; left; done|right]. split_and!; [done..|]. rewrite (more_pending _ _ _ V).
    by destruct U; [apply elem_of_nil in Hi|].
Qed.

Lemma move_progress s Q U t : vinv s Q U → call s t ≠ VIdle → can_move s ∨ report_unseen s.
Proof.
  intros V Ht.
  assert (Hawake : ∀ t, ipc s = HOut → asleep s t = None → call s t ≠ VIdle → can_move s).
  { intros k Hp Ha Hk. destruct (uses (call s k)) as [b|] eqn:Hu; [|by destruct (call s k)]. left.
    destruct (resume_run s Q U k b V Ha Hu) as (s' & _ & Hr & _). by exists k, b, s'. }
  destruct (ipc s) eqn:Hp.
  - destruct (asleep s t) as [ch|] eqn:Ha; [|left; by eapply Hawake]. pose proof (v_sleep _ _ _ V t ch Ha) as Hs. destruct ch as [|b].
    + (* fewer than three descriptors are free: another call has the rest *)
      destruct Hs as [_ Hf]. destruct (findi negb (free s)) as [d|] eqn:Hd.
      * apply findi_lookup in Hd as (x & Hx & Hn). destruct x; [done|]. apply (own_all _ _ (v_own _ _ _ V)) in Hx as [k Hk].
        apply ids_uses in Hk as (b & w & i0 & i1 & i2 & E).
        destruct (asleep s k) as [ch|] eqn:Hak; [|left; eapply Hawake; [done..|by rewrite E]].
        pose proof (v_sleep _ _ _ V k ch Hak) as Hs'. destruct ch as [|b']; [destruct Hs' as [(? & ? & ? & ?) _]; congruence|].
        destruct Hs' as (? & ? & ? & ? & E' & Hd). rewrite E in E'. injection E' as <- _ _ _ _. by eapply request_moves.
      * exfalso. assert (HF : free s = replicate NUM true); [|rewrite HF in Hf; by vm_compute in Hf].
        symmetry. apply replicate_as_Forall. split; [apply (own_len _ _ (v_own _ _ _ V))|]. apply Forall_lookup. intros i x Hx.
        rewrite findi_None in Hd. specialize (Hd i x Hx). by destruct x.
    + destruct Hs as (w & i0 & i1 & i2 & E & Hd). by eapply request_moves.
  - left. do 2 right. left. split; [done|]. destruct U as [|h U].
    + left. by rewrite (more_pending _ _ _ V).
    + right. destruct (intr_body_run _ _ _ _ V) as (k & b & w & i1 & i2 & _ & _ & ->).
      destruct (_ =? 0); [left; by eexists|by right].
  - left. do 3 right. by left.
Qed.

(** C14. No call is stuck: whenever a process is in virtio_disk_rw, waiting for
    descriptors or for the device, some process, the handler or the device can
    go on, or the device has reported a request with its interrupt line down.
    No wakeup is lost and no function of the driver panics unless the device
    has reported an error. *)
Theorem virtio_progress (D : Z → block) (B : nat → vbuf) (H : nat → virtio_blk_outhdr) (tr : list vevent) (s : vsys) (t : nat) :
  (∀ x, length (D x) = 512%nat) → v_run (virtio_disk_init D B H) tr s → call s t ≠ VIdle → can_move s ∨ report_unseen s.
Proof. intros HD Hr Ht. destruct (run_sim _ _ _ _ _ HD Hr) as (a & _ & Q & U & V & _). by eapply move_progress. Qed.

(** Feature negotiation drops exactly the refused bits. *)
Lemma negotiate_bits f k : 0 ≤ k →
  Z.testbit (negotiate f) k = Z.testbit f k && negb (bool_decide (k ∈ refused_features)).
Proof.
  intros Hk. unfold negotiate. assert (HF : Forall (λ x, 0 ≤ x) refused_features) by (by repeat constructor).
  revert f. induction HF as [|x l Hx HF IH]; intros f; cbn [fold_left].
  - rewrite bool_decide_false by set_solver. by rewrite andb_true_r.
  - rewrite IH, Z.land_spec, Z.lnot_spec, flag_bit by done. destruct (decide (x = k)) as [->|Hne].
    + rewrite !(bool_decide_true (k = k)), (bool_decide_true (k ∈ k :: l)) by set_solver.
      cbn. by rewrite !andb_false_r.
    + rewrite (bool_decide_false (x = k)) by done. cbn. rewrite andb_true_r.
      rewrite (bool_decide_ext (k ∈ x :: l) (k ∈ l)) by set_solver. done.
Qed.
