(* ===== verification/VirtioExample.v ===== *)
(** * Runs of the disk driver

    A block is written by one process and read by another; and a run in which
    the interrupt of a finished request is lost. *)

From stdpp Require Import functions.
From S2P Require Import Prelude Bytes Virtio VirtioInv VirtioSpec.

(** Buffers 0 to 3 are for blocks 0 to 3, and so are 4 to 7. *)
Definition ex_block (v : Z) : block := replicate 1024 v.
Definition ex_disk : Z → block := λ _, replicate 512 0.
Definition ex_init : vsys :=
  virtio_disk_init ex_disk (λ b, VBuf (Z.of_nat b mod 4) (ex_block (Z.of_nat b + 1)) 0) (λ _, OutHdr 0 0 0).

(** The transitions of the device and the handler as functions. *)
Definition dev_pop (s : vsys) : vsys :=
  match dev_request s (avail s (dv_last s mod Z.of_nat NUM)) with
  | Some r => s <| dv_fly ::= λ l, l ++ [r] |> <| dv_last ::= λ n, u16 (n + 1) |>
                <| notify := negb (u16 (dv_last s + 1) =? avail_idx s) |>
  | None => s
  end.
Definition dev_done (s : vsys) : vsys :=
  match dv_fly s with r :: l => (dev_report r 0 s) <| dv_fly := l |> | [] => s end.
Definition intr_enter (s : vsys) : vsys := s <| ipc := HLoop |>.
Definition intr_exit (s : vsys) : vsys := s <| ipc := HAck |>.
Definition intr_leave (s : vsys) : vsys := (after intr_ack s) <| ipc := HOut |>.

Lemma run_silent s tr u u' : v_run s tr u → v_step u None u' → v_run s tr u'.
Proof. intros Hr Hs. rewrite <-(app_nil_r tr). change [] with (option_list (@None vevent)). by eapply VNext. Qed.
Lemma run_visible s tr u e u' : v_run s tr u → v_step u (Some e) u' → v_run s (tr ++ [e]) u'.
Proof. intros Hr Hs. change [e] with (option_list (Some e)). by eapply VNext. Qed.

Lemma step_pop u r : notify u = true → dv_last u ≠ avail_idx u →
  dev_request u (avail u (dv_last u mod Z.of_nat NUM)) = Some r → v_step u None (dev_pop u).
Proof. intros Hn Hl Hr. unfold dev_pop. rewrite Hr. by apply VPop. Qed.
Lemma step_done u r l : dv_fly u = r :: l → v_step u None (dev_done u).
Proof. intros Hf. unfold dev_done. rewrite Hf. by apply (VReport [] r l). Qed.
Lemma step_collect u : ipc u = HLoop → intr_more u = true → value intr_body u = Some () → v_step u None (after intr_body u).
Proof. intros Hp Hm Hv. apply VCollect; [done..|]. by apply run_after. Qed.
Lemma step_leave u : ipc u = HAck → v_step u None (intr_leave u).
Proof. intros Hp. by apply VAck. Qed.
Lemma step_call u t b w : ipc u = HOut → call u t = VIdle → (∀ t', uses (call u t') ≠ Some b) →
  0 ≤ vb_blockno (bufs u b) < 2 ^ 31 → length (vb_data (bufs u b)) = 1024%nat → value (virtio_disk_rw t b w) u = Some () →
  v_step u (Some (Invoke t (op_of (bufs u b) w))) (after (virtio_disk_rw t b w) u).
Proof. intros. apply VCall; [done..|]. by apply run_after. Qed.
Lemma step_return u t b : ipc u = HOut → asleep u t = None → uses (call u t) = Some b → value (rw_resume t) u = Some () →
  call (after (rw_resume t) u) t = VIdle →
  v_step u (Some (Return t (vb_data (bufs (after (rw_resume t) u) b)))) (after (rw_resume t) u).
Proof.
  intros Hp Ha Hu Hv Hc. pose proof (VRun t b u (after (rw_resume t) u) Hp Ha Hu (run_after _ _ _ Hv)) as Hs.
  by rewrite Hc in Hs.
Qed.

(** ** A block written and read back *)

Definition w1 : vsys := after (virtio_disk_rw 0 0 true) ex_init.
Definition w2 : vsys := intr_leave (intr_exit (after intr_body (intr_enter (dev_done (dev_pop w1))))).
Definition w3 : vsys := after (rw_resume 0) w2.
Definition w4 : vsys := after (virtio_disk_rw 1 4 false) w3.
Definition w5 : vsys := intr_leave (intr_exit (after intr_body (intr_enter (dev_done (dev_pop w4))))).
Definition w6 : vsys := after (rw_resume 1) w5.

(** A request that is popped, done, and collected by the handler. *)
Lemma served s tr u r r' l : v_run s tr u → ipc u = HOut → notify u = true → dv_last u ≠ avail_idx u →
  dev_request u (avail u (dv_last u mod Z.of_nat NUM)) = Some r → dv_fly (dev_pop u) = r' :: l →
  irq (dev_done (dev_pop u)) = true → ipc (dev_done (dev_pop u)) = HOut →
  intr_more (intr_enter (dev_done (dev_pop u))) = true → value intr_body (intr_enter (dev_done (dev_pop u))) = Some () →
  ipc (after intr_body (intr_enter (dev_done (dev_pop u)))) = HLoop →
  intr_more (after intr_body (intr_enter (dev_done (dev_pop u)))) = false →
  v_run s tr (intr_leave (intr_exit (after intr_body (intr_enter (dev_done (dev_pop u)))))).
Proof.
  intros Hr Hp Hn Hl Hq Hf Hi Hp2 Hm Hv Hp3 Hm2.
  eapply run_silent; [|by apply step_leave]. eapply run_silent; [|by apply VExit].
  eapply run_silent; [|by apply step_collect]. eapply run_silent; [|by apply VEnter].
  eapply run_silent; [|by eapply step_done]. eapply run_silent; [exact Hr|]. by eapply step_pop.
Qed.

Lemma write_read_run : v_run ex_init
  [Invoke 0 (BWrite 0 (ex_block 1)); Return 0 (ex_block 1); Invoke 1 (BRead 0); Return 1 (ex_block 1)] w6.
Proof.
  assert (H1 : v_run ex_init [Invoke 0 (BWrite 0 (ex_block 1))] w1).
  { eapply (run_visible _ [] _ _ _ (VRefl _)). by apply (step_call ex_init 0 0 true). }
  assert (H2 : v_run ex_init [Invoke 0 (BWrite 0 (ex_block 1))] w2).
  { eapply served; [exact H1|by vm_compute..]. }
  assert (H3 : v_run ex_init [Invoke 0 (BWrite 0 (ex_block 1)); Return 0 (ex_block 1)] w3).
  { eapply (run_visible _ [_] _ _ _ H2). by apply (step_return w2 0 0); vm_compute. }
  assert (H4 : v_run ex_init [Invoke 0 (BWrite 0 (ex_block 1)); Return 0 (ex_block 1); Invoke 1 (BRead 0)] w4).
  { eapply (run_visible _ [_; _] _ _ _ H3). apply (step_call w3 1 4 false); [by vm_compute..| |by vm_compute|by vm_compute|by vm_compute].
    intros [|t']; by vm_compute. }
  assert (H5 : v_run ex_init [Invoke 0 (BWrite 0 (ex_block 1)); Return 0 (ex_block 1); Invoke 1 (BRead 0)] w5).
  { eapply served; [exact H4|by vm_compute..]. }
  eapply (run_visible _ [_; _; _] _ _ _ H5). by apply (step_return w5 1 4); vm_compute.
Qed.

(** The refinement, on the run in which process 1 reads what process 0 wrote. *)
Lemma virtio_refines_witness :
  v_run ex_init
    [Invoke 0 (BWrite 0 (ex_block 1)); Return 0 (ex_block 1); Invoke 1 (BRead 0); Return 1 (ex_block 1)] w6 ∧
  ∃ a, bd_run (bd_init ex_disk)
    [Invoke 0 (BWrite 0 (ex_block 1)); Return 0 (ex_block 1); Invoke 1 (BRead 0); Return 1 (ex_block 1)] a ∧
    ∀ n, 0 ≤ n < 2 ^ 31 → bd_disk a n = rd_sectors (sectors w6) (2 * n).
Proof.
  split; [exact write_read_run|]. apply (virtio_refines ex_disk _ _ _ w6 (λ _, eq_refl) write_read_run).
Defined.

Lemma virtio_progress_witness : call w4 1 ≠ VIdle ∧ (can_move w4 ∨ report_unseen w4).
Proof.
  assert (H4 : ∃ tr, v_run ex_init tr w4).
  { eexists. eapply run_visible; [|apply (step_call w3 1 4 false)]; [|by vm_compute..| |by vm_compute|by vm_compute|by vm_compute].
    - eapply run_visible; [|apply (step_return w2 0 0)]; [|by vm_compute..].
      eapply served; [|by vm_compute..]. eapply run_visible; [apply VRefl|]. by apply (step_call ex_init 0 0 true).
    - intros [|t']; by vm_compute. }
  assert (Hc : call w4 1 ≠ VIdle) by (by vm_compute). split; [exact Hc|]. destruct H4 as [tr Hr].
  exact (virtio_progress ex_disk _ _ tr w4 1 (λ _, eq_refl) Hr Hc).
Defined.

(** ** An interrupt that is lost

    Two requests are under way.  The handler has collected the first and left
    its loop when the device reports the second; the acknowledgement at the end
    of the handler then takes back the interrupt for both. *)
Definition l1 : vsys := dev_pop (dev_pop (after (virtio_disk_rw 1 1 true) (after (virtio_disk_rw 0 0 true) ex_init))).
Definition l2 : vsys := intr_exit (after intr_body (intr_enter (dev_done l1))).
Definition l3 : vsys := after (rw_resume 0) (intr_leave (dev_done l2)).

Lemma lost_run : ∃ tr, v_run ex_init tr l3.
Proof.
  eexists. eapply run_visible; [|apply (step_return _ 0 0); by vm_compute].
  eapply run_silent; [|apply step_leave; by vm_compute].
  eapply run_silent; [|eapply step_done; by vm_compute].
  eapply run_silent; [|apply VExit; by vm_compute].
  eapply run_silent; [|apply step_collect; by vm_compute].
  eapply run_silent; [|apply VEnter; by vm_compute].
  eapply run_silent; [|eapply step_done; by vm_compute].
  eapply run_silent; [|eapply step_pop; by vm_compute].
  eapply run_silent; [|eapply step_pop; by vm_compute].
  eapply run_visible; [|apply (step_call _ 1 1 true); [by vm_compute..| |by vm_compute|by vm_compute|by vm_compute];
    intros [|t']; by vm_compute].
  eapply run_visible; [apply VRefl|]. by apply (step_call ex_init 0 0 true).
Qed.

(** The driver can lose an interrupt: a request is finished without error and
    reported, no other request is under way, and the process that waits for it
    sleeps in a state in which nothing can go on. *)
Lemma virtio_interrupt_lost : ∃ tr s, v_run ex_init tr s ∧ report_unseen s ∧
  call s 1 = VWait 1 true 3 4 5 ∧ asleep s 1 = Some (ChBuf 1) ∧ info_status s 3 = 0 ∧ dv_fly s = [] ∧ ¬ can_move s.
Proof.
  destruct lost_run as [tr Hr]. exists tr, l3. split_and!; [exact Hr|by vm_compute..|].
  intros [(t & b & s' & _ & Ha & Hu & _)|[[_ H]|[[H _]|[H|[(r & H & _)|H]]]]]; [|by vm_compute in H..].
  assert (H0 : call l3 0 = VIdle) by (by vm_compute). assert (H1 : asleep l3 1 = Some (ChBuf 1)) by (by vm_compute).
  assert (H2 : ∀ t, call l3 (S (S t)) = VIdle) by (intros k; by vm_compute).
  destruct t as [|[|t]]; [rewrite H0 in Hu; discriminate Hu|rewrite H1 in Ha; discriminate Ha|rewrite H2 in Hu; discriminate Hu].
Qed.
