(* ===== verification/BufCache.v ===== *)
(** * The buffer cache as its clients see it

    The log and the file system use the buffer cache only through [bread],
    [bwrite], [brelse], [bpin], [bunpin] and the [data] of a buffer they hold.
    The class [BufCache] is that interface; [BufCacheSpec] is what an
    implementation promises, stated on an abstract state ([cview]): what the
    disk holds, what the kernel sees of each block, how many references and
    which lock each block has, and the history of disk writes.  [Bio] shows
    that the code of bio.c keeps these promises. *)

From stdpp Require Import gmap.
From S2P Require Import Prelude Bytes.

(** The number of buffers (param.h: [NBUF = MAXOPBLOCKS * 3]). *)
Definition MAXOPBLOCKS : Z := 10.
Definition LOGSIZE : Z := MAXOPBLOCKS * 3.
Definition NBUF : Z := MAXOPBLOCKS * 3.
Arguments NBUF : simpl never.
Definition BSIZE : nat := 1024.
Arguments BSIZE : simpl never.

(** ** Operations *)

Class BufCache (C : Type) := {
  bread : Z → Z → ST C nat;            (* bread(dev, blockno): a locked buffer *)
  bwrite : nat → ST C ();
  brelse : nat → ST C ();
  bpin : nat → ST C ();
  bunpin : nat → ST C ();
  buf_data : nat → C → block;           (* b->data *)
  buf_blockno : nat → C → Z;            (* b->blockno *)
  set_data : nat → block → C → C;       (* stores into b->data by its holder *)
}.

(** ** The abstract state *)

Record cview := CView {
  cv_disk : Z → block;                  (* what the device holds *)
  cv_mem : Z → block;                   (* what a bread of the block shows *)
  cv_ref : Z → Z;                       (* b->refcnt, 0 when not cached *)
  cv_busy : Z → bool;                   (* is the block's buffer locked *)
  cv_trace : list (Z * block);          (* the block writes issued so far *)
}.

#[export] Instance cview_equiv : Equiv cview := λ v w,
  (∀ b, cv_disk v b = cv_disk w b) ∧ (∀ b, cv_mem v b = cv_mem w b) ∧
  (∀ b, cv_ref v b = cv_ref w b) ∧ (∀ b, cv_busy v b = cv_busy w b) ∧
  cv_trace v = cv_trace w.

#[export] Instance cview_equivalence : Equivalence (≡@{cview}).
Proof.
  split.
  - intros v. by repeat split.
  - intros v w (?&?&?&?&?). by repeat split.
  - intros u v w (H1&H2&H3&H4&H5) (K1&K2&K3&K4&K5).
    repeat split; intros; congruence.
Qed.

Definition v_acq (b : Z) (v : cview) : cview :=
  CView (cv_disk v) (cv_mem v) (fupd b (u32 (cv_ref v b + 1)) (cv_ref v))
    (fupd b true (cv_busy v)) (cv_trace v).
Definition v_rel (b : Z) (v : cview) : cview :=
  CView (cv_disk v) (cv_mem v) (fupd b (u32 (cv_ref v b - 1)) (cv_ref v))
    (fupd b false (cv_busy v)) (cv_trace v).
Definition v_pin (b : Z) (v : cview) : cview :=
  CView (cv_disk v) (cv_mem v) (fupd b (u32 (cv_ref v b + 1)) (cv_ref v)) (cv_busy v) (cv_trace v).
Definition v_unpin (b : Z) (v : cview) : cview :=
  CView (cv_disk v) (cv_mem v) (fupd b (u32 (cv_ref v b - 1)) (cv_ref v)) (cv_busy v) (cv_trace v).
Definition v_store (b : Z) (d : block) (v : cview) : cview :=
  CView (cv_disk v) (fupd b d (cv_mem v)) (cv_ref v) (cv_busy v) (cv_trace v).
Definition v_flush (b : Z) (v : cview) : cview :=
  CView (fupd b (cv_mem v b) (cv_disk v)) (cv_mem v) (cv_ref v) (cv_busy v)
    (cv_trace v ++ [(b, cv_mem v b)]).

Ltac cview_proper :=
  intros ? ? (?&?&?&?&?); unfold v_acq, v_rel, v_pin, v_unpin, v_store, v_flush, fupd;
  repeat split; simpl; intros; repeat case_decide; congruence.

#[export] Instance v_acq_proper b : Proper ((≡) ==> (≡)) (v_acq b).
Proof. cview_proper. Qed.
#[export] Instance v_rel_proper b : Proper ((≡) ==> (≡)) (v_rel b).
Proof. cview_proper. Qed.
#[export] Instance v_pin_proper b : Proper ((≡) ==> (≡)) (v_pin b).
Proof. cview_proper. Qed.
#[export] Instance v_unpin_proper b : Proper ((≡) ==> (≡)) (v_unpin b).
Proof. cview_proper. Qed.
#[export] Instance v_store_proper b d : Proper ((≡) ==> (≡)) (v_store b d).
Proof. cview_proper. Qed.
#[export] Instance v_flush_proper b : Proper ((≡) ==> (≡)) (v_flush b).
Proof. cview_proper. Qed.

(** The disk after a sequence of block writes. *)
Definition replay (ws : list (Z * block)) (d : Z → block) : Z → block :=
  fold_left (λ d w, fupd w.1 w.2 d) ws d.

Lemma replay_app ws1 ws2 d b : replay (ws1 ++ ws2) d b = replay ws2 (replay ws1 d) b.
Proof. unfold replay. by rewrite fold_left_app. Qed.

(** ** Promises *)

(** No locked buffer has a zero reference count: [bget] will not recycle a
    buffer somebody is using. *)
Definition quiet (v : cview) : Prop := ∀ b, cv_busy v b = true → cv_ref v b ≠ 0.

(** Fewer than [NBUF] blocks are referenced, so [bget] finds a victim. *)
Definition room (v : cview) : Prop :=
  ∀ bs, NoDup bs → Forall (λ b, cv_ref v b ≠ 0) bs → Z.of_nat (length bs) < NBUF.

Class BufCacheSpec (C : Type) `{!BufCache C} (dv : Z) := {
  cwf : C → Prop;
  cv : C → cview;
  holds : C → nat → Z → Prop;           (* the caller has buffer h, block b, locked *)

  cv_ref_range c b : cwf c → 0 ≤ cv_ref (cv c) b < 2 ^ 32;
  cv_clean c b : cwf c → cv_ref (cv c) b = 0 → cv_mem (cv c) b = cv_disk (cv c) b;
  cv_mem_length c b : cwf c → length (cv_mem (cv c) b) = BSIZE;
  holds_data c h b : cwf c → holds c h b → buf_data h c = cv_mem (cv c) b;
  holds_blockno c h b : cwf c → holds c h b → buf_blockno h c = b;
  holds_busy c h b : cwf c → holds c h b → cv_busy (cv c) b = true;

  bread_spec c b :
    cwf c → quiet (cv c) → 0 ≤ b < 2 ^ 32 → cv_busy (cv c) b = false →
    cv_ref (cv c) b ≠ 2 ^ 32 - 1 → room (cv c) ∨ cv_ref (cv c) b ≠ 0 →
    ∃ h c', run (bread dv b) c h c' ∧ cwf c' ∧ cv c' ≡ v_acq b (cv c) ∧ holds c' h b ∧
      ∀ h' b', holds c h' b' → holds c' h' b';
  set_data_spec c h b d :
    cwf c → holds c h b → cv_ref (cv c) b ≠ 0 → length d = BSIZE →
    cwf (set_data h d c) ∧ cv (set_data h d c) ≡ v_store b d (cv c) ∧
      ∀ h' b', holds c h' b' → holds (set_data h d c) h' b';
  bwrite_spec c h b :
    cwf c → holds c h b →
    ∃ c', run (bwrite h) c () c' ∧ cwf c' ∧ cv c' ≡ v_flush b (cv c) ∧
      ∀ h' b', holds c h' b' → holds c' h' b';
  brelse_spec c h b :
    cwf c → holds c h b →
    (cv_ref (cv c) b = 1 → cv_mem (cv c) b = cv_disk (cv c) b) →
    ∃ c', run (brelse h) c () c' ∧ cwf c' ∧ cv c' ≡ v_rel b (cv c) ∧
      ∀ h' b', b' ≠ b → holds c h' b' → holds c' h' b';
  bpin_spec c h b :
    cwf c → holds c h b → cv_ref (cv c) b ≠ 2 ^ 32 - 1 →
    ∃ c', run (bpin h) c () c' ∧ cwf c' ∧ cv c' ≡ v_pin b (cv c) ∧
      ∀ h' b', holds c h' b' → holds c' h' b';
  bunpin_spec c h b :
    cwf c → holds c h b →
    (cv_ref (cv c) b = 1 → cv_mem (cv c) b = cv_disk (cv c) b) →
    ∃ c', run (bunpin h) c () c' ∧ cwf c' ∧ cv c' ≡ v_unpin b (cv c) ∧
      ∀ h' b', holds c h' b' → holds c' h' b';
}.

(** ** Reasoning about the abstract state *)

Definition idle (v : cview) : Prop := ∀ b, cv_busy v b = false.

Lemma idle_quiet v : idle v → quiet v.
Proof. intros H b. by rewrite H. Qed.

Section equiv_proj.
Context (v w : cview) (H : v ≡ w).
Lemma equiv_disk b : cv_disk v b = cv_disk w b. Proof. apply H. Qed.
Lemma equiv_mem b : cv_mem v b = cv_mem w b. Proof. apply H. Qed.
Lemma equiv_ref b : cv_ref v b = cv_ref w b. Proof. apply H. Qed.
Lemma equiv_busy b : cv_busy v b = cv_busy w b. Proof. apply H. Qed.
Lemma equiv_trace : cv_trace v = cv_trace w. Proof. apply H. Qed.
End equiv_proj.

#[export] Instance idle_proper : Proper ((≡) ==> iff) idle.
Proof. intros v w H. unfold idle. split; intros K b; [rewrite <- (equiv_busy v w H)|rewrite (equiv_busy v w H)]; apply K. Qed.

#[export] Instance room_proper : Proper ((≡) ==> iff) room.
Proof.
  intros v w H. unfold room.
  split; intros K bs Hnd Hall; apply K; try done; eapply Forall_impl; try done; simpl; intros b;
    by rewrite (equiv_ref v w H).
Qed.

Lemma u32_succ_pred r : 0 ≤ r < 2 ^ 32 → u32 (u32 (r + 1) - 1) = r.
Proof. intros Hr. rewrite u32_sub_idemp, u32_small; lia. Qed.

Lemma u32_succ_ne_0 r : 0 ≤ r < 2 ^ 32 → r ≠ 2 ^ 32 - 1 → u32 (r + 1) = r + 1.
Proof. intros Hr Hn. apply u32_small. lia. Qed.

(** Reads the fields of [cv c'] through the equivalences in the context. *)
Ltac cv_cbn :=
  cbn [v_acq v_rel v_pin v_unpin v_store v_flush cv_disk cv_mem cv_ref cv_busy cv_trace].
Ltac cv_read :=
  repeat (match goal with
  | H : ?v ≡ _ |- context [cv_disk ?v _] => rewrite (equiv_disk _ _ H)
  | H : ?v ≡ _ |- context [cv_mem ?v _] => rewrite (equiv_mem _ _ H)
  | H : ?v ≡ _ |- context [cv_ref ?v _] => rewrite (equiv_ref _ _ H)
  | H : ?v ≡ _ |- context [cv_busy ?v _] => rewrite (equiv_busy _ _ H)
  | H : ?v ≡ _ |- context [cv_trace ?v] => rewrite (equiv_trace _ _ H)
  end; cv_cbn; rewrite ?fupd_eq, ?fupd_ne by congruence).

(** A block written both to the device and to its buffer. *)
Definition v_copy (b : Z) (d : block) (v : cview) : cview :=
  CView (fupd b d (cv_disk v)) (fupd b d (cv_mem v)) (cv_ref v) (cv_busy v) (cv_trace v ++ [(b, d)]).

#[export] Instance v_copy_proper b d : Proper ((≡) ==> (≡)) (v_copy b d).
Proof.
  intros v w (?&?&?&?&?). unfold v_copy, fupd.
  repeat split; simpl; intros; repeat case_decide; congruence.
Qed.

(** A sequence of such copies, and of copies that also drop a pin. *)
Definition v_copies (ws : list (Z * block)) (v : cview) : cview :=
  fold_left (λ v w, v_copy w.1 w.2 v) ws v.
Definition v_installs (ws : list (Z * block)) (v : cview) : cview :=
  fold_left (λ v w, v_unpin w.1 (v_copy w.1 w.2 v)) ws v.

Lemma v_copies_spec ws v :
  v_copies ws v ≡ CView (replay ws (cv_disk v)) (replay ws (cv_mem v)) (cv_ref v) (cv_busy v) (cv_trace v ++ ws).
Proof.
  revert v. induction ws as [|w ws IH]; intros v; simpl.
  - repeat split; simpl; by rewrite ?app_nil_r.
  - etrans; [apply (IH (v_copy w.1 w.2 v))|].
    repeat split; cbn; intros; rewrite <- ?app_assoc; by destruct w.
Qed.

Definition drops (bs : list Z) (r : Z → Z) : Z → Z := fold_left (λ r b, fupd b (u32 (r b - 1)) r) bs r.

Lemma v_installs_spec ws v :
  v_installs ws v ≡ CView (replay ws (cv_disk v)) (replay ws (cv_mem v)) (drops ws.*1 (cv_ref v))
                       (cv_busy v) (cv_trace v ++ ws).
Proof.
  revert v. induction ws as [|w ws IH]; intros v; simpl.
  - repeat split; simpl; by rewrite ?app_nil_r.
  - etrans; [apply (IH (v_unpin w.1 (v_copy w.1 w.2 v)))|].
    repeat split; cbn; intros; rewrite <- ?app_assoc; by destruct w.
Qed.

Lemma drops_notin bs r b : b ∉ bs → drops bs r b = r b.
Proof.
  revert r. induction bs as [|b' bs IH]; intros r Hb; [done|].
  apply not_elem_of_cons in Hb as [Hne Hb]. simpl. rewrite IH by done. by apply fupd_ne.
Qed.

Lemma drops_in bs r b : NoDup bs → b ∈ bs → drops bs r b = u32 (r b - 1).
Proof.
  revert r. induction bs as [|b' bs IH]; intros r Hnd Hb; [by apply not_elem_of_nil in Hb|].
  apply NoDup_cons in Hnd as [Hn Hnd]. simpl. apply elem_of_cons in Hb as [->|Hb].
  - rewrite drops_notin by done. apply fupd_eq.
  - rewrite IH by done. rewrite fupd_ne by (intros ->; done). done.
Qed.

Lemma replay_notin ws d b : b ∉ ws.*1 → replay ws d b = d b.
Proof.
  revert d. induction ws as [|w ws IH]; intros d Hb; [done|].
  simpl in Hb. apply not_elem_of_cons in Hb as [Hne Hb]. unfold replay. simpl.
  fold (replay ws (fupd w.1 w.2 d)). rewrite IH by done. by apply fupd_ne.
Qed.

Lemma replay_in ws d b x : NoDup ws.*1 → (b, x) ∈ ws → replay ws d b = x.
Proof.
  revert d. induction ws as [|w ws IH]; intros d Hnd Hb; [by apply not_elem_of_nil in Hb|].
  simpl in Hnd. apply NoDup_cons in Hnd as [Hn Hnd]. unfold replay. simpl.
  fold (replay ws (fupd w.1 w.2 d)). apply elem_of_cons in Hb as [<-|Hb].
  - rewrite replay_notin by done. apply fupd_eq.
  - by apply IH.
Qed.

Lemma replay_ext ws d d' b : (∀ b, d b = d' b) → replay ws d b = replay ws d' b.
Proof.
  revert d d'. induction ws as [|w ws IH]; intros d d' H; [done|].
  apply (IH (fupd w.1 w.2 d)). intros b'. unfold fupd. by case_decide.
Qed.

(** The two sequences as writes, and the references they drop. *)
Definition v_writes (ws : list (Z * block)) (v : cview) : cview :=
  CView (replay ws (cv_disk v)) (replay ws (cv_mem v)) (cv_ref v) (cv_busy v) (cv_trace v ++ ws).
Definition v_drops (bs : list Z) (v : cview) : cview :=
  CView (cv_disk v) (cv_mem v) (drops bs (cv_ref v)) (cv_busy v) (cv_trace v).

Lemma drops_ext bs r r' b : (∀ b, r b = r' b) → drops bs r b = drops bs r' b.
Proof.
  revert r r'. induction bs as [|b' bs IH]; intros r r' H; [apply H|].
  apply IH. intros b''. unfold fupd. rewrite !H. by case_decide.
Qed.

#[export] Instance v_writes_proper ws : Proper ((≡) ==> (≡)) (v_writes ws).
Proof.
  intros v w (?&?&?&?&?). repeat split; simpl; try done.
  - intros. by apply replay_ext.
  - intros. by apply replay_ext.
  - congruence.
Qed.

#[export] Instance v_drops_proper bs : Proper ((≡) ==> (≡)) (v_drops bs).
Proof. intros v w (?&?&?&?&?). repeat split; simpl; try done. intros. by apply drops_ext. Qed.

Lemma v_copy_writes b d v : v_copy b d v = v_writes [(b, d)] v.
Proof. done. Qed.
Lemma v_copies_writes ws v : v_copies ws v ≡ v_writes ws v.
Proof. apply v_copies_spec. Qed.
Lemma v_installs_writes ws v : v_installs ws v ≡ v_drops ws.*1 (v_writes ws v).
Proof. apply v_installs_spec. Qed.

Lemma v_writes_app ws1 ws2 v : v_writes ws2 (v_writes ws1 v) ≡ v_writes (ws1 ++ ws2) v.
Proof. repeat split; simpl; intros; by rewrite ?replay_app, ?app_assoc. Qed.

Lemma v_writes_drops ws bs v : v_writes ws (v_drops bs v) = v_drops bs (v_writes ws v).
Proof. done. Qed.
