(* ===== verification/Bio.v ===== *)
(** * bio.c: the buffer cache

    [NBUF] buffers spread over [NBUCKET] hash buckets; a block's buffer lives
    in the bucket of its block number, a miss recycles the least recently used
    unreferenced buffer of the first bucket (cyclically from the block's own)
    that has one.

    The [prev]/[next] ring of a bucket is the list of its buffers' indices
    from [head.next] on; a buffer pointer is its index in [bcache.buf].
    Spinlocks bracket the whole of each critical section and are not state
    here (see Spinlock.v for them); a sleep lock is the pair [locked]/[pid],
    and taking one that is held is the outcome [Blocks].  The virtio driver
    and the device behind it are the map [dsk] with the list of writes. *)

From stdpp Require Import gmap.
From S2P Require Import Prelude Bytes BufCache.

Definition NBUCKET : Z := 13.
Arguments NBUCKET : simpl never.
Definition HASH (id : Z) : Z := id mod NBUCKET.

(** ** State *)

Record buf := Buf {
  b_valid : bool;                       (* has the data been read from disk *)
  b_dev : Z;
  b_blockno : Z;
  b_locked : bool;                      (* b->lock.locked *)
  b_pid : Z;                            (* b->lock.pid *)
  b_refcnt : Z;
  b_data : block;
  b_timestamp : Z;
}.
#[export] Instance buf_fields : Fields buf := λ b,
  Buf (b_valid b) (b_dev b) (b_blockno b) (b_locked b) (b_pid b) (b_refcnt b) (b_data b) (b_timestamp b).

Record bcache := BCache {
  bufs : list buf;                      (* bcache.buf *)
  buckets : list (list nat);            (* bcache.buckets *)
  ticks : Z;                            (* the clock *)
  curpid : Z;                           (* myproc()->pid *)
  dsk : gmap Z block;                   (* the device *)
  wtrace : list (Z * block);            (* block writes issued, oldest first *)
}.
#[export] Instance bcache_fields : Fields bcache := λ c,
  BCache (bufs c) (buckets c) (ticks c) (curpid c) (dsk c) (wtrace c).

Definition zero_block : block := replicate BSIZE 0.
Arguments zero_block : simpl never.
Definition dread (d : gmap Z block) (b : Z) : block := default zero_block (d !! b).

(** The static storage of [bcache.buf] is zeroed. *)
Definition buf0 : buf := Buf false 0 0 false 0 0 zero_block 0.

(** [binit]: empty rings, then every buffer inserted at the head of ring 0. *)
Definition binit (tk pid : Z) (d : gmap Z block) : bcache :=
  let empty_rings := replicate (Z.to_nat NBUCKET) ([] : list nat) in
  BCache (replicate (Z.to_nat NBUF) buf0)
    (fold_left (λ rings b, alter (cons b) 0%nat rings) (seq 0 (Z.to_nat NBUF)) empty_rings)
    tk pid d [].

Definition upd (i : nat) (f : buf → buf) : ST bcache () := modify (λ c, c <| bufs ::= alter f i |>).
Definition buf_of (c : bcache) (i : nat) : buf := default buf0 (bufs c !! i).

(** ** Sleep lock of a buffer (sleeplock.c) *)

Definition acquiresleep (i : nat) : ST bcache () :=
  c ← get;
  if b_locked (buf_of c i) then blocks
  else upd i (λ b, b <| b_locked := true |> <| b_pid := curpid c |>).

Definition releasesleep (i : nat) : ST bcache () := upd i (λ b, b <| b_locked := false |> <| b_pid := 0 |>).

Definition holdingsleep (i : nat) (c : bcache) : bool :=
  b_locked (buf_of c i) && (b_pid (buf_of c i) =? curpid c).

(** ** bget *)

(** The first scan: is the block in its bucket? *)
Definition cached (c : bcache) (bucket : list nat) (dev blockno : Z) : option nat :=
  i ← findi (λ i, (b_dev (buf_of c i) =? dev) && (b_blockno (buf_of c i) =? blockno)) bucket;
  bucket !! i.

(** The scan of one bucket for the least recently used free buffer. *)
Definition lru (c : bcache) (bucket : list nat) : option nat :=
  fold_left (λ b tmp,
    if (b_refcnt (buf_of c tmp) =? 0) &&
       match b with None => true | Some b => b_timestamp (buf_of c tmp) <? b_timestamp (buf_of c b) end
    then Some tmp else b) bucket None.

(** [cycle] buckets from bucket [i] on: the first with a free buffer. *)
Fixpoint scan (c : bcache) (cycle i : nat) : option (nat * nat) :=
  match cycle with
  | O => None
  | S cycle' =>
      match lru c (default [] (buckets c !! i)) with
      | Some b => Some (i, b)
      | None => scan c cycle' ((i + 1) mod Z.to_nat NBUCKET)%nat
      end
  end.

(** A buffer taken from ring [i] moves to the head of ring [bid]. *)
Definition steal (i bid b : nat) (rings : list (list nat)) : list (list nat) :=
  if decide (i = bid) then rings else alter (cons b) bid (alter (filter (λ x, x ≠ b)) i rings).

Definition bget (dev blockno : Z) : ST bcache nat :=
  let bid := Z.to_nat (HASH blockno) in
  c ← get;
  match cached c (default [] (buckets c !! bid)) dev blockno with
  | Some b =>
      _ ← upd b (λ x, x <| b_refcnt ::= λ n, u32 (n + 1) |> <| b_timestamp := ticks c |>);
      _ ← acquiresleep b;
      mret b
  | None =>
      match scan c (Z.to_nat NBUCKET) bid with
      | Some (i, b) =>
          _ ← modify (λ c, c <| buckets ::= steal i bid b |>);
          _ ← upd b (λ x, x <| b_dev := dev |> <| b_blockno := blockno |> <| b_valid := false |>
                            <| b_refcnt := 1 |> <| b_timestamp := ticks c |>);
          _ ← acquiresleep b;
          mret b
      | None => panic "bget: no buffers"
      end
  end.

(** ** The device: a block read or written at [b->blockno] *)

Definition disk_read (i : nat) : ST bcache () :=
  c ← get; upd i (λ x, x <| b_data := dread (dsk c) (b_blockno x) |>).

Definition disk_write (i : nat) : ST bcache () :=
  modify (λ c, let b := buf_of c i in
    c <| dsk ::= <[b_blockno b := b_data b]> |> <| wtrace ::= λ w, w ++ [(b_blockno b, b_data b)] |>).

(** ** The operations of the cache *)

Definition bio_bread (dev blockno : Z) : ST bcache nat :=
  b ← bget dev blockno;
  c ← get;
  _ ← (if b_valid (buf_of c b) then mret ()
       else _ ← disk_read b; upd b (λ x, x <| b_valid := true |>));
  mret b.

Definition bio_bwrite (b : nat) : ST bcache () :=
  c ← get;
  if negb (holdingsleep b c) then panic "bwrite" else disk_write b.

Definition bio_brelse (b : nat) : ST bcache () :=
  c ← get;
  if negb (holdingsleep b c) then panic "brelse"
  else
    _ ← releasesleep b;
    upd b (λ x, x <| b_refcnt ::= λ n, u32 (n - 1) |> <| b_timestamp := ticks c |>).

Definition bio_bpin (b : nat) : ST bcache () := upd b (λ x, x <| b_refcnt ::= λ n, u32 (n + 1) |>).

Definition bio_bunpin (b : nat) : ST bcache () := upd b (λ x, x <| b_refcnt ::= λ n, u32 (n - 1) |>).

#[export] Instance bio_cache : BufCache bcache := {
  bread := bio_bread;
  bwrite := bio_bwrite;
  brelse := bio_brelse;
  bpin := bio_bpin;
  bunpin := bio_bunpin;
  buf_data := λ i c, b_data (buf_of c i);
  buf_blockno := λ i c, b_blockno (buf_of c i);
  set_data := λ i d c, c <| bufs ::= alter (λ b, b <| b_data := d |>) i |>;
}.

(** ** Invariant and abstract state *)

Section bio.
Context (dv : Z).
Implicit Types (c : bcache) (x : buf) (i j h : nat) (b : Z).

Record buf_ok (d : gmap Z block) (x : buf) : Prop := {
  ok_ref : 0 ≤ b_refcnt x < 2 ^ 32;
  ok_len : length (b_data x) = BSIZE;
  ok_dev : (b_dev x = 0 ∧ b_refcnt x = 0 ∧ b_locked x = false) ∨ b_dev x = dv;
  ok_clean : b_refcnt x = 0 → b_valid x = true → b_dev x = dv → b_data x = dread d (b_blockno x);
}.

(** The structure of the cache, which every operation keeps. *)
Record bio_struct (c : bcache) : Prop := {
  wf_bufs : length (bufs c) = Z.to_nat NBUF;
  wf_rings : length (buckets c) = Z.to_nat NBUCKET;
  wf_perm : concat (buckets c) ≡ₚ seq 0 (Z.to_nat NBUF);
  wf_home : ∀ j l i x, buckets c !! j = Some l → i ∈ l → bufs c !! i = Some x →
              Z.to_nat (HASH (b_blockno x)) = j;
  wf_uniq : ∀ i j x y, bufs c !! i = Some x → bufs c !! j = Some y →
              b_dev x = dv → b_dev y = dv → b_blockno x = b_blockno y → i = j;
}.

(** With what it promises to clients that release only clean buffers. *)
Record bio_wf (c : bcache) : Prop := {
  wf_struct :> bio_struct c;
  wf_buf : ∀ i x, bufs c !! i = Some x → buf_ok (dsk c) x;
  wf_disk : ∀ b d, dsk c !! b = Some d → length d = BSIZE;
}.
#[local] Hint Extern 0 (bio_struct _) => (apply wf_struct; assumption) : core.

(** The buffer that caches block [b], if any. *)
Definition slot (c : bcache) (b : Z) : option nat :=
  findi (λ x, (b_dev x =? dv) && (b_blockno x =? b)) (bufs c).
Definition blk (c : bcache) (b : Z) : option buf := i ← slot c b; bufs c !! i.

Definition bio_cv (c : bcache) : cview :=
  CView (dread (dsk c))
    (λ b, match blk c b with
          | Some x => if b_valid x then b_data x else dread (dsk c) b
          | None => dread (dsk c) b
          end)
    (λ b, from_option b_refcnt 0 (blk c b))
    (λ b, from_option b_locked false (blk c b))
    (wtrace c).

Definition bio_holds (c : bcache) (h : nat) (b : Z) : Prop :=
  ∃ x, bufs c !! h = Some x ∧ b_dev x = dv ∧ b_blockno x = b ∧ b_valid x = true ∧
       b_locked x = true ∧ b_pid x = curpid c.

Lemma slot_Some c b i :
  bio_struct c →
  slot c b = Some i ↔ ∃ x, bufs c !! i = Some x ∧ b_dev x = dv ∧ b_blockno x = b.
Proof.
  intros W. split.
  - intros (x & Hx & Hp)%findi_lookup. exists x. split; [done|]. simpl in Hp. lia.
  - intros (x & Hx & Hd & Hb).
    destruct (findi_is_Some (λ x, (b_dev x =? dv) && (b_blockno x =? b)) (bufs c) i x Hx)
      as [k Hk]; [simpl; lia|].
    unfold slot. rewrite Hk. f_equal. apply findi_lookup in Hk as (y & Hy & Hp).
    apply (wf_uniq c W k i y x); try done; lia.
Qed.

Lemma blk_Some c b x :
  bio_struct c → blk c b = Some x ↔ ∃ i, bufs c !! i = Some x ∧ b_dev x = dv ∧ b_blockno x = b.
Proof.
  intros W. unfold blk. rewrite bind_Some. split.
  - intros (i & Hs & Hx). apply slot_Some in Hs as (y & Hy & ? & ?); [|done].
    simplify_eq. by exists i.
  - intros (i & Hx & ? & ?). exists i. split; [|done]. apply slot_Some; [done|]. by exists x.
Qed.

Lemma blk_None c b :
  bio_struct c → blk c b = None ↔ ∀ i x, bufs c !! i = Some x → b_dev x = dv → b_blockno x ≠ b.
Proof.
  intros W. split.
  - intros Hn i x Hx Hd Hb. assert (blk c b = Some x); [|congruence].
    apply blk_Some; [done|]. by exists i.
  - intros H. destruct (blk c b) as [x|] eqn:E; [|done].
    apply blk_Some in E as (i & Hx & Hd & Hb); [|done]. by destruct (H i x Hx Hd).
Qed.

Lemma buf_of_lookup c i x : bufs c !! i = Some x → buf_of c i = x.
Proof. intros H. unfold buf_of. by rewrite H. Qed.

Lemma dread_length c b : bio_wf c → length (dread (dsk c) b) = BSIZE.
Proof.
  intros W. unfold dread. destruct (dsk c !! b) as [d|] eqn:E.
  - by apply (wf_disk c W b).
  - by apply length_replicate.
Qed.

(** Two states that cache the same buffer records for each block, over the
    same device, are the same to the clients. *)
Lemma bio_cv_ext c c' :
  (∀ b, blk c' b = blk c b) → dsk c' = dsk c → wtrace c' = wtrace c → bio_cv c' ≡ bio_cv c.
Proof.
  intros Hb Hd Ht. repeat split; simpl; intros; rewrite ?Hb, ?Hd, ?Ht; done.
Qed.

(** *** A buffer record changed in place

    [f] keeps the identity of the buffer; the block it caches sees [f], every
    other block sees what it saw. *)

Definition keeps_id (f : buf → buf) : Prop := ∀ x, b_dev (f x) = b_dev x ∧ b_blockno (f x) = b_blockno x.

Lemma blk_alter c c' f i x b :
  bio_struct c → bufs c' = alter f i (bufs c) → keeps_id f →
  bufs c !! i = Some x → b_dev x = dv →
  blk c' b = if decide (b = b_blockno x) then Some (f x) else blk c b.
Proof.
  intros W Hc' Hf Hx Hd.
  assert (slot c' b = slot c b) as Hs.
  { unfold slot. rewrite Hc'. apply findi_alter. intros y. by destruct (Hf y) as [-> ->]. }
  unfold blk. rewrite Hs, Hc'.
  assert (slot c (b_blockno x) = Some i) as Hi by (apply slot_Some; [done|]; by exists x).
  case_decide as Hb; [subst b|].
  - rewrite Hi. simpl. rewrite list_lookup_alter_eq, Hx. done.
  - destruct (slot c b) as [k|] eqn:Hk; [|done]. simpl.
    apply slot_Some in Hk as (y & Hy & _ & Hby); [|done].
    rewrite list_lookup_alter_ne; [done|]. intros ->. congruence.
Qed.

Lemma alter_pre c c' f i :
  bufs c' = alter f i (bufs c) → keeps_id f →
  ∀ j y, bufs c' !! j = Some y →
    ∃ y', bufs c !! j = Some y' ∧ b_dev y = b_dev y' ∧ b_blockno y = b_blockno y'.
Proof.
  intros Hc' Hf j y. rewrite Hc', list_lookup_alter. case_decide; [subst j|by exists y].
  destruct (bufs c !! i) as [x|]; simpl; [|done]. intros [= <-]. exists x. split; [done|apply Hf].
Qed.

Lemma struct_alter c c' f i :
  bio_struct c → bufs c' = alter f i (bufs c) → buckets c' = buckets c → keeps_id f → bio_struct c'.
Proof.
  intros W Hc' Hb Hf. pose proof (alter_pre c c' f i Hc' Hf) as Hpre. split.
  - rewrite Hc', length_alter. apply W.
  - rewrite Hb. apply W.
  - rewrite Hb. apply W.
  - rewrite Hb. intros j l k y Hl Hin (y' & Hy' & _ & ->)%Hpre. by apply (wf_home c W j l k).
  - intros j k y z (y' & Hy' & -> & ->)%Hpre (z' & Hz' & -> & ->)%Hpre. by apply (wf_uniq c W).
Qed.

Lemma wf_alter c c' f i x :
  bio_wf c → bufs c' = alter f i (bufs c) → buckets c' = buckets c →
  keeps_id f → bufs c !! i = Some x →
  (∀ j y, i ≠ j → bufs c !! j = Some y → buf_ok (dsk c') y) → buf_ok (dsk c') (f x) →
  (∀ b d, dsk c' !! b = Some d → length d = BSIZE) →
  bio_wf c'.
Proof.
  intros W Hc' Hb Hf Hx Hoth Hok Hdsk. split; [by apply (struct_alter c c' f i)| |done].
  intros j y. rewrite Hc', list_lookup_alter. case_decide; [subst|by apply Hoth].
  rewrite Hx. by intros [= <-].
Qed.

(** The clients' view of an in-place change that leaves the device alone. *)
Lemma cv_alter c c' f i x v' :
  bio_wf c → bufs c' = alter f i (bufs c) → keeps_id f →
  bufs c !! i = Some x → b_dev x = dv → b_valid (f x) = true →
  dsk c' = dsk c → wtrace c' = wtrace c →
  v' ≡ CView (dread (dsk c)) (fupd (b_blockno x) (b_data (f x)) (cv_mem (bio_cv c)))
      (fupd (b_blockno x) (b_refcnt (f x)) (cv_ref (bio_cv c)))
      (fupd (b_blockno x) (b_locked (f x)) (cv_busy (bio_cv c))) (wtrace c) →
  bio_cv c' ≡ v'.
Proof.
  intros W Hc' Hf Hx Hd Hv' Hdsk Ht ->.
  pose proof (λ b, blk_alter c c' f i x b W Hc' Hf Hx Hd) as Hblk.
  unfold bio_cv, fupd.
  repeat split; simpl; intros; rewrite ?Hblk, ?Hdsk, ?Ht; repeat case_decide; subst; try done.
  simpl. by rewrite Hv'.
Qed.

Lemma holds_cv c h b x :
  bio_wf c → bufs c !! h = Some x → b_dev x = dv → b_blockno x = b → b_valid x = true →
  blk c b = Some x ∧ cv_mem (bio_cv c) b = b_data x ∧ cv_ref (bio_cv c) b = b_refcnt x ∧
  cv_busy (bio_cv c) b = b_locked x.
Proof.
  intros W Hx Hd Hb Hv.
  assert (blk c b = Some x) as Hblk by (apply blk_Some; [done|]; by exists h).
  split; [done|]. simpl. by rewrite Hblk, Hv.
Qed.

(** *** The operations on a held buffer *)

Lemma alter_other_ok c i j y : bio_wf c → i ≠ j → bufs c !! j = Some y → buf_ok (dsk c) y.
Proof. intros W _. apply (wf_buf c W). Qed.

Lemma bio_holds_alter c f h h' b' x :
  bufs c !! h = Some x → keeps_id f → b_valid (f x) = b_valid x →
  b_locked (f x) = b_locked x → b_pid (f x) = b_pid x →
  bio_holds c h' b' → bio_holds (c <| bufs ::= alter f h |>) h' b'.
Proof.
  intros Hx Hf Hv Hl Hp (y & Hy & ? & ? & ? & ? & ?). unfold bio_holds. simpl.
  destruct (decide (h = h')) as [<-|Hne].
  - simplify_eq. exists (f x). rewrite list_lookup_alter_eq, Hx. destruct (Hf x).
    repeat split; simpl; congruence.
  - exists y. by rewrite list_lookup_alter_ne.
Qed.

(** A reference-count change by [g] of a buffer the caller holds. *)
Lemma ref_change_spec c h b (g : Z → Z) v' :
  bio_wf c → bio_holds c h b →
  let r := cv_ref (bio_cv c) b in
  0 ≤ g r < 2 ^ 32 → (g r = 0 → cv_mem (bio_cv c) b = cv_disk (bio_cv c) b) →
  v' ≡ CView (cv_disk (bio_cv c)) (cv_mem (bio_cv c)) (fupd b (g r) (cv_ref (bio_cv c)))
        (cv_busy (bio_cv c)) (cv_trace (bio_cv c)) →
  let c' := c <| bufs ::= alter (λ x, x <| b_refcnt ::= g |>) h |> in
  bio_wf c' ∧ bio_cv c' ≡ v' ∧ ∀ h' b', bio_holds c h' b' → bio_holds c' h' b'.
Proof.
  intros W (x & Hx & Hd & Hb & Hv & Hl & Hp) r Hr Hc Hv' c'.
  destruct (holds_cv c h b x W Hx Hd Hb Hv) as (Hblk & Hmem & Href & Hbusy).
  destruct (wf_buf c W h x Hx) as [O1 O2 O3 O4].
  assert (r = b_refcnt x) as Er by done.
  split; [|split].
  - apply (wf_alter c c' (λ x, x <| b_refcnt ::= g |>) h x); try done.
    + intros j y. exact (alter_other_ok c h j y W).
    + split; simpl; [by rewrite <- Er|done|by right|].
      rewrite <- Er. intros H0 _ _. rewrite <- Hmem. subst b. by apply Hc.
    + apply W.
  - apply (cv_alter c c' (λ x, x <| b_refcnt ::= g |>) h x); try done.
    rewrite Hv'. subst b. rewrite Er in *. unfold fupd.
    repeat split; simpl; intros; try case_decide; subst; try done; simpl in *; congruence.
  - intros h' b'. by apply (bio_holds_alter c (λ x, x <| b_refcnt ::= g |>) h h' b' x).
Qed.

Lemma bio_bpin_spec c h b :
  bio_wf c → bio_holds c h b → cv_ref (bio_cv c) b ≠ 2 ^ 32 - 1 →
  ∃ c', run (bio_bpin h) c () c' ∧ bio_wf c' ∧ bio_cv c' ≡ v_pin b (bio_cv c) ∧
    ∀ h' b', bio_holds c h' b' → bio_holds c' h' b'.
Proof.
  intros W H Hn. eexists. split; [reflexivity|].
  apply (ref_change_spec c h b (λ n, u32 (n + 1)) _ W H); [apply u32_range| |done].
  intros Hz. exfalso. destruct H as (x & Hx & Hd & Hb & Hv & _).
  destruct (holds_cv c h b x W Hx Hd Hb Hv) as (_ & _ & Href & _). rewrite Href in *.
  pose proof (ok_ref _ _ (wf_buf c W h x Hx)). rewrite u32_small in Hz; lia.
Qed.

Lemma bio_bunpin_spec c h b :
  bio_wf c → bio_holds c h b →
  (cv_ref (bio_cv c) b = 1 → cv_mem (bio_cv c) b = cv_disk (bio_cv c) b) →
  ∃ c', run (bio_bunpin h) c () c' ∧ bio_wf c' ∧ bio_cv c' ≡ v_unpin b (bio_cv c) ∧
    ∀ h' b', bio_holds c h' b' → bio_holds c' h' b'.
Proof.
  intros W H Hn. eexists. split; [reflexivity|].
  apply (ref_change_spec c h b (λ n, u32 (n - 1)) _ W H); [apply u32_range| |done].
  intros Hz. apply Hn. destruct H as (x & Hx & Hd & Hb & Hv & _).
  destruct (holds_cv c h b x W Hx Hd Hb Hv) as (_ & _ & Href & _). rewrite Href in *.
  pose proof (ok_ref _ _ (wf_buf c W h x Hx)).
  destruct (decide (b_refcnt x = 0)) as [E|]; [rewrite E in Hz; by vm_compute in Hz|].
  rewrite u32_small in Hz; lia.
Qed.

Lemma bio_holdingsleep c h b : bio_holds c h b → holdingsleep h c = true.
Proof.
  intros (x & Hx & _ & _ & _ & Hl & Hp). unfold holdingsleep.
  rewrite (buf_of_lookup c h x Hx), Hl, Hp. simpl. lia.
Qed.

Lemma bio_set_data_spec c h b d :
  bio_wf c → bio_holds c h b → cv_ref (bio_cv c) b ≠ 0 → length d = BSIZE →
  bio_wf (set_data h d c) ∧ bio_cv (set_data h d c) ≡ v_store b d (bio_cv c) ∧
    ∀ h' b', bio_holds c h' b' → bio_holds (set_data h d c) h' b'.
Proof.
  intros W (x & Hx & Hd & Hb & Hv & Hl & Hp) Hr Hlen.
  set (c' := set_data h d c).
  destruct (holds_cv c h b x W Hx Hd Hb Hv) as (Hblk & Hmem & Href & Hbusy).
  destruct (wf_buf c W h x Hx) as [O1 O2 O3 O4].
  split; [|split].
  - apply (wf_alter c c' (λ y, y <| b_data := d |>) h x); try done.
    + intros j y. exact (alter_other_ok c h j y W).
    + split; simpl; try done. intros Hz. rewrite Href in Hr. done.
    + apply W.
  - apply (cv_alter c c' (λ y, y <| b_data := d |>) h x); try done. subst b. unfold v_store, fupd.
    repeat split; simpl; intros; try case_decide; subst; try done; simpl in *; congruence.
  - intros h' b'. by apply (bio_holds_alter c (λ y, y <| b_data := d |>) h h' b' x).
Qed.

Lemma bio_bwrite_spec c h b :
  bio_wf c → bio_holds c h b →
  ∃ c', run (bio_bwrite h) c () c' ∧ bio_wf c' ∧ bio_cv c' ≡ v_flush b (bio_cv c) ∧
    ∀ h' b', bio_holds c h' b' → bio_holds c' h' b'.
Proof.
  intros W H. eexists. split.
  { unfold bio_bwrite, get, mbind, ST_bind. simpl.
    rewrite (bio_holdingsleep c h b H). reflexivity. }
  destruct H as (x & Hx & Hd & Hb & Hv & Hl & Hp).
  destruct (holds_cv c h b x W Hx Hd Hb Hv) as (Hblk & Hmem & Href & Hbusy).
  rewrite (buf_of_lookup c h x Hx). simpl. split; [|split].
  - destruct W as [W0 W5 W7]. split; simpl; [by destruct W0| |].
    + intros i y Hy. destruct (W5 i y Hy) as [O1 O2 O3 O4]. split; try done.
      intros Hz Hvy Hdy. unfold dread. destruct (decide (i = h)) as [->|Hne].
      * simplify_eq. by rewrite lookup_insert_eq.
      * rewrite lookup_insert_ne; [by apply O4|].
        intros E. apply Hne. by apply (wf_uniq c W0 i h y x).
    + intros b' d. rewrite lookup_insert. case_decide; [|apply W7].
      intros [= <-]. apply (W5 h x Hx).
  - unfold v_flush. rewrite Hmem. subst b. unfold bio_cv at 1, fupd.
    repeat split; simpl; intros; try done.
    + unfold dread. rewrite lookup_insert. repeat case_decide; simpl; congruence.
    + change (blk _ b) with (blk c b).
      destruct (blk c b) as [y|] eqn:Ey; [destruct (b_valid y) eqn:Evy; [done|]|];
        unfold dread; rewrite lookup_insert; case_decide; try done; subst b; simpl; congruence.
  - intros h' b' H. exact H.
Qed.

Lemma bio_brelse_spec c h b :
  bio_wf c → bio_holds c h b →
  (cv_ref (bio_cv c) b = 1 → cv_mem (bio_cv c) b = cv_disk (bio_cv c) b) →
  ∃ c', run (bio_brelse h) c () c' ∧ bio_wf c' ∧ bio_cv c' ≡ v_rel b (bio_cv c) ∧
    ∀ h' b', b' ≠ b → bio_holds c h' b' → bio_holds c' h' b'.
Proof.
  intros W H Hcl. eexists. split.
  { unfold bio_brelse, get, mbind, ST_bind. simpl.
    rewrite (bio_holdingsleep c h b H). reflexivity. }
  destruct H as (x & Hx & Hd & Hb & Hv & Hl & Hp).
  destruct (holds_cv c h b x W Hx Hd Hb Hv) as (Hblk & Hmem & Href & Hbusy).
  destruct (wf_buf c W h x Hx) as [O1 O2 O3 O4]. simpl.
  rewrite list_alter_alter_eq. set (f := compose _ _).
  assert (f x = x <| b_locked := false |> <| b_pid := 0 |> <| b_refcnt ::= λ n, u32 (n - 1) |>
                  <| b_timestamp := ticks c |>) as Ef by done.
  split; [|split].
  - apply (wf_alter c _ f h x); try done.
    + intros j y. exact (alter_other_ok c h j y W).
    + rewrite Ef. split; simpl; [apply u32_range|done|by right|].
      intros Hz _ _. rewrite <- Hmem. subst b. apply Hcl. rewrite Href.
      destruct (decide (b_refcnt x = 0)) as [E|]; [rewrite E in Hz; by vm_compute in Hz|].
      rewrite u32_small in Hz; lia.
    + apply W.
  - apply (cv_alter c _ f h x); try done.
    rewrite Ef. simpl. unfold v_rel, fupd. rewrite Href. subst b.
    repeat split; simpl; intros; try case_decide; subst; try done; simpl in *; congruence.
  - intros h' b' Hne (y & Hy & ? & ? & ? & ? & ?). exists y. simpl.
    rewrite list_lookup_alter_ne; [done|]. intros ->. congruence.
Qed.

(** *** The scans of [bget] *)

Lemma bufs_in_range c i x : bio_struct c → bufs c !! i = Some x → (i < Z.to_nat NBUF)%nat.
Proof. intros W Hx. apply lookup_lt_Some in Hx. by rewrite (wf_bufs c W) in Hx. Qed.

Lemma ring_NoDup c : bio_struct c → NoDup (concat (buckets c)).
Proof. intros W. rewrite (wf_perm c W). apply NoDup_seq. Qed.

Lemma ring_of_buf c i x :
  bio_struct c → bufs c !! i = Some x →
  ∃ l, buckets c !! Z.to_nat (HASH (b_blockno x)) = Some l ∧ i ∈ l.
Proof.
  intros W Hx. assert (i ∈ concat (buckets c)) as Hin.
  { rewrite (wf_perm c W). apply elem_of_seq. pose proof (bufs_in_range c i x W Hx). lia. }
  apply elem_of_concat_lookup in Hin as (j & l & Hl & Hi).
  pose proof (wf_home c W j l i x Hl Hi Hx) as <-. by exists l.
Qed.

Lemma ring_member c j l i :
  bio_struct c → buckets c !! j = Some l → i ∈ l → is_Some (bufs c !! i).
Proof.
  intros W Hl Hi. apply lookup_lt_is_Some. rewrite (wf_bufs c W).
  assert (i ∈ concat (buckets c)) as Hin by (apply elem_of_concat_lookup; by exists j, l).
  rewrite (wf_perm c W) in Hin. apply elem_of_seq in Hin. lia.
Qed.

(** The bucket scan finds the block's buffer exactly when it is cached. *)
Lemma cached_slot c b :
  bio_struct c → cached c (default [] (buckets c !! Z.to_nat (HASH b))) dv b = slot c b.
Proof.
  intros W. unfold cached.
  set (p := λ i, (b_dev (buf_of c i) =? dv) && (b_blockno (buf_of c i) =? b)). set (l := default [] _).
  assert (∀ k i, l !! k = Some i → p i = true → slot c b = Some i) as Hp.
  { intros k i Hk Hpi. assert (i ∈ l) as Hi by (apply list_elem_of_lookup; eauto).
    destruct (buckets c !! Z.to_nat (HASH b)) as [l'|] eqn:Hl; [|by apply not_elem_of_nil in Hi].
    destruct (ring_member c _ l' i W Hl Hi) as [x Hx].
    unfold p in Hpi. rewrite (buf_of_lookup c i x Hx) in Hpi.
    apply slot_Some; [done|]. exists x. split; [done|lia]. }
  destruct (findi p l) as [k|] eqn:Hf; simpl.
  - apply findi_lookup in Hf as (i & Hi & Hpi). rewrite Hi. symmetry. by apply (Hp k).
  - destruct (slot c b) as [i|] eqn:Hs; [|done].
    apply slot_Some in Hs as (x & Hx & Hd & Hb); [|done].
    destruct (ring_of_buf c i x W Hx) as (l' & Hl & Hin). rewrite Hb in Hl.
    assert (l = l') as -> by (unfold l; by rewrite Hl).
    apply list_elem_of_lookup in Hin as [k Hk].
    rewrite findi_None in Hf. specialize (Hf k i Hk). unfold p in Hf.
    rewrite (buf_of_lookup c i x Hx) in Hf. lia.
Qed.

(** The buffer [lru] picks is free and no free buffer of the bucket is older. *)
Lemma lru_spec c l :
  match lru c l with
  | Some i => i ∈ l ∧ b_refcnt (buf_of c i) = 0 ∧
      ∀ j, j ∈ l → b_refcnt (buf_of c j) = 0 → b_timestamp (buf_of c i) ≤ b_timestamp (buf_of c j)
  | None => ∀ j, j ∈ l → b_refcnt (buf_of c j) ≠ 0
  end.
Proof.
  induction l as [|t l IH] using rev_ind; unfold lru; simpl.
  { intros j []%not_elem_of_nil. }
  rewrite fold_left_app. fold (lru c l). simpl.
  destruct (Z.eqb_spec (b_refcnt (buf_of c t)) 0) as [Ht|Ht]; simpl.
  - destruct (lru c l) as [i|]; [destruct (Z.ltb_spec (b_timestamp (buf_of c t)) (b_timestamp (buf_of c i)))|].
    + split; [set_solver|]. split; [done|]. intros j [Hj|Hj%list_elem_of_singleton]%elem_of_app Hz.
      * destruct IH as (_ & _ & IH). specialize (IH j Hj Hz). lia.
      * subst. lia.
    + destruct IH as (Hi & Hz & IH). split; [set_solver|]. split; [done|].
      intros j [Hj|Hj%list_elem_of_singleton]%elem_of_app Hjz; [by apply IH|by subst].
    + split; [set_solver|]. split; [done|].
      intros j [Hj|Hj%list_elem_of_singleton]%elem_of_app Hz; [by destruct (IH j Hj)|by subst].
  - destruct (lru c l) as [i|].
    + destruct IH as (Hi & Hz & IH). split; [set_solver|]. split; [done|].
      intros j [Hj|Hj%list_elem_of_singleton]%elem_of_app Hjz; [by apply IH|by subst].
    + intros j [Hj|Hj%list_elem_of_singleton]%elem_of_app; [by apply IH|by subst].
Qed.

Lemma scan_Some c n i j v :
  scan c n i = Some (j, v) → ∃ l, buckets c !! j = Some l ∧ lru c l = Some v.
Proof.
  revert i. induction n as [|n IH]; intros i; simpl; [done|].
  destruct (buckets c !! i) as [l|] eqn:Hl; simpl; [|by apply IH].
  destruct (lru c l) as [w|] eqn:Hw; [|by apply IH]. intros [= <- <-]. by exists l.
Qed.

Lemma scan_None c n i :
  scan c n i = None → (i < Z.to_nat NBUCKET)%nat →
  ∀ k, (k < n)%nat → lru c (default [] (buckets c !! ((i + k) mod Z.to_nat NBUCKET)%nat)) = None.
Proof.
  revert i. induction n as [|n IH]; intros i Hn Hi k Hk; cbn [scan] in Hn; [lia|].
  destruct (lru c (default [] (buckets c !! i))) eqn:Hl; [done|].
  destruct k as [|k]; [by rewrite Nat.add_0_r, Nat.mod_small|].
  specialize (IH _ Hn ltac:(apply Nat.mod_upper_bound; lia) k ltac:(lia)).
  rewrite Nat.Div0.add_mod_idemp_l in IH. by replace (i + S k)%nat with (i + 1 + k)%nat by lia.
Qed.

Lemma scan_None_all c i :
  bio_struct c → (i < Z.to_nat NBUCKET)%nat → scan c (Z.to_nat NBUCKET) i = None →
  ∀ k x, bufs c !! k = Some x → b_refcnt x ≠ 0.
Proof.
  intros W Hi Hn k x Hx. destruct (ring_of_buf c k x W Hx) as (l & Hl & Hk).
  set (j := Z.to_nat (HASH (b_blockno x))) in *.
  assert (j < Z.to_nat NBUCKET)%nat as Hj.
  { rewrite <- (wf_rings c W). by apply lookup_lt_Some in Hl. }
  assert (lru c l = None) as Hlru.
  { pose proof (scan_None c _ i Hn Hi ((j + Z.to_nat NBUCKET - i) mod Z.to_nat NBUCKET)%nat
      ltac:(apply Nat.mod_upper_bound; lia)) as H.
    rewrite Nat.Div0.add_mod_idemp_r in H.
    replace (i + (j + Z.to_nat NBUCKET - i))%nat with (j + 1 * Z.to_nat NBUCKET)%nat in H by lia.
    by rewrite Nat.Div0.mod_add, Nat.mod_small, Hl in H by lia. }
  pose proof (lru_spec c l) as Hs. rewrite Hlru in Hs. specialize (Hs k Hk).
  by rewrite (buf_of_lookup c k x Hx) in Hs.
Qed.

(** *** [bread] of a cached block *)

(** What [bread] does to the buffer record of a cached block. *)
Definition hit (c : bcache) (x : buf) : buf :=
  Buf true (b_dev x) (b_blockno x) true (curpid c) (u32 (b_refcnt x + 1))
    (if b_valid x then b_data x else dread (dsk c) (b_blockno x)) (ticks c).

(** The first update of [bget] on a hit, and taking the sleep lock. *)
Definition bumped (c : bcache) (x : buf) : buf :=
  x <| b_refcnt ::= λ n, u32 (n + 1) |> <| b_timestamp := ticks c |>.
Definition taken (c : bcache) (x : buf) : buf := x <| b_locked := true |> <| b_pid := curpid c |>.

Lemma run_upd i f c : run (upd i f) c () (c <| bufs ::= alter f i |>).
Proof. done. Qed.

Lemma run_acquiresleep i c x :
  buf_of c i = x → b_locked x = false →
  run (acquiresleep i) c () (c <| bufs ::= alter (taken c) i |>).
Proof. intros Hx Hl. unfold acquiresleep. step_with (run_get c). by rewrite Hx, Hl. Qed.

(** Reading an invalid buffer's block from the device. *)
Definition loaded (c : bcache) (x : buf) : buf :=
  if b_valid x then x else x <| b_data := dread (dsk c) (b_blockno x) |> <| b_valid := true |>.

Lemma bread_bget dev b c i c' x :
  run (bget dev b) c i c' → bufs c' !! i = Some x →
  run (bio_bread dev b) c i (c' <| bufs ::= alter (loaded c') i |>).
Proof.
  intros Hget Hx. unfold bio_bread. step_with Hget. step_with (run_get c').
  rewrite (buf_of_lookup c' i x Hx). destruct (b_valid x) eqn:Hv.
  - rewrite (bind_Ret _ _ c' () c') by done. cbn beta. unfold mret, ST_ret. do 2 f_equal.
    destruct c'. simpl in *. f_equal. rewrite <- (list_alter_id id) at 1 by done.
    apply list_alter_ext; [|done]. intros y Hy. simplify_eq. unfold loaded. by rewrite Hv.
  - rewrite (bind_Ret _ _ c' () (c' <| bufs ::= alter (loaded c') i |>)); [done|].
    unfold disk_read, upd, get, modify, mbind, ST_bind. cbn [update field_set bufs buckets ticks curpid dsk wtrace].
    rewrite list_alter_alter_eq.
    do 3 f_equal. cbn [bufs].
    apply list_alter_ext; [|done]. intros y Hy. simplify_eq. unfold loaded. by rewrite Hv.
Qed.

Lemma bread_hit c b i x :
  bio_struct c → slot c b = Some i → bufs c !! i = Some x → b_locked x = false →
  run (bio_bread dv b) c i (c <| bufs ::= alter (hit c) i |>).
Proof.
  intros W Hs Hx Hl.
  assert (buf_of (c <| bufs ::= alter (bumped c) i |>) i = bumped c x) as Hb1.
  { apply buf_of_lookup. cbn [bufs update field_set]. by rewrite list_lookup_alter_eq, Hx. }
  assert (run (bget dv b) c i (c <| bufs ::= alter (taken c ∘ bumped c) i |>)) as Hget.
  { unfold bget. step_with (run_get c). rewrite (cached_slot c b W), Hs. cbn beta iota.
    step_with (run_upd i (bumped c) c).
    rewrite (bind_Ret _ _ _ _ _ (run_acquiresleep i (c <| bufs ::= alter (bumped c) i |>) (bumped c x) Hb1 Hl)).
    cbn [update field_set bufs buckets ticks curpid dsk wtrace]. by rewrite list_alter_alter_eq. }
  erewrite bread_bget; [|exact Hget|cbn [bufs update field_set]; by rewrite list_lookup_alter_eq, Hx].
  cbn [update field_set bufs buckets ticks curpid dsk wtrace]. rewrite list_alter_alter_eq.
  do 3 f_equal. apply list_alter_ext; [|done]. intros y Hy. simplify_eq.
  unfold loaded, hit, compose, taken, bumped. cbn. by destruct (b_valid x).
Qed.

Lemma bread_hit_spec c b i x :
  bio_wf c → slot c b = Some i → bufs c !! i = Some x → b_locked x = false →
  b_refcnt x ≠ 2 ^ 32 - 1 →
  ∃ h c', run (bio_bread dv b) c h c' ∧ bio_wf c' ∧ bio_cv c' ≡ v_acq b (bio_cv c) ∧ bio_holds c' h b ∧
    ∀ h' b', bio_holds c h' b' → bio_holds c' h' b'.
Proof.
  intros W Hs Hx Hl Hr. pose proof Hs as (y & Hy & Hd & Hb)%slot_Some; [|done]. simplify_eq.
  exists i. eexists. split; [by apply (bread_hit c _ i x)|].
  set (c' := update bufs _ c). destruct (wf_buf c W i x Hx) as [O1 O2 O3 O4].
  assert (u32 (b_refcnt x + 1) = b_refcnt x + 1) as Er by (apply u32_small; lia).
  assert (blk c (b_blockno x) = Some x) as Hblk by (unfold blk; by rewrite Hs).
  split; [|split; [|split]].
  - apply (wf_alter c c' (hit c) i x); try done.
    + intros j y. exact (alter_other_ok c i j y W).
    + split; simpl; [apply u32_range| |by right|rewrite Er; lia].
      destruct (b_valid x); [done|by apply dread_length].
    + apply W.
  - apply (cv_alter c c' (hit c) i x); try done. unfold v_acq, fupd.
    repeat split; simpl; intros; try case_decide; subst; try done; rewrite Hblk; simpl; try done.
  - exists (hit c x). simpl. rewrite list_lookup_alter_eq, Hx. done.
  - intros h' b' (y & Hy & ? & ? & ? & ? & ?). exists y. simpl.
    rewrite list_lookup_alter_ne; [done|]. intros ->. simplify_eq. congruence.
Qed.

(** *** [bread] of a block that is not cached *)

(** The record of a buffer recycled for block [b]. *)
Definition fresh (c : bcache) (b : Z) : buf :=
  Buf true dv b true (curpid c) 1 (dread (dsk c) b) (ticks c).

Lemma bread_miss c b i v x :
  bio_struct c → slot c b = None → scan c (Z.to_nat NBUCKET) (Z.to_nat (HASH b)) = Some (i, v) →
  bufs c !! v = Some x → b_locked x = false →
  run (bio_bread dv b) c v
    (c <| bufs ::= alter (λ _, fresh c b) v |> <| buckets ::= steal i (Z.to_nat (HASH b)) v |>).
Proof.
  intros W Hs Hsc Hx Hl.
  set (c1 := c <| buckets ::= steal i (Z.to_nat (HASH b)) v |>).
  set (rec := λ x, x <| b_dev := dv |> <| b_blockno := b |> <| b_valid := false |>
                     <| b_refcnt := 1 |> <| b_timestamp := ticks c |>).
  set (c2 := c1 <| bufs ::= alter rec v |>).
  assert (bufs c2 !! v = Some (rec x)) as Hx2.
  { unfold c2, c1. cbn [update field_set bufs]. by rewrite list_lookup_alter_eq, Hx. }
  assert (run (bget dv b) c v (c2 <| bufs ::= alter (taken c2) v |>)) as Hget.
  { unfold bget. step_with (run_get c). rewrite (cached_slot c b W), Hs, Hsc. cbn beta iota.
    step_with (run_modify (λ c, c <| buckets ::= steal i (Z.to_nat (HASH b)) v |>) c). fold c1.
    step_with (run_upd v rec c1). fold c2.
    step_with (run_acquiresleep v c2 (rec x) (buf_of_lookup _ _ _ Hx2) Hl). done. }
  erewrite bread_bget; [|exact Hget|].
  2:{ cbn [update field_set bufs]. by rewrite list_lookup_alter_eq, Hx2. }
  unfold c2, c1. cbn [update field_set bufs buckets ticks curpid dsk wtrace].
  rewrite !list_alter_alter_eq. done.
Qed.

(** Moving a buffer between rings loses and duplicates none. *)
Lemma steal_spec (R : list (list nat)) i j v li :
  NoDup (concat R) → R !! i = Some li → v ∈ li → (j < length R)%nat →
  length (steal i j v R) = length R ∧ concat (steal i j v R) ≡ₚ concat R ∧
  ∀ k l u, steal i j v R !! k = Some l → u ∈ l →
    (u = v ∧ k = j) ∨ (u ≠ v ∧ ∃ l', R !! k = Some l' ∧ u ∈ l').
Proof.
  intros Hnd Hi Hv Hj. unfold steal. case_decide as Hij; [subst j|].
  { split; [done|]. split; [done|]. intros k l u Hk Hu. destruct (decide (u = v)) as [->|]; [left|right; eauto].
    split; [done|]. by apply (NoDup_concat_unique R k i l li v). }
  destruct (lookup_lt_is_Some_2 R j Hj) as [lj Hlj].
  set (R1 := alter (filter (λ u : nat, u ≠ v)) i R).
  assert (R1 !! j = Some lj) as Hj1 by (unfold R1; by rewrite list_lookup_alter_ne).
  split; [unfold R1; by rewrite !length_alter|]. split.
  - pose proof (concat_alter_perm R (filter (λ u : nat, u ≠ v)) i li Hi) as P1. fold R1 in P1.
    pose proof (concat_alter_perm R1 (cons v) j lj Hj1) as P2.
    pose proof (NoDup_filter_ne_perm li v ltac:(by eauto using NoDup_concat_lookup) Hv) as Pl.
    assert (v :: concat R1 ≡ₚ concat R) as P3.
    { apply (Permutation_app_inv_l (filter (λ u : nat, u ≠ v) li)). rewrite <- P1.
      transitivity ((v :: filter (λ u : nat, u ≠ v) li) ++ concat R1); [|by apply Permutation_app_tail].
      simpl. by rewrite Permutation_middle. }
    rewrite <- P3. apply (Permutation_app_inv_l lj). rewrite P2. simpl. by rewrite Permutation_middle.
  - intros k l u. rewrite list_lookup_alter. case_decide as Hk.
    + subst k. rewrite Hj1. intros [= <-] [->|Hu]%elem_of_cons; [by left|].
      right. split; [|eauto]. intros ->. apply Hij. by apply (NoDup_concat_unique R i j li lj v).
    + unfold R1. rewrite list_lookup_alter. case_decide as Hk2.
      * subst k. rewrite Hi. intros [= <-] [??]%list_elem_of_filter. right. eauto.
      * intros Hl Hu. right. split; [|eauto]. intros ->. apply Hk2.
        by apply (NoDup_concat_unique R i k li l v).
Qed.

(** The block of each buffer after a buffer was recycled. *)
Lemma blk_miss c c' b v x b' :
  bio_wf c → blk c b = None → bufs c !! v = Some x →
  bufs c' = alter (λ _, fresh c b) v (bufs c) → bio_wf c' →
  blk c' b' = if decide (b' = b) then Some (fresh c b)
              else if decide (b_dev x = dv ∧ b_blockno x = b') then None else blk c b'.
Proof.
  intros W Hnone Hx Hc' W'. case_decide as Hb; [subst b'|].
  { apply blk_Some; [done|]. exists v. by rewrite Hc', list_lookup_alter_eq, Hx. }
  case_decide as Hev.
  - apply blk_None; [done|]. intros k y. rewrite Hc', list_lookup_alter. case_decide as Hk.
    + subst k. rewrite Hx. intros [= <-]. simpl. congruence.
    + intros Hy Hd Hby. apply Hk. destruct Hev. apply (wf_uniq c W v k x y); congruence.
  - destruct (blk c b') as [y|] eqn:E.
    + apply blk_Some in E as (k & Hy & Hd & Hby); [|done]. apply blk_Some; [done|]. exists k.
      rewrite Hc', list_lookup_alter_ne; [done|]. intros ->. simplify_eq. naive_solver.
    + rewrite blk_None in E |- * by done. intros k y. rewrite Hc', list_lookup_alter. case_decide.
      * subst k. rewrite Hx. intros [= <-]. simpl. congruence.
      * intros Hy. by apply (E k).
Qed.

Lemma HASH_lt c b : bio_struct c → (Z.to_nat (HASH b) < length (buckets c))%nat.
Proof.
  intros W. rewrite (wf_rings c W). unfold HASH.
  pose proof (Z.mod_pos_bound b NBUCKET ltac:(done)). lia.
Qed.

Lemma miss_bufs c b v x k y :
  bufs c !! v = Some x → alter (λ _, fresh c b) v (bufs c) !! k = Some y →
  (k = v ∧ y = fresh c b) ∨ (k ≠ v ∧ bufs c !! k = Some y).
Proof.
  intros Hx. rewrite list_lookup_alter. case_decide as Hk; [subst k|right; naive_solver].
  rewrite Hx. intros [= <-]. by left.
Qed.

Lemma struct_miss c b i v x li :
  bio_struct c → blk c b = None → buckets c !! i = Some li → v ∈ li → bufs c !! v = Some x →
  bio_struct (c <| bufs ::= alter (λ _, fresh c b) v |> <| buckets ::= steal i (Z.to_nat (HASH b)) v |>).
Proof.
  intros W Hb Hi Hv Hx.
  destruct (steal_spec (buckets c) i (Z.to_nat (HASH b)) v li (ring_NoDup c W) Hi Hv (HASH_lt c b W))
    as (S1 & S2 & S3).
  pose proof (λ k y, miss_bufs c b v x k y Hx) as Hbufs.
  rewrite blk_None in Hb by done. destruct W as [W1 W2 W3 W4 W6]. split; simpl.
  - by rewrite length_alter.
  - congruence.
  - by rewrite S2.
  - intros k l u y Hl Hu Hy. destruct (S3 k l u Hl Hu) as [[-> ->]|(Hne & l' & Hl' & Hu')].
    + by destruct (Hbufs v y Hy) as [[_ ->]|[[] _]].
    + destruct (Hbufs u y Hy) as [[-> _]|[_ Hy']]; [done|]. by apply (W4 k l' u).
  - intros k1 k2 y1 y2 [[-> ->]|[Hk1 H1]]%Hbufs [[-> ->]|[Hk2 H2]]%Hbufs; simpl; intros D1 D2 E; try done.
    + symmetry in E. by destruct (Hb k2 y2 H2 D2 E).
    + by destruct (Hb k1 y1 H1 D1 E).
    + by apply (W6 k1 k2 y1 y2).
Qed.

Lemma wf_miss c b i v x li :
  bio_wf c → blk c b = None → buckets c !! i = Some li → v ∈ li → bufs c !! v = Some x →
  bio_wf (c <| bufs ::= alter (λ _, fresh c b) v |> <| buckets ::= steal i (Z.to_nat (HASH b)) v |>).
Proof.
  intros W Hb Hi Hv Hx. split; [by apply (struct_miss c b i v x li)| |apply W].
  intros k y [[_ ->]|[_ Hy]]%(miss_bufs c b v x); [| |done]; [|by apply (wf_buf c W k)].
  split; simpl; [lia|by apply dread_length|by right|lia].
Qed.

(** A buffer found by the scan is free, hence not locked. *)
Lemma scan_victim c i j v :
  bio_wf c → quiet (bio_cv c) → scan c (Z.to_nat NBUCKET) i = Some (j, v) →
  ∃ li x, buckets c !! j = Some li ∧ v ∈ li ∧ bufs c !! v = Some x ∧ b_refcnt x = 0 ∧ b_locked x = false.
Proof.
  intros W Hq Hsc. apply scan_Some in Hsc as (li & Hj & Hlru).
  pose proof (lru_spec c li) as Hs. rewrite Hlru in Hs. destruct Hs as (Hv & Hz & _).
  destruct (ring_member c j li v W Hj Hv) as [x Hx]. rewrite (buf_of_lookup c v x Hx) in Hz.
  exists li, x. split_and!; try done.
  destruct (ok_dev _ _ (wf_buf c W v x Hx)) as [(_ & _ & ?)|Hd]; [done|].
  destruct (b_locked x) eqn:Hl; [|done].
  assert (blk c (b_blockno x) = Some x) as Hblk by (apply blk_Some; [done|]; by exists v).
  destruct (Hq (b_blockno x)); simpl; by rewrite Hblk.
Qed.

Lemma bread_miss_spec c b i v :
  bio_wf c → quiet (bio_cv c) → blk c b = None →
  scan c (Z.to_nat NBUCKET) (Z.to_nat (HASH b)) = Some (i, v) →
  ∃ h c', run (bio_bread dv b) c h c' ∧ bio_wf c' ∧ bio_cv c' ≡ v_acq b (bio_cv c) ∧ bio_holds c' h b ∧
    ∀ h' b', bio_holds c h' b' → bio_holds c' h' b'.
Proof.
  intros W Hq Hb Hsc. destruct (scan_victim c _ i v W Hq Hsc) as (li & x & Hi & Hv & Hx & Hz & Hl).
  assert (slot c b = None) as Hs.
  { destruct (slot c b) as [k|] eqn:E; [|done]. unfold blk in Hb. rewrite E in Hb. simpl in Hb.
    apply slot_Some in E as (y & Hy & _); [congruence|done]. }
  exists v. eexists. split; [by apply (bread_miss c b i v x)|]. set (c' := update buckets _ _).
  assert (bio_wf c') as W' by (by apply (wf_miss c b i v x li)).
  pose proof (λ b', blk_miss c c' b v x b' W Hb Hx eq_refl W') as Hblk.
  assert (∀ b', b_dev x = dv → b_blockno x = b' → blk c b' = Some x) as Hold.
  { intros b' ? ?. apply blk_Some; [done|]. by exists v. }
  split; [done|]. split; [|split].
  - repeat split; simpl; intros b'; try done; unfold fupd; rewrite Hblk;
      (destruct (decide (b' = b)) as [->|Hne]; [simpl; by rewrite ?Hb|]);
      (destruct (decide (b_dev x = dv ∧ b_blockno x = b')) as [[Hd Hbx]|Hev]; [|done]);
      rewrite (Hold b' Hd Hbx); simpl; try done.
    destruct (b_valid x) eqn:Hvx; [|done].
    subst b'. symmetry. by apply (ok_clean _ _ (wf_buf c W v x Hx)).
  - exists (fresh c b). simpl. rewrite list_lookup_alter_eq, Hx. done.
  - intros h' b' (y & Hy & ? & ? & ? & ? & ?). exists y. simpl.
    rewrite list_lookup_alter_ne; [done|]. intros ->. simplify_eq. congruence.
Qed.

(** No free buffer: [NBUF] different blocks are referenced. *)
Lemma room_scan c b :
  bio_wf c → room (bio_cv c) → scan c (Z.to_nat NBUCKET) (Z.to_nat (HASH b)) ≠ None.
Proof.
  intros W Hroom Hn.
  pose proof (scan_None_all c _ W ltac:(rewrite <- (wf_rings c W); by apply HASH_lt) Hn) as Hall.
  assert (∀ i x, bufs c !! i = Some x → b_dev x = dv) as Hdev.
  { intros i x Hx. destruct (ok_dev _ _ (wf_buf c W i x Hx)) as [(_ & H0 & _)|]; [|done].
    by destruct (Hall i x Hx). }
  specialize (Hroom (b_blockno <$> bufs c)). rewrite length_fmap, (wf_bufs c W) in Hroom.
  enough (Z.of_nat (Z.to_nat NBUF) < NBUF) by (unfold NBUF, MAXOPBLOCKS in *; lia).
  apply Hroom.
  - apply NoDup_alt. intros i j bn. rewrite !list_lookup_fmap, !fmap_Some.
    intros (x & Hx & ->) (y & Hy & E). apply (wf_uniq c W i j x y); eauto.
  - apply Forall_fmap, Forall_lookup. intros i x Hx. simpl.
    assert (blk c (b_blockno x) = Some x) as -> by (apply blk_Some; [done|]; exists i; eauto).
    by apply (Hall i).
Qed.

Lemma bio_bread_spec c b :
  bio_wf c → quiet (bio_cv c) → 0 ≤ b < 2 ^ 32 → cv_busy (bio_cv c) b = false →
  cv_ref (bio_cv c) b ≠ 2 ^ 32 - 1 → room (bio_cv c) ∨ cv_ref (bio_cv c) b ≠ 0 →
  ∃ h c', run (bio_bread dv b) c h c' ∧ bio_wf c' ∧ bio_cv c' ≡ v_acq b (bio_cv c) ∧ bio_holds c' h b ∧
    ∀ h' b', bio_holds c h' b' → bio_holds c' h' b'.
Proof.
  intros W Hq _ Hbusy Hr Hroom. destruct (blk c b) as [x|] eqn:Hb.
  - simpl in Hbusy, Hr. rewrite Hb in Hbusy, Hr. simpl in Hbusy, Hr.
    unfold blk in Hb. apply bind_Some in Hb as (i & Hs & Hx). by apply (bread_hit_spec c b i x).
  - destruct Hroom as [Hroom|[]]; [|simpl; by rewrite Hb].
    destruct (scan c (Z.to_nat NBUCKET) (Z.to_nat (HASH b))) as [[i v]|] eqn:Hsc.
    + by apply (bread_miss_spec c b i v).
    + by destruct (room_scan c b W Hroom).
Qed.

(** *** The other outcomes of [bread] *)

Lemma bread_not_Ret dev b c :
  (bget dev b c = Blocks → bio_bread dev b c = Blocks) ∧
  (∀ msg, bget dev b c = Panic msg → bio_bread dev b c = Panic msg).
Proof. unfold bio_bread, mbind, ST_bind. split; [intros H|intros msg H]; by rewrite H. Qed.

Lemma run_acquiresleep_blocks i c x :
  buf_of c i = x → b_locked x = true → acquiresleep i c = Blocks.
Proof. intros Hx Hl. unfold acquiresleep. step_with (run_get c). by rewrite Hx, Hl. Qed.

(** Every outcome of [bread]: the cached buffer, the recycled buffer, sleeping
    on a locked buffer, or the panic when no buffer is free. *)
Lemma bread_cases c b :
  bio_struct c →
  (∃ i x, slot c b = Some i ∧ bufs c !! i = Some x ∧
    if b_locked x then bio_bread dv b c = Blocks
    else run (bio_bread dv b) c i (c <| bufs ::= alter (hit c) i |>)) ∨
  (slot c b = None ∧ ∃ i li v x, scan c (Z.to_nat NBUCKET) (Z.to_nat (HASH b)) = Some (i, v) ∧
    buckets c !! i = Some li ∧ lru c li = Some v ∧ bufs c !! v = Some x ∧
    if b_locked x then bio_bread dv b c = Blocks
    else run (bio_bread dv b) c v
      (c <| bufs ::= alter (λ _, fresh c b) v |> <| buckets ::= steal i (Z.to_nat (HASH b)) v |>)) ∨
  (slot c b = None ∧ scan c (Z.to_nat NBUCKET) (Z.to_nat (HASH b)) = None ∧
    bio_bread dv b c = Panic "bget: no buffers").
Proof.
  intros W. destruct (slot c b) as [i|] eqn:Hs.
  - left. pose proof Hs as (x & Hx & _)%slot_Some; [|done]. exists i, x. split_and!; [done..|].
    destruct (b_locked x) eqn:Hl; [|by apply (bread_hit c b i x)].
    apply bread_not_Ret. unfold bget. step_with (run_get c). rewrite (cached_slot c b W), Hs. cbn beta iota.
    step_with (run_upd i (bumped c) c). unfold mbind, ST_bind.
    rewrite (run_acquiresleep_blocks i _ (bumped c x)); [done| |done].
    apply buf_of_lookup. cbn [bufs update field_set]. by rewrite list_lookup_alter_eq, Hx.
  - right. destruct (scan c (Z.to_nat NBUCKET) (Z.to_nat (HASH b))) as [[i v]|] eqn:Hsc.
    + left. split; [done|]. pose proof (scan_Some c _ _ i v Hsc) as (li & Hi & Hlru).
      pose proof (lru_spec c li) as Hv. rewrite Hlru in Hv. destruct Hv as (Hv & _).
      destruct (ring_member c i li v W Hi Hv) as [x Hx]. exists i, li, v, x. split_and!; [done..|].
      destruct (b_locked x) eqn:Hl; [|by apply (bread_miss c b i v x)].
      apply bread_not_Ret. unfold bget. step_with (run_get c).
      rewrite (cached_slot c b W), Hs, Hsc. cbn beta iota.
      step_with (run_modify (λ c, c <| buckets ::= steal i (Z.to_nat (HASH b)) v |>) c).
      set (rec := λ x, x <| b_dev := dv |> <| b_blockno := b |> <| b_valid := false |>
                     <| b_refcnt := 1 |> <| b_timestamp := ticks c |>).
      rewrite (bind_Ret _ _ _ _ _ (run_upd v rec _)). unfold mbind, ST_bind.
      rewrite (run_acquiresleep_blocks v _ (rec x)); [done| |exact Hl].
      apply buf_of_lookup. cbn [bufs update field_set]. by rewrite list_lookup_alter_eq, Hx.
    + right. split_and!; [done..|]. apply bread_not_Ret. unfold bget. step_with (run_get c).
      rewrite (cached_slot c b W), Hs, Hsc. done.
Qed.
End bio.

(** ** The interface is implemented *)

#[export] Instance bio_spec dv : BufCacheSpec bcache dv.
Proof.
  refine {| cwf := bio_wf dv; cv := bio_cv dv; holds := bio_holds dv |}.
  - intros c b W. simpl. destruct (blk dv c b) as [x|] eqn:E; simpl; [|lia].
    apply blk_Some in E as (i & Hx & _); [|apply W]. apply (wf_buf dv c W i x Hx).
  - intros c b W Hz. simpl in *. destruct (blk dv c b) as [x|] eqn:E; [|done].
    apply blk_Some in E as (i & Hx & Hd & <-); [|apply W]. simpl in Hz.
    destruct (b_valid x) eqn:Hv; [|done]. by apply (ok_clean _ _ _ (wf_buf dv c W i x Hx)).
  - intros c b W. simpl. destruct (blk dv c b) as [x|] eqn:E; [|by apply (dread_length dv)].
    apply blk_Some in E as (i & Hx & Hd & <-); [|apply W].
    destruct (b_valid x); [apply (wf_buf dv c W i x Hx)|by apply (dread_length dv)].
  - intros c h b W (x & Hx & Hd & Hb & Hv & _). simpl buf_data. rewrite (buf_of_lookup c h x Hx).
    by destruct (holds_cv dv c h b x W Hx Hd Hb Hv) as (_ & -> & _).
  - intros c h b W (x & Hx & Hd & Hb & Hv & _). simpl. by rewrite (buf_of_lookup c h x Hx).
  - intros c h b W (x & Hx & Hd & Hb & Hv & Hl & _).
    by destruct (holds_cv dv c h b x W Hx Hd Hb Hv) as (_ & _ & _ & ->).
  - intros c b. by apply bio_bread_spec.
  - intros c h b d. by apply bio_set_data_spec.
  - intros c h b. by apply bio_bwrite_spec.
  - intros c h b. by apply bio_brelse_spec.
  - intros c h b. by apply bio_bpin_spec.
  - intros c h b. by apply bio_bunpin_spec.
Defined.

(** The cache after [binit], over a disk of whole blocks. *)
Lemma binit_struct dv tk pid d : dv ≠ 0 → bio_struct dv (binit tk pid d).
Proof.
  intros Hdv.
  assert (∀ i x, bufs (binit tk pid d) !! i = Some x → x = buf0) as H0.
  { intros i x [-> _]%lookup_replicate. done. }
  split; [done|done| | |].
  - change (concat (buckets (binit tk pid d))) with (rev (seq 0 (Z.to_nat NBUF))).
    symmetry. apply Permutation_rev.
  - intros j l i x Hl Hi ->%H0. destruct j as [|j]; [done|]. exfalso.
    assert (∀ l', l' ∈ drop 1 (buckets (binit tk pid d)) → l' = []) as Hnil.
    { change (drop 1 (buckets (binit tk pid d))) with (replicate 12 ([] : list nat)).
      by intros l' [-> _]%elem_of_replicate. }
    rewrite (Hnil l) in Hi; [by apply not_elem_of_nil in Hi|].
    apply list_elem_of_lookup. exists j. by rewrite lookup_drop.
  - by intros i j x y ->%H0.
Qed.

Lemma binit_wf dv tk pid d :
  dv ≠ 0 → (∀ b x, d !! b = Some x → length x = BSIZE) → bio_wf dv (binit tk pid d).
Proof.
  intros Hdv Hd. split; [by apply binit_struct| |done].
  intros i x [-> _]%lookup_replicate. by split; try done; left.
Qed.

Lemma binit_cv dv tk pid d :
  dv ≠ 0 → bio_cv dv (binit tk pid d) ≡ CView (dread d) (dread d) (λ _, 0) (λ _, false) [].
Proof.
  intros Hdv. assert (∀ b, blk dv (binit tk pid d) b = None) as Hn.
  { intros b. apply blk_None; [by apply binit_struct|]. by intros i x [-> _]%lookup_replicate. }
  repeat split; simpl; intros; by rewrite ?Hn.
Qed.

(** ** Deciding the invariant of a concrete cache *)

Definition no_dup_id (dv : Z) (bs : list buf) : bool :=
  bool_decide (NoDup (b_blockno <$> filter (λ x, b_dev x = dv) bs)).

Definition ring_home (c : bcache) (j : nat) (l : list nat) : Prop :=
  Forall (λ i, Z.to_nat (HASH (b_blockno (buf_of c i))) = j) l.
#[export] Instance ring_home_dec c j l : Decision (ring_home c j l) := _.

Definition buf_okb (dv : Z) (d : gmap Z block) (x : buf) : bool :=
  (0 <=? b_refcnt x) && (b_refcnt x <? 2 ^ 32) && bool_decide (length (b_data x) = BSIZE) &&
  (((b_dev x =? 0) && (b_refcnt x =? 0) && negb (b_locked x)) || (b_dev x =? dv)) &&
  (negb (b_refcnt x =? 0) || negb (b_valid x) || bool_decide (b_data x = dread d (b_blockno x))).

Definition bio_wfb (dv : Z) (c : bcache) : bool :=
  bool_decide (length (bufs c) = Z.to_nat NBUF) && bool_decide (length (buckets c) = Z.to_nat NBUCKET) &&
  bool_decide (concat (buckets c) ≡ₚ seq 0 (Z.to_nat NBUF)) &&
  forallb (λ j, bool_decide (ring_home c j (default [] (buckets c !! j)))) (seq 0 (length (buckets c))) &&
  no_dup_id dv (bufs c) && forallb (buf_okb dv (dsk c)) (bufs c) &&
  bool_decide (map_Forall (λ _ d, length d = BSIZE) (dsk c)).

Lemma no_dup_id_spec dv bs :
  no_dup_id dv bs = true →
  ∀ i j x y, bs !! i = Some x → bs !! j = Some y → b_dev x = dv → b_dev y = dv →
    b_blockno x = b_blockno y → i = j.
Proof.
  intros H%bool_decide_eq_true. induction bs as [|z bs IH]; intros i j x y Hi Hj Hx Hy E; [done|].
  assert (∀ k w, bs !! k = Some w → b_dev w = dv → b_dev z = dv → b_blockno w ≠ b_blockno z) as Hno.
  { intros k w Hk Hw Hz Ew. rewrite filter_cons_True in H by done. simpl in H. apply NoDup_cons in H as [Hn _].
    apply Hn. rewrite <- Ew. apply list_elem_of_fmap. exists w. split; [done|].
    apply list_elem_of_filter. split; [done|]. by apply list_elem_of_lookup_2 in Hk. }
  assert (NoDup (b_blockno <$> filter (λ x, b_dev x = dv) bs)) as Hnd.
  { rewrite filter_cons in H. case_decide; [by apply NoDup_cons in H as [_ H]|done]. }
  destruct i as [|i], j as [|j]; simpl in Hi, Hj; simplify_eq; try done.
  - by destruct (Hno j y).
  - by destruct (Hno i x).
  - f_equal. by apply (IH Hnd i j x y).
Qed.

Lemma bio_wfb_spec dv c : bio_wfb dv c = true → bio_wf dv c.
Proof.
  unfold bio_wfb. rewrite !andb_true_iff, !bool_decide_eq_true, <- !Is_true_true, !forallb_True, !Forall_forall, !Is_true_true.
  intros ((((((H1 & H2) & H3) & H4) & H5) & H6) & H7).
  split; [split; try done| |done].
  - intros j l i x Hl Hi Hx.
    assert (Is_true (bool_decide (ring_home c j (default [] (buckets c !! j))))) as Hr.
    { apply H4, elem_of_seq. apply lookup_lt_Some in Hl. lia. }
    apply bool_decide_unpack in Hr. rewrite Hl in Hr. simpl in Hr. unfold ring_home in Hr.
    rewrite Forall_forall in Hr. specialize (Hr i Hi). by rewrite (buf_of_lookup c i x Hx) in Hr.
  - by apply no_dup_id_spec.
  - intros i x Hx. specialize (H6 x (list_elem_of_lookup_2 _ _ _ Hx)). apply Is_true_true in H6.
    unfold buf_okb in H6. rewrite !andb_true_iff, !orb_true_iff, !andb_true_iff, !bool_decide_eq_true, !negb_true_iff in H6.
    split; [lia|naive_solver| |].
    + destruct H6 as [[_ [H|H]] _]; [left|right]; split_and?; try lia; naive_solver.
    + intros Hz Hv Hd. destruct H6 as [_ [[H|H]|H]]; [lia|congruence|done].
Qed.

Lemma blk_bufs dv c b x : blk dv c b = Some x → x ∈ bufs c.
Proof. unfold blk. intros (i & _ & Hx)%bind_Some. by apply list_elem_of_lookup_2 in Hx. Qed.

(** What every buffer of the cache satisfies is true of every block. *)
Lemma bufs_idle dv c : forallb (λ x, negb (b_locked x)) (bufs c) = true → idle (bio_cv dv c).
Proof.
  rewrite <- Is_true_true, forallb_True, Forall_forall. intros H b. cbn. destruct (blk dv c b) as [x|] eqn:E; [|done].
  specialize (H x (blk_bufs dv c b x E)). cbn. by destruct (b_locked x).
Qed.

Lemma bufs_ref_max dv c b :
  forallb (λ x, negb (b_refcnt x =? 2 ^ 32 - 1)) (bufs c) = true → cv_ref (bio_cv dv c) b ≠ 2 ^ 32 - 1.
Proof.
  rewrite <- Is_true_true, forallb_True, Forall_forall. intros H. cbn. destruct (blk dv c b) as [x|] eqn:E; [|done].
  specialize (H x (blk_bufs dv c b x E)). cbn in *. destruct (Z.eqb_spec (b_refcnt x) (2 ^ 32 - 1)); [done|done].
Qed.

Lemma bufs_room dv c :
  Z.of_nat (length (filter (λ x, b_refcnt x ≠ 0) (bufs c))) < NBUF → room (bio_cv dv c).
Proof.
  intros H bs Hnd Hall. enough (length bs ≤ length (filter (λ x, (b_refcnt x ≠ 0)%Z) (bufs c)))%nat by lia.
  rewrite <- (length_fmap b_blockno (filter _ _)).
  apply submseteq_length, NoDup_submseteq; [done|]. intros b Hb.
  rewrite Forall_forall in Hall. specialize (Hall b Hb). cbn in Hall.
  destruct (blk dv c b) as [x|] eqn:E; [|done]. apply list_elem_of_fmap. exists x.
  split; [|by apply list_elem_of_filter; split; [|eapply blk_bufs]].
  unfold blk in E. apply bind_Some in E as (i & Hi & Hx). unfold slot in Hi.
  apply findi_lookup in Hi as (y & Hy & Hp). simplify_eq. simpl in Hp. lia.
Qed.

(** ** Properties of bio.c *)

(** One cache operation by any process at any time (the clock and the running
    process may change between operations). *)
Inductive bio_step (dv : Z) : bcache → bcache → Prop :=
| step_bread b h c c' : run (bread dv b) c h c' → bio_step dv c c'
| step_bwrite h c c' : run (bwrite h) c () c' → bio_step dv c c'
| step_brelse h c c' : run (brelse h) c () c' → bio_step dv c c'
| step_bpin h c c' : run (bpin h) c () c' → bio_step dv c c'
| step_bunpin h c c' : run (bunpin h) c () c' → bio_step dv c c'
| step_store h d c : bio_step dv c (set_data h d c)
| step_switch tk pid c : bio_step dv c (c <| ticks := tk |> <| curpid := pid |>).

Lemma bread_struct dv b h c c' :
  bio_struct dv c → run (bread dv b) c h c' → bio_struct dv c'.
Proof.
  intros W H. change (bread dv b c) with (bio_bread dv b c) in H.
  destruct (bread_cases dv c b W) as [(i & x & Hs & Hx & Hr)|[(Hs & i & li & v & x & Hsc & Hi & Hlru & Hx & Hr)|(_ & _ & Hr)]].
  - destruct (b_locked x); rewrite Hr in H; [done|]. injection H as <- <-.
    apply (struct_alter dv c _ (hit c) i); [done..|]. intros y. done.
  - destruct (b_locked x); rewrite Hr in H; [done|]. injection H as <- <-.
    pose proof (lru_spec c li) as Hv. rewrite Hlru in Hv. destruct Hv as (Hv & _).
    apply (struct_miss dv c b i v x li); try done.
    apply blk_None; [done|]. intros k y Hy Hd Hb.
    assert (slot dv c b = Some k); [|congruence]. apply slot_Some; [done|]. by exists y.
  - by rewrite Hr in H.
Qed.

Lemma bio_step_struct dv c c' : bio_struct dv c → bio_step dv c c' → bio_struct dv c'.
Proof.
  intros W Hst. revert W.
  destruct Hst as [b h c0 c1 H|h c0 c1 H|h c0 c1 H|h c0 c1 H|h c0 c1 H|h d c0|tk pid c0]; intros W.
  - by apply (bread_struct dv b h c0).
  - simpl in H. unfold bio_bwrite, mbind, ST_bind in H. simpl in H.
    destruct (holdingsleep h c0); simpl in H; [|done]. injection H as <-.
    destruct W as [? ? ? ? ?]. split; assumption.
  - simpl in H. unfold bio_brelse, mbind, ST_bind in H. simpl in H.
    destruct (holdingsleep h c0); simpl in H; [|done]. injection H as <-.
    eapply (struct_alter dv c0 _ _ h); [done|simpl; by rewrite list_alter_alter_eq|done|].
    intros y. done.
  - simpl in H. unfold bio_bpin, upd, modify in H. injection H as <-.
    eapply (struct_alter dv c0 _ _ h); [done..|]. intros y. done.
  - simpl in H. unfold bio_bunpin, upd, modify in H. injection H as <-.
    eapply (struct_alter dv c0 _ _ h); [done..|]. intros y. done.
  - eapply (struct_alter dv c0 _ _ h); [done..|]. intros y. done.
  - destruct W as [? ? ? ? ?]. split; assumption.
Qed.

(** C8. In every state reached from [binit] by cache operations of a device,
    the rings hold every buffer exactly once, every buffer is in the ring of
    its block number, and no two buffers cache the same block: a process that
    looks a block up in its bucket sees the one cached copy. *)
Theorem bcache_one_copy dv tk pid d c :
  dv ≠ 0 → rtc (bio_step dv) (binit tk pid d) c →
  concat (buckets c) ≡ₚ seq 0 (Z.to_nat NBUF) ∧
  (∀ j l i x, buckets c !! j = Some l → i ∈ l → bufs c !! i = Some x → HASH (b_blockno x) = Z.of_nat j) ∧
  (∀ i j x y, bufs c !! i = Some x → bufs c !! j = Some y →
     b_dev x = dv → b_dev y = dv → b_blockno x = b_blockno y → i = j).
Proof.
  intros Hdv H. assert (bio_struct dv c) as W.
  { revert c H. apply rtc_ind_r; [by apply binit_struct|].
    intros y z _ Hyz IH. by apply (bio_step_struct dv y). }
  split_and!; [apply W| |apply W].
  intros j l i x Hl Hi Hx. pose proof (wf_home dv c W j l i x Hl Hi Hx).
  unfold HASH in *. pose proof (Z.mod_pos_bound (b_blockno x) NBUCKET ltac:(done)). lia.
Qed.

(** A [bread] of a block that is cached nowhere and finds the cache not
    full recycles a buffer that nobody references, the least recently used of
    the free buffers in its ring, and returns it locked with the block's
    contents from the device. *)
Theorem bread_recycles_lru dv b h c c' :
  bio_struct dv c → slot dv c b = None → run (bread dv b) c h c' →
  ∃ x j l, bufs c !! h = Some x ∧ buckets c !! j = Some l ∧ h ∈ l ∧ b_refcnt x = 0 ∧
    (∀ k y, k ∈ l → bufs c !! k = Some y → b_refcnt y = 0 → b_timestamp x ≤ b_timestamp y) ∧
    bufs c' !! h = Some (Buf true dv b true (curpid c) 1 (dread (dsk c) b) (ticks c)) ∧
    ∀ k, k ≠ h → bufs c' !! k = bufs c !! k.
Proof.
  intros W Hs H. change (bread dv b c) with (bio_bread dv b c) in H.
  destruct (bread_cases dv c b W) as [(i & x & Hs' & _)|[(_ & j & l & v & x & _ & Hj & Hlru & Hx & Hr)|(_ & _ & Hr)]];
    [congruence| |by rewrite Hr in H].
  destruct (b_locked x); rewrite Hr in H; [done|]. injection H as <- <-. rename v into h.
  pose proof (lru_spec c l) as Hv. rewrite Hlru in Hv. destruct Hv as (Hv & Hz & Hmin).
  rewrite (buf_of_lookup c h x Hx) in Hz, Hmin.
  exists x, j, l. split_and!; try done.
  - intros k y Hk Hy Hzy. specialize (Hmin k Hk). rewrite (buf_of_lookup c k y Hy) in Hmin. by apply Hmin.
  - cbn [bufs update field_set]. by rewrite list_lookup_alter_eq, Hx.
  - intros k Hk. cbn [bufs update field_set]. by rewrite list_lookup_alter_ne.
Qed.

(** [bread] panics exactly when the block is not cached and every buffer
    of the cache is referenced. *)
Theorem bread_panics_iff dv b c :
  bio_struct dv c →
  bread dv b c = Panic "bget: no buffers" ↔
  slot dv c b = None ∧ ∀ i x, bufs c !! i = Some x → b_refcnt x ≠ 0.
Proof.
  intros W. pose proof (HASH_lt dv c b W) as Hlt. rewrite (wf_rings dv c W) in Hlt. split.
  - intros H. change (bread dv b c) with (bio_bread dv b c) in H.
    destruct (bread_cases dv c b W) as [(i & x & _ & _ & Hr)|[(_ & j & l & v & x & _ & _ & _ & _ & Hr)|(Hs & Hsc & _)]].
    1,2: destruct (b_locked x); congruence.
    split; [done|]. by eapply (scan_None_all dv).
  - intros [Hs Hall].
    destruct (bread_cases dv c b W) as [(i & x & Hs' & _)|[(_ & j & l & v & x & _ & Hj & Hlru & Hx & _)|(_ & _ & Hr)]];
      [congruence| |done].
    pose proof (lru_spec c l) as Hv. rewrite Hlru in Hv. destruct Hv as (_ & Hz & _).
    rewrite (buf_of_lookup c v x Hx) in Hz. by destruct (Hall v x Hx).
Qed.

(** C5. Refinement: under the discipline of the interface, [bread] returns a
    buffer that holds the block's current contents and changes nothing else
    a client can see, although it may have recycled another block's buffer. *)
Theorem bread_refines dv c b :
  dv ≠ 0 → bio_wf dv c → quiet (bio_cv dv c) → 0 ≤ b < 2 ^ 32 →
  cv_busy (bio_cv dv c) b = false → cv_ref (bio_cv dv c) b ≠ 2 ^ 32 - 1 → room (bio_cv dv c) →
  ∃ h c', run (bread dv b) c h c' ∧ bio_wf dv c' ∧
    b_blockno (buf_of c' h) = b ∧ b_data (buf_of c' h) = cv_mem (bio_cv dv c) b ∧
    bio_cv dv c' ≡ v_acq b (bio_cv dv c).
Proof.
  intros Hdv W Hq Hb Hbusy Hr Hroom.
  destruct (bio_bread_spec dv c b W Hq Hb Hbusy Hr (or_introl Hroom)) as (h & c' & Hrun & W' & Hcv & Hh & _).
  exists h, c'. split_and!; try done.
  - exact (holds_blockno (BufCacheSpec := bio_spec dv) c' h b W' Hh).
  - etransitivity; [exact (holds_data (BufCacheSpec := bio_spec dv) c' h b W' Hh)|].
    destruct Hcv as (_ & Hm & _). exact (Hm b).
Qed.

(** ** Concrete runs *)

(** The cache after boot, and after one read of block 100. *)
Definition c_boot : bcache := binit 7 3 ∅.
Definition c_read : bcache := after (bread 1 100) c_boot.

Lemma c_read_run : bread 1 100 c_boot = Ret (29%nat, c_read).
Proof. apply run_after. vm_compute. reflexivity. Qed.

Lemma bcache_one_copy_witness :
  HASH (b_blockno (buf_of c_read 29)) = 9 ∧ concat (buckets c_read) ≡ₚ seq 0 (Z.to_nat NBUF).
Proof.
  split; [reflexivity|].
  refine (proj1 (bcache_one_copy 1 7 3 ∅ c_read _ _)); [done|].
  apply rtc_once, (step_bread 1 100 29), c_read_run.
Defined.

Lemma bread_recycles_lru_witness :
  ∃ x, bufs c_boot !! 29%nat = Some x ∧ b_refcnt x = 0.
Proof.
  destruct (bread_recycles_lru 1 100 29 c_boot c_read) as (x & j & l & Hx & _ & _ & Hz & _).
  - by apply binit_struct.
  - vm_compute. reflexivity.
  - apply c_read_run.
  - exists x. by split.
Defined.

(** A full cache: every buffer referenced. *)
Definition c_full : bcache :=
  after (_ ← for_loop 0 30 (λ i, _ ← bread 1 (Z.of_nat i); mret ()); mret ()) c_boot.

Lemma bread_panics_iff_witness : bread 1 100 c_full = Panic "bget: no buffers".
Proof.
  apply (bread_panics_iff 1 100 c_full).
  - apply wf_struct, bio_wfb_spec. vm_compute. reflexivity.
  - split; [vm_compute; reflexivity|]. intros i x Hx Hz.
    assert (forallb (λ x, negb (b_refcnt x =? 0)) (bufs c_full) = true) as H by (vm_compute; reflexivity).
    pose proof (forallb_lookup _ (bufs c_full) i x H Hx) as Hn. cbv beta in Hn. by rewrite Hz in Hn.
Defined.

Lemma bread_refines_witness :
  ∃ h c', bread 1 100 c_boot = Ret (h, c') ∧ b_blockno (buf_of c' h) = 100.
Proof.
  destruct (bread_refines 1 c_boot 100) as (h & c' & Hrun & _ & Hb & _).
  - done.
  - by apply binit_wf.
  - apply idle_quiet, bufs_idle. vm_compute. reflexivity.
  - done.
  - vm_compute. reflexivity.
  - apply bufs_ref_max. vm_compute. reflexivity.
  - apply bufs_room. vm_compute. reflexivity.
  - exists h, c'. split; [exact Hrun|exact Hb].
Defined.
