(* ===== verification/Log.v ===== *)
(** * log.c: the redo log

    A file-system call brackets its block updates with [begin_op]/[end_op] and
    hands each changed buffer to [log_write], which pins it in the cache and
    records its number.  The last [end_op] commits: the pinned blocks are
    copied to the log area, the header is written (the commit point), the
    blocks are installed at their home locations and the header is cleared.
    [recover_from_log] replays a committed log at boot.

    The code is written against the buffer-cache interface; its theorems use
    only that interface's laws, and the last section instantiates them with
    bio.c. *)

From stdpp Require Import gmap.
From S2P Require Import Prelude Bytes BufCache Bio.

(** ** State *)

(** [struct log]; [lh_n] and [lh_block] are the in-memory header [log.lh]. *)
Record log := Log {
  lg_start : Z;
  lg_size : Z;
  lg_outstanding : Z;
  lg_committing : bool;
  lg_dev : Z;
  lh_n : Z;
  lh_block : list Z;
}.
#[export] Instance log_fields : Fields log := λ l,
  Log (lg_start l) (lg_size l) (lg_outstanding l) (lg_committing l) (lg_dev l) (lh_n l) (lh_block l).

(** The log together with the cache under it. *)
Record lstate (C : Type) := LState { lg : log; bc : C }.
Arguments LState {C} lg bc.
Arguments lg {C} _.
Arguments bc {C} _.
#[export] Instance lstate_fields C : Fields (lstate C) := λ s, LState (lg s) (bc s).

(** The fields of [struct superblock] that [initlog] reads. *)
Record superblock := Superblock {
  sb_magic : Z; sb_size : Z; sb_nblocks : Z; sb_ninodes : Z;
  sb_nlog : Z; sb_logstart : Z; sb_inodestart : Z; sb_bmapstart : Z;
}.

Section code.
Context {C : Type} `{!BufCache C}.

Definition lift {A : Type} (m : ST C A) : ST (lstate C) A := λ s,
  match m (bc s) with
  | Ret (a, c') => Ret (a, s <| bc := c' |>)
  | Panic msg => Panic msg
  | Blocks => Blocks
  end.

(** [log.lh.block[i]], an [int]. *)
Definition lblock (l : log) (i : nat) : Z := default 0 (lh_block l !! i).

(** ** The header block: [struct logheader] at the start of the block's data *)

Fixpoint put_blocks (i : nat) (bs : list Z) (d : block) : block :=
  match bs with
  | [] => d
  | b :: bs' => put_blocks (S i) bs' (st32 (S i) b d)
  end.

Definition put_head (l : log) (d : block) : block :=
  put_blocks 0 (take (Z.to_nat (lh_n l)) (lh_block l)) (st32 0 (lh_n l) d).

(** [int n] and [int block[i]] read back from the header block. *)
Definition head_n (d : block) : Z := i32 (ld32 0 d).
Definition head_block (d : block) (i : nat) : Z := i32 (ld32 (S i) d).

Definition read_head : ST (lstate C) () :=
  l ← gets lg;
  b ← lift (bread (lg_dev l) (u32 (lg_start l)));
  d ← lift (gets (buf_data b));
  _ ← modify (λ s, s <| lg ::= λ l, l <| lh_n := head_n d |> |>);
  _ ← for_loop 0 (Z.to_nat (head_n d)) (λ i,
        modify (λ s, s <| lg ::= λ l, l <| lh_block ::= <[i := head_block d i]> |> |>));
  lift (brelse b).

Definition write_head : ST (lstate C) () :=
  l ← gets lg;
  b ← lift (bread (lg_dev l) (u32 (lg_start l)));
  _ ← lift (modify (λ c, set_data b (put_head l (buf_data b c)) c));
  _ ← lift (bwrite b);
  lift (brelse b).

(** ** Copying blocks to the log and home *)

Definition write_log_body (l : log) (tail : nat) : ST C () :=
  to ← bread (lg_dev l) (u32 (lg_start l + Z.of_nat tail + 1));
  from ← bread (lg_dev l) (u32 (lblock l tail));
  _ ← modify (λ c, set_data to (buf_data from c) c);
  _ ← bwrite to;
  _ ← brelse from;
  brelse to.

Definition write_log : ST (lstate C) () :=
  l ← gets lg;
  lift (for_loop 0 (Z.to_nat (lh_n l)) (write_log_body l)).

Definition install_body (l : log) (tail : nat) : ST C () :=
  lbuf ← bread (lg_dev l) (u32 (lg_start l + Z.of_nat tail + 1));
  dbuf ← bread (lg_dev l) (u32 (lblock l tail));
  _ ← modify (λ c, set_data dbuf (buf_data lbuf c) c);
  _ ← bwrite dbuf;
  _ ← bunpin dbuf;
  _ ← brelse lbuf;
  brelse dbuf.

Definition install_trans : ST (lstate C) () :=
  l ← gets lg;
  lift (for_loop 0 (Z.to_nat (lh_n l)) (install_body l)).

Definition clear_lh_n : ST (lstate C) () := modify (λ s, s <| lg ::= λ l, l <| lh_n := 0 |> |>).

Definition commit : ST (lstate C) () :=
  l ← gets lg;
  if 0 <? lh_n l then
    _ ← write_log;
    _ ← write_head;
    _ ← install_trans;
    _ ← clear_lh_n;
    write_head
  else mret ().

Definition recover_from_log : ST (lstate C) () :=
  _ ← read_head;
  _ ← install_trans;
  _ ← clear_lh_n;
  write_head.

(** [sizeof(struct logheader)] is 4 * (LOGSIZE + 1). *)
Definition initlog (dev : Z) (sb : superblock) : ST (lstate C) () :=
  if Z.of_nat BSIZE <=? 4 * (LOGSIZE + 1) then panic "initlog: too big logheader"
  else
    _ ← modify (λ s, s <| lg ::= λ l, l <| lg_start := i32 (sb_logstart sb) |>
                        <| lg_size := i32 (sb_nlog sb) |> <| lg_dev := dev |> |>);
    recover_from_log.

(** ** Transactions *)

(** The loop of [begin_op] as far as this thread can take it. *)
Definition begin_op : ST (lstate C) () :=
  l ← gets lg;
  if lg_committing l then blocks
  else if LOGSIZE <? lh_n l + (lg_outstanding l + 1) * MAXOPBLOCKS then blocks
  else modify (λ s, s <| lg ::= λ l, l <| lg_outstanding ::= λ o, o + 1 |> |>).

Definition end_op : ST (lstate C) () :=
  _ ← modify (λ s, s <| lg ::= λ l, l <| lg_outstanding ::= λ o, o - 1 |> |>);
  l ← gets lg;
  if lg_committing l then panic "log.committing"
  else if lg_outstanding l =? 0 then
    _ ← modify (λ s, s <| lg ::= λ l, l <| lg_committing := true |> |>);
    _ ← commit;
    modify (λ s, s <| lg ::= λ l, l <| lg_committing := false |> |>)
  else mret ().

(** The absorption scan of [log_write]: the first slot with the block's
    number, or [log.lh.n]. *)
Definition log_slot (l : log) (blockno : Z) : nat :=
  default (Z.to_nat (lh_n l)) (findi (λ x, u32 x =? blockno) (take (Z.to_nat (lh_n l)) (lh_block l))).

Definition log_write (b : nat) : ST (lstate C) () :=
  s ← get;
  let l := lg s in
  let blockno := buf_blockno b (bc s) in
  if (LOGSIZE <=? lh_n l) || (lg_size l - 1 <=? lh_n l) then panic "too big a transaction"
  else if lg_outstanding l <? 1 then panic "log_write outside of trans"
  else
    let i := log_slot l blockno in
    _ ← modify (λ s, s <| lg ::= λ l, l <| lh_block ::= <[i := i32 blockno]> |> |>);
    if decide (i = Z.to_nat (lh_n l)) then
      _ ← lift (bpin b);
      modify (λ s, s <| lg ::= λ l, l <| lh_n ::= λ n, n + 1 |> |>)
    else mret ().
End code.

(** ** The log against the interface *)

Section proofs.
Context {C : Type} `{!BufCache C} (dv : Z) `{!BufCacheSpec C dv}.
Implicit Types (c : C) (l : log) (v : cview).

Lemma run_lift {A : Type} (m : ST C A) (s : lstate C) a c' :
  run m (bc s) a c' → run (lift m) s a (s <| bc := c' |>).
Proof. intros H. unfold lift. by rewrite H. Qed.

Lemma run_gets {S A : Type} (f : S → A) (s : S) : run (gets f) s (f s) s.
Proof. done. Qed.

(** One block copied to the log area. *)
Lemma write_log_body_spec l tail c :
  let to := u32 (lg_start l + Z.of_nat tail + 1) in
  let from := u32 (lblock l tail) in
  lg_dev l = dv → to ≠ from → cwf c → idle (cv c) → room (cv c) →
  cv_ref (cv c) to ≠ 2 ^ 32 - 1 → cv_ref (cv c) from ≠ 0 → cv_ref (cv c) from ≠ 2 ^ 32 - 1 →
  ∃ c', run (write_log_body l tail) c () c' ∧ cwf c' ∧ cv c' ≡ v_copy to (cv_mem (cv c) from) (cv c).
Proof.
  intros to from Hdev Hne W Hidle Hroom Hto Hfrom0 Hfrom. unfold write_log_body. fold to from. rewrite Hdev.
  pose proof (cv_ref_range c to W) as Rto. pose proof (cv_ref_range c from W) as Rfrom.
  destruct (bread_spec c to) as (ht & c1 & E1 & W1 & V1 & H1 & _);
    [done|by apply idle_quiet|apply u32_range|apply Hidle|done|by left|]. step_with E1.
  destruct (bread_spec c1 from) as (hf & c2 & E2 & W2 & V2 & H2 & K2); [done| |apply u32_range|..].
  { intros b. cv_read. unfold fupd. case_decide; [|by rewrite Hidle]. subst. rewrite u32_succ_ne_0; lia. }
  { cv_read. apply Hidle. }
  { by cv_read. }
  { right. by cv_read. }
  step_with E2. rewrite (bind_Ret _ _ _ _ _ (run_modify _ c2)). cbn beta.
  rewrite (holds_data c2 hf from W2 H2).
  assert (cv_mem (cv c2) from = cv_mem (cv c) from) as -> by (by cv_read).
  destruct (set_data_spec c2 ht to (cv_mem (cv c) from) W2 (K2 _ _ H1)) as (W3 & V3 & K3).
  { cv_read. rewrite u32_succ_ne_0; lia. }
  { by apply cv_mem_length. }
  set (c3 := set_data ht _ c2) in *.
  destruct (bwrite_spec c3 ht to W3 (K3 _ _ (K2 _ _ H1))) as (c4 & E4 & W4 & V4 & K4). step_with E4.
  destruct (brelse_spec c4 hf from W4 (K4 _ _ (K3 _ _ H2))) as (c5 & E5 & W5 & V5 & K5).
  { cv_read. rewrite u32_succ_ne_0; lia. }
  step_with E5.
  destruct (brelse_spec c5 ht to W5 (K5 _ _ Hne (K4 _ _ (K3 _ _ (K2 _ _ H1))))) as (c6 & E6 & W6 & V6 & _).
  { intros _. by cv_read. }
  exists c6. split; [done|]. split; [done|].
  rewrite V6, V5, V4, V3, V2, V1. unfold v_copy.
  repeat split; cv_cbn; intros; unfold fupd; repeat case_decide; subst; try congruence.
  all: rewrite ?u32_succ_pred by done; rewrite ?Hidle; done.
Qed.

(** One block installed at its home location; its pin is dropped. *)
Lemma install_body_spec l tail c :
  let fr := u32 (lg_start l + Z.of_nat tail + 1) in
  let to := u32 (lblock l tail) in
  lg_dev l = dv → fr ≠ to → cwf c → idle (cv c) → room (cv c) →
  cv_ref (cv c) fr ≠ 2 ^ 32 - 1 → cv_ref (cv c) to ≠ 2 ^ 32 - 1 →
  room (v_acq fr (cv c)) ∨ cv_ref (cv c) to ≠ 0 →
  ∃ c', run (install_body l tail) c () c' ∧ cwf c' ∧
    cv c' ≡ v_unpin to (v_copy to (cv_mem (cv c) fr) (cv c)).
Proof.
  intros fr to Hdev Hne W Hidle Hroom Hfr Hto Hroom2. unfold install_body. fold to fr. rewrite Hdev.
  pose proof (cv_ref_range c to W) as Rto. pose proof (cv_ref_range c fr W) as Rfr.
  destruct (bread_spec c fr) as (hl & c1 & E1 & W1 & V1 & H1 & _);
    [done|by apply idle_quiet|apply u32_range|apply Hidle|done|by left|]. step_with E1.
  destruct (bread_spec c1 to) as (hd & c2 & E2 & W2 & V2 & H2 & K2); [done| |apply u32_range|..].
  { intros b. cv_read. unfold fupd. case_decide; [|by rewrite Hidle]. subst. rewrite u32_succ_ne_0; lia. }
  { cv_read. apply Hidle. }
  { by cv_read. }
  { destruct Hroom2 as [Hr2|Hr2]; [left; by rewrite V1|right; by cv_read]. }
  step_with E2. rewrite (bind_Ret _ _ _ _ _ (run_modify _ c2)). cbn beta.
  rewrite (holds_data c2 hl fr W2 (K2 _ _ H1)).
  assert (cv_mem (cv c2) fr = cv_mem (cv c) fr) as -> by (by cv_read).
  destruct (set_data_spec c2 hd to (cv_mem (cv c) fr) W2 H2) as (W3 & V3 & K3).
  { cv_read. rewrite u32_succ_ne_0; lia. }
  { by apply cv_mem_length. }
  set (c3 := set_data hd _ c2) in *.
  destruct (bwrite_spec c3 hd to W3 (K3 _ _ H2)) as (c4 & E4 & W4 & V4 & K4). step_with E4.
  destruct (bunpin_spec c4 hd to W4 (K4 _ _ (K3 _ _ H2))) as (c5 & E5 & W5 & V5 & K5).
  { intros _. by cv_read. }
  step_with E5.
  destruct (brelse_spec c5 hl fr W5 (K5 _ _ (K4 _ _ (K3 _ _ (K2 _ _ H1))))) as (c6 & E6 & W6 & V6 & K6).
  { cv_read. rewrite u32_succ_ne_0 by lia. intros Hr. apply cv_clean; [done|lia]. }
  step_with E6.
  destruct (brelse_spec c6 hd to W6 (K6 hd to (not_eq_sym Hne) (K5 _ _ (K4 _ _ (K3 _ _ H2)))))
    as (c7 & E7 & W7 & V7 & _).
  { intros _. by cv_read. }
  exists c7. split; [done|]. split; [done|].
  rewrite V7, V6, V5, V4, V3, V2, V1. unfold v_copy.
  repeat split; cv_cbn; intros; unfold fupd; repeat case_decide; subst; try congruence.
  all: rewrite ?u32_succ_pred by done; rewrite ?Hidle; done.
Qed.

(** *** The logged blocks *)

(** The log block of slot [i] and the home block of slot [i]. *)
Definition laddr (l : log) (i : nat) : Z := u32 (lg_start l + Z.of_nat i + 1).
Definition haddr (l : log) (i : nat) : Z := u32 (lblock l i).
Definition nlog (l : log) : nat := Z.to_nat (lh_n l).
Definition homes (l : log) : list Z := haddr l <$> seq 0 (nlog l).

(** A header whose blocks are distinct and outside the log area, the blocks
    [lg_start .. lg_start + lg_size - 1]. *)
Record log_ok (l : log) : Prop := {
  lo_dev : lg_dev l = dv;
  lo_n : 0 ≤ lh_n l ≤ LOGSIZE ∧ lh_n l < lg_size l;
  lo_len : length (lh_block l) = Z.to_nat LOGSIZE;
  lo_start : 0 ≤ lg_start l ∧ lg_start l + lg_size l < 2 ^ 31;
  lo_blocks : Forall (λ b, - 2 ^ 31 ≤ b < 2 ^ 31) (lh_block l);
  lo_nodup : NoDup (homes l);
  lo_homes : ∀ b, b ∈ homes l → b < lg_start l ∨ lg_start l + lg_size l ≤ b;
}.

(** The blocks of the log area. *)
Definition in_log (l : log) (b : Z) : Prop := lg_start l ≤ b < lg_start l + lg_size l.

Lemma laddr_eq l i : log_ok l → (i < nlog l)%nat → laddr l i = lg_start l + Z.of_nat i + 1.
Proof. intros [? Hn ? Hs ? ? ?] Hi. unfold laddr, nlog in *. apply u32_small. lia. Qed.

Lemma haddr_in l i : (i < nlog l)%nat → haddr l i ∈ homes l.
Proof. intros Hi. apply list_elem_of_fmap. exists i. split; [done|]. apply elem_of_seq. lia. Qed.

Lemma laddr_haddr l i j : log_ok l → (i < nlog l)%nat → (j < nlog l)%nat → laddr l i ≠ haddr l j.
Proof.
  intros Hok Hi Hj. rewrite laddr_eq by done. pose proof (lo_homes l Hok _ (haddr_in l j Hj)).
  destruct Hok as [? Hn ? Hs ? ? ?]. unfold nlog in *. lia.
Qed.

(** The block writes of the two copy loops, from the contents [f]. *)
Definition log_ws (l : log) (f : Z → block) (k : nat) : list (Z * block) :=
  (λ i, (laddr l i, f (haddr l i))) <$> seq 0 k.
Definition home_ws (l : log) (f : Z → block) (k : nat) : list (Z * block) :=
  (λ i, (haddr l i, f (laddr l i))) <$> seq 0 k.

Lemma log_ws_S l f k : log_ws l f (k + 1) = log_ws l f k ++ [(laddr l k, f (haddr l k))].
Proof. unfold log_ws. rewrite seq_app, fmap_app. done. Qed.
Lemma home_ws_S l f k : home_ws l f (k + 1) = home_ws l f k ++ [(haddr l k, f (laddr l k))].
Proof. unfold home_ws. rewrite seq_app, fmap_app. done. Qed.

Lemma log_ws_fst l f k : (log_ws l f k).*1 = laddr l <$> seq 0 k.
Proof. unfold log_ws. rewrite <- list_fmap_compose. done. Qed.
Lemma home_ws_fst l f k : (home_ws l f k).*1 = haddr l <$> seq 0 k.
Proof. unfold home_ws. rewrite <- list_fmap_compose. done. Qed.

Lemma laddr_inj l i j : log_ok l → (i < nlog l)%nat → (j < nlog l)%nat → laddr l i = laddr l j → i = j.
Proof. intros Hok Hi Hj. rewrite !laddr_eq by done. lia. Qed.

Lemma laddr_in_log l i : log_ok l → (i < nlog l)%nat → in_log l (laddr l i) ∧ laddr l i ≠ lg_start l.
Proof.
  intros Hok Hi. rewrite laddr_eq by done. destruct Hok as [? Hn ? Hs ? ? ?].
  unfold nlog, in_log in *. lia.
Qed.

Lemma haddr_not_log l i : log_ok l → (i < nlog l)%nat → ¬ in_log l (haddr l i).
Proof. intros Hok Hi. pose proof (lo_homes l Hok _ (haddr_in l i Hi)). unfold in_log. lia. Qed.

Lemma homes_lookup l i : (i < nlog l)%nat → homes l !! i = Some (haddr l i).
Proof. intros Hi. unfold homes. by rewrite list_lookup_fmap, lookup_seq_lt. Qed.

Lemma haddr_inj l i j : log_ok l → (i < nlog l)%nat → (j < nlog l)%nat → haddr l i = haddr l j → i = j.
Proof.
  intros Hok Hi Hj E. apply (NoDup_lookup (homes l) i j (haddr l i)); [apply Hok|..].
  - by apply homes_lookup.
  - rewrite E. by apply homes_lookup.
Qed.

Lemma log_ws_nodup l f k : log_ok l → (k ≤ nlog l)%nat → NoDup (log_ws l f k).*1.
Proof.
  intros Hok Hk. rewrite log_ws_fst. apply NoDup_fmap_2_strong; [|apply NoDup_seq].
  intros i j Hi%elem_of_seq Hj%elem_of_seq. apply laddr_inj; [done|lia..].
Qed.

Lemma home_ws_nodup l f k : log_ok l → (k ≤ nlog l)%nat → NoDup (home_ws l f k).*1.
Proof.
  intros Hok Hk. rewrite home_ws_fst. apply NoDup_fmap_2_strong; [|apply NoDup_seq].
  intros i j Hi%elem_of_seq Hj%elem_of_seq. apply haddr_inj; [done|lia..].
Qed.

(** The log loop leaves every block outside the log blocks alone and puts the
    home contents in them; the install loop does the converse. *)
Lemma replay_log_ws_out l f k d b :
  log_ok l → (k ≤ nlog l)%nat → (¬ in_log l b ∨ b = lg_start l) → replay (log_ws l f k) d b = d b.
Proof.
  intros Hok Hk Hb. apply replay_notin. rewrite log_ws_fst. intros (i & -> & Hi%elem_of_seq)%list_elem_of_fmap.
  pose proof (laddr_in_log l i Hok ltac:(lia)). naive_solver.
Qed.

Lemma replay_log_ws_in l f k d i :
  log_ok l → (i < k ≤ nlog l)%nat → replay (log_ws l f k) d (laddr l i) = f (haddr l i).
Proof.
  intros Hok Hi. apply replay_in; [apply log_ws_nodup; [done|lia]|].
  apply list_elem_of_fmap. exists i. split; [done|]. apply elem_of_seq. lia.
Qed.

Lemma replay_home_ws_out l f k d b :
  log_ok l → (k ≤ nlog l)%nat → b ∉ homes l → replay (home_ws l f k) d b = d b.
Proof.
  intros Hok Hk Hb. apply replay_notin. rewrite home_ws_fst. intros (i & -> & Hi%elem_of_seq)%list_elem_of_fmap.
  apply Hb, haddr_in. lia.
Qed.

Lemma replay_home_ws_in l f k d i :
  log_ok l → (i < k ≤ nlog l)%nat → replay (home_ws l f k) d (haddr l i) = f (laddr l i).
Proof.
  intros Hok Hi. apply replay_in; [apply home_ws_nodup; [done|lia]|].
  apply list_elem_of_fmap. exists i. split; [done|]. apply elem_of_seq. lia.
Qed.

Lemma homes_in_log l b : log_ok l → in_log l b → b ∉ homes l.
Proof. intros Hok Hb Hin. pose proof (lo_homes l Hok b Hin). unfold in_log in Hb. lia. Qed.

(** *** The loops *)

Lemma room_ref v w : (∀ b, cv_ref w b ≠ 0 → cv_ref v b ≠ 0) → room v → room w.
Proof. intros H Hr bs Hnd Hall. apply Hr; [done|]. eapply Forall_impl; [done|]. apply H. Qed.

(** The cache a commit finds: nobody holds a buffer, and every logged block
    is pinned. *)
Record ready (l : log) (c : C) : Prop := {
  rd_wf : cwf c;
  rd_idle : idle (cv c);
  rd_room : room (cv c);
  rd_log : ∀ b, in_log l b → cv_ref (cv c) b ≠ 2 ^ 32 - 1;
  rd_home : ∀ b, b ∈ homes l → cv_ref (cv c) b ≠ 0 ∧ cv_ref (cv c) b ≠ 2 ^ 32 - 1;
}.

Lemma write_log_spec (s : lstate C) :
  let l := lg s in let c := bc s in
  log_ok l → ready l c →
  ∃ c', run write_log s () (s <| bc := c' |>) ∧ cwf c' ∧
    cv c' ≡ v_copies (log_ws l (cv_mem (cv c)) (nlog l)) (cv c).
Proof.
  intros l c Hok [W Hidle Hroom Hlog Hhome].
  assert (∃ c', run (for_loop 0 (nlog l) (write_log_body l)) c () c' ∧
    (cwf c' ∧ cv c' ≡ v_copies (log_ws l (cv_mem (cv c)) (0 + nlog l)) (cv c))) as (c' & E & H).
  { apply (for_loop_inv (λ k c', cwf c' ∧ cv c' ≡ v_copies (log_ws l (cv_mem (cv c)) k) (cv c))); [done|].
    intros k c1 Hk [W1 V1]. assert (k < nlog l)%nat as Hk' by lia.
    pose proof V1 as V1'. rewrite v_copies_spec in V1'.
    destruct (laddr_in_log l k Hok Hk'). pose proof (haddr_in l k Hk').
    destruct (write_log_body_spec l k c1) as (c2 & E2 & W2 & V2).
    - apply Hok.
    - by apply laddr_haddr.
    - done.
    - intros b. rewrite (equiv_busy _ _ V1'). apply Hidle.
    - eapply room_ref; [|exact Hroom]. intros b. by rewrite (equiv_ref _ _ V1').
    - rewrite (equiv_ref _ _ V1'). by apply Hlog.
    - rewrite (equiv_ref _ _ V1'). by apply Hhome.
    - rewrite (equiv_ref _ _ V1'). by apply Hhome.
    - exists c2. split_and!; [done..|]. rewrite V2.
      rewrite (equiv_mem _ _ V1'). cbn [cv_mem]. fold (laddr l k) (haddr l k).
      rewrite (replay_log_ws_out l _ k _ _ Hok); [|lia|left; by apply haddr_not_log].
      rewrite V1, log_ws_S. unfold v_copies. by rewrite fold_left_app. }
  exists c'. split; [|exact H].
  unfold write_log. rewrite (bind_Ret _ _ _ _ _ (run_gets lg s)). by apply run_lift.
Qed.

Lemma length_put_blocks i bs d : length (put_blocks i bs d) = length d.
Proof. revert i d. induction bs as [|b bs IH]; intros i d; simpl; [done|]. by rewrite IH, length_st32. Qed.

Lemma length_put_head l d : length (put_head l d) = length d.
Proof. unfold put_head. by rewrite length_put_blocks, length_st32. Qed.

Lemma write_head_spec (s : lstate C) :
  let l := lg s in let c := bc s in
  lg_dev l = dv → 0 ≤ lg_start l < 2 ^ 32 → cwf c → idle (cv c) → room (cv c) →
  cv_ref (cv c) (lg_start l) ≠ 2 ^ 32 - 1 →
  ∃ c', run write_head s () (s <| bc := c' |>) ∧ cwf c' ∧
    cv c' ≡ v_copy (lg_start l) (put_head l (cv_mem (cv c) (lg_start l))) (cv c).
Proof.
  intros l c Hdev Hst W Hidle Hroom Href. unfold write_head.
  rewrite (bind_Ret _ _ _ _ _ (run_gets lg s)). fold l. rewrite Hdev, u32_small by done.
  pose proof (cv_ref_range c (lg_start l) W) as R.
  destruct (bread_spec c (lg_start l)) as (h & c1 & E1 & W1 & V1 & H1 & _);
    [done|by apply idle_quiet|done|apply Hidle|done|by left|].
  rewrite (bind_Ret _ _ _ _ _ (run_lift _ s _ _ E1)).
  set (d := put_head l (cv_mem (cv c) (lg_start l))).
  assert (put_head l (buf_data h c1) = d) as Hd.
  { rewrite (holds_data c1 h (lg_start l) W1 H1). unfold d. by cv_read. }
  destruct (set_data_spec c1 h (lg_start l) d W1 H1) as (W2 & V2 & K2).
  { cv_read. rewrite u32_succ_ne_0; lia. }
  { unfold d. rewrite length_put_head. by apply cv_mem_length. }
  set (s1 := s <| bc := c1 |>).
  rewrite (bind_Ret _ _ s1 () (s1 <| bc := set_data h d c1 |>)).
  2:{ apply run_lift. unfold modify. change (bc s1) with c1. by rewrite Hd. }
  set (c2 := set_data h d c1) in *.
  destruct (bwrite_spec c2 h (lg_start l) W2 (K2 _ _ H1)) as (c3 & E3 & W3 & V3 & K3).
  cbn beta. step_with (run_lift _ (s1 <| bc := c2 |>) _ _ E3).
  destruct (brelse_spec c3 h (lg_start l) W3 (K3 _ _ (K2 _ _ H1))) as (c4 & E4 & W4 & V4 & _).
  { intros _. by cv_read. }
  exists c4. split; [|split; [done|]].
  - exact (run_lift _ (s1 <| bc := c2 |> <| bc := c3 |>) _ _ E4).
  - rewrite V4, V3, V2, V1. unfold v_copy.
    repeat split; cv_cbn; intros; unfold fupd; repeat case_decide; subst; try congruence.
    all: rewrite ?u32_succ_pred by done; rewrite ?Hidle; done.
Qed.

(** The references left after [k] of the logged blocks are installed. *)
Definition dropped (l : log) (k : nat) (v : cview) : cview := v_drops (take k (homes l)) v.

Lemma take_homes l k : (k ≤ nlog l)%nat → take k (homes l) = haddr l <$> seq 0 k.
Proof. intros Hk. unfold homes. rewrite <- fmap_take, take_seq. by rewrite Nat.min_l. Qed.

Lemma install_trans_spec (s : lstate C) :
  let l := lg s in let c := bc s in
  log_ok l → cwf c → idle (cv c) →
  (∀ b, in_log l b ∨ b ∈ homes l → cv_ref (cv c) b ≠ 2 ^ 32 - 1) →
  (∀ k, (k < nlog l)%nat → room (dropped l k (cv c)) ∧
     (room (v_acq (laddr l k) (dropped l k (cv c))) ∨ cv_ref (cv c) (haddr l k) ≠ 0)) →
  ∃ c', run install_trans s () (s <| bc := c' |>) ∧ cwf c' ∧
    cv c' ≡ v_installs (home_ws l (cv_mem (cv c)) (nlog l)) (cv c).
Proof.
  intros l c Hok W Hidle Hmax Hroom.
  assert (∃ c', run (for_loop 0 (nlog l) (install_body l)) c () c' ∧
    (cwf c' ∧ cv c' ≡ v_installs (home_ws l (cv_mem (cv c)) (0 + nlog l)) (cv c))) as (c' & E & H).
  { apply (for_loop_inv (λ k c', cwf c' ∧ cv c' ≡ v_installs (home_ws l (cv_mem (cv c)) k) (cv c))); [done|].
    intros k c1 Hk [W1 V1]. assert (k < nlog l)%nat as Hk' by lia.
    pose proof V1 as V1'. rewrite v_installs_spec, home_ws_fst, <- take_homes in V1' by lia.
    destruct (laddr_in_log l k Hok Hk') as [Hl _]. pose proof (haddr_in l k Hk') as Hh.
    assert (∀ b, b ∉ take k (homes l) → cv_ref (cv c1) b = cv_ref (cv c) b) as Hsame.
    { intros b Hb. rewrite (equiv_ref _ _ V1'). by apply drops_notin. }
    assert (haddr l k ∉ take k (homes l)) as Hn.
    { rewrite take_homes by lia. intros (i & Ei & Hi%elem_of_seq)%list_elem_of_fmap.
      apply haddr_inj in Ei; [lia|done|lia|lia]. }
    assert (laddr l k ∉ take k (homes l)) as Hn'.
    { intros Hin. apply (homes_in_log l _ Hok Hl). by eapply subseteq_take. }
    destruct (Hroom k Hk') as [Hr1 Hr2].
    destruct (install_body_spec l k c1) as (c2 & E2 & W2 & V2);
      fold (laddr l k) (haddr l k) in *.
    - apply Hok.
    - by apply laddr_haddr.
    - done.
    - intros b. rewrite (equiv_busy _ _ V1'). apply Hidle.
    - eapply room_ref; [|exact Hr1]. intros b. by rewrite (equiv_ref _ _ V1').
    - rewrite Hsame by done. by apply Hmax; left.
    - rewrite Hsame by done. by apply Hmax; right.
    - rewrite Hsame by done. destruct Hr2 as [Hr2|Hr2]; [left|by right].
      eapply room_ref; [|exact Hr2]. intros b. cv_cbn. unfold fupd.
      by case_decide; rewrite (equiv_ref _ _ V1').
    - exists c2. split_and!; [done..|]. rewrite V2.
      rewrite (equiv_mem _ _ V1'). cbn [cv_mem].
      rewrite (replay_home_ws_out l _ k _ _ Hok); [|lia|by apply homes_in_log].
      rewrite V1, home_ws_S. unfold v_installs. by rewrite fold_left_app. }
  exists c'. split; [|exact H].
  unfold install_trans. rewrite (bind_Ret _ _ _ _ _ (run_gets lg s)). by apply run_lift.
Qed.

(** *** Commit *)

Definition cleared (l : log) : log := l <| lh_n := 0 |>.

(** The block writes of a commit, in order: the log, the header, the home
    blocks, the empty header. *)
Definition inst_ws (l : log) (mem : Z → block) : list (Z * block) :=
  (λ b, (b, mem b)) <$> homes l.
Definition commit_ws (l : log) (mem : Z → block) : list (Z * block) :=
  let h := put_head l (mem (lg_start l)) in
  log_ws l mem (nlog l) ++ [(lg_start l, h)] ++ inst_ws l mem ++ [(lg_start l, put_head (cleared l) h)].

Lemma home_ws_inst l f mem :
  (∀ i, (i < nlog l)%nat → f (laddr l i) = mem (haddr l i)) → home_ws l f (nlog l) = inst_ws l mem.
Proof.
  intros H. unfold home_ws, inst_ws, homes. rewrite <- list_fmap_compose.
  apply list_fmap_ext. intros j i Hi%lookup_seq. simpl. rewrite H by lia. by destruct Hi as [-> _].
Qed.

Lemma inst_ws_fst l mem : (inst_ws l mem).*1 = homes l.
Proof. unfold inst_ws. rewrite <- list_fmap_compose. apply list_fmap_id. Qed.

Lemma replay_inst_out l mem d b : b ∉ homes l → replay (inst_ws l mem) d b = d b.
Proof. intros H. apply replay_notin. by rewrite inst_ws_fst. Qed.

Lemma start_in_log l : log_ok l → in_log l (lg_start l).
Proof. intros [? ? ? ? ? ? ?]. unfold in_log. lia. Qed.

Lemma homes_length l : length (homes l) = nlog l.
Proof. unfold homes. by rewrite length_fmap, length_seq. Qed.

Lemma drops_zero bs r b : 0 ≤ r b < 2 ^ 32 → drops bs r b ≠ 0 → r b ≠ 0 ∨ b ∈ bs.
Proof. destruct (decide (b ∈ bs)) as [|Hb]; [by right|]. rewrite drops_notin by done. by left. Qed.

Lemma commit_spec (s : lstate C) :
  let l := lg s in let c := bc s in
  log_ok l → ready l c → 0 < lh_n l →
  ∃ c', run commit s () (LState (cleared l) c') ∧ cwf c' ∧
    cv c' ≡ v_drops (homes l) (v_writes (commit_ws l (cv_mem (cv c))) (cv c)).
Proof.
  destruct s as [l c]. cbn [lg bc]. cbv zeta. intros Hok Hrd Hn.
  unfold commit. rewrite (bind_Ret _ _ _ _ _ (run_gets lg _)). cbn [lg].
  destruct (Z.ltb_spec 0 (lh_n l)); [|lia].
  destruct (write_log_spec (LState l c) Hok Hrd) as (c1 & E1 & W1 & V1).
  destruct Hrd as [W Hidle Hroom Hlog Hhome]. pose proof (start_in_log l Hok) as Hs.
  cbn [lg bc] in V1. rewrite v_copies_writes in V1. step_with E1.
  destruct (write_head_spec (LState l c1)) as (c2 & E2 & W2 & V2); cbn [lg bc] in *.
  { apply Hok. } { destruct Hok as [? ? ? ? ? ? ?]. lia. } { done. }
  { intros b. rewrite (equiv_busy _ _ V1). apply Hidle. }
  { eapply room_ref; [|exact Hroom]. intros b. by rewrite (equiv_ref _ _ V1). }
  { rewrite (equiv_ref _ _ V1). by apply Hlog. }
  rewrite (equiv_mem _ _ V1), V1, v_copy_writes, v_writes_app in V2. cbn [v_writes cv_mem] in V2.
  rewrite (replay_log_ws_out l _ _ _ _ Hok) in V2 by (try lia; by right).
  step_with E2.
  destruct (install_trans_spec (LState l c2)) as (c3 & E3 & W3 & V3); cbn [lg bc] in *; [done|done|..].
  { intros b. rewrite (equiv_busy _ _ V2). apply Hidle. }
  { intros b Hb. rewrite (equiv_ref _ _ V2). cbn [v_writes cv_ref]. destruct Hb as [Hb|Hb]; [by apply Hlog|by apply Hhome]. }
  { intros k Hk. split.
    - eapply room_ref; [|exact Hroom]. intros b. cbn [dropped v_drops cv_ref]. intros Hb.
      apply drops_zero in Hb; [|rewrite (equiv_ref _ _ V2); by apply cv_ref_range].
      rewrite (equiv_ref _ _ V2) in Hb. destruct Hb as [Hb|Hb]; [done|].
      apply Hhome. by eapply subseteq_take.
    - right. rewrite (equiv_ref _ _ V2). by apply Hhome, haddr_in. }
  step_with E3.
  rewrite (home_ws_inst l _ (cv_mem (cv c))) in V3.
  2:{ intros i Hi. rewrite (equiv_mem _ _ V2). cbn [v_writes cv_mem]. rewrite replay_app.
      destruct (laddr_in_log l i Hok Hi). unfold replay at 1. simpl. rewrite fupd_ne by done.
      by apply replay_log_ws_in. }
  rewrite v_installs_writes, inst_ws_fst, V2, v_writes_app, <- app_assoc in V3.
  rewrite (bind_Ret clear_lh_n _ _ () (LState (cleared l) c3)) by done.
  destruct (write_head_spec (LState (cleared l) c3)) as (c4 & E4 & W4 & V4); cbn [lg bc] in *.
  { apply Hok. } { destruct Hok as [? ? ? ? ? ? ?]. simpl. lia. } { done. }
  { intros b. rewrite (equiv_busy _ _ V3). apply Hidle. }
  { eapply room_ref; [|exact Hroom]. intros b. rewrite (equiv_ref _ _ V3). cbn [v_drops v_writes cv_ref]. intros Hb.
    apply drops_zero in Hb; [|by apply cv_ref_range]. destruct Hb; [done|by apply Hhome]. }
  { rewrite (equiv_ref _ _ V3). cbn [v_drops v_writes cv_ref]. rewrite drops_notin by (by apply homes_in_log).
    by apply Hlog. }
  exists c4. split; [exact E4|]. split; [done|].
  rewrite V4, (equiv_mem _ _ V3), V3, v_copy_writes, v_writes_drops, v_writes_app.
  cbn [v_drops v_writes cv_mem]. change (lg_start (cleared l)) with (lg_start l).
  rewrite app_assoc, replay_app, replay_inst_out by (by apply homes_in_log).
  rewrite replay_app. unfold replay at 1. simpl fold_left. rewrite fupd_eq.
  unfold commit_ws. by rewrite <- !app_assoc.
Qed.

(** *** The header on disk *)

Lemma put_blocks_out i bs d j : (j ≤ i)%nat → ld32 j (put_blocks i bs d) = ld32 j d.
Proof.
  revert i d. induction bs as [|b bs IH]; intros i d Hj; simpl; [done|].
  rewrite IH by lia. apply ld32_st32_ne. lia.
Qed.

Lemma put_blocks_in i bs d j b :
  (4 * (S i + length bs) ≤ length d)%nat → bs !! j = Some b →
  ld32 (S (i + j)) (put_blocks i bs d) = u32 b.
Proof.
  revert i d j. induction bs as [|b' bs IH]; intros i d j Hlen Hj; [done|].
  simpl in Hlen |- *. destruct j as [|j]; simpl in Hj; simplify_eq.
  - rewrite Nat.add_0_r, put_blocks_out by lia. apply ld32_st32_eq. lia.
  - replace (i + S j)%nat with (S i + j)%nat by lia. apply IH; [|done]. rewrite length_st32. lia.
Qed.

Lemma lblock_lookup l i : log_ok l → (i < nlog l)%nat → lh_block l !! i = Some (lblock l i).
Proof.
  intros [? Hn Hlen ? ? ? ?] Hi. unfold lblock, nlog in *.
  destruct (lh_block l !! i) eqn:E; [done|]. apply lookup_ge_None in E.
  unfold LOGSIZE, MAXOPBLOCKS in *. lia.
Qed.

(** [read_head] reads back what [write_head] wrote. *)
Lemma head_put_head l d :
  log_ok l → length d = BSIZE →
  head_n (put_head l d) = lh_n l ∧
  ∀ i, (i < nlog l)%nat → head_block (put_head l d) i = lblock l i.
Proof.
  intros Hok Hd. pose proof Hok as [? Hn Hlen ? Hb ? ?].
  assert (LOGSIZE = 30) as HL by done. assert (BSIZE = 1024%nat) as HB by done.
  unfold head_n, head_block, put_head. split.
  - rewrite put_blocks_out, ld32_st32_eq by lia. apply i32_u32. lia.
  - intros i Hi. pose proof (lblock_lookup l i Hok Hi) as E.
    rewrite (put_blocks_in 0 _ _ i (lblock l i)).
    + apply i32_u32. by apply (Forall_lookup_1 _ _ _ _ Hb E).
    + rewrite length_take, length_st32. unfold nlog in Hi. lia.
    + by rewrite lookup_take_lt.
Qed.

Lemma head_cleared l d : length d = BSIZE → head_n (put_head (cleared l) d) = 0.
Proof. intros Hd. assert (BSIZE = 1024%nat) as HB by done.
  unfold head_n, put_head. rewrite put_blocks_out, ld32_st32_eq by lia. done. Qed.

(** The in-memory log that [read_head] builds from the disk [d]. *)
Fixpoint read_blocks (n i : nat) (h : block) (bs : list Z) : list Z :=
  match n with
  | O => bs
  | S n' => read_blocks n' (i + 1) h (<[i := head_block h i]> bs)
  end.
Definition log_of (l : log) (d : Z → block) : log :=
  let h := d (lg_start l) in
  l <| lh_n := head_n h |> <| lh_block := read_blocks (Z.to_nat (head_n h)) 0 h (lh_block l) |>.

Lemma read_blocks_length n i h bs : length (read_blocks n i h bs) = length bs.
Proof. revert i bs. induction n as [|n IH]; intros i bs; simpl; [done|]. by rewrite IH, length_insert. Qed.

Lemma read_blocks_out n i h bs j : (j < i)%nat → read_blocks n i h bs !! j = bs !! j.
Proof.
  revert i bs. induction n as [|n IH]; intros i bs Hj; simpl; [done|].
  rewrite IH by lia. apply list_lookup_insert_ne. lia.
Qed.

Lemma read_blocks_in n i h bs j :
  (i ≤ j < i + n)%nat → (j < length bs)%nat → read_blocks n i h bs !! j = Some (head_block h j).
Proof.
  revert i bs. induction n as [|n IH]; intros i bs Hj Hlen; simpl; [lia|].
  destruct (decide (i = j)) as [->|].
  - rewrite read_blocks_out by lia. by apply list_lookup_insert_eq.
  - apply IH; [lia|]. by rewrite length_insert.
Qed.

Lemma read_blocks_Forall P n i h bs :
  (∀ j, P (head_block h j)) → Forall P bs → Forall P (read_blocks n i h bs).
Proof. intros HP. revert i bs. induction n as [|n IH]; intros i bs Hbs; simpl; [done|]. apply IH. by apply Forall_insert. Qed.

Lemma run_read_blocks (h : block) n i (s : lstate C) :
  run (for_loop i n (λ i, modify (λ s, s <| lg ::= λ l, l <| lh_block ::= <[i := head_block h i]> |> |>))) s ()
      (s <| lg ::= λ l, l <| lh_block ::= read_blocks n i h |> |>).
Proof.
  revert i s. induction n as [|n IH]; intros i s; simpl for_loop; [by destruct s as [[] ?]|].
  rewrite (bind_Ret _ _ _ _ _ (run_modify _ s)). cbn beta. by rewrite IH.
Qed.

Lemma read_head_spec (s : lstate C) :
  let l := lg s in let c := bc s in
  lg_dev l = dv → 0 ≤ lg_start l < 2 ^ 32 → cwf c → idle (cv c) → room (cv c) →
  cv_ref (cv c) (lg_start l) ≠ 2 ^ 32 - 1 →
  (cv_ref (cv c) (lg_start l) = 0 → cv_mem (cv c) (lg_start l) = cv_disk (cv c) (lg_start l)) →
  ∃ c', run read_head s () (LState (log_of l (cv_mem (cv c))) c') ∧ cwf c' ∧ cv c' ≡ cv c.
Proof.
  destruct s as [l c]. cbn [lg bc]. cbv zeta. intros Hdev Hst W Hidle Hroom Href Hclean. unfold read_head.
  rewrite (bind_Ret _ _ _ _ _ (run_gets lg _)). cbn [lg]. rewrite Hdev, u32_small by done.
  pose proof (cv_ref_range c (lg_start l) W) as R.
  destruct (bread_spec c (lg_start l)) as (h & c1 & E1 & W1 & V1 & H1 & _);
    [done|by apply idle_quiet|done|apply Hidle|done|by left|].
  rewrite (bind_Ret _ _ _ _ _ (run_lift _ (LState l c) _ _ E1)).
  rewrite (bind_Ret _ _ _ _ _ (run_lift _ (LState l c1) _ _ (run_gets (buf_data h) c1))).
  rewrite (holds_data c1 h (lg_start l) W1 H1).
  assert (cv_mem (cv c1) (lg_start l) = cv_mem (cv c) (lg_start l)) as -> by (by cv_read).
  rewrite (bind_Ret _ _ _ _ _ (run_modify _ (LState l c1))). cbn beta.
  rewrite (bind_Ret _ _ _ _ _ (run_read_blocks _ _ _ _)).
  destruct (brelse_spec c1 h (lg_start l) W1 H1) as (c2 & E2 & W2 & V2 & _).
  { cv_read. rewrite u32_succ_ne_0 by lia. intros. apply Hclean. lia. }
  exists c2. split; [|split; [done|]].
  - exact (run_lift _ (LState (log_of l (cv_mem (cv c))) c1) _ _ E2).
  - rewrite V2, V1. repeat split; cv_cbn; intros; unfold fupd; repeat case_decide; subst; try done.
    all: by rewrite ?u32_succ_pred, ?Hidle.
Qed.

(** *** Recovery *)

Definition recover_ws (l : log) (d : Z → block) : list (Z * block) :=
  home_ws l d (nlog l) ++ [(lg_start l, put_head (cleared l) (d (lg_start l)))].

(** A cache just initialised over the disk [d]. *)
Definition booted (d : Z → block) (c : C) : Prop :=
  cwf c ∧ cv c ≡ CView d d (λ _, 0) (λ _, false) [].

Lemma zero_room k (bs : list Z) v :
  (∀ b, cv_ref v b ≠ 0 → b ∈ bs) → (length bs ≤ k)%nat → Z.of_nat k < NBUF → room v.
Proof.
  intros H Hlen Hk bs' Hnd Hall. enough (length bs' ≤ length bs)%nat by lia.
  apply submseteq_length, NoDup_submseteq; [done|]. intros b Hb. apply H. by eapply Forall_forall in Hall.
Qed.

Lemma recover_spec (s : lstate C) d :
  let l := log_of (lg s) d in
  log_ok l → lh_n l < NBUF → booted d (bc s) →
  ∃ c', run recover_from_log s () (LState (cleared l) c') ∧ cwf c' ∧
    cv c' ≡ v_drops (homes l) (v_writes (recover_ws l d) (cv (bc s))).
Proof.
  destruct s as [l0 c]. cbn [lg bc]. set (l := log_of l0 d). cbv zeta. intros Hok Hn [W V].
  assert (lg_start l0 = lg_start l) as Hst by done. pose proof (start_in_log l Hok) as Hs.
  assert (∀ b, cv_ref (cv c) b = 0) as Hz by (intros b; by rewrite (equiv_ref _ _ V)).
  assert (∀ b, cv_mem (cv c) b = d b) as Hm by (intros b; by rewrite (equiv_mem _ _ V)).
  assert (room (cv c)) as Hroom.
  { apply (zero_room 0 []); [|done|done]. intros b Hb. by destruct Hb. }
  unfold recover_from_log.
  destruct (read_head_spec (LState l0 c)) as (c1 & E1 & W1 & V1); cbn [lg bc] in *.
  { apply (lo_dev l Hok). } { destruct Hok as [? ? ? ? ? ? ?]. lia. } { done. }
  { intros b. by rewrite (equiv_busy _ _ V). } { done. } { by rewrite Hz. }
  { intros _. by rewrite (equiv_mem _ _ V), (equiv_disk _ _ V). }
  assert (log_of l0 (cv_mem (cv c)) = l) as Hl by (unfold l, log_of; by rewrite Hm).
  rewrite Hl in E1. step_with E1.
  assert (∀ k, (k ≤ nlog l)%nat → ∀ b, cv_ref (dropped l k (cv c1)) b ≠ 0 → b ∈ take k (homes l)) as Hdrop.
  { intros k Hk b Hb. apply drops_zero in Hb; rewrite (equiv_ref _ _ V1), Hz in *; [|done]. by destruct Hb. }
  assert (∀ k, length (take k (homes l)) ≤ k)%nat as Hlen by (intros k; rewrite length_take; lia).
  destruct (install_trans_spec (LState l c1)) as (c2 & E2 & W2 & V2); cbn [lg bc] in *; [done|done|..].
  { intros b. by rewrite (equiv_busy _ _ V1), (equiv_busy _ _ V). }
  { intros b _. by rewrite (equiv_ref _ _ V1), Hz. }
  { intros k Hk. unfold nlog in Hk. split; [eapply (zero_room k); [apply Hdrop; unfold nlog; lia|apply Hlen|lia]|].
    left. eapply (zero_room (S k) (laddr l k :: take k (homes l))); [|simpl; specialize (Hlen k); lia|lia].
    intros b. cv_cbn. unfold fupd. case_decide; [intros _; subst; by left|].
    intros Hb. right. by apply Hdrop; [unfold nlog; lia|]. }
  assert (home_ws l (cv_mem (cv c1)) (nlog l) = home_ws l d (nlog l)) as Hws.
  { apply list_fmap_ext. intros ? i _. by rewrite (equiv_mem _ _ V1), Hm. }
  rewrite Hws, v_installs_writes, home_ws_fst, V1 in V2. fold (homes l) in V2. step_with E2.
  rewrite (bind_Ret clear_lh_n _ _ () (LState (cleared l) c2)) by done.
  destruct (write_head_spec (LState (cleared l) c2)) as (c3 & E3 & W3 & V3); cbn [lg bc] in *.
  { apply Hok. } { destruct Hok as [? ? ? ? ? ? ?]. simpl. lia. } { done. }
  { intros b. rewrite (equiv_busy _ _ V2). apply (equiv_busy _ _ V). }
  { eapply (zero_room (nlog l) (homes l)); [|by rewrite homes_length|unfold nlog; pose proof (lo_n l Hok); lia].
    intros b. rewrite (equiv_ref _ _ V2). intros Hb. cbn [v_drops v_writes cv_ref] in Hb.
    apply drops_zero in Hb; rewrite Hz in *; [|done]. by destruct Hb. }
  { rewrite (equiv_ref _ _ V2). cbn [v_drops v_writes cv_ref].
    rewrite drops_notin by (by apply homes_in_log). by rewrite Hz. }
  exists c3. split; [exact E3|]. split; [done|].
  rewrite V3, (equiv_mem _ _ V2), V2, v_copy_writes, v_writes_drops, v_writes_app.
  cbn [v_drops v_writes cv_mem]. change (lg_start (cleared l)) with (lg_start l).
  rewrite (replay_home_ws_out l _ _ _ _ Hok) by (try done; by apply homes_in_log).
  by rewrite Hm.
Qed.
(** *** log_write *)

Lemma homes_alt l : log_ok l → homes l = u32 <$> take (nlog l) (lh_block l).
Proof.
  intros Hok. apply list_eq. intros i. unfold homes. rewrite !list_lookup_fmap.
  destruct (decide (i < nlog l)%nat) as [Hi|Hi].
  - rewrite lookup_seq_lt, lookup_take_lt, (lblock_lookup l i Hok Hi) by done. done.
  - rewrite lookup_seq_ge, lookup_take_ge by lia. done.
Qed.

Lemma log_slot_spec l b :
  log_ok l →
  (∃ i, (i < nlog l)%nat ∧ log_slot l b = i ∧ haddr l i = b) ∨ (log_slot l b = nlog l ∧ b ∉ homes l).
Proof.
  intros Hok. unfold log_slot. destruct (findi _ _) as [i|] eqn:E.
  - left. exists i. apply findi_lookup in E as (x & Hx & Hp). apply lookup_take_Some in Hx as [Hx Hi].
    split; [done|]. split; [done|]. unfold haddr, lblock. rewrite Hx. simpl in *. lia.
  - right. split; [done|]. rewrite homes_alt by done. intros (x & -> & Hx)%list_elem_of_fmap.
    apply list_elem_of_lookup in Hx as [i Hx]. rewrite findi_None in E. specialize (E i x Hx). simpl in E. lia.
Qed.

Lemma homes_append l b :
  log_ok l → lh_n l < LOGSIZE → 0 ≤ b < 2 ^ 31 →
  homes (l <| lh_block ::= <[nlog l := b]> |> <| lh_n := lh_n l + 1 |>) = homes l ++ [b].
Proof.
  intros Hok Hn Hb. pose proof (lo_n l Hok). pose proof (lo_len l Hok). unfold homes, nlog. cbn.
  replace (Z.to_nat (lh_n l + 1)) with (Z.to_nat (lh_n l) + 1)%nat by lia.
  rewrite seq_app, fmap_app. f_equal.
  - apply list_fmap_ext. intros ? i Hi%lookup_seq. unfold haddr, lblock. cbn.
    rewrite list_lookup_insert_ne by lia. done.
  - cbn. unfold haddr, lblock. cbn. rewrite list_lookup_insert_eq by lia. cbn. by rewrite u32_small by lia.
Qed.

Lemma log_write_spec (s : lstate C) h b :
  let l := lg s in let c := bc s in
  log_ok l → cwf c → holds c h b → ¬ in_log l b → 0 ≤ b < 2 ^ 31 → cv_ref (cv c) b ≠ 2 ^ 32 - 1 →
  lh_n l < LOGSIZE → lh_n l + 1 < lg_size l → 0 < lg_outstanding l →
  ∃ s', run (log_write h) s () s' ∧ log_ok (lg s') ∧
    (b ∈ homes l → s' = s) ∧
    (b ∉ homes l → homes (lg s') = homes l ++ [b] ∧ cwf (bc s') ∧ cv (bc s') ≡ v_pin b (cv c)) ∧
    ∀ h' b', holds c h' b' → holds (bc s') h' b'.
Proof.
  destruct s as [l c]. cbn [lg bc]. cbv zeta. intros Hok W Hh Hb Hrng Href Hn Hsz Hout.
  unfold log_write. rewrite (bind_Ret _ _ _ _ _ (run_get _)). cbv zeta. cbn [lg bc].
  destruct (Z.leb_spec LOGSIZE (lh_n l)); [lia|]. destruct (Z.leb_spec (lg_size l - 1) (lh_n l)); [lia|].
  cbn [orb]. destruct (Z.ltb_spec (lg_outstanding l) 1); [lia|].
  rewrite (holds_blockno c h b W Hh). rewrite (i32_small b) by lia.
  rewrite (bind_Ret _ _ _ _ _ (run_modify _ _)). fold (nlog l).
  destruct (log_slot_spec l b Hok) as [(i & Hi & -> & Ei)|[-> Hnew]].
  - rewrite decide_False by lia.
    assert (<[i := b]> (lh_block l) = lh_block l) as El.
    { apply list_insert_id. rewrite (lblock_lookup l i Hok Hi). f_equal.
      pose proof (Forall_lookup_1 _ _ _ _ (lo_blocks l Hok) (lblock_lookup l i Hok Hi)) as Hr. simpl in Hr.
      rewrite <- Ei in Hrng |- *. unfold haddr in *. rewrite <- (i32_u32 (lblock l i)) at 1 by done.
      apply i32_small. lia. }
    eexists. split; [done|]. cbn. rewrite El. destruct l; cbn in *. split; [done|]. split; [done|].
    split; [|done]. intros Hno. destruct Hno. rewrite <- Ei. by apply haddr_in.
  - rewrite decide_True by done.
    destruct (bpin_spec c h b W Hh Href) as (c' & Ep & W' & V' & K').
    set (l1 := l <| lh_block ::= <[nlog l := b]> |>).
    rewrite (bind_Ret _ _ _ _ _ (run_lift _ (LState l1 c) _ _ Ep)).
    eexists. split; [done|]. cbn [lg bc update field_set].
    pose proof (homes_append l b Hok Hn Hrng) as Ha. cbn in Ha |- *.
    split; [|split; [intros Hin; by destruct Hnew|by rewrite Ha]].
    destruct Hok as [? [? ?] ? ? ? Hnd Hho]. split; cbn; try done.
    + lia.
    + by rewrite length_insert.
    + apply Forall_insert; [done|]. lia.
    + rewrite Ha. apply NoDup_app. split; [done|]. split; [|apply NoDup_singleton].
      intros x Hx ->%list_elem_of_singleton. done.
    + intros x. rewrite Ha. intros [Hx|Hx%list_elem_of_singleton]%elem_of_app; [by apply Hho|].
      subst. unfold in_log in Hb. lia.
Qed.
End proofs.

(** ** Transactions and the space they reserve *)

Section transactions.
Context {C : Type} `{!BufCache C}.

(** Code that may use the cache but leaves [struct log] alone. *)
Definition keeps_lg {A : Type} (m : ST (lstate C) A) : Prop :=
  ∀ s a s', run m s a s' → lg s' = lg s.

Lemma keeps_lift {A : Type} (m : ST C A) : keeps_lg (lift m).
Proof. intros s a s'. unfold lift. destruct (m (bc s)) as [[x c]| |]; [|done..]. by intros [= -> <-]. Qed.

Lemma keeps_gets {A : Type} (f : lstate C → A) : keeps_lg (gets f).
Proof. intros s a s' H. by injection H as _ <-. Qed.

Lemma keeps_bind {A B : Type} (m : ST (lstate C) A) (k : A → ST (lstate C) B) :
  keeps_lg m → (∀ a, keeps_lg (k a)) → keeps_lg (m ≫= k).
Proof. intros Hm Hk s b s2 (a & s1 & E1 & E2)%bind_Ret_inv. apply Hk in E2. apply Hm in E1. congruence. Qed.

Lemma keeps_write_log : keeps_lg write_log.
Proof. apply keeps_bind; [apply keeps_gets|intros l; apply keeps_lift]. Qed.
Lemma keeps_install_trans : keeps_lg install_trans.
Proof. apply keeps_bind; [apply keeps_gets|intros l; apply keeps_lift]. Qed.
Lemma keeps_write_head : keeps_lg write_head.
Proof.
  apply keeps_bind; [apply keeps_gets|intros l]. apply keeps_bind; [apply keeps_lift|intros b].
  repeat (apply keeps_bind; [apply keeps_lift|intros _]). apply keeps_lift.
Qed.

(** After a commit the in-memory header is empty. *)
Lemma commit_lg s s' :
  run commit s () s' → lg s' = if 0 <? lh_n (lg s) then (lg s) <| lh_n := 0 |> else lg s.
Proof.
  unfold commit. rewrite (bind_Ret _ _ _ _ _ (run_gets lg s)). destruct (0 <? lh_n (lg s)); [|by intros [= <-]].
  intros ([] & s1 & E1%keeps_write_log & H)%bind_Ret_inv.
  apply bind_Ret_inv in H as ([] & s2 & E2%keeps_write_head & H).
  apply bind_Ret_inv in H as ([] & s3 & E3%keeps_install_trans & H).
  apply bind_Ret_inv in H as ([] & s4 & [= <-] & E5%keeps_write_head).
  rewrite E5. cbn. congruence.
Qed.

(** The system calls that are inside a transaction, with the number of blocks
    each may still write, interleaved in any order. *)
Inductive tx_step : lstate C * list nat → lstate C * list nat → Prop :=
| tx_begin s s' ops :
    run begin_op s () s' → tx_step (s, ops) (s', Z.to_nat MAXOPBLOCKS :: ops)
| tx_write s s' ops i b h :
    ops !! i = Some (S b) → run (log_write h) s () s' → tx_step (s, ops) (s', <[i := b]> ops)
| tx_end s s' ops i :
    is_Some (ops !! i) → run end_op s () s' → tx_step (s, ops) (s', delete i ops)
| tx_cache s c' ops : tx_step (s, ops) (s <| bc := c' |>, ops).

(** What the reservation keeps true: enough free slots for every block the
    running calls may still write. *)
Record tx_ok (size : Z) (s : lstate C) (ops : list nat) : Prop := {
  tx_size : lg_size (lg s) = size;
  tx_out : lg_outstanding (lg s) = Z.of_nat (length ops);
  tx_idle : lg_committing (lg s) = false;
  tx_n : 0 ≤ lh_n (lg s);
  tx_free : lh_n (lg s) + Z.of_nat (sum_list ops) ≤ LOGSIZE;
  tx_max : Forall (λ b, Z.of_nat b ≤ MAXOPBLOCKS) ops;
}.

Lemma sum_list_insert i b (ops : list nat) :
  ops !! i = Some (S b) → sum_list ops = S (sum_list (<[i := b]> ops)).
Proof.
  revert i. induction ops as [|o ops IH]; intros [|i] H; simpl in *; simplify_eq; [done|].
  rewrite (IH i H). lia.
Qed.

Lemma sum_list_delete i (ops : list nat) : (sum_list (delete i ops) ≤ sum_list ops)%nat.
Proof. revert i. induction ops as [|o ops IH]; intros [|i]; simpl; [done..|lia|]. specialize (IH i). lia. Qed.

Lemma sum_list_max ops :
  Forall (λ b, Z.of_nat b ≤ MAXOPBLOCKS) ops → Z.of_nat (sum_list ops) ≤ Z.of_nat (length ops) * MAXOPBLOCKS.
Proof. induction 1 as [|o ops Ho Hops IH]; simpl; [done|]. unfold MAXOPBLOCKS in *. lia. Qed.

(** The slot [log_write] picks is at most one past the logged blocks. *)
Lemma log_slot_le l b : (log_slot l b ≤ nlog l)%nat.
Proof.
  unfold log_slot, nlog. destruct (findi _ _) as [i|] eqn:E; [|done]. apply findi_lt in E.
  rewrite length_take in E. simpl. lia.
Qed.

Lemma log_write_lg h s s' :
  run (log_write h) s () s' →
  ∃ i, lg s' = (lg s) <| lh_block ::= <[i := i32 (buf_blockno h (bc s))]> |>
                      <| lh_n := if decide (i = nlog (lg s)) then lh_n (lg s) + 1 else lh_n (lg s) |>.
Proof.
  unfold log_write. rewrite (bind_Ret _ _ _ _ _ (run_get s)). cbv zeta.
  destruct (_ || _); [done|]. destruct (_ <? 1); [done|].
  set (i := log_slot _ _). rewrite (bind_Ret _ _ _ _ _ (run_modify _ s)). intros H. exists i. revert H.
  fold (nlog (lg s)). destruct (decide (i = nlog (lg s))).
  - intros ([] & s1 & E1%keeps_lift & [= <-])%bind_Ret_inv. cbn in *. by rewrite E1.
  - intros [= <-]. by destruct s as [[] ?].
Qed.

Lemma tx_step_ok size s ops s' ops' :
  tx_ok size s ops → tx_step (s, ops) (s', ops') → tx_ok size s' ops'.
Proof.
  intros [Hz Ho Hi Hn Hf Hm] H. inversion H; subst.
  - rename select (run begin_op _ _ _) into E. unfold begin_op in E.
    rewrite (bind_Ret _ _ _ _ _ (run_gets lg s)), Hi in E.
    destruct (Z.ltb_spec LOGSIZE (lh_n (lg s) + (lg_outstanding (lg s) + 1) * MAXOPBLOCKS)); [done|].
    injection E as <-. pose proof (sum_list_max ops Hm). split; cbn; try done.
    + lia.
    + cbn in *. unfold MAXOPBLOCKS in *. lia.
    + by constructor.
  - rename select (run (log_write _) _ _ _) into E. rename select (ops !! _ = _) into Hops.
    pose proof (Forall_lookup_1 _ _ _ _ Hm Hops). pose proof (sum_list_insert i b ops Hops).
    apply log_write_lg in E as (k & E). split; rewrite ?E; cbn; try done.
    + by rewrite length_insert.
    + case_decide; lia.
    + case_decide; lia.
    + apply Forall_insert; [done|]. cbn in *. lia.
  - rename select (run end_op _ _ _) into E. unfold end_op in E.
    rewrite (bind_Ret _ _ _ _ _ (run_modify _ s)) in E. cbn beta in E.
    rewrite (bind_Ret _ _ _ _ _ (run_gets lg _)) in E. cbn in E. rewrite Hi in E.
    pose proof (sum_list_delete i ops). rename select (is_Some _) into His.
    assert (length (delete i ops) = length ops - 1)%nat as Hlen by (destruct His; by eapply length_delete).
    apply lookup_lt_is_Some in His. pose proof (Forall_delete _ _ i Hm).
    destruct (lg_outstanding (lg s) - 1 =? 0).
    + apply bind_Ret_inv in E as ([] & s1 & [= <-] & E). apply bind_Ret_inv in E as ([] & s2 & E2%commit_lg & [= <-]).
      cbn in E2. split; cbn; rewrite ?E2; destruct (Z.ltb_spec 0 (lh_n (lg s))); cbn; try done; lia.
    + injection E as <-. split; cbn; try done; lia.
  - by split.
Qed.
End transactions.

(** C15. The space [begin_op] reserves suffices: when the log area holds more
    than [LOGSIZE] blocks, no interleaving of [begin_op], [end_op] and up to
    [MAXOPBLOCKS] [log_write]s per call reaches a state in which a call that
    still has blocks left makes [log_write] panic. *)
Theorem log_reservation_suffices (s0 s : lstate bcache) ops i b h :
  lg_outstanding (lg s0) = 0 → lg_committing (lg s0) = false → lh_n (lg s0) = 0 →
  LOGSIZE < lg_size (lg s0) →
  rtc tx_step (s0, []) (s, ops) → ops !! i = Some (S b) →
  ∃ s', run (log_write h) s () s'.
Proof.
  intros H1 H2 H3 Hsize Hr Hi.
  assert (tx_ok (lg_size (lg s0)) s ops) as [Hz Ho _ Hn Hf _].
  { assert (∀ x y, rtc (tx_step (C := bcache)) x y → tx_ok (lg_size (lg s0)) x.1 x.2 → tx_ok (lg_size (lg s0)) y.1 y.2) as Hinv.
    { induction 1 as [|x y z Hxy _ IH]; [done|]. intros Hx. apply IH. destruct x, y. by eapply tx_step_ok. }
    apply (Hinv _ _ Hr). split; cbn; try done; unfold LOGSIZE, MAXOPBLOCKS in *; lia. }
  pose proof (sum_list_insert _ _ _ Hi). pose proof (lookup_lt_Some _ _ _ Hi).
  unfold log_write. rewrite (bind_Ret _ _ _ _ _ (run_get s)). cbv zeta.
  destruct (Z.leb_spec LOGSIZE (lh_n (lg s))); [lia|]. destruct (Z.leb_spec (lg_size (lg s) - 1) (lh_n (lg s))); [lia|].
  cbn [orb]. destruct (Z.ltb_spec (lg_outstanding (lg s)) 1); [lia|].
  rewrite (bind_Ret _ _ _ _ _ (run_modify _ s)). case_decide; [|by eexists].
  cbn. by eexists.
Qed.
