(* ===== verification/Crash.v ===== *)
(** * Crash safety of the log over the buffer cache

    A crash stops the kernel after some number of the block writes it issued;
    the device keeps exactly those, the memory is lost, and the next boot runs
    [binit] and [initlog] over what the device holds (and may itself be cut
    short).  [recovered] is the disk a complete recovery would produce; the
    lemmas show that no prefix of a commit's or a recovery's writes can change
    it except at the single header write of the commit. *)

From stdpp Require Import gmap.
From S2P Require Import Prelude Bytes BufCache Bio Log.

(** ** The disk a recovery produces *)

Section pure.
Context (dv : Z).
Implicit Types (l : log) (d mem : Z → block).
Abbreviation log_ok := (log_ok dv).

Definition recovered (l : log) (d : Z → block) : Z → block :=
  let l' := log_of l d in replay (home_ws l' d (nlog l')) d.

Lemma log_of_ext l d d' : (∀ b, d b = d' b) → log_of l d = log_of l d'.
Proof. intros H. unfold log_of. by rewrite H. Qed.

Lemma recovered_ext l d d' b : (∀ b, d b = d' b) → recovered l d b = recovered l d' b.
Proof.
  intros H. unfold recovered. rewrite (log_of_ext l d d' H). unfold home_ws.
  erewrite list_fmap_ext; [by apply replay_ext|]. intros i x _. simpl. by rewrite H.
Qed.

(** Two in-memory logs that describe the same transaction. *)
Record same_log (l l' : log) : Prop := {
  sl_start : lg_start l' = lg_start l;
  sl_size : lg_size l' = lg_size l;
  sl_dev : lg_dev l' = lg_dev l;
  sl_n : lh_n l' = lh_n l;
  sl_block : ∀ i, (i < nlog l)%nat → lblock l' i = lblock l i;
}.

(** The log as [initlog] sets it up before it reads the header. *)
Record geometry (l0 l : log) : Prop := {
  ge_start : lg_start l0 = lg_start l;
  ge_size : lg_size l0 = lg_size l;
  ge_dev : lg_dev l0 = lg_dev l;
  ge_len : length (lh_block l0) = Z.to_nat LOGSIZE;
  ge_blocks : Forall (λ b, - 2 ^ 31 ≤ b < 2 ^ 31) (lh_block l0);
}.

Lemma same_haddr l l' i : same_log l l' → (i < nlog l)%nat → haddr l' i = haddr l i.
Proof. intros H Hi. unfold haddr. by rewrite (sl_block _ _ H). Qed.
Lemma same_laddr l l' i : same_log l l' → laddr l' i = laddr l i.
Proof. intros H. unfold laddr. by rewrite (sl_start _ _ H). Qed.
Lemma same_nlog l l' : same_log l l' → nlog l' = nlog l.
Proof. intros H. unfold nlog. by rewrite (sl_n _ _ H). Qed.

Lemma same_homes l l' : same_log l l' → homes l' = homes l.
Proof.
  intros H. unfold homes. rewrite (same_nlog _ _ H). apply list_fmap_ext.
  intros j i Hi%lookup_seq. apply same_haddr; [done|lia].
Qed.

Lemma same_home_ws l l' f : same_log l l' → home_ws l' f (nlog l') = home_ws l f (nlog l).
Proof.
  intros H. unfold home_ws. rewrite (same_nlog _ _ H). apply list_fmap_ext.
  intros j i Hi%lookup_seq. rewrite (same_haddr _ _ _ H) by lia. by rewrite (same_laddr _ _ _ H).
Qed.

Lemma same_ok l l' :
  log_ok l → same_log l l' → length (lh_block l') = Z.to_nat LOGSIZE →
  Forall (λ b, - 2 ^ 31 ≤ b < 2 ^ 31) (lh_block l') → log_ok l'.
Proof.
  intros [? ? ? ? ? ? ?] H Hlen Hb. pose proof (same_homes _ _ H) as Hh. destruct H as [Es Ez Ed En _].
  split; rewrite ?Es, ?Ez, ?Ed, ?En, ?Hh; done.
Qed.

Lemma log_of_blocks l0 d :
  length (lh_block l0) = Z.to_nat LOGSIZE → Forall (λ b, - 2 ^ 31 ≤ b < 2 ^ 31) (lh_block l0) →
  length (lh_block (log_of l0 d)) = Z.to_nat LOGSIZE ∧
  Forall (λ b, - 2 ^ 31 ≤ b < 2 ^ 31) (lh_block (log_of l0 d)).
Proof.
  intros Hlen Hb. split; [simpl; by rewrite read_blocks_length|].
  apply read_blocks_Forall; [|done]. intros j. apply i32_range.
Qed.

(** The header that [write_head] wrote is read back as the same transaction. *)
Lemma log_of_committed l0 l d hd :
  log_ok l → geometry l0 l → length hd = BSIZE → d (lg_start l) = put_head l hd →
  same_log l (log_of l0 d) ∧ log_ok (log_of l0 d).
Proof.
  intros Hok [Gs Gz Gd Gl Gb] Hhd Hd.
  destruct (head_put_head dv l hd Hok Hhd) as [Hn Hb]. rewrite <- Hd in Hn, Hb.
  assert (same_log l (log_of l0 d)) as Hsame.
  { split; simpl; rewrite ?Gs; try done. intros i Hi. unfold lblock. simpl.
    rewrite Gs, read_blocks_in; [by apply Hb|unfold nlog in Hi; rewrite Hn; lia|].
    rewrite Gl. pose proof (lo_n dv l Hok). unfold nlog in Hi. lia. }
  split; [done|]. destruct (log_of_blocks l0 d Gl Gb). by apply (same_ok l).
Qed.

(** An empty header: nothing to install. *)
Lemma log_of_empty l0 l d :
  log_ok l → geometry l0 l → head_n (d (lg_start l)) = 0 →
  log_ok (log_of l0 d) ∧ ∀ b, recovered l0 d b = d b.
Proof.
  intros [? ? ? ? ? ? ?] [Gs Gz Gd Gl Gb] Hz. rewrite <- Gs in Hz.
  assert (homes (log_of l0 d) = []) as Hh by (unfold homes, nlog; simpl; by rewrite Hz).
  destruct (log_of_blocks l0 d Gl Gb). split.
  - split; try done; rewrite ?Hh; simpl; rewrite ?Gs, ?Gz, ?Gd; try done.
    + rewrite <- Gs, Hz. lia.
    + by apply NoDup_nil.
    + by intros b []%not_elem_of_nil.
  - intros b. unfold recovered, nlog. simpl. by rewrite Hz.
Qed.

(** ** Prefixes of a commit's writes *)

Lemma take_log_ws l mem k : (k ≤ nlog l)%nat → take k (log_ws l mem (nlog l)) = log_ws l mem k.
Proof. intros Hk. unfold log_ws. rewrite <- fmap_take, take_seq. by rewrite Nat.min_l. Qed.

Lemma length_log_ws l f k : length (log_ws l f k) = k.
Proof. unfold log_ws. by rewrite length_fmap, length_seq. Qed.
Lemma length_home_ws l f k : length (home_ws l f k) = k.
Proof. unfold home_ws. by rewrite length_fmap, length_seq. Qed.
Lemma length_inst_ws l mem : length (inst_ws l mem) = nlog l.
Proof. unfold inst_ws. by rewrite length_fmap, homes_length. Qed.

Lemma replay_inst_in l mem d b : log_ok l → b ∈ homes l → replay (inst_ws l mem) d b = mem b.
Proof.
  intros Hok Hb. apply replay_in; [rewrite inst_ws_fst; apply Hok|].
  apply list_elem_of_fmap. by exists b.
Qed.

Lemma replay_inst_prefix_out l mem d j b :
  b ∉ homes l → replay (take j (inst_ws l mem)) d b = d b.
Proof.
  intros Hb. apply replay_notin. rewrite fmap_take, inst_ws_fst. intros H. apply Hb.
  by eapply subseteq_take.
Qed.

Lemma replay_take_0 ws d b : replay (take 0 ws) d b = d b.
Proof. done. Qed.
Lemma replay_one b x d b' : replay [(b, x)] d b' = fupd b x d b'.
Proof. done. Qed.

(** What the disk would be after recovery from [k] of the commit's writes:
    the old contents up to the header write, the new ones after it. *)
Lemma commit_prefix l0 l mem d k b :
  log_ok l → geometry l0 l → (∀ b, length (mem b) = BSIZE) → head_n (d (lg_start l)) = 0 →
  let d' := replay (take k (commit_ws l mem)) d in
  log_ok (log_of l0 d') ∧
  (¬ in_log l b →
   recovered l0 d' b = if decide (nlog l < k ∧ b ∈ homes l)%nat then mem b else d b).
Proof.
  intros Hok G Hmem Hz d'. pose proof (start_in_log dv l Hok) as Hs.
  pose proof (homes_in_log dv l (lg_start l) Hok Hs) as Hsh.
  assert (∀ b, d' b = replay (take (k - (nlog l + 1 + nlog l)) [(lg_start l, put_head (cleared l) (put_head l (mem (lg_start l))))])
                    (replay (take (k - (nlog l + 1)) (inst_ws l mem))
                    (replay (take (k - nlog l) [(lg_start l, put_head l (mem (lg_start l)))])
                    (replay (take k (log_ws l mem (nlog l))) d))) b) as Hd'.
  { intros b'. unfold d', commit_ws. rewrite !take_app, !replay_app, length_log_ws, length_inst_ws. simpl length.
    by replace (k - nlog l - 1 - nlog l)%nat with (k - (nlog l + 1 + nlog l))%nat by lia;
       replace (k - nlog l - 1)%nat with (k - (nlog l + 1))%nat by lia. }
  clearbody d'. destruct (decide (k ≤ nlog l)%nat) as [Hk|Hk].
  - assert (∀ b, d' b = replay (log_ws l mem k) d b) as E.
    { intros b'. rewrite Hd', take_log_ws by done.
      replace (k - (nlog l + 1 + nlog l))%nat with 0%nat by lia.
      replace (k - (nlog l + 1))%nat with 0%nat by lia. by replace (k - nlog l)%nat with 0%nat by lia. }
    destruct (log_of_empty l0 l d' Hok G) as [Hok' Hr].
    { rewrite E, (replay_log_ws_out dv) by (done || by right). done. }
    split; [done|]. intros Hb. rewrite Hr, E, (replay_log_ws_out dv) by (done || by left).
    case_decide; [lia|done].
  - rewrite (take_ge (log_ws l mem (nlog l))) in Hd' by (rewrite length_log_ws; lia).
    set (h := put_head l (mem (lg_start l))) in *.
    assert (take (k - nlog l) [(lg_start l, h)] = [(lg_start l, h)]) as E1 by (apply take_ge; simpl; lia).
    rewrite E1 in Hd'.
    destruct (decide (k ≤ nlog l + 1 + nlog l)%nat) as [Hk2|Hk2].
    + replace (k - (nlog l + 1 + nlog l))%nat with 0%nat in Hd' by lia. set (j := (k - (nlog l + 1))%nat) in *.
      destruct (log_of_committed l0 l d' (mem (lg_start l)) Hok G (Hmem _)) as [Hsame Hok'].
      { rewrite Hd', replay_take_0, replay_inst_prefix_out by done.
        by rewrite replay_one, fupd_eq. }
      split; [done|]. intros Hb. unfold recovered. rewrite (same_home_ws l) by done.
      rewrite (home_ws_inst l d' mem).
      2:{ intros i Hi. destruct (laddr_in_log dv l i Hok Hi) as [Hi1 Hi2]. rewrite Hd', replay_take_0.
          rewrite replay_inst_prefix_out by (by apply (homes_in_log dv)).
          rewrite replay_one, fupd_ne by done. by apply (replay_log_ws_in dv). }
      case_decide as Hc; [apply replay_inst_in; naive_solver|].
      assert (b ∉ homes l) as Hbh by (intros ?; apply Hc; split; [lia|done]).
      rewrite replay_inst_out, Hd', replay_take_0, replay_inst_prefix_out by done.
      rewrite replay_one, fupd_ne by congruence. apply (replay_log_ws_out dv); [done..|by left].
    + set (h0 := put_head (cleared l) h) in *.
      assert (take (k - (nlog l + 1 + nlog l)) [(lg_start l, h0)] = [(lg_start l, h0)]) as E2 by (apply take_ge; simpl; lia).
      rewrite E2, (take_ge (inst_ws l mem)) in Hd' by (rewrite length_inst_ws; lia).
      destruct (log_of_empty l0 l d' Hok G) as [Hok' Hr].
      { rewrite Hd', replay_one, fupd_eq. apply head_cleared. unfold h. by rewrite length_put_head. }
      split; [done|]. intros Hb. rewrite Hr, Hd', replay_one, fupd_ne by congruence.
      case_decide as Hc; [apply replay_inst_in; naive_solver|].
      assert (b ∉ homes l) as Hbh by (intros ?; apply Hc; split; [lia|done]).
      rewrite replay_inst_out, replay_one, fupd_ne by (done || congruence).
      apply (replay_log_ws_out dv); [done..|by left].
Qed.

(** Recovering is idempotent: any prefix of a recovery's writes leaves the
    disk that the next recovery produces the same. *)
Lemma recover_prefix l0 d k b :
  let l := log_of l0 d in
  log_ok l → geometry l0 l → length (d (lg_start l)) = BSIZE →
  let d' := replay (take k (recover_ws l d)) d in
  log_ok (log_of l0 d') ∧ (¬ in_log l b → recovered l0 d' b = recovered l0 d b).
Proof.
  intros l Hok G Hlen d'. pose proof (start_in_log dv l Hok) as Hs.
  pose proof (homes_in_log dv l (lg_start l) Hok Hs) as Hsh.
  set (h0 := put_head (cleared l) (d (lg_start l))).
  assert (∀ b, d' b = replay (take (k - nlog l) [(lg_start l, h0)]) (replay (take k (home_ws l d (nlog l))) d) b) as Hd'.
  { intros b'. unfold d', recover_ws. by rewrite take_app, replay_app, length_home_ws. }
  clearbody d'. destruct (decide (k ≤ nlog l)%nat) as [Hk|Hk].
  - replace (k - nlog l)%nat with 0%nat in Hd' by lia. change (replay (take 0 [(lg_start l, h0)])) with (λ f : Z → block, f) in Hd'.
    assert (∀ b, b ∉ homes l → d' b = d b) as Hout.
    { intros b' Hb'. rewrite Hd'. cbn beta. unfold home_ws. rewrite <- fmap_take, take_seq, Nat.min_l by done.
      by apply (replay_home_ws_out dv). }
    assert (log_of l0 d' = l) as El.
    { unfold l, log_of. change (lg_start l0) with (lg_start l). by rewrite Hout. }
    unfold recovered. rewrite El. fold l. split; [done|]. intros Hb.
    destruct (decide (b ∈ homes l)) as [Hin|Hin].
    + assert (∃ i, b = haddr l i ∧ (i < nlog l)%nat) as (i & -> & Hi).
      { apply list_elem_of_fmap in Hin as (i & -> & Hi%elem_of_seq). exists i. split; [done|lia]. }
      rewrite !(replay_home_ws_in dv) by done. apply Hout, (homes_in_log dv), (laddr_in_log dv l i Hok Hi). done.
    + rewrite !(replay_home_ws_out dv) by done. by apply Hout.
  - assert (take (k - nlog l) [(lg_start l, h0)] = [(lg_start l, h0)]) as E by (apply take_ge; simpl; lia).
    rewrite E, (take_ge (home_ws l d (nlog l))) in Hd' by (rewrite length_home_ws; lia).
    destruct (log_of_empty l0 l d' Hok G) as [Hok' Hr].
    { rewrite Hd', replay_one, fupd_eq. by apply head_cleared. }
    split; [done|]. intros Hb. rewrite Hr, Hd', replay_one, fupd_ne by congruence. done.
Qed.
End pure.

(** ** Crashes of the kernel running over bio.c *)

(** [struct log log] in zeroed static storage. *)
Definition log0 : log := Log 0 0 0 false 0 0 (replicate (Z.to_nat LOGSIZE) 0).

(** The device after some of the block writes issued on it. *)
Definition disk_after (ws : list (Z * block)) (d : gmap Z block) : gmap Z block :=
  fold_left (λ d w, <[w.1 := w.2]> d) ws d.

(** Booting on the device [d]: [binit], then [initlog]. *)
Definition boot (dv : Z) (sb : superblock) (tk pid : Z) (d : gmap Z block) : outcome (() * lstate bcache) :=
  initlog dv sb (LState log0 (binit tk pid d)).

(** [reboots dv sb d d'] : starting on the device [d], some boots are cut short
    by a crash after a prefix of their writes, and a last one completes the
    recovery and leaves the device [d']. *)
Inductive reboots (dv : Z) (sb : superblock) : gmap Z block → gmap Z block → Prop :=
| reboots_done tk pid d s : boot dv sb tk pid d = Ret ((), s) → reboots dv sb d (dsk (bc s))
| reboots_crash tk pid d s k d' :
    boot dv sb tk pid d = Ret ((), s) →
    reboots dv sb (disk_after (take k (wtrace (bc s))) d) d' → reboots dv sb d d'.

Section crash.
Context (dv : Z) (sb : superblock).
Hypothesis Hdv : dv ≠ 0.

(** The log area that [sb] describes fits the in-memory header. *)
Definition sb_ok (sb : superblock) : Prop :=
  0 ≤ sb_logstart sb ∧ 0 < sb_nlog sb ≤ LOGSIZE ∧ sb_logstart sb + sb_nlog sb < 2 ^ 31.

(** The log as [initlog] has set it up when it starts to recover. *)
Definition lboot : log := Log (sb_logstart sb) (sb_nlog sb) 0 false dv 0 (replicate (Z.to_nat LOGSIZE) 0).

Definition whole (d : gmap Z block) : Prop := ∀ b x, d !! b = Some x → length x = BSIZE.

Lemma dread_after ws d b : dread (disk_after ws d) b = replay ws (dread d) b.
Proof.
  revert d. induction ws as [|w ws IH]; intros d; [done|].
  change (disk_after (w :: ws) d) with (disk_after ws (<[w.1 := w.2]> d)). rewrite IH.
  change (replay (w :: ws) (dread d)) with (replay ws (fupd w.1 w.2 (dread d))).
  apply replay_ext. intros b'. unfold dread, fupd. case_decide as E.
  - subst. by rewrite lookup_insert_eq.
  - by rewrite lookup_insert_ne.
Qed.

Lemma whole_after ws d : Forall (λ w, length w.2 = BSIZE) ws → whole d → whole (disk_after ws d).
Proof.
  intros Hws. revert d. induction Hws as [|w ws Hw Hws IH]; intros d Hd; [done|].
  apply IH. intros b x. destruct (decide (b = w.1)) as [->|].
  - rewrite lookup_insert_eq. congruence.
  - rewrite lookup_insert_ne by done. apply Hd.
Qed.

Lemma whole_dread d b : whole d → length (dread d b) = BSIZE.
Proof. intros H. unfold dread. destruct (d !! b) eqn:E; [by eapply H|apply length_replicate]. Qed.

Lemma initlog_eq (s : lstate bcache) :
  sb_ok sb → lg s = log0 → initlog dv sb s = recover_from_log (LState lboot (bc s)).
Proof.
  intros (H1 & H2 & H3) Hl. assert (LOGSIZE = 30) by done.
  unfold initlog. change (Z.of_nat BSIZE <=? 4 * (LOGSIZE + 1)) with false. cbv iota.
  rewrite (bind_Ret _ _ _ _ _ (run_modify _ s)). cbn beta. f_equal. destruct s as [l c]. simpl in Hl. subst l.
  unfold lboot. cbn. by rewrite !i32_small by lia.
Qed.

Lemma recover_ws_length l d : (∀ b, length (d b) = BSIZE) → Forall (λ w, length w.2 = BSIZE) (recover_ws l d).
Proof.
  intros Hd. apply Forall_app. split; [|constructor; [|done]].
  - apply Forall_fmap, Forall_forall. intros i _. apply Hd.
  - cbn. by rewrite length_put_head.
Qed.

Lemma commit_ws_length l mem : (∀ b, length (mem b) = BSIZE) → Forall (λ w, length w.2 = BSIZE) (commit_ws l mem).
Proof.
  intros Hmem. unfold commit_ws. rewrite !Forall_app. split_and!.
  - apply Forall_fmap, Forall_forall. intros i _. apply Hmem.
  - constructor; [|done]. cbn. by rewrite length_put_head.
  - apply Forall_fmap, Forall_forall. intros i _. apply Hmem.
  - constructor; [|done]. cbn. by rewrite !length_put_head.
Qed.

(** One boot: it completes, and its writes are those of [recover_ws]. *)
Lemma boot_spec tk pid d :
  let l := log_of lboot (dread d) in
  sb_ok sb → whole d → log_ok dv l →
  ∃ s, boot dv sb tk pid d = Ret ((), s) ∧ lg s = cleared l ∧
    wtrace (bc s) = recover_ws l (dread d) ∧
    (∀ b, dread (dsk (bc s)) b = replay (recover_ws l (dread d)) (dread d) b) ∧
    ∀ b, cv_ref (bio_cv dv (bc s)) b = drops (homes l) (λ _, 0) b.
Proof.
  intros l Hsb Hd Hok. unfold boot. rewrite initlog_eq by done. cbn [bc].
  assert (booted (BufCacheSpec0 := bio_spec dv) dv (dread d) (binit tk pid d)) as Hb.
  { split; [by apply binit_wf|by apply binit_cv]. }
  destruct (recover_spec (BufCacheSpec0 := bio_spec dv) dv (LState lboot (binit tk pid d)) (dread d) Hok) as (c' & E & W & V).
  { pose proof (lo_n dv l Hok) as Hn. destruct Hsb as (? & ? & ?).
    change (lg_size l) with (sb_nlog sb) in Hn. cbn [lg]. fold l. assert (NBUF = LOGSIZE) as -> by done. lia. }
  { done. }
  cbn [lg bc] in *. fold l in E, V. destruct Hb as [_ Hb].
  change (bio_cv dv c' ≡ v_drops (homes l) (v_writes (recover_ws l (dread d)) (bio_cv dv (binit tk pid d)))) in V.
  exists (LState (cleared l) c'). cbn [lg bc]. split_and!; [done|done|..].
  - change (wtrace c') with (cv_trace (bio_cv dv c')). rewrite (equiv_trace _ _ V). done.
  - intros b. change (dread (dsk c') b) with (cv_disk (bio_cv dv c') b). rewrite (equiv_disk _ _ V). done.
  - intros b. rewrite (equiv_ref _ _ V). cbn [v_drops v_writes cv_ref]. apply drops_ext.
    intros b'. apply (equiv_ref _ _ Hb).
Qed.

(** Any number of interrupted boots ends in the recovered disk. *)
Lemma reboots_recovered d d' :
  sb_ok sb → reboots dv sb d d' → whole d → log_ok dv (log_of lboot (dread d)) →
  ∀ b, ¬ in_log lboot b → dread d' b = recovered lboot (dread d) b.
Proof.
  intros Hsb H. induction H as [tk pid d s E|tk pid d s k d' E _ IH]; intros Hw Hok b Hb.
  all: destruct (boot_spec tk pid d Hsb Hw Hok) as (s' & E' & _ & Ht & Hd & _);
    rewrite E in E'; injection E' as <-.
  - rewrite Hd. unfold recover_ws, recovered. rewrite replay_app, replay_one.
    rewrite fupd_ne; [done|]. intros ->. apply Hb.
    apply (start_in_log dv _ Hok).
  - assert (geometry lboot (log_of lboot (dread d))) as G by (split; (done || by apply Forall_replicate)).
    destruct (recover_prefix dv lboot (dread d) k b Hok G) as [Hok' Hr]; [by apply whole_dread|].
    rewrite Ht in IH.
    rewrite (log_of_ext _ _ _ (dread_after _ d)) in IH.
    rewrite IH; [|by apply whole_after; [apply Forall_take, recover_ws_length; intros; by apply whole_dread|]|done|done].
    rewrite <- Hr by done. apply recovered_ext, dread_after.
Qed.
End crash.

(** ** Properties of log.c over bio.c *)

(** The state in which [end_op] calls [commit]: the log is well formed and
    was empty on disk, nobody holds a buffer, every logged block is pinned,
    and no block outside the log was changed without being logged. *)
Record committable (dv : Z) (s : lstate bcache) : Prop := {
  cm_ok : log_ok dv (lg s);
  cm_ready : ready (BufCacheSpec0 := bio_spec dv) dv (lg s) (bc s);
  cm_n : 0 < lh_n (lg s);
  cm_empty : head_n (dread (dsk (bc s)) (lg_start (lg s))) = 0;
  cm_logged : ∀ b, ¬ in_log (lg s) b → b ∉ homes (lg s) →
    cv_mem (bio_cv dv (bc s)) b = dread (dsk (bc s)) b;
}.

Lemma commit_bio dv s :
  committable dv s →
  ∃ c', run commit s () (LState (cleared (lg s)) c') ∧ bio_wf dv c' ∧
    bio_cv dv c' ≡ v_drops (homes (lg s)) (v_writes (commit_ws (lg s) (cv_mem (bio_cv dv (bc s)))) (bio_cv dv (bc s))).
Proof.
  intros [Hok Hrd Hn _ _]. exact (commit_spec (BufCacheSpec0 := bio_spec dv) dv s Hok Hrd Hn).
Qed.

Lemma replay_commit dv l mem d b :
  log_ok dv l → ¬ in_log l b → replay (commit_ws l mem) d b = if decide (b ∈ homes l) then mem b else d b.
Proof.
  intros Hok Hb. pose proof (start_in_log dv l Hok). unfold commit_ws.
  rewrite !replay_app, replay_one, fupd_ne by congruence. case_decide as Hh.
  - by apply (replay_inst_in dv).
  - rewrite replay_inst_out, replay_one, fupd_ne by congruence. apply (replay_log_ws_out dv); [done..|by left].
Qed.

(** C3. A commit that is not interrupted returns with every block outside the
    log area on the device as the kernel sees it in memory, the header empty
    in memory and on the device, and the pins of the logged blocks dropped. *)
Theorem commit_installs dv s :
  committable dv s →
  ∃ c', run commit s () (LState (cleared (lg s)) c') ∧
    (∀ b, ¬ in_log (lg s) b →
       dread (dsk c') b = cv_mem (bio_cv dv (bc s)) b ∧
       cv_mem (bio_cv dv c') b = cv_mem (bio_cv dv (bc s)) b) ∧
    head_n (dread (dsk c') (lg_start (lg s))) = 0 ∧
    ∀ b, b ∈ homes (lg s) → cv_ref (bio_cv dv c') b = cv_ref (bio_cv dv (bc s)) b - 1.
Proof.
  intros H. pose proof H as [Hok Hrd Hn He Hl]. destruct (commit_bio dv s H) as (c' & E & _ & V).
  pose proof (start_in_log dv _ Hok) as Hs. exists c'. split; [done|].
  assert (∀ b, dread (dsk c') b = cv_disk (bio_cv dv c') b) as Hd by done. split; [|split].
  - intros b Hb. rewrite Hd, (equiv_disk _ _ V), (equiv_mem _ _ V). cbn [v_drops v_writes cv_disk cv_mem].
    rewrite !(replay_commit dv) by done. case_decide as Hc; [done|]. split; [|done]. symmetry. by apply Hl.
  - rewrite Hd, (equiv_disk _ _ V). cbn [v_drops v_writes cv_disk]. unfold commit_ws.
    rewrite !replay_app, replay_one, fupd_eq. apply head_cleared. rewrite length_put_head.
    apply (cv_mem_length (BufCacheSpec := bio_spec dv)), Hrd.
  - intros b Hb. rewrite (equiv_ref _ _ V). cbn [v_drops v_writes cv_ref].
    rewrite drops_in by (done || apply Hok). destruct Hrd as [W _ _ _ Hh]. destruct (Hh b Hb).
    pose proof (cv_ref_range (BufCacheSpec := bio_spec dv) (bc s) b W) as R.
    change (cv (bc s)) with (bio_cv dv (bc s)) in *. rewrite u32_small; lia.
Qed.

(** The device at a crash after [k] writes of a commit: what it holds, and
    what a recovery will make of it. *)
Lemma commit_crashed dv sb s s' ws k :
  lg_start (lg s) = sb_logstart sb → lg_size (lg s) = sb_nlog sb → committable dv s →
  run commit s () s' → wtrace (bc s') = wtrace (bc s) ++ ws →
  let d := disk_after (take k ws) (dsk (bc s)) in
  whole d ∧ log_ok dv (log_of (lboot dv sb) (dread d)) ∧
  ∀ b, ¬ in_log (lg s) b →
    recovered (lboot dv sb) (dread d) b =
    if decide (nlog (lg s) < k)%nat then cv_mem (bio_cv dv (bc s)) b else dread (dsk (bc s)) b.
Proof.
  intros Hst Hsz H Hrun Htr. pose proof H as [Hok Hrd Hn He Hl].
  destruct (commit_bio dv s H) as (c' & E & _ & V). rewrite Hrun in E. injection E as ->.
  set (l := lg s) in *. set (mem := cv_mem (bio_cv dv (bc s))) in *.
  assert (ws = commit_ws l mem) as ->.
  { apply equiv_trace in V. cbn in V, Htr. rewrite Htr in V. by apply app_inv_head in V. }
  assert (bio_wf dv (bc s)) as W by apply Hrd.
  assert (∀ b, length (mem b) = BSIZE) as Hmem.
  { intros b'. apply (cv_mem_length (BufCacheSpec := bio_spec dv)), W. }
  assert (geometry (lboot dv sb) l) as G.
  { split; [done..| |done|by apply Forall_replicate]. by rewrite (lo_dev dv l Hok). }
  set (pre := take k (commit_ws l mem)). cbv zeta. split_and!.
  - apply whole_after; [by apply Forall_take, commit_ws_length|]. exact (wf_disk dv _ W).
  - rewrite (log_of_ext _ _ _ (dread_after pre _)).
    by apply (commit_prefix dv (lboot dv sb) l mem (dread (dsk (bc s))) k 0 Hok G Hmem He).
  - intros b Hb. destruct (commit_prefix dv (lboot dv sb) l mem (dread (dsk (bc s))) k b Hok G Hmem He) as [_ Hr]. fold pre in Hr.
    rewrite (recovered_ext _ _ _ _ (dread_after pre _)), Hr by done.
    destruct (decide (nlog l < k)%nat), (decide (b ∈ homes l)); repeat case_decide; try done; try naive_solver.
Qed.

(** C1. Crash atomicity: cut a commit short after any number [k] of its block
    writes, boot and crash any number of times, then recover: outside the
    log area the device holds exactly what it held before the commit when the
    header had not been written ([k] at most the number of logged blocks), and
    exactly the committed contents when it had. *)
Theorem commit_crash_atomic dv sb s s' ws k d' :
  dv ≠ 0 → sb_ok sb → lg_start (lg s) = sb_logstart sb → lg_size (lg s) = sb_nlog sb → committable dv s →
  run commit s () s' → wtrace (bc s') = wtrace (bc s) ++ ws →
  reboots dv sb (disk_after (take k ws) (dsk (bc s))) d' →
  ∀ b, ¬ in_log (lg s) b →
    dread d' b = if decide (nlog (lg s) < k)%nat then cv_mem (bio_cv dv (bc s)) b else dread (dsk (bc s)) b.
Proof.
  intros Hdv Hsb Hst Hsz H Hrun Htr Hre b Hb.
  destruct (commit_crashed dv sb s s' ws k Hst Hsz H Hrun Htr) as (Hw & Hok & Hr).
  rewrite <- Hr by done. apply (reboots_recovered dv sb Hdv _ _ Hsb Hre Hw Hok).
  unfold in_log in *. cbn. by rewrite <- Hst, <- Hsz.
Qed.

(** C2. Recovery after a crash in a commit always completes: it does not panic
    or block, and leaves the header empty in memory and on the device, ready
    for new transactions. *)
Theorem recovery_completes dv sb s s' ws k tk pid :
  dv ≠ 0 → sb_ok sb → lg_start (lg s) = sb_logstart sb → lg_size (lg s) = sb_nlog sb → committable dv s →
  run commit s () s' → wtrace (bc s') = wtrace (bc s) ++ ws →
  ∃ s1, boot dv sb tk pid (disk_after (take k ws) (dsk (bc s))) = Ret ((), s1) ∧
    lh_n (lg s1) = 0 ∧ head_n (dread (dsk (bc s1)) (sb_logstart sb)) = 0.
Proof.
  intros Hdv Hsb Hst Hsz H Hrun Htr.
  destruct (commit_crashed dv sb s s' ws k Hst Hsz H Hrun Htr) as (Hw & Hok & _).
  destruct (boot_spec dv sb Hdv tk pid _ Hsb Hw Hok) as (s1 & E & Hl & _ & Hd & _).
  exists s1. split_and!; [done|by rewrite Hl|].
  rewrite Hd. unfold recover_ws. rewrite replay_app, replay_one.
  change (lg_start (log_of (lboot dv sb) _)) with (sb_logstart sb). rewrite fupd_eq.
  by apply head_cleared, whole_dread.
Qed.

(** The pins [install_trans] drops were never taken when it runs from
    [recover_from_log]: after a recovery every block it installed has a buffer
    whose reference count has wrapped to the largest [uint], so the buffer
    is never recycled. *)
Theorem recovery_leaks_buffers dv sb tk pid d s b :
  let l := log_of (lboot dv sb) (dread d) in
  dv ≠ 0 → sb_ok sb → whole d → log_ok dv l → boot dv sb tk pid d = Ret ((), s) → b ∈ homes l →
  cv_ref (bio_cv dv (bc s)) b = 2 ^ 32 - 1.
Proof.
  intros l Hdv Hsb Hw Hok E Hb. destruct (boot_spec dv sb Hdv tk pid d Hsb Hw Hok) as (s' & E' & _ & _ & _ & Hr).
  rewrite E in E'. injection E' as <-. rewrite Hr. by rewrite drops_in by (done || apply Hok).
Qed.

(** [log_write] of a block that is already in the transaction changes
    nothing (the write is absorbed); of a new block it records the block at
    the end of the header and pins its buffer.  The header keeps its
    invariant: distinct blocks, all outside the log area. *)
Theorem log_write_tracks dv s h b :
  log_ok dv (lg s) → bio_wf dv (bc s) → bio_holds dv (bc s) h b →
  ¬ in_log (lg s) b → 0 ≤ b < 2 ^ 31 → cv_ref (bio_cv dv (bc s)) b ≠ 2 ^ 32 - 1 →
  lh_n (lg s) < LOGSIZE → lh_n (lg s) + 1 < lg_size (lg s) → 0 < lg_outstanding (lg s) →
  ∃ s', run (log_write h) s () s' ∧ log_ok dv (lg s') ∧
    (b ∈ homes (lg s) → s' = s) ∧
    (b ∉ homes (lg s) → homes (lg s') = homes (lg s) ++ [b] ∧
       bio_wf dv (bc s') ∧ bio_cv dv (bc s') ≡ v_pin b (bio_cv dv (bc s))).
Proof.
  intros. destruct (log_write_spec (BufCacheSpec0 := bio_spec dv) dv s h b) as (s' & ? & ? & ? & ? & _); [done..|].
  by exists s'.
Qed.

(** ** A concrete transaction

    A file system with its log in blocks 2 to 31, booted on a zeroed device;
    one call writes blocks 100 and 113. *)

Definition sb_ex : superblock := Superblock 0x10203040 2000 1954 200 30 2 32 45.

Definition put_block (b : Z) (d : block) : ST (lstate bcache) () :=
  h ← lift (bread 1 b);
  _ ← lift (modify (set_data h d));
  _ ← log_write h;
  lift (brelse h).

Definition s_boot : lstate bcache := after (initlog 1 sb_ex) (LState log0 (binit 7 3 ∅)).
Definition s_tx : lstate bcache :=
  after (_ ← begin_op; _ ← put_block 100 (replicate BSIZE 1); put_block 113 (replicate BSIZE 2)) s_boot.
Definition s_done : lstate bcache := after commit s_tx.

Lemma bufs_logged dv c (hs : list Z) b :
  forallb (λ x, negb (b_valid x) || negb (b_dev x =? dv) || bool_decide (b_blockno x ∈ hs) ||
                bool_decide (b_data x = dread (dsk c) (b_blockno x))) (bufs c) = true →
  b ∉ hs → cv_mem (bio_cv dv c) b = dread (dsk c) b.
Proof.
  intros H Hb. cbn. destruct (blk dv c b) as [x|] eqn:E; [|done]. destruct (b_valid x) eqn:Ev; [|done].
  unfold blk in E. apply bind_Some in E as (i & Hi & Hx). unfold slot in Hi.
  apply findi_lookup in Hi as (y & Hy & Hp). simplify_eq. cbn in Hp.
  pose proof (forallb_lookup _ _ _ _ H Hy) as Hf. cbv beta in Hf.
  apply andb_true_iff in Hp as [Hd Hbn]. rewrite Ev, Hd in Hf. apply Z.eqb_eq in Hbn. subst b.
  rewrite bool_decide_eq_false_2 in Hf by done. simpl in Hf. by apply bool_decide_eq_true in Hf.
Qed.

Definition l_tx : log := Log 2 30 1 false 1 2 (100 :: 113 :: replicate 28 0).

Lemma l_tx_homes : homes l_tx = [100; 113].
Proof. reflexivity. Qed.

Lemma l_tx_ok : log_ok 1 l_tx.
Proof.
  split; rewrite ?l_tx_homes; cbn; try done.
  - repeat (constructor; [lia|]). constructor.
  - repeat (constructor; [set_solver|]). constructor.
  - intros b Hb. assert (b = 100 ∨ b = 113) as [-> | ->] by set_solver; lia.
Qed.

Lemma s_tx_log : lg s_tx = l_tx.
Proof. vm_compute. reflexivity. Qed.

Lemma s_tx_committable : committable 1 s_tx.
Proof.
  split; rewrite s_tx_log; [exact l_tx_ok| |reflexivity|vm_compute; reflexivity|].
  - split.
    + apply bio_wfb_spec. vm_compute. reflexivity.
    + apply bufs_idle. vm_compute. reflexivity.
    + apply bufs_room. vm_compute. reflexivity.
    + intros b _. apply bufs_ref_max. vm_compute. reflexivity.
    + intros b. rewrite l_tx_homes. intros Hb. assert (b = 100 ∨ b = 113) as [-> | ->] by set_solver;
        split; (apply Z.eqb_neq; vm_compute; reflexivity).
  - intros b _. rewrite l_tx_homes. apply bufs_logged. vm_compute. reflexivity.
Qed.

Lemma s_done_run : run commit s_tx () s_done.
Proof. refine (run_after commit s_tx () _). vm_compute. reflexivity. Qed.

Lemma commit_installs_witness :
  ∃ c', run commit s_tx () (LState (cleared (lg s_tx)) c') ∧ head_n (dread (dsk c') 2) = 0.
Proof.
  destruct (commit_installs 1 s_tx s_tx_committable) as (c' & E & _ & Hh & _).
  exists c'. split; [exact E|exact Hh].
Defined.

Definition ws_done : list (Z * block) := drop (length (wtrace (bc s_tx))) (wtrace (bc s_done)).

Lemma s_done_trace : wtrace (bc s_done) = wtrace (bc s_tx) ++ ws_done.
Proof. vm_compute. reflexivity. Qed.

(** The device after four of the six writes: both log blocks, the header, one
    home block. *)
Abbreviation d_crash := (disk_after (take 4 ws_done) (dsk (bc s_tx))).
Definition s_reboot : lstate bcache := after (initlog 1 sb_ex) (LState log0 (binit 1 1 d_crash)).

Lemma s_reboot_run : boot 1 sb_ex 1 1 d_crash = Ret ((), s_reboot).
Proof. refine (run_after (initlog 1 sb_ex) (LState log0 (binit 1 1 d_crash)) () _). vm_compute. reflexivity. Qed.

Lemma sb_ex_ok : sb_ok sb_ex.
Proof. unfold sb_ok, LOGSIZE, MAXOPBLOCKS. cbn. lia. Qed.

Lemma commit_crash_atomic_witness : dread (dsk (bc s_reboot)) 113 = replicate BSIZE 2.
Proof.
  pose proof (commit_crash_atomic 1 sb_ex s_tx s_done ws_done 4 (dsk (bc s_reboot))) as H.
  rewrite s_tx_log in H. rewrite H; clear H.
  - vm_compute. reflexivity.
  - done.
  - exact sb_ex_ok.
  - reflexivity.
  - reflexivity.
  - exact s_tx_committable.
  - exact s_done_run.
  - exact s_done_trace.
  - exact (reboots_done 1 sb_ex 1 1 d_crash s_reboot s_reboot_run).
  - unfold in_log. cbn. lia.
Defined.

Lemma recovery_completes_witness :
  ∃ s1, boot 1 sb_ex 5 9 (disk_after (take 1 ws_done) (dsk (bc s_tx))) = Ret ((), s1) ∧ lh_n (lg s1) = 0.
Proof.
  destruct (recovery_completes 1 sb_ex s_tx s_done ws_done 1 5 9) as (s1 & E & Hn & _).
  - done.
  - exact sb_ex_ok.
  - rewrite s_tx_log. reflexivity.
  - rewrite s_tx_log. reflexivity.
  - exact s_tx_committable.
  - exact s_done_run.
  - exact s_done_trace.
  - exists s1. split; [exact E|exact Hn].
Defined.

Lemma whole_map_Forall d : bool_decide (map_Forall (λ _ (x : block), length x = BSIZE) d) = true → whole d.
Proof. intros H%bool_decide_eq_true. exact H. Qed.

Lemma recovery_leaks_buffers_witness : cv_ref (bio_cv 1 (bc s_reboot)) 100 = 2 ^ 32 - 1.
Proof.
  destruct (commit_crashed 1 sb_ex s_tx s_done ws_done 4) as (Hw & Hok & _).
  - rewrite s_tx_log. reflexivity.
  - rewrite s_tx_log. reflexivity.
  - exact s_tx_committable.
  - exact s_done_run.
  - exact s_done_trace.
  - refine (recovery_leaks_buffers 1 sb_ex 1 1 d_crash s_reboot 100 _ sb_ex_ok Hw Hok s_reboot_run _); [done|].
    replace (homes (log_of (lboot 1 sb_ex) (dread d_crash))) with [100; 113] by (vm_compute; reflexivity).
    constructor.
Defined.

(** The state of a call that has begun and holds block 100. *)
Definition s_hold : lstate bcache := after (_ ← begin_op; _ ← lift (bread 1 100); mret ()) s_boot.
Definition l_hold : log := Log 2 30 1 false 1 0 (replicate 30 0).

Lemma s_hold_log : lg s_hold = l_hold.
Proof. vm_compute. reflexivity. Qed.

Lemma l_hold_ok : log_ok 1 l_hold.
Proof.
  split; cbn; try done.
  - repeat (constructor; [lia|]). constructor.
  - by apply NoDup_nil.
  - by intros b []%not_elem_of_nil.
Qed.

Definition h_hold : nat := default 0%nat (value (lift (bread 1 100)) (after begin_op s_boot)).

Lemma s_hold_holds : bio_holds 1 (bc s_hold) h_hold 100.
Proof.
  refine (ex_intro _ (buf_of (bc s_hold) h_hold) _). vm_compute. repeat split.
Qed.

Lemma log_write_tracks_witness :
  ∃ s', run (log_write h_hold) s_hold () s' ∧ homes (lg s') = [100].
Proof.
  destruct (log_write_tracks 1 s_hold h_hold 100) as (s' & E & _ & _ & Hn);
    rewrite ?s_hold_log; [exact l_hold_ok|..].
  - apply bio_wfb_spec. vm_compute. reflexivity.
  - exact s_hold_holds.
  - unfold in_log. cbn. lia.
  - lia.
  - apply bufs_ref_max. vm_compute. reflexivity.
  - reflexivity.
  - reflexivity.
  - reflexivity.
  - exists s'. split; [exact E|]. rewrite s_hold_log in Hn. exact (proj1 (Hn (not_elem_of_nil 100))).
Defined.

(** A log area of 32 blocks, one call begun. *)
Definition s_big : lstate bcache := LState (Log 2 32 0 false 1 0 (replicate 30 0)) c_boot.

Lemma log_reservation_suffices_witness : ∃ s', run (log_write 5) (after begin_op s_big) () s'.
Proof.
  refine (log_reservation_suffices s_big (after begin_op s_big) [10%nat] 0 9 5 _ _ _ _ _ _).
  - reflexivity.
  - reflexivity.
  - reflexivity.
  - reflexivity.
  - apply rtc_once. refine (tx_begin s_big (after begin_op s_big) [] _).
    refine (run_after begin_op s_big () _). reflexivity.
  - reflexivity.
Defined.

(** Three calls have begun on the log area that mkfs lays out ([nlog =
    LOGSIZE]) and together wrote 29 blocks, within the [MAXOPBLOCKS] each may
    write. *)
Definition s_over : lstate bcache :=
  after (_ ← begin_op; _ ← begin_op; _ ← begin_op;
         for_loop 0 29 (λ i, put_block (100 + Z.of_nat i) (replicate BSIZE 1))) s_boot.

(** With the log area of mkfs ([nlog = LOGSIZE]) the reservation is one
    block short: three calls admitted by [begin_op], each within its
    [MAXOPBLOCKS], reach a state in which the next [log_write] panics. *)
Theorem log_reservation_short :
  lg_size (lg s_boot) = LOGSIZE ∧ lg_outstanding (lg s_over) = 3 ∧ lh_n (lg s_over) = 29 ∧
  lh_n (lg s_over) < lg_outstanding (lg s_over) * MAXOPBLOCKS ∧
  ∀ h, log_write h s_over = Panic "too big a transaction".
Proof.
  assert (lg_outstanding (lg s_over) = 3) as Ho by (vm_compute; reflexivity).
  assert (lh_n (lg s_over) = 29) as Hn by (vm_compute; reflexivity).
  assert (lg_size (lg s_over) = 30) as Hs by (vm_compute; reflexivity).
  rewrite Ho, Hn. split_and!; [vm_compute; reflexivity|reflexivity..|].
  intros h. unfold log_write. rewrite (bind_Ret _ _ _ _ _ (run_get s_over)). cbv zeta.
  by rewrite Hn, Hs.
Qed.
