(* ===== verification/LogDisk.v ===== *)
(** * The disk as the file system sees it inside a transaction

    fs.c never writes a block itself: it reads buffers with [bread], stores
    into their data, hands them to [log_write] and releases them.  The class
    [LogDisk] is that interface, [LogDiskSpec] what the log and the cache
    under it promise, on a view with the contents the kernel sees, the blocks
    whose buffers the caller holds, the blocks of the transaction and the
    blocks stored into but not yet logged.  The last section shows that log.c
    over any buffer cache keeps the promises, with bio.c as the instance. *)

From stdpp Require Import gmap.
From S2P Require Import Prelude Bytes BufCache Bio Log.

Class LogDisk (D : Type) := {
  d_bread : Z → Z → ST D nat;
  d_brelse : nat → ST D ();
  d_log_write : nat → ST D ();
  d_data : nat → D → block;
  d_store : nat → block → D → D;
}.

(** ** The view *)

Record dview := DView {
  dv_mem : Z → block;
  dv_held : list Z;
  dv_logged : list Z;
  dv_dirty : list Z;
}.

Definition add_logged (b : Z) (l : list Z) : list Z := if decide (b ∈ l) then l else l ++ [b].

Definition dv_hold (b : Z) (v : dview) : dview := DView (dv_mem v) (b :: dv_held v) (dv_logged v) (dv_dirty v).
Definition dv_drop (b : Z) (v : dview) : dview :=
  DView (dv_mem v) (filter (λ x, x ≠ b) (dv_held v)) (dv_logged v) (dv_dirty v).
Definition dv_store (b : Z) (d : block) (v : dview) : dview :=
  DView (fupd b d (dv_mem v)) (dv_held v) (dv_logged v) (b :: dv_dirty v).
Definition dv_log (b : Z) (v : dview) : dview :=
  DView (dv_mem v) (dv_held v) (add_logged b (dv_logged v)) (filter (λ x, x ≠ b) (dv_dirty v)).

(** A block updated and logged, as one step. *)
Definition dv_write (b : Z) (d : block) (v : dview) : dview :=
  DView (fupd b d (dv_mem v)) (dv_held v) (add_logged b (dv_logged v)) (dv_dirty v).

(** ** Promises *)

(** Buffers left for [k] more blocks. *)
Definition spare (k : nat) (v : dview) : Prop :=
  Z.of_nat (length (dv_held v) + length (dv_logged v) + k) ≤ NBUF.

(** The log area is [lo, hi); other blocks may be logged. *)
Definition loggable (lo hi b : Z) : Prop := 0 ≤ b < 2 ^ 31 ∧ ¬ (lo ≤ b < hi).

(** [log_write] accepts another block. *)
Definition log_space (lo hi : Z) (k : nat) (v : dview) : Prop :=
  Z.of_nat (length (dv_logged v) + k) ≤ Z.min LOGSIZE (hi - lo - 1).

(** Room to log [k] more blocks, holding one more buffer. *)
Definition budget (lo hi : Z) (k : nat) (v : dview) : Prop := spare (k + 1) v ∧ log_space lo hi k v.

Lemma length_add_logged b l : (length l ≤ length (add_logged b l) ≤ S (length l))%nat.
Proof. unfold add_logged. case_decide; [lia|]. rewrite length_app. simpl. lia. Qed.

Lemma budget_write lo hi k b x v : budget lo hi (S k) v → budget lo hi k (dv_write b x v).
Proof.
  unfold budget, spare, log_space. cbn [dv_write dv_held dv_logged].
  pose proof (length_add_logged b (dv_logged v)). lia.
Qed.
Lemma budget_hold lo hi k b v : budget lo hi (S k) v → budget lo hi k (dv_hold b v).
Proof. unfold budget, spare, log_space. cbn [dv_hold dv_held dv_logged length]. lia. Qed.
Lemma budget_le lo hi k k' v : (k' ≤ k)%nat → budget lo hi k v → budget lo hi k' v.
Proof. unfold budget, spare, log_space. lia. Qed.
Lemma budget_spare lo hi k v : budget lo hi k v → spare 1 v.
Proof. unfold budget, spare. lia. Qed.
Lemma budget_space lo hi k v : budget lo hi (S k) v → log_space lo hi 1 v.
Proof. unfold budget, log_space. lia. Qed.
Create HintDb budget.
#[export] Hint Resolve budget_write budget_hold budget_spare budget_space : budget.

(** [drep d v]: the implementation state [d] shows the view [v]; [dholds d h
    b]: the caller has the buffer [h] of block [b], locked. *)
Class LogDiskSpec (D : Type) `{!LogDisk D} (dev lo hi : Z) := {
  drep : D → dview → Prop;
  dholds : D → nat → Z → Prop;

  drep_length d v b : drep d v → length (dv_mem v b) = BSIZE;
  drep_dirty d v b : drep d v → b ∈ dv_dirty v → b ∈ dv_held v;
  dholds_data d v h b : drep d v → dholds d h b → d_data h d = dv_mem v b;
  dholds_held d v h b : drep d v → dholds d h b → b ∈ dv_held v;

  d_bread_spec d v b :
    drep d v → 0 ≤ b < 2 ^ 32 → b ∉ dv_held v → spare 1 v →
    ∃ h d', run (d_bread dev b) d h d' ∧ drep d' (dv_hold b v) ∧ dholds d' h b ∧
      ∀ h' b', dholds d h' b' → dholds d' h' b';
  d_store_spec d v h b x :
    drep d v → dholds d h b → length x = BSIZE →
    drep (d_store h x d) (dv_store b x v) ∧
      ∀ h' b', dholds d h' b' → dholds (d_store h x d) h' b';
  d_log_write_spec d v h b :
    drep d v → dholds d h b → loggable lo hi b → log_space lo hi 1 v →
    ∃ d', run (d_log_write h) d () d' ∧ drep d' (dv_log b v) ∧
      ∀ h' b', dholds d h' b' → dholds d' h' b';
  d_brelse_spec d v h b :
    drep d v → dholds d h b → b ∉ dv_dirty v →
    ∃ d', run (d_brelse h) d () d' ∧ drep d' (dv_drop b v) ∧
      ∀ h' b', b' ≠ b → dholds d h' b' → dholds d' h' b';
}.

(** ** The two patterns of fs.c *)

Lemma filter_ne_cons (b : Z) (l : list Z) : b ∉ l → filter (λ x, x ≠ b) (b :: l) = l.
Proof.
  intros H. rewrite filter_cons_False by (intros Hn; by apply Hn).
  induction l as [|x l IH]; [done|]. apply not_elem_of_cons in H as [Hx Hl].
  rewrite filter_cons_True by done. by rewrite IH.
Qed.

Lemma dv_drop_hold b v : b ∉ dv_held v → dv_drop b (dv_hold b v) = v.
Proof. intros H. unfold dv_drop, dv_hold. simpl. rewrite filter_ne_cons by done. by destruct v. Qed.

Section patterns.
Context {D : Type} `{!LogDisk D} {dev lo hi : Z} `{!LogDiskSpec D dev lo hi}.
Implicit Types (d : D) (v : dview).

Definition kept (d d' : D) : Prop := ∀ h b, dholds d h b → dholds d' h b.

(** [bp = bread(dev, b); ... brelse(bp)] with the buffer only read, or with
    its data replaced and logged before the release. *)
Lemma bracket d v b :
  drep d v → 0 ≤ b < 2 ^ 32 → b ∉ dv_held v → spare 1 v →
  ∃ h d1, run (d_bread dev b) d h d1 ∧ d_data h d1 = dv_mem v b ∧
    drep d1 (dv_hold b v) ∧ dholds d1 h b ∧ kept d d1.
Proof.
  intros Hd Hb Hh Hs. destruct (d_bread_spec d v b) as (h & d1 & E & R & Hd1 & K); [done..|].
  exists h, d1. split; [done|]. split; [|done]. by apply (dholds_data d1 (dv_hold b v)).
Qed.

Lemma bracket_end d v h b d0 :
  drep d (dv_hold b v) → dholds d h b → b ∉ dv_held v → b ∉ dv_dirty v →
  (∀ h' b', b' ∈ dv_held v → dholds d0 h' b' → dholds d h' b') → drep d0 v →
  ∃ d', run (d_brelse h) d () d' ∧ drep d' v ∧ kept d0 d'.
Proof.
  intros Hd Hh Hn Hdi K R0. destruct (d_brelse_spec d (dv_hold b v) h b) as (d' & E & R & K'); [done..|].
  exists d'. split; [done|]. split.
  - by rewrite dv_drop_hold in R.
  - intros h' b' H. pose proof (dholds_held d0 v h' b' R0 H). apply K'; [by intros ->|]. by apply K.
Qed.

Lemma bracket_write d v h b x :
  drep d (dv_hold b v) → dholds d h b → b ∉ dv_held v → b ∉ dv_dirty v → length x = BSIZE →
  loggable lo hi b → log_space lo hi 1 v →
  ∃ d1, run (d_log_write h) (d_store h x d) () d1 ∧ drep d1 (dv_hold b (dv_write b x v)) ∧ kept d d1.
Proof.
  intros Hd Hh Hn Hdi Hx Hl Hs.
  destruct (d_store_spec d (dv_hold b v) h b x) as (R1 & K1); [done..|].
  destruct (d_log_write_spec (d_store h x d) _ h b R1 (K1 _ _ Hh) Hl) as (d2 & E2 & R2 & K2); [done|].
  exists d2. split; [done|]. split; [|intros h' b' H; by apply K2, K1].
  unfold dv_log, dv_store, dv_hold in R2. simpl in R2. rewrite filter_ne_cons in R2 by done. done.
Qed.
End patterns.

(** ** log.c over a buffer cache keeps the promises *)

#[export] Instance log_disk {C : Type} `{!BufCache C} : LogDisk (lstate C) := {
  d_bread dev b := lift (bread dev b);
  d_brelse h := lift (brelse h);
  d_log_write := log_write;
  d_data h s := buf_data h (bc s);
  d_store h x s := s <| bc ::= set_data h x |>;
}.

Section log_disk.
Context {C : Type} `{!BufCache C} (dev : Z) `{!BufCacheSpec C dev} (lo hi : Z).
Implicit Types (s : lstate C) (v : dview).

(** The references of a block: one while its buffer is held, one while it is
    pinned by the log. *)
Definition refs_of (v : dview) (b : Z) : Z :=
  (if decide (b ∈ dv_held v) then 1 else 0) + (if decide (b ∈ dv_logged v) then 1 else 0).

Record log_rep (s : lstate C) (v : dview) : Prop := LogRep {
  lr_cwf : cwf (bc s);
  lr_ok : log_ok dev (lg s);
  lr_area : lg_start (lg s) = lo ∧ lg_start (lg s) + lg_size (lg s) = hi;
  lr_out : 0 < lg_outstanding (lg s);
  lr_homes : homes (lg s) = dv_logged v;
  lr_mem : ∀ b, cv_mem (cv (bc s)) b = dv_mem v b;
  lr_busy : ∀ b, cv_busy (cv (bc s)) b = bool_decide (b ∈ dv_held v);
  lr_ref : ∀ b, cv_ref (cv (bc s)) b = refs_of v b;
  lr_clean : ∀ b, b ∉ dv_logged v → b ∉ dv_dirty v → cv_mem (cv (bc s)) b = cv_disk (cv (bc s)) b;
  lr_dirty : ∀ b, b ∈ dv_dirty v → b ∈ dv_held v;
}.

Lemma refs_range v b : 0 ≤ refs_of v b ≤ 2.
Proof. unfold refs_of. repeat case_decide; lia. Qed.

Lemma refs_held v b : b ∈ dv_held v → refs_of v b ≠ 0.
Proof. intros H. unfold refs_of. rewrite decide_True by done. case_decide; lia. Qed.

Lemma log_rep_room s v : log_rep s v → spare 1 v → room (cv (bc s)).
Proof.
  intros R Hs. eapply (zero_room _ (dv_held v ++ dv_logged v)); [|done|].
  - intros b. rewrite (lr_ref _ _ R). unfold refs_of. intros H. apply elem_of_app.
    repeat case_decide; auto; lia.
  - rewrite length_app. unfold spare in Hs. lia.
Qed.

(** The cache moves on and the log stays: the fields that can change. *)
Lemma log_rep_step s v c' v' :
  log_rep s v → cwf c' → dv_logged v' = dv_logged v →
  (∀ b, cv_mem (cv c') b = dv_mem v' b) → (∀ b, cv_busy (cv c') b = bool_decide (b ∈ dv_held v')) →
  (∀ b, cv_ref (cv c') b = refs_of v' b) →
  (∀ b, b ∉ dv_logged v' → b ∉ dv_dirty v' → cv_mem (cv c') b = cv_disk (cv c') b) →
  (∀ b, b ∈ dv_dirty v' → b ∈ dv_held v') →
  log_rep (LState (lg s) c') v'.
Proof. intros R W El. intros. destruct R. split; cbn; try done. by rewrite El. Qed.

Lemma log_bread_ok s v b :
  log_rep s v → 0 ≤ b < 2 ^ 32 → b ∉ dv_held v → spare 1 v →
  ∃ h s', run (d_bread dev b) s h s' ∧ log_rep s' (dv_hold b v) ∧ holds (bc s') h b ∧
    ∀ h' b', holds (bc s) h' b' → holds (bc s') h' b'.
Proof.
  intros R Hb Hh Hs. pose proof (refs_range v b) as Hr.
  destruct (bread_spec (bc s) b) as (h & c' & E & W & V & Hd & K).
  - apply (lr_cwf _ _ R).
  - intros b'. rewrite (lr_busy _ _ R), (lr_ref _ _ R), bool_decide_eq_true. apply refs_held.
  - done.
  - rewrite (lr_busy _ _ R). by apply bool_decide_eq_false.
  - rewrite (lr_ref _ _ R). lia.
  - left. by apply (log_rep_room s v).
  - exists h, (LState (lg s) c'). split; [by apply run_lift|]. split; [|done].
    apply (log_rep_step s v); try done; intros b'.
    + rewrite (equiv_mem _ _ V). apply (lr_mem _ _ R).
    + rewrite (equiv_busy _ _ V). cv_cbn. unfold fupd. case_decide as Hd'.
      * subst. symmetry. apply bool_decide_eq_true. left.
      * rewrite (lr_busy _ _ R). apply bool_decide_ext. cbn. rewrite elem_of_cons. naive_solver.
    + rewrite (equiv_ref _ _ V). cv_cbn. unfold fupd. case_decide as Hd'.
      * subst. rewrite (lr_ref _ _ R), u32_small by lia. unfold refs_of, dv_hold. cbn.
        rewrite (decide_False (P := b ∈ dv_held v)), (decide_True (P := b ∈ b :: dv_held v)) by (done || left). lia.
      * rewrite (lr_ref _ _ R). unfold refs_of, dv_hold. cbn. f_equal. apply decide_ext.
        rewrite elem_of_cons. naive_solver.
    + rewrite (equiv_mem _ _ V), (equiv_disk _ _ V). apply (lr_clean _ _ R).
    + intros H. cbn. right. by apply (lr_dirty _ _ R).
Qed.

Lemma log_store_ok s v h b x :
  log_rep s v → holds (bc s) h b → length x = BSIZE →
  log_rep (d_store h x s) (dv_store b x v) ∧
    ∀ h' b', holds (bc s) h' b' → holds (bc (d_store h x s)) h' b'.
Proof.
  intros R Hh Hx. pose proof (lr_cwf _ _ R) as W.
  assert (b ∈ dv_held v) as Hb.
  { apply (holds_busy _ _ _ W) in Hh. rewrite (lr_busy _ _ R) in Hh. by apply bool_decide_eq_true in Hh. }
  destruct (set_data_spec (bc s) h b x) as (W' & V & K); [done|done| |done|].
  { rewrite (lr_ref _ _ R). by apply refs_held. }
  split; [|done]. apply (log_rep_step s v); try done; intros b'.
  - rewrite (equiv_mem _ _ V). cv_cbn. cbn. unfold fupd. case_decide; [done|]. apply (lr_mem _ _ R).
  - rewrite (equiv_busy _ _ V). apply (lr_busy _ _ R).
  - rewrite (equiv_ref _ _ V). apply (lr_ref _ _ R).
  - cbn. rewrite not_elem_of_cons. intros Hl [Hne Hd]. rewrite (equiv_mem _ _ V), (equiv_disk _ _ V). cv_cbn.
    rewrite fupd_ne by done. by apply (lr_clean _ _ R).
  - cbn. intros [->|H]%elem_of_cons; [done|]. by apply (lr_dirty _ _ R).
Qed.

Lemma log_brelse_ok s v h b :
  log_rep s v → holds (bc s) h b → b ∉ dv_dirty v →
  ∃ s', run (d_brelse h) s () s' ∧ log_rep s' (dv_drop b v) ∧
    ∀ h' b', b' ≠ b → holds (bc s) h' b' → holds (bc s') h' b'.
Proof.
  intros R Hh Hd. pose proof (lr_cwf _ _ R) as W.
  assert (b ∈ dv_held v) as Hb.
  { apply (holds_busy _ _ _ W) in Hh. rewrite (lr_busy _ _ R) in Hh. by apply bool_decide_eq_true in Hh. }
  destruct (brelse_spec (bc s) h b) as (c' & E & W' & V & K); [done|done| |].
  { rewrite (lr_ref _ _ R). unfold refs_of. rewrite decide_True by done. case_decide; [lia|]. intros _.
    by apply (lr_clean _ _ R). }
  exists (LState (lg s) c'). split; [by apply run_lift|]. split; [|done].
  apply (log_rep_step s v); try done; intros b'.
  - rewrite (equiv_mem _ _ V). apply (lr_mem _ _ R).
  - rewrite (equiv_busy _ _ V). cv_cbn. unfold fupd. case_decide as Hd'.
    + subst. symmetry. apply bool_decide_eq_false. cbn. rewrite list_elem_of_filter. naive_solver.
    + rewrite (lr_busy _ _ R). apply bool_decide_ext. cbn. rewrite list_elem_of_filter. naive_solver.
  - rewrite (equiv_ref _ _ V). cv_cbn. unfold fupd. case_decide as Hd'.
    + subst. rewrite (lr_ref _ _ R). unfold refs_of, dv_drop. cbn. rewrite (decide_True (P := b ∈ dv_held v)) by done.
      rewrite (decide_False (P := b ∈ filter _ _)) by (rewrite list_elem_of_filter; naive_solver).
      case_decide; by rewrite u32_small by lia.
    + rewrite (lr_ref _ _ R). unfold refs_of, dv_drop. cbn. f_equal. apply decide_ext.
      rewrite list_elem_of_filter. naive_solver.
  - rewrite (equiv_mem _ _ V), (equiv_disk _ _ V). apply (lr_clean _ _ R).
  - cbn. intros H. apply list_elem_of_filter. split; [by intros ->|]. by apply (lr_dirty _ _ R).
Qed.

Lemma log_write_ok s v h b :
  log_rep s v → holds (bc s) h b → loggable lo hi b → log_space lo hi 1 v →
  ∃ s', run (d_log_write h) s () s' ∧ log_rep s' (dv_log b v) ∧
    ∀ h' b', holds (bc s) h' b' → holds (bc s') h' b'.
Proof.
  intros R Hh [Hb Hout] Hs. pose proof (lr_cwf _ _ R) as W. pose proof (lr_ok _ _ R) as Hok.
  pose proof (lr_area _ _ R) as [Elo Ehi]. unfold log_space in Hs.
  assert (Z.of_nat (length (dv_logged v)) = lh_n (lg s)) as En.
  { rewrite <- (lr_homes _ _ R). unfold homes, nlog. rewrite length_fmap, length_seq. pose proof (lo_n _ _ Hok). lia. }
  pose proof (refs_range v b) as Hr.
  destruct (log_write_spec dev s h b) as (s' & E & Hok' & Hin & Hnew & K); try done.
  { unfold in_log. lia. }
  { rewrite (lr_ref _ _ R). lia. }
  { lia. }
  { lia. }
  { apply (lr_out _ _ R). }
  exists s'. split; [done|]. split; [|done].
  destruct (decide (b ∈ dv_logged v)) as [Hl|Hl].
  - rewrite <- (lr_homes _ _ R) in Hl. rewrite (Hin Hl) in *. rewrite (lr_homes _ _ R) in Hl.
    destruct R. split; cbn; unfold add_logged; rewrite ?decide_True by done; try done.
    + intros b'. rewrite lr_ref0. unfold refs_of, dv_log, add_logged. cbn. by rewrite (decide_True (P := b ∈ _)) by done.
    + intros b' H1 H2. apply lr_clean0; [done|]. intros H3. apply H2, list_elem_of_filter. split; [by intros ->|done].
    + intros b' [_ H]%list_elem_of_filter. by apply lr_dirty0.
  - pose proof Hl as Hl'. rewrite <- (lr_homes _ _ R) in Hl. destruct (Hnew Hl) as (Eh & W' & V).
    apply log_write_lg in E as (i & El). split; rewrite ?El; cbn; try apply R; try done.
    + by rewrite El in Hok'.
    + rewrite El in Eh. unfold add_logged. rewrite (decide_False (P := b ∈ _)) by done. rewrite <- (lr_homes _ _ R). exact Eh.
    + intros b'. rewrite (equiv_mem _ _ V). apply (lr_mem _ _ R).
    + intros b'. rewrite (equiv_busy _ _ V). apply (lr_busy _ _ R).
    + intros b'. rewrite (equiv_ref _ _ V). cv_cbn. unfold fupd, refs_of, dv_log, add_logged. cbn.
      rewrite (decide_False (P := b ∈ dv_logged v)) by done. destruct (decide (b' = b)) as [->|Hb'].
      * rewrite (lr_ref _ _ R), u32_small by lia. unfold refs_of. cbn.
        rewrite !(decide_False (P := b ∈ dv_logged v)) by done.
        rewrite (decide_True (P := b ∈ dv_logged v ++ [b])) by set_solver. lia.
      * rewrite (lr_ref _ _ R). unfold refs_of. f_equal. apply decide_ext. set_solver.
    + unfold add_logged. rewrite decide_False by done. intros b' [H1 H2]%not_elem_of_app H3.
      rewrite (equiv_mem _ _ V), (equiv_disk _ _ V). apply (lr_clean _ _ R); [done|]. intros H4.
      apply H3, list_elem_of_filter. split; [|done]. intros ->. by apply H2; left.
    + intros b' [_ H]%list_elem_of_filter. by apply (lr_dirty _ _ R).
Qed.

Lemma log_length_ok s v b : log_rep s v → length (dv_mem v b) = BSIZE.
Proof. intros R. rewrite <- (lr_mem _ _ R). apply cv_mem_length, (lr_cwf _ _ R). Qed.

Lemma log_data_ok s v h b : log_rep s v → holds (bc s) h b → d_data h s = dv_mem v b.
Proof. intros R H. rewrite <- (lr_mem _ _ R). apply holds_data; [|done]. apply (lr_cwf _ _ R). Qed.

Lemma log_held_ok s v h b : log_rep s v → holds (bc s) h b → b ∈ dv_held v.
Proof.
  intros R H. apply (holds_busy _ _ _ (lr_cwf _ _ R)) in H. rewrite (lr_busy _ _ R) in H.
  by apply bool_decide_eq_true in H.
Qed.

#[export] Instance log_disk_spec : LogDiskSpec (lstate C) dev lo hi := {
  drep := log_rep;
  dholds s := holds (bc s);
  drep_length := log_length_ok;
  drep_dirty s v b R := lr_dirty s v R b;
  dholds_data := log_data_ok;
  dholds_held := log_held_ok;
  d_bread_spec := log_bread_ok;
  d_store_spec := log_store_ok;
  d_log_write_spec := log_write_ok;
  d_brelse_spec := log_brelse_ok;
}.
End log_disk.

(** A transaction that has just begun on a freshly booted cache. *)
Lemma boot_rep (dev tk pid : Z) (d : gmap Z block) (l : log) :
  dev ≠ 0 → (∀ b x, d !! b = Some x → length x = BSIZE) → log_ok dev l → lh_n l = 0 → 0 < lg_outstanding l →
  log_rep (BufCacheSpec0 := bio_spec dev) dev (lg_start l) (lg_start l + lg_size l)
    (LState l (binit tk pid d)) (DView (dread d) [] [] []).
Proof.
  intros Hdev Hd Hok Hn Ho. pose proof (binit_cv dev tk pid d Hdev) as V.
  assert (homes l = []) as Eh by (unfold homes, nlog; by rewrite Hn).
  split; cbn [lg bc dv_mem dv_held dv_logged dv_dirty]; try done.
  - by apply binit_wf.
  - intros b. apply (equiv_mem _ _ V).
  - intros b. apply (equiv_busy _ _ V).
  - intros b. apply (equiv_ref _ _ V).
  - intros b _ _. etrans; [apply (equiv_mem _ _ V)|]. symmetry. apply (equiv_disk _ _ V).
Qed.
