(* ===== verification/CString.v ===== *)
(** * string.c: memory and string routines

    Memory is a function from addresses to bytes; a pointer is an address and
    pointer arithmetic does not wrap (kernel buffers lie inside RAM).  [char]
    is unsigned on RISC-V.  The loops are written as the code runs them, one
    load and one store at a time on the same memory, so that overlapping
    buffers behave as they do on the machine.  A loop bounded by a count [n]
    recurses on it; [strlen], which has no bound, takes a fuel argument. *)

From S2P Require Import Prelude.

Abbreviation mem := (Z → Z) (only parsing).

Definition mset (a v : Z) (m : mem) : mem := λ a', if decide (a' = a) then v else m a'.

Lemma mset_eq a v m : mset a v m a = v.
Proof. unfold mset. by case_decide. Qed.
Lemma mset_ne a a' v m : a' ≠ a → mset a v m a' = m a'.
Proof. intros. unfold mset. by case_decide. Qed.

Create HintDb cmem.
#[export] Hint Rewrite mset_eq : cmem.
#[export] Hint Rewrite mset_ne using lia : cmem.

(** ** memset, memcmp, memmove *)

Fixpoint memset_loop (dst c : Z) (n : nat) (m : mem) : mem :=
  match n with
  | O => m
  | S n' => memset_loop (dst + 1) c n' (mset dst (u8 c) m)
  end.
Definition memset (dst c : Z) (n : nat) (m : mem) : mem := memset_loop dst c n m.

Fixpoint memcmp (v1 v2 : Z) (n : nat) (m : mem) : Z :=
  match n with
  | O => 0
  | S n' => if m v1 =? m v2 then memcmp (v1 + 1) (v2 + 1) n' m else m v1 - m v2
  end.

Fixpoint copy_up (d s : Z) (n : nat) (m : mem) : mem :=
  match n with
  | O => m
  | S n' => copy_up (d + 1) (s + 1) n' (mset d (m s) m)
  end.

Fixpoint copy_down (d s : Z) (n : nat) (m : mem) : mem :=
  match n with
  | O => m
  | S n' => copy_down (d - 1) (s - 1) n' (mset (d - 1) (m (s - 1)) m)
  end.

Definition memmove (dst src : Z) (n : nat) (m : mem) : mem :=
  if (src <? dst) && (dst <? src + Z.of_nat n)
  then copy_down (dst + Z.of_nat n) (src + Z.of_nat n) n m
  else copy_up dst src n m.

Definition memcpy (dst src : Z) (n : nat) (m : mem) : mem := memmove dst src n m.

(** ** Strings *)

Fixpoint strncmp (p q : Z) (n : nat) (m : mem) : Z :=
  match n with
  | O => 0
  | S n' =>
      if negb (m p =? 0) && (m p =? m q) then strncmp (p + 1) (q + 1) n' m
      else u8 (m p) - u8 (m q)
  end.

(** The loop that copies a byte at a time while the count lasts and the byte
    copied is not NUL: the memory, the address after the last byte stored and the count that is left. *)
Fixpoint copy_str (s t : Z) (n : nat) (m : mem) : mem * Z * nat :=
  match n with
  | O => (m, s, O)
  | S n' =>
      let m' := mset s (m t) m in
      if m t =? 0 then (m', s + 1, n') else copy_str (s + 1) (t + 1) n' m'
  end.

Definition strncpy (s t : Z) (n : nat) (m : mem) : mem :=
  let '(m1, s1, n1) := copy_str s t n m in memset_loop s1 0 n1 m1.

(** A final NUL after a loop that runs on [n - 1]. *)
Definition safestrcpy (s t : Z) (n : nat) (m : mem) : mem :=
  match n with
  | O => m
  | S n' => let '(m1, s1, _) := copy_str s t n' m in mset s1 0 m1
  end.

Fixpoint strlen (fuel : nat) (s n : Z) (m : mem) : option Z :=
  match fuel with
  | O => None
  | S fuel' => if m (s + n) =? 0 then Some n else strlen fuel' s (n + 1) m
  end.

(** ** What the loops leave in memory *)

Lemma memset_loop_spec dst c n m a :
  memset_loop dst c n m a = if decide (dst ≤ a < dst + Z.of_nat n) then u8 c else m a.
Proof.
  revert dst m. induction n as [|n IH]; intros dst m; simpl memset_loop.
  - case_decide; [lia|done].
  - rewrite IH. unfold mset. repeat case_decide; try done; lia.
Qed.

Lemma copy_up_spec d s n m a :
  d ≤ s ∨ s + Z.of_nat n ≤ d →
  copy_up d s n m a = if decide (d ≤ a < d + Z.of_nat n) then m (s + (a - d)) else m a.
Proof.
  revert d s m. induction n as [|n IH]; intros d s m H; simpl copy_up.
  - case_decide; [lia|done].
  - rewrite IH by lia. unfold mset. repeat case_decide; try lia; try done; f_equal; lia.
Qed.

Lemma copy_down_spec d s n m a :
  s < d →
  copy_down d s n m a = if decide (d - Z.of_nat n ≤ a < d) then m (s + (a - d)) else m a.
Proof.
  revert d s m. induction n as [|n IH]; intros d s m H; simpl copy_down.
  - case_decide; [lia|done].
  - rewrite IH by lia. unfold mset. repeat case_decide; try lia; try done; f_equal; lia.
Qed.

Lemma memmove_spec dst src n m a :
  memmove dst src n m a = if decide (dst ≤ a < dst + Z.of_nat n) then m (src + (a - dst)) else m a.
Proof.
  unfold memmove. destruct (Z.ltb_spec src dst), (Z.ltb_spec dst (src + Z.of_nat n)); simpl.
  2-4: apply copy_up_spec; lia.
  rewrite copy_down_spec by lia. repeat case_decide; try lia; try done. f_equal. lia.
Qed.

(** [memmove] copies correctly whatever the overlap of the two buffers:
    every byte of the destination becomes the byte the source held before the
    call, and no other byte changes. *)
Theorem memmove_correct dst src n m a :
  memmove dst src n m a =
  if decide (dst ≤ a < dst + Z.of_nat n) then m (src + (a - dst)) else m a.
Proof. apply memmove_spec. Qed.

(** [memcmp] and [strncmp] stop at the first position that decides them. *)
Lemma memcmp_spec v1 v2 n m :
  (memcmp v1 v2 n m = 0 ∧ ∀ i, 0 ≤ i < Z.of_nat n → m (v1 + i) = m (v2 + i)) ∨
  ∃ k, 0 ≤ k < Z.of_nat n ∧ m (v1 + k) ≠ m (v2 + k) ∧ memcmp v1 v2 n m = m (v1 + k) - m (v2 + k) ∧
       ∀ i, 0 ≤ i < k → m (v1 + i) = m (v2 + i).
Proof.
  revert v1 v2. induction n as [|n IH]; intros v1 v2; simpl memcmp; [left; split; [done|lia]|].
  assert (∀ v i, v + 1 + (i - 1) = v + i) as Hsh by lia.
  destruct (Z.eqb_spec (m v1) (m v2)) as [E|E].
  - destruct (IH (v1 + 1) (v2 + 1)) as [[H1 H2]|(k & Hk & Hne & H1 & H2)].
    + left. split; [done|]. intros i Hi. destruct (decide (i = 0)) as [->|]; [by rewrite !Z.add_0_r|].
      rewrite <- (Hsh v1), <- (Hsh v2). apply H2. lia.
    + right. exists (k + 1). rewrite (Z.add_comm k 1), !Z.add_assoc. split_and!; [lia..|done|done|].
      intros i Hi. destruct (decide (i = 0)) as [->|]; [by rewrite !Z.add_0_r|].
      rewrite <- (Hsh v1), <- (Hsh v2). apply H2. lia.
  - right. exists 0. rewrite !Z.add_0_r. split_and!; [lia..|done|done|lia].
Qed.

(** Equal C strings within the first [n] bytes: the same bytes up to and
    including a NUL, or for all [n]. *)
Definition str_eq (p q : Z) (n : nat) (m : mem) : Prop :=
  ∀ i, 0 ≤ i < Z.of_nat n → (∀ j, 0 ≤ j < i → m (p + j) ≠ 0) → m (p + i) = m (q + i).

Definition bytes_ok (m : mem) : Prop := ∀ a, 0 ≤ m a < 256.

(** [strncmp] returns 0 exactly when the two strings agree on their first
    [n] bytes (up to a terminating NUL). *)
Theorem strncmp_zero_iff p q n m : bytes_ok m → strncmp p q n m = 0 ↔ str_eq p q n m.
Proof.
  intros Hm. revert p q. induction n as [|n IH]; intros p q; simpl strncmp.
  - split; [|done]. intros _ i Hi. lia.
  - assert (u8 (m p) - u8 (m q) = 0 ↔ m p = m q) as Hd.
    { pose proof (Hm p). pose proof (Hm q). unfold u8. rewrite !Z.mod_small by lia. lia. }
    assert (str_eq p q (S n) m → m p = m q) as H0.
    { intros H. specialize (H 0 ltac:(lia) ltac:(lia)). by rewrite !Z.add_0_r in H. }
    destruct (Z.eqb_spec (m p) 0) as [Ez|Ez], (Z.eqb_spec (m p) (m q)) as [E|E]; simpl;
      try (rewrite Hd; split; [|done]; intros E'; try congruence).
    + intros i Hi Hnz. destruct (decide (i = 0)) as [->|]; [by rewrite !Z.add_0_r|].
      exfalso. apply (Hnz 0); [lia|]. by rewrite Z.add_0_r.
    + rewrite IH. split; intros H i Hi Hnz.
      * destruct (decide (i = 0)) as [->|]; [by rewrite !Z.add_0_r|].
        replace (p + i) with (p + 1 + (i - 1)) by lia. replace (q + i) with (q + 1 + (i - 1)) by lia.
        apply H; [lia|]. intros j Hj. rewrite <- Z.add_assoc. apply Hnz. lia.
      * rewrite <- !Z.add_assoc. apply H; [lia|]. intros j Hj.
        destruct (decide (j = 0)) as [->|]; [by rewrite Z.add_0_r|].
        replace (p + j) with (p + 1 + (j - 1)) by lia. apply Hnz. lia.
Qed.

(** The copying loop stops after [k] non-NUL bytes, at a NUL or at the count. *)
Lemma copy_str_spec s t n m :
  (∀ i j, 0 ≤ i ≤ Z.of_nat n → 0 ≤ j ≤ Z.of_nat n → s + i ≠ t + j) →
  ∃ k, 0 ≤ k ≤ Z.of_nat n ∧ (∀ i, 0 ≤ i < k → m (t + i) ≠ 0) ∧
    ((k = Z.of_nat n ∧ (copy_str s t n m).1.2 = s + k ∧ (copy_str s t n m).2 = O ∧
      ∀ a, (copy_str s t n m).1.1 a = if decide (s ≤ a < s + k) then m (t + (a - s)) else m a) ∨
     (k < Z.of_nat n ∧ m (t + k) = 0 ∧ (copy_str s t n m).1.2 = s + k + 1 ∧
      Z.of_nat (copy_str s t n m).2 = Z.of_nat n - k - 1 ∧
      ∀ a, (copy_str s t n m).1.1 a = if decide (s ≤ a < s + k + 1) then m (t + (a - s)) else m a)).
Proof.
  revert s t m. induction n as [|n IH]; intros s t m Hdis; simpl copy_str.
  - exists 0. split; [lia|]. split; [lia|]. left. split_and!; [done|simpl; lia|done|].
    intros a. case_decide; [lia|done].
  - destruct (Z.eqb_spec (m t) 0) as [E|E].
    + exists 0. split; [lia|]. split; [lia|]. right. split_and!; [lia|by rewrite Z.add_0_r|simpl; lia|simpl; lia|].
      intros a. simpl. unfold mset. repeat case_decide; try lia; try done. f_equal. lia.
    + set (m' := mset s (m t) m).
      assert (∀ i, 0 ≤ i ≤ Z.of_nat n → m' (t + 1 + i) = m (t + 1 + i)) as Hm'.
      { intros i Hi. apply mset_ne. intros Ha. apply (Hdis 0 (i + 1)); lia. }
      destruct (IH (s + 1) (t + 1) m') as (k & Hk & Hnz & Hcase).
      { intros i j Hi Hj Ha. apply (Hdis (i + 1) (j + 1)); lia. }
      exists (k + 1). split; [lia|]. split.
      { intros i Hi. destruct (decide (i = 0)) as [->|]; [by rewrite Z.add_0_r|].
        replace (t + i) with (t + 1 + (i - 1)) by lia. rewrite <- Hm' by lia. apply Hnz. lia. }
      destruct Hcase as [(Ek & Hs & Hn & Ha)|(Ek & Hz & Hs & Hn & Ha)].
      * left. split_and!; [lia|lia|done|]. intros a. rewrite Ha. unfold m', mset.
        repeat case_decide; try lia; try done; try (f_equal; lia).
        exfalso. by apply (Hdis 0 (1 + (a - (s + 1)))); lia.
      * right. replace (t + (k + 1)) with (t + 1 + k) by lia. rewrite <- Hm' by lia.
        split_and!; [lia|done|lia|lia|]. intros a. rewrite Ha. unfold m', mset.
        repeat case_decide; try lia; try done; try (f_equal; lia).
        exfalso. by apply (Hdis 0 (1 + (a - (s + 1)))); lia.
Qed.

(** The buffers of a string copy do not overlap. *)
Definition disjoint (s t : Z) (n : nat) : Prop := s + Z.of_nat n < t ∨ t + Z.of_nat n < s.

(** [safestrcpy] always terminates the destination: it copies the longest
    prefix without NUL that fits in [n - 1] bytes, stores a NUL right after
    it and writes nothing outside the [n] bytes of the destination. *)
Theorem safestrcpy_terminates s t n m :
  (0 < n)%nat → disjoint s t n →
  ∃ k, 0 ≤ k < Z.of_nat n ∧
    (∀ i, 0 ≤ i < k → m (t + i) ≠ 0) ∧ (k = Z.of_nat n - 1 ∨ m (t + k) = 0) ∧
    (∀ i, 0 ≤ i < k → safestrcpy s t n m (s + i) = m (t + i)) ∧
    safestrcpy s t n m (s + k) = 0 ∧
    ∀ a, a < s ∨ s + Z.of_nat n ≤ a → safestrcpy s t n m a = m a.
Proof.
  intros Hn Hdis. destruct n as [|n]; [lia|]. unfold safestrcpy.
  destruct (copy_str_spec s t n m) as (k & Hk & Hnz & Hcase); [unfold disjoint in Hdis; lia|].
  destruct (copy_str s t n m) as [[m1 s1] n1]. simpl in Hcase. exists k. split; [lia|]. split; [done|].
  destruct Hcase as [(Ek & Hs & Hn1 & Ha)|(Ek & Hz & Hs & Hn1 & Ha)].
  - split; [left; lia|]. subst s1. split_and!.
    + intros i Hi. rewrite mset_ne, Ha by lia. rewrite decide_True by lia. f_equal. lia.
    + apply mset_eq.
    + intros a Hout. rewrite mset_ne, Ha by lia. by rewrite decide_False by lia.
  - split; [by right|]. subst s1. split_and!.
    + intros i Hi. rewrite mset_ne, Ha by lia. rewrite decide_True by lia. f_equal. lia.
    + rewrite mset_ne, Ha by lia. rewrite decide_True by lia. rewrite <- Hz. f_equal. lia.
    + intros a Hout. rewrite mset_ne, Ha by lia. by rewrite decide_False by lia.
Qed.

(** [strncpy] fills the whole of its [n] bytes: the source up to its NUL, then
    zeros (and no NUL at all when the source is [n] bytes or longer). *)
Lemma strncpy_spec s t n m :
  disjoint s t n →
  ∃ k, 0 ≤ k ≤ Z.of_nat n ∧ (∀ i, 0 ≤ i < k → m (t + i) ≠ 0) ∧ (k = Z.of_nat n ∨ m (t + k) = 0) ∧
    ∀ a, strncpy s t n m a =
      if decide (s ≤ a < s + k) then m (t + (a - s)) else if decide (s + k ≤ a < s + Z.of_nat n) then 0 else m a.
Proof.
  intros Hdis. unfold strncpy.
  destruct (copy_str_spec s t n m) as (k & Hk & Hnz & Hcase); [unfold disjoint in Hdis; lia|].
  destruct (copy_str s t n m) as [[m1 s1] n1]. simpl in Hcase. exists k. split; [lia|]. split; [done|].
  destruct Hcase as [(Ek & Hs & Hn1 & Ha)|(Ek & Hz & Hs & Hn1 & Ha)].
  - split; [by left|]. intros a. rewrite memset_loop_spec, Ha, Hn1. repeat case_decide; try lia; done.
  - split; [by right|]. intros a. rewrite memset_loop_spec, Ha. subst s1.
    repeat case_decide; try lia; try done. rewrite <- Hz. f_equal. lia.
Qed.

(** [strlen] with fuel beyond the first NUL returns its position. *)
Lemma strlen_spec fuel s n k m :
  0 ≤ k → (∀ i, 0 ≤ i < k → m (s + (n + i)) ≠ 0) → m (s + (n + k)) = 0 → k < Z.of_nat fuel →
  strlen fuel s n m = Some (n + k).
Proof.
  revert n k. induction fuel as [|fuel IH]; intros n k Hk Hnz Hz Hf; [lia|]. simpl.
  destruct (decide (k = 0)) as [->|].
  - rewrite Z.add_0_r in *. by rewrite Hz.
  - specialize (Hnz 0 ltac:(lia)) as H0. rewrite Z.add_0_r in H0.
    destruct (Z.eqb_spec (m (s + n)) 0); [done|].
    rewrite (IH (n + 1) (k - 1)); [f_equal; lia|lia| | |lia].
    + intros i Hi. replace (n + 1 + i) with (n + (i + 1)) by lia. apply Hnz. lia.
    + by replace (n + 1 + (k - 1)) with (n + k) by lia.
Qed.

(** ** Strings in fields

    A character array inside a structure is a list; the routines run on a
    memory that holds two such arrays, the first at 0 and the second at 1000.
    Reading past a list finds a NUL. *)

Definition two_strings (a b : list Z) : mem := λ x, default 0 (if x <? 1000 then a !! Z.to_nat x else b !! Z.to_nat (x - 1000)).
Definition field_of (n : nat) (m : mem) : list Z := (λ k, m (Z.of_nat k)) <$> seq 0 n.

Definition strncpy_field (n : nat) (dst src : list Z) : list Z := field_of n (strncpy 0 1000 n (two_strings dst src)).
Definition safestrcpy_field (n : nat) (dst src : list Z) : list Z := field_of n (safestrcpy 0 1000 n (two_strings dst src)).
Definition strncmp_field (n : nat) (a b : list Z) : Z := strncmp 0 1000 n (two_strings a b).

Lemma two_strings_bytes a b : Forall (λ c, 0 ≤ c < 256) a → Forall (λ c, 0 ≤ c < 256) b → bytes_ok (two_strings a b).
Proof.
  intros Ha Hb x. unfold two_strings. destruct (x <? 1000).
  - destruct (a !! _) eqn:E; cbn; [by eapply (Forall_lookup_1 _ _ _ _ Ha)|lia].
  - destruct (b !! _) eqn:E; cbn; [by eapply (Forall_lookup_1 _ _ _ _ Hb)|lia].
Qed.

Lemma field_of_lookup n m i : (i < n)%nat → field_of n m !! i = Some (m (Z.of_nat i)).
Proof. intros Hi. unfold field_of. by rewrite list_lookup_fmap, lookup_seq_lt. Qed.

(** The bytes of a field that strncpy has filled. *)
Lemma strncpy_field_spec n dst src : (n < 1000)%nat →
  ∃ k, (k ≤ n)%nat ∧ (∀ i, (i < k)%nat → default 0 (src !! i) ≠ 0) ∧ (k = n ∨ default 0 (src !! k) = 0) ∧
    ∀ i, (i < n)%nat → strncpy_field n dst src !! i = Some (if decide (i < k)%nat then default 0 (src !! i) else 0).
Proof.
  intros Hn. destruct (strncpy_spec 0 1000 n (two_strings dst src)) as (k & Hk & Hnz & Hend & Ha); [unfold disjoint; lia|].
  assert (∀ i, 0 ≤ i → two_strings dst src (1000 + i) = default 0 (src !! Z.to_nat i)) as Hsrc.
  { intros i Hi. unfold two_strings. rewrite (proj2 (Z.ltb_ge _ _)) by lia. do 2 f_equal. lia. }
  exists (Z.to_nat k). split; [lia|]. split_and!.
  - intros i Hi. rewrite <-(Nat2Z.id i), <-Hsrc by lia. apply Hnz. lia.
  - destruct Hend as [->|Hz]; [left; lia|right]. by rewrite Hsrc in Hz by lia.
  - intros i Hi. unfold strncpy_field. rewrite field_of_lookup, Ha by done. f_equal.
    destruct (decide (i < Z.to_nat k)%nat).
    + rewrite decide_True by lia. rewrite Z.sub_0_r, Hsrc, Nat2Z.id by lia. done.
    + rewrite decide_False, decide_True by lia. done.
Qed.

(** A copied name compares equal to its source. *)
Lemma strncpy_strncmp n dst src : (n < 1000)%nat → Forall (λ c, 0 ≤ c < 256) src → strncmp_field n (strncpy_field n dst src) src = 0.
Proof.
  intros Hn Hb. destruct (strncpy_field_spec n dst src Hn) as (k & Hk & Hnz & Hend & Hl).
  assert (Forall (λ c, 0 ≤ c < 256) (strncpy_field n dst src)) as Hb'.
  { apply Forall_lookup. intros i x Hx. assert (i < n)%nat as Hi.
    { apply lookup_lt_Some in Hx. unfold strncpy_field, field_of in Hx. by rewrite length_fmap, length_seq in Hx. }
    rewrite Hl in Hx by done. injection Hx as <-. case_decide; [|lia]. destruct (src !! i) eqn:E; cbn; [|lia].
    by apply (Forall_lookup_1 _ _ _ _ Hb E). }
  apply strncmp_zero_iff; [by apply two_strings_bytes|]. intros i Hi Hpre.
  assert (∀ j, 0 ≤ j < Z.of_nat n → two_strings (strncpy_field n dst src) src (0 + j) =
            if decide (Z.to_nat j < k)%nat then default 0 (src !! Z.to_nat j) else 0) as Hf.
  { intros j Hj. unfold two_strings. rewrite (proj2 (Z.ltb_lt _ _)) by lia. rewrite Z.add_0_l, Hl by lia. done. }
  assert (two_strings (strncpy_field n dst src) src (1000 + i) = default 0 (src !! Z.to_nat i)) as ->.
  { unfold two_strings. rewrite (proj2 (Z.ltb_ge _ _)) by lia. do 2 f_equal. lia. }
  rewrite Hf by lia. case_decide as Hik; [done|]. destruct Hend as [->|Hz]; [lia|].
  destruct (decide (Z.to_nat i = k)) as [->|]; [done|]. exfalso. apply (Hpre (Z.of_nat k)); [lia|].
  rewrite Hf by lia. rewrite decide_False by lia. done.
Qed.

(** The string "ab" at address 100. *)
Definition m_ex : mem := λ a, if a =? 100 then 97 else if a =? 101 then 98 else 0.

Lemma m_ex_bytes : bytes_ok m_ex.
Proof. intros a. unfold m_ex. destruct (a =? 100), (a =? 101); lia. Qed.

Lemma strncmp_zero_iff_witness : str_eq 100 200 0 m_ex ∧ ¬ str_eq 100 200 4 m_ex.
Proof.
  split; [by apply (strncmp_zero_iff 100 200 0 m_ex m_ex_bytes)|].
  intros H. by apply (strncmp_zero_iff 100 200 4 m_ex m_ex_bytes) in H.
Defined.

Lemma safestrcpy_terminates_witness :
  ∃ k, 0 ≤ k < 2 ∧ safestrcpy 200 100 2 m_ex (200 + k) = 0.
Proof.
  destruct (safestrcpy_terminates 200 100 2 m_ex) as (k & Hk & _ & _ & _ & Hz & _).
  - lia.
  - right. lia.
  - exists k. split; [exact Hk|exact Hz].
Defined.
