(* ===== verification/Fs.v ===== *)
(** * fs.c: blocks, inodes, directories and paths

    The code of fs.c over the logged disk ([LogDisk]): the superblock, the
    block bitmap, the inode cache, the block map of a file with its direct,
    indirect and double-indirect blocks, reads and writes of file contents,
    directories and path lookup.  An inode pointer is an index of the inode
    cache; kernel buffers (names, paths, the directory entry on the stack)
    are addresses of the kernel memory [km]; user memory [um] maps an address
    to its byte, or to nothing where no page is mapped. *)

From S2P Require Import Prelude Bytes BufCache Bio Log LogDisk CString.

(** ** Constants and layout (fs.h, param.h, stat.h) *)

Definition FSMAGIC : Z := 0x10203040.
Definition ROOTDEV : Z := 1.
Definition ROOTINO : Z := 1.
Definition NINODE : nat := 50.
Definition BSZ : Z := 1024.
Definition NDIRECT : Z := 11.
Definition NADDR_PER_BLOCK : Z := 256.
Definition NINDIRECT : Z := 256.
Definition NDINDIRECT : Z := 256 * 256.
Definition MAXFILE : Z := NDIRECT + NINDIRECT + NDINDIRECT.
Definition DINODE_SIZE : Z := 64.
Definition IPB : Z := 16.
Definition BPB : Z := 8192.
Definition DIRSIZ : nat := 14.
Definition DIRENT_SIZE : Z := 16.
Definition T_DIR : Z := 1.

Definition i16 (z : Z) : Z := (z + 2 ^ 15) mod 2 ^ 16 - 2 ^ 15.

Definition IBLOCK (i : Z) (sb : superblock) : Z := u32 (i / IPB + sb_inodestart sb).
Definition BBLOCK (b : Z) (sb : superblock) : Z := u32 (b / BPB + sb_bmapstart sb).

(** ** State *)

Record inode := Inode {
  i_dev : Z;
  i_inum : Z;
  i_ref : Z;
  i_locked : bool;                      (* lock.locked *)
  i_pid : Z;                            (* lock.pid *)
  i_valid : bool;
  i_type : Z;
  i_mode : Z;
  i_major : Z;
  i_minor : Z;
  i_nlink : Z;
  i_size : Z;
  i_addrs : list Z;
}.
#[export] Instance inode_fields : Fields inode := λ i,
  Inode (i_dev i) (i_inum i) (i_ref i) (i_locked i) (i_pid i) (i_valid i) (i_type i) (i_mode i)
    (i_major i) (i_minor i) (i_nlink i) (i_size i) (i_addrs i).

Definition inode0 : inode := Inode 0 0 0 false 0 false 0 0 0 0 0 0 (replicate 13 0).

Record fstate (D : Type) := FState {
  sb : superblock;
  icache : list inode;
  cwd : nat;                            (* myproc()->cwd *)
  mypid : Z;                            (* myproc()->pid *)
  um : Z → option Z;
  km : mem;
  disk : D;
}.
Arguments FState {D} sb icache cwd mypid um km disk.
Arguments sb {D} _.
Arguments icache {D} _.
Arguments cwd {D} _.
Arguments mypid {D} _.
Arguments um {D} _.
Arguments km {D} _.
Arguments disk {D} _.
#[export] Instance fstate_fields D : Fields (fstate D) := λ s,
  FState (sb s) (icache s) (cwd s) (mypid s) (um s) (km s) (disk s).

(** ** On-disk records *)

(** [*dip] of inode [inum] inside its block. *)
Definition dip_off (inum : Z) : nat := Z.to_nat (inum mod IPB * DINODE_SIZE).

Definition dip_type (inum : Z) (d : block) : Z := ld 1 (dip_off inum + 1) d.

(** The loads of [ilock]. *)
Definition load_inode (d : block) (ip : inode) : inode :=
  let o := dip_off (i_inum ip) in
  ip <| i_type := ld 1 (o + 1) d |> <| i_major := i16 (ld 2 (o + 2) d) |> <| i_minor := i16 (ld 2 (o + 4) d) |>
     <| i_nlink := i16 (ld 2 (o + 6) d) |> <| i_size := ld 4 (o + 8) d |> <| i_mode := ld 1 o d |>
     <| i_addrs := (λ k, ld 4 (o + 12 + 4 * k) d) <$> seq 0 13 |>.

Fixpoint put_addrs (o : nat) (l : list Z) (d : block) : block :=
  match l with
  | [] => d
  | a :: l' => put_addrs (o + 4) l' (st 4 o a d)
  end.

(** The stores of [iupdate]. *)
Definition store_inode (ip : inode) (d : block) : block :=
  let o := dip_off (i_inum ip) in
  let d := st 1 (o + 1) (i_type ip) d in
  let d := st 2 (o + 2) (i_major ip) d in
  let d := st 2 (o + 4) (i_minor ip) d in
  let d := st 2 (o + 6) (i_nlink ip) d in
  let d := st 4 (o + 8) (i_size ip) d in
  let d := st 1 o (i_mode ip) d in
  put_addrs (o + 12) (i_addrs ip) d.

(** ** Copies between a buffer and memory

    [copyout] and [copyin] (vm.c) go page by page and stop at the first
    unmapped page; mappings are per page, so that is the first unmapped byte. *)

Fixpoint copyout_um (a : Z) (bs : list Z) (m : Z → option Z) : bool * (Z → option Z) :=
  match bs with
  | [] => (true, m)
  | x :: bs' =>
      match m a with
      | None => (false, m)
      | Some _ => copyout_um (a + 1) bs' (fupd a (Some x) m)
      end
  end.

(** Did the copy succeed, and the bytes read before it stopped. *)
Fixpoint copyin_um (a : Z) (n : nat) (m : Z → option Z) : bool * list Z :=
  match n with
  | O => (true, [])
  | S n' =>
      match m a with
      | None => (false, [])
      | Some x => let '(ok, bs) := copyin_um (a + 1) n' m in (ok, x :: bs)
      end
  end.

Fixpoint km_put (a : Z) (bs : list Z) (m : mem) : mem :=
  match bs with
  | [] => m
  | x :: bs' => km_put (a + 1) bs' (mset a x m)
  end.

Definition km_get (a : Z) (n : nat) (m : mem) : list Z := (λ i, m (a + Z.of_nat i)) <$> seq 0 n.

Section code.
Context {D : Type} `{!LogDisk D}.
Implicit Types (ip dp : nat).

Definition on_disk {A : Type} (m : ST D A) : ST (fstate D) A := λ s,
  match m (disk s) with
  | Ret (a, d') => Ret (a, s <| disk := d' |>)
  | Panic msg => Panic msg
  | Blocks => Blocks
  end.

Definition bread (dev b : Z) : ST (fstate D) nat := on_disk (d_bread dev b).
Definition brelse (bp : nat) : ST (fstate D) () := on_disk (d_brelse bp).
Definition log_write (bp : nat) : ST (fstate D) () := on_disk (d_log_write bp).
Definition data (bp : nat) : ST (fstate D) block := gets (λ s, d_data bp (disk s)).
Definition store (bp : nat) (d : block) : ST (fstate D) () := modify (λ s, s <| disk ::= d_store bp d |>).

Definition the_inode (ip : nat) : ST (fstate D) inode := gets (λ s, default inode0 (icache s !! ip)).
Definition upd_inode (ip : nat) (f : inode → inode) : ST (fstate D) () :=
  modify (λ s, s <| icache ::= alter f ip |>).

Definition either_copyout (user_dst : bool) (dst : Z) (bs : list Z) : ST (fstate D) bool :=
  if user_dst then
    s ← get;
    let '(ok, m) := copyout_um dst bs (um s) in
    _ ← modify (λ s, s <| um := m |>);
    mret ok
  else
    _ ← modify (λ s, s <| km ::= km_put dst bs |>);
    mret true.

Definition either_copyin (user_src : bool) (src : Z) (n : nat) : ST (fstate D) (bool * list Z) :=
  s ← get;
  mret (if user_src then copyin_um src n (um s) else (true, km_get src n (km s))).

(** ** Blocks *)

Definition readsb (dev : Z) : ST (fstate D) () :=
  bp ← bread dev 1;
  d ← data bp;
  _ ← modify (λ s, s <| sb := Superblock (ld32 0 d) (ld32 1 d) (ld32 2 d) (ld32 3 d)
                              (ld32 4 d) (ld32 5 d) (ld32 6 d) (ld32 7 d) |>);
  brelse bp.

Definition bzero (dev bno : Z) : ST (fstate D) () :=
  bp ← bread dev bno;
  _ ← store bp zero_block;
  _ ← log_write bp;
  brelse bp.

(** [(bp->data[bi/8] & (1 << (bi % 8))) != 0]. *)
Definition bit_set (d : block) (bi : Z) : bool :=
  negb (Z.land (byte_at d (Z.to_nat (bi / 8))) (Z.shiftl 1 (bi mod 8)) =? 0).
Definition set_bit (bi : Z) (d : block) : block :=
  let k := Z.to_nat (bi / 8) in <[k := Z.lor (byte_at d k) (Z.shiftl 1 (bi mod 8))]> d.
Definition clear_bit (bi : Z) (d : block) : block :=
  let k := Z.to_nat (bi / 8) in <[k := Z.land (byte_at d k) (u8 (Z.lnot (Z.shiftl 1 (bi mod 8))))]> d.

(** The inner loop of [balloc]: the first free bit from [bi] on. *)
Fixpoint scan_bits (n : nat) (bi b size : Z) (d : block) : option Z :=
  match n with
  | O => None
  | S n' =>
      if b + bi <? size then
        if bit_set d bi then scan_bits n' (bi + 1) b size d else Some bi
      else None
  end.

Fixpoint balloc_loop (n : nat) (dev b : Z) : ST (fstate D) Z :=
  match n with
  | O => panic "balloc: out of blocks"
  | S n' =>
      s ← get;
      if b <? sb_size (sb s) then
        bp ← bread dev (BBLOCK b (sb s));
        d ← data bp;
        match scan_bits (Z.to_nat BPB) 0 b (sb_size (sb s)) d with
        | Some bi =>
            _ ← store bp (set_bit bi d);
            _ ← log_write bp;
            _ ← brelse bp;
            _ ← bzero dev (b + bi);
            mret (b + bi)
        | None => _ ← brelse bp; balloc_loop n' dev (b + BPB)
        end
      else panic "balloc: out of blocks"
  end.

(** One iteration per bitmap block. *)
Definition balloc (dev : Z) : ST (fstate D) Z :=
  s ← get; balloc_loop (S (Z.to_nat (sb_size (sb s) / BPB))) dev 0.

Definition bfree (dev b : Z) : ST (fstate D) () :=
  s ← get;
  bp ← bread dev (BBLOCK b (sb s));
  d ← data bp;
  if negb (bit_set d (b mod BPB)) then panic "freeing free block"
  else
    _ ← store bp (clear_bit (b mod BPB) d);
    _ ← log_write bp;
    brelse bp.

(** ** The inode cache *)

(** The scan of [iget]: the cached inode, else the first free entry. *)
Definition iget (dev inum : Z) : ST (fstate D) nat :=
  s ← get;
  match findi (λ i, (0 <? i_ref i) && (i_dev i =? dev) && (i_inum i =? inum)) (icache s) with
  | Some ip => _ ← upd_inode ip (λ i, i <| i_ref ::= λ r, r + 1 |>); mret ip
  | None =>
      match findi (λ i, i_ref i =? 0) (icache s) with
      | None => panic "iget: no inodes"
      | Some ip =>
          _ ← upd_inode ip (λ i, i <| i_dev := dev |> <| i_inum := inum |> <| i_ref := 1 |> <| i_valid := false |>);
          mret ip
      end
  end.

Definition idup (ip : nat) : ST (fstate D) nat :=
  _ ← upd_inode ip (λ i, i <| i_ref ::= λ r, r + 1 |>); mret ip.

(** [acquiresleep] and [releasesleep] on [ip->lock]. *)
Definition ilock_acquire (ip : nat) : ST (fstate D) () :=
  i ← the_inode ip;
  if i_locked i then blocks
  else s ← get; upd_inode ip (λ i, i <| i_locked := true |> <| i_pid := mypid s |>).
Definition ilock_release (ip : nat) : ST (fstate D) () :=
  upd_inode ip (λ i, i <| i_locked := false |> <| i_pid := 0 |>).

Definition ilock (ip : nat) : ST (fstate D) () :=
  i ← the_inode ip;
  if i_ref i <? 1 then panic "ilock"
  else
    _ ← ilock_acquire ip;
    i ← the_inode ip;
    if i_valid i then mret ()
    else
      s ← get;
      bp ← bread (i_dev i) (IBLOCK (i_inum i) (sb s));
      d ← data bp;
      _ ← upd_inode ip (load_inode d);
      _ ← brelse bp;
      _ ← upd_inode ip (λ i, i <| i_valid := true |>);
      i ← the_inode ip;
      if i_type i =? 0 then panic "ilock: no type" else mret ().

Definition iunlock (ip : nat) : ST (fstate D) () :=
  i ← the_inode ip;
  s ← get;
  if negb (i_locked i && (i_pid i =? mypid s)) || (i_ref i <? 1) then panic "iunlock"
  else ilock_release ip.

Definition iupdate (ip : nat) : ST (fstate D) () :=
  i ← the_inode ip;
  s ← get;
  bp ← bread (i_dev i) (IBLOCK (i_inum i) (sb s));
  d ← data bp;
  _ ← store bp (store_inode i d);
  _ ← log_write bp;
  brelse bp.

Fixpoint ialloc_loop (n : nat) (dev type inum : Z) : ST (fstate D) nat :=
  match n with
  | O => panic "ialloc: no inodes"
  | S n' =>
      s ← get;
      if inum <? sb_ninodes (sb s) then
        bp ← bread dev (IBLOCK inum (sb s));
        d ← data bp;
        if dip_type inum d =? 0 then
          _ ← store bp (st 1 (dip_off inum) 3 (st 1 (dip_off inum + 1) type
                         (splice (dip_off inum) (replicate (Z.to_nat DINODE_SIZE) 0) d)));
          _ ← log_write bp;
          _ ← brelse bp;
          iget dev inum
        else _ ← brelse bp; ialloc_loop n' dev type (inum + 1)
      else panic "ialloc: no inodes"
  end.

Definition ialloc (dev type : Z) : ST (fstate D) nat :=
  s ← get; ialloc_loop (Z.to_nat (sb_ninodes (sb s))) dev type 1.

(** ** Contents of a file *)

Definition addr_at (i : inode) (k : Z) : Z := default 0 (i_addrs i !! Z.to_nat k).
Definition set_addr (ip : nat) (k a : Z) : ST (fstate D) () :=
  upd_inode ip (λ i, i <| i_addrs ::= <[Z.to_nat k := a]> |>).

(** [if((addr = ip->addrs[k]) == 0) ip->addrs[k] = addr = balloc(ip->dev);] *)
Definition inode_slot (ip : nat) (k : Z) : ST (fstate D) Z :=
  i ← the_inode ip;
  if addr_at i k =? 0 then
    a ← balloc (i_dev i); _ ← set_addr ip k a; mret a
  else mret (addr_at i k).

(** Entry [k] of the indirect block [addr], allocated when it is 0. *)
Definition indirect_slot (dev addr k : Z) : ST (fstate D) Z :=
  bp ← bread dev addr;
  d ← data bp;
  a ← (if ld32 (Z.to_nat k) d =? 0 then
         a ← balloc dev;
         d ← data bp;
         _ ← store bp (st32 (Z.to_nat k) a d);
         _ ← log_write bp;
         mret a
       else mret (ld32 (Z.to_nat k) d));
  _ ← brelse bp;
  mret a.

Definition bmap (ip : nat) (bn : Z) : ST (fstate D) Z :=
  i ← the_inode ip;
  if bn <? NDIRECT then inode_slot ip bn
  else
    let bn := bn - NDIRECT in
    if bn <? NINDIRECT then
      addr ← inode_slot ip NDIRECT;
      indirect_slot (i_dev i) addr bn
    else
      let bn := bn - NINDIRECT in
      if bn <? NDINDIRECT then
        addr ← inode_slot ip (NDIRECT + 1);
        addr ← indirect_slot (i_dev i) addr (bn / NADDR_PER_BLOCK);
        indirect_slot (i_dev i) addr (bn mod NADDR_PER_BLOCK)
      else panic "bmap: out of range".

(** The loops of [itrunc]: [for(j = 0; j < NINDIRECT; j++) if(a[j]) bfree(a[j])]
    over one indirect block, which is read through its held buffer. *)
Fixpoint free_entries (n : nat) (k : nat) (dev : Z) (bp : nat) : ST (fstate D) () :=
  match n with
  | O => mret ()
  | S n' =>
      d ← data bp;
      _ ← (if ld32 k d =? 0 then mret () else bfree dev (ld32 k d));
      free_entries n' (k + 1) dev bp
  end.

Definition free_indirect (dev addr : Z) : ST (fstate D) () :=
  bp ← bread dev addr;
  _ ← free_entries (Z.to_nat NADDR_PER_BLOCK) 0 dev bp;
  _ ← brelse bp;
  bfree dev addr.

Fixpoint free_dentries (n : nat) (k : nat) (dev : Z) (bp : nat) : ST (fstate D) () :=
  match n with
  | O => mret ()
  | S n' =>
      d ← data bp;
      _ ← (if ld32 k d =? 0 then mret () else free_indirect dev (ld32 k d));
      free_dentries n' (k + 1) dev bp
  end.

Fixpoint free_direct (n : nat) (k : Z) (ip : nat) : ST (fstate D) () :=
  match n with
  | O => mret ()
  | S n' =>
      i ← the_inode ip;
      _ ← (if addr_at i k =? 0 then mret ()
           else _ ← bfree (i_dev i) (addr_at i k); set_addr ip k 0);
      free_direct n' (k + 1) ip
  end.

Definition itrunc (ip : nat) : ST (fstate D) () :=
  _ ← free_direct (Z.to_nat NDIRECT) 0 ip;
  i ← the_inode ip;
  _ ← (if addr_at i NDIRECT =? 0 then mret ()
       else _ ← free_indirect (i_dev i) (addr_at i NDIRECT); set_addr ip NDIRECT 0);
  i ← the_inode ip;
  _ ← (if addr_at i (NDIRECT + 1) =? 0 then mret ()
       else
         bp ← bread (i_dev i) (addr_at i (NDIRECT + 1));
         _ ← free_dentries (Z.to_nat NADDR_PER_BLOCK) 0 (i_dev i) bp;
         _ ← brelse bp;
         _ ← bfree (i_dev i) (addr_at i (NDIRECT + 1));
         set_addr ip (NDIRECT + 1) 0);
  _ ← upd_inode ip (λ i, i <| i_size := 0 |>);
  iupdate ip.

Definition iput (ip : nat) : ST (fstate D) () :=
  i ← the_inode ip;
  _ ← (if (i_ref i =? 1) && i_valid i && (i_nlink i =? 0) then
         _ ← ilock_acquire ip;
         _ ← itrunc ip;
         _ ← upd_inode ip (λ i, i <| i_type := 0 |>);
         _ ← iupdate ip;
         _ ← upd_inode ip (λ i, i <| i_valid := false |>);
         ilock_release ip
       else mret ());
  upd_inode ip (λ i, i <| i_ref ::= λ r, r - 1 |>).

Definition iunlockput (ip : nat) : ST (fstate D) () := _ ← iunlock ip; iput ip.

Record stat := Stat {
  st_dev : Z; st_ino : Z; st_type : Z; st_mode : Z; st_nlink : Z; st_size : Z
}.
Definition stati (ip : nat) : ST (fstate D) stat :=
  i ← the_inode ip;
  mret (Stat (i_dev i) (i_inum i) (i_type i) (i_mode i) (i_nlink i) (i_size i)).

Fixpoint readi_loop (fuel : nat) (ip : nat) (user_dst : bool) (dst off tot n : Z) : ST (fstate D) Z :=
  match fuel with
  | O => mret tot
  | S fuel' =>
      if tot <? n then
        i ← the_inode ip;
        addr ← bmap ip (off / BSZ);
        bp ← bread (i_dev i) addr;
        let m := Z.min (n - tot) (BSZ - off mod BSZ) in
        d ← data bp;
        ok ← either_copyout user_dst dst (take (Z.to_nat m) (drop (Z.to_nat (off mod BSZ)) d));
        _ ← brelse bp;
        if (ok : bool) then readi_loop fuel' ip user_dst (dst + m) (off + m) (tot + m) n
        else mret tot
      else mret tot
  end.

(** Every iteration but the first starts a block: [n / BSIZE + 2] suffice. *)
Definition readi (ip : nat) (user_dst : bool) (dst off n : Z) : ST (fstate D) Z :=
  i ← the_inode ip;
  if (i_size i <? off) || (u32 (off + n) <? off) then mret 0
  else
    let n := if i_size i <? u32 (off + n) then i_size i - off else n in
    readi_loop (Z.to_nat (n / BSZ + 2)) ip user_dst dst off 0 n.

(** Returns the value of [off] when the loop ends. *)
Fixpoint writei_loop (fuel : nat) (ip : nat) (user_src : bool) (src off tot n : Z) : ST (fstate D) Z :=
  match fuel with
  | O => mret off
  | S fuel' =>
      if tot <? n then
        i ← the_inode ip;
        addr ← bmap ip (off / BSZ);
        bp ← bread (i_dev i) addr;
        let m := Z.min (n - tot) (BSZ - off mod BSZ) in
        r ← either_copyin user_src src (Z.to_nat m);
        d ← data bp;
        _ ← store bp (splice (Z.to_nat (off mod BSZ)) r.2 d);
        if (r.1 : bool) then
          _ ← log_write bp;
          _ ← brelse bp;
          writei_loop fuel' ip user_src (src + m) (off + m) (tot + m) n
        else _ ← brelse bp; mret off
      else mret off
  end.

Definition writei (ip : nat) (user_src : bool) (src off n : Z) : ST (fstate D) Z :=
  i ← the_inode ip;
  if (i_size i <? off) || (u32 (off + n) <? off) then mret (-1)
  else if MAXFILE * BSZ <? u32 (off + n) then mret (-1)
  else
    off' ← writei_loop (Z.to_nat (n / BSZ + 2)) ip user_src src off 0 n;
    _ ← (if 0 <? n then
           _ ← upd_inode ip (λ i, if i_size i <? off' then i <| i_size := off' |> else i);
           iupdate ip
         else mret ());
    mret n.

(** ** Directories *)

Definition namecmp (s t : Z) (m : mem) : Z := strncmp s t DIRSIZ m.

(** [de.inum], a [ushort]; [de.name] is at [de + 2]. *)
Definition de_inum (de : Z) (m : mem) : Z := m de + 256 * m (de + 1).

(** [de] is the address of the [struct dirent] on the stack. *)
Fixpoint dirlookup_loop (n : nat) (de : Z) (dp : nat) (name off : Z) : ST (fstate D) (option (nat * Z)) :=
  match n with
  | O => mret None
  | S n' =>
      i ← the_inode dp;
      if off <? i_size i then
        r ← readi dp false de off DIRENT_SIZE;
        if negb (r =? DIRENT_SIZE) then panic "dirlookup read"
        else
          m ← gets km;
          if negb (de_inum de m =? 0) && (namecmp name (de + 2) m =? 0) then
            ip ← iget (i_dev i) (de_inum de m); mret (Some (ip, off))
          else dirlookup_loop n' de dp name (off + DIRENT_SIZE)
      else mret None
  end.

Definition dirlookup (de : Z) (dp : nat) (name : Z) : ST (fstate D) (option (nat * Z)) :=
  i ← the_inode dp;
  if negb (i_type i =? T_DIR) then panic "dirlookup not DIR"
  else dirlookup_loop (S (Z.to_nat (i_size i / DIRENT_SIZE))) de dp name 0.

(** The search of [dirlink] for an unused entry: the offset it stops at. *)
Fixpoint free_dirent (n : nat) (de : Z) (dp : nat) (off : Z) : ST (fstate D) Z :=
  match n with
  | O => mret off
  | S n' =>
      i ← the_inode dp;
      if off <? i_size i then
        r ← readi dp false de off DIRENT_SIZE;
        if negb (r =? DIRENT_SIZE) then panic "dirlink read"
        else
          m ← gets km;
          if de_inum de m =? 0 then mret off else free_dirent n' de dp (off + DIRENT_SIZE)
      else mret off
  end.

Definition dirlink (de : Z) (dp : nat) (name inum : Z) : ST (fstate D) Z :=
  r ← dirlookup de dp name;
  match r with
  | Some (ip, _) => _ ← iput ip; mret (-1)
  | None =>
      i ← the_inode dp;
      off ← free_dirent (S (Z.to_nat (i_size i / DIRENT_SIZE))) de dp 0;
      _ ← modify (λ s, s <| km ::= strncpy (de + 2) name DIRSIZ |>);
      _ ← modify (λ s, s <| km ::= km_put de [inum mod 256; inum / 256 mod 256] |>);
      r ← writei dp false de off DIRENT_SIZE;
      if negb (r =? DIRENT_SIZE) then panic "dirlink" else mret 0
  end.

(** ** Paths *)

Definition SLASH : Z := 47.
Definition MAXPATH : nat := 128.

(** The loops of [skipelem] over the slashes before and after an element and
    over its characters, on a string that ends within [MAXPATH] bytes. *)
Fixpoint skip_slashes (n : nat) (path : Z) (m : mem) : Z :=
  match n with
  | O => path
  | S n' => if m path =? SLASH then skip_slashes n' (path + 1) m else path
  end.
Fixpoint skip_name (n : nat) (path : Z) (m : mem) : Z :=
  match n with
  | O => path
  | S n' =>
      if negb (m path =? SLASH) && negb (m path =? 0) then skip_name n' (path + 1) m else path
  end.

(** [None] is the null pointer. *)
Definition skipelem (path name : Z) (m : mem) : option Z * mem :=
  let path := skip_slashes MAXPATH path m in
  if m path =? 0 then (None, m)
  else
    let s := path in
    let path := skip_name MAXPATH path m in
    let len := path - s in
    let m' := if Z.of_nat DIRSIZ <=? len then memmove name s DIRSIZ m
              else mset (name + len) 0 (memmove name s (Z.to_nat len) m) in
    (Some (skip_slashes MAXPATH path m'), m').

Fixpoint namex_loop (fuel : nat) (de : Z) (path : Z) (parent : bool) (name : Z) (ip : nat)
    : ST (fstate D) (option nat) :=
  match fuel with
  | O => panic "fuel"
  | S fuel' =>
      m ← gets km;
      let '(r, m') := skipelem path name m in
      _ ← modify (λ s, s <| km := m' |>);
      match r with
      | None => if parent then _ ← iput ip; mret None else mret (Some ip)
      | Some path =>
          _ ← ilock ip;
          i ← the_inode ip;
          if negb (i_type i =? T_DIR) then _ ← iunlockput ip; mret None
          else if parent && (m' path =? 0) then _ ← iunlock ip; mret (Some ip)
          else
            r ← dirlookup de ip name;
            match r with
            | None => _ ← iunlockput ip; mret None
            | Some (next, _) => _ ← iunlockput ip; namex_loop fuel' de path parent name next
            end
      end
  end.

Definition namex (de path : Z) (parent : bool) (name : Z) : ST (fstate D) (option nat) :=
  s ← get;
  ip ← (if km s path =? SLASH then iget ROOTDEV ROOTINO else idup (cwd s));
  namex_loop MAXPATH de path parent name ip.

(** [name] is the buffer on the stack of [namei]. *)
Definition namei (de name path : Z) : ST (fstate D) (option nat) := namex de path false name.
Definition nameiparent (de path name : Z) : ST (fstate D) (option nat) := namex de path true name.
End code.

(** [fsinit], over the log. *)
Definition fsinit {C : Type} `{!BufCache C} (dev : Z) : ST (fstate (lstate C)) () :=
  _ ← readsb dev;
  s ← get;
  if negb (sb_magic (sb s) =? FSMAGIC) then panic "invalid file system"
  else on_disk (initlog dev (sb s)).

Definition iinit : list inode := replicate NINODE inode0.
