(* ===== verification/FsAlloc.v ===== *)
(** * fs.c: the block allocator

    [balloc] and [bfree] against the allocated set the on-disk bitmap stands
    for, on any logged disk that keeps its promises. *)

From S2P Require Import Prelude Bytes BufCache Bio Log LogDisk Fs.

(** ** Bits of a bitmap block *)

Lemma bit_set_testbit d bi :
  bit_set d bi = Z.testbit (byte_at d (Z.to_nat (bi / 8))) (bi mod 8).
Proof.
  unfold bit_set. rewrite land_bit_zero, negb_involutive; [done|]. apply Z.mod_pos_bound. lia.
Qed.

Lemma bit_index_ne i j : 0 ≤ i → 0 ≤ j → i ≠ j → Z.to_nat (i / 8) = Z.to_nat (j / 8) → i mod 8 ≠ j mod 8.
Proof.
  intros Hi Hj Hne H E. apply Hne. rewrite (Z.div_mod i 8), (Z.div_mod j 8) by lia. rewrite E.
  pose proof (Z.div_pos i 8). pose proof (Z.div_pos j 8). lia.
Qed.

Lemma byte_at_insert d k x k' :
  (k < length d)%nat → byte_at (<[k := x]> d) k' = if decide (k' = k) then x else byte_at d k'.
Proof.
  intros Hk. unfold byte_at. case_decide; subst; [by rewrite list_lookup_insert_eq|].
  by rewrite list_lookup_insert_ne.
Qed.

Lemma bit_range bi : 0 ≤ bi < BPB → (Z.to_nat (bi / 8) < BSIZE)%nat ∧ 0 ≤ bi mod 8 < 8.
Proof.
  intros H. unfold BPB, BSIZE in *. pose proof (Z.mod_pos_bound bi 8). split; [|lia].
  assert (bi / 8 < 1024) by (apply Z.div_lt_upper_bound; lia). pose proof (Z.div_pos bi 8). lia.
Qed.

Lemma bit_set_set_bit d i j :
  length d = BSIZE → 0 ≤ i < BPB → 0 ≤ j < BPB →
  bit_set (set_bit i d) j = if decide (j = i) then true else bit_set d j.
Proof.
  intros Hd Hi Hj. destruct (bit_range i Hi), (bit_range j Hj).
  rewrite !bit_set_testbit. unfold set_bit. rewrite byte_at_insert by lia.
  destruct (decide (j = i)) as [->|Hne].
  - rewrite decide_True by done. rewrite Z.lor_spec, Z.shiftl_1_l, Z.pow2_bits_true by lia. apply orb_true_r.
  - case_decide as Hk; [|done]. rewrite <- Hk, Z.lor_spec, Z.shiftl_1_l, Z.pow2_bits_false, orb_false_r; [done|].
    apply bit_index_ne; [lia..|done].
Qed.

Lemma bit_set_clear_bit d i j :
  length d = BSIZE → 0 ≤ i < BPB → 0 ≤ j < BPB →
  bit_set (clear_bit i d) j = if decide (j = i) then false else bit_set d j.
Proof.
  intros Hd Hi Hj. destruct (bit_range i Hi), (bit_range j Hj).
  rewrite !bit_set_testbit. unfold clear_bit. rewrite byte_at_insert by lia.
  destruct (decide (j = i)) as [->|Hne].
  - rewrite decide_True by done. unfold u8.
    rewrite Z.land_spec, Z.mod_pow2_bits_low, Z.lnot_spec, Z.shiftl_1_l, Z.pow2_bits_true by lia.
    apply andb_false_r.
  - case_decide as Hk; [|done]. unfold u8.
    rewrite <- Hk, Z.land_spec, Z.mod_pow2_bits_low, Z.lnot_spec, Z.shiftl_1_l by lia.
    rewrite Z.pow2_bits_false, andb_true_r; [done|]. apply bit_index_ne; [lia..|done].
Qed.

Lemma length_set_bit i d : length (set_bit i d) = length d.
Proof. apply length_insert. Qed.
Lemma length_clear_bit i d : length (clear_bit i d) = length d.
Proof. apply length_insert. Qed.

Lemma scan_bits_spec n bi b size d :
  match scan_bits n bi b size d with
  | Some k => bi ≤ k < bi + Z.of_nat n ∧ b + k < size ∧ bit_set d k = false ∧
              ∀ j, bi ≤ j < k → bit_set d j = true
  | None => ∀ j, bi ≤ j < bi + Z.of_nat n → b + j < size → bit_set d j = true
  end.
Proof.
  revert bi. induction n as [|n IH]; intros bi; cbn [scan_bits]; [lia|].
  destruct (Z.ltb_spec (b + bi) size); [|lia]. destruct (bit_set d bi) eqn:E.
  - specialize (IH (bi + 1)). destruct (scan_bits n (bi + 1) b size d) as [k|].
    + destruct IH as (? & ? & ? & Hj). split_and!; [lia..|done|]. intros j Hj'.
      destruct (decide (j = bi)) as [->|]; [done|]. apply Hj. lia.
    + intros j Hj Hs. destruct (decide (j = bi)) as [->|]; [done|]. apply IH; lia.
  - split_and!; [lia..|done|lia].
Qed.

(** ** The allocated set *)

(** The bit of block [b] in the view [v]. *)
Definition used (sb : superblock) (v : dview) (b : Z) : bool :=
  bit_set (dv_mem v (BBLOCK b sb)) (b mod BPB).

(** The layout mkfs writes: the log, the inodes and the bitmap come before
    [ds], the first data block. *)
Record layout (lo hi ds : Z) (sb : superblock) : Prop := Layout {
  ly_size : 0 < sb_size sb < 2 ^ 31;
  ly_log : 0 ≤ lo ∧ lo ≤ hi ∧ hi ≤ ds;
  ly_inodes : 0 ≤ sb_inodestart sb ∧ sb_inodestart sb + sb_ninodes sb / IPB < sb_bmapstart sb ∧
              0 ≤ sb_ninodes sb ∧ hi ≤ sb_inodestart sb;
  ly_bmap : sb_bmapstart sb + sb_size sb / BPB < ds;
  ly_ds : 0 < ds ≤ sb_size sb;
}.

Lemma bblock_eq lo hi ds sb b :
  layout lo hi ds sb → 0 ≤ b < sb_size sb →
  BBLOCK b sb = b / BPB + sb_bmapstart sb ∧ sb_bmapstart sb ≤ BBLOCK b sb < ds ∧ hi ≤ BBLOCK b sb.
Proof.
  intros [? ? (? & ? & ? & ?) ? ?] Hb. pose proof (Z.div_pos b BPB). pose proof (Z.div_le_mono b (sb_size sb) BPB).
  pose proof (Z.div_pos (sb_ninodes sb) IPB). unfold BPB, IPB in *.
  assert (BBLOCK b sb = b / 8192 + sb_bmapstart sb) as E by (unfold BBLOCK, BPB; apply u32_small; lia).
  rewrite E. lia.
Qed.

(** The blocks the metadata occupies are marked allocated. *)
Definition meta_used (ds : Z) (sb : superblock) (v : dview) : Prop :=
  ∀ b, 0 ≤ b < ds → used sb v b = true.

(** The view after block [b] is allocated, and after it is freed. *)
Definition dv_alloc (sb : superblock) (b : Z) (v : dview) : dview :=
  dv_write b zero_block (dv_write (BBLOCK b sb) (set_bit (b mod BPB) (dv_mem v (BBLOCK b sb))) v).
Definition dv_free (sb : superblock) (b : Z) (v : dview) : dview :=
  dv_write (BBLOCK b sb) (clear_bit (b mod BPB) (dv_mem v (BBLOCK b sb))) v.

(** [b] is the allocation [balloc] makes: the first free block. *)
Definition first_free (sb : superblock) (v : dview) (b : Z) : Prop :=
  0 ≤ b < sb_size sb ∧ used sb v b = false ∧ ∀ b', 0 ≤ b' < b → used sb v b' = true.

(** The buffers held by the caller are of allocated data blocks. *)
Definition held_ok (ds : Z) (sb : superblock) (v : dview) : Prop :=
  Forall (λ b, ds ≤ b < sb_size sb ∧ used sb v b = true) (dv_held v).

(** ** The code *)

Section proofs.
Context {D : Type} `{!LogDisk D} {dev lo hi : Z} `{!LogDiskSpec D dev lo hi}.
Implicit Types (s : fstate D) (d : D) (v : dview).

Lemma run_on_disk {A : Type} (m : ST D A) s a d' :
  run m (disk s) a d' → run (on_disk m) s a (s <| disk := d' |>).
Proof. intros H. unfold on_disk. by rewrite H. Qed.

Lemma run_data bp s x : d_data bp (disk s) = x → run (data bp) s x s.
Proof. intros <-. done. Qed.

Lemma run_store bp x s : run (store bp x) s () (s <| disk ::= d_store bp x |>).
Proof. done. Qed.

Definition with_disk s d : fstate D := s <| disk := d |>.

Lemma with_disk_disk s d : disk (with_disk s d) = d.
Proof. done. Qed.
Lemma with_disk_id s : with_disk s (disk s) = s.
Proof. by destruct s. Qed.

(** The read-modify-log-release sequence of one block, whatever the code
    computes from its contents. *)
Lemma block_update s v b (f : block → block) :
  drep (disk s) v → 0 ≤ b < 2 ^ 31 → b ∉ dv_held v → spare 1 v → loggable lo hi b → log_space lo hi 1 v →
  length (f (dv_mem v b)) = BSIZE →
  ∃ bp d1 d2 d3,
    run (bread dev b) s bp (with_disk s d1) ∧
    run (data bp) (with_disk s d1) (dv_mem v b) (with_disk s d1) ∧
    run (log_write bp) (with_disk s (d_store bp (f (dv_mem v b)) d1)) () (with_disk s d2) ∧
    run (brelse bp) (with_disk s d2) () (with_disk s d3) ∧
    drep d3 (dv_write b (f (dv_mem v b)) v) ∧ kept (disk s) d3.
Proof.
  intros R Hb Hh Hs Hl Hsp Hf.
  assert (b ∉ dv_dirty v) as Hd by (intros H; by apply (drep_dirty _ _ _ R) in H).
  destruct (bracket (disk s) v b) as (bp & d1 & E1 & Ed & R1 & H1 & K1); [done|lia|done..|].
  destruct (bracket_write d1 v bp b (f (dv_mem v b))) as (d2 & E2 & R2 & K2); [done..|].
  destruct (d_brelse_spec d2 _ bp b R2 (K2 _ _ H1)) as (d3 & E3 & R3 & K3); [done|].
  exists bp, d1, d2, d3. split_and!.
  - by apply run_on_disk.
  - by apply run_data.
  - by apply (run_on_disk _ (with_disk s (d_store bp (f (dv_mem v b)) d1))).
  - by apply (run_on_disk _ (with_disk s d2)).
  - by rewrite dv_drop_hold in R3.
  - intros h' b' H. apply K3; [|by apply K2, K1].
    intros ->. apply Hh. by apply (dholds_held _ _ _ _ R) in H.
Qed.

(** The read-release sequence. *)
Lemma block_read s v b :
  drep (disk s) v → 0 ≤ b < 2 ^ 31 → b ∉ dv_held v → spare 1 v →
  ∃ bp d1 d2,
    run (bread dev b) s bp (with_disk s d1) ∧
    run (data bp) (with_disk s d1) (dv_mem v b) (with_disk s d1) ∧
    run (brelse bp) (with_disk s d1) () (with_disk s d2) ∧
    drep d1 (dv_hold b v) ∧ dholds d1 bp b ∧ kept (disk s) d1 ∧
    drep d2 v ∧ kept (disk s) d2.
Proof.
  intros R Hb Hh Hs.
  assert (b ∉ dv_dirty v) as Hd by (intros H; by apply (drep_dirty _ _ _ R) in H).
  destruct (bracket (disk s) v b) as (bp & d1 & E1 & Ed & R1 & H1 & K1); [done|lia|done..|].
  destruct (bracket_end d1 v bp b (disk s)) as (d2 & E2 & R2 & K2); [done..| |done|].
  { intros h' b' _. apply K1. }
  exists bp, d1, d2. split_and!; try done.
  - by apply run_on_disk.
  - by apply run_data.
  - by apply (run_on_disk _ (with_disk s d1)).
Qed.

Lemma bzero_run s v b :
  drep (disk s) v → 0 ≤ b < 2 ^ 31 → b ∉ dv_held v → spare 1 v → loggable lo hi b → log_space lo hi 1 v →
  ∃ d', run (bzero dev b) s () (with_disk s d') ∧ drep d' (dv_write b zero_block v) ∧ kept (disk s) d'.
Proof.
  intros R Hb Hh Hs Hl Hsp.
  destruct (block_update s v b (λ _, zero_block)) as (bp & d1 & d2 & d3 & E1 & _ & E3 & E4 & R4 & K); [done..|].
  exists d3. split; [|done]. unfold bzero. step_with E1. step_with (run_store bp zero_block (with_disk s d1)).
  step_with E3. exact E4.
Qed.

Lemma kept_trans (d1 d2 d3 : D) : kept d1 d2 → kept d2 d3 → kept d1 d3.
Proof. intros H1 H2 h b H. by apply H2, H1. Qed.

Context {ds : Z} {sbk : superblock} (Hly : layout lo hi ds sbk).

Lemma block_of q k : 0 ≤ k < BPB → (q * BPB + k) / BPB = q ∧ (q * BPB + k) mod BPB = k.
Proof.
  intros Hk. unfold BPB in *. rewrite Z.add_comm, Z.div_add, Z.mod_add by lia.
  by rewrite Z.div_small, Z.mod_small.
Qed.

Lemma bblock_of q k : 0 ≤ k < BPB → BBLOCK (q * BPB + k) sbk = BBLOCK (q * BPB) sbk.
Proof.
  intros Hk. unfold BBLOCK. rewrite (proj1 (block_of q k Hk)).
  pose proof (block_of q 0 ltac:(done)) as [E _]. by rewrite Z.add_0_r in E; rewrite E.
Qed.

Lemma used_of v q k : 0 ≤ k < BPB → used sbk v (q * BPB + k) = bit_set (dv_mem v (BBLOCK (q * BPB) sbk)) k.
Proof. intros Hk. unfold used. by rewrite bblock_of, (proj2 (block_of q k Hk)). Qed.

(** Bitmap blocks are never held, and may be logged. *)
Lemma bblock_free v b : held_ok ds sbk v → 0 ≤ b < sb_size sbk → BBLOCK b sbk ∉ dv_held v.
Proof.
  intros Hh Hb Hin. destruct (bblock_eq _ _ _ _ b Hly Hb) as (_ & ? & _).
  apply (proj1 (Forall_forall _ _) Hh) in Hin as [? _]. lia.
Qed.

Lemma bblock_loggable b : 0 ≤ b < sb_size sbk → loggable lo hi (BBLOCK b sbk) ∧ 0 ≤ BBLOCK b sbk < 2 ^ 31.
Proof.
  intros Hb. destruct (bblock_eq _ _ _ _ b Hly Hb) as (_ & ? & ?). destruct Hly as [? ? (? & ? & ? & ?) ? ?].
  pose proof (Z.div_pos (sb_ninodes sbk) IPB). unfold loggable, IPB in *. lia.
Qed.

Lemma data_loggable b : ds ≤ b < sb_size sbk → loggable lo hi b ∧ 0 ≤ b < 2 ^ 31.
Proof. intros Hb. destruct Hly. unfold loggable. lia. Qed.

(** A free block is a data block. *)
Lemma free_is_data v b : meta_used ds sbk v → 0 ≤ b < sb_size sbk → used sbk v b = false → ds ≤ b.
Proof. intros Hm Hb Hu. destruct (decide (ds ≤ b)); [done|]. rewrite Hm in Hu by lia. done. Qed.

Definition alloc_result (s : fstate D) (v : dview) (r : outcome (Z * fstate D)) : Prop :=
  (∃ b d', r = Ret (b, with_disk s d') ∧ first_free sbk v b ∧ drep d' (dv_alloc sbk b v) ∧ kept (disk s) d') ∨
  (r = Panic "balloc: out of blocks" ∧ ∀ b, 0 ≤ b < sb_size sbk → used sbk v b = true).

(** The iteration that finds a free bit. *)
Lemma balloc_take s v q bi :
  drep (disk s) v → meta_used ds sbk v → held_ok ds sbk v → budget lo hi 2 v → sb s = sbk → 0 ≤ q →
  0 ≤ bi < BPB → q * BPB + bi < sb_size sbk → used sbk v (q * BPB + bi) = false →
  ∃ bp d1 d', run (bread dev (BBLOCK (q * BPB) sbk)) s bp (with_disk s d1) ∧
    d_data bp d1 = dv_mem v (BBLOCK (q * BPB) sbk) ∧
    run (_ ← store bp (set_bit bi (dv_mem v (BBLOCK (q * BPB) sbk)));
         _ ← log_write bp; _ ← brelse bp; _ ← bzero dev (q * BPB + bi); mret (q * BPB + bi))
      (with_disk s d1) (q * BPB + bi) (with_disk s d') ∧
    drep d' (dv_alloc sbk (q * BPB + bi) v) ∧ kept (disk s) d'.
Proof.
  intros R Hm Hh Hbud Esb Hq Hbi Hlt Hu.
  assert (0 ≤ q * BPB + bi) by (unfold BPB in *; lia).
  pose proof (free_is_data v (q * BPB + bi) Hm ltac:(lia) Hu) as Hds.
  assert (0 ≤ q * BPB < sb_size sbk) as Hqb by (unfold BPB in *; lia).
  pose proof (bblock_loggable _ Hqb) as [Hbl Hbr]. pose proof (data_loggable (q * BPB + bi) ltac:(lia)) as [Hdl Hdr].
  pose proof (bblock_free v _ Hh Hqb) as Hbf.
  destruct (block_update s v (BBLOCK (q * BPB) sbk) (set_bit bi)) as (bp & d1 & d2 & d3 & E1 & E2 & E3 & E4 & R4 & K4);
    [done|done|done|eauto with budget..| |].
  { rewrite length_set_bit. by apply (drep_length (disk s)). }
  destruct (bzero_run (with_disk s d3) _ (q * BPB + bi) R4) as (d4 & E5 & R5 & K5);
    [done| |eauto with budget|done|eauto with budget|].
  { intros Hin. apply (proj1 (Forall_forall _ _) Hh) in Hin as [_ Hin]. congruence. }
  exists bp, d1, d4. split_and!; [done|by injection E2| |..].
  - step_with (run_store bp (set_bit bi (dv_mem v (BBLOCK (q * BPB) sbk))) (with_disk s d1)).
    step_with E3. step_with E4. by step_with E5.
  - unfold dv_alloc. by rewrite bblock_of, (proj2 (block_of q bi Hbi)).
  - by eapply kept_trans.
Qed.

Lemma balloc_loop_run n s v q :
  drep (disk s) v → meta_used ds sbk v → held_ok ds sbk v → budget lo hi 2 v → sb s = sbk → 0 ≤ q →
  (∀ b, 0 ≤ b < q * BPB → b < sb_size sbk → used sbk v b = true) → sb_size sbk ≤ (q + Z.of_nat n) * BPB →
  alloc_result s v (balloc_loop n dev (q * BPB) s).
Proof.
  revert s q. induction n as [|n IH]; intros s q R Hm Hh Hbud Esb Hq Hbelow Hfuel.
  { right. split; [done|]. intros b Hb. apply Hbelow; lia. }
  cbn [balloc_loop]. step_with (run_get s). rewrite Esb.
  destruct (Z.ltb_spec (q * BPB) (sb_size sbk)) as [Hlt|Hge].
  2:{ right. split; [done|]. intros b Hb. apply Hbelow; lia. }
  assert (0 ≤ q * BPB < sb_size sbk) as Hqb by (unfold BPB in *; lia).
  set (B := BBLOCK (q * BPB) sbk).
  pose proof (scan_bits_spec (Z.to_nat BPB) 0 (q * BPB) (sb_size sbk) (dv_mem v B)) as Hscan.
  destruct (scan_bits (Z.to_nat BPB) 0 (q * BPB) (sb_size sbk) (dv_mem v B)) as [bi|] eqn:Escan.
  - destruct Hscan as (Hr & Hsz & Hbit & Hprev). rewrite Z2Nat.id in Hr by done.
    destruct (balloc_take s v q bi) as (bp & d1 & d' & E1 & Ed & E2 & R' & K');
      [done..|lia|lia|by rewrite used_of by lia|].
    step_with E1. step_with (run_data bp (with_disk s d1) _ Ed). fold B. rewrite Escan. left.
    exists (q * BPB + bi), d'. split; [exact E2|]. split; [|done]. unfold BPB in *. split; [lia|].
    split; [by rewrite used_of by (unfold BPB; lia)|].
    intros b' Hb'. destruct (decide (b' < q * 8192)); [apply Hbelow; lia|].
    replace b' with (q * BPB + (b' - q * BPB)) by lia. unfold BPB in *. rewrite used_of by (unfold BPB; lia).
    apply Hprev. lia.
  - pose proof (bblock_loggable _ Hqb) as [_ Hbr].
    destruct (block_read s v B) as (bp & d1 & d2 & E1 & E2 & E3 & _ & _ & _ & R2 & K2);
      [done|done|by apply bblock_free|eauto with budget|].
    step_with E1. step_with E2. rewrite Escan. step_with E3.
    replace (q * BPB + BPB) with ((q + 1) * BPB) by lia.
    destruct (IH (with_disk s d2) (q + 1)) as [(b & d' & E & Hf & R' & K')|[E Hall]]; try done; [lia| |lia|left|right].
    + intros b Hb Hs. destruct (decide (b < q * BPB)); [apply Hbelow; lia|].
      replace b with (q * BPB + (b - q * BPB)) by lia. rewrite used_of by lia.
      unfold BPB in *. rewrite Z2Nat.id in Hscan by done. apply Hscan; lia.
    + exists b, d'. split; [exact E|]. split; [done|]. split; [done|]. by eapply kept_trans.
    + by rewrite E.
Qed.

Lemma balloc_run s v :
  drep (disk s) v → meta_used ds sbk v → held_ok ds sbk v → budget lo hi 2 v → sb s = sbk →
  alloc_result s v (balloc dev s).
Proof.
  intros R Hm Hh Hbud Esb. unfold balloc. step_with (run_get s). rewrite Esb.
  apply (balloc_loop_run _ s v 0); try done; [lia|].
  pose proof (Z.mul_div_le (sb_size sbk) BPB). pose proof (Z.mod_pos_bound (sb_size sbk) BPB).
  pose proof (Z.div_mod (sb_size sbk) BPB). pose proof (Z.div_pos (sb_size sbk) BPB).
  destruct Hly. unfold BPB in *. lia.
Qed.

(** *** The allocated set after the two operations *)

Lemma bblock_inj_ne b b' : 0 ≤ b → 0 ≤ b' → BBLOCK b sbk = BBLOCK b' sbk → 0 ≤ b < sb_size sbk → 0 ≤ b' < sb_size sbk →
  b ≠ b' → b mod BPB ≠ b' mod BPB.
Proof.
  intros _ _ E Hb Hb' Hne Em. destruct (bblock_eq _ _ _ _ b Hly Hb) as [E1 _].
  destruct (bblock_eq _ _ _ _ b' Hly Hb') as [E2 _]. apply Hne.
  rewrite (Z.div_mod b BPB), (Z.div_mod b' BPB) by (unfold BPB; lia). unfold BPB in *. lia.
Qed.

(** Rewriting one bit of the bitmap changes the status of one block. *)
Lemma used_write v b b' (x : bool) f :
  (∀ b, length (dv_mem v b) = BSIZE) → 0 ≤ b < sb_size sbk → 0 ≤ b' < sb_size sbk →
  (∀ (d : block) i j, length d = BSIZE → 0 ≤ i < BPB → 0 ≤ j < BPB →
     bit_set (f i d) j = if decide (j = i) then x else bit_set d j) →
  used sbk (dv_write (BBLOCK b sbk) (f (b mod BPB) (dv_mem v (BBLOCK b sbk))) v) b' =
    if decide (b' = b) then x else used sbk v b'.
Proof.
  intros Hlen Hb Hb' Hf. unfold used, dv_write. cbn. unfold fupd.
  pose proof (Z.mod_pos_bound b BPB). pose proof (Z.mod_pos_bound b' BPB). unfold BPB in *.
  destruct (decide (b' = b)) as [->|Hne].
  - rewrite decide_True by done. rewrite Hf by (done || lia). by rewrite decide_True.
  - case_decide as E; [|done]. rewrite Hf by (done || lia). rewrite decide_False, E; [done|].
    apply bblock_inj_ne; try done; lia.
Qed.

Lemma used_data_write v b x b' :
  ds ≤ b → 0 ≤ b' < sb_size sbk → used sbk (dv_write b x v) b' = used sbk v b'.
Proof.
  intros Hb Hb'. unfold used, dv_write. cbn. destruct (bblock_eq _ _ _ _ b' Hly Hb') as (_ & ? & _).
  by rewrite fupd_ne by lia.
Qed.

Lemma used_alloc v b b' :
  (∀ b, length (dv_mem v b) = BSIZE) → ds ≤ b < sb_size sbk → 0 ≤ b' < sb_size sbk →
  used sbk (dv_alloc sbk b v) b' = if decide (b' = b) then true else used sbk v b'.
Proof.
  intros Hlen Hb Hb'. unfold dv_alloc. rewrite used_data_write by (done || lia).
  destruct Hly. apply used_write; [done|lia|done|apply bit_set_set_bit].
Qed.

Lemma used_free v b b' :
  (∀ b, length (dv_mem v b) = BSIZE) → 0 ≤ b < sb_size sbk → 0 ≤ b' < sb_size sbk →
  used sbk (dv_free sbk b v) b' = if decide (b' = b) then false else used sbk v b'.
Proof. intros Hlen Hb Hb'. apply used_write; [done|lia|done|apply bit_set_clear_bit]. Qed.

Lemma alloc_mem v b x :
  ds ≤ b < sb_size sbk → x ≠ BBLOCK b sbk →
  dv_mem (dv_alloc sbk b v) x = if decide (x = b) then zero_block else dv_mem v x.
Proof. intros Hb Hx. unfold dv_alloc, dv_write. cbn. unfold fupd at 1. case_decide; [done|]. by rewrite fupd_ne. Qed.

Lemma bfree_run s v b :
  drep (disk s) v → held_ok ds sbk v → budget lo hi 1 v → sb s = sbk → 0 ≤ b < sb_size sbk →
  if used sbk v b
  then ∃ d', run (bfree dev b) s () (with_disk s d') ∧ drep d' (dv_free sbk b v) ∧ kept (disk s) d'
  else bfree dev b s = Panic "freeing free block".
Proof.
  intros R Hh Hbud Esb Hb. pose proof (bblock_loggable _ Hb) as [Hbl Hbr]. pose proof (bblock_free v b Hh Hb) as Hbf.
  destruct (block_update s v (BBLOCK b sbk) (clear_bit (b mod BPB))) as (bp & d1 & d2 & d3 & E1 & E2 & E3 & E4 & R4 & K4);
    [done|done|done|eauto with budget..| |].
  { rewrite length_clear_bit. by apply (drep_length (disk s)). }
  unfold bfree, used. step_with (run_get s). rewrite Esb. step_with E1. step_with E2.
  destruct (bit_set _ _); cbn [negb]; [|done]. exists d3. split; [|done].
  step_with (run_store bp (clear_bit (b mod BPB) (dv_mem v (BBLOCK b sbk))) (with_disk s d1)).
  step_with E3. exact E4.
Qed.
End proofs.

(** ** The allocator's contract *)

Section contract.
Context {D : Type} `{!LogDisk D} (dev lo hi : Z) `{!LogDiskSpec D dev lo hi}.

(** What the allocator needs of a state: a mounted layout, the metadata
    marked allocated, and buffers held only for allocated data blocks. *)
Record alloc_pre (ds : Z) (k : nat) (s : fstate D) (v : dview) : Prop := AllocPre {
  ap_layout : layout lo hi ds (sb s);
  ap_rep : drep (disk s) v;
  ap_meta : meta_used ds (sb s) v;
  ap_held : held_ok ds (sb s) v;
  ap_budget : budget lo hi k v;
}.
End contract.

(** C6. [balloc] returns the first free block of the bitmap, marked allocated
    and filled with zeroes, with no other block's status or contents changed
    and both changed blocks in the transaction; it panics exactly when no
    block is free. *)
Theorem balloc_correct {D : Type} `{!LogDisk D} (dev lo hi : Z) `{!LogDiskSpec D dev lo hi} ds (s : fstate D) v :
  alloc_pre dev lo hi ds 2 s v →
  (∃ b d' v', run (balloc dev) s b (with_disk s d') ∧ drep d' v' ∧
     first_free (sb s) v b ∧ ds ≤ b ∧
     (∀ b', 0 ≤ b' < sb_size (sb s) → used (sb s) v' b' = bool_decide (b' = b) || used (sb s) v b') ∧
     dv_mem v' b = zero_block ∧
     (∀ x, x ≠ b → x ≠ BBLOCK b (sb s) → dv_mem v' x = dv_mem v x) ∧
     b ∈ dv_logged v' ∧ BBLOCK b (sb s) ∈ dv_logged v' ∧ dv_held v' = dv_held v) ∨
  (balloc dev s = Panic "balloc: out of blocks" ∧ ∀ b, 0 ≤ b < sb_size (sb s) → used (sb s) v b = true).
Proof.
  intros [Hly R Hm Hh Hbud].
  destruct (balloc_run Hly s v R Hm Hh Hbud eq_refl) as [(b & d' & E & Hf & R' & _)|?]; [left|by right].
  pose proof Hf as (Hb & Hu & _). pose proof (free_is_data v b Hm Hb Hu) as Hds.
  destruct (bblock_eq _ _ _ _ b Hly Hb) as (_ & ? & _).
  assert (∀ x b l, x ∈ l → x ∈ add_logged b l) as Hin.
  { intros x y l Hx. unfold add_logged. case_decide; set_solver. }
  assert (∀ b l, b ∈ add_logged b l) as Hin'.
  { intros y l. unfold add_logged. case_decide; set_solver. }
  exists b, d', (dv_alloc (sb s) b v). split_and!; try done.
  - intros b' Hb'. rewrite (used_alloc Hly) by (done || lia || (intros; by apply (drep_length (disk s)))).
    by case_decide; [rewrite bool_decide_true|rewrite bool_decide_false].
  - unfold dv_alloc, dv_write. cbn. apply fupd_eq.
  - intros x Hx Hx'. rewrite (alloc_mem (ds := ds)) by (done || lia). by rewrite decide_False.
  - apply Hin'.
  - apply Hin, Hin'.
Qed.

(** [bfree] marks an allocated block free and changes nothing else;
    freeing a free block panics. *)
Theorem bfree_correct {D : Type} `{!LogDisk D} (dev lo hi : Z) `{!LogDiskSpec D dev lo hi} ds (s : fstate D) v b :
  alloc_pre dev lo hi ds 1 s v → 0 ≤ b < sb_size (sb s) →
  (used (sb s) v b = false → bfree dev b s = Panic "freeing free block") ∧
  (used (sb s) v b = true → ∃ d' v', run (bfree dev b) s () (with_disk s d') ∧ drep d' v' ∧
     (∀ b', 0 ≤ b' < sb_size (sb s) → used (sb s) v' b' = negb (bool_decide (b' = b)) && used (sb s) v b') ∧
     (∀ x, x ≠ BBLOCK b (sb s) → dv_mem v' x = dv_mem v x) ∧
     dv_held v' = dv_held v).
Proof.
  intros [Hly R Hm Hh Hbud] Hb. pose proof (bfree_run Hly s v b R Hh Hbud eq_refl Hb) as Hr.
  split; intros Hu; rewrite Hu in Hr; [done|]. destruct Hr as (d' & E & R' & _).
  exists d', (dv_free (sb s) b v). split_and!; try done.
  - intros b' Hb'. rewrite (used_free Hly) by (done || (intros; by apply (drep_length (disk s)))).
    by case_decide; [rewrite bool_decide_true|rewrite bool_decide_false].
  - intros x Hx. unfold dv_free, dv_write. cbn. by rewrite fupd_ne.
Qed.
