(* ===== verification/FsMap.v ===== *)
(** * fs.c: the block map of a file

    A file names its blocks through a tree: the 13 addresses of the inode, the
    entries of the indirect block, and two levels of entries below the
    double-indirect block.  A position of that tree is a [pos]; [bmap] finds
    or allocates the block at the position of a file block number. *)

From S2P Require Import Prelude Bytes BufCache Bio Log LogDisk Fs FsAlloc.

(** ** Positions *)

Inductive pos :=
| PAddr (k : nat)                       (* ip->addrs[k] *)
| PInd (k : nat)                        (* entry k of block addrs[NDIRECT] *)
| PDbl (k : nat)                        (* entry k of block addrs[NDIRECT + 1] *)
| PDbl2 (k j : nat).                    (* entry j of the block at PDbl k *)
#[export] Instance pos_eq_dec : EqDecision pos.
Proof. solve_decision. Defined.

Definition pos_ok (p : pos) : Prop :=
  match p with
  | PAddr k => (k < 13)%nat
  | PInd k | PDbl k => (k < 256)%nat
  | PDbl2 k j => (k < 256)%nat ∧ (j < 256)%nat
  end.

(** Positions of data blocks; the others hold indirect blocks. *)
Definition leaf (p : pos) : Prop :=
  match p with
  | PAddr k => (k < 11)%nat
  | PInd _ | PDbl2 _ _ => True
  | PDbl _ => False
  end.
#[export] Instance leaf_dec p : Decision (leaf p).
Proof. destruct p; simpl; apply _. Defined.

(** The position of the block that holds entry [p], and the entry's index. *)
Definition up (p : pos) : option (pos * nat) :=
  match p with
  | PAddr _ => None
  | PInd k => Some (PAddr 11, k)
  | PDbl k => Some (PAddr 12, k)
  | PDbl2 k j => Some (PDbl k, j)
  end.

Lemma up_inj p q r : up p = Some r → up q = Some r → p = q.
Proof. destruct p, q; simpl; intros; simplify_eq; done. Qed.

Lemma up_ok p q k : pos_ok p → up p = Some (q, k) → pos_ok q ∧ (k < 256)%nat ∧ ¬ leaf q.
Proof. destruct p; simpl; intros Hp [= <- <-]; simpl; repeat split; try lia; tauto. Qed.

Lemma up_ne p q k : up p = Some (q, k) → q ≠ p.
Proof. destruct p; simpl; intros [= <- <-]; congruence. Qed.

(** Induction from the inode downwards. *)
Lemma pos_down (P : pos → Prop) :
  (∀ p, up p = None → P p) → (∀ p q k, up p = Some (q, k) → P q → P p) → ∀ p, P p.
Proof.
  intros H0 Hs. assert (∀ k, P (PAddr k)) as Ha by (intros; by apply H0).
  assert (∀ k, P (PDbl k)) as Hd by (intros; by eapply Hs).
  intros []; [done|by eapply Hs|done|by eapply Hs].
Qed.

(** ** The blocks of a file *)

Definition ent (m : Z → block) (a : Z) (k : nat) : Z := if a =? 0 then 0 else ld32 k (m a).

Definition slot (m : Z → block) (addrs : list Z) (p : pos) : Z :=
  let at_ k := default 0 (addrs !! k) in
  match p with
  | PAddr k => at_ k
  | PInd k => ent m (at_ 11%nat) k
  | PDbl k => ent m (at_ 12%nat) k
  | PDbl2 k j => ent m (ent m (at_ 12%nat) k) j
  end.

Lemma slot_up m addrs p q k : up p = Some (q, k) → slot m addrs p = ent m (slot m addrs q) k.
Proof. destruct p; intros [= <- <-]; done. Qed.

(** The blocks of a file are allocated data blocks, each at one position. *)
Record file_ok (sb : superblock) (ds : Z) (v : dview) (addrs : list Z) : Prop := FileOk {
  fo_len : length addrs = 13%nat;
  fo_slot : ∀ p, pos_ok p → slot (dv_mem v) addrs p ≠ 0 →
    ds ≤ slot (dv_mem v) addrs p < sb_size sb ∧ used sb v (slot (dv_mem v) addrs p) = true;
  fo_inj : ∀ p q, pos_ok p → pos_ok q →
    slot (dv_mem v) addrs p = slot (dv_mem v) addrs q → slot (dv_mem v) addrs p ≠ 0 → p = q;
}.

(** ** One allocation in the tree *)

Section alloc.
Context {lo hi ds : Z} {sbk : superblock} (Hly : layout lo hi ds sbk).
Context (v v' : dview) (addrs addrs' : list Z) (p : pos) (b : Z).
Context (Hlen : ∀ x, length (dv_mem v x) = BSIZE).
Context (Hfile : file_ok sbk ds v addrs) (Hp : pos_ok p).
Context (Hempty : slot (dv_mem v) addrs p = 0).
Context (Hparent : ∀ q k, up p = Some (q, k) → slot (dv_mem v) addrs q ≠ 0).
Context (Hb : ds ≤ b < sb_size sbk) (Hfresh : used sbk v b = false).
Context (Haddrs : ∀ k, default 0 (addrs' !! k) = if decide (p = PAddr k) then b else default 0 (addrs !! k)).
Context (Hlen' : length addrs' = length addrs).
Context (Hzero : dv_mem v' b = zero_block).
Context (Hmem : ∀ x k, ds ≤ x < sb_size sbk → x ≠ b →
  (∀ q kp, up p = Some (q, kp) → ¬ (x = slot (dv_mem v) addrs q ∧ k = kp)) →
  ld32 k (dv_mem v' x) = ld32 k (dv_mem v x)).
Context (Hent : ∀ q kp, up p = Some (q, kp) → ld32 kp (dv_mem v' (slot (dv_mem v) addrs q)) = b).
Context (Hused : ∀ x, 0 ≤ x < sb_size sbk → used sbk v' x = bool_decide (x = b) || used sbk v x).

Local Notation sl := (slot (dv_mem v) addrs).
Local Notation sl' := (slot (dv_mem v') addrs').

Lemma b_pos : 0 < b.
Proof. clear Hlen'. destruct Hly. lia. Qed.

Lemma slot_not_b q : pos_ok q → sl q ≠ b.
Proof.
  clear Hlen'. intros Hq E. pose proof b_pos. destruct (fo_slot _ _ _ _ Hfile q Hq) as [_ Hu]; [lia|].
  rewrite E in Hu. congruence.
Qed.

Lemma slot_alloc q : pos_ok q → sl' q = if decide (q = p) then b else sl q.
Proof.
  clear Hlen'. induction q as [q Hup|q r k Hup IH] using pos_down; intros Hq.
  - destruct q; try done. simpl. rewrite Haddrs.
    by destruct (decide (p = PAddr k)), (decide (PAddr k = p)); congruence.
  - destruct (up_ok q r k Hq Hup) as (Hr & Hk & _). specialize (IH Hr).
    rewrite !(slot_up _ _ q r k Hup), IH.
    pose proof b_pos as Hb0. destruct (decide (r = p)) as [->|Hrp].
    + rewrite Hempty, decide_False by (intros ->; by apply up_ne in Hup).
      unfold ent. rewrite (proj2 (Z.eqb_neq b 0)) by lia. rewrite Hzero. unfold zero_block. apply ld32_replicate_0.
    + destruct (decide (slot (dv_mem v) addrs r = 0)) as [E0|E0].
      * rewrite E0. rewrite decide_False; [done|]. intros ->. by destruct (Hparent r k Hup).
      * destruct (fo_slot _ _ _ _ Hfile r Hr E0) as [Hrange _]. pose proof (slot_not_b r Hr) as Hnb.
        unfold ent. rewrite (proj2 (Z.eqb_neq (slot (dv_mem v) addrs r) 0)) by done.
        destruct (decide (q = p)) as [->|Hqp]; [by apply (Hent r k)|].
        apply Hmem; [done|done|]. intros q' kp Hup' [Ex ->]. apply Hqp.
        assert (r = q') as -> by (apply (fo_inj _ _ _ _ Hfile); try done; by destruct (up_ok p q' kp Hp Hup')).
        by eapply up_inj.
Qed.

Lemma file_alloc : file_ok sbk ds v' addrs'.
Proof.
  pose proof slot_alloc as Hs. split.
  - rewrite Hlen'. apply (fo_len _ _ _ _ Hfile).
  - intros q Hq. rewrite (Hs q Hq). case_decide; intros H0.
    + split; [done|]. rewrite Hused by (destruct Hly; lia). by rewrite bool_decide_true.
    + destruct (fo_slot _ _ _ _ Hfile q Hq H0) as [? Hu]. split; [done|].
      rewrite Hused by (destruct Hly; lia). rewrite Hu. apply orb_true_r.
  - intros q r Hq Hr. rewrite (Hs q Hq), (Hs r Hr). pose proof slot_not_b as Hnb.
    repeat case_decide; subst; try done.
    + intros E. symmetry in E. by apply Hnb in E.
    + intros E. by apply Hnb in E.
    + apply (fo_inj _ _ _ _ Hfile); done.
Qed.
End alloc.

(** ** What growing a file may change *)

(** The positions [ps] get freshly allocated blocks, data blocks among them
    zeroed; other positions keep their blocks, allocated blocks stay
    allocated, and the contents of blocks that are not indirect blocks of this
    file stay as they are. *)
Record ext (sb : superblock) (ds : Z) (ps : list pos) (v : dview) (addrs : list Z) (v' : dview) (addrs' : list Z)
    : Prop := Ext {
  e_slot : ∀ q, pos_ok q → q ∉ ps → slot (dv_mem v') addrs' q = slot (dv_mem v) addrs q;
  e_new : ∀ q, q ∈ ps → slot (dv_mem v) addrs q = 0 ∧ slot (dv_mem v') addrs' q ≠ 0 ∧
    used sb v (slot (dv_mem v') addrs' q) = false ∧
    (leaf q → dv_mem v' (slot (dv_mem v') addrs' q) = zero_block);
  e_used : ∀ x, 0 ≤ x < sb_size sb → used sb v x = true → used sb v' x = true;
  e_mem : ∀ x, ds ≤ x < sb_size sb → used sb v x = true →
    (∀ q, pos_ok q → ¬ leaf q → slot (dv_mem v') addrs' q ≠ x) → dv_mem v' x = dv_mem v x;
  e_meta : ∀ x, x < ds → (∀ b, 0 ≤ b < sb_size sb → x ≠ BBLOCK b sb) → dv_mem v' x = dv_mem v x;
  e_held : dv_held v' = dv_held v;
}.

Lemma ext_refl sb ds v addrs : ext sb ds [] v addrs v addrs.
Proof. split; try done. intros q Hq. by apply not_elem_of_nil in Hq. Qed.

Lemma ext_keeps sb ds ps v addrs v' addrs' q :
  ext sb ds ps v addrs v' addrs' → pos_ok q → slot (dv_mem v) addrs q ≠ 0 →
  slot (dv_mem v') addrs' q = slot (dv_mem v) addrs q.
Proof.
  intros E Hq H0. destruct (decide (q ∈ ps)) as [Hin|Hin].
  - by destruct (e_new _ _ _ _ _ _ _ E q Hin) as [? _].
  - by apply (e_slot _ _ _ _ _ _ _ E).
Qed.

Lemma ext_trans sb ds ps qs v1 a1 v2 a2 v3 a3 :
  0 < ds → Forall pos_ok ps → Forall pos_ok qs → file_ok sb ds v2 a2 → file_ok sb ds v3 a3 →
  ext sb ds ps v1 a1 v2 a2 → ext sb ds qs v2 a2 v3 a3 → ext sb ds (qs ++ ps) v1 a1 v3 a3.
Proof.
  intros Hds Hps Hqs Hf2 Hf3 E1 E2. split.
  - intros q Hq Hn. apply not_elem_of_app in Hn as [H1 H2].
    rewrite (e_slot _ _ _ _ _ _ _ E2) by done. by apply (e_slot _ _ _ _ _ _ _ E1).
  - intros q [Hq|Hq]%elem_of_app.
    + pose proof (proj1 (Forall_forall _ _) Hqs q Hq) as Hok.
      destruct (e_new _ _ _ _ _ _ _ E2 q Hq) as (Z2 & N3 & U3 & L3).
      assert (slot (dv_mem v1) a1 q = 0) as Z1.
      { destruct (decide (slot (dv_mem v1) a1 q = 0)) as [|Hn]; [done|].
        by rewrite (ext_keeps _ _ _ _ _ _ _ q E1 Hok Hn) in Z2. }
      split_and!; try done. destruct (used sb v1 (slot (dv_mem v3) a3 q)) eqn:U1; [|done].
      apply (e_used _ _ _ _ _ _ _ E1) in U1; [congruence|].
      pose proof (fo_slot _ _ _ _ Hf3 q Hok N3). lia.
    + pose proof (proj1 (Forall_forall _ _) Hps q Hq) as Hok.
      destruct (e_new _ _ _ _ _ _ _ E1 q Hq) as (Z1 & N2 & U2 & L2).
      pose proof (ext_keeps _ _ _ _ _ _ _ q E2 Hok N2) as K3. rewrite K3. split_and!; try done.
      intros Hl. rewrite (e_mem _ _ _ _ _ _ _ E2), L2; try done.
      * apply (fo_slot _ _ _ _ Hf2 q Hok N2).
      * apply (fo_slot _ _ _ _ Hf2 q Hok N2).
      * intros r Hr Hnl E. rewrite <- K3 in E.
        apply Hnl. by rewrite (fo_inj _ _ _ _ Hf3 r q Hr Hok E) by congruence.
  - intros x Hx Hu. by apply (e_used _ _ _ _ _ _ _ E2), (e_used _ _ _ _ _ _ _ E1).
  - intros x Hx Hu Hni. assert (∀ q, pos_ok q → ¬ leaf q → slot (dv_mem v2) a2 q ≠ x) as Hni2.
    { intros q Hq Hl E. apply (Hni q Hq Hl). rewrite (ext_keeps _ _ _ _ _ _ _ q E2 Hq); [done|]. lia. }
    rewrite (e_mem _ _ _ _ _ _ _ E2); [|done| |done].
    + by apply (e_mem _ _ _ _ _ _ _ E1).
    + apply (e_used _ _ _ _ _ _ _ E1); [lia|done].
  - intros x Hx Hb. rewrite (e_meta _ _ _ _ _ _ _ E2) by done. by apply (e_meta _ _ _ _ _ _ _ E1).
  - rewrite (e_held _ _ _ _ _ _ _ E2). apply (e_held _ _ _ _ _ _ _ E1).
Qed.

(** [n] blocks are free. *)
Definition has_free (n : nat) (sb : superblock) (v : dview) : Prop :=
  ∃ l, NoDup l ∧ length l = n ∧ Forall (λ b, 0 ≤ b < sb_size sb ∧ used sb v b = false) l.

Lemma has_free_le n n' sb v : (n' ≤ n)%nat → has_free n sb v → has_free n' sb v.
Proof.
  intros Hn (l & Hnd & Hl & Hf). exists (take n' l).
  split_and!; [by apply (sublist_NoDup _ l), sublist_take|rewrite length_take; lia|by apply Forall_take].
Qed.

Lemma has_free_used n sb v v' b :
  has_free (S n) sb v →
  (∀ x, 0 ≤ x < sb_size sb → used sb v' x = bool_decide (x = b) || used sb v x) → has_free n sb v'.
Proof.
  intros (l & Hnd & Hl & Hf) Hu. apply (has_free_le (length (filter (λ x, x ≠ b) l))).
  - clear Hf. assert (length l ≤ S (length (filter (λ x, x ≠ b) l)))%nat; [|lia]. clear n Hl. induction Hnd as [|x l Hx Hnd IH]; simpl; [lia|].
    destruct (decide (x = b)) as [->|Hne].
    + rewrite filter_cons_False by (intros H; by apply H). clear IH.
      assert (filter (λ x, x ≠ b) l = l) as ->; [|lia].
      rewrite <- (filter_ne_cons b l Hx) at 2. rewrite filter_cons_False by (intros H; by apply H). done.
    + rewrite filter_cons_True by done. simpl. lia.
  - exists (filter (λ x, x ≠ b) l). split_and!; [by apply NoDup_filter|done|].
    apply Forall_forall. intros x [Hne Hx]%list_elem_of_filter.
    destruct (proj1 (Forall_forall _ _) Hf x Hx) as [Hr Hux]. split; [done|].
    by rewrite Hu, bool_decide_false, Hux.
Qed.

(** ** Allocating the block of one position *)

Definition v_grow (sb : superblock) (p : pos) (b : Z) (v : dview) (addrs : list Z) : dview :=
  match up p with
  | None => dv_alloc sb b v
  | Some (q, k) =>
      let a := slot (dv_mem v) addrs q in dv_write a (st32 k b (dv_mem v a)) (dv_alloc sb b v)
  end.
Definition a_grow (p : pos) (b : Z) (addrs : list Z) : list Z :=
  match p with PAddr k => <[k := b]> addrs | _ => addrs end.

Section grow.
Context {lo hi ds : Z} {sbk : superblock} (Hly : layout lo hi ds sbk).
Context (v : dview) (addrs : list Z) (p : pos) (b : Z).
Context (Hlen : ∀ x, length (dv_mem v x) = BSIZE).
Context (Hfile : file_ok sbk ds v addrs) (Hp : pos_ok p).
Context (Hempty : slot (dv_mem v) addrs p = 0).
Context (Hparent : ∀ q k, up p = Some (q, k) → slot (dv_mem v) addrs q ≠ 0).
Context (Hb : ds ≤ b < sb_size sbk) (Hfresh : used sbk v b = false).

Local Notation v' := (v_grow sbk p b v addrs).
Local Notation addrs' := (a_grow p b addrs).

Lemma bblock_low x : 0 ≤ x < sb_size sbk → BBLOCK x sbk < ds.
Proof. intros Hx. by destruct (bblock_eq _ _ _ _ x Hly Hx) as (_ & [_ ?] & _). Qed.

Lemma b_range : 0 ≤ b < sb_size sbk.
Proof. destruct Hly. lia. Qed.

Lemma parent_ok q k : up p = Some (q, k) →
  ds ≤ slot (dv_mem v) addrs q < sb_size sbk ∧ slot (dv_mem v) addrs q ≠ b ∧ (k < 256)%nat ∧ pos_ok q ∧ ¬ leaf q.
Proof.
  intros Hup. destruct (up_ok p q k Hp Hup) as (Hq & Hk & Hl).
  destruct (fo_slot _ _ _ _ Hfile q Hq (Hparent q k Hup)) as [? Hu]. split_and!; try done; try lia. congruence.
Qed.

Lemma grow_used x : 0 ≤ x < sb_size sbk → used sbk v' x = bool_decide (x = b) || used sbk v x.
Proof.
  pose proof parent_ok as Hpar. intros Hx. assert (used sbk (dv_alloc sbk b v) x = bool_decide (x = b) || used sbk v x) as E.
  { rewrite (used_alloc Hly) by done. by case_decide; [rewrite bool_decide_true|rewrite bool_decide_false]. }
  unfold v_grow. destruct (up p) as [[q k]|] eqn:Hup; [|done].
  destruct (Hpar q k eq_refl) as (? & _). cbv zeta. by rewrite (used_data_write Hly) by (done || lia).
Qed.

(** The contents, away from the bitmap block. *)
Lemma grow_mem x :
  (∀ b, 0 ≤ b < sb_size sbk → x ≠ BBLOCK b sbk) →
  dv_mem v' x =
    if decide (x = b) then zero_block
    else match up p with
         | Some (q, k) => if decide (x = slot (dv_mem v) addrs q) then st32 k b (dv_mem v x) else dv_mem v x
         | None => dv_mem v x
         end.
Proof.
  pose proof parent_ok as Hpar. intros Hx. pose proof (alloc_mem (ds := ds) v b x Hb (Hx b b_range)) as E. unfold v_grow.
  destruct (up p) as [[q k]|] eqn:Hup; [|by rewrite E].
  destruct (Hpar q k eq_refl) as (_ & Hne & _). cbv zeta.
  change (dv_mem (dv_write ?a ?d ?w) x) with (fupd a d (dv_mem w) x). unfold fupd.
  destruct (decide (x = slot (dv_mem v) addrs q)) as [->|]; [by rewrite decide_False|]. exact E.
Qed.

Lemma data_not_bblock x : ds ≤ x → ∀ b, 0 ≤ b < sb_size sbk → x ≠ BBLOCK b sbk.
Proof. intros Hx c Hc ->. pose proof (bblock_low c Hc). lia. Qed.

Lemma grow_addrs k : default 0 (addrs' !! k) = if decide (p = PAddr k) then b else default 0 (addrs !! k).
Proof.
  pose proof (fo_len _ _ _ _ Hfile). unfold a_grow. destruct p as [k'| | |]; try (by rewrite decide_False).
  destruct (decide (k = k')) as [->|Hne].
  - rewrite decide_True by done. simpl in Hp. by rewrite list_lookup_insert_eq by lia.
  - by rewrite decide_False, list_lookup_insert_ne by congruence.
Qed.

Lemma grow_zero : dv_mem v' b = zero_block.
Proof. rewrite grow_mem by (apply data_not_bblock; lia). by rewrite decide_True. Qed.

Lemma grow_ld32 x k :
  ds ≤ x < sb_size sbk → x ≠ b →
  (∀ q kp, up p = Some (q, kp) → ¬ (x = slot (dv_mem v) addrs q ∧ k = kp)) →
  ld32 k (dv_mem v' x) = ld32 k (dv_mem v x).
Proof.
  intros Hx Hxb Hno. rewrite grow_mem by (apply data_not_bblock; lia). rewrite decide_False by done.
  destruct (up p) as [[q kp]|] eqn:Hup; [|done]. case_decide as Ex; [|done].
  apply ld32_st32_ne. intros ->. by apply (Hno q k).
Qed.

Lemma grow_entry q kp : up p = Some (q, kp) → ld32 kp (dv_mem v' (slot (dv_mem v) addrs q)) = b.
Proof.
  intros Hup. destruct (parent_ok q kp Hup) as (? & Hne & ? & _).
  rewrite grow_mem by (apply data_not_bblock; lia). rewrite decide_False, Hup, decide_True by done.
  destruct Hly. rewrite ld32_st32_eq, u32_small; [done|lia|]. rewrite Hlen. unfold BSIZE. lia.
Qed.

Lemma grow_slot q : pos_ok q → slot (dv_mem v') addrs' q = if decide (q = p) then b else slot (dv_mem v) addrs q.
Proof.
  intros Hq. apply (slot_alloc Hly v v' addrs addrs' p b); try done.
  - apply grow_addrs.
  - apply grow_zero.
  - apply grow_ld32.
  - apply grow_entry.
Qed.

Lemma grow_file : file_ok sbk ds v' addrs'.
Proof.
  apply (file_alloc Hly v v' addrs addrs' p b); try done.
  - apply grow_addrs.
  - destruct p; simpl; [apply length_insert|done..].
  - apply grow_zero.
  - apply grow_ld32.
  - apply grow_entry.
  - apply grow_used.
Qed.

Lemma grow_ext : ext sbk ds [p] v addrs v' addrs'.
Proof.
  pose proof parent_ok as Hpar. pose proof grow_slot as Hs. split.
  - intros q Hq Hn. rewrite Hs, decide_False; [done|set_solver|done].
  - intros q Hin%list_elem_of_singleton. subst q. rewrite Hs, decide_True by done. destruct Hly.
    split_and!; [done|lia|done|]. intros _. apply grow_zero.
  - intros x Hx Hu. rewrite grow_used, Hu by done. apply orb_true_r.
  - intros x Hx Hu Hni. rewrite grow_mem by (apply data_not_bblock; lia).
    rewrite decide_False by congruence. destruct (up p) as [[q k]|] eqn:Hup; [|done].
    destruct (Hpar q k eq_refl) as (_ & _ & _ & Hq & Hl).
    rewrite decide_False; [done|]. intros ->. apply (Hni q Hq Hl).
    rewrite Hs, decide_False by (done || by eapply up_ne). done.
  - intros x Hx Hnb. rewrite grow_mem by done. rewrite decide_False by lia.
    destruct (up p) as [[q k]|] eqn:Hup; [|done]. destruct (Hpar q k eq_refl) as (? & _).
    by rewrite decide_False by lia.
  - unfold v_grow. by destruct (up p) as [[q k]|].
Qed.
End grow.

(** ** The log blocks an operation takes

    A log holds each block once, so an operation that works on the positions
    [T] of a file logs at most: the block of each position, unless it is in the
    log already; and a bitmap block for each position that has no block yet, but
    no more bitmap blocks than the disk has outside the log. *)

Definition open_slots (T : list pos) (v : dview) (addrs : list Z) : nat :=
  length (filter (λ p, slot (dv_mem v) addrs p = 0) T).
Definition to_log (v : dview) (addrs : list Z) (p : pos) : Prop :=
  slot (dv_mem v) addrs p = 0 ∨ slot (dv_mem v) addrs p ∉ dv_logged v.
#[export] Instance to_log_dec v addrs p : Decision (to_log v addrs p).
Proof. unfold to_log. apply _. Defined.
Definition bitmap_blocks (sb : superblock) : list Z := seqZ (sb_bmapstart sb) (sb_size sb / BPB + 1).
Definition open_maps (sb : superblock) (v : dview) : nat := length (filter (λ b, b ∉ dv_logged v) (bitmap_blocks sb)).

Definition need (sb : superblock) (T : list pos) (v : dview) (addrs : list Z) : nat :=
  (length (filter (to_log v addrs) T) + Nat.min (open_maps sb v) (open_slots T v addrs))%nat.

Lemma filter_drops {A} `{!EqDecision A} (P Q : A → Prop) `{!∀ x, Decision (P x), !∀ x, Decision (Q x)} (l xs : list A) :
  NoDup l → NoDup xs → (∀ x, x ∈ xs → x ∈ l ∧ P x ∧ ¬ Q x) → (∀ x, x ∈ l → Q x → P x) →
  (length xs + length (filter Q l) ≤ length (filter P l))%nat.
Proof.
  intros Hl Hxs Hd Hm. rewrite <- length_app. apply submseteq_length, NoDup_submseteq.
  - apply NoDup_app. split; [done|]. split; [|by apply NoDup_filter].
    intros x Hx Hq. apply list_elem_of_filter in Hq as [Hq _]. by destruct (Hd x Hx) as (_ & _ & ?).
  - intros x [Hx|Hx]%elem_of_app; apply list_elem_of_filter.
    + destruct (Hd x Hx) as (? & ? & _). done.
    + apply list_elem_of_filter in Hx as [Hq Hx]. split; [by apply Hm|done].
Qed.

Lemma length_add_logged_in b l : length (add_logged b l) = (length l + if decide (b ∈ l) then 0 else 1)%nat.
Proof. unfold add_logged. case_decide; [lia|]. rewrite length_app. simpl. lia. Qed.

Lemma elem_of_add_logged x b l : x ∈ add_logged b l ↔ x = b ∨ x ∈ l.
Proof. unfold add_logged. case_decide; set_solver. Qed.

Lemma need_le sb T v addrs :
  (need sb T v addrs ≤ length T + Nat.min (length (bitmap_blocks sb)) (length T) ∧ open_slots T v addrs ≤ length T)%nat.
Proof.
  assert (∀ A (P : A → Prop) `{!∀ x, Decision (P x)} (l : list A), length (filter P l) ≤ length l)%nat as H
    by (intros; apply length_filter).
  unfold need, open_slots, open_maps.
  pose proof (H _ (to_log v addrs) _ T). pose proof (H _ (λ p, slot (dv_mem v) addrs p = 0) _ T).
  pose proof (H _ (λ b, b ∉ dv_logged v) _ (bitmap_blocks sb)). lia.
Qed.

Lemma budget_spent lo hi k k' v v' :
  dv_held v' = dv_held v → (length (dv_logged v') + k' ≤ length (dv_logged v) + k)%nat →
  budget lo hi k v → budget lo hi k' v'.
Proof. unfold budget, spare, log_space. intros ->. lia. Qed.

(** Logging the block of a position of [T]. *)
Lemma write_need sb T v addrs v' p :
  NoDup T → p ∈ T → slot (dv_mem v) addrs p ≠ 0 → dv_logged v' = add_logged (slot (dv_mem v) addrs p) (dv_logged v) →
  (∀ q, q ∈ T → slot (dv_mem v') addrs q = slot (dv_mem v) addrs q) →
  (length (dv_logged v') + need sb T v' addrs ≤ length (dv_logged v) + need sb T v addrs ∧
   open_slots T v' addrs = open_slots T v addrs)%nat.
Proof.
  intros HT Hp H0 EL Hs. set (a := slot (dv_mem v) addrs p) in *.
  assert (open_slots T v' addrs = open_slots T v addrs) as Eo.
  { unfold open_slots. assert (∀ l, l ⊆ T → filter (λ p, slot (dv_mem v') addrs p = 0) l = filter (λ p, slot (dv_mem v) addrs p = 0) l) as ->; [|done..].
    intros l. induction l as [|q l IH]; intros Hl; [done|]. rewrite !filter_cons, (IH ltac:(set_solver)), (Hs q ltac:(set_solver)). done. }
  split; [|done]. unfold need. rewrite Eo, EL, length_add_logged_in.
  assert (open_maps sb v' ≤ open_maps sb v)%nat.
  { unfold open_maps. apply (filter_drops _ _ _ []); [apply NoDup_seqZ|constructor|set_solver|].
    intros x _. rewrite EL, elem_of_add_logged. tauto. }
  assert (∀ q, q ∈ T → to_log v' addrs q → to_log v addrs q) as Hm.
  { unfold to_log. intros q Hq. rewrite (Hs q Hq), EL, elem_of_add_logged. tauto. }
  pose proof (filter_drops (to_log v addrs) (to_log v' addrs) T (if decide (a ∈ dv_logged v) then [] else [p]) HT) as Hd.
  destruct (decide (a ∈ dv_logged v)) as [Ha|Ha].
  - specialize (Hd ltac:(constructor) ltac:(set_solver) Hm). simpl in Hd. lia.
  - assert (∀ x, x ∈ [p] → x ∈ T ∧ to_log v addrs x ∧ ¬ to_log v' addrs x) as Hx.
    { intros x ->%list_elem_of_singleton. split; [done|]. unfold to_log. rewrite (Hs p Hp), EL, elem_of_add_logged. tauto. }
    specialize (Hd (NoDup_singleton p) Hx Hm). simpl in Hd. lia.
Qed.

(** Allocating the block of a position of [T]. *)
Lemma grow_need {lo hi ds sbk} (Hly : layout lo hi ds sbk) T v addrs p b :
  (∀ x, length (dv_mem v x) = BSIZE) → file_ok sbk ds v addrs → NoDup T → Forall pos_ok T → p ∈ T →
  (∀ q k, up p = Some (q, k) → q ∈ T) → slot (dv_mem v) addrs p = 0 →
  (∀ q k, up p = Some (q, k) → slot (dv_mem v) addrs q ≠ 0) → ds ≤ b < sb_size sbk → used sbk v b = false →
  let v' := v_grow sbk p b v addrs in let addrs' := a_grow p b addrs in
  (length (dv_logged v') + need sbk T v' addrs' ≤ length (dv_logged v) + need sbk T v addrs ∧
   S (open_slots T v' addrs') ≤ open_slots T v addrs)%nat.
Proof.
  intros Hlen Hf HT Hok Hp HpT H0 Hpar Hb Hu v' addrs'.
  assert (∀ q, q ∈ T → slot (dv_mem v') addrs' q = if decide (q = p) then b else slot (dv_mem v) addrs q) as Hs.
  { intros q Hq. rewrite Forall_forall in Hok. apply (grow_slot Hly); auto. }
  assert (0 < b) as Hb0 by (destruct Hly; lia).
  set (L := dv_logged v) in *. set (bb := BBLOCK b sbk). set (L2 := add_logged b (add_logged bb L)).
  set (xs := p :: match up p with Some (q, _) => if decide (slot (dv_mem v) addrs q ∈ L2) then [] else [q] | None => [] end).
  assert (length (dv_logged v') + 1 ≤ length L + (if decide (bb ∈ L) then 0 else 1) + 1 + length xs ∧
    (∀ x, x ∈ L2 → x ∈ dv_logged v') ∧ ∀ q k, up p = Some (q, k) → slot (dv_mem v) addrs q ∈ dv_logged v')%nat as (EL & HL & Hq).
  { unfold v', v_grow, xs. pose proof (length_add_logged b (add_logged bb L)). pose proof (length_add_logged_in bb L).
    destruct (up p) as [[q k]|].
    - cbn [dv_write dv_logged]. change (dv_logged (dv_alloc sbk b v)) with L2. rewrite length_add_logged_in. unfold L2 in *.
      split_and!; [destruct (decide (slot (dv_mem v) addrs q ∈ _)); cbn [length]; lia|intros x; rewrite (elem_of_add_logged x (slot _ _ q)); tauto|].
      intros ? ? [= <- <-]. rewrite elem_of_add_logged. tauto.
    - change (dv_logged (dv_alloc sbk b v)) with L2. unfold L2 in *. split_and!; [cbn [length]; lia|done|done]. }
  assert (b ∈ dv_logged v' ∧ bb ∈ dv_logged v' ∧ ∀ x, x ∈ L → x ∈ dv_logged v') as (HbL & HbbL & HLL).
  { unfold L2 in HL. split_and!; [|..]; try intros x Hx; apply HL; rewrite !elem_of_add_logged; tauto. }
  assert (S (open_slots T v' addrs') ≤ open_slots T v addrs)%nat as Ho.
  { apply (filter_drops _ _ T [p] HT (NoDup_singleton p)).
    - intros x ->%list_elem_of_singleton. rewrite (Hs p Hp), decide_True by done. split_and!; [done|done|lia].
    - intros q Hq'. rewrite (Hs q Hq'). destruct (decide (q = p)); [intros; lia|done]. }
  split; [|done]. assert ((if decide (bb ∈ L) then 0 else 1) + open_maps sbk v' ≤ open_maps sbk v)%nat as Hmaps.
  { unfold open_maps. change (if decide (bb ∈ L) then 0 else 1)%nat with (if decide (bb ∈ L) then length (@nil Z) else length [bb]).
    assert (∀ x, x ∈ bitmap_blocks sbk → x ∉ dv_logged v' → x ∉ dv_logged v) as Hm by (intros x _ Hx Hx'; by apply Hx, HLL).
    destruct (decide (bb ∈ L)).
    { apply filter_drops; [apply NoDup_seqZ|apply NoDup_nil_2|set_solver|done]. }
    apply filter_drops; [apply NoDup_seqZ|apply NoDup_singleton| |done].
    intros x ->%list_elem_of_singleton. split; [|by split; [|intros Hx; apply Hx]].
    destruct (bblock_eq _ _ _ _ b Hly ltac:(destruct Hly; lia)) as (E & ? & _). apply elem_of_seqZ. fold bb in E.
    pose proof (Z.div_le_mono b (sb_size sbk) BPB ltac:(done)). destruct Hly. lia. }
  assert (length xs + length (filter (to_log v' addrs') T) ≤ length (filter (to_log v addrs) T))%nat as Ht.
  { apply filter_drops; [done| | |].
    - unfold xs. destruct (up p) as [[q k]|] eqn:Hup; [|apply NoDup_singleton]. destruct (decide (_ ∈ L2)); [apply NoDup_singleton|].
      apply NoDup_cons_2; [|apply NoDup_singleton]. intros ->%list_elem_of_singleton. by apply up_ne in Hup.
    - assert (∀ q, q = p → q ∈ T ∧ to_log v addrs q ∧ ¬ to_log v' addrs' q) as Hpp.
      { intros q ->. split; [done|]. unfold to_log. rewrite (Hs p Hp), decide_True by done. split; [by left|]. intros [?|?]; [lia|done]. }
      intros x. unfold xs. destruct (up p) as [[q k]|] eqn:Hup; [|intros ->%list_elem_of_singleton; by apply Hpp].
      destruct (decide (_ ∈ L2)) as [Hin|Hin]; [intros ->%list_elem_of_singleton; by apply Hpp|].
      intros [Ex|Ex]%elem_of_cons; [by apply Hpp|]. apply list_elem_of_singleton in Ex as ->. pose proof (HpT q k eq_refl) as HqT. split; [done|].
      unfold to_log. rewrite (Hs q HqT), decide_False by (by eapply up_ne). split.
      + right. intros Hx. apply Hin. unfold L2. rewrite !elem_of_add_logged. tauto.
      + intros [Hz|Hn]; [by apply (Hpar q k)|]. by apply Hn, (Hq q k).
    - intros q HqT. unfold to_log. rewrite (Hs q HqT). destruct (decide (q = p)) as [->|]; [by left|]. intros [?|Hn]; [by left|right].
      intros Hx. by apply Hn, HLL. }
  unfold need. destruct (decide (bb ∈ L)); lia.
Qed.

(** ** bmap *)

Section code.
Context {D : Type} `{!LogDisk D} (dev lo hi : Z) `{!LogDiskSpec D dev lo hi} (ds : Z).
Implicit Types (s : fstate D) (v : dview) (i : inode).

(** The file of inode [i] at cache entry [ip], inside a transaction with room
    for [k] more blocks and no buffer held. *)
Record file_inv (k : nat) s v (ip : nat) i : Prop := FileInv {
  fi_pre : alloc_pre dev lo hi ds k s v;
  fi_ip : icache s !! ip = Some i;
  fi_dev : i_dev i = dev;
  fi_file : file_ok (sb s) ds v (i_addrs i);
  fi_held : dv_held v = [];
}.

(** [s] with the addresses of inode [ip] and the disk replaced. *)
Definition with_addrs s (ip : nat) i (addrs : list Z) (d : D) : fstate D :=
  FState (sb s) (<[ip := i <| i_addrs := addrs |>]> (icache s)) (cwd s) (mypid s) (um s) (km s) d.

Lemma run_the_inode s ip i : icache s !! ip = Some i → run (the_inode ip) s i s.
Proof. intros H. unfold the_inode, gets. by rewrite H. Qed.

Lemma with_addrs_same s ip i d : icache s !! ip = Some i → with_addrs s ip i (i_addrs i) d = with_disk s d.
Proof.
  intros H. unfold with_addrs. rewrite list_insert_id; [by destruct s|]. by destruct i.
Qed.

Lemma with_addrs_twice s ip i addrs d addrs' d' :
  with_addrs (with_addrs s ip i addrs d) ip (i <| i_addrs := addrs |>) addrs' d' = with_addrs s ip i addrs' d'.
Proof. unfold with_addrs. cbn. f_equal. apply list_insert_insert_eq. Qed.

Lemma rep_lengths s v x : drep (disk s) v → length (dv_mem v x) = BSIZE.
Proof. apply drep_length. Qed.

Lemma not_dirty d v b : drep d v → dv_held v = [] → b ∉ dv_dirty v.
Proof. intros R Hh H. apply (drep_dirty _ _ _ R) in H. rewrite Hh in H. by apply not_elem_of_nil in H. Qed.

(** Inside a transaction with room for the blocks that the positions [T] still
    take, two more and [k] others, and with free blocks for all of them and [n]
    others. *)
Definition within (T : list pos) (k n : nat) s v ip i : Prop :=
  NoDup T ∧ Forall pos_ok T ∧ file_inv (need (sb s) T v (i_addrs i) + (2 + k)) s v ip i ∧
  has_free (open_slots T v (i_addrs i) + n) (sb s) v.

(** What was logged since is covered by what the positions needed. *)
Definition paid (sb : superblock) (T : list pos) v addrs v' addrs' : Prop :=
  (length (dv_logged v') + need sb T v' addrs' ≤ length (dv_logged v) + need sb T v addrs)%nat.

Lemma within_room T k n s v ip i p :
  within T k n s v ip i → p ∈ T → slot (dv_mem v) (i_addrs i) p = 0 → budget lo hi 3 v ∧ has_free 1 (sb s) v.
Proof.
  intros (HT & _ & Hi & Hn) Hp H0.
  assert (∀ (P : pos → Prop) `{!∀ x, Decision (P x)}, P p → 1 ≤ length (filter P T))%nat as Hlen.
  { intros P ? HP. assert (p ∈ filter P T) as Hin by (by apply list_elem_of_filter). destruct (filter P T); [by apply not_elem_of_nil in Hin|simpl; lia]. }
  split.
  - eapply budget_le, (fi_pre _ _ _ _ _ Hi).(ap_budget _ _ _ _ _ _ _). unfold need.
    pose proof (Hlen (to_log v (i_addrs i)) _ ltac:(by left)). lia.
  - eapply has_free_le, Hn. unfold open_slots. pose proof (Hlen (λ p, slot (dv_mem v) (i_addrs i) p = 0) _ H0). lia.
Qed.

(** Invariants of the file after the block of a position is allocated. *)
Lemma grow_inv T k n s v ip i p b d' addrs' v' :
  within T k n s v ip i → p ∈ T → (∀ q j, up p = Some (q, j) → q ∈ T) → slot (dv_mem v) (i_addrs i) p = 0 →
  (∀ q j, up p = Some (q, j) → slot (dv_mem v) (i_addrs i) q ≠ 0) →
  first_free (sb s) v b → drep d' v' → v' = v_grow (sb s) p b v (i_addrs i) → addrs' = a_grow p b (i_addrs i) →
  within T k n (with_addrs s ip i addrs' d') v' ip (i <| i_addrs := addrs' |>) ∧
  ext (sb s) ds [p] v (i_addrs i) v' addrs' ∧ slot (dv_mem v') addrs' p = b ∧
  paid (sb s) T v (i_addrs i) v' addrs'.
Proof.
  intros (HT & HTok & [[Hly R Hm Hh Hbud] Hip Hdev Hf Hheld] & Hn) HpT HupT H0 Hpar (Hb & Hu & _) R' -> ->.
  pose proof (proj1 (Forall_forall _ _) HTok p HpT) as Hp.
  pose proof (free_is_data v b Hm Hb Hu) as Hds.
  assert (∀ x, length (dv_mem v x) = BSIZE) as Hlen by (intros x; by apply (drep_length (disk s))).
  pose proof (grow_used Hly v (i_addrs i) p b Hlen Hf Hp Hpar ltac:(lia) Hu) as Hused.
  pose proof (grow_ext Hly v (i_addrs i) p b Hlen Hf Hp H0 Hpar ltac:(lia) Hu) as Hext.
  assert (dv_held (v_grow (sb s) p b v (i_addrs i)) = []) as Hheld' by (by rewrite (e_held _ _ _ _ _ _ _ Hext)).
  destruct (grow_need Hly T v (i_addrs i) p b) as [Hneed Hopen]; [done..|lia|done|]. cbv zeta in Hneed, Hopen.
  split_and!; [split; [done|split; [done|split]]|done| |done].
  - split; [split| | | |]; cbn [with_addrs sb icache disk i_dev i_addrs update field_set]; try done.
    + intros x Hx. rewrite Hused by (destruct Hly; lia). rewrite Hm by done. apply orb_true_r.
    + unfold held_ok. by rewrite Hheld'.
    + eapply budget_spent, Hbud; [congruence|lia].
    + apply list_lookup_insert_eq. by eapply lookup_lt_Some.
    + apply (grow_file Hly); done || lia.
  - cbn [with_addrs sb i_addrs update field_set]. eapply has_free_used; [|exact Hused]. eapply has_free_le, Hn. lia.
  - rewrite (grow_slot Hly) by (done || lia). by rewrite decide_True.
Qed.

(** A slot of the tree looked up, and allocated when it is empty: at most
    position [p] changes. *)
Definition slot_found (T : list pos) (k n : nat) s v ip i (p : pos) (r : outcome (Z * fstate D)) : Prop :=
  ∃ a v' addrs' d' ps, r = Ret (a, with_addrs s ip i addrs' d') ∧ ps ⊆ [p] ∧
    within T k n (with_addrs s ip i addrs' d') v' ip (i <| i_addrs := addrs' |>) ∧
    ext (sb s) ds ps v (i_addrs i) v' addrs' ∧ a = slot (dv_mem v') addrs' p ∧ a ≠ 0 ∧
    paid (sb s) T v (i_addrs i) v' addrs'.

Lemma slot_found_same T k n s v ip i p d' :
  within T k n s v ip i → drep d' v → slot (dv_mem v) (i_addrs i) p ≠ 0 →
  slot_found T k n s v ip i p (Ret (slot (dv_mem v) (i_addrs i) p, with_disk s d')).
Proof.
  intros (HT & HTok & [[Hly R Hm Hh Hbud] Hip Hdev Hf Hheld] & Hn) R' H0.
  exists (slot (dv_mem v) (i_addrs i) p), v, (i_addrs i), d', []. rewrite with_addrs_same by done.
  split_and!; try done; [set_solver| |apply ext_refl|by unfold paid].
  assert (i <| i_addrs := i_addrs i |> = i) as -> by (by destruct i). split; [done|]. split; [done|]. split; [|done]. by split; [split|..].
Qed.

Lemma has_free_no_panic n sb v : has_free (S n) sb v → ¬ ∀ b, 0 ≤ b < sb_size sb → used sb v b = true.
Proof.
  intros ([|b l] & _ & Hl & Hf) H; [done|]. apply Forall_cons in Hf as [[Hb Hu] _]. rewrite H in Hu by done. done.
Qed.

Lemma inode_slot_run T k n s v ip i (j : nat) :
  within T k n s v ip i → PAddr j ∈ T → slot_found T k n s v ip i (PAddr j) (inode_slot ip (Z.of_nat j) s).
Proof.
  intros Hw HjT. pose proof Hw as (_ & _ & [[Hly R Hm Hh _] Hip Hdev Hf Hheld] & _).
  unfold inode_slot. step_with (run_the_inode s ip i Hip).
  assert (addr_at i (Z.of_nat j) = slot (dv_mem v) (i_addrs i) (PAddr j)) as -> by (unfold addr_at; by rewrite Nat2Z.id).
  destruct (Z.eqb_spec (slot (dv_mem v) (i_addrs i) (PAddr j)) 0) as [E0|E0].
  - rewrite Hdev. destruct (within_room T k n s v ip i _ Hw HjT E0) as [Hbud Hn].
    destruct (balloc_run Hly s v R Hm Hh) as [(b & d' & E & Hff & R' & _)|[_ Hall]];
      [by eapply budget_le, Hbud; lia|done| |by destruct (has_free_no_panic _ _ _ Hn)].
    destruct (grow_inv T k n s v ip i (PAddr j) b d' (<[j := b]> (i_addrs i)) (dv_alloc (sb s) b v))
      as (Hw' & Hext & Hsl & Hpaid); try done.
    step_with E. unfold set_addr, upd_inode. rewrite Nat2Z.id.
    exists b, (dv_alloc (sb s) b v), (<[j := b]> (i_addrs i)), d', [PAddr j]. split_and!; try done.
    + rewrite (bind_Ret _ _ _ _ _ (run_modify _ _)). unfold with_disk, with_addrs, mret, ST_ret. cbn.
      by rewrite (alter_insert _ _ _ _ Hip).
    + destruct Hff as (Hb & Hu & _). pose proof (free_is_data v b Hm Hb Hu). destruct Hly. lia.
  - unfold mret, ST_ret. rewrite <- (with_disk_id s) at 2. by apply slot_found_same.
Qed.

Lemma file_inv_le k k' s v ip i : (k' ≤ k)%nat → file_inv k s v ip i → file_inv k' s v ip i.
Proof. intros Hk [[] ? ? ? ?]. split; [split|..]; try done. by eapply budget_le. Qed.

(** Entry [j] of the indirect block at position [q]. *)
Lemma indirect_slot_run T k n s v ip i p q (j : nat) :
  within T k n s v ip i → p ∈ T → q ∈ T → up p = Some (q, j) → slot (dv_mem v) (i_addrs i) q ≠ 0 →
  slot_found T k n s v ip i p (indirect_slot dev (slot (dv_mem v) (i_addrs i) q) (Z.of_nat j) s).
Proof.
  intros Hw HpT HqT Hup Hq0. pose proof Hw as (_ & HTok & [[Hly R Hm Hh Hbud0] Hip Hdev Hf Hheld] & _).
  pose proof (proj1 (Forall_forall _ _) HTok p HpT) as Hp.
  destruct (up_ok p q j Hp Hup) as (Hq & Hj & Hnl).
  destruct (fo_slot _ _ _ _ Hf q Hq Hq0) as [Hrange Hused].
  pose proof (slot_up (dv_mem v) (i_addrs i) p q j Hup) as Esl. unfold ent in Esl.
  rewrite (proj2 (Z.eqb_neq _ 0)) in Esl by done.
  set (a := slot (dv_mem v) (i_addrs i) q) in *.
  pose proof (data_loggable Hly a Hrange) as [Hal Har].
  assert (a ∉ dv_held v) as Hah by (rewrite Hheld; apply not_elem_of_nil).
  pose proof (not_dirty _ _ a R Hheld) as Hdir.
  destruct (block_read s v a) as (bp & d1 & d2 & E1 & E2 & E3 & R1 & H1 & K1 & R2 & _);
    [done|done|done|eauto with budget|].
  unfold indirect_slot. step_with E1. step_with E2. rewrite Nat2Z.id, <- Esl.
  destruct (Z.eqb_spec (slot (dv_mem v) (i_addrs i) p) 0) as [E0|E0].
  2:{ step_with (eq_refl (Ret (slot (dv_mem v) (i_addrs i) p, with_disk s d1))). step_with E3.
      by apply slot_found_same. }
  destruct (within_room T k n s v ip i p Hw HpT E0) as [Hbud Hn].
  destruct (balloc_run Hly (with_disk s d1) (dv_hold a v) R1) as [(b & d3 & E4 & Hff & R4 & K4)|[_ Hall]];
    [done|by constructor; [split|rewrite Hheld]|by apply budget_hold; eapply budget_le, Hbud; lia|done|
     |by destruct (has_free_no_panic _ _ _ Hn)].
  change (first_free (sb s) v b) in Hff.
  pose proof Hff as (Hb & Hu & _). pose proof (free_is_data v b Hm Hb Hu) as Hds.
  assert (a ≠ b) as Hab by congruence.
  assert (dv_mem (dv_alloc (sb s) b (dv_hold a v)) a = dv_mem v a) as Ema.
  { rewrite (alloc_mem (ds := ds)), decide_False; [done|done|lia|].
    pose proof (data_not_bblock Hly a ltac:(lia) b Hb). done. }
  pose proof (dholds_data d3 _ bp a R4 (K4 _ _ H1)) as Ed. rewrite Ema in Ed.
  destruct (bracket_write d3 (dv_alloc (sb s) b v) bp a (st32 j b (dv_mem v a))) as (d4 & E5 & R5 & K5);
    [exact R4|by apply K4|done|done|by rewrite length_st32; apply (drep_length (disk s))|done| |].
  { eapply budget_space. do 2 apply budget_write. exact Hbud. }
  destruct (d_brelse_spec d4 _ bp a R5 (K5 _ _ (K4 _ _ H1)) Hdir) as (d5 & E6 & R6 & _).
  rewrite dv_drop_hold in R6 by done.
  destruct (grow_inv T k n s v ip i p b d5 (i_addrs i) (dv_write a (st32 j b (dv_mem v a)) (dv_alloc (sb s) b v)))
    as (Hw' & Hext & Hsl & Hpaid); try done.
  { intros q' j' Hup'. rewrite Hup in Hup'. by injection Hup' as <- <-. }
  { intros q' j' Hup'. rewrite Hup in Hup'. by injection Hup' as <- <-. }
  { unfold v_grow. by rewrite Hup. }
  { by destruct p. }
  exists b, (dv_write a (st32 j b (dv_mem v a)) (dv_alloc (sb s) b v)), (i_addrs i), d5, [p].
  split_and!; try done; [|destruct Hly; lia].
  assert (run (a0 ← balloc dev; d ← data bp; _ ← store bp (st32 j a0 d); _ ← log_write bp; mret a0)
            (with_disk s d1) b (with_disk s d4)) as E.
  { step_with E4. step_with (run_data bp (with_disk (with_disk s d1) d3) _ Ed).
    step_with (run_store bp (st32 j b (dv_mem v a)) (with_disk (with_disk s d1) d3)).
    step_with (run_on_disk _ (with_disk s (d_store bp (st32 j b (dv_mem v a)) d3)) _ _ E5). done. }
  step_with E. step_with (run_on_disk _ (with_disk s d4) _ _ E6).
  rewrite with_addrs_same by done. done.
Qed.

(** The position [bmap] resolves a file block number to. *)
Definition tpos (bn : Z) : pos :=
  if bn <? NDIRECT then PAddr (Z.to_nat bn)
  else if bn - NDIRECT <? NINDIRECT then PInd (Z.to_nat (bn - NDIRECT))
  else PDbl2 (Z.to_nat ((bn - NDIRECT - NINDIRECT) / 256)) (Z.to_nat ((bn - NDIRECT - NINDIRECT) mod 256)).

(** A position and the indirect blocks above it. *)
Definition path (p : pos) : list pos :=
  match p with
  | PAddr _ => [p]
  | PInd _ => [p; PAddr 11]
  | PDbl k => [p; PAddr 12]
  | PDbl2 k _ => [p; PDbl k; PAddr 12]
  end.

Lemma path_props p : pos_ok p → NoDup (path p) ∧ (length (path p) ≤ 3)%nat ∧ Forall pos_ok (path p).
Proof.
  intros H. destruct p; simpl in *; (split_and!; [repeat (apply NoDup_cons_2; [set_solver|]); apply NoDup_nil_2|lia|rewrite ?Forall_cons, Forall_nil; simpl; lia]).
Qed.

Lemma dbl_range bn : 0 ≤ bn < NDINDIRECT → 0 ≤ bn / 256 < 256 ∧ 0 ≤ bn mod 256 < 256.
Proof.
  intros H. unfold NDINDIRECT in H. pose proof (Z.mod_pos_bound bn 256).
  assert (bn / 256 < 256) by (apply Z.div_lt_upper_bound; lia). pose proof (Z.div_pos bn 256). lia.
Qed.

Lemma tpos_ok bn : 0 ≤ bn < MAXFILE → pos_ok (tpos bn) ∧ leaf (tpos bn).
Proof.
  intros H. unfold MAXFILE, tpos in *. unfold NDIRECT, NINDIRECT in *.
  destruct (Z.ltb_spec bn 11); [simpl; lia|]. destruct (Z.ltb_spec (bn - 11) 256); [simpl; lia|].
  destruct (dbl_range (bn - 11 - 256)); [lia|]. simpl. lia.
Qed.

(** [slot_found] with the positions on the way down allocated as needed. *)
Definition path_found (T : list pos) (k n : nat) s v ip i (p : pos) (r : outcome (Z * fstate D)) : Prop :=
  ∃ a v' addrs' d' ps, r = Ret (a, with_addrs s ip i addrs' d') ∧
    Forall pos_ok ps ∧ (∀ q, q ∈ ps → leaf q → q = p) ∧
    within T k n (with_addrs s ip i addrs' d') v' ip (i <| i_addrs := addrs' |>) ∧
    ext (sb s) ds ps v (i_addrs i) v' addrs' ∧ a = slot (dv_mem v') addrs' p ∧ a ≠ 0 ∧
    paid (sb s) T v (i_addrs i) v' addrs'.

Lemma slot_path T k n s v ip i p r : pos_ok p → slot_found T k n s v ip i p r → path_found T k n s v ip i p r.
Proof.
  intros Hp (a & v' & addrs' & d' & ps & -> & Hps & Hi & Hext & Ha & H0 & Hn).
  exists a, v', addrs', d', ps. split_and!; try done.
  - apply Forall_forall. intros q Hq. apply Hps, list_elem_of_singleton in Hq. by subst.
  - intros q Hq _. by apply Hps, list_elem_of_singleton in Hq.
Qed.

(** One more level below a position that is not a leaf. *)
Lemma path_step T k n s v ip i p q (j : nat) (m : ST (fstate D) Z) :
  p ∈ T → q ∈ T → up p = Some (q, j) → ¬ leaf q → path_found T k n s v ip i q (m s) →
  path_found T k n s v ip i p ((m ≫= λ addr, indirect_slot dev addr (Z.of_nat j)) s).
Proof.
  intros HpT HqT Hup Hnl (a & v1 & addrs1 & d1 & ps & E & Hps & Hlf & Hw & Hext & -> & H0 & Hpaid).
  step_with E.
  destruct (indirect_slot_run T k n (with_addrs s ip i addrs1 d1) v1 ip (i <| i_addrs := addrs1 |>) p q j)
    as (a & v2 & addrs2 & d2 & qs & E2 & Hqs & Hw2 & Hext2 & Ha & H02 & Hpaid2); try done.
  rewrite with_addrs_twice in E2, Hw2.
  change (i <| i_addrs := addrs1 |> <| i_addrs := addrs2 |>) with (i <| i_addrs := addrs2 |>) in *.
  change (i_addrs (i <| i_addrs := addrs1 |>)) with addrs1 in *.
  change (sb (with_addrs s ip i addrs1 d1)) with (sb s) in *.
  assert (∀ r, r ∈ qs → r = p) as Hqp by (intros r Hr; by apply Hqs, list_elem_of_singleton in Hr).
  destruct Hw as (_ & HTok & Hi & _). pose proof Hw2 as (_ & _ & Hi2 & _).
  pose proof (proj1 (Forall_forall _ _) HTok p HpT) as Hp.
  exists a, v2, addrs2, d2, (qs ++ ps). split_and!; try done.
  - apply Forall_app. split; [|done]. apply Forall_forall. intros r Hr%Hqp. by subst.
  - intros r [Hr|Hr]%elem_of_app Hl; [by apply Hqp|]. by rewrite (Hlf r Hr Hl) in Hl.
  - apply (ext_trans _ _ ps qs v (i_addrs i) v1 addrs1 v2 addrs2); try done.
    + destruct Hi as [[Hly _ _ _ _] _ _ _ _]. apply Hly.
    + apply Forall_forall. intros r Hr%Hqp. by subst.
    + apply (fi_file _ _ _ _ _ Hi).
    + apply (fi_file _ _ _ _ _ Hi2).
  - unfold paid in *. lia.
Qed.

Lemma bmap_path T k n s v ip i bn :
  within T k n s v ip i → 0 ≤ bn < MAXFILE → path (tpos bn) ⊆ T →
  path_found T k n s v ip i (tpos bn) (bmap ip bn s).
Proof.
  intros Hw Hbn HT. pose proof (tpos_ok bn Hbn) as [Hok _]. pose proof Hw as (_ & _ & Hi & _).
  unfold bmap. step_with (run_the_inode s ip i (fi_ip _ _ _ _ _ Hi)). rewrite (fi_dev _ _ _ _ _ Hi).
  unfold tpos in *. destruct (Z.ltb_spec bn NDIRECT) as [H1|H1].
  { apply slot_path; [done|]. unfold NDIRECT in H1.
    assert (bn = Z.of_nat (Z.to_nat bn)) as Eb by lia. set (j := Z.to_nat bn) in *. rewrite Eb.
    apply inode_slot_run; [done|]. apply HT. left. }
  destruct (Z.ltb_spec (bn - NDIRECT) NINDIRECT) as [H2|H2].
  { assert (bn - NDIRECT = Z.of_nat (Z.to_nat (bn - NDIRECT))) as Eb by lia.
    set (j := Z.to_nat (bn - NDIRECT)) in *. rewrite Eb.
    apply (path_step T k n s v ip i _ (PAddr 11)); [apply HT; left|apply HT; right; left|done|simpl; lia|].
    apply slot_path; [simpl; lia|]. change NDIRECT with (Z.of_nat 11).
    apply inode_slot_run; [done|apply HT; right; left]. }
  destruct (Z.ltb_spec (bn - NDIRECT - NINDIRECT) NDINDIRECT) as [H3|H3]; [|unfold MAXFILE in Hbn; lia].
  destruct (dbl_range (bn - NDIRECT - NINDIRECT)) as [Hk Hj]; [lia|].
  unfold NADDR_PER_BLOCK.
  set (c := bn - NDIRECT - NINDIRECT) in *.
  assert (c / 256 = Z.of_nat (Z.to_nat (c / 256)) ∧ c mod 256 = Z.of_nat (Z.to_nat (c mod 256))) as [Ek Ej] by lia.
  set (kk := Z.to_nat (c / 256)) in *. set (j := Z.to_nat (c mod 256)) in *. rewrite Ek, Ej.
  assert (PDbl2 kk j ∈ T ∧ PDbl kk ∈ T ∧ PAddr 12 ∈ T) as (T1 & T2 & T3).
  { split_and!; apply HT; [left|right; left|right; right; left]. }
  assert (path_found T k n s v ip i (PDbl kk)
            ((inode_slot ip (NDIRECT + 1) ≫= λ addr, indirect_slot dev addr (Z.of_nat kk)) s)) as Hd.
  { apply (path_step T k n s v ip i _ (PAddr 12)); [done|done|done|simpl; lia|].
    apply slot_path; [simpl; lia|]. change (NDIRECT + 1) with (Z.of_nat 12). by apply inode_slot_run. }
  pose proof (path_step T k n s v ip i (PDbl2 kk j) (PDbl kk) j _ T1 T2 eq_refl (λ H, H) Hd) as Hr.
  unfold mbind, ST_bind in Hr |- *. by destruct (inode_slot ip (NDIRECT + 1) s) as [[? ?]| |].
Qed.

(** Room for eight blocks and three free ones are enough for one position. *)
Lemma bmap_run k n s v ip i bn :
  file_inv (8 + k) s v ip i → has_free (3 + n) (sb s) v → 0 ≤ bn < MAXFILE →
  ∃ a v' addrs' d' ps, bmap ip bn s = Ret (a, with_addrs s ip i addrs' d') ∧
    Forall pos_ok ps ∧ (∀ q, q ∈ ps → leaf q → q = tpos bn) ∧
    file_inv k (with_addrs s ip i addrs' d') v' ip (i <| i_addrs := addrs' |>) ∧
    ext (sb s) ds ps v (i_addrs i) v' addrs' ∧ a = slot (dv_mem v') addrs' (tpos bn) ∧ a ≠ 0 ∧ has_free n (sb s) v'.
Proof.
  intros Hi Hn Hbn. destruct (path_props (tpos bn)) as (HN & Hl & HP); [by apply tpos_ok|].
  destruct (need_le (sb s) (path (tpos bn)) v (i_addrs i)) as [H1 H2].
  destruct (bmap_path (path (tpos bn)) k n s v ip i bn) as (a & v' & addrs' & d' & ps & E & Hps & Hlf & (_ & _ & Hi' & Hn') & Hx & Ha & H0 & _).
  - split_and!; [done|done|eapply file_inv_le, Hi; lia|eapply has_free_le, Hn; lia].
  - done.
  - done.
  - exists a, v', addrs', d', ps. split_and!; try done; [eapply file_inv_le, Hi'; lia|eapply has_free_le, Hn'; lia].
Qed.

(** A block that is already mapped is found without changing anything. *)
Lemma inode_slot_hit s ip i (j : nat) :
  icache s !! ip = Some i → slot (λ _, []) (i_addrs i) (PAddr j) ≠ 0 →
  run (inode_slot ip (Z.of_nat j)) s (slot (λ _, []) (i_addrs i) (PAddr j)) s.
Proof.
  intros Hip H0. unfold inode_slot. step_with (run_the_inode s ip i Hip). unfold addr_at. rewrite Nat2Z.id.
  simpl in H0. by rewrite (proj2 (Z.eqb_neq _ 0)).
Qed.

Lemma indirect_slot_hit s v a (j : nat) :
  drep (disk s) v → 0 ≤ a < 2 ^ 31 → a ∉ dv_held v → spare 1 v → ld32 j (dv_mem v a) ≠ 0 →
  ∃ d', run (indirect_slot dev a (Z.of_nat j)) s (ld32 j (dv_mem v a)) (with_disk s d') ∧ drep d' v.
Proof.
  intros R Ha Hh Hsp H0. destruct (block_read s v a) as (bp & d1 & d2 & E1 & E2 & E3 & _ & _ & _ & R2 & _); [done..|].
  exists d2. split; [|done]. unfold indirect_slot. step_with E1. step_with E2. rewrite Nat2Z.id.
  rewrite (proj2 (Z.eqb_neq _ 0)) by done.
  step_with (eq_refl (Ret (ld32 j (dv_mem v a), with_disk s d1))). by step_with E3.
Qed.

Lemma bmap_hit k s v ip i bn :
  file_inv k s v ip i → 0 ≤ bn < MAXFILE → slot (dv_mem v) (i_addrs i) (tpos bn) ≠ 0 →
  ∃ d', run (bmap ip bn) s (slot (dv_mem v) (i_addrs i) (tpos bn)) (with_disk s d') ∧ drep d' v.
Proof.
  intros Hi Hbn H0. pose proof Hi as [[Hly R Hm Hh Hbud] Hip Hdev Hf Hheld].
  pose proof (tpos_ok bn Hbn) as [Hok _].
  assert (∀ q, pos_ok q → slot (dv_mem v) (i_addrs i) q ≠ 0 →
            0 ≤ slot (dv_mem v) (i_addrs i) q < 2 ^ 31) as Hrange.
  { intros q Hq Hq0. destruct (fo_slot _ _ _ _ Hf q Hq Hq0) as [? _]. destruct Hly. lia. }
  assert (∀ x, x ∉ dv_held v) as Hnh by (intros x; rewrite Hheld; apply not_elem_of_nil).
  pose proof (budget_spare _ _ _ _ Hbud) as Hsp.
  unfold bmap. step_with (run_the_inode s ip i Hip). rewrite Hdev.
  unfold tpos in *. destruct (Z.ltb_spec bn NDIRECT) as [H1|H1].
  { assert (bn = Z.of_nat (Z.to_nat bn)) as Eb by lia. set (j := Z.to_nat bn) in *. rewrite Eb.
    exists (disk s). rewrite with_disk_id. split; [|done]. by apply inode_slot_hit. }
  destruct (Z.ltb_spec (bn - NDIRECT) NINDIRECT) as [H2|H2].
  { assert (bn - NDIRECT = Z.of_nat (Z.to_nat (bn - NDIRECT))) as Eb by lia.
    set (j := Z.to_nat (bn - NDIRECT)) in *. rewrite Eb. simpl in H0 |- *. unfold ent in H0 |- *.
    destruct (Z.eqb_spec (default 0 (i_addrs i !! 11%nat)) 0) as [E0|E0]; [done|].
    change NDIRECT with (Z.of_nat 11). step_with (inode_slot_hit s ip i 11 Hip E0). simpl slot.
    apply indirect_slot_hit; try done. apply (Hrange (PAddr 11)); [simpl; lia|done]. }
  destruct (Z.ltb_spec (bn - NDIRECT - NINDIRECT) NDINDIRECT) as [H3|H3]; [|unfold MAXFILE in Hbn; lia].
  unfold NADDR_PER_BLOCK. set (c := bn - NDIRECT - NINDIRECT) in *.
  destruct (dbl_range c) as [Hk Hj]; [lia|].
  assert (c / 256 = Z.of_nat (Z.to_nat (c / 256)) ∧ c mod 256 = Z.of_nat (Z.to_nat (c mod 256))) as [Ek Ej] by lia.
  set (kk := Z.to_nat (c / 256)) in *. set (j := Z.to_nat (c mod 256)) in *. rewrite Ek, Ej.
  assert (slot (dv_mem v) (i_addrs i) (PDbl kk) ≠ 0) as Hd0.
  { intros E. simpl in H0, E. rewrite E in H0. by apply H0. }
  assert (default 0 (i_addrs i !! 12%nat) ≠ 0) as Ha0.
  { intros E. simpl in Hd0. rewrite E in Hd0. by apply Hd0. }
  change (NDIRECT + 1) with (Z.of_nat 12). step_with (inode_slot_hit s ip i 12 Hip Ha0). simpl slot at 2.
  pose proof (Hrange (PAddr 12) ltac:(simpl; lia) Ha0) as Hr12.
  pose proof (Hrange (PDbl kk) ltac:(simpl; lia) Hd0) as Hrd.
  assert (∀ a j, a ≠ 0 → ent (dv_mem v) a j = ld32 j (dv_mem v a)) as Hent.
  { intros a j' Hn0. unfold ent. by rewrite (proj2 (Z.eqb_neq _ 0)). }
  simpl in Hd0, H0, Hrd |- *. rewrite (Hent _ j Hd0) in H0 |- *.
  rewrite (Hent _ kk Ha0) in *.
  destruct (indirect_slot_hit s v _ kk R Hr12 (Hnh _) Hsp Hd0) as (d1 & E1 & R1). step_with E1.
  destruct (indirect_slot_hit (with_disk s d1) v _ j R1 Hrd (Hnh _) Hsp H0) as (d2 & E2 & R2).
  by exists d2.
Qed.
End code.

(** C7. [bmap] returns the block of a file block number, allocating it and the
    indirect blocks on the way when they are missing.  A mapped block is
    returned as it is; a new block was free, is zeroed and belongs to no other
    position.  All other positions of the file that hold data keep their
    blocks, and no allocated block other than the file's indirect blocks
    changes its contents.  A block number past [MAXFILE] panics. *)
Theorem bmap_correct {D : Type} `{!LogDisk D} (dev lo hi : Z) `{!LogDiskSpec D dev lo hi} ds k n
    (s : fstate D) v ip i bn :
  file_inv dev lo hi ds (8 + k) s v ip i → has_free (3 + n) (sb s) v → 0 ≤ bn →
  (bn < MAXFILE → ∃ a s' v' i', run (bmap ip bn) s a s' ∧
     file_inv dev lo hi ds k s' v' ip i' ∧ has_free n (sb s') v' ∧
     a = slot (dv_mem v') (i_addrs i') (tpos bn) ∧ a ≠ 0 ∧
     (slot (dv_mem v) (i_addrs i) (tpos bn) ≠ 0 → a = slot (dv_mem v) (i_addrs i) (tpos bn)) ∧
     (slot (dv_mem v) (i_addrs i) (tpos bn) = 0 → used (sb s) v a = false ∧ dv_mem v' a = zero_block) ∧
     (∀ q, pos_ok q → leaf q → q ≠ tpos bn → slot (dv_mem v') (i_addrs i') q = slot (dv_mem v) (i_addrs i) q) ∧
     (∀ x, ds ≤ x < sb_size (sb s) → used (sb s) v x = true →
        (∀ q, pos_ok q → ¬ leaf q → slot (dv_mem v') (i_addrs i') q ≠ x) → dv_mem v' x = dv_mem v x)) ∧
  (MAXFILE ≤ bn → bmap ip bn s = Panic "bmap: out of range").
Proof.
  intros Hi Hn H0. split; intros Hbn.
  - destruct (tpos_ok bn ltac:(lia)) as [Hok Hlf].
    destruct (bmap_run dev lo hi ds k n s v ip i bn Hi Hn ltac:(lia))
      as (a & v' & addrs' & d' & ps & E & Hps & Hleaf & Hi' & Hext & Ea & Ha & Hn').
    exists a, (with_addrs s ip i addrs' d'), v', (i <| i_addrs := addrs' |>). split_and!; try done.
    + intros Hs. rewrite Ea. by apply (ext_keeps _ _ _ _ _ _ _ _ Hext).
    + intros Hs. destruct (decide (tpos bn ∈ ps)) as [Hin|Hin].
      * destruct (e_new _ _ _ _ _ _ _ Hext _ Hin) as (_ & _ & Hu & Hz). rewrite Ea. split; [done|by apply Hz].
      * rewrite (e_slot _ _ _ _ _ _ _ Hext _ Hok Hin) in Ea. congruence.
    + intros q Hq Hl Hne. apply (e_slot _ _ _ _ _ _ _ Hext); [done|]. intros Hin. by apply Hne, Hleaf.
    + intros x Hx Hu Hni. by apply (e_mem _ _ _ _ _ _ _ Hext).
  - unfold bmap. step_with (run_the_inode s ip i (fi_ip _ _ _ _ _ _ _ _ _ Hi)).
    unfold MAXFILE, NDIRECT, NINDIRECT, NDINDIRECT in *.
    destruct (Z.ltb_spec bn 11); [lia|]. destruct (Z.ltb_spec (bn - 11) 256); [lia|].
    by destruct (Z.ltb_spec (bn - 11 - 256) (256 * 256)); [lia|].
Qed.
