(* ===== verification/FsData.v ===== *)
(** * fs.c: reading and writing the contents of a file

    The contents of a file are the bytes its block map leads to.  [writei]
    changes exactly the bytes it is given, whichever memory they come from,
    and [readi] copies exactly the bytes of the file. *)

From S2P Require Import Prelude Bytes BufCache Bio Log LogDisk CString Fs FsAlloc FsMap.

(** ** Positions of bytes *)

Lemma tpos_inj b1 b2 : 0 ≤ b1 < MAXFILE → 0 ≤ b2 < MAXFILE → tpos b1 = tpos b2 → b1 = b2.
Proof.
  unfold MAXFILE, tpos. unfold NDIRECT, NINDIRECT, NDINDIRECT. intros H1 H2.
  destruct (Z.ltb_spec b1 11), (Z.ltb_spec b2 11), (Z.ltb_spec (b1 - 11) 256), (Z.ltb_spec (b2 - 11) 256);
    intros [= E]; try lia; try done.
  pose proof (Z.div_mod (b1 - 11 - 256) 256). pose proof (Z.div_mod (b2 - 11 - 256) 256).
  pose proof (Z.mod_pos_bound (b1 - 11 - 256) 256). pose proof (Z.mod_pos_bound (b2 - 11 - 256) 256).
  pose proof (Z.div_pos (b1 - 11 - 256) 256). pose proof (Z.div_pos (b2 - 11 - 256) 256). lia.
Qed.

Definition fpos (o : Z) : pos := tpos (o / BSZ).

(** Byte [o] of the file. *)
Definition fbyte (v : dview) (addrs : list Z) (o : Z) : Z :=
  byte_at (dv_mem v (slot (dv_mem v) addrs (fpos o))) (Z.to_nat (o mod BSZ)).

Definition MAXBYTES : Z := MAXFILE * BSZ.

Lemma div_range o : 0 ≤ o < MAXBYTES → 0 ≤ o / BSZ < MAXFILE.
Proof.
  intros H. unfold MAXBYTES, BSZ in *. pose proof (Z.div_pos o 1024).
  split; [lia|]. apply Z.div_lt_upper_bound; lia.
Qed.

Lemma fpos_ok o : 0 ≤ o < MAXBYTES → pos_ok (fpos o) ∧ leaf (fpos o).
Proof. intros H. by apply tpos_ok, div_range. Qed.

(** ** Writing into the block of a leaf *)

Lemma slot_ext m m' addrs p :
  (∀ q, ¬ leaf q → pos_ok q → slot m addrs q ≠ 0 → m' (slot m addrs q) = m (slot m addrs q)) → pos_ok p →
  slot m' addrs p = slot m addrs p.
Proof.
  intros H. induction p as [p Hup|p q k Hup IH] using pos_down; intros Hp.
  - by destruct p.
  - destruct (up_ok p q k Hp Hup) as (Hq & _ & Hl). rewrite !(slot_up _ _ p q k Hup), IH by done.
    unfold ent. destruct (Z.eqb_spec (slot m addrs q) 0); [done|]. by rewrite H.
Qed.

(** ** What a write leaves *)

(** [w o] is the byte written at offset [o], if any.  Written bytes are there;
    other bytes of mapped blocks, the contents of blocks outside the file and
    the inode blocks are as before. *)
Record wrote (sb : superblock) (ds ib : Z) (w : Z → option Z) (v : dview) (addrs : list Z) (v' : dview) (addrs' : list Z)
    : Prop := Wrote {
  wr_byte : ∀ o x, 0 ≤ o < MAXBYTES → w o = Some x → slot (dv_mem v') addrs' (fpos o) ≠ 0 ∧ fbyte v' addrs' o = x;
  wr_slot : ∀ o, 0 ≤ o < MAXBYTES → slot (dv_mem v) addrs (fpos o) ≠ 0 →
    slot (dv_mem v') addrs' (fpos o) = slot (dv_mem v) addrs (fpos o);
  wr_keep : ∀ o, 0 ≤ o < MAXBYTES → w o = None → slot (dv_mem v) addrs (fpos o) ≠ 0 →
    fbyte v' addrs' o = fbyte v addrs o;
  wr_used : ∀ x, 0 ≤ x < sb_size sb → used sb v x = true → used sb v' x = true;
  wr_other : ∀ x, ds ≤ x < sb_size sb → used sb v x = true →
    (∀ q, pos_ok q → slot (dv_mem v') addrs' q ≠ x) → dv_mem v' x = dv_mem v x;
  wr_sub : ∀ q, pos_ok q → slot (dv_mem v) addrs q ≠ 0 → slot (dv_mem v') addrs' q = slot (dv_mem v) addrs q;
  wr_meta : ∀ x, x < ds → x ≠ ib → (∀ b, 0 ≤ b < sb_size sb → x ≠ BBLOCK b sb) → dv_mem v' x = dv_mem v x;
}.

Arguments wr_byte {sb ds ib w v addrs v' addrs'} _.
Arguments wr_slot {sb ds ib w v addrs v' addrs'} _.
Arguments wr_keep {sb ds ib w v addrs v' addrs'} _.
Arguments wr_used {sb ds ib w v addrs v' addrs'} _.
Arguments wr_other {sb ds ib w v addrs v' addrs'} _.
Arguments wr_sub {sb ds ib w v addrs v' addrs'} _.
Arguments wr_meta {sb ds ib w v addrs v' addrs'} _.

Lemma wrote_none sb ds ib v addrs : wrote sb ds ib (λ _, None) v addrs v addrs.
Proof. by split. Qed.

Definition w_over (w2 w1 : Z → option Z) : Z → option Z := λ o, match w2 o with Some x => Some x | None => w1 o end.

Lemma wrote_trans sb ds ib w1 w2 v1 a1 v2 a2 v3 a3 :
  0 < ds → wrote sb ds ib w1 v1 a1 v2 a2 → wrote sb ds ib w2 v2 a2 v3 a3 → wrote sb ds ib (w_over w2 w1) v1 a1 v3 a3.
Proof.
  intros Hds W1 W2. split.
  - intros o x Ho Hw. unfold w_over in Hw. destruct (w2 o) as [y|] eqn:E2.
    + simplify_eq. by apply (wr_byte W2).
    + destruct (wr_byte W1 o x Ho Hw) as [Hs Hb].
      rewrite (wr_slot W2), (wr_keep W2) by done. done.
  - intros o Ho Hs. rewrite (wr_slot W2 o Ho), (wr_slot W1 o Ho Hs); [done|].
    by rewrite (wr_slot W1 o Ho Hs).
  - intros o Ho Hw Hs. unfold w_over in Hw. destruct (w2 o) eqn:E2; [done|].
    rewrite (wr_keep W2 o Ho E2), (wr_keep W1 o Ho Hw Hs); [done|].
    by rewrite (wr_slot W1 o Ho Hs).
  - intros x Hx Hu. by apply (wr_used W2), (wr_used W1).
  - intros x Hx Hu Hni. rewrite (wr_other W2); [|done|apply (wr_used W1); [lia|done]|done].
    apply (wr_other W1); [done|done|]. intros q Hq E. apply (Hni q Hq).
    rewrite (wr_sub W2); [done|done|lia].
  - intros q Hq H0. rewrite (wr_sub W2), (wr_sub W1); try done.
    by rewrite (wr_sub W1).
  - intros x Hx Hi Hb. rewrite (wr_meta W2) by done. by apply (wr_meta W1).
Qed.

Lemma wrote_ext sb ds ib w w' v1 a1 v2 a2 :
  (∀ o, 0 ≤ o < MAXBYTES → w o = w' o) → wrote sb ds ib w v1 a1 v2 a2 → wrote sb ds ib w' v1 a1 v2 a2.
Proof.
  intros H W. destruct W. split; try done.
  - intros o x Ho Hw. apply wr_byte0; [done|]. by rewrite H.
  - intros o Ho Hw. apply wr_keep0; [done|]. by rewrite H.
Qed.

(** Growing the file at block [bn] writes nothing. *)
Lemma wrote_grow sb ds ib ps v addrs v' addrs' :
  0 < ds → file_ok sb ds v addrs → file_ok sb ds v' addrs' → ext sb ds ps v addrs v' addrs' →
  wrote sb ds ib (λ _, None) v addrs v' addrs'.
Proof.
  intros Hds Hf Hf' E. assert (∀ q, pos_ok q → slot (dv_mem v) addrs q ≠ 0 →
    slot (dv_mem v') addrs' q = slot (dv_mem v) addrs q) as Hsub by (intros; by eapply ext_keeps).
  split; try done.
  - intros o Ho Hs. apply Hsub; [|done]. by apply fpos_ok.
  - intros o Ho _ Hs. destruct (fpos_ok o Ho) as [Hok Hl]. unfold fbyte. rewrite (Hsub _ Hok Hs). f_equal.
    destruct (fo_slot _ _ _ _ Hf _ Hok Hs) as [? ?]. apply (e_mem _ _ _ _ _ _ _ E); [done|done|].
    intros q Hq Hnl Eq. rewrite <- (Hsub _ Hok Hs) in Eq.
    apply Hnl. by rewrite (fo_inj _ _ _ _ Hf' q (fpos o) Hq Hok Eq) by (rewrite Eq, Hsub; done).
  - apply (e_used _ _ _ _ _ _ _ E).
  - intros x Hx Hu Hni. apply (e_mem _ _ _ _ _ _ _ E); [done|done|]. intros q Hq _. by apply Hni.
  - intros x Hx _. by apply (e_meta _ _ _ _ _ _ _ E).
Qed.

Section leaf_write.
Context {lo hi ds : Z} {sbk : superblock} (Hly : layout lo hi ds sbk).
Context (v : dview) (addrs : list Z) (Hf : file_ok sbk ds v addrs).
Context (bn : Z) (Hbn : 0 ≤ bn < MAXFILE) (H0 : slot (dv_mem v) addrs (tpos bn) ≠ 0).
Context (o : nat) (bs : list Z) (Hlen : length (dv_mem v (slot (dv_mem v) addrs (tpos bn))) = BSIZE).
Context (Ho : (o + length bs ≤ BSIZE)%nat).

Local Notation a := (slot (dv_mem v) addrs (tpos bn)).
Definition leaf_written : dview := dv_write a (splice o bs (dv_mem v a)) v.

Lemma leaf_slot q : pos_ok q → slot (dv_mem leaf_written) addrs q = slot (dv_mem v) addrs q.
Proof.
  intros Hq. apply slot_ext; [|done]. intros r Hl Hr Hr0. unfold leaf_written, dv_write. cbn.
  apply fupd_ne. intros E. destruct (tpos_ok bn Hbn) as [Hok Hlf]. apply Hl.
  by rewrite (fo_inj _ _ _ _ Hf r (tpos bn) Hr Hok E Hr0).
Qed.

Lemma leaf_range : ds ≤ a < sb_size sbk ∧ used sbk v a = true.
Proof. apply (fo_slot _ _ _ _ Hf); [|done]. by apply tpos_ok. Qed.

Lemma leaf_used x : 0 ≤ x < sb_size sbk → used sbk leaf_written x = used sbk v x.
Proof. intros Hx. apply (used_data_write Hly); [apply leaf_range|done]. Qed.

Lemma leaf_file : file_ok sbk ds leaf_written addrs.
Proof.
  destruct Hf as [Hl Hs Hi]. split; [done| |].
  - intros p Hp. rewrite leaf_slot by done. intros Hp0. destruct (Hs p Hp Hp0) as [? ?].
    split; [done|]. rewrite leaf_used; [done|]. destruct Hly. lia.
  - intros p q Hp Hq. rewrite !leaf_slot by done. by apply Hi.
Qed.

(** The bytes of [bs] at offset [o] of block [bn]. *)
Definition leaf_bytes : Z → option Z := λ x,
  if decide (bn * BSZ + Z.of_nat o ≤ x < bn * BSZ + Z.of_nat o + Z.of_nat (length bs))
  then Some (byte_at bs (Z.to_nat (x - (bn * BSZ + Z.of_nat o)))) else None.

Lemma leaf_wrote ib : wrote sbk ds ib leaf_bytes v addrs leaf_written addrs.
Proof.
  assert (∀ x, 0 ≤ x < MAXBYTES → fpos x = tpos bn → x / BSZ = bn) as Hinv.
  { intros x Hx E. apply tpos_inj; [by apply div_range|done|done]. }
  assert (∀ x, 0 ≤ x < MAXBYTES → slot (dv_mem v) addrs (fpos x) ≠ 0 →
     dv_mem leaf_written (slot (dv_mem v) addrs (fpos x)) =
     if decide (x / BSZ = bn) then splice o bs (dv_mem v a) else dv_mem v (slot (dv_mem v) addrs (fpos x))) as Hm.
  { intros x Hx Hx0. unfold leaf_written, dv_write. cbn. unfold fupd. destruct (decide (x / BSZ = bn)) as [E|E].
    - rewrite decide_True; [done|]. unfold fpos. by rewrite E.
    - rewrite decide_False; [done|]. intros E'. apply E, Hinv; [done|].
      apply (fo_inj _ _ _ _ Hf); try done; [by apply fpos_ok|by apply tpos_ok]. }
  split; try done.
  - intros x y Hx Hw. destruct (fpos_ok x Hx) as [Hok _]. unfold leaf_bytes in Hw. case_decide as Hr; [|done].
    simplify_eq. assert (x / BSZ = bn) as E.
    { unfold BSZ, BSIZE in *. symmetry. apply (Z.div_unique x 1024 bn (x - bn * 1024)); lia. }
    assert (fpos x = tpos bn) as Ep by (unfold fpos; by rewrite E).
    rewrite leaf_slot, Ep by done. split; [done|]. unfold fbyte. rewrite leaf_slot by done.
    rewrite Hm by (try done; by rewrite Ep). rewrite decide_True by done. rewrite splice_byte by lia.
    assert (x mod BSZ = x - bn * BSZ) as -> by (rewrite Z.mod_eq, E by (unfold BSZ; lia); lia).
    rewrite decide_True by lia. f_equal. lia.
  - intros x Hx Hs. apply leaf_slot. by apply fpos_ok.
  - intros x Hx Hw Hs. destruct (fpos_ok x Hx) as [Hok _]. unfold fbyte. rewrite leaf_slot by done.
    rewrite Hm by done. case_decide as E; [|done]. rewrite splice_byte by lia.
    unfold leaf_bytes in Hw. case_decide as Hr; [done|].
    assert (x mod BSZ = x - bn * BSZ) as Em by (rewrite Z.mod_eq, E by (unfold BSZ; lia); lia).
    pose proof (Z.mod_pos_bound x BSZ ltac:(done)). rewrite decide_False by lia.
    unfold fpos. by rewrite E.
  - intros x Hx Hu. by rewrite leaf_used.
  - intros x Hx Hu Hni. unfold leaf_written, dv_write. cbn. apply fupd_ne. intros ->.
    destruct (tpos_ok bn Hbn) as [Hok _]. apply (Hni _ Hok). by apply leaf_slot.
  - intros q Hq _. by apply leaf_slot.
  - intros x Hx _ _. unfold leaf_written, dv_write. cbn. apply fupd_ne. pose proof leaf_range. lia.
Qed.
End leaf_write.

(** ** Memory on the other side of a copy *)

(** The byte at an address of user or kernel memory. *)
Definition mem_at {D : Type} (user : bool) (s : fstate D) (a : Z) : option Z :=
  if user then um s a else Some (km s a).

Lemma copyin_um_ok m a n (f : Z → Z) :
  (∀ j, 0 ≤ j < Z.of_nat n → m (a + j) = Some (f j)) → copyin_um a n m = (true, (λ j, f (Z.of_nat j)) <$> seq 0 n).
Proof.
  revert a f. induction n as [|n IH]; intros a f H; simpl; [done|].
  pose proof (H 0 ltac:(lia)) as H0. rewrite Z.add_0_r in H0. rewrite H0.
  rewrite (IH (a + 1) (λ j, f (1 + j))).
  - rewrite <- fmap_S_seq, <- list_fmap_compose. f_equal. f_equal. apply list_fmap_ext. intros ? j _. simpl. f_equal. lia.
  - intros j Hj. rewrite <- Z.add_assoc. apply H. lia.
Qed.

Lemma either_copyin_ok {D : Type} `{!LogDisk D} (s : fstate D) user src n (f : Z → Z) :
  (∀ j, 0 ≤ j < Z.of_nat n → mem_at user s (src + j) = Some (f j)) →
  run (either_copyin user src n) s (true, (λ j, f (Z.of_nat j)) <$> seq 0 n) s.
Proof.
  intros H. unfold either_copyin. step_with (run_get s). unfold mem_at in H. destruct user.
  - by rewrite (copyin_um_ok _ _ _ f).
  - unfold mret, ST_ret. do 3 f_equal. unfold km_get. apply list_fmap_ext. intros ? j Hj%lookup_seq.
    specialize (H (Z.of_nat j) ltac:(lia)). by injection H as ->.
Qed.

Section code.
Context {D : Type} `{!LogDisk D} (dev lo hi : Z) `{!LogDiskSpec D dev lo hi} (ds : Z).
Implicit Types (s : fstate D) (v : dview) (i : inode).

(** The bytes [f 0, f 1, ...] written at offset [off]. *)
Definition run_bytes (off n : Z) (f : Z → Z) : Z → option Z := λ o,
  if decide (off ≤ o < off + n) then Some (f (o - off)) else None.

Definition copied (f : Z → Z) (m : nat) : list Z := (λ j, f (Z.of_nat j)) <$> seq 0 m.

Lemma copied_length f m : length (copied f m) = m.
Proof. unfold copied. by rewrite length_fmap, length_seq. Qed.

Lemma copied_byte f m j : (j < m)%nat → byte_at (copied f m) j = f (Z.of_nat j).
Proof. intros Hj. unfold byte_at, copied. by rewrite list_lookup_fmap, lookup_seq_lt by done. Qed.

(** One iteration of [writei]: block [bn] found or allocated, [m] bytes copied
    in and logged. *)
Lemma write_block T k n ib s v ip i user src bn (o m : nat) (f : Z → Z) :
  within dev lo hi ds T k n s v ip i → path (tpos bn) ⊆ T → 0 ≤ bn < MAXFILE →
  (o + m ≤ BSIZE)%nat → (∀ j, 0 ≤ j < Z.of_nat m → mem_at user s (src + j) = Some (f j)) →
  ∃ a bp d1 d2 d3 v' addrs' d',
    run (bmap ip bn) s a (with_addrs s ip i addrs' d1) ∧
    run (bread dev a) (with_addrs s ip i addrs' d1) bp (with_addrs s ip i addrs' d2) ∧
    run (either_copyin user src m) (with_addrs s ip i addrs' d2) (true, copied f m) (with_addrs s ip i addrs' d2) ∧
    (∃ x, run (data bp) (with_addrs s ip i addrs' d2) x (with_addrs s ip i addrs' d2) ∧
       run (log_write bp) (with_addrs s ip i addrs' (d_store bp (splice o (copied f m) x) d2)) ()
           (with_addrs s ip i addrs' d3)) ∧
    run (brelse bp) (with_addrs s ip i addrs' d3) () (with_addrs s ip i addrs' d') ∧
    within dev lo hi ds T k n (with_addrs s ip i addrs' d') v' ip (i <| i_addrs := addrs' |>) ∧
    paid (sb s) T v (i_addrs i) v' addrs' ∧
    wrote (sb s) ds ib (run_bytes (bn * BSZ + Z.of_nat o) (Z.of_nat m) f) v (i_addrs i) v' addrs'.
Proof.
  intros Hw HbT Hbn Hom Hsrc. destruct (tpos_ok bn Hbn) as [Hok Hlf].
  destruct (bmap_path dev lo hi ds T k n s v ip i bn Hw Hbn HbT)
    as (a & v1 & addrs1 & d1 & ps & E1 & Hps & Hleaf & Hw1 & Hext & Ea & Ha & Hpaid).
  pose proof Hw1 as (HT & HTok & [[Hly R1 Hm1 Hh1 Hb1'] Hip1 Hdev1 Hf1 Hheld1] & Hn1).
  assert (budget lo hi 1 v1) as Hb1 by (eapply budget_le, Hb1'; lia). change (sb (with_addrs s ip i addrs1 d1)) with (sb s) in *.
  change (i_addrs (i <| i_addrs := addrs1 |>)) with addrs1 in *.
  destruct (fo_slot _ _ _ _ Hf1 (tpos bn) Hok ltac:(congruence)) as [Hra Hua]. rewrite <- Ea in Hra, Hua.
  destruct (data_loggable Hly a Hra) as [Hla Hra'].
  assert (a ∉ dv_held v1) as Hah by (rewrite Hheld1; apply not_elem_of_nil).
  assert (length (dv_mem v1 a) = BSIZE) as Hlen by (by apply (drep_length d1)).
  destruct (block_update (with_addrs s ip i addrs1 d1) v1 a (splice o (copied f m)))
    as (bp & d2 & d3 & d4 & B1 & B2 & B3 & B4 & R4 & _); [done|done|done|eauto with budget|done|eauto with budget| |].
  { rewrite splice_length; [done|]. rewrite copied_length. lia. }
  assert (dv_write a (splice o (copied f m) (dv_mem v1 a)) v1 = leaf_written v1 addrs1 bn o (copied f m)) as Ev
    by (unfold leaf_written; by rewrite <- Ea).
  exists a, bp, d1, d2, d3, (leaf_written v1 addrs1 bn o (copied f m)), addrs1, d4. rewrite Ev in R4.
  destruct (write_need (sb s) T v1 addrs1 (leaf_written v1 addrs1 bn o (copied f m)) (tpos bn)) as [Hneed Hopen];
    [done|apply HbT; by destruct (tpos bn); left|congruence|done| |].
  { intros q Hq. eapply leaf_slot; first [exact Hf1|done|congruence|by apply (proj1 (Forall_forall _ _) HTok)]. }
  split; [done|]. split; [done|]. split; [by apply either_copyin_ok|]. split; [by exists (dv_mem v1 a)|]. split; [done|].
  split; [split; [done|split; [done|split]]|split].
  - split; [split| | | |]; try done.
    + intros x Hx. cbn [sb with_addrs]. rewrite (leaf_used Hly) by (done || congruence || (destruct Hly; lia)). by apply Hm1.
    + unfold held_ok. cbn [leaf_written dv_write dv_held]. by rewrite Hheld1.
    + eapply budget_spent, Hb1'; [done|]. cbn [sb with_addrs i_addrs update field_set]. lia.
    + cbn [sb with_addrs i_addrs update field_set].
      apply (leaf_file Hly); first [done|congruence|by rewrite <- Ea|rewrite copied_length; lia].
  - cbn [sb with_addrs i_addrs update field_set]. rewrite Hopen. destruct Hn1 as (l & ? & ? & Hl). exists l. split_and!; try done.
    eapply Forall_impl; [exact Hl|]. intros x [? ?]. split; [done|]. by rewrite (leaf_used Hly) by (done || congruence).
  - unfold paid in *. lia.
  - assert (wrote (sb s) ds ib (λ _, None) v (i_addrs i) v1 addrs1) as W1.
    { eapply wrote_grow; [destruct Hly; lia|destruct Hw as (_ & _ & Hi & _); apply (fi_file _ _ _ _ _ _ _ _ _ Hi)|done|done]. }
    assert (wrote (sb s) ds ib (leaf_bytes bn o (copied f m)) v1 addrs1 (leaf_written v1 addrs1 bn o (copied f m)) addrs1) as W2.
    { apply (leaf_wrote Hly); first [done|congruence|by rewrite <- Ea|by rewrite copied_length]. }
    eapply wrote_ext; [|eapply wrote_trans; [destruct Hly; lia|exact W1|exact W2]].
    intros x Hx. unfold w_over, leaf_bytes, run_bytes. rewrite copied_length. case_decide as Hr; [|done].
    f_equal. rewrite copied_byte by lia. f_equal. lia.
Qed.

Lemma mod_step off m :
  0 ≤ off → m = BSZ - off mod BSZ → (off + m) mod BSZ = 0.
Proof.
  intros Ho ->. unfold BSZ. replace (off + (1024 - off mod 1024)) with ((off / 1024 + 1) * 1024).
  - apply Z.mod_mul. lia.
  - pose proof (Z.div_mod off 1024). lia.
Qed.

Lemma off_split off : off / BSZ * BSZ + off mod BSZ = off.
Proof. unfold BSZ. pose proof (Z.div_mod off 1024). lia. Qed.

(** The positions of the blocks of the bytes [off], ..., [off + cnt - 1] are in [T]. *)
Definition covers (T : list pos) (off cnt : Z) : Prop :=
  ∀ bn, off / BSZ ≤ bn → bn * BSZ < off + cnt → path (tpos bn) ⊆ T.

Lemma writei_loop_run T fuel k n ib s v ip i user src off tot cnt (f : Z → Z) :
  within dev lo hi ds T k n s v ip i → covers T off (cnt - tot) →
  0 ≤ off → tot ≤ cnt → off + (cnt - tot) ≤ MAXBYTES →
  (tot < cnt → off mod BSZ + (cnt - tot) ≤ Z.of_nat fuel * BSZ) →
  (∀ j, 0 ≤ j < cnt - tot → mem_at user s (src + j) = Some (f j)) →
  ∃ v' addrs' d', run (writei_loop fuel ip user src off tot cnt) s (off + (cnt - tot)) (with_addrs s ip i addrs' d') ∧
    within dev lo hi ds T k n (with_addrs s ip i addrs' d') v' ip (i <| i_addrs := addrs' |>) ∧
    paid (sb s) T v (i_addrs i) v' addrs' ∧ wrote (sb s) ds ib (run_bytes off (cnt - tot) f) v (i_addrs i) v' addrs'.
Proof.
  revert s v i src off tot f. induction fuel as [|fuel IH]; intros s v i src off tot f Hw Hcov Hoff Htot Hmax Hfuel Hsrc.
  all: pose proof Hw as (_ & _ & Hi & _).
  all: destruct (decide (tot = cnt)) as [->|Hlt]; [|cbn [writei_loop]].
  1,3: exists v, (i_addrs i), (disk s); rewrite with_addrs_same by apply (fi_ip _ _ _ _ _ _ _ _ _ Hi);
       rewrite with_disk_id; split_and!;
       [cbn [writei_loop]; rewrite ?Z.ltb_irrefl; unfold mret, ST_ret; do 2 f_equal; lia
       |by replace (i <| i_addrs := i_addrs i |>) with i by (by destruct i)
       |by unfold paid
       |eapply wrote_ext, wrote_none; intros x _; unfold run_bytes; rewrite decide_False; [done|lia]].
  { specialize (Hfuel ltac:(lia)). pose proof (Z.mod_pos_bound off BSZ ltac:(done)). lia. }
  rewrite (proj2 (Z.ltb_lt tot cnt)) by lia. specialize (Hfuel ltac:(lia)).
  pose proof (Z.mod_pos_bound off BSZ ltac:(done)) as Hmod. pose proof (off_split off) as Hsp.
  pose proof (fi_dev _ _ _ _ _ _ _ _ _ Hi) as Hdev. pose proof (fi_ip _ _ _ _ _ _ _ _ _ Hi) as Hip.
  set (m := Z.min (cnt - tot) (BSZ - off mod BSZ)).
  assert (0 < m ≤ cnt - tot) as Hm by (unfold m; lia). unfold BSZ in Hmod.
  destruct (write_block T k n ib s v ip i user src (off / BSZ) (Z.to_nat (off mod BSZ)) (Z.to_nat m) f)
    as (a & bp & d1 & d2 & d3 & v1 & addrs1 & d4 & E1 & E2 & E3 & (x & E4 & E5) & E6 & Hw1 & Hpaid1 & W1); [done|apply Hcov; [done|unfold BSZ in *; lia]|apply div_range; lia|..].
  { unfold m, BSZ, BSIZE. lia. }
  { intros j Hj. apply Hsrc. lia. }
  destruct (IH (with_addrs s ip i addrs1 d4) v1 (i <| i_addrs := addrs1 |>) (src + m) (off + m) (tot + m) (λ j, f (m + j)))
    as (v2 & addrs2 & d5 & E7 & Hw2 & Hpaid2 & W2); try done; [|lia..| | |].
  { intros bn Hlo Hhi. apply Hcov; [|lia]. etrans; [|exact Hlo]. apply Z.div_le_mono; [done|lia]. }
  { intros Hlt'. rewrite mod_step by (unfold m in *; lia). unfold m in *. lia. }
  { intros j Hj. rewrite <- Z.add_assoc. apply Hsrc. lia. }
  rewrite with_addrs_twice in E7, Hw2.
  change (i <| i_addrs := addrs1 |> <| i_addrs := addrs2 |>) with (i <| i_addrs := addrs2 |>) in Hw2.
  exists v2, addrs2, d5. split_and!; try done.
  - step_with (run_the_inode s ip i Hip). step_with E1. rewrite Hdev. step_with E2. cbv zeta.
    step_with E3. step_with E4. cbn [fst snd].
    step_with (run_store bp (splice (Z.to_nat (off mod BSZ)) (copied f (Z.to_nat m)) x) (with_addrs s ip i addrs1 d2)).
    step_with E5. step_with E6. fold m. rewrite E7. do 2 f_equal. lia.
  - unfold paid in *. cbn [sb with_addrs i_addrs update field_set] in Hpaid2. lia.
  - eapply wrote_ext; [|eapply wrote_trans; [|exact W1|exact W2]].
    + intros z Hz. unfold w_over, run_bytes. rewrite !Z2Nat.id by (unfold BSZ; lia). rewrite Hsp.
      repeat case_decide; try lia; try done; f_equal; f_equal; lia.
    + destruct Hi as [[Hly _ _ _ _] _ _ _ _]. destruct Hly. lia.
Qed.

(** *** The inode's own block *)

Definition inum_ok s i : Prop := 0 ≤ i_inum i < sb_ninodes (sb s).

Lemma iblock_ok k s v ip i :
  file_inv dev lo hi ds k s v ip i → inum_ok s i →
  let b := IBLOCK (i_inum i) (sb s) in
  loggable lo hi b ∧ 0 ≤ b < 2 ^ 31 ∧ b < ds ∧ ∀ x, 0 ≤ x < sb_size (sb s) → b ≠ BBLOCK x (sb s).
Proof.
  intros [[Hly _ _ _ _] _ _ _ _] Hn b. unfold inum_ok in Hn.
  pose proof Hly as [? ? (? & ? & ? & ?) ? ?].
  pose proof (Z.div_pos (i_inum i) IPB). pose proof (Z.div_le_mono (i_inum i) (sb_ninodes (sb s)) IPB).
  pose proof (Z.div_pos (sb_size (sb s)) BPB). unfold IPB, BPB in *.
  assert (b = i_inum i / 16 + sb_inodestart (sb s)) as Eb by (unfold b, IBLOCK, IPB; apply u32_small; lia).
  split; [split; lia|]. split; [lia|]. split; [lia|]. intros x Hx.
  destruct (bblock_eq _ _ _ _ x Hly Hx) as (_ & ? & _). lia.
Qed.

Lemma length_put_addrs o l d : length (put_addrs o l d) = length d.
Proof. revert o d. induction l as [|a l IH]; intros o d; simpl; [done|]. by rewrite IH, length_st. Qed.

Lemma length_store_inode i d : length (store_inode i d) = length d.
Proof. unfold store_inode. by rewrite length_put_addrs, !length_st. Qed.

(** [iupdate] stores the inode into its block, which is no block of a file. *)
Lemma iupdate_run k s v ip i :
  file_inv dev lo hi ds (1 + k) s v ip i → inum_ok s i →
  let b := IBLOCK (i_inum i) (sb s) in
  let v' := dv_write b (store_inode i (dv_mem v b)) v in
  ∃ d', run (iupdate ip) s () (with_disk s d') ∧ file_inv dev lo hi ds k (with_disk s d') v' ip i ∧
    (∀ x, x ≠ b → dv_mem v' x = dv_mem v x) ∧
    (∀ p, pos_ok p → slot (dv_mem v') (i_addrs i) p = slot (dv_mem v) (i_addrs i) p) ∧
    (∀ x, 0 ≤ x < sb_size (sb s) → used (sb s) v' x = used (sb s) v x).
Proof.
  intros Hi Hinum b v'. destruct (iblock_ok _ _ _ _ _ Hi Hinum) as (Hl & Hr & Hlow & Hnb). fold b in Hl, Hr, Hlow, Hnb.
  pose proof Hi as [[Hly R Hm Hh Hbud] Hip Hdev Hf Hheld].
  destruct (block_update s v b (store_inode i)) as (bp & d1 & d2 & d3 & E1 & E2 & E3 & E4 & R4 & _);
    [done|done|rewrite Hheld; apply not_elem_of_nil|eauto with budget|done|eauto with budget| |].
  { rewrite length_store_inode. by apply (drep_length (disk s)). }
  assert (∀ x, x ≠ b → dv_mem v' x = dv_mem v x) as Hmem by (intros x Hx; by apply fupd_ne).
  assert (∀ x, 0 ≤ x < sb_size (sb s) → used (sb s) v' x = used (sb s) v x) as Hused.
  { intros x Hx. unfold used. rewrite Hmem; [done|]. intros E. by apply (Hnb x Hx). }
  assert (∀ p, pos_ok p → slot (dv_mem v') (i_addrs i) p = slot (dv_mem v) (i_addrs i) p) as Hslot.
  { intros p Hp. apply slot_ext; [|done]. intros q _ Hq Hq0. apply Hmem.
    destruct (fo_slot _ _ _ _ Hf q Hq Hq0). lia. }
  exists d3. split_and!; try done.
  - unfold iupdate. step_with (run_the_inode s ip i Hip). step_with (run_get s). rewrite Hdev. fold b.
    step_with E1. step_with E2. step_with (run_store bp (store_inode i (dv_mem v b)) (with_disk s d1)).
    step_with E3. exact E4.
  - split; [split| | | |]; try done.
    + intros x Hx. cbn [sb with_disk update field_set]. rewrite Hused by (destruct Hly; lia). by apply Hm.
    + unfold held_ok, v', dv_write. cbn [dv_held]. by rewrite Hheld.
    + by apply budget_write.
    + destruct Hf as [Hlen Hs Hinj]. split; [done| |].
      * intros p Hp. cbn [sb with_disk update field_set]. rewrite Hslot by done. intros Hp0. destruct (Hs p Hp Hp0).
        split; [done|]. rewrite Hused by (destruct Hly; lia). done.
      * intros p q Hp Hq. rewrite !Hslot by done. by apply Hinj.
Qed.

(** *** writei *)

(** The fuel of the copying loop. *)
Definition wfuel (cnt : Z) : nat := Z.to_nat (cnt / BSZ + 2).

Lemma wfuel_enough off cnt : 0 ≤ cnt → off mod BSZ + cnt ≤ Z.of_nat (wfuel cnt) * BSZ.
Proof.
  intros Hc. unfold wfuel, BSZ. pose proof (Z.mod_pos_bound off 1024). pose proof (Z.div_mod cnt 1024).
  pose proof (Z.mod_pos_bound cnt 1024). pose proof (Z.div_pos cnt 1024). lia.
Qed.

Lemma file_inv_size k s v ip i sz :
  file_inv dev lo hi ds k s v ip i →
  file_inv dev lo hi ds k (s <| icache := <[ip := i <| i_size := sz |>]> (icache s) |>) v ip (i <| i_size := sz |>).
Proof.
  intros [[] Hip ? ? ?]. split; [split|..]; cbn [sb icache disk i_dev i_addrs update field_set]; try done.
  apply list_lookup_insert_eq. by eapply lookup_lt_Some.
Qed.

Lemma iupdate_wrote k s v ip i :
  file_inv dev lo hi ds k s v ip i → inum_ok s i →
  let b := IBLOCK (i_inum i) (sb s) in
  wrote (sb s) ds b (λ _, None) v (i_addrs i) (dv_write b (store_inode i (dv_mem v b)) v) (i_addrs i).
Proof.
  intros Hi Hinum b. destruct (iblock_ok _ _ _ _ _ Hi Hinum) as (_ & _ & Hlow & Hnb). fold b in Hlow, Hnb.
  pose proof Hi as [[Hly _ _ _ _] _ _ Hf _]. set (v' := dv_write b _ v).
  assert (∀ x, x ≠ b → dv_mem v' x = dv_mem v x) as Hmem by (intros x Hx; by apply fupd_ne).
  assert (∀ p, pos_ok p → slot (dv_mem v') (i_addrs i) p = slot (dv_mem v) (i_addrs i) p) as Hslot.
  { intros p Hp. apply slot_ext; [|done]. intros q _ Hq Hq0. apply Hmem.
    destruct (fo_slot _ _ _ _ Hf q Hq Hq0). lia. }
  split; try done.
  - intros o Ho _. apply Hslot, fpos_ok, Ho.
  - intros o Ho _ H0. unfold fbyte. rewrite Hslot by (by apply fpos_ok). rewrite Hmem; [done|].
    destruct (fo_slot _ _ _ _ Hf (fpos o)) as [? _]; [by apply fpos_ok|done|lia].
  - intros x Hx Hu. unfold used. rewrite Hmem; [done|]. intros E. by apply (Hnb x Hx).
  - intros x Hx _ _. apply Hmem. lia.
  - intros q Hq _. by apply Hslot.
  - intros x _ Hx _. by apply Hmem.
Qed.

(** The positions a write goes through, the number of blocks it may log and
    the number of blocks it may allocate. *)
Definition nblk (off cnt : Z) : Z := (off mod BSZ + cnt + (BSZ - 1)) / BSZ.
Definition wpos (off cnt : Z) : list pos := remove_dups (seqZ (off / BSZ) (nblk off cnt) ≫= λ bn, path (tpos bn)).
Definition wcost (sb : superblock) (off cnt : Z) : nat :=
  (length (wpos off cnt) + Nat.min (length (bitmap_blocks sb)) (length (wpos off cnt)) + 1)%nat.

Lemma nblk_range off cnt bn :
  0 ≤ off → 0 ≤ cnt → bn ∈ seqZ (off / BSZ) (nblk off cnt) ↔ off / BSZ ≤ bn ∧ bn * BSZ < off + cnt.
Proof.
  intros Ho Hc. rewrite elem_of_seqZ. unfold nblk, BSZ. Z.to_euclidean_division_equations. lia.
Qed.

Lemma wpos_covers off cnt : 0 ≤ off → 0 ≤ cnt → covers (wpos off cnt) off cnt.
Proof.
  intros Ho Hc bn Hlo Hhi p Hp. apply elem_of_remove_dups, list_elem_of_bind. exists bn. split; [done|]. by apply nblk_range.
Qed.

Lemma wpos_ok off cnt : 0 ≤ off → 0 ≤ cnt → off + cnt ≤ MAXBYTES → Forall pos_ok (wpos off cnt).
Proof.
  intros Ho Hc Hm. apply Forall_forall. intros p (bn & Hp & Hbn)%elem_of_remove_dups%list_elem_of_bind.
  apply nblk_range in Hbn as [Hl Hh]; [|done..]. pose proof (Z.div_pos off BSZ Ho ltac:(done)).
  destruct (path_props (tpos bn)) as (_ & _ & HF); [|by apply (proj1 (Forall_forall _ _) HF)].
  apply tpos_ok. unfold MAXBYTES in Hm. unfold BSZ in *. lia.
Qed.

Lemma length_remove_dups {A} `{!EqDecision A} (l : list A) : (length (remove_dups l) ≤ length l)%nat.
Proof. induction l as [|x l IH]; simpl; [lia|]. case_decide; simpl; lia. Qed.

Lemma wpos_length off cnt : 0 ≤ off → 0 ≤ cnt → (length (wpos off cnt) ≤ 3 * Z.to_nat (nblk off cnt))%nat.
Proof.
  intros Ho Hc. etrans; [apply length_remove_dups|]. rewrite <- (length_seqZ (off / BSZ) (nblk off cnt)).
  induction (seqZ (off / BSZ) (nblk off cnt)) as [|bn l IH]; [done|]. cbn [mbind list_bind length]. rewrite length_app.
  assert (length (path (tpos bn)) ≤ 3)%nat by (destruct (tpos bn); simpl; lia).
  change (list_bind _ _ (λ bn0, path (tpos bn0)) l) with (l ≫= λ bn0, path (tpos bn0)). lia.
Qed.

Lemma writei_within k n s v ip i user src off cnt (f : Z → Z) :
  file_inv dev lo hi ds (wcost (sb s) off cnt + (1 + k)) s v ip i → has_free (length (wpos off cnt) + n) (sb s) v →
  inum_ok s i →
  0 ≤ off ≤ i_size i → 0 ≤ cnt → off + cnt ≤ MAXBYTES →
  (∀ j, 0 ≤ j < cnt → mem_at user s (src + j) = Some (f j)) →
  ∃ s' v' addrs', let i' := i <| i_addrs := addrs' |> <| i_size := Z.max (i_size i) (off + cnt) |> in
    run (writei ip user src off cnt) s cnt s' ∧
    file_inv dev lo hi ds k s' v' ip i' ∧ has_free n (sb s') v' ∧
    um s' = um s ∧ km s' = km s ∧ (sb s' = sb s ∧ cwd s' = cwd s ∧ mypid s' = mypid s ∧ icache s' = <[ip := i']> (icache s)) ∧
    wrote (sb s) ds (IBLOCK (i_inum i) (sb s)) (run_bytes off cnt f) v (i_addrs i) v' addrs' ∧
    (length (dv_logged v') ≤ length (dv_logged v) + wcost (sb s) off cnt)%nat.
Proof.
  intros Hi0 Hn0 Hinum Hoff Hcnt Hmax Hsrc. pose proof (fi_ip _ _ _ _ _ _ _ _ _ Hi0) as Hip.
  set (ib := IBLOCK (i_inum i) (sb s)). set (T := wpos off cnt) in *.
  destruct (need_le (sb s) T v (i_addrs i)) as [Hneed Hopen].
  assert (need (sb s) T v (i_addrs i) + 1 ≤ wcost (sb s) off cnt)%nat as Hcost by (unfold wcost; fold T; lia).
  assert (within dev lo hi ds T k n s v ip i) as Hw.
  { split; [apply NoDup_remove_dups|]. split; [by apply wpos_ok; lia|].
    split; [eapply file_inv_le, Hi0; lia|eapply has_free_le, Hn0; lia]. }
  destruct (writei_loop_run T (wfuel cnt) k n ib s v ip i user src off 0 cnt f)
    as (v1 & addrs1 & d1 & E1 & Hw1 & Hpaid & W1); try done; try lia.
  { rewrite Z.sub_0_r. apply wpos_covers; lia. }
  { intros _. rewrite Z.sub_0_r. by apply wfuel_enough. }
  { by rewrite Z.sub_0_r. }
  destruct Hw1 as (_ & _ & Hi1' & Hn1'). unfold paid in Hpaid.
  assert (file_inv dev lo hi ds (1 + k) (with_addrs s ip i addrs1 d1) v1 ip (i <| i_addrs := addrs1 |>)) as Hi1
    by (eapply file_inv_le, Hi1'; lia).
  assert (has_free n (sb s) v1) as Hn1 by (eapply has_free_le, Hn1'; lia).
  rewrite Z.sub_0_r in E1, W1. unfold writei. step_with (run_the_inode s ip i Hip).
  rewrite (proj2 (Z.ltb_ge (i_size i) off)) by lia. unfold MAXBYTES, MAXFILE, NDIRECT, NINDIRECT, NDINDIRECT, BSZ in Hmax.
  rewrite !(u32_small (off + cnt)) by lia. rewrite (proj2 (Z.ltb_ge (off + cnt) off)) by lia. cbn [orb].
  rewrite (proj2 (Z.ltb_ge (MAXFILE * BSZ) (off + cnt))) by (unfold MAXFILE, NDIRECT, NINDIRECT, NDINDIRECT, BSZ; lia).
  fold (wfuel cnt). step_with E1. destruct (Z.ltb_spec 0 cnt) as [Hpos|Hz].
  2:{ assert (cnt = 0) as -> by lia. exists (with_addrs s ip i addrs1 d1), v1, addrs1. cbv zeta.
      rewrite Z.max_l by lia. replace (i <| i_addrs := addrs1 |> <| i_size := i_size i |>) with (i <| i_addrs := addrs1 |>)
        by (by destruct i). split_and!; try done; [by eapply file_inv_le, Hi1; lia|lia]. }
  set (s1 := with_addrs s ip i addrs1 d1) in *. set (i1 := i <| i_addrs := addrs1 |>) in *.
  set (s2 := s1 <| icache := <[ip := i1 <| i_size := Z.max (i_size i) (off + cnt) |>]> (icache s1) |>).
  pose proof (file_inv_size _ _ _ _ _ (Z.max (i_size i) (off + cnt)) Hi1) as Hi2. fold s2 in Hi2.
  destruct (iupdate_run k s2 v1 ip _ Hi2) as (d3 & E3 & Hi3 & _ & _ & Hu3); [done|].
  pose proof (iupdate_wrote _ _ _ _ _ Hi2 Hinum) as W3.
  assert (run (upd_inode ip (λ i0, if i_size i0 <? off + cnt then i0 <| i_size := off + cnt |> else i0)) s1 () s2) as E2.
  { unfold upd_inode, modify. do 2 f_equal. unfold s2, s1, with_addrs. cbn. f_equal.
    rewrite (alter_insert _ _ ip i1) by (apply list_lookup_insert_eq; by eapply lookup_lt_Some).
    f_equal. cbn. destruct (Z.ltb_spec (i_size i) (off + cnt)).
    - by rewrite Z.max_r by lia.
    - rewrite Z.max_l by lia. by destruct i. }
  eexists (with_disk s2 d3), _, addrs1. cbv zeta. split_and!.
  - rewrite (bind_Ret _ _ _ _ _ (eq_trans (bind_Ret _ _ _ _ _ E2) E3)). done.
  - exact Hi3.
  - destruct Hn1 as (l & ? & ? & Hl). exists l. split_and!; try done.
    eapply Forall_impl; [exact Hl|]. intros x [? ?]. split; [done|]. cbv beta. by rewrite Hu3.
  - done.
  - done.
  - done.
  - done.
  - done.
  - unfold s2, s1, with_addrs. cbn [icache with_disk update field_set]. apply list_insert_insert_eq.
  - eapply wrote_ext; [|eapply wrote_trans; [|exact W1|exact W3]].
    + intros o Ho. done.
    + destruct Hi0 as [[Hly _ _ _ _] _ _ _ _]. destruct Hly. lia.
  - cbn [dv_write dv_logged]. pose proof (length_add_logged (IBLOCK (i_inum (i1 <| i_size := Z.max (i_size i) (off + cnt) |>)) (sb s2)) (dv_logged v1)).
    lia.
Qed.

(** Nine blocks for each turn of the loop are always enough. *)
Lemma writei_run k n s v ip i user src off cnt (f : Z → Z) :
  file_inv dev lo hi ds (9 * wfuel cnt + (1 + k)) s v ip i → has_free (3 * wfuel cnt + n) (sb s) v → inum_ok s i →
  0 ≤ off ≤ i_size i → 0 ≤ cnt → off + cnt ≤ MAXBYTES →
  (∀ j, 0 ≤ j < cnt → mem_at user s (src + j) = Some (f j)) →
  ∃ s' v' addrs', let i' := i <| i_addrs := addrs' |> <| i_size := Z.max (i_size i) (off + cnt) |> in
    run (writei ip user src off cnt) s cnt s' ∧
    file_inv dev lo hi ds k s' v' ip i' ∧ has_free n (sb s') v' ∧
    um s' = um s ∧ km s' = km s ∧ (sb s' = sb s ∧ cwd s' = cwd s ∧ mypid s' = mypid s ∧ icache s' = <[ip := i']> (icache s)) ∧
    wrote (sb s) ds (IBLOCK (i_inum i) (sb s)) (run_bytes off cnt f) v (i_addrs i) v' addrs'.
Proof.
  intros Hi Hn Hinum Hoff Hcnt Hmax Hsrc.
  assert (length (wpos off cnt) ≤ 3 * wfuel cnt ∧ 2 ≤ wfuel cnt)%nat as [Hl Hw].
  { pose proof (wpos_length off cnt ltac:(lia) Hcnt) as H. pose proof (Z.div_pos cnt BSZ Hcnt ltac:(done)). split; [|unfold wfuel; lia].
    etrans; [exact H|]. apply Nat.mul_le_mono_l. unfold wfuel, nblk, BSZ in *. Z.to_euclidean_division_equations. lia. }
  destruct (writei_within k n s v ip i user src off cnt f) as (s' & v' & addrs' & H); try done.
  - eapply file_inv_le, Hi. unfold wcost. lia.
  - eapply has_free_le, Hn. lia.
  - exists s', v', addrs'. cbv zeta in *. naive_solver.
Qed.

(** What [filewrite] writes at a time goes through at most seven positions: four
    data blocks and three indirect blocks.  The log blocks it takes are within
    [MAXOPBLOCKS] when the bitmap has no more than two blocks. *)
Definition CHUNK : Z := (MAXOPBLOCKS - 1 - 1 - 2) / 2 * BSZ.

Definition above (p : pos) : list pos := tail (path p).

Lemma path_above p : path p = p :: above p.
Proof. by destruct p. Qed.

Lemma above_small b n bn : 0 ≤ b → b ≤ bn < b + n → n ≤ 4 → 
  above (tpos bn) ⊆ (if b + n <=? 267 then [PAddr 11]
    else if 267 <=? b then [PAddr 12; PDbl (Z.to_nat ((b - 267) / 256)); PDbl (Z.to_nat ((b - 267 + 3) / 256))]
    else [PAddr 11; PAddr 12; PDbl 0]).
Proof.
  intros H0 Hb Hn. unfold tpos, NDIRECT, NINDIRECT.
  destruct (Z.ltb_spec bn 11); [simpl; set_solver|].
  destruct (Z.ltb_spec (bn - 11) 256).
  { simpl. destruct (Z.leb_spec (b + n) 267); [set_solver|]. destruct (Z.leb_spec 267 b); [lia|set_solver]. }
  replace (bn - 11 - 256) with (bn - 267) by lia. simpl.
  destruct (Z.leb_spec (b + n) 267); [lia|]. destruct (Z.leb_spec 267 b).
  - assert ((bn - 267) / 256 = (b - 267) / 256 ∨ (bn - 267) / 256 = (b - 267 + 3) / 256) as [-> | ->]; [|set_solver..].
    Z.to_euclidean_division_equations. lia.
  - rewrite Z.div_small by lia. simpl. set_solver.
Qed.

Lemma wpos_chunk off cnt : 0 ≤ off → 0 ≤ cnt ≤ CHUNK → (length (wpos off cnt) ≤ 7)%nat.
Proof.
  intros Ho Hc. assert (nblk off cnt ≤ 4) as H4.
  { unfold nblk, CHUNK, MAXOPBLOCKS, BSZ in *. change ((10 - 1 - 1 - 2) / 2 * 1024) with 3072 in Hc.
    Z.to_euclidean_division_equations. lia. }
  set (b := off / BSZ). set (n := nblk off cnt) in *. pose proof (Z.div_pos off BSZ Ho ltac:(done)) as Hb. fold b in Hb.
  set (I := if b + n <=? 267 then [PAddr 11]
    else if 267 <=? b then [PAddr 12; PDbl (Z.to_nat ((b - 267) / 256)); PDbl (Z.to_nat ((b - 267 + 3) / 256))]
    else [PAddr 11; PAddr 12; PDbl 0]).
  transitivity (length ((tpos <$> seqZ b n) ++ I)).
  - apply submseteq_length, NoDup_submseteq; [apply NoDup_remove_dups|].
    intros p (bn & Hp & Hbn)%elem_of_remove_dups%list_elem_of_bind. rewrite path_above in Hp. apply elem_of_app.
    apply elem_of_cons in Hp as [->|Hp]; [left; by apply list_elem_of_fmap_2|right].
    apply elem_of_seqZ in Hbn. by apply (above_small b n bn).
  - rewrite length_app, length_fmap, length_seqZ. assert (length I ≤ 3)%nat by (unfold I; repeat case_match; simpl; lia). lia.
Qed.

Lemma wcost_chunk sb off cnt : 0 ≤ off → 0 ≤ cnt ≤ CHUNK →
  Z.of_nat (wcost sb off cnt) ≤ 15 ∧ (0 ≤ sb_size sb < 2 * BPB → Z.of_nat (wcost sb off cnt) ≤ MAXOPBLOCKS).
Proof.
  intros Ho Hc. pose proof (wpos_chunk off cnt Ho Hc). unfold wcost. split; [lia|]. intros Hs.
  assert (length (bitmap_blocks sb) ≤ 2)%nat; [|unfold MAXOPBLOCKS; lia].
  unfold bitmap_blocks. rewrite length_seqZ. unfold BPB in *. Z.to_euclidean_division_equations. lia.
Qed.

(** *** readi *)

(** Only memory and the cache under the disk may differ. *)
Definition mem_only s s' : Prop := sb s' = sb s ∧ icache s' = icache s ∧ cwd s' = cwd s ∧ mypid s' = mypid s.

Definition mapped (user : bool) s (a n : Z) : Prop := ∀ j, 0 ≤ j < n → is_Some (mem_at user s (a + j)).

(** [s'] has the bytes [bs] at [dst] and is otherwise like [s] in that memory. *)
Definition filled (user : bool) (dst : Z) (bs : list Z) s s' : Prop :=
  (∀ a, mem_at user s' a = if decide (dst ≤ a < dst + Z.of_nat (length bs)) then Some (byte_at bs (Z.to_nat (a - dst)))
                           else mem_at user s a) ∧
  (∀ a, mem_at (negb user) s' a = mem_at (negb user) s a).

Lemma copyout_um_ok bs a m :
  (∀ j, 0 ≤ j < Z.of_nat (length bs) → is_Some (m (a + j))) →
  ∃ m', copyout_um a bs m = (true, m') ∧
    ∀ x, m' x = if decide (a ≤ x < a + Z.of_nat (length bs)) then Some (byte_at bs (Z.to_nat (x - a))) else m x.
Proof.
  revert a m. induction bs as [|y bs IH]; intros a m H; cbn [copyout_um length].
  - exists m. split; [done|]. intros x. rewrite decide_False; [done|lia].
  - destruct (H 0) as [z Hz]; [simpl; lia|]. rewrite Z.add_0_r in Hz. rewrite Hz.
    destruct (IH (a + 1) (fupd a (Some y) m)) as (m' & E & Hm').
    { intros j Hj. unfold fupd. case_decide; [done|]. rewrite <- Z.add_assoc. apply H. simpl. lia. }
    exists m'. split; [done|]. intros x. rewrite Hm'. unfold fupd.
    destruct (decide (x = a)) as [->|Hne].
    + rewrite decide_False, decide_True by lia. by rewrite Z.sub_diag.
    + repeat case_decide; try lia; try done. f_equal.
      replace (Z.to_nat (x - a)) with (S (Z.to_nat (x - (a + 1)))) by lia. done.
Qed.

Lemma km_put_spec bs a m x :
  km_put a bs m x = if decide (a ≤ x < a + Z.of_nat (length bs)) then byte_at bs (Z.to_nat (x - a)) else m x.
Proof.
  revert a m. induction bs as [|y bs IH]; intros a m; cbn [km_put length].
  - rewrite decide_False; [done|lia].
  - rewrite IH. unfold mset. destruct (decide (x = a)) as [->|Hne].
    + rewrite decide_False, decide_True by lia. by rewrite Z.sub_diag.
    + repeat case_decide; try lia; try done.
      replace (Z.to_nat (x - a)) with (S (Z.to_nat (x - (a + 1)))) by lia. done.
Qed.

Lemma either_copyout_ok s user dst bs :
  mapped user s dst (Z.of_nat (length bs)) →
  ∃ s', run (either_copyout user dst bs) s true s' ∧ mem_only s s' ∧ disk s' = disk s ∧ filled user dst bs s s'.
Proof.
  intros H. unfold either_copyout, mapped, mem_at in *. destruct user.
  - step_with (run_get s). destruct (copyout_um_ok bs dst (um s) H) as (m' & E & Hm'). rewrite E.
    exists (s <| um := m' |>). split; [done|]. split; [done|]. split; [done|]. split; [|done].
    intros a. unfold mem_at. cbn. apply Hm'.
  - exists (s <| km ::= km_put dst bs |>). split; [done|]. split; [done|]. split; [done|]. split; [|done].
    intros a. unfold mem_at. cbn. rewrite km_put_spec. by case_decide.
Qed.

Lemma slice_byte (d : block) (o m j : nat) :
  (j < m)%nat → byte_at (take m (drop o d)) j = byte_at d (o + j).
Proof. intros Hj. unfold byte_at. by rewrite lookup_take_lt, lookup_drop by done. Qed.

(** What [readi] promises for the [n] bytes at [off]. *)
Definition did_read (user : bool) (dst off n : Z) (v : dview) (addrs : list Z) s s' : Prop :=
  mem_only s s' ∧ drep (disk s') v ∧
  (∀ j, 0 ≤ j < n → mem_at user s' (dst + j) = Some (fbyte v addrs (off + j))) ∧
  (∀ a, ¬ (dst ≤ a < dst + n) → mem_at user s' a = mem_at user s a) ∧
  (∀ a, mem_at (negb user) s' a = mem_at (negb user) s a).

Lemma file_inv_mem k s v ip i s' :
  file_inv dev lo hi ds k s v ip i → mem_only s s' → drep (disk s') v → file_inv dev lo hi ds k s' v ip i.
Proof.
  intros [[] ? ? ? ?] (E1 & E2 & _ & _) R. split; [split|..]; rewrite ?E1, ?E2; done.
Qed.

Lemma readi_loop_run fuel k s v ip i user dst off tot cnt :
  file_inv dev lo hi ds k s v ip i → 0 ≤ off → tot ≤ cnt → off + (cnt - tot) ≤ MAXBYTES →
  (tot < cnt → off mod BSZ + (cnt - tot) ≤ Z.of_nat fuel * BSZ) →
  (∀ o, off ≤ o < off + (cnt - tot) → slot (dv_mem v) (i_addrs i) (fpos o) ≠ 0) →
  mapped user s dst (cnt - tot) →
  ∃ s', run (readi_loop fuel ip user dst off tot cnt) s cnt s' ∧ did_read user dst off (cnt - tot) v (i_addrs i) s s'.
Proof.
  revert s dst off tot. induction fuel as [|fuel IH]; intros s dst off tot Hi Hoff Htot Hmax Hfuel Hdense Hmap.
  all: destruct (decide (tot = cnt)) as [->|Hlt]; [|cbn [readi_loop]].
  1,3: exists s; split; [cbn [readi_loop]; by rewrite ?Z.ltb_irrefl|];
       split_and!; [by repeat split|apply Hi|intros j Hj; lia|done|done].
  { specialize (Hfuel ltac:(lia)). pose proof (Z.mod_pos_bound off BSZ ltac:(done)). lia. }
  rewrite (proj2 (Z.ltb_lt tot cnt)) by lia. specialize (Hfuel ltac:(lia)).
  pose proof (Z.mod_pos_bound off BSZ ltac:(done)) as Hmod. pose proof (off_split off) as Hsp.
  pose proof Hi as [[Hly R Hm Hh Hbud] Hip Hdev Hf Hheld].
  set (m := Z.min (cnt - tot) (BSZ - off mod BSZ)).
  assert (0 < m ≤ cnt - tot) as Hm0 by (unfold m; lia).
  destruct (fpos_ok off ltac:(lia)) as [Hok _]. pose proof (Hdense off ltac:(lia)) as H0.
  destruct (bmap_hit dev lo hi ds k s v ip i (off / BSZ) Hi ltac:(apply div_range; lia) H0) as (d1 & E1 & R1).
  fold (fpos off) in E1. set (a := slot (dv_mem v) (i_addrs i) (fpos off)) in *.
  destruct (fo_slot _ _ _ _ Hf (fpos off) Hok H0) as [Hra _]. fold a in Hra.
  destruct (data_loggable Hly a Hra) as [_ Hra'].
  assert (a ∉ dv_held v) as Hah by (rewrite Hheld; apply not_elem_of_nil).
  destruct (bracket d1 v a) as (bp & d2 & E2 & Ed & R2 & H2 & K2); [done|lia|done|eauto with budget|].
  set (bs := take (Z.to_nat m) (drop (Z.to_nat (off mod BSZ)) (dv_mem v a))).
  assert (length (dv_mem v a) = BSIZE) as Hlen by (by apply (drep_length d1)).
  assert (length bs = Z.to_nat m) as Hbs.
  { unfold bs. rewrite length_take, length_drop, Hlen. unfold BSIZE, m, BSZ in *. lia. }
  destruct (either_copyout_ok (with_disk s d2) user dst bs) as (s2 & E3 & M2 & D2 & F2).
  { rewrite Hbs. intros j Hj. apply Hmap. lia. }
  change (disk (with_disk s d2)) with d2 in D2.
  destruct (bracket_end d2 v bp a d1) as (d3 & E4 & R3 & _); [done|done|done| | |done|].
  { by apply (not_dirty dev lo hi d1). }
  { intros h b _. apply K2. }
  rewrite <- D2 in E4.
  assert (file_inv dev lo hi ds k (with_disk s2 d3) v ip i) as Hi3.
  { eapply file_inv_mem; [exact Hi| |done]. exact M2. }
  assert (∀ a', mem_at user (with_disk s2 d3) a' = mem_at user s2 a') as Hd3 by (by destruct user).
  assert (∀ a', mem_at user (with_disk s d2) a' = mem_at user s a') as Hd2 by (by destruct user).
  destruct F2 as [F2 G2]. rewrite Hbs, Z2Nat.id in F2 by lia.
  destruct (IH (with_disk s2 d3) (dst + m) (off + m) (tot + m)) as (s4 & E5 & M4 & R4 & P4 & Q4 & G4); try done; [lia..| | | |].
  { intros Hlt'. rewrite mod_step by (unfold m in *; lia). unfold m in *. lia. }
  { intros o Ho. apply Hdense. lia. }
  { intros j Hj. rewrite Hd3, F2. case_decide; [done|]. rewrite Hd2, <- Z.add_assoc. apply Hmap. lia. }
  exists s4. split.
  - step_with (run_the_inode s ip i Hip). step_with E1. rewrite Hdev.
    step_with (run_on_disk (d_bread dev a) (with_disk s d1) _ _ E2). cbv zeta.
    step_with (run_data bp (with_disk s d2) _ Ed). fold m bs. step_with E3.
    step_with (run_on_disk (d_brelse bp) s2 _ _ E4). exact E5.
  - destruct M4 as (A1 & A2 & A3 & A4), M2 as (B1 & B2 & B3 & B4). split_and!; try done.
    + split_and!; [by rewrite A1|by rewrite A2|by rewrite A3|by rewrite A4].
    + intros j Hj. destruct (decide (j < m)).
      * rewrite Q4, Hd3, F2 by lia. rewrite decide_True by lia. f_equal.
        replace (Z.to_nat (dst + j - dst)) with (Z.to_nat j) by lia. unfold bs. rewrite slice_byte by lia.
        assert ((off + j) / BSZ = off / BSZ ∧ (off + j) mod BSZ = off mod BSZ + j) as [Eq Em].
        { unfold m, BSZ in *. split; [symmetry; apply (Z.div_unique _ 1024 _ (off mod 1024 + j)); lia|].
          symmetry. apply (Z.mod_unique _ 1024 (off / 1024)); lia. }
        unfold fbyte, fpos. rewrite Eq, Em. fold (fpos off). fold a. f_equal. unfold BSZ in *. lia.
      * replace (dst + j) with (dst + m + (j - m)) by lia. rewrite P4 by lia. do 2 f_equal. lia.
    + intros a' Ha'. rewrite Q4, Hd3, F2 by lia. rewrite decide_False by lia. apply Hd2.
    + intros a'. rewrite G4. by destruct user; apply G2.
Qed.

Lemma readi_run k s v ip i user dst off cnt :
  file_inv dev lo hi ds k s v ip i → 0 ≤ off ≤ i_size i → 0 ≤ cnt < 2 ^ 31 → i_size i ≤ MAXBYTES →
  let n := Z.min cnt (i_size i - off) in
  (∀ o, off ≤ o < off + n → slot (dv_mem v) (i_addrs i) (fpos o) ≠ 0) → mapped user s dst n →
  ∃ s', run (readi ip user dst off cnt) s n s' ∧ did_read user dst off n v (i_addrs i) s s'.
Proof.
  intros Hi Hoff Hcnt Hsz n Hdense Hmap. pose proof (fi_ip _ _ _ _ _ _ _ _ _ Hi) as Hip.
  assert (MAXBYTES < 2 ^ 31) as HMB by done.
  unfold readi. step_with (run_the_inode s ip i Hip).
  rewrite (proj2 (Z.ltb_ge (i_size i) off)) by lia. rewrite !(u32_small (off + cnt)) by lia.
  rewrite (proj2 (Z.ltb_ge (off + cnt) off)) by lia. cbn [orb].
  assert ((if i_size i <? off + cnt then i_size i - off else cnt) = n) as ->.
  { unfold n. destruct (Z.ltb_spec (i_size i) (off + cnt)); lia. }
  pose proof (readi_loop_run (wfuel n) k s v ip i user dst off 0 n) as H. rewrite Z.sub_0_r in H.
  apply H; try done; try lia. intros _. apply wfuel_enough. lia.
Qed.
End code.

(** ** Theorems *)

(** C9. [writei] of bytes the caller can read, in a transaction with room for
    the [wcost] blocks the write may log, one more, and [k] others, stores exactly
    them: it returns the count, the file grows to the end of the write, byte [off
    + j] of the file is byte [j] of the source, every other byte of the file is
    unchanged, and so are the contents of allocated blocks of other files and the
    invariants of the block map; no more than [wcost] blocks are logged.  A write
    that starts past the end, would exceed the maximal size or wraps around
    returns -1 and changes nothing, whatever room there is.  The 3072 bytes that
    [filewrite] passes at a time log at most 15 blocks, and at most [MAXOPBLOCKS]
    when the disk's bitmap has one or two blocks. *)
Theorem writei_correct {D : Type} `{!LogDisk D} (dev lo hi : Z) `{!LogDiskSpec D dev lo hi} ds k n
    (s : fstate D) v ip i user src off cnt (f : Z → Z) :
  icache s !! ip = Some i → 0 ≤ off < 2 ^ 32 → 0 ≤ cnt < 2 ^ 32 →
  (i_size i < off ∨ MAXBYTES < off + cnt → run (writei ip user src off cnt) s (-1) s) ∧
  (off ≤ i_size i → off + cnt ≤ MAXBYTES →
   file_inv dev lo hi ds (wcost (sb s) off cnt + (1 + k)) s v ip i → has_free (length (wpos off cnt) + n) (sb s) v →
   inum_ok s i → (∀ j, 0 ≤ j < cnt → mem_at user s (src + j) = Some (f j)) → ∃ s' v' i',
     run (writei ip user src off cnt) s cnt s' ∧ file_inv dev lo hi ds k s' v' ip i' ∧ has_free n (sb s') v' ∧
     i_size i' = Z.max (i_size i) (off + cnt) ∧
     (∀ j, 0 ≤ j < cnt → fbyte v' (i_addrs i') (off + j) = f j) ∧
     (∀ o, 0 ≤ o < i_size i → i_size i ≤ MAXBYTES → ¬ (off ≤ o < off + cnt) →
        slot (dv_mem v) (i_addrs i) (fpos o) ≠ 0 → fbyte v' (i_addrs i') o = fbyte v (i_addrs i) o) ∧
     (∀ x, ds ≤ x < sb_size (sb s) → used (sb s) v x = true →
        (∀ q, pos_ok q → slot (dv_mem v') (i_addrs i') q ≠ x) → dv_mem v' x = dv_mem v x) ∧
     (length (dv_logged v') ≤ length (dv_logged v) + wcost (sb s) off cnt)%nat) ∧
  (cnt ≤ CHUNK → Z.of_nat (wcost (sb s) off cnt) ≤ 15 ∧
     (0 ≤ sb_size (sb s) < 2 * BPB → Z.of_nat (wcost (sb s) off cnt) ≤ MAXOPBLOCKS)).
Proof.
  intros Hip Hoff Hcnt. split_and!.
  - intros Hbad. unfold writei. step_with (run_the_inode s ip i Hip).
    destruct (Z.ltb_spec (i_size i) off); [done|]. destruct (Z.ltb_spec (u32 (off + cnt)) off) as [|Hw]; [done|]. cbn [orb].
    assert (off + cnt < 2 ^ 32) as Hs by (unfold u32 in Hw; Z.to_euclidean_division_equations; lia).
    rewrite u32_small in * by lia.
    rewrite (proj2 (Z.ltb_lt (MAXFILE * BSZ) (off + cnt))); [done|]. unfold MAXBYTES in Hbad. lia.
  - intros Hsz Hmax Hi Hn Hinum Hsrc.
    destruct (writei_within dev lo hi ds k n s v ip i user src off cnt f) as (s' & v' & addrs' & H); [done..|lia|lia|done|done|].
    cbv zeta in H. destruct H as (E & Hi' & Hn' & _ & _ & _ & W & Hlog).
    eexists s', v', _. split; [done|]. split; [exact Hi'|]. split; [done|]. cbn [i_size i_addrs update field_set].
    split_and!; [done| | |apply (wr_other W)|done].
    + intros j Hj. apply (wr_byte W (off + j)); [lia|]. unfold run_bytes. rewrite decide_True by lia. do 2 f_equal. lia.
    + intros o Ho HM Hout H0. apply (wr_keep W); [lia| |done]. unfold run_bytes. by rewrite decide_False.
  - intros Hc. apply wcost_chunk; lia.
Qed.

(** C4. What [writei] wrote is what [readi] reads: a read of the same range
    after a successful write returns the same count and puts the source bytes
    at the destination, in any combination of user and kernel memory.  The
    transaction has room for the [wcost] blocks of the write and one more, which
    is at most 16 for the 3072 bytes [filewrite] passes at a time. *)
Theorem writei_readi_roundtrip {D : Type} `{!LogDisk D} (dev lo hi : Z) `{!LogDiskSpec D dev lo hi} ds k n
    (s : fstate D) v ip i user src off cnt (f : Z → Z) user' dst :
  file_inv dev lo hi ds (wcost (sb s) off cnt + (1 + k)) s v ip i → has_free (length (wpos off cnt) + n) (sb s) v →
  inum_ok s i → 0 ≤ off ≤ i_size i → 0 ≤ cnt → off + cnt ≤ MAXBYTES → i_size i ≤ MAXBYTES →
  (∀ j, 0 ≤ j < cnt → mem_at user s (src + j) = Some (f j)) → mapped user' s dst cnt →
  (cnt ≤ CHUNK → (wcost (sb s) off cnt + 1 ≤ 16)%nat) ∧
  ∃ s1 s2, run (writei ip user src off cnt) s cnt s1 ∧ run (readi ip user' dst off cnt) s1 cnt s2 ∧
    ∀ j, 0 ≤ j < cnt → mem_at user' s2 (dst + j) = mem_at user s (src + j).
Proof.
  intros Hi Hn Hinum Hoff Hcnt Hmax Hsz Hsrc Hdst.
  split; [intros Hc; destruct (wcost_chunk (sb s) off cnt); lia|].
  destruct (writei_within dev lo hi ds k n s v ip i user src off cnt f) as (s1 & v1 & addrs1 & H); [done..|].
  cbv zeta in H. destruct H as (E & Hi1 & _ & Eum & Ekm & _ & W & _). set (i1 := i <| i_addrs := addrs1 |> <| i_size := _ |>) in *.
  assert (∀ j, 0 ≤ j < cnt → run_bytes off cnt f (off + j) = Some (f j)) as Hrb.
  { intros j Hj. unfold run_bytes. rewrite decide_True by lia. do 2 f_equal. lia. }
  assert (MAXBYTES < 2 ^ 31) as HMB by done.
  assert (Z.min cnt (i_size i1 - off) = cnt) as Emin by (change (i_size i1) with (Z.max (i_size i) (off + cnt)); lia).
  destruct (readi_run dev lo hi ds k s1 v1 ip i1 user' dst off cnt Hi1) as (s2 & E2 & _ & _ & P & _).
  - change (i_size i1) with (Z.max (i_size i) (off + cnt)). lia.
  - lia.
  - change (i_size i1) with (Z.max (i_size i) (off + cnt)). lia.
  - rewrite Emin. intros o Ho. change (i_addrs i1) with addrs1.
    destruct (wr_byte W o (f (o - off))) as [? _]; [lia| |done]. replace o with (off + (o - off)) at 1 by lia. apply Hrb. lia.
  - rewrite Emin. intros j Hj. unfold mem_at in *. rewrite Eum, Ekm. by apply Hdst.
  - rewrite Emin in E2, P. exists s1, s2. split; [done|]. split; [done|]. intros j Hj.
    rewrite P, Hsrc by done. f_equal. apply (wr_byte W (off + j)); [lia|]. by apply Hrb.
Qed.
