(* ===== verification/FsPath.v ===== *)
(** * fs.c: path elements and the inode cache

    [skipelem] against the list of elements of a path, and the reference
    counts of the inode cache under [iget], [idup] and [iput]. *)

From S2P Require Import Prelude Bytes BufCache Bio Log LogDisk CString Fs FsAlloc FsMap.

(** ** Paths as lists of characters *)

(** The string [l] is at address [a]. *)
Definition str_at (m : mem) (a : Z) (l : list Z) : Prop :=
  (∀ i c, l !! i = Some c → m (a + Z.of_nat i) = c ∧ c ≠ 0) ∧ m (a + Z.of_nat (length l)) = 0.

Fixpoint drop_slashes (l : list Z) : list Z :=
  match l with
  | c :: l' => if c =? SLASH then drop_slashes l' else l
  | [] => []
  end.
Fixpoint take_name (l : list Z) : list Z :=
  match l with
  | c :: l' => if c =? SLASH then [] else c :: take_name l'
  | [] => []
  end.
Fixpoint drop_name (l : list Z) : list Z :=
  match l with
  | c :: l' => if c =? SLASH then l else drop_name l'
  | [] => []
  end.

(** The elements of a path, by one pass that collects the current element. *)
Fixpoint elems (cur l : list Z) : list (list Z) :=
  match l with
  | [] => if decide (cur = []) then [] else [cur]
  | c :: l' =>
      if c =? SLASH then (if decide (cur = []) then elems [] l' else cur :: elems [] l')
      else elems (cur ++ [c]) l'
  end.

Lemma elems_drop l : elems [] (drop_slashes l) = elems [] l.
Proof. induction l as [|c l IH]; simpl; [done|]. destruct (c =? SLASH) eqn:E; [done|]. simpl. by rewrite E. Qed.

Lemma elems_name cur l : cur ≠ [] → elems cur l = (cur ++ take_name l) :: elems [] (drop_name l).
Proof.
  revert cur. induction l as [|c l IH]; intros cur Hc; simpl.
  - rewrite decide_False by done. by rewrite app_nil_r.
  - destruct (c =? SLASH) eqn:E; simpl.
    + rewrite E, decide_False by done. simpl. by rewrite app_nil_r.
    + rewrite IH by (by destruct cur). by rewrite <- app_assoc.
Qed.

(** The first element and the rest, as [skipelem] splits them. *)
Lemma elems_split l :
  elems [] l = match drop_slashes l with
               | [] => []
               | l' => take_name l' :: elems [] (drop_slashes (drop_name l'))
               end.
Proof.
  rewrite <- (elems_drop l). destruct (drop_slashes l) as [|c l'] eqn:E; [done|].
  assert (c =? SLASH = false) as Hc.
  { clear -E. induction l as [|x l IH]; simpl in E; [done|]. destruct (x =? SLASH) eqn:Ex; [by apply IH|congruence]. }
  change (elems [] (c :: l') = take_name (c :: l') :: elems [] (drop_slashes (drop_name (c :: l')))).
  rewrite elems_drop. simpl. rewrite Hc. by rewrite elems_name.
Qed.

Lemma str_at_cons m a c l : str_at m a (c :: l) → m a = c ∧ c ≠ 0 ∧ str_at m (a + 1) l.
Proof.
  intros [H H0]. pose proof (H 0%nat c eq_refl) as [Hc Hn]. rewrite Z.add_0_r in Hc. split_and!; try done. split.
  - intros i x Hi. replace (a + 1 + Z.of_nat i) with (a + Z.of_nat (S i)) by lia. by apply H.
  - by replace (a + 1 + Z.of_nat (length l)) with (a + Z.of_nat (length (c :: l))) by (simpl; lia).
Qed.

Lemma str_at_nil m a : str_at m a [] → m a = 0.
Proof. intros [_ H]. simpl in H. by rewrite Z.add_0_r in H. Qed.

Lemma skip_slashes_spec n m a l :
  str_at m a l → (length l < n)%nat →
  skip_slashes n a m = a + Z.of_nat (length l - length (drop_slashes l)) ∧ str_at m (skip_slashes n a m) (drop_slashes l) ∧
  (length (drop_slashes l) ≤ length l)%nat.
Proof.
  revert a l. induction n as [|n IH]; intros a l Hs Hn; [lia|]. cbn [skip_slashes]. destruct l as [|c l].
  - rewrite (str_at_nil _ _ Hs). cbn. split_and!; [lia|done|done].
  - pose proof (str_at_cons _ _ _ _ Hs) as (Hc & _ & Hs'). rewrite Hc. simpl. destruct (c =? SLASH).
    + destruct (IH (a + 1) l Hs') as (E & H & Hl); [simpl in Hn; lia|]. rewrite E in *. split_and!; [lia|done|lia].
    + simpl. rewrite Nat.sub_diag. split_and!; [lia|done|lia].
Qed.

Lemma skip_name_spec n m a l :
  str_at m a l → (length l < n)%nat →
  skip_name n a m = a + Z.of_nat (length (take_name l)) ∧ str_at m (skip_name n a m) (drop_name l) ∧
  l = take_name l ++ drop_name l.
Proof.
  revert a l. induction n as [|n IH]; intros a l Hs Hn; [lia|]. cbn [skip_name]. destruct l as [|c l].
  - rewrite (str_at_nil _ _ Hs). cbn. split_and!; [lia|done|done].
  - pose proof (str_at_cons _ _ _ _ Hs) as (Hc & Hn0 & Hs'). rewrite Hc. simpl.
    rewrite (proj2 (Z.eqb_neq c 0) Hn0). destruct (c =? SLASH); simpl.
    + split_and!; [lia|done|done].
    + destruct (IH (a + 1) l Hs') as (E & H & Hl); [simpl in Hn; lia|]. rewrite E in *. split_and!; [lia|done|by f_equal].
Qed.

(** The name buffer after [skipelem] copied the element [e] into it. *)
Definition name_is (m m' : mem) (name : Z) (e : list Z) : Prop :=
  (∀ i c, (i < DIRSIZ)%nat → e !! i = Some c → m' (name + Z.of_nat i) = c) ∧
  ((length e < DIRSIZ)%nat → m' (name + Z.of_nat (length e)) = 0) ∧
  (∀ a, ¬ (name ≤ a < name + Z.of_nat DIRSIZ) → m' a = m a).

Lemma str_at_other m m' a l :
  str_at m a l → (∀ x, a ≤ x ≤ a + Z.of_nat (length l) → m' x = m x) → str_at m' a l.
Proof.
  intros [H H0] Hm. split.
  - intros i c Hi. pose proof (lookup_lt_Some _ _ _ Hi). rewrite Hm by lia. by apply H.
  - rewrite Hm by lia. done.
Qed.

(** [skipelem] takes the first element off a path: with the path's string
    [l] at [path] and a name buffer outside it, it returns null exactly when
    [l] has no element; otherwise it leaves the first element in [name], cut
    to [DIRSIZ] characters and NUL-terminated when shorter, returns a pointer
    to the remaining elements with no leading slash, and touches no other
    memory. *)
Theorem skipelem_correct (m : mem) (path name : Z) (l : list Z) :
  str_at m path l → (length l < MAXPATH)%nat →
  (name + Z.of_nat DIRSIZ ≤ path ∨ path + Z.of_nat (length l) < name) →
  match skipelem path name m with
  | (None, m') => elems [] l = [] ∧ m' = m
  | (Some p, m') => ∃ e rest, elems [] l = e :: elems [] rest ∧ name_is m m' name e ∧
      str_at m' p rest ∧ drop_slashes rest = rest ∧ path < p ≤ path + Z.of_nat (length l) ∧
      p + Z.of_nat (length rest) = path + Z.of_nat (length l)
  end.
Proof.
  intros Hs Hl Hdis. unfold skipelem.
  destruct (skip_slashes_spec MAXPATH m path l Hs Hl) as (E1 & Hs1 & Hl1). set (p1 := skip_slashes MAXPATH path m) in *.
  rewrite elems_split. destruct (drop_slashes l) as [|c l1] eqn:Ed.
  { rewrite (str_at_nil _ _ Hs1). done. }
  destruct (str_at_cons _ _ _ _ Hs1) as (Hc & Hc0 & _). rewrite Hc, (proj2 (Z.eqb_neq c 0) Hc0).
  destruct (skip_name_spec MAXPATH m p1 (c :: l1) Hs1 ltac:(lia)) as (E2 & Hs2 & Hsplit).
  set (p2 := skip_name MAXPATH p1 m) in *.
  set (e := take_name (c :: l1)) in *. set (r := drop_name (c :: l1)) in *.
  set (m' := if _ <=? _ then _ else _).
  assert (length (c :: l1) = (length e + length r)%nat) as Hlen by (rewrite Hsplit at 1; apply length_app).
  assert (name_is m m' name e) as Hname.
  { assert (∀ i x, e !! i = Some x → m (p1 + Z.of_nat i) = x) as He.
    { intros i x Hi. apply Hs1. rewrite Hsplit. by apply lookup_app_l_Some. }
    unfold m'. replace (p2 - p1) with (Z.of_nat (length e)) by lia. rewrite Nat2Z.id.
    destruct (Z.leb_spec (Z.of_nat DIRSIZ) (Z.of_nat (length e))) as [Hbig|Hsmall]; split_and!.
    - intros i x Hi Hx. rewrite memmove_spec, decide_True by lia. rewrite <- (He i x Hx). f_equal. lia.
    - lia.
    - intros a Ha. rewrite memmove_spec, decide_False by lia. done.
    - intros i x Hi Hx. pose proof (lookup_lt_Some _ _ _ Hx). rewrite mset_ne by lia.
      rewrite memmove_spec, decide_True by lia. rewrite <- (He i x Hx). f_equal. lia.
    - intros _. by rewrite mset_eq.
    - intros a Ha. rewrite mset_ne by lia. rewrite memmove_spec, decide_False by lia. done. }
  assert (str_at m' p2 r) as Hs2'.
  { apply (str_at_other m); [done|]. intros x Hx. apply Hname. lia. }
  destruct (skip_slashes_spec MAXPATH m' p2 r Hs2' ltac:(lia)) as (E3 & Hs3 & Hl3).
  exists e, (drop_slashes r). split_and!; try done.
  - clear. induction r as [|x r IH]; simpl; [done|]. destruct (x =? SLASH) eqn:E; [done|]. simpl. by rewrite E.
  - assert (0 < length e)%nat; [|lia]. unfold e. simpl.
    assert (c =? SLASH = false) as ->; [|simpl; lia].
    clear -Ed. induction l as [|x l IH]; simpl in Ed; [done|]. destruct (x =? SLASH) eqn:Ex; [by apply IH|congruence].
  - rewrite E3. lia.
  - rewrite E3. lia.
Qed.

(** "//usr/bin" at address 100, the name buffer at 200. *)
Definition path_ex : list Z := [47; 47; 117; 115; 114; 47; 98; 105; 110].
Definition mem_ex : mem := λ a, default 0 (path_ex !! Z.to_nat (a - 100)).

Lemma skipelem_correct_witness :
  ∃ p m', skipelem 100 200 mem_ex = (Some p, m') ∧ ∃ rest, elems [] path_ex = [117; 115; 114] :: elems [] rest ∧ str_at m' p rest.
Proof.
  pose proof (skipelem_correct mem_ex 100 200 path_ex) as H.
  destruct (skipelem 100 200 mem_ex) as [[p|] m'] eqn:E.
  - destruct H as (e & rest & He & _ & Hs & _).
    + split; [|reflexivity]. intros i c Hi. pose proof (lookup_lt_Some _ _ _ Hi).
      unfold mem_ex. replace (Z.to_nat (100 + Z.of_nat i - 100)) with i by lia. rewrite Hi. split; [done|].
      do 9 (destruct i as [|i]; [injection Hi as <-; done|]). done.
    + unfold MAXPATH. simpl. lia.
    + right. simpl. lia.
    + exists p, m'. split; [done|]. exists rest. split; [|exact Hs]. rewrite He. f_equal. by injection He as <- _.
  - exfalso. apply (f_equal fst) in E. vm_compute in E. done.
Defined.

(** ** The inode cache *)

Section icache.
Context {D : Type} `{!LogDisk D}.
Implicit Types (s : fstate D) (i : inode).

Definition live i : Prop := 0 < i_ref i.

(** Reference counts are not negative and no inode has two live entries. *)
Record icache_ok (l : list inode) : Prop := ICacheOk {
  io_ref : Forall (λ i, 0 ≤ i_ref i) l;
  io_unique : ∀ p q i j, l !! p = Some i → l !! q = Some j → live i → live j →
    i_dev i = i_dev j → i_inum i = i_inum j → p = q;
}.

(** Changing one entry keeps the invariant when its identity is new or kept. *)
Lemma icache_ok_insert l p i :
  icache_ok l → 0 ≤ i_ref i →
  (∀ q j, l !! q = Some j → live i → live j → i_dev i = i_dev j → i_inum i = i_inum j → q = p) →
  icache_ok (<[p := i]> l).
Proof.
  intros [Hr Hu] Hi Hnew. split; [by apply Forall_insert|].
  intros q1 q2 i1 i2 H1 H2 L1 L2 E1 E2. destruct (decide (q1 = p)) as [->|N1], (decide (q2 = p)) as [->|N2].
  - done.
  - pose proof (lookup_lt_Some _ _ _ H1) as Hlt. rewrite length_insert in Hlt. rewrite list_lookup_insert_eq in H1 by done.
    rewrite list_lookup_insert_ne in H2 by done. simplify_eq. symmetry. by apply (Hnew q2 i2).
  - pose proof (lookup_lt_Some _ _ _ H2) as Hlt. rewrite length_insert in Hlt. rewrite list_lookup_insert_eq in H2 by done.
    rewrite list_lookup_insert_ne in H1 by done. simplify_eq. by apply (Hnew q1 i1).
  - rewrite list_lookup_insert_ne in H1, H2 by done. by apply (Hu q1 q2 i1 i2).
Qed.

Lemma upd_inode_run s ip i f :
  icache s !! ip = Some i → run (upd_inode ip f) s () (s <| icache := <[ip := f i]> (icache s) |>).
Proof. intros H. unfold upd_inode, modify. do 2 f_equal. by destruct s; cbn; rewrite (alter_insert _ _ _ _ H). Qed.
End icache.

(** [iget] returns the one live cache entry of an inode, adding a
    reference, or takes the first free entry with one reference and nothing
    loaded; all other entries stay as they are, no inode ever has two live
    entries, and it panics exactly when the inode is not cached and no entry
    is free. *)
Theorem iget_correct {D : Type} `{!LogDisk D} (s : fstate D) dev inum :
  icache_ok (icache s) →
  (∃ ip i l, run (iget dev inum) s ip (s <| icache := l |>) ∧ icache_ok l ∧
     l !! ip = Some i ∧ live i ∧ i_dev i = dev ∧ i_inum i = inum ∧
     (∀ q, q ≠ ip → l !! q = icache s !! q) ∧
     ((∃ i0, icache s !! ip = Some i0 ∧ live i0 ∧ i_dev i0 = dev ∧ i_inum i0 = inum ∧ i = i0 <| i_ref := i_ref i0 + 1 |>) ∨
      (i_ref i = 1 ∧ i_valid i = false ∧ (∀ i0, icache s !! ip = Some i0 → i_ref i0 = 0) ∧
         ∀ q j, icache s !! q = Some j → live j → ¬ (i_dev j = dev ∧ i_inum j = inum)))) ∨
  (iget dev inum s = Panic "iget: no inodes" ∧
     ∀ q j, icache s !! q = Some j → live j ∧ ¬ (i_dev j = dev ∧ i_inum j = inum)).
Proof.
  intros Hok. unfold iget. step_with (run_get s).
  destruct (findi _ (icache s)) as [ip|] eqn:E1.
  - apply findi_lookup in E1 as (i0 & Hip & Hm). apply andb_true_iff in Hm as [[Hl Hd]%andb_true_iff Hi].
    apply Z.ltb_lt in Hl. apply Z.eqb_eq in Hd, Hi. left.
    exists ip, (i0 <| i_ref := i_ref i0 + 1 |>), (<[ip := i0 <| i_ref := i_ref i0 + 1 |>]> (icache s)). split_and!.
    + step_with (upd_inode_run s ip i0 (λ i, i <| i_ref ::= λ r, r + 1 |>) Hip). done.
    + apply icache_ok_insert; [done|cbn; lia|]. intros q j Hj _ Lj Ed Ei.
      apply (io_unique _ Hok q ip j i0); try done; by rewrite <- ?Ed, <- ?Ei.
    + apply list_lookup_insert_eq. by eapply lookup_lt_Some.
    + unfold live. cbn. lia.
    + done.
    + done.
    + intros q Hq. by apply list_lookup_insert_ne.
    + left. by exists i0.
  - rewrite findi_None in E1.
    assert (∀ q j, icache s !! q = Some j → live j → ¬ (i_dev j = dev ∧ i_inum j = inum)) as Hno.
    { intros q j Hj Lj [Ed Ei]. specialize (E1 q j Hj). simpl in E1.
      rewrite (proj2 (Z.ltb_lt 0 _) Lj), Ed, Ei, !Z.eqb_refl in E1. done. }
    destruct (findi _ (icache s)) as [ip|] eqn:E2; [left|right].
    + apply findi_lookup in E2 as (i0 & Hip & Hz).
      set (f := λ i : inode, i <| i_dev := dev |> <| i_inum := inum |> <| i_ref := 1 |> <| i_valid := false |>).
      exists ip, (f i0), (<[ip := f i0]> (icache s)). split_and!; try done.
      * step_with (upd_inode_run s ip i0 f Hip). done.
      * apply icache_ok_insert; [done|done|]. intros q j Hj _ Lj Ed Ei. by destruct (Hno q j Hj Lj).
      * apply list_lookup_insert_eq. by eapply lookup_lt_Some.
      * intros q Hq. by apply list_lookup_insert_ne.
      * right. split_and!; try done. intros i1 Hi1. rewrite Hip in Hi1. injection Hi1 as <-. by apply Z.eqb_eq.
    + split; [done|]. intros q j Hj. rewrite findi_None in E2. specialize (E2 q j Hj). simpl in E2.
      assert (live j) as Lj; [|split; [done|by apply (Hno q j Hj)]].
      pose proof (Forall_lookup_1 _ _ _ _ (io_ref _ Hok) Hj) as Hr. simpl in Hr. unfold live. lia.
Qed.
