(* ===== verification/FsExample.v ===== *)
(** * A small file system over the whole stack

    A device of 2000 blocks laid out as mkfs does (log in blocks 2 to 31,
    inodes from 32, bitmap in block 45, data from 46), mounted on log.c and
    bio.c inside a transaction, with one empty open file.  It instantiates the
    hypotheses of the file-system theorems, and the code runs on it. *)

From stdpp Require Import gmap.
From S2P Require Import Prelude Bytes BufCache Bio Log LogDisk CString Fs FsAlloc FsMap FsData FsPath.

Definition sb_fs : superblock := Superblock FSMAGIC 2000 1954 200 30 2 32 45.

(** Blocks 0 to 45 are in use. *)
Definition bitmap_fs : block := replicate 5 255 ++ [63] ++ replicate 1018 0.
Definition disk_fs : gmap Z block := {[45 := bitmap_fs]}.
Definition log_fs : log := Log 2 30 1 false 1 0 (replicate 30 0).
Definition file_fs : inode := Inode 1 5 1 true 7 true 2 3 0 0 1 0 (replicate 13 0).

(** User memory with one page mapped at address 4096. *)
Definition um_fs : Z → option Z := λ a, if (4096 <=? a) && (a <? 8192) then Some (a mod 256) else None.

Definition fs0 : fstate (lstate bcache) :=
  FState sb_fs (file_fs :: replicate 49 inode0) 0 7 um_fs (λ _, 0) (LState log_fs (binit 7 7 disk_fs)).

Definition view0 : dview := DView (dread disk_fs) [] [] [].

#[export] Instance spec_fs : LogDiskSpec (lstate bcache) 1 2 32 :=
  log_disk_spec (BufCacheSpec0 := bio_spec 1) 1 2 32.

Lemma layout_fs : layout 2 32 46 sb_fs.
Proof. split; vm_compute; repeat split; congruence. Qed.

Lemma log_fs_ok : log_ok 1 log_fs.
Proof.
  split; cbn; try done; try (unfold LOGSIZE, MAXOPBLOCKS; lia).
  - repeat constructor; lia.
  - constructor.
  - intros b Hb. by apply not_elem_of_nil in Hb.
Qed.

Lemma rep_fs : drep (disk fs0) view0.
Proof.
  apply (boot_rep 1 7 7 disk_fs log_fs); [done| |apply log_fs_ok|done|done].
  intros b x. unfold disk_fs. rewrite lookup_singleton_Some. intros [_ <-]. reflexivity.
Qed.

Lemma meta_fs : meta_used 46 sb_fs view0.
Proof.
  intros b Hb. assert (forallb (λ n, used sb_fs view0 (Z.of_nat n)) (seq 0 46) = true) as H by (vm_compute; reflexivity).
  rewrite forallb_forall in H. rewrite <- (Z2Nat.id b) by lia. apply H, in_seq. lia.
Qed.

Lemma budget_fs k : (k ≤ 29)%nat → budget 2 32 k view0.
Proof. intros Hk. split; [unfold spare|unfold log_space]; cbn; unfold NBUF, LOGSIZE, MAXOPBLOCKS; lia. Qed.

Lemma alloc_pre_fs k : (k ≤ 29)%nat → alloc_pre 1 2 32 46 k fs0 view0.
Proof.
  intros Hk. split; [apply layout_fs|apply rep_fs|apply meta_fs|constructor|by apply budget_fs].
Qed.

Lemma slot_fs p : slot (dv_mem view0) (i_addrs file_fs) p = 0.
Proof.
  assert (∀ k, default 0 (i_addrs file_fs !! k) = 0) as H.
  { intros k. cbn [i_addrs file_fs]. destruct (replicate 13 0 !! k) eqn:E; [|done]. by apply lookup_replicate in E as [-> _]. }
  destruct p; unfold slot; by rewrite H.
Qed.

Lemma file_inv_fs k : (k ≤ 29)%nat → file_inv 1 2 32 46 k fs0 view0 0 file_fs.
Proof.
  intros Hk. split; [by apply alloc_pre_fs|done|done| |done].
  split; [done| |].
  - intros p _. by rewrite slot_fs.
  - intros p q _ _ _. by rewrite slot_fs.
Qed.

Lemma free_fs : has_free 6 sb_fs view0.
Proof.
  exists [46; 47; 48; 49; 50; 51]. split; [|split; [done|]].
  - repeat constructor; set_solver.
  - repeat constructor; vm_compute; congruence.
Qed.

(** ** The theorems on it *)

Lemma balloc_correct_witness : ∃ d', run (balloc 1) fs0 46 (with_disk fs0 d').
Proof.
  destruct (balloc_correct 1 2 32 46 fs0 view0 (alloc_pre_fs 2 ltac:(lia))) as [(b & d' & v' & E & _ & (Hr & Hu & Hb) & _)|[_ H]].
  - exists d'. replace 46 with b; [exact E|].
    assert (used (sb fs0) view0 46 = false) as H46 by (vm_compute; reflexivity).
    assert (¬ b < 46) by (intros Hlt; pose proof (meta_fs b ltac:(lia)) as Hm; change sb_fs with (sb fs0) in Hm; congruence).
    destruct (decide (b = 46)); [done|]. rewrite (Hb 46) in H46 by lia. done.
  - specialize (H 46 ltac:(cbn; lia)). vm_compute in H. done.
Defined.

Lemma bfree_correct_witness : bfree 1 46 fs0 = Panic "freeing free block".
Proof.
  apply (bfree_correct 1 2 32 46 fs0 view0 46 (alloc_pre_fs 1 ltac:(lia))); [cbn; lia|]. vm_compute. reflexivity.
Defined.

Lemma bmap_correct_witness : ∃ a s', run (bmap 0 300) fs0 a s' ∧ a ≠ 0.
Proof.
  destruct (bmap_correct 1 2 32 46 0 3 fs0 view0 0 file_fs 300 (file_inv_fs 8 ltac:(lia)) free_fs ltac:(lia)) as [H _].
  destruct H as (a & s' & v' & i' & E & _ & _ & _ & Ha & _); [done|]. exists a, s'. split; [exact E|exact Ha].
Defined.

(** One chunk of [filewrite] in user memory. *)
Lemma src_fs : ∀ j, 0 ≤ j < 3072 → mem_at true fs0 (5000 + j) = Some ((5000 + j) mod 256).
Proof.
  intros j Hj. unfold mem_at. cbn [um fs0]. unfold um_fs.
  rewrite (proj2 (Z.leb_le 4096 (5000 + j))), (proj2 (Z.ltb_lt (5000 + j) 8192)) by lia. done.
Qed.

Lemma writei_correct_witness :
  (∃ s' v' i', run (writei 0 true 5000 0 3072) fs0 3072 s' ∧ i_size i' = 3072 ∧ fbyte v' (i_addrs i') 3000 = 64) ∧
  run (writei 0 true 5000 1 3072) fs0 (-1) fs0.
Proof.
  split.
  - destruct (writei_correct 1 2 32 46 0 0 fs0 view0 0 file_fs true 5000 0 3072 (λ j, (5000 + j) mod 256)) as (_ & H & _).
    + reflexivity.
    + lia.
    + lia.
    + destruct H as (s' & v' & i' & E & _ & _ & Hs & Hb & _).
      * cbn. lia.
      * done.
      * apply file_inv_fs. vm_compute. lia.
      * eapply has_free_le, free_fs. vm_compute. lia.
      * unfold inum_ok. cbn. lia.
      * exact src_fs.
      * exists s', v', i'. split; [exact E|]. split; [rewrite Hs; reflexivity|]. apply (Hb 3000). lia.
  - destruct (writei_correct 1 2 32 46 0 0 fs0 view0 0 file_fs true 5000 1 3072 (λ j, (5000 + j) mod 256)) as (H & _).
    + reflexivity.
    + lia.
    + lia.
    + apply H. left. cbn. lia.
Defined.

Lemma writei_readi_roundtrip_witness :
  ∃ s1 s2, run (writei 0 true 5000 0 3072) fs0 3072 s1 ∧ run (readi 0 false 77 0 3072) s1 3072 s2 ∧
    ∀ j, 0 ≤ j < 3072 → Some (km s2 (77 + j)) = um fs0 (5000 + j).
Proof.
  apply (writei_readi_roundtrip 1 2 32 46 0 0 fs0 view0 0 file_fs true 5000 0 3072 (λ j, (5000 + j) mod 256) false 77).
  - apply file_inv_fs. vm_compute. lia.
  - eapply has_free_le, free_fs. vm_compute. lia.
  - unfold inum_ok. cbn. lia.
  - cbn. lia.
  - lia.
  - done.
  - done.
  - exact src_fs.
  - intros j Hj. by eexists.
Defined.

(** The cache has one live entry. *)
Lemma icache_fs_ok : icache_ok (icache fs0).
Proof.
  assert (∀ p i, icache fs0 !! p = Some i → live i → p = 0%nat) as H.
  { intros [|p] i Hi; [done|]. change (replicate 49 inode0 !! p = Some i) in Hi. apply lookup_replicate in Hi as [-> _]. unfold live. cbn. lia. }
  split.
  - constructor; [done|]. by apply Forall_replicate.
  - intros p q i j Hp Hq Li Lj _ _. by rewrite (H p i Hp Li), (H q j Hq Lj).
Qed.

Lemma iget_correct_witness : ∃ ip i l, run (iget 1 9) fs0 ip (fs0 <| icache := l |>) ∧ l !! ip = Some i ∧ i_inum i = 9.
Proof.
  destruct (iget_correct fs0 1 9 icache_fs_ok) as [(ip & i & l & E & _ & Hi & _ & _ & Hn & _)|[_ H]].
  - exists ip, i, l. split; [exact E|]. split; [exact Hi|exact Hn].
  - destruct (H 1%nat inode0 eq_refl) as [Hl _]. unfold live in Hl. cbn in Hl. lia.
Defined.

(** ** A copy that fails

    The user buffer ends in an unmapped page: six bytes are copied into the
    buffer of block 46, which is released without being logged, the file stays
    empty, and [writei] still returns 10. *)
Definition s_fault : fstate (lstate bcache) := after (writei 0 true 8186 0 10) fs0.

(** When the source of a write becomes unreadable part-way, [writei]
    reports the full count although the file does not grow, and the bytes
    copied before the fault stay in the cached block without being logged. *)
Theorem writei_hides_fault :
  value (writei 0 true 8186 0 10) fs0 = Some 10 ∧
  i_size (default inode0 (icache s_fault !! 0%nat)) = 0 ∧
  (∃ bp, value (bread 1 46) s_fault = Some bp ∧
     take 7 (d_data bp (disk (after (bread 1 46) s_fault))) = [250; 251; 252; 253; 254; 255; 0]).
Proof. split_and!; [vm_compute; reflexivity|vm_compute; reflexivity|]. eexists. split; vm_compute; reflexivity. Qed.
