(* ===== verification/FsDir.v ===== *)
(** * Directories

    The contents of a directory are a list of entries, an inode number and a
    name each; [dirlookup], [dirlink] and the entry [sys_unlink] erases act on
    it as a map from names to inodes. *)

From stdpp Require Import gmap.
From S2P Require Import Prelude Bytes BufCache Bio Log LogDisk CString Fs FsAlloc FsMap FsData FsPath FsExample.

(** ** Names: at most [n] bytes from [a] on, up to a NUL *)

Fixpoint cstr (n : nat) (m : Z → Z) (a : Z) : list Z :=
  match n with
  | O => []
  | S n' => if m a =? 0 then [] else m a :: cstr n' m (a + 1)
  end.

Lemma cstr_ext n m m' a a' : (∀ k, 0 ≤ k < Z.of_nat n → m (a + k) = m' (a' + k)) → cstr n m a = cstr n m' a'.
Proof.
  revert a a'. induction n as [|n IH]; intros a a' H; [done|]. simpl. pose proof (H 0 ltac:(lia)) as H0. rewrite !Z.add_0_r in H0.
  rewrite H0. case_match; [done|]. f_equal. apply IH. intros k Hk. rewrite <- !Z.add_assoc. apply H. lia.
Qed.

Lemma strncmp_cstr n m p q : bytes_ok m → (strncmp p q n m =? 0) = bool_decide (cstr n m p = cstr n m q).
Proof.
  intros Hm. revert p q. induction n as [|n IH]; intros p q; [by rewrite bool_decide_true|]. simpl.
  pose proof (Hm p). pose proof (Hm q). destruct (Z.eqb_spec (m p) 0) as [E|E]; simpl.
  - unfold u8. rewrite !Z.mod_small by lia. destruct (Z.eqb_spec (m q) 0) as [Eq|Eq].
    + rewrite bool_decide_true by done. apply Z.eqb_eq. lia.
    + rewrite bool_decide_false by done. apply Z.eqb_neq. lia.
  - destruct (Z.eqb_spec (m p) (m q)) as [Eq|Eq].
    + rewrite IH, <- Eq. destruct (Z.eqb_spec (m p) 0); [done|]. apply bool_decide_ext. split; [by intros ->|by intros [= ->]].
    + unfold u8. rewrite !Z.mod_small by lia. rewrite (proj2 (Z.eqb_neq _ _)) by lia. symmetry. apply bool_decide_eq_false.
      destruct (m q =? 0); [done|]. by intros [= ? _].
Qed.

(** A field filled by [strncpy] holds the name it was given. *)
Lemma cstr_pad n : ∀ k a b m m', 0 ≤ k ≤ Z.of_nat n → (∀ i, 0 ≤ i < k → m (a + i) ≠ 0) → (k = Z.of_nat n ∨ m (a + k) = 0) →
  (∀ i, 0 ≤ i < Z.of_nat n → m' (b + i) = if decide (i < k) then m (a + i) else 0) → cstr n m' b = cstr n m a.
Proof.
  induction n as [|n IH]; intros k a b m m' Hk Hnz Hend Hf; [done|]. simpl. pose proof (Hf 0 ltac:(lia)) as H0. rewrite !Z.add_0_r in H0. rewrite H0.
  case_decide as Hd.
  - pose proof (Hnz 0 ltac:(lia)) as H1. rewrite Z.add_0_r in H1. destruct (Z.eqb_spec (m a) 0); [done|]. f_equal.
    apply (IH (k - 1)); [lia| | |].
    + intros i Hi. replace (a + 1 + i) with (a + (i + 1)) by lia. apply Hnz. lia.
    + destruct Hend as [->|Hz]; [left; lia|right]. by replace (a + 1 + (k - 1)) with (a + k) by lia.
    + intros i Hi. replace (b + 1 + i) with (b + (i + 1)) by lia. rewrite Hf by lia.
      replace (a + (i + 1)) with (a + 1 + i) by lia. repeat case_decide; [done|lia|lia|done].
  - assert (k = 0) as -> by lia. destruct Hend as [?|Hz]; [lia|]. rewrite Z.add_0_r in Hz. by rewrite Hz.
Qed.

(** ** Entries *)

Definition dirent : Type := Z * list Z.

(** Entry [j] of a directory. *)
Definition entry_at (v : dview) (addrs : list Z) (j : nat) : dirent :=
  let o := Z.of_nat j * DIRENT_SIZE in
  (fbyte v addrs o + 256 * fbyte v addrs (o + 1), cstr DIRSIZ (fbyte v addrs) (o + 2)).
Definition dir_len (i : inode) : nat := Z.to_nat (i_size i / DIRENT_SIZE).
Definition entries (v : dview) (i : inode) : list dirent := entry_at v (i_addrs i) <$> seq 0 (dir_len i).

(** The entry of a name, the first unused entry, and a new entry. *)
Definition dir_match (nm : list Z) (e : dirent) : bool := negb (e.1 =? 0) && bool_decide (nm = e.2).
Definition dir_find (nm : list Z) (l : list dirent) : option nat := findi (dir_match nm) l.
Definition unused (e : dirent) : bool := e.1 =? 0.
Definition dir_slot (l : list dirent) : nat := default (length l) (findi unused l).
Definition dir_set (j : nat) (e : dirent) (l : list dirent) : list dirent :=
  if decide (j < length l)%nat then <[j := e]> l else l ++ [e].

(** A new entry in an unused place is found under its name, and hides nothing. *)
Lemma dir_slot_le l : (dir_slot l ≤ length l)%nat.
Proof. unfold dir_slot. destruct (findi unused l) as [j|] eqn:E; cbn; [|done]. apply findi_lt in E. unfold id. lia. Qed.

Lemma dir_set_lookup j e l x : (j ≤ length l)%nat → dir_set j e l !! x = if decide (x = j) then Some e else l !! x.
Proof.
  intros Hj. unfold dir_set. destruct (decide (j < length l)%nat) as [Hl|Hl], (decide (x = j)) as [->|Hx].
  - by apply list_lookup_insert_eq.
  - by apply list_lookup_insert_ne.
  - assert (j = length l) as -> by lia. by rewrite lookup_app_r, Nat.sub_diag by lia.
  - destruct (decide (x < length l)%nat); [by apply lookup_app_l|]. rewrite !lookup_ge_None_2; [done|lia|rewrite length_app; cbn; lia].
Qed.

Lemma dir_slot_unused l e : l !! dir_slot l = Some e → unused e = true.
Proof.
  unfold dir_slot. destruct (findi unused l) as [j|] eqn:E; cbn; unfold id; intros He.
  - apply findi_lookup in E as (x & Hx & Hu). congruence.
  - apply lookup_lt_Some in He. lia.
Qed.

Lemma dir_find_set nm nm' inum l : inum ≠ 0 → dir_find nm l = None →
  dir_find nm' (dir_set (dir_slot l) (inum, nm) l) = if decide (nm' = nm) then Some (dir_slot l) else dir_find nm' l.
Proof.
  intros Hi Hn. pose proof (dir_slot_le l) as Hs. assert (∀ x, dir_set (dir_slot l) (inum, nm) l !! x = if decide (x = dir_slot l) then Some (inum, nm) else l !! x) as L
    by (intros; by apply dir_set_lookup).
  unfold dir_find in *. case_decide as E; [subst nm'|].
  - apply findi_Some. split.
    + exists (inum, nm). rewrite L, decide_True by done. split; [done|]. unfold dir_match. cbn [fst snd].
      rewrite (proj2 (Z.eqb_neq _ _)) by done. by rewrite bool_decide_true.
    + intros x y Hx Hy. rewrite L, decide_False in Hy by lia. by apply (proj1 (findi_None _ _) Hn x).
  - assert (∀ x y, l !! x = Some y → dir_match nm' y = true → x ≠ dir_slot l) as Hne.
    { intros x y Hy Hm ->. apply dir_slot_unused in Hy. unfold unused, dir_match in *. by rewrite Hy in Hm. }
    assert (dir_match nm' (inum, nm) = false) as Hf by (unfold dir_match; cbn [snd]; by rewrite bool_decide_false, andb_false_r).
    destruct (findi (dir_match nm') l) as [j|] eqn:Ej.
    + apply findi_Some in Ej as [(y & Hy & Hm) Hb]. apply findi_Some. split.
      * exists y. rewrite L, decide_False by (by eapply Hne). done.
      * intros x z Hx. rewrite L. case_decide; [by intros [= <-]|by apply Hb].
    + rewrite findi_None in Ej |- *. intros x z. rewrite L. case_decide; [by intros [= <-]|by apply Ej].
Qed.

(** No name is used twice. *)
Definition dir_unique (l : list dirent) : Prop :=
  ∀ x y e e', l !! x = Some e → l !! y = Some e' → unused e = false → unused e' = false → e.2 = e'.2 → x = y.

Lemma dir_match_false nm e : dir_match nm e = false → unused e = false → nm ≠ e.2.
Proof. unfold dir_match, unused. intros H Hu ->. rewrite Hu, bool_decide_true in H by done. done. Qed.

Lemma dir_unique_set nm inum l : dir_find nm l = None → dir_unique l → dir_unique (dir_set (dir_slot l) (inum, nm) l).
Proof.
  intros Hn Hu x y e e'. pose proof (dir_slot_le l) as Hs. rewrite !dir_set_lookup by done. unfold dir_find in Hn. rewrite findi_None in Hn.
  destruct (decide (x = dir_slot l)) as [->|], (decide (y = dir_slot l)) as [->|]; intros Hx Hy U U' E; [done|..|by eapply Hu].
  - injection Hx as <-. destruct (dir_match_false nm e' (Hn _ _ Hy) U' E).
  - injection Hy as <-. destruct (dir_match_false nm e (Hn _ _ Hx) U (symmetry E)).
Qed.

(** An entry that is erased is not found any more, and hides nothing. *)
Lemma dir_find_erase nm j e l nm' : dir_unique l → l !! j = Some e → unused e = false → nm = e.2 →
  dir_find nm' (<[j := (0, [])]> l) = if decide (nm' = nm) then None else dir_find nm' l.
Proof.
  intros Hu Hj He ->. pose proof (lookup_lt_Some _ _ _ Hj) as Hl. unfold dir_find. case_decide as E; [subst nm'|].
  - apply findi_None. intros x y Hx. apply list_lookup_insert_Some in Hx as [(_ & <- & _)|[Hne Hx]]; [done|].
    destruct (dir_match e.2 y) eqn:Em; [|done]. unfold dir_match in Em. apply andb_true_iff in Em as [Em%negb_true_iff E%bool_decide_eq_true].
    by destruct (Hne (Hu j x e y Hj Hx He Em E)).
  - assert (dir_match nm' e = false) as Hf by (unfold dir_match; by rewrite bool_decide_false, andb_false_r).
    clear Hu He. revert j Hj Hl. induction l as [|z l IH]; intros [|j] Hj Hl; [done..| |].
    + injection Hj as ->. cbn. by rewrite Hf.
    + cbn in Hj, Hl. change (<[S j := (0, [])]> (z :: l)) with (z :: <[j := (0, [])]> l). cbn [findi]. case_match; [done|]. rewrite IH by (done || lia). done.
Qed.

Lemma dir_unique_erase j l : dir_unique l → dir_unique (<[j := (0, [])]> l).
Proof.
  intros Hu x y e e' Hx Hy U U'. apply list_lookup_insert_Some in Hx as [(_ & <- & _)|[_ Hx]]; [done|].
  apply list_lookup_insert_Some in Hy as [(_ & <- & _)|[_ Hy]]; [done|]. by apply Hu.
Qed.

Record dir_ok (v : dview) (i : inode) : Prop := DirOk {
  do_type : i_type i = T_DIR;
  do_whole : i_size i mod DIRENT_SIZE = 0;
  do_size : 0 ≤ i_size i ≤ MAXBYTES;
  do_dense : ∀ o, 0 ≤ o < i_size i → slot (dv_mem v) (i_addrs i) (fpos o) ≠ 0;
  do_bytes : ∀ o, 0 ≤ o < i_size i → is_byte (fbyte v (i_addrs i) o);
}.

Lemma entries_lookup v i j : (j < dir_len i)%nat → entries v i !! j = Some (entry_at v (i_addrs i) j).
Proof. intros Hj. unfold entries. rewrite list_lookup_fmap, lookup_seq_lt by done. done. Qed.
Lemma entries_length v i : length (entries v i) = dir_len i.
Proof. unfold entries. by rewrite length_fmap, length_seq. Qed.

Lemma dir_len_size v i : dir_ok v i → i_size i = Z.of_nat (dir_len i) * DIRENT_SIZE.
Proof.
  intros [_ Hm Hs _ _]. unfold dir_len, DIRENT_SIZE in *. pose proof (Z.div_mod (i_size i) 16 ltac:(lia)). pose proof (Z.div_pos (i_size i) 16). lia.
Qed.

(** Writing entry [j] of a directory, or a new one at its end. *)
Lemma entries_write sb ds ib v i v' addrs' (j : nat) (f : Z → Z) :
  wrote sb ds ib (run_bytes (Z.of_nat j * DIRENT_SIZE) DIRENT_SIZE f) v (i_addrs i) v' addrs' → dir_ok v i →
  (j ≤ dir_len i)%nat → Z.of_nat j * DIRENT_SIZE + DIRENT_SIZE ≤ MAXBYTES → (∀ k, 0 ≤ k < DIRENT_SIZE → is_byte (f k)) →
  let i' := i <| i_addrs := addrs' |> <| i_size := Z.max (i_size i) (Z.of_nat j * DIRENT_SIZE + DIRENT_SIZE) |> in
  dir_ok v' i' ∧ entries v' i' = dir_set j (f 0 + 256 * f 1, cstr DIRSIZ f 2) (entries v i).
Proof.
  intros W Hd Hj Hmax Hf i'. pose proof (dir_len_size v i Hd) as Hsz. destruct Hd as [Ht Hw Hs Hde Hby]. unfold DIRENT_SIZE in *.
  assert (i_size i' = Z.max (Z.of_nat (dir_len i)) (Z.of_nat j + 1) * 16) as Hsz' by (cbn; lia).
  assert (dir_len i' = Nat.max (dir_len i) (j + 1)) as Hlen.
  { unfold dir_len at 1. rewrite Hsz'. unfold DIRENT_SIZE. rewrite Z.div_mul by lia. lia. }
  assert (∀ k, 0 ≤ k < 16 → slot (dv_mem v') addrs' (fpos (Z.of_nat j * 16 + k)) ≠ 0 ∧ fbyte v' addrs' (Z.of_nat j * 16 + k) = f k) as Hnew.
  { intros k Hk. apply (wr_byte W); [lia|]. unfold run_bytes. rewrite decide_True by lia. do 2 f_equal. lia. }
  assert (∀ o, 0 ≤ o < i_size i → ¬ (Z.of_nat j * 16 ≤ o < Z.of_nat j * 16 + 16) → fbyte v' addrs' o = fbyte v (i_addrs i) o) as Hkeep.
  { intros o Ho Hout. apply (wr_keep W); [lia| |by apply Hde]. unfold run_bytes. by rewrite decide_False by lia. }
  assert (∀ o, 0 ≤ o < i_size i' → (0 ≤ o < i_size i ∧ ¬ (Z.of_nat j * 16 ≤ o < Z.of_nat j * 16 + 16)) ∨
            ∃ k, 0 ≤ k < 16 ∧ o = Z.of_nat j * 16 + k) as Hcase.
  { intros o Ho. destruct (decide (Z.of_nat j * 16 ≤ o < Z.of_nat j * 16 + 16)); [right; exists (o - Z.of_nat j * 16); lia|left; lia]. }
  split; [split|].
  - done.
  - rewrite Hsz'. apply Z.mod_mul. done.
  - cbn. lia.
  - intros o Ho. destruct (Hcase o Ho) as [[Ho' _]|(k & Hk & ->)]; [|by apply Hnew].
    cbn [i_addrs i' update field_set]. rewrite (wr_slot W); [by apply Hde|lia|by apply Hde].
  - intros o Ho. cbn [i_addrs i' update field_set]. destruct (Hcase o Ho) as [[Ho' Hout]|(k & Hk & ->)].
    + rewrite Hkeep by done. by apply Hby.
    + destruct (Hnew k Hk) as [_ ->]. by apply Hf.
  - assert (entry_at v' (i_addrs i') j = (f 0 + 256 * f 1, cstr DIRSIZ f 2)) as Enew.
    { unfold entry_at. cbn [i_addrs i' update field_set]. unfold DIRENT_SIZE. f_equal.
      - destruct (Hnew 0 ltac:(lia)) as [_ E0]. rewrite Z.add_0_r in E0. rewrite E0. by destruct (Hnew 1 ltac:(lia)) as [_ ->].
      - apply cstr_ext. intros k Hk. unfold DIRSIZ in Hk. rewrite <- Z.add_assoc. destruct (Hnew (2 + k) ltac:(lia)) as [_ ->]. done. }
    assert (∀ x, x ≠ j → (x < dir_len i)%nat → entry_at v' (i_addrs i') x = entry_at v (i_addrs i) x) as Eold.
    { intros x Hx Hlt. unfold entry_at. cbn [i_addrs i' update field_set]. unfold DIRENT_SIZE. f_equal.
      - rewrite !Hkeep by lia. done.
      - apply cstr_ext. intros k Hk. unfold DIRSIZ in Hk. apply Hkeep; lia. }
    apply list_eq. intros x. unfold dir_set. rewrite entries_length. destruct (decide (x < dir_len i')%nat) as [Hx|Hx].
    + rewrite entries_lookup by done. destruct (decide (x = j)) as [->|Hne].
      * rewrite Enew. case_decide; [by rewrite list_lookup_insert_eq by (by rewrite entries_length)|].
        rewrite lookup_app_r by (rewrite entries_length; lia). rewrite entries_length. by replace (j - dir_len i)%nat with 0%nat by lia.
      * rewrite Eold by lia. case_decide; [rewrite list_lookup_insert_ne by done|rewrite lookup_app_l by (rewrite entries_length; lia)];
          by rewrite entries_lookup by lia.
    + rewrite lookup_ge_None_2 by (rewrite entries_length; lia). symmetry. apply lookup_ge_None_2.
      case_decide; rewrite ?length_insert, ?length_app, ?entries_length; cbn [length]; lia.
Qed.

(** ** The code *)

Section code.
Context {D : Type} `{!LogDisk D} (dev lo hi : Z) `{!LogDiskSpec D dev lo hi} (ds : Z).
Implicit Types (s : fstate D) (v : dview) (i : inode).

(** Only the [struct dirent] at [de] and the cache of the disk differ. *)
Definition scratch (de : Z) s s' : Prop :=
  mem_only s s' ∧ (∀ a, um s' a = um s a) ∧ (∀ a, ¬ (de ≤ a < de + DIRENT_SIZE) → km s' a = km s a) ∧ bytes_ok (km s').

Lemma scratch_refl de s : bytes_ok (km s) → scratch de s s.
Proof. intros H. by split_and!. Qed.
Lemma scratch_trans de s1 s2 s3 : scratch de s1 s2 → scratch de s2 s3 → scratch de s1 s3.
Proof.
  intros ((A1 & A2 & A3 & A4) & Hu & Hk & _) ((B1 & B2 & B3 & B4) & Hu' & Hk' & Hb). split_and!; [split_and!; congruence|..|done].
  - intros a. by rewrite Hu', Hu.
  - intros a Ha. by rewrite Hk', Hk.
Qed.

Lemma read_entry k s v dp i de (j : nat) : file_inv dev lo hi ds k s v dp i → dir_ok v i → (j < dir_len i)%nat → bytes_ok (km s) →
  ∃ s', run (readi dp false de (Z.of_nat j * DIRENT_SIZE) DIRENT_SIZE) s DIRENT_SIZE s' ∧ scratch de s s' ∧ drep (disk s') v ∧
    (de_inum de (km s'), cstr DIRSIZ (km s') (de + 2)) = entry_at v (i_addrs i) j.
Proof.
  intros Hi Hd Hj Hb. pose proof (dir_len_size v i Hd) as Hsz. pose proof Hd as [_ _ Hs Hde Hby]. unfold DIRENT_SIZE in *.
  assert (Z.min 16 (i_size i - Z.of_nat j * 16) = 16) as Hmin by lia.
  destruct (readi_run dev lo hi ds k s v dp i false de (Z.of_nat j * 16) 16 Hi) as (s' & E & M & R & P & Q & G); [lia..| | |].
  - rewrite Hmin. intros o Ho. apply Hde. lia.
  - rewrite Hmin. intros x Hx. by eexists.
  - rewrite Hmin in *. assert (∀ x, 0 ≤ x < 16 → km s' (de + x) = fbyte v (i_addrs i) (Z.of_nat j * 16 + x)) as P'.
    { intros x Hx. specialize (P x Hx). by injection P as P. }
    assert (∀ a, ¬ (de ≤ a < de + 16) → km s' a = km s a) as Q' by (intros a Ha; specialize (Q a Ha); by injection Q as Q).
    exists s'. split; [done|]. split; [split_and!; [exact M|exact G|done|]|].
    { intros a. destruct (decide (de ≤ a < de + 16)); [|rewrite Q' by done; apply Hb].
      replace a with (de + (a - de)) by lia. rewrite P' by lia. apply Hby. lia. }
    split; [done|]. unfold entry_at, de_inum, DIRENT_SIZE. f_equal.
    + pose proof (P' 0 ltac:(lia)) as E0. rewrite !Z.add_0_r in E0. by rewrite E0, P' by lia.
    + apply cstr_ext. intros x Hx. unfold DIRSIZ in Hx. rewrite <- !Z.add_assoc. apply P'. lia.
Qed.

Lemma scratch_inv k s v dp i de s' : file_inv dev lo hi ds k s v dp i → scratch de s s' → drep (disk s') v → file_inv dev lo hi ds k s' v dp i.
Proof. intros Hi (M & _) R. by eapply file_inv_mem. Qed.

(** The name is outside the [struct dirent]. *)
Definition apart (name de : Z) : Prop := name + Z.of_nat DIRSIZ ≤ de ∨ de + DIRENT_SIZE < name.

Lemma apart_cstr name de s s' : apart name de → scratch de s s' → cstr DIRSIZ (km s') name = cstr DIRSIZ (km s) name.
Proof. intros Ha (_ & _ & Hk & _). apply cstr_ext. intros x Hx. apply Hk. unfold apart, DIRENT_SIZE in *. lia. Qed.

(** The result of [dirlookup] for entry [j]. *)
Definition iget_entry (i : inode) v (j : nat) : ST (fstate D) (option (nat * Z)) :=
  ip ← iget (i_dev i) (entry_at v (i_addrs i) j).1; mret (Some (ip, Z.of_nat j * DIRENT_SIZE)).

Lemma dirlookup_loop_run n : ∀ k s v dp i de name (j : nat), file_inv dev lo hi ds k s v dp i → dir_ok v i → bytes_ok (km s) → apart name de →
  (j + n = S (dir_len i))%nat →
  ∃ s', scratch de s s' ∧ drep (disk s') v ∧
    dirlookup_loop n de dp name (Z.of_nat j * DIRENT_SIZE) s =
      match findi (dir_match (cstr DIRSIZ (km s) name)) (drop j (entries v i)) with
      | None => Ret (None, s')
      | Some x => iget_entry i v (j + x) s'
      end.
Proof.
  induction n as [|n IH]; intros k s v dp i de name j Hi Hd Hb Ha Hj.
  { exists s. split; [by apply scratch_refl|]. split; [apply Hi|]. by rewrite drop_ge by (rewrite entries_length; lia). }
  pose proof (dir_len_size v i Hd) as Hsz. cbn [dirlookup_loop]. step_with (run_the_inode s dp i (fi_ip _ _ _ _ _ _ _ _ _ Hi)).
  destruct (Z.ltb_spec (Z.of_nat j * DIRENT_SIZE) (i_size i)) as [Hlt|Hge]; [|exists s].
  2:{ split; [by apply scratch_refl|]. split; [apply Hi|]. unfold DIRENT_SIZE in *. by rewrite drop_ge by (rewrite entries_length; lia). }
  assert (j < dir_len i)%nat as Hj' by (unfold DIRENT_SIZE in *; lia).
  destruct (read_entry k s v dp i de j Hi Hd Hj' Hb) as (s1 & E1 & S1 & R1 & Ee). step_with E1. rewrite Z.eqb_refl. cbn [negb].
  step_with (run_gets km s1). rewrite (drop_S _ (entry_at v (i_addrs i) j)) by (by apply entries_lookup). cbn [findi].
  assert (negb (de_inum de (km s1) =? 0) && (namecmp name (de + 2) (km s1) =? 0) = dir_match (cstr DIRSIZ (km s) name) (entry_at v (i_addrs i) j)) as ->.
  { unfold dir_match, namecmp. rewrite strncmp_cstr by apply S1. by rewrite <- Ee, (apart_cstr name de s s1). }
  destruct (dir_match _ _) eqn:Em.
  - exists s1. split; [done|]. split; [done|]. rewrite Nat.add_0_r. unfold iget_entry. by rewrite <- Ee.
  - destruct (IH k s1 v dp i de name (S j)) as (s2 & S2 & R2 & E2); [by eapply scratch_inv|done|apply S1|done|lia|].
    exists s2. split; [by eapply scratch_trans|]. split; [done|].
    replace (Z.of_nat j * DIRENT_SIZE + DIRENT_SIZE) with (Z.of_nat (S j) * DIRENT_SIZE) by lia. rewrite E2, (apart_cstr name de s s1) by done.
    destruct (findi (dir_match (cstr DIRSIZ (km s) name)) (drop (S j) (entries v i))) as [x|]; cbn [fmap option_fmap option_map]; [|done]. by rewrite Nat.add_succ_r.
Qed.

Lemma dirlookup_run k s v dp i de name : file_inv dev lo hi ds k s v dp i → dir_ok v i → bytes_ok (km s) → apart name de →
  ∃ s', scratch de s s' ∧ drep (disk s') v ∧
    dirlookup de dp name s =
      match dir_find (cstr DIRSIZ (km s) name) (entries v i) with None => Ret (None, s') | Some j => iget_entry i v j s' end.
Proof.
  intros Hi Hd Hb Ha. unfold dirlookup. step_with (run_the_inode s dp i (fi_ip _ _ _ _ _ _ _ _ _ Hi)).
  rewrite (do_type _ _ Hd). cbn [negb Z.eqb T_DIR Pos.eqb].
  exact (dirlookup_loop_run (S (dir_len i)) k s v dp i de name 0 Hi Hd Hb Ha eq_refl).
Qed.

Lemma free_dirent_run n : ∀ k s v dp i de (j : nat), file_inv dev lo hi ds k s v dp i → dir_ok v i → bytes_ok (km s) →
  (j + n = S (dir_len i))%nat → (j ≤ dir_len i)%nat →
  ∃ s', scratch de s s' ∧ drep (disk s') v ∧
    run (free_dirent n de dp (Z.of_nat j * DIRENT_SIZE)) s
      (Z.of_nat (default (dir_len i) (Nat.add j <$> findi unused (drop j (entries v i)))) * DIRENT_SIZE) s'.
Proof.
  induction n as [|n IH]; intros k s v dp i de j Hi Hd Hb Hj Hjl; [lia|].
  pose proof (dir_len_size v i Hd) as Hsz. cbn [free_dirent]. step_with (run_the_inode s dp i (fi_ip _ _ _ _ _ _ _ _ _ Hi)).
  destruct (Z.ltb_spec (Z.of_nat j * DIRENT_SIZE) (i_size i)) as [Hlt|Hge]; [|exists s].
  2:{ split; [by apply scratch_refl|]. split; [apply Hi|]. unfold DIRENT_SIZE in *. rewrite drop_ge by (rewrite entries_length; lia).
      cbn [findi fmap option_fmap option_map default]. by replace j with (dir_len i) by lia. }
  assert (j < dir_len i)%nat as Hj' by (unfold DIRENT_SIZE in *; lia).
  destruct (read_entry k s v dp i de j Hi Hd Hj' Hb) as (s1 & E1 & S1 & R1 & Ee). step_with E1. rewrite Z.eqb_refl. cbn [negb].
  step_with (run_gets km s1). rewrite (drop_S _ (entry_at v (i_addrs i) j)) by (by apply entries_lookup). cbn [findi].
  replace (de_inum de (km s1) =? 0) with (unused (entry_at v (i_addrs i) j)) by (by rewrite <- Ee). destruct (unused _) eqn:Em.
  - exists s1. split; [done|]. split; [done|]. cbn [fmap option_fmap option_map default]. by rewrite Nat.add_0_r.
  - destruct (IH k s1 v dp i de (S j)) as (s2 & S2 & R2 & E2); [by eapply scratch_inv|done|apply S1|lia|lia|].
    exists s2. split; [by eapply scratch_trans|]. split; [done|].
    replace (Z.of_nat j * DIRENT_SIZE + DIRENT_SIZE) with (Z.of_nat (S j) * DIRENT_SIZE) by lia. rewrite E2.
    destruct (findi unused (drop (S j) (entries v i))) as [x|]; cbn [fmap option_fmap option_map default]; [|done].
    unfold id. by rewrite Nat.add_succ_r.
Qed.

(** ** An entry that is found and let go *)

(** Entry [ip] of the cache after [iget] of an inode. *)
Definition got s (ip : nat) (inum : Z) (l : list inode) : Prop :=
  icache_ok l ∧ (∀ q, q ≠ ip → l !! q = icache s !! q) ∧ ∃ i, l !! ip = Some i ∧ live i ∧ i_dev i = dev ∧ i_inum i = inum ∧
    ((∃ i0, icache s !! ip = Some i0 ∧ live i0 ∧ i = i0 <| i_ref := i_ref i0 + 1 |>) ∨ (i_ref i = 1 ∧ i_valid i = false ∧ ∀ i0, icache s !! ip = Some i0 → ¬ live i0)).

Lemma iget_got s inum : icache_ok (icache s) →
  (∃ ip l, run (iget dev inum) s ip (s <| icache := l |>) ∧ got s ip inum l) ∨
  (iget dev inum s = Panic "iget: no inodes" ∧ ∀ q j, icache s !! q = Some j → live j).
Proof.
  intros Hok. destruct (iget_correct s dev inum Hok) as [(ip & i & l & E & Hl & Hi & Hlv & Hd & Hn & Ho & Hc)|[E H]]; [left|right].
  - exists ip, l. split; [done|]. split; [done|]. split; [done|]. exists i. split_and!; try done.
    destruct Hc as [(i0 & ? & ? & _ & _ & ->)|(? & ? & Hz & _)]; [left; by exists i0|right]. split_and!; try done.
    intros i0 Hi0. unfold live. rewrite (Hz i0 Hi0). lia.
  - split; [done|]. intros q j Hj. by destruct (H q j Hj).
Qed.

(** Giving the reference back leaves the cache as it was but for an entry
    without references. *)
Lemma got_put s s' ip inum : got s ip inum (icache s') →
  ∃ s2, run (iput ip) s' () s2 ∧ s2 = s' <| icache := icache s2 |> ∧ ∀ q x, icache s !! q = Some x → live x → icache s2 !! q = Some x.
Proof.
  intros (_ & Ho & i & Hi & Hlv & _ & _ & Hc). exists (s' <| icache := <[ip := i <| i_ref := i_ref i - 1 |>]> (icache s') |>). split; [|split; [done|]].
  2:{ intros q x Hq Hx. cbn [icache update field_set]. destruct (decide (q = ip)) as [->|]; [|by rewrite list_lookup_insert_ne, Ho].
      rewrite list_lookup_insert_eq by (by eapply lookup_lt_Some). destruct Hc as [(i0 & H0 & _ & ->)|(_ & _ & Hn)]; [|by destruct (Hn x Hq)].
      rewrite Hq in H0. injection H0 as <-. f_equal. destruct x. cbn. f_equal. lia. }
  unfold iput. step_with (run_the_inode s' ip i Hi).
  assert ((i_ref i =? 1) && i_valid i && (i_nlink i =? 0) = false) as ->.
  { destruct Hc as [(i0 & _ & H0 & ->)|(_ & -> & _)]; [|by rewrite andb_false_r]. unfold live in H0. cbn [i_ref update field_set].
    rewrite (proj2 (Z.eqb_neq _ _)) by lia. done. }
  cbv iota. rewrite (bind_Ret (mret ()) _ s' () s' eq_refl). by rewrite (upd_inode_run s' ip i _ Hi).
Qed.

(** ** A new entry *)

Lemma km_put_bytes bs a m : bytes_ok m → is_bytes bs → bytes_ok (km_put a bs m).
Proof.
  intros Hm Hb x. rewrite km_put_spec. case_decide; [|apply Hm]. unfold byte_at.
  destruct (bs !! Z.to_nat (x - a)) as [y|] eqn:E; [|cbn; lia]. exact (Forall_lookup_1 _ _ _ _ Hb E).
Qed.

(** The [struct dirent] that [dirlink] writes. *)
Definition new_dirent (de name inum : Z) (m : mem) : mem :=
  km_put de [inum mod 256; inum / 256 mod 256] (strncpy (de + 2) name DIRSIZ m).

Lemma new_dirent_spec de name inum m : bytes_ok m → apart name de → 0 ≤ inum < 2 ^ 16 →
  let m' := new_dirent de name inum m in
  bytes_ok m' ∧ (m' de + 256 * m' (de + 1), cstr DIRSIZ m' (de + 2)) = (inum, cstr DIRSIZ m name) ∧
  ∀ a, ¬ (de ≤ a < de + DIRENT_SIZE) → m' a = m a.
Proof.
  intros Hm Ha Hin m'. unfold apart, DIRSIZ, DIRENT_SIZE in *.
  destruct (strncpy_spec (de + 2) name DIRSIZ m) as (k & Hk & Hnz & Hend & Hc); [unfold CString.disjoint, DIRSIZ; lia|]. unfold DIRSIZ in *.
  assert (∀ a, m' a = if decide (a = de) then inum mod 256 else if decide (a = de + 1) then inum / 256 mod 256 else strncpy (de + 2) name 14 m a) as Hm'.
  { intros a. unfold m', new_dirent. rewrite km_put_spec. cbn [length]. destruct (decide (a = de)) as [->|].
    - rewrite decide_True by lia. by rewrite Z.sub_diag.
    - destruct (decide (a = de + 1)) as [->|]; [|by rewrite decide_False by lia]. rewrite decide_True by lia. by replace (de + 1 - de) with 1 by lia. }
  split_and!.
  - apply km_put_bytes.
    + intros a. unfold DIRSIZ. rewrite Hc. repeat case_decide; [apply Hm|lia|apply Hm].
    + repeat constructor; unfold is_byte; apply Z.mod_pos_bound; lia.
  - f_equal.
    + rewrite !Hm', decide_True by done. rewrite decide_False, decide_True by lia. rewrite (Z.mod_small (inum / 256)).
      * pose proof (Z.div_mod inum 256). lia.
      * split; [apply Z.div_pos; lia|apply Z.div_lt_upper_bound; lia].
    + apply (cstr_pad 14 k); [lia|done|lia|]. intros x Hx. rewrite Hm', !decide_False by lia. rewrite Hc.
      repeat case_decide; try lia; try done. f_equal. lia.
  - intros a Hout. rewrite Hm', !decide_False by lia. rewrite Hc. repeat case_decide; try lia; done.
Qed.

(** A directory in a transaction with room for [k] more blocks, and a name. *)
Record dir_pre (k : nat) s v dp i (de name : Z) : Prop := DirPre {
  dp_inv : file_inv dev lo hi ds k s v dp i;
  dp_dir : dir_ok v i;
  dp_cache : icache_ok (icache s);
  dp_bytes : bytes_ok (km s);
  dp_apart : apart name de;
}.

(** The entry that is found is the one the list has; the directory stays as it
    is. *)
Definition looked_up s v (de : Z) (e : dirent) (ip : nat) s' : Prop :=
  ∃ s1, scratch de s s1 ∧ drep (disk s1) v ∧ got s ip e.1 (icache s') ∧ s' = s1 <| icache := icache s' |>.

Lemma dirlookup_found k s v dp i de name j : dir_pre k s v dp i de name →
  dir_find (cstr DIRSIZ (km s) name) (entries v i) = Some j →
  ∃ e, entries v i !! j = Some e ∧
    ((∃ ip s', run (dirlookup de dp name) s (Some (ip, Z.of_nat j * DIRENT_SIZE)) s' ∧ looked_up s v de e ip s') ∨
     (dirlookup de dp name s = Panic "iget: no inodes" ∧ ∀ q x, icache s !! q = Some x → live x)).
Proof.
  intros [Hi Hd Hc Hb Ha] Hf. destruct (dirlookup_run k s v dp i de name Hi Hd Hb Ha) as (s1 & S1 & R1 & E). rewrite Hf in E.
  pose proof (findi_lt _ _ _ Hf) as Hj. rewrite entries_length in Hj. eexists. split; [by apply entries_lookup|].
  pose proof S1 as ((_ & Ec & _) & _). unfold iget_entry in E. rewrite (fi_dev _ _ _ _ _ _ _ _ _ Hi) in E.
  destruct (iget_got s1 (entry_at v (i_addrs i) j).1) as [(ip & l & E1 & G)|[E1 Hall]]; [by rewrite Ec|left|right].
  - exists ip, (s1 <| icache := l |>). split; [rewrite E; by step_with E1|]. exists s1. split; [done|]. split; [done|]. split; [|done].
    unfold got in *. by rewrite Ec in G.
  - split; [rewrite E; unfold mbind, ST_bind; by rewrite E1|]. by rewrite Ec in Hall.
Qed.

(** Writing the [struct dirent] at [de] as entry [j]. *)
Lemma write_dirent k n s v dp i de (j : nat) : file_inv dev lo hi ds (9 * wfuel DIRENT_SIZE + (1 + k)) s v dp i → dir_ok v i →
  icache_ok (icache s) → has_free (3 * wfuel DIRENT_SIZE + n) (sb s) v → inum_ok s i → (j ≤ dir_len i)%nat →
  Z.of_nat j * DIRENT_SIZE + DIRENT_SIZE ≤ MAXBYTES → bytes_ok (km s) →
  ∃ s' v' i', run (writei dp false de (Z.of_nat j * DIRENT_SIZE) DIRENT_SIZE) s DIRENT_SIZE s' ∧ file_inv dev lo hi ds k s' v' dp i' ∧
    dir_ok v' i' ∧ icache_ok (icache s') ∧ has_free n (sb s') v' ∧ km s' = km s ∧
    entries v' i' = dir_set j (de_inum de (km s), cstr DIRSIZ (km s) (de + 2)) (entries v i).
Proof.
  intros Hi Hd Hc Hn Hino Hj Hmax Hm. pose proof (dir_len_size v i Hd) as Hsz.
  destruct (writei_run dev lo hi ds k n s v dp i false de (Z.of_nat j * DIRENT_SIZE) DIRENT_SIZE (λ x, km s (de + x))) as (s4 & v4 & addrs4 & H4);
    try done; [unfold DIRENT_SIZE in *; lia|].
  cbv zeta in H4. destruct H4 as (E4 & Hi4 & Hn4 & _ & Ek4 & (_ & _ & _ & Ec4) & W).
  destruct (entries_write _ _ _ v i v4 addrs4 j (λ x, km s (de + x)) W Hd Hj Hmax) as [Hd4 Ee4]; [intros x Hx; apply Hm|].
  eexists s4, v4, _. split; [done|]. split; [exact Hi4|]. split; [exact Hd4|]. split_and!; try done.
  - rewrite Ec4. pose proof (fi_ip _ _ _ _ _ _ _ _ _ Hi) as Hip. apply icache_ok_insert; [done| |].
    + cbn. exact (Forall_lookup_1 _ _ _ _ (io_ref _ Hc) Hip).
    + intros q x Hq Hl Hx Ed Ei. exact (io_unique _ Hc q dp x i Hq Hip Hx Hl (symmetry Ed) (symmetry Ei)).
  - rewrite Ee4. f_equal. apply (f_equal2 pair).
    + unfold de_inum. by rewrite Z.add_0_r.
    + apply cstr_ext. intros x Hx. by rewrite Z.add_assoc.
Qed.

Lemma dirlink_new k n s v dp i de name inum : dir_pre (9 * wfuel DIRENT_SIZE + (1 + k)) s v dp i de name →
  has_free (3 * wfuel DIRENT_SIZE + n) (sb s) v → inum_ok s i → i_size i + DIRENT_SIZE ≤ MAXBYTES → 0 < inum < 2 ^ 16 →
  let nm := cstr DIRSIZ (km s) name in
  dir_find nm (entries v i) = None →
  ∃ s' v' i', run (dirlink de dp name inum) s 0 s' ∧ dir_pre k s' v' dp i' de name ∧ has_free n (sb s') v' ∧
    entries v' i' = dir_set (dir_slot (entries v i)) (inum, nm) (entries v i) ∧ cstr DIRSIZ (km s') name = nm.
Proof.
  intros [Hi Hd Hc Hb Ha] Hn Hino Hmax Hin nm Hf. pose proof (dir_len_size v i Hd) as Hsz.
  destruct (dirlookup_run _ s v dp i de name Hi Hd Hb Ha) as (s1 & S1 & R1 & E1). fold nm in E1. rewrite Hf in E1.
  unfold dirlink. step_with E1. pose proof (scratch_inv _ _ _ _ _ _ _ Hi S1 R1) as Hi1.
  step_with (run_the_inode s1 dp i (fi_ip _ _ _ _ _ _ _ _ _ Hi1)).
  destruct (free_dirent_run (S (dir_len i)) _ s1 v dp i de 0 Hi1 Hd) as (s2 & S2 & R2 & E2); [apply S1|done|lia|].
  rewrite drop_0 in E2. change (Z.of_nat 0 * DIRENT_SIZE) with 0 in E2.
  replace (default (dir_len i) (Nat.add 0 <$> findi unused (entries v i))) with (dir_slot (entries v i)) in E2
    by (unfold dir_slot; rewrite entries_length; by destruct (findi _ _)).
  change (S (Z.to_nat (i_size i / DIRENT_SIZE))) with (S (dir_len i)). step_with E2.
  pose proof (scratch_trans _ _ _ _ S1 S2) as S12. set (m := new_dirent de name inum (km s2)).
  rewrite (bind_Ret _ _ _ _ _ (run_modify _ _)). cbn beta iota. rewrite (bind_Ret _ _ _ _ _ (run_modify _ _)). cbn beta iota.
  match goal with |- context [(writei _ _ _ _ _ ≫= _) ?x] => assert (x = s2 <| km := m |>) as -> by (by destruct s2) end.
  destruct (new_dirent_spec de name inum (km s2)) as (Hm & He & Hout); [apply S2|done|lia|]. fold m in Hm, He, Hout.
  pose proof (dir_slot_le (entries v i)) as Hj. rewrite entries_length in Hj. pose proof S12 as ((Esb & Eic & _) & _).
  destruct (write_dirent k n (s2 <| km := m |>) v dp i de (dir_slot (entries v i))) as (s4 & v4 & i4 & E4 & Hi4 & Hd4 & Hc4 & Hn4 & Ek4 & Ee4).
  { eapply file_inv_mem; [eapply scratch_inv; [exact Hi|exact S12|done]|done|done]. } { done. }
  { cbn [icache update field_set]. by rewrite Eic. } { cbn [sb update field_set]. by rewrite Esb. }
  { unfold inum_ok. cbn [sb update field_set]. by rewrite Esb. } { done. } { unfold DIRENT_SIZE in *. lia. } { done. }
  cbn [km update field_set] in Ek4, Ee4. exists s4, v4, i4. split; [step_with E4; by rewrite Z.eqb_refl|].
  assert (cstr DIRSIZ (km s2) name = nm) as Hnm2 by exact (apart_cstr name de s s2 Ha S12).
  assert (cstr DIRSIZ m name = nm) as Hnm.
  { rewrite <- Hnm2. apply cstr_ext. intros x Hx. apply Hout. unfold apart, DIRSIZ, DIRENT_SIZE in *. lia. }
  split; [split; [done|done|done|by rewrite Ek4|done]|]. split_and!; [done| |by rewrite Ek4].
  rewrite Ee4. f_equal. unfold de_inum. by rewrite He, Hnm2.
Qed.

(** The erased entry of [sys_unlink] and [sys_rename]. *)
Lemma erase_run k n s v dp i de name (j : nat) : dir_pre (9 * wfuel DIRENT_SIZE + (1 + k)) s v dp i de name →
  has_free (3 * wfuel DIRENT_SIZE + n) (sb s) v → inum_ok s i → (j < dir_len i)%nat →
  let s1 := s <| km ::= memset_loop de 0 (Z.to_nat DIRENT_SIZE) |> in
  ∃ s' v' i', run (writei dp false de (Z.of_nat j * DIRENT_SIZE) DIRENT_SIZE) s1 DIRENT_SIZE s' ∧ dir_pre k s' v' dp i' de name ∧
    has_free n (sb s') v' ∧ entries v' i' = <[j := (0, [])]> (entries v i).
Proof.
  intros [Hi Hd Hc Hb Ha] Hn Hino Hj s1. pose proof (dir_len_size v i Hd) as Hsz. pose proof (do_size _ _ Hd) as Hmx.
  assert (∀ a, km s1 a = if decide (de ≤ a < de + 16) then 0 else km s a) as Hk.
  { intros a. cbn. by rewrite memset_loop_spec. }
  destruct (write_dirent k n s1 v dp i de j) as (s4 & v4 & i4 & E4 & Hi4 & Hd4 & Hc4 & Hn4 & Ek4 & Ee4); try done; [|lia|unfold DIRENT_SIZE in *; lia| |].
  { eapply file_inv_mem; [exact Hi|done|apply Hi]. }
  { intros a. rewrite Hk. case_decide; [lia|apply Hb]. }
  exists s4, v4, i4. split; [done|]. split; [split; try done|].
  { rewrite Ek4. intros a. rewrite Hk. case_decide; [lia|apply Hb]. }
  split; [done|]. rewrite Ee4. unfold dir_set. rewrite decide_True by (by rewrite entries_length). f_equal.
  unfold de_inum. rewrite !Hk, !decide_True by lia. f_equal. unfold DIRSIZ. cbn [cstr]. by rewrite Hk, decide_True by lia.
Qed.

Lemma dirlink_exists k s v dp i de name inum j : dir_pre k s v dp i de name →
  dir_find (cstr DIRSIZ (km s) name) (entries v i) = Some j →
  (∃ s' s1, run (dirlink de dp name inum) s (-1) s' ∧ scratch de s s1 ∧ drep (disk s') v ∧ s' = s1 <| icache := icache s' |> ∧
     ∀ q x, icache s !! q = Some x → live x → icache s' !! q = Some x) ∨
  (dirlink de dp name inum s = Panic "iget: no inodes" ∧ ∀ q x, icache s !! q = Some x → live x).
Proof.
  intros Hp Hf. destruct (dirlookup_found k s v dp i de name j Hp Hf) as (e & _ & [(ip & s1 & E & s2 & S2 & R2 & G & Es)|[E Hall]]); [left|right].
  - destruct (got_put s s1 ip e.1 G) as (s3 & E3 & Es3 & Hl). exists s3, s2. split; [unfold dirlink; step_with E; by step_with E3|].
    split; [done|]. rewrite Es3, Es. cbn [disk icache update field_set]. split; [done|]. split; [by destruct s2|done].
  - split; [|done]. unfold dirlink, mbind, ST_bind. by rewrite E.
Qed.
End code.

(** ** Theorems *)

(** C13. [dirlookup] looks a name up in the list of entries of the directory: it
    returns the inode of the first entry in use with that name, with a
    reference, and the offset of the entry, and 0 when there is none; the
    directory stays as it is.  It panics only when every entry of the inode
    cache is in use. *)
Theorem dirlookup_correct {D : Type} `{!LogDisk D} (dev lo hi : Z) `{!LogDiskSpec D dev lo hi} ds k (s : fstate D) v dp i de name :
  dir_pre dev lo hi ds k s v dp i de name →
  match dir_find (cstr DIRSIZ (km s) name) (entries v i) with
  | None => ∃ s', run (dirlookup de dp name) s None s' ∧ scratch de s s' ∧ drep (disk s') v
  | Some j =>
      ∃ e, entries v i !! j = Some e ∧
        ((∃ ip s', run (dirlookup de dp name) s (Some (ip, Z.of_nat j * DIRENT_SIZE)) s' ∧ looked_up dev lo hi s v de e ip s') ∨
         (dirlookup de dp name s = Panic "iget: no inodes" ∧ ∀ q x, icache s !! q = Some x → live x))
  end.
Proof.
  intros Hp. destruct (dir_find _ _) as [j|] eqn:Hf; [by eapply dirlookup_found|]. destruct Hp as [Hi Hd _ Hb Ha].
  destruct (dirlookup_run dev lo hi ds k s v dp i de name Hi Hd Hb Ha) as (s' & S' & R' & E). rewrite Hf in E. by exists s'.
Qed.

(** C12. A directory is a map from names to inodes and [dirlink] inserts into it:
    a new name takes the first unused entry, or one at the end; afterwards it is
    found there with the inode number it was given, every other name is found
    where it was, no name is used twice if none was, and the invariants of the
    directory and the block map hold.  A name that exists is refused with -1; directory and cached inodes stay as they
    are. *)
Theorem dirlink_correct {D : Type} `{!LogDisk D} (dev lo hi : Z) `{!LogDiskSpec D dev lo hi} ds k n (s : fstate D) v dp i de name inum :
  dir_pre dev lo hi ds (9 * wfuel DIRENT_SIZE + (1 + k)) s v dp i de name → has_free (3 * wfuel DIRENT_SIZE + n) (sb s) v →
  inum_ok s i → i_size i + DIRENT_SIZE ≤ MAXBYTES → 0 < inum < 2 ^ 16 →
  let nm := cstr DIRSIZ (km s) name in
  match dir_find nm (entries v i) with
  | Some _ =>
      (∃ s' s1, run (dirlink de dp name inum) s (-1) s' ∧ scratch de s s1 ∧ drep (disk s') v ∧ s' = s1 <| icache := icache s' |> ∧
         ∀ q x, icache s !! q = Some x → live x → icache s' !! q = Some x) ∨
      (dirlink de dp name inum s = Panic "iget: no inodes" ∧ ∀ q x, icache s !! q = Some x → live x)
  | None =>
      ∃ s' v' i', run (dirlink de dp name inum) s 0 s' ∧ dir_pre dev lo hi ds k s' v' dp i' de name ∧ has_free n (sb s') v' ∧
        let j := dir_slot (entries v i) in
        entries v' i' !! j = Some (inum, nm) ∧
        (∀ nm', dir_find nm' (entries v' i') = if decide (nm' = nm) then Some j else dir_find nm' (entries v i)) ∧
        (∀ x, x ≠ j → entries v' i' !! x = entries v i !! x) ∧
        (dir_unique (entries v i) → dir_unique (entries v' i'))
  end.
Proof.
  intros Hp Hn Hino Hmax Hin nm. destruct (dir_find nm (entries v i)) as [j|] eqn:Hf; [by eapply dirlink_exists|].
  destruct (dirlink_new dev lo hi ds k n s v dp i de name inum Hp Hn Hino Hmax Hin Hf) as (s' & v' & i' & E & Hp' & Hn' & Ee & _).
  exists s', v', i'. split; [done|]. split; [done|]. split; [done|]. cbv zeta. rewrite Ee.
  pose proof (dir_slot_le (entries v i)) as Hj. split_and!.
  - by rewrite dir_set_lookup, decide_True.
  - intros nm'. apply dir_find_set; [lia|done].
  - intros x Hx. by rewrite dir_set_lookup, decide_False.
  - by apply dir_unique_set.
Qed.

(** ** An empty directory on the file system of [FsExample], and a name *)

Definition dir_fs : inode := file_fs <| i_type := T_DIR |>.
Definition km_dir : mem := λ a, if a =? 100 then 97 else if a =? 101 then 98 else 0.
Definition fs_dir : fstate (lstate bcache) := fs0 <| icache := dir_fs :: replicate 49 inode0 |> <| km := km_dir |>.

Lemma dir_pre_fs k : (k ≤ 29)%nat → dir_pre 1 2 32 46 k fs_dir view0 0 dir_fs 200 100.
Proof.
  intros Hk. destruct (file_inv_fs k Hk) as [[] _ ? ? ?]. split.
  - by split; [split|..].
  - split; [reflexivity|reflexivity|vm_compute; split; discriminate|cbn; lia|cbn; lia].
  - assert (∀ p i, icache fs_dir !! p = Some i → live i → p = 0%nat) as H.
    { intros [|p] i Hi; [done|]. change (replicate 49 inode0 !! p = Some i) in Hi. apply lookup_replicate in Hi as [-> _]. unfold live. cbn. lia. }
    split.
    + constructor; [done|]. by apply Forall_replicate.
    + intros p q i j Hp Hq Li Lj _ _. by rewrite (H p i Hp Li), (H q j Hq Lj).
  - intros a. cbn [km fs_dir update field_set]. unfold km_dir. repeat case_match; lia.
  - left. vm_compute. discriminate.
Qed.

Lemma dirlink_correct_witness : ∃ s' v' i', run (dirlink 200 0 100 9) fs_dir 0 s' ∧ entries v' i' !! 0%nat = Some (9, [97; 98]).
Proof.
  pose proof (dirlink_correct 1 2 32 46 0 0 fs_dir view0 0 dir_fs 200 100 9) as H. destruct H as (s' & v' & i' & E & _ & _ & Hj & _).
  - apply dir_pre_fs. vm_compute. lia.
  - exact free_fs.
  - unfold inum_ok. cbn. lia.
  - vm_compute. discriminate.
  - lia.
  - exists s', v', i'. split; [exact E|exact Hj].
Defined.

Lemma dirlookup_correct_witness : ∃ s v' i', run (dirlink 200 0 100 9) fs_dir 0 s ∧ dir_find [97; 98] (entries v' i') = Some 0%nat ∧
  ((∃ ip s', run (dirlookup 200 0 100) s (Some (ip, 0)) s') ∨ ∀ q x, icache s !! q = Some x → live x).
Proof.
  destruct (dirlink_new 1 2 32 46 0 0 fs_dir view0 0 dir_fs 200 100 9) as (s & v' & i' & E & Hp & _ & Ee & Hn).
  - apply dir_pre_fs. vm_compute. lia.
  - exact free_fs.
  - unfold inum_ok. cbn. lia.
  - vm_compute. discriminate.
  - lia.
  - reflexivity.
  - exists s, v', i'. split; [exact E|]. assert (dir_find [97; 98] (entries v' i') = Some 0%nat) as Hf by (rewrite Ee; reflexivity).
    split; [exact Hf|]. pose proof (dirlookup_correct 1 2 32 46 0 s v' 0 i' 200 100 Hp) as H. rewrite Hn in H.
    change (cstr DIRSIZ (km fs_dir) 100) with [97; 98] in H. rewrite Hf in H. destruct H as (e & _ & [(ip & s' & E' & _)|[_ Hall]]).
    + left. exists ip, s'. exact E'.
    + right. exact Hall.
Defined.
