(* ===== verification/Pipe.v ===== *)
(** * pipe.c: pipes

    A ring of [PIPESIZE] bytes with free-running 32-bit counters [nread] and
    [nwrite].  [pipewrite] and [piperead] are modelled up to the point where
    the thread would sleep: [PSleep i] is the state in which it waits with its
    loop index [i], and the same definition started at [i] resumes it.  The
    memory of the user process is a partial map from addresses to bytes;
    [copyin] and [copyout] of one byte fail exactly on unmapped addresses.
    The abstract state is the list of bytes in transit. *)

From S2P Require Import Prelude.

Definition PIPESIZE : Z := 512.
Arguments PIPESIZE : simpl never.

Record pipe := Pipe {
  p_data : list Z;
  p_nread : Z;
  p_nwrite : Z;
  p_readopen : bool;
  p_writeopen : bool;
}.
#[export] Instance pipe_fields : Fields pipe := λ p,
  Pipe (p_data p) (p_nread p) (p_nwrite p) (p_readopen p) (p_writeopen p).

Abbreviation umem := (Z → option Z).

Definition copyin (um : umem) (a : Z) : option Z := um a.
Definition copyout (um : umem) (a b : Z) : option umem :=
  match um a with
  | Some _ => Some (λ a', if decide (a' = a) then Some b else um a')
  | None => None
  end.

(** What a call comes to: a return value, or asleep with its loop index. *)
Inductive pres := PRet (r : Z) | PSleep (i : nat).

(** ** Operations *)

(** The part of [pipealloc] that sets up the page it got for the pipe. *)
Definition pipe_init (junk : list Z) : pipe := Pipe junk 0 0 true true.

(** The second component is whether the page of the pipe is freed. *)
Definition pipeclose (writable : bool) (p : pipe) : pipe * bool :=
  let p := if writable then p <| p_writeopen := false |> else p <| p_readopen := false |> in
  (p, negb (p_readopen p) && negb (p_writeopen p)).

Definition push (ch : Z) (p : pipe) : pipe :=
  p <| p_data ::= <[Z.to_nat (p_nwrite p mod PIPESIZE) := ch]> |> <| p_nwrite ::= λ w, u32 (w + 1) |>.

Definition full (p : pipe) : bool := p_nwrite p =? u32 (p_nread p + PIPESIZE).

(** The loop of [pipewrite] from index [i], with [rem = n - i] turns left. *)
Fixpoint pipewrite_from (um : umem) (addr : Z) (killed : bool) (rem i : nat) (p : pipe) : pres * pipe :=
  match rem with
  | O => (PRet (Z.of_nat i), p)
  | S rem' =>
      if full p then
        if negb (p_readopen p) || killed then (PRet (-1), p) else (PSleep i, p)
      else
        match copyin um (addr + Z.of_nat i) with
        | None => (PRet (Z.of_nat i), p)
        | Some ch => pipewrite_from um addr killed rem' (S i) (push ch p)
        end
  end.

Definition pipewrite (um : umem) (addr n : Z) (killed : bool) (p : pipe) : pres * pipe :=
  pipewrite_from um addr killed (Z.to_nat n) 0 p.

Definition front (p : pipe) : Z := default 0 (p_data p !! Z.to_nat (p_nread p mod PIPESIZE)).
Definition pop (p : pipe) : pipe := p <| p_nread ::= λ r, u32 (r + 1) |>.

(** The copying loop of [piperead]. *)
Fixpoint piperead_from (um : umem) (addr : Z) (rem i : nat) (p : pipe) : Z * pipe * umem :=
  match rem with
  | O => (Z.of_nat i, p, um)
  | S rem' =>
      if p_nread p =? p_nwrite p then (Z.of_nat i, p, um)
      else
        match copyout um (addr + Z.of_nat i) (front p) with
        | None => (Z.of_nat i, pop p, um)
        | Some um' => piperead_from um' addr rem' (S i) (pop p)
        end
  end.

Definition piperead (um : umem) (addr n : Z) (killed : bool) (p : pipe) : pres * pipe * umem :=
  if (p_nread p =? p_nwrite p) && p_writeopen p then
    if killed then (PRet (-1), p, um) else (PSleep 0, p, um)
  else
    let '(r, p', um') := piperead_from um addr (Z.to_nat n) 0 p in (PRet r, p', um').

(** ** The bytes in transit *)

Definition fill (p : pipe) : nat := Z.to_nat (u32 (p_nwrite p - p_nread p)).
Definition cell (p : pipe) (k : nat) : Z := default 0 (p_data p !! Z.to_nat ((p_nread p + Z.of_nat k) mod PIPESIZE)).
Definition contents (p : pipe) : list Z := cell p <$> seq 0 (fill p).

Record pipe_ok (p : pipe) : Prop := {
  pk_data : length (p_data p) = Z.to_nat PIPESIZE;
  pk_nread : 0 ≤ p_nread p < 2 ^ 32;
  pk_nwrite : 0 ≤ p_nwrite p < 2 ^ 32;
  pk_fill : u32 (p_nwrite p - p_nread p) ≤ PIPESIZE;
}.

Lemma contents_length p : length (contents p) = fill p.
Proof. unfold contents. by rewrite length_fmap, length_seq. Qed.

(** 512 divides 2^32, so the ring position survives the wrap of a counter. *)
Lemma u32_mod_size z : u32 z mod PIPESIZE = z mod PIPESIZE.
Proof. unfold u32, PIPESIZE. apply Z.mod_mod_divide. by exists (2 ^ 23). Qed.

Lemma full_fill p : pipe_ok p → full p = true ↔ Z.of_nat (fill p) = PIPESIZE.
Proof.
  intros [? ? ? Hf]. unfold full, fill. pose proof (u32_range (p_nwrite p - p_nread p)).
  unfold u32, PIPESIZE in *. rewrite Z.eqb_eq. Z.to_euclidean_division_equations. lia.
Qed.

Lemma empty_fill p : pipe_ok p → p_nread p =? p_nwrite p = true ↔ fill p = 0%nat.
Proof.
  intros [? ? ? Hf]. unfold fill. pose proof (u32_range (p_nwrite p - p_nread p)).
  unfold u32, PIPESIZE in *. rewrite Z.eqb_eq. Z.to_euclidean_division_equations. lia.
Qed.

(** The position of the [f]-th byte past [nread], [f] the fill, is [nwrite]'s. *)
Lemma nwrite_pos p : p_nwrite p mod PIPESIZE = (p_nread p + Z.of_nat (fill p)) mod PIPESIZE.
Proof.
  unfold fill. rewrite Z2Nat.id by apply u32_range.
  rewrite <- Zplus_mod_idemp_r, u32_mod_size, Zplus_mod_idemp_r. f_equal. lia.
Qed.

Lemma pos_ne a k f : 0 ≤ k < f → f < PIPESIZE → (a + k) mod PIPESIZE ≠ (a + f) mod PIPESIZE.
Proof. unfold PIPESIZE. intros. Z.to_euclidean_division_equations. lia. Qed.

Lemma push_ok p ch : pipe_ok p → full p = false → pipe_ok (push ch p) ∧ contents (push ch p) = contents p ++ [ch].
Proof.
  intros Hok Hnf. pose proof (full_fill p Hok) as Hff. pose proof Hok as [Hd Hr Hw Hf].
  assert (Z.of_nat (fill p) < PIPESIZE) as Hlt.
  { rewrite Hnf in Hff. unfold fill in *. pose proof (u32_range (p_nwrite p - p_nread p)). naive_solver lia. }
  assert (u32 (u32 (p_nwrite p + 1) - p_nread p) = u32 (p_nwrite p - p_nread p) + 1) as Eu.
  { rewrite u32_sub_idemp. unfold fill in Hlt. pose proof (u32_range (p_nwrite p - p_nread p)).
    unfold u32, PIPESIZE in *. Z.to_euclidean_division_equations. lia. }
  split.
  - split; cbn [push p_data p_nread p_nwrite update field_set].
    + by rewrite length_insert.
    + done.
    + apply u32_range.
    + rewrite Eu. unfold fill in Hlt. pose proof (u32_range (p_nwrite p - p_nread p)). lia.
  - unfold contents. assert (fill (push ch p) = fill p + 1)%nat as ->.
    { unfold fill. cbn [push p_nread p_nwrite update field_set]. rewrite Eu.
      pose proof (u32_range (p_nwrite p - p_nread p)). lia. }
    rewrite seq_app, fmap_app. f_equal.
    + apply list_fmap_ext. intros i k Hk%lookup_seq. unfold cell. cbn [push p_data p_nread update field_set].
      rewrite list_lookup_insert_ne; [done|]. rewrite nwrite_pos.
      pose proof (pos_ne (p_nread p) (Z.of_nat k) (Z.of_nat (fill p))).
      pose proof (Z.mod_pos_bound (p_nread p + Z.of_nat k) PIPESIZE ltac:(done)).
      pose proof (Z.mod_pos_bound (p_nread p + Z.of_nat (fill p)) PIPESIZE ltac:(done)). lia.
    + cbn [fmap list_fmap]. unfold cell. cbn [push p_data p_nread update field_set plus seq].
      rewrite nwrite_pos. cbn. rewrite list_lookup_insert_eq; [done|]. rewrite Hd.
      pose proof (Z.mod_pos_bound (p_nread p + Z.of_nat (fill p)) PIPESIZE ltac:(done)). lia.
Qed.

Lemma pop_ok p : pipe_ok p → p_nread p ≠ p_nwrite p → pipe_ok (pop p) ∧ contents p = front p :: contents (pop p).
Proof.
  intros Hok Hne. pose proof (empty_fill p Hok) as Hff. pose proof Hok as [Hd Hr Hw Hf].
  assert (fill p ≠ 0%nat) as Hnz by (rewrite <- Hff, Z.eqb_eq; done).
  assert (u32 (p_nwrite p - u32 (p_nread p + 1)) = u32 (p_nwrite p - p_nread p) - 1) as Eu.
  { unfold fill in Hnz. pose proof (u32_range (p_nwrite p - p_nread p)).
    unfold u32, PIPESIZE in *. Z.to_euclidean_division_equations. lia. }
  assert (fill p = S (fill (pop p))) as Ef.
  { unfold fill in *. cbn [pop p_nread p_nwrite update field_set]. rewrite Eu. lia. }
  split.
  - split; cbn [pop p_data p_nread p_nwrite update field_set]; [done|apply u32_range|done|lia].
  - unfold contents. rewrite Ef. cbn [seq fmap list_fmap]. f_equal.
    + unfold cell, front. by rewrite Z.add_0_r.
    + rewrite <- fmap_S_seq, <- list_fmap_compose. apply list_fmap_ext. intros i k _. unfold cell, compose.
      cbn [pop p_data p_nread update field_set].
      rewrite <- (Zplus_mod_idemp_l (u32 _)), u32_mod_size, Zplus_mod_idemp_l. do 4 f_equal. lia.
Qed.

(** ** The calls on the byte stream *)

(** The bytes at [addr], [addr + 1], ... of a user memory. *)
Definition ubytes (um : umem) (addr : Z) (n : nat) : list Z :=
  (λ k, default 0 (um (addr + Z.of_nat k))) <$> seq 0 n.

Lemma ubytes_S um addr n : ubytes um addr (S n) = default 0 (um addr) :: ubytes um (addr + 1) n.
Proof.
  unfold ubytes. cbn [seq fmap list_fmap]. rewrite Z.add_0_r. f_equal.
  rewrite <- fmap_S_seq, <- list_fmap_compose. apply list_fmap_ext. intros i k _. unfold compose.
  do 2 f_equal. lia.
Qed.

(** [pipewrite] from any index it may have slept at appends the next bytes of
    the caller's buffer, and stops only because the buffer is done, an address
    is unmapped, or the pipe is full. *)
Lemma pipewrite_from_spec um addr killed rem i p r p' :
  pipe_ok p → pipewrite_from um addr killed rem i p = (r, p') →
  ∃ k, (k ≤ rem)%nat ∧ pipe_ok p' ∧ contents p' = contents p ++ ubytes um (addr + Z.of_nat i) k ∧
    p_readopen p' = p_readopen p ∧ p_writeopen p' = p_writeopen p ∧ p_nread p' = p_nread p ∧
    match r with
    | PRet v =>
        (v = Z.of_nat (i + k) ∧ (k = rem ∨ um (addr + Z.of_nat (i + k)) = None)) ∨
        (v = -1 ∧ (k < rem)%nat ∧ length (contents p') = Z.to_nat PIPESIZE ∧ (p_readopen p = false ∨ killed = true))
    | PSleep j =>
        j = (i + k)%nat ∧ (k < rem)%nat ∧ length (contents p') = Z.to_nat PIPESIZE ∧
        p_readopen p = true ∧ killed = false
    end.
Proof.
  revert i p. induction rem as [|rem IH]; intros i p Hok E; cbn [pipewrite_from] in E.
  - injection E as <- <-. exists 0%nat. rewrite app_nil_r, Nat.add_0_r. naive_solver.
  - destruct (full p) eqn:Hfull.
    + assert (length (contents p) = Z.to_nat PIPESIZE) as Hlen.
      { rewrite contents_length. apply full_fill in Hfull; [lia|done]. }
      exists 0%nat. cbn [ubytes seq fmap list_fmap]. rewrite app_nil_r, Nat.add_0_r.
      destruct (p_readopen p) eqn:Hro, killed; cbn in E; injection E as <- <-; split_and!; try done; try lia;
        right; split_and!; (done || lia || naive_solver).
    + unfold copyin in E. destruct (um (addr + Z.of_nat i)) as [ch|] eqn:Hum.
      * destruct (push_ok p ch Hok Hfull) as [Hok' Hc].
        destruct (IH (S i) (push ch p) Hok' E) as (k & Hk & Hok2 & Hc2 & Hro & Hwo & Hnr & Hr).
        exists (S k). rewrite Hc, <- app_assoc in Hc2. rewrite ubytes_S, Hum.
        replace (addr + Z.of_nat (S i)) with (addr + Z.of_nat i + 1) in Hc2 by lia.
        replace (i + S k)%nat with (S i + k)%nat by lia.
        split_and!; [lia|done|done|done..|]. destruct r; naive_solver lia.
      * injection E as <- <-. exists 0%nat. rewrite app_nil_r, Nat.add_0_r. naive_solver lia.
Qed.

(** The copying loop hands out the oldest bytes in order.  A byte that cannot
    be stored has already left the pipe and is lost. *)
Lemma piperead_from_spec um addr rem i p r p' um' :
  pipe_ok p → piperead_from um addr rem i p = (r, p', um') →
  ∃ k, r = Z.of_nat (i + k) ∧ (k ≤ rem)%nat ∧ pipe_ok p' ∧ p_nwrite p' = p_nwrite p ∧
    ubytes um' (addr + Z.of_nat i) k = take k (contents p) ∧
    (∀ a, a < addr + Z.of_nat i ∨ addr + Z.of_nat (i + k) ≤ a → um' a = um a) ∧
    ((contents p' = drop k (contents p) ∧ (k = rem ∨ contents p' = [])) ∨
     (contents p' = drop (S k) (contents p) ∧ (k < length (contents p))%nat ∧ (k < rem)%nat ∧ um (addr + Z.of_nat (i + k)) = None)).
Proof.
  revert i p um. induction rem as [|rem IH]; intros i p um Hok E; cbn [piperead_from] in E.
  - injection E as <- <- <-. exists 0%nat. rewrite Nat.add_0_r. split_and!; try done. left. split; [done|by left].
  - destruct (p_nread p =? p_nwrite p) eqn:He.
    + injection E as <- <- <-. exists 0%nat. rewrite Nat.add_0_r.
      split_and!; try done; try lia. left. split; [done|right].
      apply empty_fill in He; [|done]. apply length_zero_iff_nil. by rewrite contents_length.
    + apply Z.eqb_neq in He. destruct (pop_ok p Hok He) as [Hok' Hc]. unfold copyout in E.
      destruct (um (addr + Z.of_nat i)) as [b|] eqn:Hum.
      * set (um1 := λ a', if decide (a' = addr + Z.of_nat i) then Some (front p) else um a') in E.
        destruct (IH (S i) (pop p) um1 Hok' E) as (k & Hr & Hk & Hok2 & Hwo & Hb & Hout & Hrest).
        exists (S k). rewrite Hc, ubytes_S. replace (i + S k)%nat with (S i + k)%nat by lia.
        replace (addr + Z.of_nat i + 1) with (addr + Z.of_nat (S i)) by lia.
        split_and!; [done|lia|done|done|..].
        -- cbn [take]. f_equal; [|done]. rewrite Hout by lia. unfold um1. by rewrite decide_True.
        -- intros a Ha. rewrite Hout by lia. unfold um1. by rewrite decide_False by lia.
        -- cbn [drop length]. destruct Hrest as [[H1 H2]|(H1 & H2 & H4 & H3)]; [left|right].
           ++ naive_solver.
           ++ split_and!; [done|lia|lia|]. unfold um1 in H3. by case_decide.
      * injection E as <- <- <-. exists 0%nat. rewrite Nat.add_0_r, Hc. cbn [take drop length].
        split_and!; try done; try lia. right. split_and!; [done|lia|lia|done].
Qed.

(** ** The pipe as a stream between processes *)

(** What a call of [piperead] took from the pipe: the bytes that are in its
    caller's buffer afterwards, and bytes removed beyond those it reported;
    [d_fault] tells that the address after the reported bytes is not mapped. *)
Record delivery := Delivery { d_got : list Z; d_lost : list Z; d_fault : bool }.

Definition taken (d : delivery) : list Z := d_got d ++ d_lost d.

Definition delivered (um um' : umem) (addr r : Z) (p p' : pipe) : delivery :=
  Delivery (ubytes um' addr (Z.to_nat r))
    (drop (Z.to_nat r) (take (Z.to_nat (u32 (p_nread p' - p_nread p))) (contents p)))
    (bool_decide (um (addr + r) = None)).

(** A run of a writer (from the start or woken from its sleep), a run of a
    reader, or a close, by any process with any buffer; with the bytes written
    to the pipe and what the reads took from it. *)
Inductive pipe_step : pipe * list Z * list delivery → pipe * list Z * list delivery → Prop :=
| ps_write um addr killed rem i p r p' W R :
    pipewrite_from um addr killed rem i p = (r, p') →
    pipe_step (p, W, R) (p', W ++ ubytes um (addr + Z.of_nat i) (Z.to_nat (u32 (p_nwrite p' - p_nwrite p))), R)
| ps_read um addr n killed p r p' um' W R :
    piperead um addr n killed p = (PRet r, p', um') →
    pipe_step (p, W, R) (p', W, R ++ [delivered um um' addr r p p'])
| ps_sleep um addr n killed p j p' um' W R :
    piperead um addr n killed p = (PSleep j, p', um') → pipe_step (p, W, R) (p', W, R)
| ps_close writable p p' b W R :
    pipeclose writable p = (p', b) → pipe_step (p, W, R) (p', W, R).

Lemma fill_nwrite p p' k :
  pipe_ok p → pipe_ok p' → p_nread p' = p_nread p → fill p' = (fill p + k)%nat →
  Z.to_nat (u32 (p_nwrite p' - p_nwrite p)) = k.
Proof.
  intros [? ? ? H1] [? ? ? H2] E Hf. unfold fill in Hf. rewrite E in Hf, H2.
  pose proof (u32_range (p_nwrite p - p_nread p)). pose proof (u32_range (p_nwrite p' - p_nread p)).
  unfold u32, PIPESIZE in *. Z.to_euclidean_division_equations. lia.
Qed.

Lemma fill_nread p p' k :
  pipe_ok p → pipe_ok p' → p_nwrite p' = p_nwrite p → fill p = (fill p' + k)%nat →
  Z.to_nat (u32 (p_nread p' - p_nread p)) = k.
Proof.
  intros [? ? ? H1] [? ? ? H2] E Hf. unfold fill in Hf. rewrite E in Hf, H2.
  pose proof (u32_range (p_nwrite p - p_nread p)). pose proof (u32_range (p_nwrite p - p_nread p')).
  unfold u32, PIPESIZE in *. Z.to_euclidean_division_equations. lia.
Qed.

(** A read takes the oldest bytes.  It reports all of them, except that the
    byte it could not store is gone. *)
Lemma piperead_delivers um addr n killed p r p' um' :
  pipe_ok p → piperead um addr n killed p = (PRet r, p', um') →
  let d := delivered um um' addr r p p' in
  pipe_ok p' ∧ contents p = taken d ++ contents p' ∧
  (length (d_lost d) ≤ 1)%nat ∧ (d_lost d ≠ [] → d_fault d = true ∧ 0 ≤ r < n).
Proof.
  intros Hok E d. unfold piperead in E. destruct (_ && _).
  { destruct killed; [|done]. injection E as <- <- <-. unfold d, delivered, taken. rewrite Z.sub_diag. change (Z.to_nat (u32 0)) with 0%nat. cbn.
    change (Z.to_nat (-1)) with 0%nat. split_and!; [done|done|simpl; lia|by intros []]. }
  destruct (piperead_from um addr (Z.to_nat n) 0 p) as [[r1 p1] um1] eqn:E1. injection E as <- <- <-.
  destruct (piperead_from_spec _ _ _ _ _ _ _ _ Hok E1) as (k & -> & Hk & Hok' & Hnw & Hb & _ & Hrest).
  rewrite Z.add_0_r in Hb. cbn [plus] in *. split; [done|]. unfold d, delivered, taken. cbn [d_got d_lost d_fault].
  rewrite !Nat2Z.id, Hb. assert (length (take k (contents p)) = k) as Hlen.
  { rewrite <- Hb. unfold ubytes. by rewrite length_fmap, length_seq. }
  rewrite length_take in Hlen. destruct Hrest as [[Hc _]|(Hc & Hlt & Hrem & Hnone)].
  - rewrite (fill_nread p p1 k) by (try done; rewrite <- !contents_length, Hc, length_drop; lia).
    rewrite drop_ge by (rewrite length_take; lia). rewrite app_nil_r, Hc, take_drop. split_and!; [done|simpl; lia|done].
  - rewrite (fill_nread p p1 (S k)) by (try done; rewrite <- !contents_length, Hc, length_drop; lia).
    split_and!.
    + rewrite <- (take_drop (S k) (contents p)) at 1. rewrite Hc. f_equal.
      rewrite <- (take_drop k (take (S k) (contents p))) at 1. by rewrite take_take, Nat.min_l by lia.
    + rewrite length_drop, length_take. lia.
    + intros _. rewrite bool_decide_true by done. split; [done|lia].
Qed.

Lemma pipeclose_same writable p p' b :
  pipeclose writable p = (p', b) → (pipe_ok p → pipe_ok p') ∧ contents p' = contents p.
Proof.
  unfold pipeclose. intros [= <- _]. destruct writable; (split; [intros [? ? ? ?]; by split|done]).
Qed.

(** What holds of a pipe with the bytes [W] written to it and the reads [R]. *)
Definition stream_ok (x : pipe * list Z * list delivery) : Prop :=
  let '(p, W, R) := x in
  pipe_ok p ∧ W = (R ≫= taken) ++ contents p ∧
  Forall (λ d, (length (d_lost d) ≤ 1)%nat ∧ (d_lost d ≠ [] → d_fault d = true)) R.

Lemma pipe_step_stream x y : stream_ok x → pipe_step x y → stream_ok y.
Proof.
  intros H Hs. destruct Hs as [um addr killed rem i p r p' W R E|um addr n killed p r p' um' W R E|um addr n killed p j p' um' W R E
    |writable p p' b W R E]; destruct H as (Hok & HW & HR).
  - destruct (pipewrite_from_spec _ _ _ _ _ _ _ _ Hok E) as (k & Hk & Hok' & Hc & _ & _ & Hnr & _).
    split; [done|]. split; [|done]. rewrite (fill_nwrite p p' k); [by rewrite Hc, app_assoc, HW|done..|].
    rewrite <- !contents_length, Hc, length_app. unfold ubytes. by rewrite length_fmap, length_seq.
  - destruct (piperead_delivers _ _ _ _ _ _ _ _ Hok E) as (Hok' & Hc & Hl & Hf). cbv zeta in Hc, Hl, Hf. split; [done|]. split.
    + rewrite HW, Hc, bind_app. cbn [mbind list_bind]. by rewrite app_nil_r, <- app_assoc.
    + apply Forall_app. split; [done|]. apply Forall_singleton. split; [done|]. intros Hne. by apply Hf.
  - unfold piperead in E. destruct (_ && _); [destruct killed; [done|]; by injection E as _ <- _|].
    by destruct (piperead_from um addr (Z.to_nat n) 0 p) as [[r1 p1] um1].
  - apply pipeclose_same in E as [? Ec]. split; [naive_solver|]. by rewrite Ec.
Qed.

(** C24. A pipe is a FIFO byte stream: however writers, readers and closes
    interleave, with whatever buffers, and however often the 32-bit counters
    wrap, the bytes written are those the reads took, in the order of the reads,
    followed by the at most [PIPESIZE] bytes in transit.  A read takes the bytes
    it leaves in its caller's buffer, and nothing else, except when that buffer
    is not mapped where it stops: then one further byte may be lost. *)
Theorem pipe_stream junk p W R :
  length junk = Z.to_nat PIPESIZE → rtc pipe_step (pipe_init junk, [], []) (p, W, R) →
  W = (R ≫= λ d, d_got d ++ d_lost d) ++ contents p ∧ (length (contents p) ≤ Z.to_nat PIPESIZE)%nat ∧
  Forall (λ d, (length (d_lost d) ≤ 1)%nat ∧ (d_lost d ≠ [] → d_fault d = true)) R.
Proof.
  intros Hj H.
  assert (stream_ok (p, W, R)) as (Hok & HW & HR).
  { eapply (rtc_invariant _ stream_ok); [exact pipe_step_stream| |exact H]. split; [by split|]. by split. }
  split; [done|]. split; [|done]. rewrite contents_length. unfold fill. destruct Hok as [_ _ _ Hf]. cbn in Hf. lia.
Qed.

(** [pipewrite] of a mapped buffer: when the bytes fit it writes them all
    and returns their number; otherwise it fills the pipe and then sleeps,
    remembering how far it got, or returns -1 when the reading end is closed
    or the process was killed. *)
Theorem pipewrite_outcome um addr n killed p :
  let free := (Z.to_nat PIPESIZE - length (contents p))%nat in
  pipe_ok p → (∀ k, 0 ≤ k < n → um (addr + k) ≠ None) →
  ∃ p', pipe_ok p' ∧
    pipewrite um addr n killed p =
      (if (Z.to_nat n <=? free)%nat then PRet (Z.of_nat (Z.to_nat n))
       else if p_readopen p && negb killed then PSleep free else PRet (-1), p') ∧
    contents p' = contents p ++ ubytes um addr (Nat.min (Z.to_nat n) free).
Proof.
  intros free Hok Hm. destruct (pipewrite um addr n killed p) as [r p'] eqn:E. exists p'.
  destruct (pipewrite_from_spec _ _ _ _ _ _ _ _ Hok E) as (k & Hk & Hok' & Hc & _ & _ & _ & Hr).
  rewrite Z.add_0_r in Hc. split; [done|].
  assert (length (contents p') = length (contents p) + k)%nat as Hlen.
  { rewrite Hc, length_app. unfold ubytes. by rewrite length_fmap, length_seq. }
  assert (length (contents p') ≤ Z.to_nat PIPESIZE)%nat as Hmax.
  { rewrite contents_length. unfold fill. destruct Hok' as [_ _ _ Hf]. lia. }
  cbn [plus] in Hr. rewrite Hc. destruct r as [v|j].
  - destruct Hr as [[-> Hstop]|(-> & Hlt & Hfull & Hwhy)].
    + assert (k = Z.to_nat n) as ->.
      { destruct Hstop as [|Hn]; [done|]. destruct (decide (k = Z.to_nat n)); [done|].
        exfalso. apply (Hm (Z.of_nat k)); [lia|done]. }
      destruct (Nat.leb_spec (Z.to_nat n) free); [|lia]. split; [done|]. by rewrite Nat.min_l.
    + destruct (Nat.leb_spec (Z.to_nat n) free); [lia|]. rewrite Nat.min_r by lia.
      replace k with free by lia. split; [|done]. destruct Hwhy as [-> | ->]; [done|by rewrite andb_false_r].
  - destruct Hr as (-> & Hlt & Hfull & -> & ->).
    destruct (Nat.leb_spec (Z.to_nat n) free); [lia|]. rewrite Nat.min_r by lia. by replace k with free by lia.
Qed.

(** [piperead] into a mapped buffer: on an empty pipe that may still be
    written it sleeps (or returns -1 when killed); otherwise it moves the
    oldest bytes, as many as are there and asked for, into the buffer and
    returns their number, 0 at the end of the stream. *)
Theorem piperead_outcome um addr n killed p :
  let k := Nat.min (Z.to_nat n) (length (contents p)) in
  pipe_ok p → (∀ k, 0 ≤ k < n → um (addr + k) ≠ None) →
  (contents p = [] → p_writeopen p = true →
     piperead um addr n killed p = (if killed then PRet (-1) else PSleep 0, p, um)) ∧
  (contents p ≠ [] ∨ p_writeopen p = false →
     ∃ p' um', piperead um addr n killed p = (PRet (Z.of_nat k), p', um') ∧ pipe_ok p' ∧
       contents p' = drop k (contents p) ∧ ubytes um' addr k = take k (contents p) ∧
       ∀ a, a < addr ∨ addr + Z.of_nat k ≤ a → um' a = um a).
Proof.
  intros k Hok Hm. unfold piperead.
  assert ((p_nread p =? p_nwrite p) = true ↔ contents p = []) as He.
  { rewrite empty_fill by done. rewrite <- contents_length. apply length_zero_iff_nil. }
  split.
  - intros Hc Hwo. apply He in Hc as ->. rewrite Hwo. by destruct killed.
  - intros Hne. assert ((p_nread p =? p_nwrite p) && p_writeopen p = false) as ->.
    { destruct (p_nread p =? p_nwrite p) eqn:E; [|done]. destruct Hne as [Hne| ->]; [by destruct Hne; apply He|done]. }
    destruct (piperead_from um addr (Z.to_nat n) 0 p) as [[r1 p1] um1] eqn:E1.
    destruct (piperead_from_spec _ _ _ _ _ _ _ _ Hok E1) as (j & -> & Hj & Hok' & _ & Hb & Hout & Hrest).
    rewrite Z.add_0_r in Hb, Hout. cbn [plus] in *. exists p1, um1.
    destruct Hrest as [[Hc Hstop]|(_ & _ & Hlt & Hnone)]; [|by destruct (Hm (Z.of_nat j)); [lia|]].
    assert (length (take j (contents p)) = j) as Hlen by (rewrite <- Hb; unfold ubytes; by rewrite length_fmap, length_seq).
    rewrite length_take in Hlen.
    assert (j = k) as ->.
    { destruct Hstop as [->|Hz]; [lia|]. rewrite Hc in Hz. apply (f_equal length) in Hz.
      rewrite length_drop in Hz. simpl in Hz. lia. }
    split_and!; try done. 
Qed.

(** ** A concrete pipe *)

(** Five bytes [10 .. 14] at address 64; everything else unmapped. *)
Definition um_ex : umem := λ a, if (64 <=? a) && (a <? 69) then Some (a - 54) else None.
Definition p_new : pipe := pipe_init (replicate 512 7).
Definition p_five : pipe := (pipewrite um_ex 64 5 false p_new).2.

Lemma p_new_ok : pipe_ok p_new.
Proof. by split. Qed.

Lemma um_ex_mapped k : 0 ≤ k < 5 → um_ex (64 + k) ≠ None.
Proof. intros Hk. unfold um_ex. destruct (Z.leb_spec 64 (64 + k)), (Z.ltb_spec (64 + k) 69); simpl; (done || lia). Qed.

(** Two bytes are read into a buffer of which only the first byte is mapped: the
    second is lost. *)
Definition um_one : umem := λ a, if a =? 64 then Some 0 else None.
Definition p_lossy : pipe := (piperead um_one 64 2 false p_five).1.2.

Lemma pipe_stream_witness : [10; 11; 12; 13; 14] = ([10] ++ [11]) ++ contents p_lossy.
Proof.
  refine (proj1 (pipe_stream (replicate 512 7) p_lossy [10; 11; 12; 13; 14] [Delivery [10] [11] true] _ _)); [reflexivity|].
  eapply rtc_l; [exact (ps_write um_ex 64 false 5 0 p_new (PRet 5) p_five [] [] eq_refl)|].
  eapply rtc_l; [exact (ps_read um_one 64 2 false p_five 1 p_lossy _ _ [] eq_refl)|]. apply rtc_refl.
Defined.

Lemma pipewrite_outcome_witness :
  ∃ p', pipewrite um_ex 64 5 false p_new = (PRet 5, p') ∧ contents p' = [10; 11; 12; 13; 14].
Proof.
  destruct (pipewrite_outcome um_ex 64 5 false p_new p_new_ok um_ex_mapped) as (p' & _ & E & Hc).
  exists p'. split; [exact E|exact Hc].
Defined.

Lemma p_five_ok : pipe_ok p_five.
Proof. split; vm_compute; (reflexivity || by split || done). Qed.

Lemma piperead_outcome_witness :
  ∃ p' um', piperead um_ex 64 2 false p_five = (PRet 2, p', um') ∧ contents p' = [12; 13; 14].
Proof.
  destruct (piperead_outcome um_ex 64 2 false p_five p_five_ok) as [_ H].
  - intros k Hk. apply um_ex_mapped. lia.
  - destruct H as (p' & um' & E & _ & Hc & _); [left; vm_compute; discriminate|].
    exists p', um'. split; [exact E|exact Hc].
Defined.
