(* ===== verification/Uart.v ===== *)
(** * uart.c: the serial port

    The transmit ring between the processes that write and the port.  What the
    line status register answers is a parameter: [room] is how often it says
    idle before it says busy.  The flag [panicked], after which every writer
    spins for ever, is not modelled: the kernel has not panicked. *)

From S2P Require Import Prelude.

Definition UART_TX_BUF_SIZE : Z := 32.
Arguments UART_TX_BUF_SIZE : simpl never.

(** [u_sent] is what was written to the transmit holding register. *)
Record uart := Uart { u_buf : list Z; u_w : Z; u_r : Z; u_sent : list Z }.
#[export] Instance uart_fields : Fields uart := λ u, Uart (u_buf u) (u_w u) (u_r u) (u_sent u).

(** [uartstart] when the line status says idle for the next [room] bytes. *)
Fixpoint uartstart (room : nat) (u : uart) : uart :=
  if u_w u =? u_r u then u
  else
    match room with
    | O => u
    | S room' =>
        uartstart room' (u <| u_r ::= λ r, (r + 1) mod UART_TX_BUF_SIZE |>
          <| u_sent ::= λ l, l ++ [default 0 (u_buf u !! Z.to_nat (u_r u))] |>)
    end.

Definition uart_full (u : uart) : bool := (u_w u + 1) mod UART_TX_BUF_SIZE =? u_r u.

(** [uartputc] of a process that holds no other spin lock; [None] when it sleeps. *)
Definition uartputc (room : nat) (c : Z) (u : uart) : option uart :=
  if uart_full u then None
  else Some (uartstart room (u <| u_buf ::= <[Z.to_nat (u_w u) := u8 c]> |> <| u_w ::= λ w, (w + 1) mod UART_TX_BUF_SIZE |>)).

(** ** Rings of bytes: [n] of them from index [i] of a buffer of size [N] *)

Definition ring (N : Z) (b : list Z) (i : Z) (n : nat) : list Z :=
  (λ j, default 0 (b !! Z.to_nat ((i + Z.of_nat j) mod N))) <$> seq 0 n.

Lemma ring_length N b i n : length (ring N b i n) = n.
Proof. unfold ring. by rewrite length_fmap, length_seq. Qed.

Lemma ring_mod N b i j n : i mod N = j mod N → ring N b i n = ring N b j n.
Proof. intros E. apply list_fmap_ext. intros x k _. do 3 f_equal. by rewrite <-Zplus_mod_idemp_l, E, Zplus_mod_idemp_l. Qed.

Lemma ring_app N b i n m : ring N b i (n + m) = ring N b i n ++ ring N b (i + Z.of_nat n) m.
Proof.
  unfold ring. rewrite seq_app, fmap_app. f_equal. cbn [plus]. rewrite <-(Nat.add_0_r n) at 1. rewrite <-fmap_add_seq, <-list_fmap_compose.
  apply list_fmap_ext. intros j k _. cbn. do 4 f_equal. lia.
Qed.

(** A byte written behind the first [n] does not change them. *)
Lemma ring_put N b i n m j c : (n ≤ m)%nat → Z.of_nat m < N → j mod N = (i + Z.of_nat m) mod N →
  ring N (<[Z.to_nat (j mod N) := c]> b) i n = ring N b i n.
Proof.
  intros Hn Hm ->. apply list_fmap_ext. intros x k Hk%lookup_seq. rewrite list_lookup_insert_ne; [done|]. intros E.
  assert (HN : 0 < N) by lia. apply Z2Nat.inj in E; [|apply Z.mod_pos_bound; lia..].
  assert (Hz : (Z.of_nat m - Z.of_nat k) mod N = 0); [|rewrite Z.mod_small in Hz; lia].
  replace (Z.of_nat m - Z.of_nat k) with ((i + Z.of_nat m) - (i + Z.of_nat k)) by lia.
  by rewrite Zminus_mod, E, Z.sub_diag.
Qed.

(** ** The transmit ring is a queue *)

Record uart_ok (u : uart) : Prop := UartOk {
  uk_buf : length (u_buf u) = 32%nat;
  uk_w : 0 ≤ u_w u < 32;
  uk_r : 0 ≤ u_r u < 32;
}.
Definition npending (u : uart) : nat := Z.to_nat ((u_w u - u_r u) mod UART_TX_BUF_SIZE).
Definition tx_pending (u : uart) : list Z := ring UART_TX_BUF_SIZE (u_buf u) (u_r u) (npending u).

Ltac slots := unfold npending, UART_TX_BUF_SIZE in *; cbn [u_buf u_w u_r u_sent update field_set] in *;
  Z.to_euclidean_division_equations; lia.

Lemma tx_pending_length u : length (tx_pending u) = npending u.
Proof. apply ring_length. Qed.

Lemma uart_empty u : uart_ok u → (u_w u =? u_r u) = bool_decide (npending u = 0%nat).
Proof. intros []. destruct (Z.eqb_spec (u_w u) (u_r u)); symmetry; [apply bool_decide_true|apply bool_decide_false]; slots. Qed.

Lemma uart_full_iff u : uart_ok u → uart_full u = bool_decide (npending u = 31%nat).
Proof.
  intros []. unfold uart_full. destruct (Z.eqb_spec ((u_w u + 1) mod UART_TX_BUF_SIZE) (u_r u)); symmetry;
    [apply bool_decide_true|apply bool_decide_false]; slots.
Qed.

(** The port takes the oldest bytes, as many as it has room for. *)
Lemma uartstart_fifo room u : uart_ok u →
  uart_ok (uartstart room u) ∧ u_sent (uartstart room u) ++ tx_pending (uartstart room u) = u_sent u ++ tx_pending u ∧
  length (tx_pending (uartstart room u)) = (length (tx_pending u) - room)%nat.
Proof.
  revert u. induction room as [|room IH]; intros u Hu; cbn [uartstart]; rewrite (uart_empty u Hu).
  { case_bool_decide; by rewrite Nat.sub_0_r. }
  case_bool_decide as Hn; [split_and!; [done..|]; rewrite tx_pending_length; lia|].
  set (u1 := u <| u_r ::= _ |> <| u_sent ::= _ |>). destruct Hu as [Hb Hw Hr].
  assert (Hu1 : uart_ok u1) by (constructor; cbn; [done|done|apply Z.mod_pos_bound; unfold UART_TX_BUF_SIZE; lia]).
  assert (Hne : npending u = (1 + npending u1)%nat) by (unfold u1; slots).
  destruct (IH u1 Hu1) as (H1 & H2 & H3). split_and!; [done| |].
  - rewrite H2. unfold u1 at 1. cbn [u_sent update field_set]. rewrite <-app_assoc. f_equal. unfold tx_pending. rewrite Hne, ring_app.
    cbn [ring seq fmap list_fmap app]. rewrite Z.add_0_r, Z.mod_small by (unfold UART_TX_BUF_SIZE; lia). f_equal.
    apply ring_mod. cbn. apply Zmod_mod.
  - rewrite H3, !tx_pending_length. lia.
Qed.

(** [uartputc] sleeps exactly when 31 bytes wait; otherwise the byte is behind
    everything written before. *)
Lemma uartputc_fifo room c u : uart_ok u →
  match uartputc room c u with
  | None => length (tx_pending u) = 31%nat
  | Some u' => uart_ok u' ∧ u_sent u' ++ tx_pending u' = u_sent u ++ tx_pending u ++ [u8 c]
  end.
Proof.
  intros Hu. unfold uartputc. rewrite (uart_full_iff u Hu), tx_pending_length. case_bool_decide as Hn; [done|].
  pose proof Hu as [Hb Hw Hr]. set (u1 := u <| u_buf ::= _ |> <| u_w ::= _ |>).
  assert (Hu1 : uart_ok u1).
  { constructor; cbn; [by rewrite length_insert|apply Z.mod_pos_bound; unfold UART_TX_BUF_SIZE; lia|done]. }
  assert (Hne : npending u1 = (npending u + 1)%nat) by (unfold u1; slots).
  assert (Hpos : (u_r u + Z.of_nat (npending u)) mod UART_TX_BUF_SIZE = u_w u mod UART_TX_BUF_SIZE) by slots.
  destruct (uartstart_fifo room u1 Hu1) as (H1 & H2 & _). split; [done|]. rewrite H2. cbn. f_equal. unfold tx_pending.
  rewrite Hne, ring_app. cbn [u1 u_buf u_r update field_set].
  rewrite <-(Z.mod_small (u_w u) UART_TX_BUF_SIZE) by (unfold UART_TX_BUF_SIZE; lia). f_equal.
  - apply (ring_put _ _ _ _ (npending u)); [lia|unfold UART_TX_BUF_SIZE; slots|done].
  - cbn. rewrite Z.add_0_r, Hpos, list_lookup_insert_eq; [done|]. rewrite Hb. slots.
Qed.
