(* ===== verification/Console.v ===== *)
(** * console.c: the line discipline of the console

    [cons] is the input buffer of the console with its three free-running
    indices; [consoleintr] takes one character from the serial port,
    [consoleread] hands lines to a process.  Both run with [cons.lock] held; a
    process that would sleep ends with [CSleep] and the rest of its count, and
    the same definition started with it resumes it. *)

From S2P Require Import Prelude Pipe Uart.

Definition INPUT_BUF : Z := 128.
Arguments INPUT_BUF : simpl never.
(** [C(x)]: the character of a control key, for the letter [x]. *)
Definition C_ (x : Z) : Z := x - 64.
Definition BACKSPACE : Z := 256.

Record cons := Cons { c_buf : list Z; c_r : Z; c_w : Z; c_e : Z; c_raw : Z }.
#[export] Instance cons_fields : Fields cons := λ k, Cons (c_buf k) (c_r k) (c_w k) (c_e k) (c_raw k).

(** The fields of the current process a control-C uses. *)
Record sigproc := SigProc { pending_signals : Z; paused : bool }.
#[export] Instance sigproc_fields : Fields sigproc := λ p, SigProc (pending_signals p) (paused p).
Inductive wchan := WRead | WProc.

(** The console, the bytes it sent to the port by itself, the wakeups it made,
    the process that is interrupted, and the number of process dumps. *)
Record consys := ConSys {
  con : cons;
  echo : list Z;
  wakes : list wchan;
  curp : option sigproc;
  dumps : nat;
}.
#[export] Instance consys_fields : Fields consys := λ s, ConSys (con s) (echo s) (wakes s) (curp s) (dumps s).

(** ** Input *)

Definition consputc (c : Z) (s : consys) : consys :=
  if c =? BACKSPACE then s <| echo ::= λ l, l ++ [8; 32; 8] |> else s <| echo ::= λ l, l ++ [u8 c] |>.

Definition consolerawmode (mode : Z) (s : consys) : consys := s <| con ::= λ k, k <| c_raw := mode |> |>.

Definition char_at (k : cons) (i : Z) : Z := default 0 (c_buf k !! Z.to_nat (i mod INPUT_BUF)).

(** [cons.buf[cons.e++ % INPUT_BUF] = c] *)
Definition put_char (c : Z) (k : cons) : cons :=
  k <| c_buf ::= <[Z.to_nat (c_e k mod INPUT_BUF) := u8 c]> |> <| c_e ::= λ e, u32 (e + 1) |>.
Definition drop_char (k : cons) : cons := k <| c_e ::= λ e, u32 (e - 1) |>.
Definition commit_line (k : cons) : cons := k <| c_w := c_e k |>.
Definition con_wake (w : wchan) (s : consys) : consys := s <| wakes ::= λ l, l ++ [w] |>.

(** The loop of control-U; it stops at the latest when [e] reaches [w]. *)
Fixpoint kill_line (fuel : nat) (s : consys) : consys :=
  match fuel with
  | O => s
  | S fuel' =>
      if negb (c_e (con s) =? c_w (con s)) && negb (char_at (con s) (u32 (c_e (con s) - 1)) =? 10)
      then kill_line fuel' (consputc BACKSPACE (s <| con ::= drop_char |>)) else s
  end.

(** A character that goes to the reader at once, in raw mode. *)
Definition raw_char (c : Z) (s : consys) : consys := con_wake WRead (s <| con ::= λ k, commit_line (put_char c k) |>).

Definition interrupt (s : consys) : consys :=
  let s := match curp s with
    | Some p =>
        let s := s <| curp := Some (p <| pending_signals ::= λ m, Z.lor m (Z.shiftl 1 2) |>) |> in
        if paused p then con_wake WProc s else s
    | None => s
    end in
  consputc 10 (consputc 67 (consputc 94 s)).

Definition consoleintr (c : Z) (s : consys) : consys :=
  if c =? C_ 67 then interrupt s
  else if c =? C_ 80 then s <| dumps ::= S |>
  else if c =? C_ 85 then kill_line (Z.to_nat (u32 (c_e (con s) - c_w (con s)))) s
  else if c =? 9 then (if c_raw (con s) =? 0 then s else raw_char c s)
  else if (c =? C_ 72) || (c =? 127) then
    if negb (c_raw (con s) =? 0) then raw_char c s
    else if negb (c_e (con s) =? c_w (con s)) then consputc BACKSPACE (s <| con ::= drop_char |>)
    else s
  else if negb (c =? 0) && (u32 (c_e (con s) - c_r (con s)) <? INPUT_BUF) then
    let c := if c =? 13 then 10 else c in
    if negb (c_raw (con s) =? 0) then raw_char c s
    else
      let s := (consputc c s) <| con ::= put_char c |> in
      if (c =? 10) || (c =? C_ 68) || (c_e (con s) =? u32 (c_r (con s) + INPUT_BUF))
      then con_wake WRead (s <| con ::= commit_line |>) else s
  else s.

(** [consoleread] from any point of its loop: [rem] of [target] bytes are left. *)
Inductive cres := CRet (v : Z) | CSleep (rem : nat) (dst : Z).
Fixpoint consoleread_from (um : umem) (killed : bool) (target rem : nat) (dst : Z) (k : cons) : cres * cons * umem :=
  match rem with
  | O => (CRet (Z.of_nat target), k, um)
  | S rem' =>
      if c_r k =? c_w k then (if killed then CRet (-1) else CSleep rem dst, k, um)
      else
        let c := char_at k (c_r k) in
        let k1 := k <| c_r ::= λ r, u32 (r + 1) |> in
        if c =? C_ 68 then
          (CRet (Z.of_nat (target - rem)), if (rem <? target)%nat then k1 <| c_r ::= λ r, u32 (r - 1) |> else k1, um)
        else
          match copyout um dst c with
          | None => (CRet (Z.of_nat (target - rem)), k1, um)
          | Some um' =>
              if c =? 10 then (CRet (Z.of_nat (target - rem')), k1, um')
              else consoleread_from um' killed target rem' (dst + 1) k1
          end
  end.
Definition consoleread (um : umem) (killed : bool) (dst n : Z) (k : cons) : cres * cons * umem :=
  consoleread_from um killed (Z.to_nat n) (Z.to_nat n) dst k.

(** ** Output *)

(** The loop of [consolewrite] with [rem] bytes left and [room] of the port before
    each.  It holds [cons.lock], so the [sleep] of a full ring ends in the test of
    [sched] for the number of locks held. *)
Fixpoint consolewrite_from (um : umem) (room : nat → nat) (rem i : nat) (src : Z) (u : uart) : outcome (nat * uart) :=
  match rem with
  | O => Ret (i, u)
  | S rem' =>
      match copyin um (src + Z.of_nat i) with
      | None => Ret (i, u)
      | Some c =>
          match uartputc (room i) c u with
          | Some u' => consolewrite_from um room rem' (S i) src u'
          | None => Panic "sched locks"
          end
      end
  end.
Definition consolewrite (um : umem) (room : nat → nat) (src n : Z) (u : uart) : outcome (nat * uart) :=
  consolewrite_from um room (Z.to_nat n) 0 src u.

(** [uartintr]: the received characters, then the transmit ring. *)
Definition uartintr (rx : list Z) (room : nat) (s : consys) (u : uart) : consys * uart :=
  (fold_left (λ s c, consoleintr c s) rx s, uartstart room u).

(** ** What the console promises: lines

    [ready] is what a reader may take, [edit] the line being typed. *)
Record line := Line { ready : list Z; edit : list Z; raw : bool }.

(** A character that is stored without a look at the space.  Once 128 are
    unread it lands on the character 128 places before it, which is then read
    twice in its place. *)
Definition store_key (c : Z) (l : list Z) : list Z :=
  imap (λ i x, if decide (Z.of_nat i mod INPUT_BUF = Z.of_nat (length l) mod INPUT_BUF) then c else x) l ++ [c].

Definition key_line (c : Z) (l : line) : line :=
  if bool_decide (c = 3 ∨ c = 16) then l
  else if c =? 21 then Line (ready l) [] (raw l)
  else if bool_decide (c = 8 ∨ c = 9 ∨ c = 127) then
    if raw l then Line (store_key c (ready l ++ edit l)) [] true
    else if c =? 9 then l else Line (ready l) (removelast (edit l)) false
  else if (c =? 0) || bool_decide (128 ≤ length (ready l ++ edit l))%nat then l
  else
    let c := if c =? 13 then 10 else c in
    if raw l || bool_decide (c = 10 ∨ c = 4 ∨ length (ready l ++ edit l) = 127%nat)
    then Line (ready l ++ edit l ++ [c]) [] (raw l)
    else Line (ready l) (edit l ++ [c]) false.

(** What a key shows on the terminal: in line mode, what was typed or erased. *)
Definition key_echo (c : Z) (l : line) : list Z :=
  if c =? 3 then [94; 67; 10]
  else if c =? 16 then []
  else if c =? 21 then concat (replicate (length (edit l)) [8; 32; 8])
  else if raw l || (c =? 9) then []
  else if bool_decide (c = 8 ∨ c = 127) then (if edit l is [] then [] else [8; 32; 8])
  else if (c =? 0) || bool_decide (128 ≤ length (ready l ++ edit l))%nat then []
  else [if c =? 13 then 10 else c].

(** A read of [rem] of [target] bytes into a buffer of which [room] bytes are
    mapped: what it delivers, what is left, and whether the reader has to wait.
    End of file is kept for the next read, unless it is the first thing this one
    sees; the character that meets the end of the mapped memory is lost. *)
Fixpoint take_line (target rem room : nat) (l : list Z) : list Z * list Z * bool :=
  match rem, l with
  | O, _ => ([], l, false)
  | _, [] => ([], [], true)
  | S rem', c :: l' =>
      if c =? 4 then ([], if (rem <? target)%nat then l else l', false)
      else
        match room with
        | O => ([], l', false)
        | S room' =>
            if c =? 10 then ([c], l', false)
            else let '(d, l2, b) := take_line target rem' room' l' in (c :: d, l2, b)
        end
  end.

(** ** The ring *)

Lemma u32_mod_buf z : u32 z mod INPUT_BUF = z mod INPUT_BUF.
Proof. apply Z.mod_mod_divide. by exists (2 ^ 25). Qed.

Lemma index_mod a b : (a + u32 (b - a)) mod INPUT_BUF = b mod INPUT_BUF.
Proof. rewrite <-Zplus_mod_idemp_r, u32_mod_buf, Zplus_mod_idemp_r. f_equal. lia. Qed.

Lemma ring_u32 b i n : ring INPUT_BUF b (u32 i) n = ring INPUT_BUF b i n.
Proof. apply ring_mod, u32_mod_buf. Qed.

Record cons_ok (k : cons) : Prop := ConsOk {
  ck_buf : length (c_buf k) = 128%nat;
  ck_r : 0 ≤ c_r k < 2 ^ 32;
  ck_w : 0 ≤ c_w k < 2 ^ 32;
  ck_e : 0 ≤ c_e k < 2 ^ 32;
  ck_fill : u32 (c_w k - c_r k) + u32 (c_e k - c_w k) < 2 ^ 32;
}.
Definition nready (k : cons) : nat := Z.to_nat (u32 (c_w k - c_r k)).
Definition nedit (k : cons) : nat := Z.to_nat (u32 (c_e k - c_w k)).

(** The lines the buffer holds. *)
Definition lines (k : cons) : line :=
  Line (ring INPUT_BUF (c_buf k) (c_r k) (nready k)) (ring INPUT_BUF (c_buf k) (c_w k) (nedit k)) (negb (c_raw k =? 0)).

(** Arithmetic of the indices. *)
Ltac index :=
  unfold nready, nedit, put_char, drop_char, commit_line, u32, INPUT_BUF in *; cbn [c_buf c_r c_w c_e update field_set] in *; Z.to_euclidean_division_equations; lia.
Lemma total_chars k : cons_ok k → Z.of_nat (nready k + nedit k) = u32 (c_e k - c_r k).
Proof. intros []. index. Qed.
Lemma edit_pos k : cons_ok k → (c_w k + Z.of_nat (nedit k)) mod INPUT_BUF = c_e k mod INPUT_BUF.
Proof. intros []. unfold nedit. rewrite Z2Nat.id by apply u32_range. apply index_mod. Qed.
Lemma end_pos k : cons_ok k → (c_r k + Z.of_nat (nready k + nedit k)) mod INPUT_BUF = c_e k mod INPUT_BUF.
Proof. intros Hk. rewrite (total_chars k Hk). apply index_mod. Qed.
Lemma no_edit k : cons_ok k → (c_e k =? c_w k) = bool_decide (nedit k = 0%nat).
Proof. intros []. destruct (Z.eqb_spec (c_e k) (c_w k)); symmetry; [apply bool_decide_true|apply bool_decide_false]; index. Qed.
Lemma no_ready k : cons_ok k → (c_r k =? c_w k) = bool_decide (nready k = 0%nat).
Proof. intros []. destruct (Z.eqb_spec (c_r k) (c_w k)); symmetry; [apply bool_decide_true|apply bool_decide_false]; index. Qed.
Lemma lines_length k : length (ready (lines k) ++ edit (lines k)) = (nready k + nedit k)%nat.
Proof. cbn. by rewrite length_app, !ring_length. Qed.

Lemma put_char_ok k c : cons_ok k → (nready k + nedit k < 128)%nat →
  cons_ok (put_char c k) ∧ nready (put_char c k) = nready k ∧ nedit (put_char c k) = S (nedit k) ∧
  lines (put_char c k) = Line (ready (lines k)) (edit (lines k) ++ [u8 c]) (raw (lines k)).
Proof.
  intros Hk Hn. pose proof Hk as [Hb Hr Hw He Hf].
  assert (Hnr : nready (put_char c k) = nready k) by done.
  assert (Hne : nedit (put_char c k) = S (nedit k)) by (cbn; index).
  split_and!; [|done|done|].
  - constructor; cbn; [by rewrite length_insert|done|done|apply u32_range|]. index.
  - unfold lines. rewrite Hnr, Hne. cbn -[ring]. f_equal.
    + apply (ring_put _ _ _ _ (nready k + nedit k)); [lia|unfold INPUT_BUF; lia|]. symmetry. by apply end_pos.
    + rewrite <-Nat.add_1_r, ring_app. f_equal; [apply (ring_put _ _ _ _ (nedit k)); [lia|unfold INPUT_BUF; lia|symmetry; by apply edit_pos]|].
      cbn. rewrite Z.add_0_r, (edit_pos k Hk). rewrite list_lookup_insert_eq; [done|]. rewrite Hb. index.
Qed.

Lemma drop_char_ok k : cons_ok k → nedit k ≠ 0%nat →
  cons_ok (drop_char k) ∧ S (nedit (drop_char k)) = nedit k ∧ ready (lines (drop_char k)) = ready (lines k) ∧
  raw (lines (drop_char k)) = raw (lines k) ∧
  edit (lines k) = edit (lines (drop_char k)) ++ [char_at k (u32 (c_e k - 1))].
Proof.
  intros Hk Hn. pose proof Hk as [Hb Hr Hw He Hf].
  assert (Hne : S (nedit (drop_char k)) = nedit k) by (cbn; index).
  assert (Hk' : cons_ok (drop_char k)) by (constructor; cbn; [done|done|done|apply u32_range|]; index).
  split_and!; [done..|]. cbn -[ring nedit]. rewrite <-Hne, <-Nat.add_1_r, ring_app. cbn [ring seq fmap list_fmap].
  f_equal. unfold char_at. rewrite Z.add_0_r. do 4 f_equal. apply (edit_pos _ Hk').
Qed.

Lemma commit_line_ok k : cons_ok k → cons_ok (commit_line k) ∧
  lines (commit_line k) = Line (ready (lines k) ++ edit (lines k)) [] (raw (lines k)).
Proof.
  intros Hk. pose proof Hk as [Hb Hr Hw He Hf]. split.
  - constructor; cbn; [done..|]. index.
  - assert (nready (commit_line k) = nready k + nedit k)%nat as E1 by (cbn; index).
    assert (nedit (commit_line k) = 0%nat) as E2 by (cbn; index). unfold lines. rewrite E1, E2. cbn -[ring]. f_equal.
    rewrite ring_app. f_equal. rewrite <-(ring_u32 _ (c_r k + _)). f_equal. index.
Qed.

Lemma all_chars k : cons_ok k → ready (lines k) ++ edit (lines k) = ring INPUT_BUF (c_buf k) (c_r k) (nready k + nedit k).
Proof.
  intros Hk. pose proof Hk as [Hb Hr Hw He Hf]. rewrite ring_app. cbn -[ring]. f_equal.
  symmetry. rewrite <-(ring_u32 _ (c_r k + _)). f_equal. index.
Qed.

Lemma store_key_fits c l : (length l < 128)%nat → store_key c l = l ++ [c].
Proof.
  intros Hl. unfold store_key. f_equal. apply list_eq. intros i. rewrite list_lookup_imap.
  destruct (l !! i) as [x|] eqn:E; [|done]. apply lookup_lt_Some in E. cbn [fmap option_fmap option_map]. f_equal.
  rewrite decide_False; [done|]. rewrite !Z.mod_small by (unfold INPUT_BUF; lia). lia.
Qed.

(** The ring after a character at its end, whatever it holds. *)
Lemma ring_store b r n c : length b = 128%nat →
  ring INPUT_BUF (<[Z.to_nat ((r + Z.of_nat n) mod INPUT_BUF) := c]> b) r (n + 1) = store_key c (ring INPUT_BUF b r n).
Proof.
  intros Hb. assert (0 < INPUT_BUF) as HN by done. assert (∀ z, (Z.to_nat (z mod INPUT_BUF) < length b)%nat) as Hlt.
  { intros z. rewrite Hb. pose proof (Z.mod_pos_bound z INPUT_BUF HN). unfold INPUT_BUF in *. lia. }
  rewrite ring_app. unfold store_key. rewrite ring_length. f_equal.
  - apply list_eq. intros i. rewrite list_lookup_imap. unfold ring. rewrite !list_lookup_fmap.
    destruct (decide (i < n)%nat) as [Hi|]; [|by rewrite !lookup_seq_ge by lia]. rewrite lookup_seq_lt by done. cbn [fmap option_fmap option_map plus]. f_equal.
    assert ((r + Z.of_nat i) mod INPUT_BUF = (r + Z.of_nat n) mod INPUT_BUF ↔ Z.of_nat i mod INPUT_BUF = Z.of_nat n mod INPUT_BUF) as Heq.
    { split; intros E; [|by rewrite <-Zplus_mod_idemp_r, E, Zplus_mod_idemp_r].
      unfold INPUT_BUF in *. Z.to_euclidean_division_equations; lia. }
    case_decide as E.
    + rewrite (proj2 Heq E), list_lookup_insert_eq; done.
    + rewrite list_lookup_insert_ne; [done|]. intros E2. apply E, Heq.
      apply Z2Nat.inj in E2; [done|apply Z.mod_pos_bound; done..].
  - cbn. rewrite Z.add_0_r, list_lookup_insert_eq by done. done.
Qed.

Lemma take_char_ok k : cons_ok k → nready k ≠ 0%nat →
  let k' := k <| c_r ::= λ r, u32 (r + 1) |> in
  cons_ok k' ∧ edit (lines k') = edit (lines k) ∧ raw (lines k') = raw (lines k) ∧
  ready (lines k) = char_at k (c_r k) :: ready (lines k') ∧ k' <| c_r ::= λ r, u32 (r - 1) |> = k.
Proof.
  intros Hk Hn k'. pose proof Hk as [Hb Hr Hw He Hf]. assert (Hne : nready k = (1 + nready k')%nat) by (unfold k'; cbn; index).
  split_and!; [|done|done| |].
  - constructor; cbn; [done|apply u32_range|done|done|]. index.
  - cbn -[ring nready]. rewrite Hne, ring_app. cbn [ring seq fmap list_fmap app]. rewrite Z.add_0_r. f_equal.
    symmetry. apply ring_u32.
  - destruct k as [b r w e m]. unfold k'. cbn in *. f_equal. index.
Qed.

(** ** Keys *)

Lemma kill_line_ok n s : cons_ok (con s) → nedit (con s) = n → 10 ∉ edit (lines (con s)) →
  let s' := kill_line n s in
  cons_ok (con s') ∧ lines (con s') = Line (ready (lines (con s))) [] (raw (lines (con s))) ∧
  echo s' = echo s ++ concat (replicate n [8; 32; 8]) ∧ wakes s' = wakes s.
Proof.
  revert s. induction n as [|n IH]; intros s Hk Hn Hnl; cbn [kill_line].
  - split_and!; [done| |by rewrite app_nil_r|done]. unfold lines at 1. by rewrite Hn.
  - rewrite no_edit, bool_decide_false by (done || lia).
    destruct (drop_char_ok (con s)) as (Hk' & Hne & Hr & Hw & He); [done|lia|].
    rewrite He in Hnl. rewrite (proj2 (Z.eqb_neq _ 10)) by set_solver. cbn [negb andb].
    set (s1 := consputc BACKSPACE (s <| con ::= drop_char |>)).
    assert (E1 : con s1 = drop_char (con s)) by done. assert (E2 : echo s1 = echo s ++ [8; 32; 8]) by done.
    assert (E3 : wakes s1 = wakes s) by done.
    destruct (IH s1) as (H1 & H2 & H3 & H4); rewrite ?E1; [done|lia|set_solver|]. split_and!; [done| | |congruence].
    + by rewrite H2, E1, Hr, Hw.
    + by rewrite H3, E2, <-app_assoc.
Qed.

(** The step of a character that goes to the reader at once. *)
Lemma raw_char_ok c s : cons_ok (con s) → Z.of_nat (nready (con s) + nedit (con s)) + 1 < 2 ^ 32 → 0 ≤ c < 256 →
  let s' := raw_char c s in
  cons_ok (con s') ∧ lines (con s') = Line (store_key c (ready (lines (con s)) ++ edit (lines (con s)))) [] (raw (lines (con s))) ∧
  echo s' = echo s.
Proof.
  intros Hk Hn Hc. set (k := con s) in *. pose proof Hk as [Hb Hr Hw He Hf].
  assert (Hne : nedit (put_char c k) = (nedit k + 1)%nat) by (cbn; index).
  assert (H1 : cons_ok (put_char c k)) by (constructor; cbn; [by rewrite length_insert|done|done|apply u32_range|]; index).
  destruct (commit_line_ok _ H1) as [H5 H6]. split_and!; [done| |done].
  change (con (raw_char c s)) with (commit_line (put_char c k)). rewrite H6, (all_chars _ H1), Hne, (all_chars k Hk).
  change (nready (put_char c k)) with (nready k). rewrite Nat.add_assoc. cbn -[ring store_key nready nedit].
  rewrite <-(end_pos k Hk), ring_store by done. unfold u8. by rewrite Z.mod_small.
Qed.

(** The keys are bytes, and fewer than [2^32] characters are unread. *)
Definition key_fits (c : Z) (l : line) : Prop := 0 ≤ c < 256 ∧ Z.of_nat (length (ready l ++ edit l)) + 1 < 2 ^ 32.

Lemma removelast_snoc (l : list Z) x : removelast (l ++ [x]) = l.
Proof. apply removelast_last. Qed.

(** What a key does, as a relation between the console before and after. *)
Definition key_done (c : Z) (s s' : consys) : Prop :=
  cons_ok (con s') ∧ 10 ∉ edit (lines (con s')) ∧ lines (con s') = key_line c (lines (con s)) ∧
  echo s' = echo s ++ key_echo c (lines (con s)).

(** Decides the tests of a key by what is known of it. *)
Ltac key_tests c :=
  change (C_ 67) with 3 in *; change (C_ 80) with 16 in *; change (C_ 85) with 21 in *; change (C_ 72) with 8 in *;
  change (C_ 68) with 4 in *;
  repeat match goal with
  | |- context [c =? ?n] => destruct (Z.eqb_spec c n); [try (exfalso; lia)|try (exfalso; lia)]
  | |- context [bool_decide (c = ?n ∨ ?P)] =>
      first [rewrite (bool_decide_true (c = n ∨ P)) by lia | rewrite (bool_decide_false (c = n ∨ P)) by lia]
  end.

Section keys.
Context (c : Z) (s : consys) (Hk : cons_ok (con s)) (Hnl : 10 ∉ edit (lines (con s))) (Hfit : key_fits c (lines (con s))).

Lemma control_done : c = 3 ∨ c = 16 ∨ c = 21 → key_done c s (consoleintr c s).
Proof.
  intros Hc. unfold key_done, key_line, key_echo, consoleintr. key_tests c; subst c.
  - unfold interrupt. destruct (curp s) as [p|]; [destruct (paused p)|]; cbn; rewrite <-!app_assoc; done.
  - cbn. by rewrite app_nil_r.
  - fold (nedit (con s)). destruct (kill_line_ok (nedit (con s)) s) as (H1 & H2 & H4 & _); [done..|]. rewrite H2, H4.
    split_and!; [done|set_solver|done|]. cbn. by rewrite ring_length.
Qed.

Lemma raw_done d : 0 ≤ d < 256 → c_raw (con s) ≠ 0 →
  let s' := raw_char d s in
  cons_ok (con s') ∧ 10 ∉ edit (lines (con s')) ∧
  lines (con s') = Line (store_key d (ready (lines (con s)) ++ edit (lines (con s)))) [] true ∧ echo s' = echo s ++ [].
Proof.
  intros Hd H0. destruct Hfit as [_ Hf]. rewrite lines_length in Hf. destruct (raw_char_ok d s) as (H1 & H2 & H3); [done..|].
  cbn zeta. rewrite H2, H3, app_nil_r. split_and!; [done|set_solver| |done]. cbn. by rewrite (proj2 (Z.eqb_neq _ _) H0).
Qed.

Lemma drop_done : c_raw (con s) = 0 → nedit (con s) ≠ 0%nat →
  let s' := consputc BACKSPACE (s <| con ::= drop_char |>) in
  cons_ok (con s') ∧ 10 ∉ edit (lines (con s')) ∧
  lines (con s') = Line (ready (lines (con s))) (removelast (edit (lines (con s)))) false ∧ echo s' = echo s ++ [8; 32; 8].
Proof.
  intros H0 Hn. destruct (drop_char_ok (con s)) as (H1 & _ & H2 & H3 & H4); [done..|].
  rewrite H4, removelast_last. cbn zeta. change (con (consputc _ _)) with (drop_char (con s)). split_and!; [done| | |done].
  - rewrite H4 in Hnl. set_solver.
  - destruct (lines (drop_char (con s))) as [a b r0]. cbn [ready edit raw] in *. rewrite H2, H3. cbn. by rewrite H0.
Qed.

Lemma erase_done : c = 8 ∨ c = 9 ∨ c = 127 → key_done c s (consoleintr c s).
Proof.
  intros Hc. destruct Hfit as [Hr Hf]. rewrite lines_length in Hf. unfold key_done, key_line, key_echo, consoleintr.
  assert (Hedit : edit (lines (con s)) = [] ↔ nedit (con s) = 0%nat).
  { rewrite <-length_zero_iff_nil. cbn. by rewrite ring_length. }
  rewrite (no_edit _ Hk). change (raw (lines (con s))) with (negb (c_raw (con s) =? 0)) in *.
  destruct (Z.eqb_spec (c_raw (con s)) 0) as [H0|H0]; cbn [negb orb] in *.
  - assert (Hbs : let s' := if negb (bool_decide (nedit (con s) = 0%nat)) then consputc BACKSPACE (s <| con ::= drop_char |>) else s in
      cons_ok (con s') ∧ 10 ∉ edit (lines (con s')) ∧
      lines (con s') = Line (ready (lines (con s))) (removelast (edit (lines (con s)))) false ∧
      echo s' = echo s ++ (if edit (lines (con s)) is [] then [] else [8; 32; 8])).
    { case_bool_decide as Hn; cbn [negb].
      - split_and!; [done|done| |by rewrite (proj2 Hedit Hn), app_nil_r].
        transitivity (Line (ready (lines (con s))) (edit (lines (con s))) (raw (lines (con s)))); [done|].
        rewrite (proj2 Hedit Hn). cbn. by rewrite H0.
      - destruct (drop_done H0 Hn) as (H1 & H2 & H3 & H4). split_and!; [done..|].
        destruct (edit (lines (con s))); [by destruct Hn; apply Hedit|done]. }
    key_tests c; cbn [orb]; [by rewrite app_nil_r|done|done].
  - destruct (raw_done c Hr H0) as (H1 & H2 & H3 & H4). by key_tests c.
Qed.

(** A character of the line, in line mode. *)
Definition type_char (c : Z) (s : consys) : consys :=
  let s := (consputc c s) <| con ::= put_char c |> in
  if (c =? 10) || (c =? 4) || (c_e (con s) =? u32 (c_r (con s) + INPUT_BUF))
  then con_wake WRead (s <| con ::= commit_line |>) else s.

Lemma type_char_ok d : 0 ≤ d < 256 → c_raw (con s) = 0 → (nready (con s) + nedit (con s) < 128)%nat →
  let s' := type_char d s in
  cons_ok (con s') ∧ 10 ∉ edit (lines (con s')) ∧
  lines (con s') = (if bool_decide (d = 10 ∨ d = 4 ∨ length (ready (lines (con s)) ++ edit (lines (con s))) = 127%nat)
    then Line (ready (lines (con s)) ++ edit (lines (con s)) ++ [d]) [] false
    else Line (ready (lines (con s))) (edit (lines (con s)) ++ [d]) false) ∧
  echo s' = echo s ++ [d].
Proof.
  intros Hd H0 Hn. rewrite lines_length. destruct (put_char_ok (con s) d Hk Hn) as (H1 & H2 & H3 & H4).
  destruct (commit_line_ok _ H1) as [H5 H6]. assert (Hu : u8 d = d) by (by apply Z.mod_small).
  assert (Hput : con ((consputc d s) <| con ::= put_char d |>) = put_char d (con s)).
  { unfold consputc. by destruct (d =? BACKSPACE). }
  assert (Hecho : echo (consputc d s) = echo s ++ [d]).
  { unfold consputc. rewrite (proj2 (Z.eqb_neq d BACKSPACE)) by (unfold BACKSPACE; lia). cbn. by rewrite Hu. }
  assert (Hraw : raw (lines (con s)) = false) by (cbn; by rewrite H0).
  assert (Hfull : (c_e (put_char d (con s)) =? u32 (c_r (put_char d (con s)) + INPUT_BUF)) =
    bool_decide (nready (con s) + nedit (con s) = 127)%nat).
  { pose proof (total_chars _ H1) as Ht. rewrite H2, H3 in Ht. destruct H1, Hk. case_bool_decide; [apply Z.eqb_eq|apply Z.eqb_neq]; index. }
  unfold type_char. cbn zeta. rewrite Hput, Hfull.
  assert (Hb : (d =? 10) || (d =? 4) || bool_decide (nready (con s) + nedit (con s) = 127)%nat =
    bool_decide (d = 10 ∨ d = 4 ∨ (nready (con s) + nedit (con s) = 127)%nat)).
  { destruct (Z.eqb_spec d 10), (Z.eqb_spec d 4); cbn [orb]; repeat case_bool_decide; naive_solver. }
  rewrite Hb. destruct (decide (d = 10 ∨ d = 4 ∨ (nready (con s) + nedit (con s) = 127)%nat)) as [Hcase|Hcase];
    [rewrite !bool_decide_true by done|rewrite !bool_decide_false by done].
  - change (con (con_wake _ _)) with (commit_line (con ((consputc d s) <| con ::= put_char d |>))). rewrite Hput, H6, H4.
    split_and!; [done|set_solver| |exact Hecho]. cbn [ready edit raw]. by rewrite Hraw, Hu, app_assoc.
  - rewrite Hput, H4. split_and!; [done| | |exact Hecho].
    + cbn [edit]. rewrite Hu. set_solver.
    + by rewrite Hraw, Hu.
Qed.

Lemma consoleintr_typed : c ≠ 3 → c ≠ 8 → c ≠ 9 → c ≠ 16 → c ≠ 21 → c ≠ 127 →
  consoleintr c s = if (c =? 0) || bool_decide (128 ≤ nready (con s) + nedit (con s))%nat then s else
    let d := if c =? 13 then 10 else c in if c_raw (con s) =? 0 then type_char d s else raw_char d s.
Proof.
  intros H3 H8 H9 H16 H21 H127. unfold consoleintr. change (C_ 67) with 3. change (C_ 80) with 16. change (C_ 85) with 21.
  change (C_ 72) with 8. change (C_ 68) with 4. rewrite (proj2 (Z.eqb_neq c 3)), (proj2 (Z.eqb_neq c 16)), (proj2 (Z.eqb_neq c 21)),
    (proj2 (Z.eqb_neq c 9)), (proj2 (Z.eqb_neq c 8)), (proj2 (Z.eqb_neq c 127)) by done.
  cbn [orb]. rewrite <-(total_chars _ Hk). destruct (c =? 0); [done|]. cbn [negb andb orb].
  case_bool_decide as Hn; [rewrite (proj2 (Z.ltb_ge _ _)) by (unfold INPUT_BUF; lia); done|].
  rewrite (proj2 (Z.ltb_lt _ _)) by (unfold INPUT_BUF; lia). by destruct (c_raw (con s) =? 0).
Qed.

Lemma typed_done : c ≠ 3 → c ≠ 8 → c ≠ 9 → c ≠ 16 → c ≠ 21 → c ≠ 127 → key_done c s (consoleintr c s).
Proof.
  intros H3 H8 H9 H16 H21 H127. unfold key_done, key_line, key_echo. rewrite consoleintr_typed by done.
  rewrite (bool_decide_false (c = 3 ∨ c = 16)), (bool_decide_false (c = 8 ∨ c = 9 ∨ c = 127)),
    (bool_decide_false (c = 8 ∨ c = 127)), (proj2 (Z.eqb_neq c 3)), (proj2 (Z.eqb_neq c 16)), (proj2 (Z.eqb_neq c 21)),
    (proj2 (Z.eqb_neq c 9)) by lia.
  rewrite orb_false_r, lines_length. destruct ((c =? 0) || bool_decide _) eqn:Hskip.
  { split_and!; [done..|]. destruct (raw _); by rewrite app_nil_r. }
  apply orb_false_iff in Hskip as [_ Hn%bool_decide_eq_false]. set (d := if c =? 13 then 10 else c).
  assert (Hd : 0 ≤ d < 256) by (destruct Hfit; unfold d; destruct (c =? 13); lia). cbn zeta.
  change (raw (lines (con s))) with (negb (c_raw (con s) =? 0)).
  destruct (Z.eqb_spec (c_raw (con s)) 0) as [H0|H0]; cbn [negb orb].
  - rewrite <-lines_length. apply type_char_ok; [done..|lia].
  - destruct (raw_done d Hd H0) as (H1 & H2 & H3' & H4). rewrite store_key_fits, <-app_assoc in H3' by (rewrite lines_length; lia).
    by split_and!.
Qed.

(** One key: the buffer holds the lines the specification has, and the terminal
    shows what it shows. *)
Lemma consoleintr_lines : key_done c s (consoleintr c s).
Proof.
  destruct (decide (c = 3 ∨ c = 16 ∨ c = 21)); [by apply control_done|].
  destruct (decide (c = 8 ∨ c = 9 ∨ c = 127)); [by apply erase_done|]. apply typed_done; lia.
Qed.
End keys.

(** ** Reads *)

(** Of the [rem] bytes at [dst], [room] are mapped. *)
Definition mapped (um : umem) (dst : Z) (rem room : nat) : Prop :=
  (∀ j, (j < room)%nat → um (dst + Z.of_nat j) ≠ None) ∧ ((room < rem)%nat → um (dst + Z.of_nat room) = None).

Lemma consoleread_lines um killed target rem room dst k res k' um' :
  cons_ok k → (rem ≤ target)%nat → mapped um dst rem room →
  consoleread_from um killed target rem dst k = (res, k', um') →
  ∃ d l2 wait, take_line target rem room (ready (lines k)) = (d, l2, wait) ∧ cons_ok k' ∧
    (wait = true → length d = nready k) ∧
    lines k' = Line l2 (edit (lines k)) (raw (lines k)) ∧ ubytes um' dst (length d) = d ∧ (length d ≤ rem)%nat ∧
    (∀ a, a < dst ∨ dst + Z.of_nat (length d) ≤ a → um' a = um a) ∧
    res = (if wait then if killed then CRet (-1) else CSleep (rem - length d) (dst + Z.of_nat (length d))
           else CRet (Z.of_nat (target - rem + length d))).
Proof.
  revert um dst k room. induction rem as [|rem IH]; intros um dst k room Hk Hle Hm E; cbn [consoleread_from] in E.
  { injection E as <- <- <-. exists [], (ready (lines k)), false. split; [done|]. split_and!; try done. f_equal. cbn. lia. }
  rewrite (no_ready k Hk) in E. case_bool_decide as Hn.
  { injection E as <- <- <-. assert (Hr : ready (lines k) = []) by (apply length_zero_iff_nil; cbn; by rewrite ring_length).
    exists [], [], true. rewrite Hr, Hn. split_and!; try done; [by rewrite <-Hr|cbn; lia|]. cbn. by rewrite Z.add_0_r. }
  destruct (take_char_ok k Hk Hn) as (Hk1 & He & Hw & Hc & Hback). set (k1 := k <| c_r ::= _ |>) in *.
  set (c := char_at k (c_r k)) in *. rewrite Hc. cbn [take_line]. change (C_ 68) with 4 in E. rewrite Hback in E.
  assert (Hl1 : lines k1 = Line (ready (lines k1)) (edit (lines k)) (raw (lines k))) by (by rewrite <-He, <-Hw).
  destruct (Z.eqb_spec c 4) as [H4|H4].
  { injection E as <- <- <-. eexists [], _, false. split; [done|]. destruct (_ <? _)%nat.
    - rewrite <-Hc. split_and!; try done; [cbn; lia|]. f_equal. cbn. lia.
    - split_and!; try done; [cbn; lia|]. f_equal. cbn. lia. }
  unfold copyout in E. destruct Hm as [Hm1 Hm2]. destruct room as [|room].
  { rewrite Z.add_0_r in Hm2. rewrite Hm2 in E by lia. injection E as <- <- <-. eexists [], _, false. split; [done|].
    split_and!; try done; [cbn; lia|]. f_equal. cbn. lia. }
  destruct (um dst) as [b|] eqn:Hb.
  2:{ destruct (Hm1 0%nat ltac:(lia)). by rewrite Z.add_0_r. }
  set (um1 := λ a', if decide (a' = dst) then Some c else um a') in E.
  assert (Hd1 : um1 dst = Some c) by (unfold um1; by rewrite decide_True).
  destruct (Z.eqb_spec c 10) as [H10|H10].
  { injection E as <- <- <-. eexists [c], _, false. split; [done|]. split_and!; try done; [|cbn; lia| |].
    - cbn [length]. rewrite ubytes_S, Hd1. done.
    - intros a Ha. unfold um1. rewrite decide_False; [done|]. cbn in Ha. lia.
    - f_equal. cbn. lia. }
  destruct (IH um1 (dst + 1) k1 room) as (d & l2 & w & Ht & Hk2 & Hw2 & Hl2 & Hu & Hdl & Hout & Hres); [done|lia| |done|].
  { split.
    - intros j Hj. unfold um1. rewrite decide_False by lia. replace (dst + 1 + Z.of_nat j) with (dst + Z.of_nat (S j)) by lia. apply Hm1. lia.
    - intros Hj. unfold um1. rewrite decide_False by lia. replace (dst + 1 + Z.of_nat room) with (dst + Z.of_nat (S room)) by lia. apply Hm2. lia. }
  assert (nready k = S (nready k1)) as Hnk by (pose proof (f_equal length Hc) as Hlen; cbn in Hlen; by rewrite !ring_length in Hlen).
  exists (c :: d), l2, w. rewrite Ht. cbn [length]. split_and!; [done|done|intros Hwt; rewrite Hw2 by done; lia| |..|lia| |].
  - rewrite Hl2. by rewrite He, Hw.
  - rewrite ubytes_S, Hu, Hout, Hd1 by lia. done.
  - intros a Ha. rewrite Hout by lia. unfold um1. rewrite decide_False by lia. done.
  - rewrite Hres. destruct w; [destruct killed|]; f_equal; lia.
Qed.

(** ** Runs *)

(** What happens at the console: a key, a change of mode, a read that starts or
    is woken and finds [room] mapped bytes in its buffer. *)
Inductive cinput := Key (c : Z) | Mode (m : Z) | Read (target rem room : nat).

Inductive con_step : consys → cinput → list Z → consys → Prop :=
| CSKey c s : 0 ≤ c < 256 → con_step s (Key c) [] (consoleintr c s)
| CSMode m s : con_step s (Mode m) [] (consolerawmode m s)
| CSRead um dst killed target rem room s res k' um' n :
    (rem ≤ target)%nat → mapped um dst rem room →
    consoleread_from um killed target rem dst (con s) = (res, k', um') →
    n = match res with
        | CRet v => if v =? -1 then nready (con s) else Z.to_nat (v - Z.of_nat (target - rem))
        | CSleep r _ => (rem - r)%nat
        end →
    con_step s (Read target rem room) (ubytes um' dst n) (s <| con := k' |>).

(** The same inputs on lines: the bytes a read delivers. *)
Inductive line_step : line → cinput → list Z → line → Prop :=
| LSKey c l : line_step l (Key c) [] (key_line c l)
| LSMode m l : line_step l (Mode m) [] (Line (ready l) (edit l) (negb (m =? 0)))
| LSRead target rem room l d l2 b : take_line target rem room (ready l) = (d, l2, b) →
    line_step l (Read target rem room) d (Line l2 (edit l) (raw l)).

(** Runs with the inputs and the bytes that reached readers. *)
Inductive steps {S : Type} (R : S → cinput → list Z → S → Prop) (s : S) : list cinput → list Z → S → Prop :=
| SNil : steps R s [] [] s
| SNext xs out x d t t' : steps R s xs out t → R t x d t' → steps R s (xs ++ [x]) (out ++ d) t'.

Lemma con_step_lines s x d s' : cons_ok (con s) → 10 ∉ edit (lines (con s)) →
  Z.of_nat (length (ready (lines (con s)) ++ edit (lines (con s)))) + 1 < 2 ^ 32 → con_step s x d s' →
  cons_ok (con s') ∧ 10 ∉ edit (lines (con s')) ∧ line_step (lines (con s)) x d (lines (con s')).
Proof.
  intros Hk Hnl Hlen Hst. destruct Hst as [c s Hf|m s|um dst killed target rem room s res k' um' n Hle Hm E Hn].
  - destruct (consoleintr_lines c s Hk Hnl) as (H1 & H2 & H3 & _); [done|]. split_and!; [done..|]. rewrite H3. constructor.
  - split_and!; [by destruct Hk|done|]. apply (LSMode m (lines (con s))).
  - destruct (consoleread_lines _ _ _ _ _ _ _ _ _ _ Hk Hle Hm E) as (d & l2 & w & Ht & Hk' & Hw & Hl & Hu & Hdl & _ & Hres).
    cbn [con update field_set]. rewrite Hl. split_and!; [done|done|]. assert (n = length d) as ->; [|rewrite Hu; by econstructor].
    rewrite Hres in Hn. destruct w; [destruct killed|].
    + by rewrite Hw.
    + lia.
    + rewrite (proj2 (Z.eqb_neq _ _)) in Hn by lia. lia.
Qed.

(** The console at boot, with whatever the buffer holds. *)
Definition con_boot (junk : list Z) (p : option sigproc) : consys := ConSys (Cons junk 0 0 0 0) [] [] p 0.

(** *** How much is unread *)

Definition unread (l : line) : nat := length (ready l ++ edit l).
Definition is_erase (x : cinput) : bool := if x is Key c then bool_decide (c = 8 ∨ c = 9 ∨ c = 127) else false.
Definition erases (xs : list cinput) : nat := length (filter is_erase xs).
Definition line_mode (x : cinput) : Prop := if x is Mode m then m = 0 else True.

Lemma take_line_le target rem room l : (length (take_line target rem room l).1.2 ≤ length l)%nat.
Proof.
  revert room l. induction rem as [|rem IH]; intros room [|c l]; cbn; [lia..|]. destruct (c =? 4); cbn; [case_match; cbn; lia|].
  destruct room as [|room]; cbn; [lia|]. destruct (c =? 10); cbn; [lia|].
  specialize (IH room l). destruct (take_line target rem room l) as [[d l2] b]. cbn in *. lia.
Qed.

Lemma removelast_le (l : list Z) : (length (removelast l) ≤ length l)%nat.
Proof. induction l as [|x [|y l] IH]; cbn in *; lia. Qed.

(** Only an erase key of raw mode finds no limit. *)
Lemma line_step_unread l x d l' : line_step l x d l' →
  (unread l' ≤ unread l `max` 128 + (if raw l then Nat.b2n (is_erase x) else 0))%nat ∧
  (raw l = false → line_mode x → raw l' = false).
Proof.
  unfold unread. intros [c l0|m l0|target rem room l0 d0 l2 b E].
  - unfold key_line, is_erase. rewrite !length_app. destruct (bool_decide (c = 3 ∨ c = 16)); [split; [lia|done]|].
    destruct (c =? 21); [cbn; split; [lia|done]|]. destruct (bool_decide (c = 8 ∨ _)).
    { destruct (raw l0) eqn:Er; [unfold store_key; cbn [ready edit]; rewrite !length_app, length_imap, length_app; cbn; split; [lia|done]|].
      pose proof (removelast_le (edit l0)). destruct (c =? 9); cbn; [split; [lia|done]|split; [lia|done]]. }
    destruct (_ || _) eqn:Es; [split; [lia|done]|]. apply orb_false_iff in Es as [_ Hl%bool_decide_eq_false].
    destruct (_ || bool_decide _) eqn:Eb; cbn [ready edit raw]; rewrite !length_app; cbn [length]; (split; [lia|done]).
  - cbn. rewrite !length_app. split; [lia|]. intros _ ->. done.
  - pose proof (take_line_le target rem room (ready l0)) as H. rewrite E in H. cbn in *. rewrite !length_app. split; [lia|done].
Qed.

(** C29. The console delivers lines.  For any sequence of keys, mode changes and
    reads into any buffers, across wrap-around of the 32-bit indices, the bytes
    that reach readers are those of the line discipline, in which a line can be
    edited until it is complete, and erase keys never reach into a complete
    line.  At most 128 characters are unread as long as the console stays in
    line mode.  In raw mode tab and the erase keys are stored without a test for
    space: each may add one more, which replaces the character 128 places before
    it ([store_key]).  A run has fewer than [2^32 - 129] inputs, so that the
    unread characters can be counted in 32 bits. *)
Theorem console_refines (junk : list Z) (p : option sigproc) (xs : list cinput) (out : list Z) (s : consys) :
  length junk = 128%nat → Z.of_nat (length xs) < 2 ^ 32 - 129 → steps con_step (con_boot junk p) xs out s →
  steps line_step (Line [] [] false) xs out (lines (con s)) ∧
  (unread (lines (con s)) ≤ 128 + erases xs)%nat ∧
  (Forall line_mode xs → (unread (lines (con s)) ≤ 128)%nat).
Proof.
  intros Hj Hlen Hr.
  assert (H : cons_ok (con s) ∧ 10 ∉ edit (lines (con s)) ∧ steps line_step (Line [] [] false) xs out (lines (con s)) ∧
    (unread (lines (con s)) ≤ 128 + erases xs)%nat ∧
    (Forall line_mode xs → (unread (lines (con s)) ≤ 128)%nat ∧ raw (lines (con s)) = false)); [|naive_solver].
  induction Hr as [|xs out x d t t' _ IH Hst].
  { split_and!; [by constructor|set_solver|exact (SNil _ _)|apply Nat.le_0_l|intros _; split; [apply Nat.le_0_l|done]]. }
  rewrite length_app in Hlen. cbn in Hlen. destruct IH as (Hk & Hnl & Hs & Hu & Hm); [lia|].
  assert (erases xs ≤ length xs)%nat by apply length_filter.
  destruct (con_step_lines _ _ _ _ Hk Hnl ltac:(unfold unread in Hu; lia) Hst) as (H1 & H2 & H3).
  destruct (line_step_unread _ _ _ _ H3) as [H4 H5].
  assert (erases (xs ++ [x]) = erases xs + Nat.b2n (is_erase x))%nat as ->.
  { unfold erases. rewrite filter_app, length_app. f_equal. rewrite filter_cons, filter_nil. by destruct (is_erase x). }
  split_and!; [done|done|by econstructor|destruct (raw _); lia|].
  rewrite Forall_app, Forall_singleton. intros [Hxs Hx]. destruct (Hm Hxs) as [Hu' Hraw]. rewrite Hraw in H4. split; [lia|auto].
Qed.

(** Lines on a concrete console: h, i, backspace, o, enter, and a read of ten. *)
Definition ex_um : umem := λ a, if (100 <=? a) && (a <? 110) then Some 0 else None.
Definition ex_keys (ks : list Z) (s : consys) : consys := fold_left (λ s c, consoleintr c s) ks s.
Definition ex_con : consys := ex_keys [104; 105; 127; 111; 13] (con_boot (replicate 128 0) None).

Lemma key_step junk p xs out s c : steps con_step (con_boot junk p) xs out s → 0 ≤ c < 256 →
  steps con_step (con_boot junk p) (xs ++ [Key c]) out (consoleintr c s).
Proof. intros Hs Hf. rewrite <-(app_nil_r out). eapply SNext; [exact Hs|]. by constructor. Qed.

Lemma console_refines_witness : ∃ s,
  steps con_step (con_boot (replicate 128 0) None) [Key 104; Key 105; Key 127; Key 111; Key 13; Read 10 10 10] [104; 111; 10] s ∧
  steps line_step (Line [] [] false) [Key 104; Key 105; Key 127; Key 111; Key 13; Read 10 10 10] [104; 111; 10] (lines (con s)).
Proof.
  set (r := consoleread_from ex_um false 10 10 100 (con ex_con)).
  assert (Hr : steps con_step (con_boot (replicate 128 0) None) [Key 104; Key 105; Key 127; Key 111; Key 13; Read 10 10 10] [104; 111; 10]
    (ex_con <| con := r.1.2 |>)).
  { eapply (SNext _ _ [Key 104; Key 105; Key 127; Key 111; Key 13] [] _ [104; 111; 10] ex_con).
    - apply (key_step _ _ [_; _; _; _]); [|lia]. apply (key_step _ _ [_; _; _]); [|lia].
      apply (key_step _ _ [_; _]); [|lia]. apply (key_step _ _ [_]); [|lia]. apply (key_step _ _ []); [constructor|lia].
    - refine (CSRead ex_um 100 false 10 10 10 ex_con r.1.1 r.1.2 r.2 3 _ _ _ _); [lia| |by vm_compute|by vm_compute].
      split; [|lia]. intros j Hj. unfold ex_um. rewrite (proj2 (Z.leb_le _ _)), (proj2 (Z.ltb_lt _ _)) by lia. done. }
  eexists. split; [exact Hr|]. refine (proj1 (console_refines (replicate 128 0) None _ _ _ eq_refl _ Hr)). cbn. lia.
Defined.

(** ** Two defects *)

(** In raw mode a tab is stored without a look at the space: 128 of them replace
    the letter that was typed first. *)
Lemma raw_tab_overruns :
  let s := ex_keys (97 :: replicate 128 9) (consolerawmode 1 (con_boot (replicate 128 0) None)) in
  u32 (c_e (con s) - c_r (con s)) = 129 ∧
  let '(r, _, um) := consoleread ex_um false 100 1 (con s) in r = CRet 1 ∧ um 100 = Some 9.
Proof. by vm_compute. Qed.

(** What [consolewrite] sends is what the process has in its buffer, up to the
    first address that is not mapped. *)
Lemma consolewrite_out um room rem i src u : uart_ok u →
  match consolewrite_from um room rem i src u with
  | Ret (n, u') => uart_ok u' ∧ ∃ k, n = (i + k)%nat ∧ (k ≤ rem)%nat ∧ ((k < rem)%nat → um (src + Z.of_nat n) = None) ∧
      u_sent u' ++ tx_pending u' = u_sent u ++ tx_pending u ++ (u8 <$> ubytes um (src + Z.of_nat i) k)
  | Panic m => m = "sched locks"%string
  | Blocks => False
  end.
Proof.
  revert i u. induction rem as [|rem IH]; intros i u Hu; cbn [consolewrite_from].
  { split; [done|]. exists 0%nat. rewrite app_nil_r. split_and!; [lia|lia|lia|done]. }
  unfold copyin. destruct (um (src + Z.of_nat i)) as [c|] eqn:Hc.
  2:{ split; [done|]. exists 0%nat. rewrite app_nil_r, Nat.add_0_r. split_and!; [done|lia|done|done]. }
  pose proof (uartputc_fifo (room i) c u Hu) as Hp. destruct (uartputc (room i) c u) as [u1|]; [|done].
  destruct Hp as [Hu1 Hp]. specialize (IH (S i) u1 Hu1). destruct consolewrite_from as [[n u']| |]; [|done..].
  destruct IH as (Hu' & k & -> & Hk & Hlt & Hout). split; [done|]. exists (S k). split_and!; [lia|lia| |].
  - intros H. apply Hlt. lia.
  - rewrite Hout, app_assoc, Hp, ubytes_S, Hc. cbn. rewrite <-!app_assoc. cbn.
    replace (src + Z.of_nat (S i)) with (src + Z.of_nat i + 1) by lia. done.
Qed.

(** While the port is busy, a write of 32 bytes stops the kernel: the process
    would sleep with [cons.lock] held. *)
Lemma consolewrite_panics :
  consolewrite (λ _, Some 65) (λ _, O) 0 32 (Uart (replicate 32 0) 0 0 []) = Panic "sched locks".
Proof. by vm_compute. Qed.
