(* ===== verification/Printf.v ===== *)
(** * printf.c: formatted output

    Text is a list of character codes without its terminator.  The arguments of
    a call are a list; taking one that is not there, or that has another type, is
    undefined in C, and [None] here, as is reading past the end of the format.
    [printf] gives the characters it sends to the console; [snprintf] works on
    the bytes of its buffer. *)

From S2P Require Import Prelude.

Abbreviation text := (list Z).

(** An argument: an int, a 64-bit value, or a string pointer that may be null. *)
Inductive arg := AInt (z : Z) | APtr (z : Z) | AStr (s : option text).

(** The array [digits]: 0 to 9, then a to f. *)
Definition digits : text := [48; 49; 50; 51; 52; 53; 54; 55; 56; 57; 97; 98; 99; 100; 101; 102].
Definition digit (d : Z) : Z := default 0 (digits !! Z.to_nat d).
Definition null_text : text := [40; 110; 117; 108; 108; 41].

(** [do buf[i++] = digits[x % base]; while ((x /= base) != 0)]: the digits from
    the last.  A [uint] has at most 32 of them in any base. *)
Fixpoint conv (fuel : nat) (x base : Z) : text :=
  match fuel with
  | O => []
  | S fuel' => digit (x mod base) :: if x / base =? 0 then [] else conv fuel' (x / base) base
  end.

(** The buffer [buf] of [printint] ([tmp] of the others) when it is complete. *)
Definition int_buf (xx base : Z) (sign : bool) : text :=
  let neg := sign && (xx <? 0) in
  conv 32 (u32 (if neg then - xx else xx)) base ++ (if neg then [45] else []).

Definition printint (xx base : Z) (sign : bool) : text := reverse (int_buf xx base sign).

Fixpoint printptr_from (n : nat) (x : Z) : text :=
  match n with
  | O => []
  | S n' => digit (Z.shiftr x 60) :: printptr_from n' (u64 (Z.shiftl x 4))
  end.
Definition printptr (x : Z) : text := 48 :: 120 :: printptr_from 16 x.

(** [va_arg] of each type. *)
Definition arg_int (l : list arg) : option (Z * list arg) := match l with AInt z :: l' => Some (z, l') | _ => None end.
Definition arg_ptr (l : list arg) : option (Z * list arg) := match l with APtr z :: l' => Some (z, l') | _ => None end.
Definition arg_str (l : list arg) : option (text * list arg) :=
  match l with AStr s :: l' => Some (default null_text s, l') | _ => None end.

(** The cases are d, x, p, s and the percent sign. *)
Fixpoint printf (fmt : text) (args : list arg) : option text :=
  match fmt with
  | [] => Some []
  | c :: fmt1 =>
      if negb (c =? 37) then cons c <$> printf fmt1 args
      else
        match fmt1 with
        | [] => Some []
        | c :: fmt2 =>
            if c =? 100 then '(z, args') ← arg_int args; app (printint z 10 true) <$> printf fmt2 args'
            else if c =? 120 then '(z, args') ← arg_int args; app (printint z 16 true) <$> printf fmt2 args'
            else if c =? 112 then '(z, args') ← arg_ptr args; app (printptr z) <$> printf fmt2 args'
            else if c =? 115 then '(t, args') ← arg_str args; app t <$> printf fmt2 args'
            else if c =? 37 then cons 37 <$> printf fmt2 args
            else app [37; c] <$> printf fmt2 args
        end
  end.

(** ** snprintf *)

(** The buffer and the position in it. *)
Abbreviation sbuf := (text * nat)%type.
Definition sput (c : Z) (b : sbuf) : sbuf := (<[b.2 := c]> b.1, S b.2).

(** [while (... && pos < size - 1) buf[pos++] = ...] over the characters of [l]. *)
Fixpoint sputs (size : nat) (l : text) (b : sbuf) : sbuf :=
  match l with
  | [] => b
  | c :: l' => if (b.2 <? size - 1)%nat then sputs size l' (sput c b) else b
  end.

Definition sprintint (size : nat) (xx base : Z) (sign : bool) (b : sbuf) : sbuf :=
  sputs size (reverse (int_buf xx base sign)) b.

(** The digits of a width: the width and the rest of the format. *)
Fixpoint parse_width (fmt : text) (width : Z) : Z * text :=
  match fmt with
  | c :: fmt' => if (48 <=? c) && (c <=? 57) then parse_width fmt' (i32 (width * 10 + (c - 48))) else (width, fmt)
  | [] => (width, [])
  end.

(** [while (len < width && pos < size - 1)]: the padding of [%0<width>d]. *)
Definition pad (size : nat) (len width : Z) (b : sbuf) : sbuf := sputs size (replicate (Z.to_nat (width - len)) 48) b.

(** The loop over the format, with a turn for each of its characters at most.
    The cases are d, x, s, the percent sign and 0. *)
Fixpoint snprintf_loop (fuel size : nat) (fmt : text) (args : list arg) (b : sbuf) : option sbuf :=
  match fuel with
  | O => None
  | S fuel' =>
      match fmt with
      | [] => Some b
      | c :: fmt1 =>
          if negb (b.2 <? size - 1)%nat then Some b
          else if negb (c =? 37) then snprintf_loop fuel' size fmt1 args (sput c b)
          else
            match fmt1 with
            | [] => Some b
            | c :: fmt2 =>
                if c =? 100 then '(z, args') ← arg_int args; snprintf_loop fuel' size fmt2 args' (sprintint size z 10 true b)
                else if c =? 120 then '(z, args') ← arg_int args; snprintf_loop fuel' size fmt2 args' (sprintint size z 16 false b)
                else if c =? 115 then '(t, args') ← arg_str args; snprintf_loop fuel' size fmt2 args' (sputs size t b)
                else if c =? 37 then snprintf_loop fuel' size fmt2 args (sput 37 b)
                else if c =? 48 then
                  let '(width, fmt3) := parse_width fmt2 0 in
                  match fmt3 with
                  | [] => None                (* the loop goes on past the terminator *)
                  | c :: fmt4 =>
                      if c =? 100 then
                        '(z, args') ← arg_int args;
                        let tmp := int_buf z 10 true in
                        snprintf_loop fuel' size fmt4 args'
                          (sputs size (reverse tmp) (pad size (Z.of_nat (length tmp)) width b))
                      else snprintf_loop fuel' size fmt4 args b
                  end
                else
                  let b := sput 37 b in
                  snprintf_loop fuel' size fmt2 args (if (b.2 <? size - 1)%nat then sput c b else b)
            end
      end
  end.

(** The result and the buffer; [buf] has [size] bytes. *)
Definition snprintf (buf : text) (size : Z) (fmt : text) (args : list arg) : option (Z * text) :=
  if size <=? 0 then Some (0, buf)
  else
    b ← snprintf_loop (S (length fmt)) (Z.to_nat size) fmt args (buf, O);
    Some (Z.of_nat b.2, <[b.2 := 0]> b.1).

(** ** The text a format describes, without a bound *)
Fixpoint format (fuel : nat) (fmt : text) (args : list arg) : option text :=
  match fuel with
  | O => None
  | S fuel' =>
      match fmt with
      | [] => Some []
      | c :: fmt1 =>
          if negb (c =? 37) then cons c <$> format fuel' fmt1 args
          else
            match fmt1 with
            | [] => Some []
            | c :: fmt2 =>
                if c =? 100 then '(z, args') ← arg_int args; app (printint z 10 true) <$> format fuel' fmt2 args'
                else if c =? 120 then '(z, args') ← arg_int args; app (printint z 16 false) <$> format fuel' fmt2 args'
                else if c =? 115 then '(t, args') ← arg_str args; app t <$> format fuel' fmt2 args'
                else if c =? 37 then cons 37 <$> format fuel' fmt2 args
                else if c =? 48 then
                  let '(width, fmt3) := parse_width fmt2 0 in
                  match fmt3 with
                  | [] => None
                  | c :: fmt4 =>
                      if c =? 100 then
                        '(z, args') ← arg_int args;
                        let t := printint z 10 true in
                        app (replicate (Z.to_nat (width - Z.of_nat (length t))) 48 ++ t) <$> format fuel' fmt4 args'
                      else format fuel' fmt4 args
                  end
                else app [37; c] <$> format fuel' fmt2 args
            end
      end
  end.

(** ** Bytes put so far *)

(** The buffer holds as much of [out] as fits before the last byte, and behind it
    what it held before. *)
Record holds (size : nat) (buf0 out : text) (b : sbuf) : Prop := Holds {
  h_len : length b.1 = length buf0;
  h_pos : b.2 = Nat.min (length out) (size - 1);
  h_text : take b.2 b.1 = take b.2 out;
  h_rest : drop b.2 b.1 = drop b.2 buf0;
}.

Section holds.
Context (size : nat) (buf0 : text) (Hsize : (0 < size ≤ length buf0)%nat).

(** A full buffer holds any longer text. *)
Lemma holds_full out l b : holds size buf0 out b → (b.2 <? size - 1)%nat = false → holds size buf0 (out ++ l) b.
Proof.
  intros [H1 H2 H3 H4] Hf%Nat.ltb_ge. constructor; [done| |rewrite take_app_le by lia; done|done].
  rewrite length_app. lia.
Qed.

Lemma holds_put out c b : holds size buf0 out b → (b.2 < size - 1)%nat → holds size buf0 (out ++ [c]) (sput c b).
Proof using Hsize.
  intros [H1 H2 H3 H4] Hf. destruct b as [t n]. cbn in *. assert (Hn : n = length out) by lia.
  constructor; cbn.
  - by rewrite length_insert.
  - rewrite length_app. cbn. lia.
  - rewrite (take_S_r _ _ c) by (apply list_lookup_insert_eq; lia). rewrite take_insert_ge, H3, Hn by lia. rewrite (take_ge (out ++ [c])) by (rewrite length_app; cbn; lia).
    by rewrite take_ge.
  - rewrite drop_insert_lt by lia. rewrite <-Nat.add_1_r, <-!drop_drop. by rewrite H4.
Qed.

Lemma holds_puts l out b : holds size buf0 out b → holds size buf0 (out ++ l) (sputs size l b).
Proof using Hsize.
  revert out b. induction l as [|c l IH]; intros out b Hb; cbn [sputs]; [by rewrite app_nil_r|].
  destruct (b.2 <? size - 1)%nat eqn:Hf; [|by apply holds_full].
  replace (out ++ c :: l) with ((out ++ [c]) ++ l) by (by rewrite <-app_assoc). apply IH, holds_put; [done|].
  by apply Nat.ltb_lt.
Qed.
End holds.

(** The loop writes the text of the format, as far as it fits. *)
Lemma snprintf_loop_holds size buf0 fuel fmt args out o b : (0 < size ≤ length buf0)%nat →
  holds size buf0 out b → format fuel fmt args = Some o →
  ∃ b', snprintf_loop fuel size fmt args b = Some b' ∧ holds size buf0 (out ++ o) b'.
Proof.
  intros Hs. revert fmt args out o b. induction fuel as [|fuel IH]; intros fmt args out o b Hb Ho; [done|].
  cbn [format] in Ho. cbn [snprintf_loop].
  destruct fmt as [|c fmt1]; [injection Ho as <-; exists b; by rewrite app_nil_r|].
  destruct (b.2 <? size - 1)%nat eqn:Hf; cbn [negb]; [|exists b; split; [done|by apply holds_full]].
  assert (Hlt : (b.2 < size - 1)%nat) by (by apply Nat.ltb_lt).
  assert (Hnext : ∀ l fmt' args' o' b', holds size buf0 (out ++ l) b' → format fuel fmt' args' = Some o' → o = l ++ o' →
    ∃ b2, snprintf_loop fuel size fmt' args' b' = Some b2 ∧ holds size buf0 (out ++ o) b2).
  { intros l fmt' args' o' b' Hb' Ho' ->. destruct (IH fmt' args' (out ++ l) o' b' Hb' Ho') as (b2 & E & H2).
    exists b2. by rewrite app_assoc. }
  destruct (negb (c =? 37)).
  { apply fmap_Some in Ho as (o' & Ho & ->). apply (Hnext [c] _ _ o'); [by apply holds_put|done|done]. }
  destruct fmt1 as [|d fmt2]; [injection Ho as <-; exists b; by rewrite app_nil_r|].
  destruct (d =? 100).
  { apply bind_Some in Ho as ([z args'] & -> & (o' & Ho & ->)%fmap_Some). cbn. eapply Hnext; [by apply holds_puts|done|done]. }
  destruct (d =? 120).
  { apply bind_Some in Ho as ([z args'] & -> & (o' & Ho & ->)%fmap_Some). cbn. eapply Hnext; [by apply holds_puts|done|done]. }
  destruct (d =? 115).
  { apply bind_Some in Ho as ([t args'] & -> & (o' & Ho & ->)%fmap_Some). cbn. eapply Hnext; [by apply holds_puts|done|done]. }
  destruct (d =? 37).
  { apply fmap_Some in Ho as (o' & Ho & ->). apply (Hnext [37] _ _ o'); [by apply holds_put|done|done]. }
  destruct (d =? 48).
  { destruct (parse_width fmt2 0) as [width [|e fmt4]]; [done|]. destruct (e =? 100).
    - apply bind_Some in Ho as ([z args'] & -> & (o' & Ho & ->)%fmap_Some). cbn. eapply Hnext; [|done|done].
      rewrite app_assoc. apply holds_puts; [done|]. unfold pad. unfold printint. rewrite length_reverse. by apply holds_puts.
    - apply (Hnext [] _ _ o); [by rewrite app_nil_r|done|done]. }
  apply fmap_Some in Ho as (o' & Ho & ->). apply (Hnext [37; d] _ _ o'); [|done|done].
  pose proof (holds_put size buf0 Hs out 37 b Hb Hlt) as H1. replace (out ++ [37; d]) with ((out ++ [37]) ++ [d]) by (by rewrite <-app_assoc).
  destruct ((sput 37 b).2 <? size - 1)%nat eqn:Hf2; [|by apply holds_full]. apply holds_put; [done..|]. by apply Nat.ltb_lt.
Qed.

(** C38. snprintf writes the text of its format, cut to the size of the buffer:
    for every format and arguments it has a meaning for, it returns how many
    characters it wrote, the whole text or size - 1 of it, ends them with a null
    byte, and changes no byte behind that, however the text was put together. *)
Theorem snprintf_correct (buf fmt out : text) (size : Z) (args : list arg) :
  0 < size ≤ Z.of_nat (length buf) → format (S (length fmt)) fmt args = Some out →
  ∃ buf', snprintf buf size fmt args = Some (Z.min (Z.of_nat (length out)) (size - 1), buf') ∧
    length buf' = length buf ∧
    buf' = take (Z.to_nat (size - 1)) out ++ 0 :: drop (S (Nat.min (length out) (Z.to_nat (size - 1)))) buf.
Proof.
  intros Hs Ho. unfold snprintf. rewrite (proj2 (Z.leb_gt size 0)) by lia.
  destruct (snprintf_loop_holds (Z.to_nat size) buf _ _ _ [] out (buf, O) ltac:(lia) ltac:(done) Ho) as ([t n] & -> & H).
  cbn in H. destruct H as [H1 H2 H3 H4]. cbn in *. eexists. split; [f_equal; f_equal; lia|]. split; [by rewrite length_insert|].
  rewrite insert_take_drop by lia. rewrite H3. replace (Z.to_nat (size - 1)) with (Z.to_nat size - 1)%nat by lia. f_equal.
  - destruct (decide (length out ≤ Z.to_nat size - 1)%nat); [rewrite !take_ge by lia; done|]. f_equal. lia.
  - f_equal. rewrite <-H2, <-(Nat.add_1_r n), <-!drop_drop. by rewrite H4.
Qed.

Lemma snprintf_correct_witness : ∃ buf',
  snprintf (replicate 8 1) 8 [97; 61; 37; 48; 51; 100; 44; 37; 115] [AInt 7; AStr (Some [120; 121; 122])] = Some (7, buf') ∧
  buf' = [97; 61; 48; 48; 55; 44; 120; 0].
Proof.
  destruct (snprintf_correct (replicate 8 1) [97; 61; 37; 48; 51; 100; 44; 37; 115] [97; 61; 48; 48; 55; 44; 120; 121; 122] 8
    [AInt 7; AStr (Some [120; 121; 122])]) as (buf' & E & _ & ->); [by vm_compute|by vm_compute|].
  eexists. split; [exact E|by vm_compute].
Defined.

(** ** Numbers *)

(** The number digits from the last stand for. *)
Definition undigit (c : Z) : Z := if c <? 97 then c - 48 else c - 87.
Definition value_of (base : Z) (l : text) : Z := foldr (λ c v, undigit c + base * v) 0 l.

Lemma digit_table : Forall (λ d, undigit (digit d) = d ∧ 48 ≤ digit d) (seqZ 0 16).
Proof. by repeat constructor. Qed.
Lemma digit_ok d : 0 ≤ d < 16 → undigit (digit d) = d ∧ 48 ≤ digit d.
Proof. intros H. apply (proj1 (Forall_forall _ _) digit_table). apply elem_of_seqZ. lia. Qed.

Lemma conv_value fuel x base : 2 ≤ base ≤ 16 → 0 ≤ x < 2 ^ Z.of_nat fuel →
  value_of base (conv fuel x base) = x ∧ conv fuel x base ≠ [] ∨ fuel = O.
Proof.
  intros Hb. revert x. induction fuel as [|fuel IH]; intros x Hx; [by right|]. left. split; [|done]. cbn [conv value_of foldr].
  rewrite (proj1 (digit_ok (x mod base) ltac:(pose proof (Z.mod_pos_bound x base); lia))).
  assert (Hq : x = base * (x / base) + x mod base) by (apply Z.div_mod; lia).
  destruct (Z.eqb_spec (x / base) 0) as [H0|H0]; [cbn; lia|].
  assert (Hr : 0 ≤ x / base < 2 ^ Z.of_nat fuel).
  { split; [apply Z.div_pos; lia|]. apply Z.div_lt_upper_bound; [lia|]. rewrite Nat2Z.inj_succ, Z.pow_succ_r in Hx by lia. nia. }
  destruct (IH _ Hr) as [[Hv _]| ->].
  - fold (value_of base (conv fuel (x / base) base)). rewrite Hv. lia.
  - cbn in Hr. lia.
Qed.

Lemma conv_digits fuel x base c : 2 ≤ base ≤ 16 → c ∈ conv fuel x base → 48 ≤ c.
Proof.
  intros Hb. revert x. induction fuel as [|fuel IH]; intros x; cbn [conv]; [by intros ?%elem_of_nil|].
  intros [->|H]%elem_of_cons; [apply digit_ok; pose proof (Z.mod_pos_bound x base); lia|].
  destruct (_ =? 0); [by apply elem_of_nil in H|by eapply IH].
Qed.

(** The way back from text to number. *)
Definition parse_int (base : Z) (t : text) : Z :=
  match t with
  | c :: t' => if c =? 45 then - value_of base (reverse t') else value_of base (reverse t)
  | [] => 0
  end.

(** Printed numbers can be read back: all 32-bit integers, in decimal and in
    hexadecimal, the smallest one included. *)
Lemma printint_roundtrip xx base : - 2 ^ 31 ≤ xx < 2 ^ 31 → base = 10 ∨ base = 16 → parse_int base (printint xx base true) = xx.
Proof.
  intros Hx Hb. unfold printint, int_buf. cbn [andb]. destruct (Z.ltb_spec xx 0).
  - rewrite reverse_snoc. cbn [parse_int Z.eqb Pos.eqb]. rewrite reverse_involutive.
    destruct (conv_value 32 (u32 (- xx)) base) as [[-> _]|]; [lia|apply u32_range| |done]. rewrite u32_small; lia.
  - rewrite app_nil_r, (u32_small xx) by lia. destruct (conv_value 32 xx base) as [[Hv Hne]|]; [lia|lia| |done].
    unfold parse_int. destruct (reverse (conv 32 xx base)) as [|c t] eqn:E.
    { apply (f_equal reverse) in E. by rewrite reverse_involutive in E. }
    assert (48 ≤ c).
    { apply (conv_digits 32 xx base); [lia|]. rewrite <-elem_of_reverse, E. by left. }
    rewrite (proj2 (Z.eqb_neq c 45)) by lia. by rewrite <-E, reverse_involutive.
Qed.

(** The buffers of 16 characters are long enough. *)
Lemma conv_length fuel x base n : 2 ≤ base → (0 < n)%nat → 0 ≤ x < base ^ Z.of_nat n → (length (conv fuel x base) ≤ n)%nat.
Proof.
  intros Hb. revert x n. induction fuel as [|fuel IH]; intros x n Hn Hx; cbn [conv length]; [lia|].
  destruct (Z.eqb_spec (x / base) 0) as [|H0]; [cbn; lia|]. destruct n as [|n]; [lia|].
  assert (Hr : 0 ≤ x / base < base ^ Z.of_nat n).
  { split; [apply Z.div_pos; lia|]. apply Z.div_lt_upper_bound; [lia|]. rewrite Nat2Z.inj_succ, Z.pow_succ_r in Hx by lia. lia. }
  destruct n as [|n]; [cbn in Hr; lia|]. specialize (IH (x / base) (S n) ltac:(lia) Hr). lia.
Qed.

Lemma int_buf_length xx base sign : base = 10 ∨ base = 16 → (length (int_buf xx base sign) ≤ 16)%nat.
Proof.
  intros Hb. unfold int_buf. rewrite length_app. set (x := u32 _). pose proof (u32_range (if sign && (xx <? 0) then - xx else xx)) as Hr.
  fold x in Hr. assert (length (conv 32 x base) ≤ 10)%nat.
  { apply conv_length; [lia|lia|]. change (Z.of_nat 10) with 10. destruct Hb as [-> | ->]; lia. }
  destruct (sign && (xx <? 0)); cbn [length]; lia.
Qed.

(** Zeros for the width come before the sign: minus five in width three. *)
Lemma snprintf_pads_before_sign :
  snprintf (replicate 8 1) 8 [37; 48; 51; 100] [AInt (-5)] = Some (3, [48; 45; 53; 0; 1; 1; 1; 1]).
Proof. by vm_compute. Qed.
