(* ===== verification/Spinlock.v ===== *)
(** * spinlock.c: spin locks and interrupt nesting

    Each CPU has the [noff]/[intena] counters of [struct cpu], its
    interrupt-enable bit and a place in the code: outside spinlock.c, or at a
    line of [acquire] or [release].  A step is one access to shared memory, so
    the steps of several CPUs interleave between the test of [holding], the
    atomic swap, and the writes to [lk->cpu] and [lk->locked].  The critical
    sections a CPU is in (the locks whose [acquire] has returned and whose
    [release] has not been called) are kept beside the state of the code. *)

From stdpp Require Import functions.
From S2P Require Import Prelude.

(** ** State *)

Record cpu := Cpu {
  c_noff : Z;                           (* depth of push_off nesting *)
  c_intena : bool;                      (* were interrupts on before push_off *)
  c_intr : bool;                        (* sstatus.SIE: interrupts are on *)
}.
#[export] Instance cpu_fields : Fields cpu := λ c, Cpu (c_noff c) (c_intena c) (c_intr c).

Record spinlock := Spinlock { sl_locked : bool; sl_cpu : option nat }.
#[export] Instance spinlock_fields : Fields spinlock := λ l, Spinlock (sl_locked l) (sl_cpu l).

Definition initlock : spinlock := Spinlock false None.

(** ** Operations *)

Definition push_off (c : cpu) : cpu :=
  let old := c_intr c in
  let c := c <| c_intr := false |> in
  let c := if c_noff c =? 0 then c <| c_intena := old |> else c in
  c <| c_noff ::= λ n, n + 1 |>.

Definition pop_off (c : cpu) : outcome cpu :=
  if c_intr c then Panic "pop_off - interruptible"
  else if c_noff c <? 1 then Panic "pop_off"
  else
    let c := c <| c_noff ::= λ n, n - 1 |> in
    Ret (if (c_noff c =? 0) && c_intena c then c <| c_intr := true |> else c).

Definition holding (id : nat) (l : spinlock) : bool := sl_locked l && bool_decide (sl_cpu l = Some id).

(** [__sync_lock_test_and_set(&lk->locked, 1)] *)
Definition swap (l : spinlock) : bool * spinlock := (sl_locked l, l <| sl_locked := true |>).

(** Where a CPU is. *)
Inductive place :=
| Out                                   (* not in acquire or release *)
| TestLocked (k : nat)                  (* acquire, after push_off: holding reads lk->locked *)
| TestCpu (k : nat)                     (* ... which is set: holding reads lk->cpu *)
| Spin (k : nat)                        (* at the swap *)
| Took (k : nat)                        (* the swap returned 0; lk->cpu is not written yet *)
| Drop (k : nat)                        (* release, after lk->cpu = 0 *)
| Freed (k : nat).                      (* after the release of lk->locked: pop_off is left *)

(** [co_crit] are the critical sections the CPU is in, [co_depth] is the number
    of its [push_off]s that do not come from [acquire]. *)
Record core := Core { co_cpu : cpu; co_at : place; co_crit : list nat; co_depth : nat }.
#[export] Instance core_fields : Fields core := λ c, Core (co_cpu c) (co_at c) (co_crit c) (co_depth c).

Record mach := Mach { cores : nat → core; locks : nat → spinlock }.
#[export] Instance mach_fields : Fields mach := λ s, Mach (cores s) (locks s).

Definition on_core (i : nat) (f : core → core) (s : mach) : mach := s <| cores ::= λ g, <[i := f (g i)]> g |>.
Definition on_lock (k : nat) (f : spinlock → spinlock) (s : mach) : mach := s <| locks ::= λ g, <[k := f (g k)]> g |>.
Definition go (p : place) (c : core) : core := c <| co_at := p |>.

(** *** acquire(lk), line by line *)

Definition acquire_push (k : nat) (c : core) : core := go (TestLocked k) (c <| co_cpu ::= push_off |>).

Definition acquire_test_locked (i k : nat) (s : mach) : mach :=
  on_core i (go (if sl_locked (locks s k) then TestCpu k else Spin k)) s.

Definition acquire_test_cpu (i k : nat) (s : mach) : outcome mach :=
  if bool_decide (sl_cpu (locks s k) = Some i) then Panic "acquire" else Ret (on_core i (go (Spin k)) s).

Definition acquire_swap (i k : nat) (s : mach) : mach :=
  let '(old, l) := swap (locks s k) in
  on_core i (go (if old : bool then Spin k else Took k)) (on_lock k (λ _, l) s).

Definition acquire_record (i k : nat) (s : mach) : mach :=
  on_core i (λ c, go Out (c <| co_crit ::= cons k |>)) (on_lock k (λ l, l <| sl_cpu := Some i |>) s).

(** *** release(lk), line by line *)

Definition without (k : nat) (l : list nat) : list nat := filter (λ x, x ≠ k) l.

Definition release_clear (i k : nat) (s : mach) : outcome mach :=
  if negb (holding i (locks s k)) then Panic "release"
  else Ret (on_core i (λ c, go (Drop k) (c <| co_crit ::= without k |>))
              (on_lock k (λ l, l <| sl_cpu := None |>) s)).

Definition release_unlock (i k : nat) (s : mach) : mach :=
  on_core i (go (Freed k)) (on_lock k (λ l, l <| sl_locked := false |>) s).

Definition release_pop (c : core) : outcome core :=
  match pop_off (co_cpu c) with
  | Ret x => Ret (go Out (c <| co_cpu := x |>))
  | Panic msg => Panic msg
  | Blocks => Blocks
  end.

(** ** Runs of all CPUs *)

Definition at_ (s : mach) (i : nat) : place := co_at (cores s i).

(** A CPU outside spinlock.c may call [acquire], [release], [push_off], a
    matching [pop_off], and switch interrupts when it has not pushed them off. *)
Inductive lock_step : mach → mach → Prop :=
| LPush i k s : at_ s i = Out → lock_step s (on_core i (acquire_push k) s)
| LTestLocked i k s : at_ s i = TestLocked k → lock_step s (acquire_test_locked i k s)
| LTestCpu i k s s' : at_ s i = TestCpu k → acquire_test_cpu i k s = Ret s' → lock_step s s'
| LSwap i k s : at_ s i = Spin k → lock_step s (acquire_swap i k s)
| LRecord i k s : at_ s i = Took k → lock_step s (acquire_record i k s)
| LClear i k s s' : at_ s i = Out → release_clear i k s = Ret s' → lock_step s s'
| LUnlock i k s : at_ s i = Drop k → lock_step s (release_unlock i k s)
| LPop i k s c : at_ s i = Freed k → release_pop (cores s i) = Ret c → lock_step s (on_core i (λ _, c) s)
| LPushOff i s :
    at_ s i = Out → lock_step s (on_core i (λ c, c <| co_cpu ::= push_off |> <| co_depth ::= S |>) s)
| LPopOff i d x s :
    at_ s i = Out → co_depth (cores s i) = S d → pop_off (co_cpu (cores s i)) = Ret x →
    lock_step s (on_core i (λ c, c <| co_cpu := x |> <| co_depth := d |>) s)
| LIntr i b s :
    at_ s i = Out → c_noff (co_cpu (cores s i)) = 0 →
    lock_step s (on_core i (λ c, c <| co_cpu ::= λ x, x <| c_intr := b |> |>) s).

(** ** Who has a lock *)

(** The CPU has won the swap on lock [k] and not given the lock back. *)
Definition has_lock (c : core) (k : nat) : Prop := k ∈ co_crit c ∨ co_at c = Took k ∨ co_at c = Drop k.
Definition has (s : mach) (i k : nat) : Prop := has_lock (cores s i) k.

Definition away (p : place) : nat := if p is Out then 0%nat else 1%nat.

Definition core_ok (c : core) : Prop :=
  NoDup (co_crit c) ∧ (∀ k, co_at c = Took k ∨ co_at c = Drop k → k ∉ co_crit c) ∧
  c_noff (co_cpu c) = Z.of_nat (length (co_crit c) + co_depth c + away (co_at c)) ∧
  (0 < c_noff (co_cpu c) → c_intr (co_cpu c) = false).

Record mach_ok (s : mach) : Prop := MachOk {
  mo_has : ∀ i k, has s i k → sl_locked (locks s k) = true;
  mo_one : ∀ i j k, has s i k → has s j k → i = j;
  mo_some : ∀ k, sl_locked (locks s k) = true → ∃ i, has s i k;
  mo_cpu : ∀ i k, sl_cpu (locks s k) = Some i ↔ k ∈ co_crit (cores s i);
  mo_core : ∀ i, core_ok (cores s i);
}.

Lemma Ret_inj {A} (x y : A) : Ret x = Ret y → x = y.
Proof. by intros [=]. Qed.

Lemma push_off_spec c : c_noff (push_off c) = c_noff c + 1 ∧ c_intr (push_off c) = false.
Proof. unfold push_off. cbn. by destruct (c_noff c =? 0). Qed.

Lemma pop_off_spec c c' :
  pop_off c = Ret c' → c_noff c' = c_noff c - 1 ∧ 0 < c_noff c ∧ (0 < c_noff c' → c_intr c' = false).
Proof.
  unfold pop_off. destruct (c_intr c) eqn:Hi; [done|]. destruct (Z.ltb_spec (c_noff c) 1); [done|].
  cbn. intros [= <-]. destruct (Z.eqb_spec (c_noff c - 1) 0), (c_intena c); cbn; split_and!; try done; lia.
Qed.

(** A CPU that has pushed interrupts off can pop them. *)
Lemma pop_off_runs c : 0 < c_noff c → (0 < c_noff c → c_intr c = false) → ∃ c', pop_off c = Ret c'.
Proof.
  intros Hn Hi. unfold pop_off. rewrite Hi by done. destruct (Z.ltb_spec (c_noff c) 1); [lia|]. by eexists.
Qed.

(** One CPU and one lock change. *)
Lemma mach_ok_update s i k c' l' :
  mach_ok s → core_ok c' →
  (∀ k', k' ≠ k → (has_lock c' k' ↔ has s i k') ∧ (k' ∈ co_crit c' ↔ k' ∈ co_crit (cores s i))) →
  (sl_locked l' = true → has_lock c' k ∨ ∃ j, j ≠ i ∧ has s j k) →
  (has_lock c' k → sl_locked l' = true ∧ ∀ j, j ≠ i → ¬ has s j k) →
  (∀ j, j ≠ i → has s j k → sl_locked l' = true) →
  (sl_cpu l' = Some i ↔ k ∈ co_crit c') → (∀ j, j ≠ i → sl_cpu l' = Some j ↔ k ∈ co_crit (cores s j)) →
  mach_ok (Mach (<[i := c']> (cores s)) (<[k := l']> (locks s))).
Proof.
  intros [H1 H2 H3 H4 H5] Hc Hrest Hl Hme Hoth Hcpu Hcpu'. split; unfold has; cbn [cores locks].
  - intros j x. destruct (decide (x = k)) as [->|Hx]; destruct (decide (j = i)) as [->|Hj];
      rewrite ?fn_lookup_insert, ?fn_lookup_insert_ne by done; intros Hh.
    + by apply Hme.
    + by apply (Hoth j).
    + apply (H1 i). by apply Hrest.
    + by apply (H1 j).
  - intros a b x. destruct (decide (x = k)) as [->|Hx].
    + destruct (decide (a = i)) as [->|Ha], (decide (b = i)) as [->|Hb];
        rewrite ?fn_lookup_insert, ?fn_lookup_insert_ne by done; intros Hha Hhb; try done.
      * by destruct (proj2 (Hme Hha) b Hb).
      * by destruct (proj2 (Hme Hhb) a Ha).
      * by apply (H2 a b k).
    + assert (∀ j, has_lock (<[i := c']> (cores s) j) x → has s j x) as Hback.
      { intros j. destruct (decide (j = i)) as [->|]; rewrite ?fn_lookup_insert, ?fn_lookup_insert_ne by done; [|done]. by apply Hrest. }
      intros Ha%Hback Hb%Hback. by apply (H2 a b x).
  - intros x. destruct (decide (x = k)) as [->|Hx]; rewrite ?fn_lookup_insert, ?fn_lookup_insert_ne by done.
    + intros [Hh|(j & Hj & Hh)]%Hl; [exists i; by rewrite fn_lookup_insert|exists j; by rewrite fn_lookup_insert_ne].
    + intros (j & Hj)%H3. exists j. destruct (decide (j = i)) as [->|]; rewrite ?fn_lookup_insert, ?fn_lookup_insert_ne by done; [|done].
      by apply Hrest.
  - intros j x. destruct (decide (x = k)) as [->|Hx]; destruct (decide (j = i)) as [->|Hj];
      rewrite ?fn_lookup_insert, ?fn_lookup_insert_ne by done; [done|by apply Hcpu'| |by apply H4].
    rewrite H4. symmetry. by apply Hrest.
  - intros j. destruct (decide (j = i)) as [->|]; rewrite ?fn_lookup_insert, ?fn_lookup_insert_ne by done; [done|apply H5].
Qed.

(** A CPU changes and keeps its locks. *)
Lemma mach_ok_core s i f :
  mach_ok s → core_ok (f (cores s i)) → co_crit (f (cores s i)) = co_crit (cores s i) →
  (∀ k, has_lock (f (cores s i)) k ↔ has s i k) → mach_ok (on_core i f s).
Proof.
  intros [H1 H2 H3 H4 H5] Hc Ecrit Hh.
  assert (∀ j k, has (on_core i f s) j k ↔ has s j k) as E.
  { intros j k. unfold has, on_core. cbn. destruct (decide (j = i)) as [->|]; rewrite ?fn_lookup_insert, ?fn_lookup_insert_ne by done; [apply Hh|done]. }
  split; cbn [on_core locks update field_set].
  - intros j k. rewrite E. apply H1.
  - intros a b k. rewrite !E. apply H2.
  - intros k (j & Hj)%H3. exists j. by rewrite E.
  - intros j k. cbn. destruct (decide (j = i)) as [->|]; rewrite ?fn_lookup_insert, ?fn_lookup_insert_ne by done; rewrite ?Ecrit; apply H4.
  - intros j. cbn. destruct (decide (j = i)) as [->|]; rewrite ?fn_lookup_insert, ?fn_lookup_insert_ne by done; [done|apply H5].
Qed.

(** A CPU that moves between places where it has only its critical sections. *)
Lemma core_ok_move c x d p :
  core_ok c → (∀ k, p ≠ Took k ∧ p ≠ Drop k) → (0 < c_noff x → c_intr x = false) →
  c_noff x - Z.of_nat (d + away p) = c_noff (co_cpu c) - Z.of_nat (co_depth c + away (co_at c)) →
  core_ok (Core x p (co_crit c) d).
Proof.
  intros (H1 & H2 & H3 & H4) Hp Hi Hn. split; cbn; [done|]. split; [intros k [E|E]; by destruct (Hp k)|]. split; [lia|done].
Qed.

Lemma mach_ok_move s i f x d p :
  mach_ok s → f (cores s i) = Core x p (co_crit (cores s i)) d →
  (∀ k, at_ s i ≠ Took k ∧ at_ s i ≠ Drop k) → (∀ k, p ≠ Took k ∧ p ≠ Drop k) → (0 < c_noff x → c_intr x = false) →
  c_noff x - Z.of_nat (d + away p) = c_noff (co_cpu (cores s i)) - Z.of_nat (co_depth (cores s i) + away (at_ s i)) →
  mach_ok (on_core i f s).
Proof.
  intros Hok Ef Hat Hp Hi Hn. apply mach_ok_core; rewrite ?Ef; [done| |done|].
  - apply core_ok_move; [apply Hok|done|done|exact Hn].
  - intros k. unfold has, has_lock. cbn. specialize (Hat k). specialize (Hp k). unfold at_ in Hat. naive_solver.
Qed.

(** Winning the swap on a free lock. *)
Lemma mach_ok_take s i k :
  mach_ok s → at_ s i = Spin k → sl_locked (locks s k) = false →
  mach_ok (on_core i (go (Took k)) (on_lock k (λ l, l <| sl_locked := true |>) s)).
Proof.
  intros Hok Hat Hf. pose proof Hok as [H1 H2 H3 H4 H5]. destruct (H5 i) as (C1 & C2 & C3 & C4). unfold at_ in Hat.
  assert (∀ j, ¬ has s j k) as Hno by (intros j Hj%H1; congruence).
  assert (k ∉ co_crit (cores s i)) as Hk by (intros Hk; apply (Hno i); by left).
  apply (mach_ok_update s i k (go (Took k) (cores s i)) ((locks s k) <| sl_locked := true |>)); cbn; try done.
  - split; [done|]. split; [intros x [[= <-]|[=]]; done|]. rewrite Hat in C3. by split.
  - intros k' Hk'. split; [|done]. unfold has, has_lock. cbn. rewrite Hat. naive_solver.
  - intros _. left. right. by left.
Qed.

(** [lk->cpu = mycpu()] opens the critical section, [lk->cpu = 0] closes it. *)
Lemma mach_ok_record s i k : mach_ok s → at_ s i = Took k → mach_ok (acquire_record i k s).
Proof.
  intros Hok Hat. pose proof Hok as [H1 H2 H3 H4 H5]. destruct (H5 i) as (C1 & C2 & C3 & C4). unfold at_ in Hat.
  assert (has s i k) as Hme by (right; by left). assert (k ∉ co_crit (cores s i)) as Hk by (apply C2; by left).
  assert (∀ j, j ≠ i → ¬ has s j k) as Hno by (intros j Hj Hh; by apply Hj, (H2 j i k)).
  apply (mach_ok_update s i k (go Out ((cores s i) <| co_crit ::= cons k |>)) ((locks s k) <| sl_cpu := Some i |>)); cbn; try done.
  - split; [by apply NoDup_cons_2|]. split; [by intros x [|]|]. rewrite Hat in C3. cbn in *. split; [lia|done].
  - intros k' Hk'. unfold has, has_lock. cbn. rewrite Hat. set_solver.
  - intros _. left. left. left.
  - intros _. split; [by apply (H1 i)|done].
  - intros j Hj Hh. by destruct (Hno j Hj).
  - set_solver.
  - intros j Hj. split; [intros [= ->]; done|]. intros Hh. destruct (Hno j Hj). by left.
Qed.

Lemma length_without (k : nat) (l : list nat) : NoDup l → k ∈ l → S (length (without k l)) = length l.
Proof.
  unfold without.
  induction 1 as [|x l Hx Hl IH]; [by intros ?%not_elem_of_nil|]. intros [->|Hin]%elem_of_cons.
  - rewrite filter_cons_False by (by intros []). cbn. f_equal.
    assert (∀ l : list nat, x ∉ l → filter (λ y, y ≠ x) l = l) as ->; [|done..].
    clear. induction l as [|y l IH]; [done|]. intros [? ?]%not_elem_of_cons. rewrite filter_cons_True by done. by rewrite IH.
  - rewrite filter_cons_True by (intros ->; done). cbn. by rewrite IH.
Qed.

Lemma mach_ok_clear s i k s' : mach_ok s → at_ s i = Out → release_clear i k s = Ret s' → mach_ok s'.
Proof.
  intros Hok Hat E. pose proof Hok as [H1 H2 H3 H4 H5]. destruct (H5 i) as (C1 & C2 & C3 & C4). unfold at_ in Hat.
  unfold release_clear in E. destruct (holding i (locks s k)) eqn:Hh; [|done]. apply Ret_inj in E as <-.
  apply andb_true_iff in Hh as [Hl Ho%bool_decide_eq_true]. apply H4 in Ho as Hk.
  assert (∀ j, j ≠ i → ¬ has s j k) as Hno by (intros j Hj Hh; apply Hj, (H2 j i k); [done|by left]).
  apply (mach_ok_update s i k (go (Drop k) ((cores s i) <| co_crit ::= without k |>)) ((locks s k) <| sl_cpu := None |>)); cbn; try done.
  - split; [by apply NoDup_filter|]. split; [intros x [[=]|[= <-]]; by intros [? _]%list_elem_of_filter|].
    rewrite Hat in C3. pose proof (length_without k _ C1 Hk). cbn in *. split; [lia|done].
  - intros k' Hk'. unfold has, has_lock, without. cbn. rewrite Hat, list_elem_of_filter. naive_solver.
  - intros _. left. right. by right.
  - split; [done|]. intros [? _]%list_elem_of_filter. done.
  - intros j Hj. split; [done|]. intros Hh. destruct (Hno j Hj). by left.
Qed.

Lemma mach_ok_unlock s i k : mach_ok s → at_ s i = Drop k → mach_ok (release_unlock i k s).
Proof.
  intros Hok Hat. pose proof Hok as [H1 H2 H3 H4 H5]. destruct (H5 i) as (C1 & C2 & C3 & C4). unfold at_ in Hat.
  assert (has s i k) as Hme by (right; by right). assert (k ∉ co_crit (cores s i)) as Hk by (apply C2; by right).
  assert (∀ j, j ≠ i → ¬ has s j k) as Hno by (intros j Hj Hh; by apply Hj, (H2 j i k)).
  apply (mach_ok_update s i k (go (Freed k) (cores s i)) ((locks s k) <| sl_locked := false |>)); cbn; try done.
  - split; [done|]. split; [by intros x [|]|]. rewrite Hat in C3. by split.
  - intros k' Hk'. unfold has, has_lock. cbn. rewrite Hat. naive_solver.
  - intros [?|[?|?]]; done.
  - intros j Hj Hh. by destruct (Hno j Hj).
Qed.

Lemma lock_step_ok s s' : mach_ok s → lock_step s s' → mach_ok s'.
Proof.
  intros Hok H. pose proof (mo_core _ Hok) as Hc.
  destruct H as [i k s Hat|i k s Hat|i k s s' Hat E|i k s Hat|i k s Hat|i k s s' Hat E|i k s Hat|i k s c Hat E|i s Hat|i d x s Hat Hd E|i b s Hat Hn];
    destruct (Hc i) as (C1 & C2 & C3 & C4).
  - destruct (push_off_spec (co_cpu (cores s i))) as [Hn Hi].
    eapply (mach_ok_move _ _ _ (push_off (co_cpu (cores s i)))); [done|reflexivity|by rewrite Hat|done|done|].
    rewrite Hat, Hn. cbn. lia.
  - eapply mach_ok_move; [done|reflexivity|by rewrite Hat|by destruct (sl_locked _)|done|]. rewrite Hat. cbn. destruct (sl_locked _); cbn; lia.
  - unfold acquire_test_cpu in E. case_bool_decide; [done|]. injection E as <-.
    eapply mach_ok_move; [done|reflexivity|by rewrite Hat|done|done|]. rewrite Hat. done.
  - unfold acquire_swap, swap. destruct (sl_locked (locks s k)) eqn:Hl.
    + assert (mach_ok (on_core i (go (Spin k)) s)) as Hs.
      { eapply mach_ok_move; [done|reflexivity|by rewrite Hat|done|done|]. by rewrite Hat. }
      destruct Hs as [K1 K2 K3 K4 K5]. unfold has, on_core in *. cbn in *.
      assert (∀ x, (<[k := ((locks s k) <| sl_locked := true |> : spinlock)]> (locks s) : nat → spinlock) x = locks s x) as El.
      { intros x. destruct (decide (x = k)) as [->|]; rewrite ?fn_lookup_insert, ?fn_lookup_insert_ne by done; [|done].
        destruct (locks s k). cbn in *. by subst. }
      split; unfold has; cbn; intros *; rewrite ?El; eauto.
    + exact (mach_ok_take s i k Hok Hat Hl).
  - by apply mach_ok_record.
  - by eapply mach_ok_clear.
  - by apply mach_ok_unlock.
  - unfold release_pop in E. destruct (pop_off (co_cpu (cores s i))) as [x| |] eqn:Ep; [|done..]. injection E as <-.
    destruct (pop_off_spec _ _ Ep) as (Hn & Hp & Hi).
    eapply (mach_ok_move _ _ _ x); [done|reflexivity|by rewrite Hat|done|done|]. rewrite Hat, Hn. cbn. lia.
  - destruct (push_off_spec (co_cpu (cores s i))) as [Hn Hi]. unfold at_ in Hat.
    apply (mach_ok_move _ _ _ (push_off (co_cpu (cores s i))) (S (co_depth (cores s i))) Out); unfold at_; rewrite ?Hat; try done.
    + cbn. by rewrite <-Hat.
    + rewrite Hn. cbn. lia.
  - destruct (pop_off_spec _ _ E) as (Hn & Hp & Hi). unfold at_ in Hat.
    apply (mach_ok_move _ _ _ x d Out); unfold at_; rewrite ?Hat; try done.
    + cbn. by rewrite <-Hat.
    + rewrite Hn, Hd. cbn. lia.
  - unfold at_ in Hat. apply (mach_ok_move _ _ _ ((co_cpu (cores s i)) <| c_intr := b |>) (co_depth (cores s i)) Out);
      unfold at_; rewrite ?Hat; try done.
    + cbn. by rewrite <-Hat.
    + cbn. lia.
Qed.

(** The machine at boot: interrupts in any state, no lock taken. *)
Definition boot_mach (intr : bool) : mach := Mach (λ _, Core (Cpu 0 false intr) Out [] 0) (λ _, initlock).

Lemma boot_ok intr : mach_ok (boot_mach intr).
Proof.
  assert (∀ i k, ¬ has (boot_mach intr) i k) as Hno.
  { intros i k [H|[H|H]]; [by apply not_elem_of_nil in H|done..]. }
  split; [by intros i k ?%Hno|by intros i j k ?%Hno|done| |].
  - intros i k. split; [done|]. by intros ?%not_elem_of_nil.
  - intros i. split; [constructor|]. split; [by intros k [|]|]. split; [done|]. cbn. lia.
Qed.

(** C30. However the CPUs interleave, line by line: at most one CPU is in the
    critical section of a lock, or has won its swap; a CPU spins on a set lock
    only while some CPU has it.  [noff] is the number of critical sections the
    CPU is in plus its own [push_off]s plus one inside [acquire] and [release],
    and while it is positive interrupts are off, so no handler can spin on a lock
    its own CPU has.  [acquire] panics only in a CPU that is in the critical
    section already, [release] never in one that is, and the [pop_off] at its end
    returns. *)
Theorem spinlock_invariant intr s :
  rtc lock_step (boot_mach intr) s →
  (∀ i j k, k ∈ co_crit (cores s i) → has s j k → i = j) ∧
  (∀ k, sl_locked (locks s k) = true → ∃ i, has s i k) ∧
  (∀ i, c_noff (co_cpu (cores s i)) = Z.of_nat (length (co_crit (cores s i)) + co_depth (cores s i) + away (at_ s i))) ∧
  (∀ i, (∃ k, has s i k) ∨ at_ s i ≠ Out → c_intr (co_cpu (cores s i)) = false) ∧
  (∀ i k, at_ s i = TestCpu k → acquire_test_cpu i k s = Panic "acquire" → k ∈ co_crit (cores s i)) ∧
  (∀ i k, k ∈ co_crit (cores s i) → ∃ s', release_clear i k s = Ret s') ∧
  (∀ i k, at_ s i = Freed k → ∃ c, release_pop (cores s i) = Ret c).
Proof.
  intros H. assert (mach_ok s) as [H1 H2 H3 H4 H5].
  { eapply (rtc_invariant _ mach_ok); [exact lock_step_ok|apply boot_ok|exact H]. }
  split_and!.
  - intros i j k Hi Hj. apply (H2 i j k); [by left|done].
  - done.
  - intros i. apply H5.
  - intros i Hi. destruct (H5 i) as (_ & _ & Hn & Hoff). apply Hoff. rewrite Hn. unfold at_ in Hi.
    destruct (co_at (cores s i)) eqn:Ea; cbn; try lia. destruct Hi as [(k & [Hk|[Hk|Hk]])|]; [|congruence..|done].
    destruct (co_crit (cores s i)); [by apply not_elem_of_nil in Hk|]. cbn. lia.
  - intros i k _. unfold acquire_test_cpu. case_bool_decide; [|done]. intros _. by apply H4.
  - intros i k Hk. unfold release_clear, holding. rewrite (H1 i k) by (by left). apply H4 in Hk.
    rewrite bool_decide_true by done. by eexists.
  - intros i k Hat. destruct (H5 i) as (_ & _ & Hn & Hoff). unfold at_ in Hat. rewrite Hat in Hn. cbn in Hn.
    destruct (pop_off_runs (co_cpu (cores s i))) as [x Hx]; [lia|done|]. unfold release_pop. rewrite Hx. by eexists.
Qed.

Fixpoint push_n (n : nat) (c : cpu) : cpu :=
  match n with O => c | S n' => push_n n' (push_off c) end.
Fixpoint pop_n (n : nat) (c : cpu) : outcome cpu :=
  match n with
  | O => Ret c
  | S n' => match pop_off c with Ret c' => pop_n n' c' | o => o end
  end.

Lemma push_n_spec n k e : 0 < k → push_n n (Cpu k e false) = Cpu (k + Z.of_nat n) e false.
Proof.
  revert k. induction n as [|n IH]; intros k Hk; cbn [push_n]; [by rewrite Z.add_0_r|].
  unfold push_off. cbn. destruct (Z.eqb_spec k 0); [lia|]. cbn. rewrite IH by lia. f_equal. lia.
Qed.

Lemma pop_n_spec n k e : Z.of_nat n < k → pop_n n (Cpu k e false) = Ret (Cpu (k - Z.of_nat n) e false).
Proof.
  revert k. induction n as [|n IH]; intros k Hk; cbn [pop_n]; [by rewrite Z.sub_0_r|].
  unfold pop_off. cbn. destruct (Z.ltb_spec k 1); [lia|]. destruct (Z.eqb_spec (k - 1) 0); [lia|]. cbn.
  rewrite IH by lia. do 2 f_equal. lia.
Qed.

(** [push_off]/[pop_off] nest: from a CPU outside any, [n + 1] calls of
    [push_off] turn interrupts off, as many calls of [pop_off] succeed, leave
    interrupts off until the last, and the last puts the interrupt state back
    to what it was before the first [push_off]. *)
Theorem push_pop_restores n c :
  c_noff c = 0 →
  c_intr (push_n (S n) c) = false ∧
  (∀ k, (k ≤ n)%nat → ∃ c', pop_n k (push_n (S n) c) = Ret c' ∧ c_intr c' = false) ∧
  ∃ c', pop_n (S n) (push_n (S n) c) = Ret c' ∧ c_noff c' = 0 ∧ c_intr c' = c_intr c.
Proof.
  destruct c as [m ie it]. cbn [c_noff c_intr]. intros ->.
  assert (push_n (S n) (Cpu 0 ie it) = Cpu (Z.of_nat (S n)) it false) as ->.
  { cbn [push_n]. change (push_off (Cpu 0 ie it)) with (Cpu 1 it false). rewrite push_n_spec by lia. f_equal. lia. }
  split; [done|]. split.
  - intros k Hk. rewrite pop_n_spec by lia. by eexists.
  - assert (∀ a b c, pop_n (a + b) c = match pop_n a c with Ret c' => pop_n b c' | o => o end) as Happ.
    { induction a as [|a IH]; intros b c; [done|]. cbn [plus pop_n]. destruct (pop_off c); [apply IH|done..]. }
    rewrite <- (Nat.add_1_r n), Happ, pop_n_spec by lia. replace (Z.of_nat (n + 1) - Z.of_nat n) with 1 by lia.
    cbn. eexists. split; [done|]. by destruct it.
Qed.


(** ** Concrete runs *)

(** CPU 0 has won lock 2 and CPU 1 finds it locked. *)
Definition m_took : mach := acquire_swap 0 2 (acquire_test_locked 0 2 (on_core 0 (acquire_push 2) (boot_mach true))).
Definition m_spins : mach := acquire_test_locked 1 2 (on_core 1 (acquire_push 2) m_took).

Lemma spinlock_invariant_witness :
  (at_ m_spins 0 = Took 2 ∧ at_ m_spins 1 = TestCpu 2) ∧ c_intr (co_cpu (cores m_spins 1)) = false.
Proof.
  destruct (spinlock_invariant true m_spins) as (_ & _ & _ & H & _).
  - eapply rtc_l; [apply (LPush 0 2); reflexivity|]. eapply rtc_l; [apply (LTestLocked 0 2); reflexivity|].
    eapply rtc_l; [apply (LSwap 0 2); reflexivity|]. eapply rtc_l; [apply (LPush 1 2); reflexivity|].
    eapply rtc_l; [apply (LTestLocked 1 2); reflexivity|]. apply rtc_refl.
  - split; [split; reflexivity|]. apply H. right. discriminate.
Defined.

Lemma push_pop_restores_witness : c_intr (push_n 3 (Cpu 0 false true)) = false.
Proof. exact (proj1 (push_pop_restores 2 (Cpu 0 false true) eq_refl)). Defined.
