(* ===== verification/PageAlloc.v ===== *)
(** * The page allocator as its clients see it

    The slab allocator gets and returns whole pages through [kalloc] and
    [kfree].  [PageAlloc] is that interface and [PageAllocSpec] what an
    implementation promises, stated on the reference count of every page:
    a page handed out was referenced by nobody, and a page given back loses
    one reference.  [Kalloc] shows that kalloc.c keeps these promises. *)

From S2P Require Import Prelude.

Definition PGSIZE : Z := 4096.
Arguments PGSIZE : simpl never.

(** [PGROUNDUP] and [PGROUNDDOWN] of riscv.h on 64-bit values. *)
Definition PGROUNDDOWN (a : Z) : Z := Z.land a (Z.lnot (PGSIZE - 1)).
Definition PGROUNDUP (sz : Z) : Z := Z.land (u64 (sz + PGSIZE - 1)) (Z.lnot (PGSIZE - 1)).

Lemma PGROUNDDOWN_eq a : PGROUNDDOWN a = a / PGSIZE * PGSIZE.
Proof.
  unfold PGROUNDDOWN. change (Z.lnot (PGSIZE - 1)) with (Z.lnot (Z.ones 12)).
  rewrite <- Z.ldiff_land, Z.ldiff_ones_r, Z.shiftl_mul_pow2, Z.shiftr_div_pow2 by lia. done.
Qed.

Lemma PGROUNDDOWN_in p o : p mod PGSIZE = 0 → 0 ≤ o < PGSIZE → PGROUNDDOWN (p + o) = p.
Proof. rewrite PGROUNDDOWN_eq. unfold PGSIZE. intros. Z.to_euclidean_division_equations. lia. Qed.

Lemma PGROUNDDOWN_aligned a : PGROUNDDOWN a mod PGSIZE = 0.
Proof. rewrite PGROUNDDOWN_eq. apply Z_mod_mult. Qed.

Class PageAlloc (K : Type) := {
  palloc : ST K (option Z);             (* kalloc(): a page, or none *)
  pfree : Z → ST K ();                  (* kfree(pa) *)
}.

Class PageAllocSpec (K : Type) `{!PageAlloc K} := {
  pwf : K → Prop;
  refs : K → Z → Z;                     (* the reference count of a page *)

  palloc_spec k :
    pwf k →
    ∃ r k', run palloc k r k' ∧ pwf k' ∧
      match r with
      | Some p => refs k p = 0 ∧ p mod PGSIZE = 0 ∧ 0 < p < 2 ^ 63 ∧ ∀ q, refs k' q = fupd p 1 (refs k) q
      | None => ∀ q, refs k' q = refs k q
      end;
  pfree_spec k p :
    pwf k → 0 < refs k p →
    ∃ k', run (pfree p) k () k' ∧ pwf k' ∧ ∀ q, refs k' q = fupd p (refs k p - 1) (refs k) q;
}.
