(* ===== verification/Kalloc.v ===== *)
(** * kalloc.c: the physical page allocator

    One free list per CPU, reference counts per page, stealing from the other
    CPUs when the own list is empty.  A page is its physical address; the
    [next] pointers threaded through free pages are the order of a Rocq list;
    page contents are lists of bytes.  [kend] is the linker symbol [end].  The
    copy-on-write allocator of this file is modelled with the page tables it
    works on, in [Vm]. *)

From stdpp Require Import gmap.
From S2P Require Import Prelude PageAlloc.

Definition NCPU : nat := 8.
Arguments NCPU : simpl never.
Definition KERNBASE : Z := 0x80000000.
Definition PHYSTOP : Z := KERNBASE + 128 * 1024 * 1024.
Arguments PHYSTOP : simpl never.

Record kstate := KState {
  k_cnt : Z → Z;                        (* ref.cnt, by page number *)
  k_free : list (list Z);               (* kmem[i].freelist *)
  k_page : Z → list Z;                  (* the contents of each page *)
  k_cpu : nat;                          (* cpuid() *)
}.
#[export] Instance kstate_fields : Fields kstate := λ s,
  KState (k_cnt s) (k_free s) (k_page s) (k_cpu s).

Definition page_of (c : Z) : list Z := replicate (Z.to_nat PGSIZE) c.
Arguments page_of : simpl never.

Section code.
Context (kend : Z).

Definition bad_page (pa : Z) : bool := negb (pa mod PGSIZE =? 0) || (pa <? kend) || (PHYSTOP <=? pa).

Definition set_cnt (pa v : Z) : ST kstate () := modify (λ s, s <| k_cnt ::= fupd (pa / PGSIZE) v |>).
Definition fill (pa c : Z) : ST kstate () := modify (λ s, s <| k_page ::= fupd pa (page_of c) |>).

Definition kfree (pa : Z) : ST kstate () :=
  if bad_page pa then panic "kfree"
  else
    s ← get;
    let cnt := i32 (k_cnt s (pa / PGSIZE) - 1) in
    _ ← set_cnt pa cnt;
    if cnt =? 0 then
      _ ← fill pa 1;
      modify (λ s, s <| k_free ::= alter (cons pa) (k_cpu s) |>)
    else mret ().

(** The loop over the other CPUs' lists: the index it breaks at. *)
Fixpoint steal_from (free : list (list Z)) (id antid n : nat) : option nat :=
  match n with
  | O => None
  | S n' =>
      if decide (antid = id) then steal_from free id (antid + 1) n'
      else match default [] (free !! antid) with
           | [] => steal_from free id (antid + 1) n'
           | _ :: _ => Some antid
           end
  end.

(** [r = kmem[i].freelist; kmem[i].freelist = r->next; ref.cnt[r] = 1] *)
Definition take_page (i : nat) : ST kstate (option Z) :=
  s ← get;
  match default [] (k_free s !! i) with
  | [] => mret None
  | r :: next =>
      _ ← modify (λ s, s <| k_free ::= <[i := next]> |>);
      _ ← set_cnt r 1;
      mret (Some r)
  end.

Definition kalloc : ST kstate (option Z) :=
  s ← get;
  let id := k_cpu s in
  r ← match default [] (k_free s !! id) with
      | _ :: _ => take_page id
      | [] => match steal_from (k_free s) id 0 NCPU with
              | Some antid => take_page antid
              | None => mret None
              end
      end;
  match r with
  | Some pa => _ ← fill pa 5; mret (Some pa)
  | None => mret None
  end.

Fixpoint freerange_from (n : nat) (p pa_end : Z) : ST kstate () :=
  match n with
  | O => mret ()
  | S n' =>
      if p + PGSIZE <=? pa_end then
        _ ← set_cnt p 1;
        _ ← kfree p;
        freerange_from n' (p + PGSIZE) pa_end
      else mret ()
  end.
Definition freerange (pa_start pa_end : Z) : ST kstate () :=
  freerange_from (Z.to_nat ((pa_end - pa_start) / PGSIZE + 1)) (PGROUNDUP pa_start) pa_end.

Definition kinit : ST kstate () := freerange kend PHYSTOP.

(** Static storage before [kinit]. *)
Definition k0 (page : Z → list Z) (cpu : nat) : kstate := KState (λ _, 0) (replicate NCPU []) page cpu.

Definition freebytes (s : kstate) : Z :=
  fold_left (λ dst l, fold_left (λ dst _, u64 (dst + PGSIZE)) l dst) (take 8 (k_free s)) 0.

Definition krefcnt (pa : Z) (s : kstate) : Z := k_cnt s (pa / PGSIZE).

Definition kaddrefcnt (pa : Z) : ST kstate Z :=
  if bad_page pa then mret (-1)
  else
    s ← get;
    _ ← set_cnt pa (i32 (k_cnt s (pa / PGSIZE) + 1));
    mret 0.

End code.

(** ** Invariant *)

Section proofs.
Context (kend : Z).
Implicit Types (s : kstate) (p q : Z).

Definition valid (p : Z) : Prop := p mod PGSIZE = 0 ∧ kend ≤ p ∧ p < PHYSTOP.
#[local] Instance valid_dec p : Decision (valid p) := _.

(** The free lists hold every page that nobody references, once. *)
Record k_ok (s : kstate) : Prop := {
  ko_pos : 0 < kend;
  ko_len : length (k_free s) = NCPU;
  ko_cpu : (k_cpu s < NCPU)%nat;
  ko_nodup : NoDup (concat (k_free s));
  ko_free : ∀ p, p ∈ concat (k_free s) ↔ valid p ∧ k_cnt s (p / PGSIZE) = 0;
  ko_cnt : ∀ p, valid p → 0 ≤ k_cnt s (p / PGSIZE) < 2 ^ 31;
}.

(** The reference count of a page address. *)
Definition pg_refs (s : kstate) (p : Z) : Z := if decide (valid p) then k_cnt s (p / PGSIZE) else 0.

Lemma bad_page_valid p : bad_page kend p = false ↔ valid p.
Proof.
  unfold bad_page, valid. rewrite !orb_false_iff, negb_false_iff, Z.eqb_eq, Z.ltb_ge, Z.leb_gt. tauto.
Qed.

Lemma page_inj p q : valid p → valid q → p / PGSIZE = q / PGSIZE → p = q.
Proof. intros [Hp _] [Hq _] E. unfold PGSIZE in *. Z.to_euclidean_division_equations. lia. Qed.

(** A page removed from the head of a list. *)
Lemma concat_uncons (R : list (list Z)) i r next :
  R !! i = Some (r :: next) → concat R ≡ₚ r :: concat (<[i := next]> R).
Proof.
  intros H. pose proof (concat_alter_perm R (λ _, next) i _ H) as P.
  rewrite (alter_insert (λ _, next) R i _ H) in P. cbn [app] in P. apply (Permutation_app_inv_l next).
  rewrite <- P. by rewrite <- Permutation_middle.
Qed.

(** The state after [kalloc] has taken page [r] from list [i]. *)
Definition taken (i : nat) (r : Z) (next : list Z) (s : kstate) : kstate :=
  s <| k_free ::= <[i := next]> |> <| k_cnt ::= fupd (r / PGSIZE) 1 |> <| k_page ::= fupd r (page_of 5) |>.

Lemma taken_ok i r next s : k_ok s → k_free s !! i = Some (r :: next) → k_ok (taken i r next s).
Proof.
  intros [Hpos Hlen Hcpu Hnd Hfree Hcnt] Hi. pose proof (concat_uncons _ _ _ _ Hi) as P.
  assert (valid r ∧ k_cnt s (r / PGSIZE) = 0) as [Hv Hz].
  { apply Hfree. rewrite P. by left. }
  rewrite P in Hnd. apply NoDup_cons in Hnd as [Hr Hnd].
  split; cbn [taken k_cnt k_free k_cpu update field_set]; try done.
  - by rewrite length_insert.
  - intros p. assert (p ∈ concat (<[i := next]> (k_free s)) ↔ p ∈ concat (k_free s) ∧ p ≠ r) as ->.
    { rewrite P, elem_of_cons. naive_solver. }
    rewrite Hfree. unfold fupd. case_decide as E.
    + split; [intros [[Hp _] Hne]; destruct Hne; by apply page_inj|naive_solver].
    + naive_solver.
  - intros p Hp. unfold fupd. case_decide; [lia|by apply Hcnt].
Qed.

Lemma run_kalloc_take s i r next :
  k_free s !! i = Some (r :: next) →
  (i = k_cpu s ∨ (default [] (k_free s !! k_cpu s) = [] ∧ steal_from (k_free s) (k_cpu s) 0 NCPU = Some i)) →
  run kalloc s (Some r) (taken i r next s).
Proof.
  intros Hi Hwhy. assert (run (take_page i) s (Some r) (s <| k_free ::= <[i := next]> |> <| k_cnt ::= fupd (r / PGSIZE) 1 |>)) as Ht.
  { unfold take_page. rewrite (bind_Ret _ _ _ _ _ (run_get s)), Hi. done. }
  unfold kalloc. rewrite (bind_Ret _ _ _ _ _ (run_get s)). cbv zeta.
  destruct Hwhy as [->|[E1 E2]].
  - rewrite Hi. cbn [default]. step_with Ht. done.
  - rewrite E1, E2. step_with Ht. done.
Qed.

Lemma steal_from_spec free id antid n :
  match steal_from free id antid n with
  | Some i => (antid ≤ i < antid + n)%nat ∧ i ≠ id ∧ default [] (free !! i) ≠ []
  | None => ∀ i, (antid ≤ i < antid + n)%nat → i ≠ id → default [] (free !! i) = []
  end.
Proof.
  revert antid. induction n as [|n IH]; intros antid; cbn [steal_from]; [intros; lia|].
  specialize (IH (antid + 1)%nat). case_decide as E.
  - destruct (steal_from free id (antid + 1) n); [naive_solver lia|]. intros i Hi Hne. apply IH; [lia|done].
  - destruct (default [] (free !! antid)) as [|x l] eqn:El; [|split_and!; [lia..|done|by rewrite El]].
    destruct (steal_from free id (antid + 1) n); [naive_solver lia|].
    intros i Hi Hne. destruct (decide (i = antid)) as [->|]; [done|]. apply IH; [lia|done].
Qed.

(** Either some list gives a page, or every list is empty. *)
Lemma kalloc_cases s :
  k_ok s →
  (∃ i r next, k_free s !! i = Some (r :: next) ∧ run kalloc s (Some r) (taken i r next s)) ∨
  (run kalloc s None s ∧ concat (k_free s) = []).
Proof.
  intros Hok. pose proof (ko_len s Hok) as Hlen. pose proof (ko_cpu s Hok) as Hcpu.
  destruct (lookup_lt_is_Some_2 (k_free s) (k_cpu s)) as [own Hown]; [lia|].
  destruct own as [|r next]; [|left; exists (k_cpu s), r, next; split; [done|by apply run_kalloc_take; [|left]]].
  pose proof (steal_from_spec (k_free s) (k_cpu s) 0 NCPU) as Hst.
  destruct (steal_from (k_free s) (k_cpu s) 0 NCPU) as [i|] eqn:E.
  - destruct Hst as (_ & _ & Hne). left. destruct (k_free s !! i) as [[|r next]|] eqn:Hi; [done| |done].
    exists i, r, next. split; [done|]. apply run_kalloc_take; [done|]. right. by rewrite Hown.
  - right. split.
    + unfold kalloc. rewrite (bind_Ret _ _ _ _ _ (run_get s)). cbv zeta. by rewrite Hown, E.
    + apply concat_nil_Forall, Forall_forall. intros l [i Hi]%list_elem_of_lookup.
      destruct (decide (i = k_cpu s)) as [->|]; [congruence|].
      specialize (Hst i). rewrite Hi in Hst. apply Hst; [|done]. apply lookup_lt_Some in Hi. lia.
Qed.

(** The state after a page loses a reference. *)
Definition dropped (p : Z) (s : kstate) : kstate :=
  let cnt := k_cnt s (p / PGSIZE) - 1 in
  let s := s <| k_cnt ::= fupd (p / PGSIZE) cnt |> in
  if cnt =? 0 then s <| k_page ::= fupd p (page_of 1) |> <| k_free ::= alter (cons p) (k_cpu s) |> else s.

Lemma run_kfree p s : valid p → 0 < k_cnt s (p / PGSIZE) < 2 ^ 31 → run (kfree kend p) s () (dropped p s).
Proof.
  intros Hv Hc. unfold kfree, set_cnt, fill. rewrite (proj2 (bad_page_valid p) Hv).
  rewrite (bind_Ret _ _ _ _ _ (run_get s)). cbv zeta. rewrite i32_small by lia.
  rewrite (bind_Ret _ _ _ _ _ (run_modify _ s)). cbn beta. unfold dropped.
  destruct (_ =? 0); [|done]. by rewrite (bind_Ret _ _ _ _ _ (run_modify _ _)).
Qed.

Lemma concat_cons (R : list (list Z)) i p : (i < length R)%nat → concat (alter (cons p) i R) ≡ₚ p :: concat R.
Proof.
  intros Hi. destruct (lookup_lt_is_Some_2 R i Hi) as [l Hl].
  pose proof (concat_alter_perm R (cons p) i l Hl) as P. apply (Permutation_app_inv_l l).
  rewrite P. cbn [app]. by rewrite <- Permutation_middle.
Qed.

Lemma dropped_ok p s : k_ok s → valid p → 0 < k_cnt s (p / PGSIZE) → k_ok (dropped p s).
Proof.
  intros [Hpos Hlen Hcpu Hnd Hfree Hcnt] Hv Hc. unfold dropped. pose proof (Hcnt p Hv).
  assert (p ∉ concat (k_free s)) as Hnin by (rewrite Hfree; lia).
  destruct (Z.eqb_spec (k_cnt s (p / PGSIZE) - 1) 0) as [E|E]; split; cbn [k_cnt k_free k_cpu k_page update field_set]; try done.
  - by rewrite length_alter.
  - rewrite concat_cons by lia. by apply NoDup_cons.
  - intros q. rewrite concat_cons by lia. rewrite elem_of_cons, Hfree. unfold fupd. case_decide as Eq.
    + rewrite E. split; [naive_solver|]. intros [Hq _]. left. by apply page_inj.
    + naive_solver.
  - intros q Hq. unfold fupd. case_decide; [lia|by apply Hcnt].
  - intros q. rewrite Hfree. unfold fupd. case_decide as Eq; [|done]. rewrite Eq. split; [lia|]. intros [_ ?]. lia.
  - intros q Hq. unfold fupd. case_decide; [lia|by apply Hcnt].
Qed.
End proofs.

(** ** kinit *)

Section init.
Context (kend : Z).
Hypothesis Hkend : 0 < kend ≤ PHYSTOP.

(** [freerange] has freed the valid pages below [b]. *)
Record k_upto (b : Z) (s : kstate) : Prop := {
  ku_len : length (k_free s) = NCPU;
  ku_cpu : (k_cpu s < NCPU)%nat;
  ku_nodup : NoDup (concat (k_free s));
  ku_free : ∀ p, p ∈ concat (k_free s) ↔ valid kend p ∧ p < b;
  ku_cnt : ∀ n, k_cnt s n = 0;
}.

Lemma freerange_step b s :
  k_upto b s → valid kend b →
  ∃ s', ((_ ← set_cnt b 1; kfree kend b) : ST kstate ()) s = Ret ((), s') ∧ k_upto (b + PGSIZE) s'.
Proof.
  intros [Hlen Hcpu Hnd Hfree Hcnt] Hb. unfold set_cnt. rewrite (bind_Ret _ _ _ _ _ (run_modify _ s)).
  set (s1 := s <| k_cnt ::= fupd (b / PGSIZE) 1 |>).
  assert (k_cnt s1 (b / PGSIZE) = 1) as H1 by (cbn; apply fupd_eq).
  rewrite (run_kfree kend b s1) by (done || lia). eexists. split; [done|].
  unfold dropped. cbv zeta. rewrite H1. change (1 - 1 =? 0) with true. cbv iota.
  split; cbn [s1 k_free k_cpu k_cnt k_page update field_set].
  - by rewrite length_alter.
  - done.
  - rewrite concat_cons by lia. apply NoDup_cons. split; [|done]. rewrite Hfree. lia.
  - intros p. rewrite concat_cons by lia. rewrite elem_of_cons, Hfree. split.
    + intros [->|[? ?]]; (split; [done|]); unfold PGSIZE; lia.
    + intros [Hp Hlt]. destruct (decide (p = b)); [by left|right]. split; [done|].
      destruct Hp as [Hp _], Hb as [Hb _]. unfold PGSIZE in *. Z.to_euclidean_division_equations. lia.
  - intros n. unfold fupd. by repeat case_decide.
Qed.

Lemma freerange_from_ok n b s :
  k_upto b s → b mod PGSIZE = 0 → kend ≤ b → (PHYSTOP - b) / PGSIZE < Z.of_nat n →
  ∃ s', run (freerange_from kend n b PHYSTOP) s () s' ∧ k_upto PHYSTOP s'.
Proof.
  revert b s. induction n as [|n IH]; intros b s Hu Hal Hge Hn; cbn [freerange_from].
  - exists s. split; [done|]. destruct Hu as [? ? ? Hf ?]. split; try done.
    intros p. rewrite Hf. unfold valid. split; [lia|]. intros [(H1 & H2 & H3) _]. split; [done|].
    unfold PGSIZE in *. Z.to_euclidean_division_equations. lia.
  - destruct (Z.leb_spec (b + PGSIZE) PHYSTOP) as [Hle|Hgt].
    + destruct (freerange_step b s Hu) as (s1 & E1 & Hu1); [split; [done|unfold PGSIZE in *; lia]|].
      destruct (IH (b + PGSIZE) s1 Hu1) as (s2 & E2 & Hu2).
      * unfold PGSIZE in *. Z.to_euclidean_division_equations. lia.
      * unfold PGSIZE. lia.
      * unfold PGSIZE in *. Z.to_euclidean_division_equations. lia.
      * exists s2. split; [|done]. apply bind_Ret_inv in E1 as ([] & s0 & E0 & E1).
        step_with E0. step_with E1. done.
    + exists s. split; [done|]. destruct Hu as [? ? ? Hf ?]. split; try done.
      intros p. rewrite Hf. unfold valid. split; [lia|]. intros [(H1 & H2 & H3) _]. split; [done|].
      assert (PHYSTOP mod PGSIZE = 0) as Hp by done.
      unfold PGSIZE in *. Z.to_euclidean_division_equations. lia.
Qed.

Lemma kinit_ok page cpu :
  (cpu < NCPU)%nat → ∃ s, run (kinit kend) (k0 page cpu) () s ∧ k_ok kend s ∧ ∀ p, pg_refs kend s p = 0.
Proof.
  intros Hcpu. unfold kinit, freerange.
  assert (PGROUNDUP kend = (kend + PGSIZE - 1) / PGSIZE * PGSIZE) as Er.
  { unfold PGROUNDUP. rewrite u64_small by (unfold PGSIZE, PHYSTOP, KERNBASE in *; lia). apply PGROUNDDOWN_eq. }
  destruct (freerange_from_ok (Z.to_nat ((PHYSTOP - kend) / PGSIZE + 1)) (PGROUNDUP kend) (k0 page cpu)) as (s & E & Hu).
  - split; try done.
    + by apply NoDup_nil.
    + intros p. cbn. split; [by intros []%not_elem_of_nil|]. intros [(H1 & H2 & _) Hlt]. exfalso.
      rewrite Er in Hlt. unfold PGSIZE in *. Z.to_euclidean_division_equations. lia.
  - rewrite Er. apply Z_mod_mult.
  - rewrite Er. unfold PGSIZE. Z.to_euclidean_division_equations. lia.
  - rewrite Er, Z2Nat.id by (unfold PGSIZE, PHYSTOP, KERNBASE in *; Z.to_euclidean_division_equations; lia).
    unfold PGSIZE. Z.to_euclidean_division_equations. lia.
  - exists s. split; [done|]. destruct Hu as [? ? ? Hf Hc]. split.
    + split; try done; [lia| |intros p _; rewrite Hc; lia].
      intros p. rewrite Hf, Hc. unfold valid. naive_solver.
    + intros p. unfold pg_refs. by case_decide.
Qed.
End init.

(** ** The allocator implements the page interface *)

#[export] Instance kalloc_pages (kend : Z) : PageAlloc kstate := { palloc := kalloc; pfree := kfree kend }.

Lemma taken_refs kend i r next s q :
  valid kend r → pg_refs kend (taken i r next s) q = fupd r 1 (pg_refs kend s) q.
Proof.
  intros Hr. unfold pg_refs, fupd. cbn [taken k_cnt update field_set]. unfold fupd.
  repeat case_decide; subst; try done. exfalso. by apply (page_inj kend) in H0.
Qed.

Lemma dropped_refs kend p s q :
  valid kend p → pg_refs kend (dropped p s) q = fupd p (pg_refs kend s p - 1) (pg_refs kend s) q.
Proof.
  intros Hp. unfold pg_refs, dropped. rewrite (decide_True _ _ Hp).
  assert (∀ x, k_cnt (if k_cnt s (p / PGSIZE) - 1 =? 0 then x <| k_page ::= fupd p (page_of 1) |> <| k_free ::= alter (cons p) (k_cpu x) |> else x)
          = k_cnt x) as E by (intros x; by destruct (_ =? 0)).
  cbv zeta. rewrite E. cbn [k_cnt update field_set]. unfold fupd.
  repeat case_decide; subst; try done. exfalso. by apply (page_inj kend) in H0.
Qed.

#[export] Instance kalloc_spec (kend : Z) : PageAllocSpec kstate (PageAlloc0 := kalloc_pages kend).
Proof.
  refine {| pwf := k_ok kend; refs := pg_refs kend |}.
  - intros s Hok. destruct (kalloc_cases kend s Hok) as [(i & r & next & Hi & E)|[E Hnil]].
    + assert (valid kend r ∧ k_cnt s (r / PGSIZE) = 0) as [Hv Hz].
      { apply (ko_free kend s Hok). rewrite (concat_uncons _ _ _ _ Hi). by left. }
      exists (Some r), (taken i r next s). split; [done|]. split; [by apply taken_ok|].
      unfold pg_refs at 1. rewrite (decide_True _ _ Hv). pose proof (ko_pos kend s Hok).
      split_and!; [done|apply Hv|destruct Hv as (_ & ? & ?); lia| |intros q; by apply taken_refs].
      destruct Hv as (_ & _ & ?). unfold PHYSTOP, KERNBASE in *. lia.
    + by exists None, s.
  - intros s p Hok Hp. unfold pg_refs in Hp. case_decide as Hv; [|lia].
    exists (dropped p s). pose proof (ko_cnt kend s Hok p Hv).
    split_and!; [apply run_kfree; [done|lia]|by apply dropped_ok|intros q; by apply dropped_refs].
Defined.

(** ** Properties of kalloc.c *)

(** Allocation, release and sharing of pages by the rest of the kernel, on any
    CPU, with the number of references each page has been given. *)
Inductive page_step (kend : Z) : kstate * (Z → Z) → kstate * (Z → Z) → Prop :=
| pg_alloc s p s' own : run kalloc s (Some p) s' → page_step kend (s, own) (s', fupd p 1 own)
| pg_none s s' own : run kalloc s None s' → page_step kend (s, own) (s', own)
| pg_free s p s' own :
    0 < own p → run (kfree kend p) s () s' → page_step kend (s, own) (s', fupd p (own p - 1) own)
| pg_share s p s' own :
    0 < own p < 2 ^ 31 - 1 → run (kaddrefcnt kend p) s 0 s' → page_step kend (s, own) (s', fupd p (own p + 1) own)
| pg_sched s id own : (id < NCPU)%nat → page_step kend (s, own) (s <| k_cpu := id |>, own).

Lemma page_step_ok kend s own s' own' :
  k_ok kend s → (∀ p, own p = pg_refs kend s p) → page_step kend (s, own) (s', own') →
  k_ok kend s' ∧ ∀ p, own' p = pg_refs kend s' p.
Proof.
  intros Hok Hown H. inversion H; subst.
  - rename select (run kalloc _ _ _) into E.
    destruct (kalloc_cases kend s Hok) as [(i & r & next & Hi & E')|[E' _]]; rewrite E in E'; [|done].
    injection E' as -> ->. split; [by apply taken_ok|]. intros q. rewrite taken_refs.
    + unfold fupd. by case_decide.
    + apply (ko_free kend s Hok). rewrite (concat_uncons _ _ _ _ Hi). by left.
  - rename select (run kalloc _ _ _) into E.
    destruct (kalloc_cases kend s Hok) as [(i & r & next & Hi & E')|[E' _]]; rewrite E in E'; [done|].
    by injection E' as ->.
  - rename select (run (kfree _ _) _ _ _) into E. rename select (0 < own p) into Hp. rewrite Hown in Hp.
    unfold pg_refs in Hp. case_decide as Hv; [|lia]. pose proof (ko_cnt kend s Hok p Hv).
    rewrite (run_kfree kend p s Hv) in E by lia. injection E as <-. split; [by apply dropped_ok|].
    intros q. rewrite dropped_refs by done. unfold fupd. case_decide; by rewrite Hown.
  - rename select (run (kaddrefcnt _ _) _ _ _) into E. rename select (0 < own p < _) into Hp. rewrite Hown in Hp.
    unfold pg_refs in Hp. case_decide as Hv; [|lia]. unfold kaddrefcnt in E.
    rewrite (proj2 (bad_page_valid kend p) Hv) in E. rewrite (bind_Ret _ _ _ _ _ (run_get s)) in E.
    rewrite i32_small in E by lia. injection E as <-. destruct Hok as [? ? ? ? Hf Hc].
    assert (∀ q, q / PGSIZE = p / PGSIZE → valid kend q → q = p) as Hinj by (intros q Eq Hq; by apply (page_inj kend)).
    split; [split; cbn [k_cnt k_free k_cpu update field_set]; try done|].
    + intros q. rewrite Hf. unfold fupd. case_decide as Eq; [rewrite Eq|done]. split; [lia|intros [_ ?]; lia].
    + intros q Hq. unfold fupd. case_decide; [lia|by apply Hc].
    + intros q. unfold pg_refs, fupd. cbn [k_cnt update field_set]. unfold fupd.
      pose proof (Hown p) as Hp'. pose proof (Hown q) as Hq'. unfold pg_refs in Hp', Hq'.
      rewrite (decide_True _ _ Hv) in Hp'. repeat case_decide; subst; try lia; try done.
      by destruct (Hinj q).
  - split; [|done]. destruct Hok. by split.
Qed.

(** C35. Starting from [kinit], whatever sequence of allocations, releases and
    shares the CPUs perform: the reference count of each page is the number of
    references given out; [kalloc] only returns a page that nobody references;
    it fails only when every page of memory is referenced, because it steals
    from the other CPUs; and releasing a reference that was given out never
    panics. *)
Theorem kalloc_exclusive kend page cpu s0 s own :
  0 < kend ≤ PHYSTOP → (cpu < NCPU)%nat → run (kinit kend) (k0 page cpu) () s0 →
  rtc (page_step kend) (s0, λ _, 0) (s, own) →
  (∀ p, own p = pg_refs kend s p) ∧
  (∀ p s', run kalloc s (Some p) s' → valid kend p ∧ own p = 0) ∧
  (∀ s', run kalloc s None s' → ∀ p, valid kend p → 0 < own p) ∧
  (∀ p, 0 < own p → ∃ s', run (kfree kend p) s () s').
Proof.
  intros Hk Hcpu E0 H. destruct (kinit_ok kend Hk page cpu Hcpu) as (s0' & E0' & Hok0 & Hz).
  rewrite E0 in E0'. injection E0' as <-.
  assert (k_ok kend s ∧ ∀ p, own p = pg_refs kend s p) as [Hok Hown].
  { assert (∀ x y, rtc (page_step kend) x y → k_ok kend x.1 → (∀ p, x.2 p = pg_refs kend x.1 p) →
              k_ok kend y.1 ∧ ∀ p, y.2 p = pg_refs kend y.1 p) as Hinv.
    { induction 1 as [|[? ?] [? ?] z Hxy _ IH]; [done|]. intros Hx1 Hx2.
      destruct (page_step_ok kend _ _ _ _ Hx1 Hx2 Hxy). by apply IH. }
    by apply (Hinv _ _ H). }
  split; [done|]. destruct (kalloc_cases kend s Hok) as [(i & r & next & Hi & E)|[E Hnil]]; rewrite E.
  - assert (valid kend r ∧ k_cnt s (r / PGSIZE) = 0) as [Hv Hz'].
    { apply (ko_free kend s Hok). rewrite (concat_uncons _ _ _ _ Hi). by left. }
    split; [|split; [done|]].
    + intros p s' [= <- _]. split; [done|]. rewrite Hown. unfold pg_refs. by rewrite decide_True.
    + intros p Hp. rewrite Hown in Hp. destruct (pfree_spec (PageAllocSpec := kalloc_spec kend) s p Hok Hp) as (s' & ? & _).
      by exists s'.
  - split; [done|split].
    + intros s' [= <-] p Hp. rewrite Hown. unfold pg_refs. rewrite decide_True by done.
      pose proof (ko_cnt kend s Hok p Hp). assert (k_cnt s (p / PGSIZE) ≠ 0); [|lia]. intros Hz'.
      assert (p ∈ concat (k_free s)) as Hin by (by apply (ko_free kend s Hok)).
      rewrite Hnil in Hin. by apply not_elem_of_nil in Hin.
    + intros p Hp. rewrite Hown in Hp. destruct (pfree_spec (PageAllocSpec := kalloc_spec kend) s p Hok Hp) as (s' & ? & _).
      by exists s'.
Qed.

(** ** A concrete machine with three free pages *)

Definition kend_ex : Z := PHYSTOP - 3 * PGSIZE - 100.
Definition ks_init : kstate := after (kinit kend_ex) (k0 (λ _, []) 0).
Definition ks_one : kstate := after kalloc ks_init.
Definition pg_ex : Z := PHYSTOP - PGSIZE.
Definition ks_two : kstate := after (kaddrefcnt kend_ex pg_ex) ks_one.

Lemma kend_ex_ok : 0 < kend_ex ≤ PHYSTOP.
Proof. unfold kend_ex, PHYSTOP, KERNBASE, PGSIZE. lia. Qed.

Lemma ks_init_run : run (kinit kend_ex) (k0 (λ _, []) 0) () ks_init.
Proof. refine (run_after (kinit kend_ex) (k0 (λ _, []) 0) () _). vm_compute. reflexivity. Qed.
Lemma ks_one_run : run kalloc ks_init (Some pg_ex) ks_one.
Proof. refine (run_after kalloc ks_init (Some pg_ex) _). vm_compute. reflexivity. Qed.
Lemma ks_two_run : run (kaddrefcnt kend_ex pg_ex) ks_one 0 ks_two.
Proof. refine (run_after (kaddrefcnt kend_ex pg_ex) ks_one 0 _). vm_compute. reflexivity. Qed.

Lemma kalloc_exclusive_witness : pg_refs kend_ex ks_two pg_ex = 2.
Proof.
  destruct (kalloc_exclusive kend_ex (λ _, []) 0 ks_init ks_two
              (fupd pg_ex (fupd pg_ex 1 (λ _, 0) pg_ex + 1) (fupd pg_ex 1 (λ _, 0)))) as (H & _).
  - exact kend_ex_ok.
  - apply Nat.ltb_lt. reflexivity.
  - exact ks_init_run.
  - eapply rtc_l; [exact (pg_alloc kend_ex _ _ _ _ ks_one_run)|].
    apply rtc_once, (pg_share kend_ex _ _ _ _); [rewrite fupd_eq; lia|exact ks_two_run].
  - rewrite <- H. rewrite fupd_eq, fupd_eq. reflexivity.
Defined.

Lemma ks_two_ok : k_ok kend_ex ks_two.
Proof.
  destruct (kinit_ok kend_ex kend_ex_ok (λ _, []) 0) as (s0 & E0 & Hok & Hz); [apply Nat.ltb_lt; reflexivity|].
  rewrite ks_init_run in E0. injection E0 as <-.
  destruct (page_step_ok kend_ex ks_init (λ _, 0) ks_one (fupd pg_ex 1 (λ _, 0)) Hok) as [Hok1 Hr1].
  { intros p. by rewrite Hz. }
  { exact (pg_alloc kend_ex _ _ _ _ ks_one_run). }
  eapply (page_step_ok kend_ex ks_one _ ks_two _ Hok1 Hr1).
  apply (pg_share kend_ex _ pg_ex); [rewrite fupd_eq; lia|exact ks_two_run].
Qed.
