(* ===== verification/Slab.v ===== *)
(** * slab.c: the slab allocator

    Five size classes; each keeps its pages in a partial, a full and an empty
    list, and each page keeps the list of its free objects.  A [struct
    slab_page] lives at the start of the page it describes; here it is a
    record with that address, and the [next] pointers are Rocq lists.  The
    allocator is written against the page interface [PageAlloc], and its
    theorems are proved from [PageAllocSpec]; the last section runs it over
    kalloc.c.  The bytes of the objects ([memset]) are not modelled. *)

From S2P Require Import Prelude PageAlloc Kalloc.

Definition slab_sizes : list Z := [32; 64; 128; 256; 512].

Record slab_page := SlabPage {
  sp_addr : Z;                          (* the page itself *)
  sp_obj_size : Z;
  sp_total_objs : Z;
  sp_free_objs : Z;
  sp_freelist : list Z;
  sp_start : Z;
}.
#[export] Instance slab_page_fields : Fields slab_page := λ s,
  SlabPage (sp_addr s) (sp_obj_size s) (sp_total_objs s) (sp_free_objs s) (sp_freelist s) (sp_start s).

Record slab_cache := SlabCache {
  sc_obj_size : Z;
  sc_partial : list slab_page;
  sc_full : list slab_page;
  sc_empty : list slab_page;
  sc_alloc_count : Z;
  sc_free_count : Z;
  sc_total_pages : Z;
}.
#[export] Instance slab_cache_fields : Fields slab_cache := λ c,
  SlabCache (sc_obj_size c) (sc_partial c) (sc_full c) (sc_empty c) (sc_alloc_count c) (sc_free_count c) (sc_total_pages c).

Record slab_stats := SlabStats { total_allocs : Z; total_frees : Z; cache_hits : Z; cache_misses : Z }.
#[export] Instance slab_stats_fields : Fields slab_stats := λ s,
  SlabStats (total_allocs s) (total_frees s) (cache_hits s) (cache_misses s).

(** The allocator together with the page allocator under it. *)
Record slab (K : Type) := Slab { caches : list slab_cache; stats : slab_stats; pages : K }.
Arguments Slab {K} caches stats pages.
Arguments caches {K} _.
Arguments stats {K} _.
Arguments pages {K} _.
#[export] Instance slab_fields K : Fields (slab K) := λ s, Slab (caches s) (stats s) (pages s).

(** [sizeof(struct slab_page)] is 40, rounded up to 16 bytes. *)
Definition header_size : Z := Z.land (40 + 15) (Z.lnot 15).

Section code.
Context {K : Type} `{!PageAlloc K}.

Definition liftk {A : Type} (m : ST K A) : ST (slab K) A := λ s,
  match m (pages s) with
  | Ret (a, k') => Ret (a, s <| pages := k' |>)
  | Panic msg => Panic msg
  | Blocks => Blocks
  end.

Definition cache0 : slab_cache := SlabCache 0 [] [] [] 0 0 0.
Definition cache_of (s : slab K) (idx : nat) : slab_cache := default cache0 (caches s !! idx).
Definition on_cache (idx : nat) (f : slab_cache → slab_cache) : ST (slab K) () :=
  modify (λ s, s <| caches ::= alter f idx |>).
Definition on_stats (f : slab_stats → slab_stats) : ST (slab K) () := modify (λ s, s <| stats ::= f |>).

Definition slab_page_init (obj_size : Z) : ST (slab K) (option slab_page) :=
  page ← liftk palloc;
  match page with
  | None => mret None
  | Some page =>
      let start := page + header_size in
      let total := (PGSIZE - header_size) / obj_size in
      let objs := (λ i, start + Z.of_nat i * obj_size) <$> seq 0 (Z.to_nat total) in
      mret (Some (SlabPage page obj_size total total objs start))
  end.

Definition slab_init (k : K) : slab K :=
  Slab ((λ sz, SlabCache sz [] [] [] 0 0 0) <$> slab_sizes) (SlabStats 0 0 0 0) k.

Definition find_cache_index (size : Z) : option nat := findi (λ sz, size <=? sz) slab_sizes.

(** The first part of [slab_alloc]: make the partial list non-empty.  Whether
    it could. *)
Definition ensure_partial (idx : nat) : ST (slab K) bool :=
  s ← get;
  let cache := cache_of s idx in
  match sc_partial cache, sc_empty cache with
  | _ :: _, _ =>
      _ ← on_stats (λ t, t <| cache_hits ::= λ n, u64 (n + 1) |>); mret true
  | [], sp :: rest =>
      _ ← on_cache idx (λ c, c <| sc_empty := rest |> <| sc_partial ::= cons sp |>);
      _ ← on_stats (λ t, t <| cache_hits ::= λ n, u64 (n + 1) |>); mret true
  | [], [] =>
      sp ← slab_page_init (sc_obj_size cache);
      match sp with
      | None => mret false
      | Some sp =>
          _ ← on_cache idx (λ c, c <| sc_partial ::= cons sp |> <| sc_total_pages ::= λ n, i32 (n + 1) |>);
          _ ← on_stats (λ t, t <| cache_misses ::= λ n, u64 (n + 1) |>); mret true
      end
  end.

(** The second part: take the first free object of the first partial page. *)
Definition take_obj (idx : nat) : ST (slab K) (option Z) :=
  s ← get;
  match sc_partial (cache_of s idx) with
  | [] => panic "null slab page"
  | sp :: partial =>
      match sp_freelist sp with
      | [] => panic "null slab object"
      | obj :: next =>
          let sp := sp <| sp_freelist := next |> <| sp_free_objs ::= λ n, n - 1 |> in
          _ ← on_cache idx (λ c,
                if sp_free_objs sp =? 0 then c <| sc_partial := partial |> <| sc_full ::= cons sp |>
                else c <| sc_partial := sp :: partial |>);
          _ ← on_cache idx (λ c, c <| sc_alloc_count ::= λ n, u64 (n + 1) |>);
          _ ← on_stats (λ t, t <| total_allocs ::= λ n, u64 (n + 1) |>);
          mret (Some obj)
      end
  end.

Definition slab_alloc (size : Z) : ST (slab K) (option Z) :=
  match find_cache_index size with
  | None => liftk palloc
  | Some idx => ok ← ensure_partial idx; if (ok : bool) then take_obj idx else mret None
  end.

(** The pages of a list other than the [i]-th. *)
Definition is_page (page_addr : Z) (sp : slab_page) : bool := sp_addr sp =? page_addr.

(** The tail of [slab_free]: give [ptr] back to page [sp], the [i]-th of the
    partial list. *)
Definition put_obj (idx i : nat) (ptr : Z) : ST (slab K) () :=
  s ← get;
  match sc_partial (cache_of s idx) !! i with
  | None => panic "null slab page"
  | Some sp =>
      let sp := sp <| sp_freelist ::= cons ptr |> <| sp_free_objs ::= λ n, n + 1 |> in
      _ ← on_cache idx (λ c,
            if sp_free_objs sp =? sp_total_objs sp then
              c <| sc_partial ::= delete i |> <| sc_empty ::= cons sp |>
            else c <| sc_partial ::= <[i := sp]> |>);
      _ ← on_cache idx (λ c, c <| sc_free_count ::= λ n, u64 (n + 1) |>);
      on_stats (λ t, t <| total_frees ::= λ n, u64 (n + 1) |>)
  end.

Definition slab_free (ptr size : Z) : ST (slab K) () :=
  if ptr =? 0 then mret ()
  else match find_cache_index size with
  | None => liftk (pfree ptr)
  | Some idx =>
      s ← get;
      let page_addr := PGROUNDDOWN ptr in
      let cache := cache_of s idx in
      match findi (is_page page_addr) (sc_full cache) with
      | Some j =>
          match sc_full cache !! j with
          | Some sp =>
              _ ← on_cache idx (λ c, c <| sc_full ::= delete j |> <| sc_partial ::= cons sp |>);
              put_obj idx 0 ptr
          | None => mret ()
          end
      | None =>
          match findi (is_page page_addr) (sc_partial cache) with
          | Some i => put_obj idx i ptr
          | None => mret ()             (* "invalid pointer" *)
          end
      end
  end.

Definition slab_get_stats (s : slab K) : Z * Z * Z * Z :=
  (total_allocs (stats s), total_frees (stats s), cache_hits (stats s), cache_misses (stats s)).

(** [while (cache->empty)] of [slab_shrink], with the pages freed so far. *)
Fixpoint shrink_cache (n idx : nat) (freed : Z) : ST (slab K) Z :=
  match n with
  | O => mret freed
  | S n' =>
      s ← get;
      match sc_empty (cache_of s idx) with
      | [] => mret freed
      | sp :: rest =>
          _ ← on_cache idx (λ c, c <| sc_empty := rest |>);
          _ ← liftk (pfree (sp_addr sp));
          _ ← on_cache idx (λ c, c <| sc_total_pages ::= λ n, i32 (n - 1) |>);
          shrink_cache n' idx (freed + 1)
      end
  end.

Fixpoint shrink_from (n idx : nat) (freed : Z) : ST (slab K) Z :=
  match n with
  | O => mret freed
  | S n' =>
      s ← get;
      freed ← shrink_cache (S (length (sc_empty (cache_of s idx)))) idx freed;
      shrink_from n' (idx + 1) freed
  end.
Definition slab_shrink : ST (slab K) Z := shrink_from (length slab_sizes) 0 0.
End code.

(** ** Invariant *)

Definition objs_per_page (sz : Z) : Z := (PGSIZE - header_size) / sz.

(** The addresses of the objects of a page of class size [sz]. *)
Definition slot (sz p a : Z) : Prop := ∃ i, 0 ≤ i < objs_per_page sz ∧ a = p + header_size + i * sz.

Record sp_ok (sz : Z) (sp : slab_page) : Prop := {
  sk_total : sp_total_objs sp = objs_per_page sz;
  sk_free : sp_free_objs sp = Z.of_nat (length (sp_freelist sp));
  sk_nodup : NoDup (sp_freelist sp);
  sk_slots : ∀ a, a ∈ sp_freelist sp → slot sz (sp_addr sp) a;
  sk_addr : sp_addr sp mod PGSIZE = 0 ∧ 0 < sp_addr sp;
}.

Definition cpages (c : slab_cache) : list slab_page := sc_partial c ++ sc_full c ++ sc_empty c.

Record cache_ok (sz : Z) (c : slab_cache) : Prop := {
  cc_size : sc_obj_size c = sz;
  cc_pages : Forall (sp_ok sz) (cpages c);
  cc_partial : Forall (λ sp, 0 < sp_free_objs sp) (sc_partial c);
  cc_full : Forall (λ sp, sp_free_objs sp = 0) (sc_full c);
  cc_empty : Forall (λ sp, sp_free_objs sp = objs_per_page sz) (sc_empty c);
}.

(** An object of a cache that has been handed out. *)
Definition used (sz : Z) (c : slab_cache) (a : Z) : Prop :=
  ∃ sp, sp ∈ cpages c ∧ slot sz (sp_addr sp) a ∧ a ∉ sp_freelist sp.

Lemma class_bounds idx sz : slab_sizes !! idx = Some sz → 32 ≤ sz ≤ 512.
Proof. intros H. do 5 (destruct idx as [|idx]; [by simplify_eq/=|]). done. Qed.

(** Objects lie inside their page, after its header. *)
Lemma slot_bounds sz p a : 32 ≤ sz ≤ 512 → slot sz p a → p + header_size ≤ a ∧ a + sz ≤ p + PGSIZE.
Proof.
  intros Hsz (i & Hi & ->). unfold objs_per_page in Hi.
  assert ((PGSIZE - header_size) / sz * sz ≤ PGSIZE - header_size) as Hd.
  { rewrite Z.mul_comm. apply Z.mul_div_le. lia. }
  nia.
Qed.

Lemma slot_page sz p a : 32 ≤ sz ≤ 512 → p mod PGSIZE = 0 → slot sz p a → PGROUNDDOWN a = p.
Proof.
  intros Hsz Hp Hs. destruct (slot_bounds sz p a Hsz Hs) as [H1 H2].
  replace a with (p + (a - p)) by lia. apply PGROUNDDOWN_in; [done|].
  assert (header_size = 48) by done. unfold PGSIZE in *. lia.
Qed.

(** Two different objects of one page do not overlap. *)
Lemma slot_disjoint sz p a b : 32 ≤ sz → slot sz p a → slot sz p b → a ≠ b → a + sz ≤ b ∨ b + sz ≤ a.
Proof. intros Hsz (i & Hi & ->) (j & Hj & ->) Hne. assert (i ≠ j) by (intros ->; done). nia. Qed.

Lemma fresh_objs sz p :
  0 < sz →
  let objs := (λ i, p + header_size + Z.of_nat i * sz) <$> seq 0 (Z.to_nat (objs_per_page sz)) in
  NoDup objs ∧ (∀ a, a ∈ objs ↔ slot sz p a) ∧ length objs = Z.to_nat (objs_per_page sz).
Proof.
  intros Hsz objs. split_and!.
  - apply NoDup_fmap_2_strong; [|apply NoDup_seq]. intros i j _ _ E. nia.
  - intros a. unfold objs. rewrite list_elem_of_fmap. split.
    + intros (i & -> & Hi%elem_of_seq). exists (Z.of_nat i). split; [lia|done].
    + intros (i & Hi & ->). exists (Z.to_nat i). rewrite Z2Nat.id by lia. split; [done|]. apply elem_of_seq. lia.
  - unfold objs. by rewrite length_fmap, length_seq.
Qed.

Section proofs.
Context {K : Type} `{!PageAlloc K} `{!PageAllocSpec K}.
Implicit Types (s : slab K) (c : slab_cache) (sp : slab_page).

Definition addrs (cs : list slab_cache) : list Z := concat ((λ c, sp_addr <$> cpages c) <$> cs).

Record slab_ok (s : slab K) : Prop := {
  so_k : pwf (pages s);
  so_len : length (caches s) = length slab_sizes;
  so_cache : ∀ idx sz c, slab_sizes !! idx = Some sz → caches s !! idx = Some c → cache_ok sz c;
  so_nodup : NoDup (addrs (caches s));
  so_refs : ∀ p, p ∈ addrs (caches s) → 0 < refs (pages s) p;
}.

Definition in_use (s : slab K) (idx : nat) (a : Z) : Prop :=
  ∃ sz c, slab_sizes !! idx = Some sz ∧ caches s !! idx = Some c ∧ used sz c a.

Lemma run_on_cache idx f s c :
  caches s !! idx = Some c → run (on_cache idx f) s () (Slab (<[idx := f c]> (caches s)) (stats s) (pages s)).
Proof.
  intros Hc. unfold on_cache, modify. cbn [caches update field_set]. by rewrite (alter_insert f _ idx c Hc).
Qed.

Lemma addrs_insert cs idx c c' new :
  cs !! idx = Some c → (sp_addr <$> cpages c') ≡ₚ new ++ (sp_addr <$> cpages c) →
  addrs (<[idx := c']> cs) ≡ₚ new ++ addrs cs.
Proof.
  unfold addrs. revert idx. induction cs as [|x cs IH]; intros [|idx] H P; simpl in H; simplify_eq.
  - cbn. rewrite P, <- app_assoc. done.
  - change (<[S idx := c']> (x :: cs)) with (x :: <[idx := c']> cs). cbn.
    rewrite (IH idx H P). rewrite Permutation_app_swap_app. done.
Qed.

Lemma addrs_in s idx c sp : caches s !! idx = Some c → sp ∈ cpages c → sp_addr sp ∈ addrs (caches s).
Proof.
  intros Hc Hsp. apply elem_of_concat_lookup. exists idx, (sp_addr <$> cpages c).
  rewrite list_lookup_fmap, Hc. split; [done|]. by apply list_elem_of_fmap_2.
Qed.

(** A cache replaced by one with the same pages, and a new state of the
    pages under it. *)
Lemma slab_ok_insert s idx sz c c' new k' st' :
  slab_ok s → slab_sizes !! idx = Some sz → caches s !! idx = Some c → cache_ok sz c' →
  (sp_addr <$> cpages c') ≡ₚ new ++ (sp_addr <$> cpages c) → pwf k' →
  NoDup new → (∀ p, p ∈ new → p ∉ addrs (caches s)) →
  (∀ p, p ∈ new ∨ p ∈ addrs (caches s) → 0 < refs k' p) →
  slab_ok (Slab (<[idx := c']> (caches s)) st' k').
Proof.
  intros [Hk Hlen Hcache Hnd Hrefs] Hsz Hc Hc' P Hk' Hnew Hdis Hrefs'.
  pose proof (addrs_insert (caches s) idx c c' new Hc P) as PA. split; cbn [caches pages].
  - done.
  - by rewrite length_insert.
  - intros i sz' x Hi Hx. destruct (decide (i = idx)) as [->|].
    + rewrite list_lookup_insert_eq in Hx by (by eapply lookup_lt_Some). by simplify_eq.
    + rewrite list_lookup_insert_ne in Hx by done. by eapply Hcache.
  - rewrite PA. apply NoDup_app. naive_solver.
  - intros p. rewrite PA, elem_of_app. apply Hrefs'.
Qed.

Lemma slab_ok_same s idx sz c c' st' :
  slab_ok s → slab_sizes !! idx = Some sz → caches s !! idx = Some c → cache_ok sz c' →
  (sp_addr <$> cpages c') ≡ₚ (sp_addr <$> cpages c) →
  slab_ok (Slab (<[idx := c']> (caches s)) st' (pages s)).
Proof.
  intros Hok Hsz Hc Hc' P. apply (slab_ok_insert s idx sz c c' []); try done.
  - apply Hok.
  - by apply NoDup_nil.
  - by intros p []%not_elem_of_nil.
  - intros p [[]%not_elem_of_nil|Hp]. by apply Hok.
Qed.

Lemma slab_ok_stats s st' : slab_ok s → slab_ok (Slab (caches s) st' (pages s)).
Proof. intros [? ? ? ? ?]. by split. Qed.

Lemma in_use_insert s idx sz c c' st' k' i a :
  slab_sizes !! idx = Some sz → caches s !! idx = Some c →
  in_use (Slab (<[idx := c']> (caches s)) st' k') i a ↔
  if decide (i = idx) then used sz c' a else in_use s i a.
Proof.
  intros Hsz Hc. unfold in_use. cbn [caches]. case_decide as E; [subst i|].
  - rewrite list_lookup_insert_eq by (by eapply lookup_lt_Some). naive_solver.
  - rewrite list_lookup_insert_ne by done. naive_solver.
Qed.

Lemma in_use_at s idx sz c a :
  slab_sizes !! idx = Some sz → caches s !! idx = Some c → in_use s idx a ↔ used sz c a.
Proof. intros Hsz Hc. unfold in_use. naive_solver. Qed.

Lemma used_perm sz c c' a : cpages c ≡ₚ cpages c' → used sz c a ↔ used sz c' a.
Proof. intros P. unfold used. by setoid_rewrite P. Qed.

Lemma run_liftk {A : Type} (m : ST K A) s a k' :
  run m (pages s) a k' → run (liftk m) s a (Slab (caches s) (stats s) k').
Proof. intros H. unfold liftk. by rewrite H. Qed.

Lemma run_on_stats f s : run (on_stats f) s () (Slab (caches s) (f (stats s)) (pages s)).
Proof. done. Qed.

Lemma cache_of_lookup s idx c : caches s !! idx = Some c → cache_of s idx = c.
Proof. intros H. unfold cache_of. by rewrite H. Qed.

(** *** Allocation *)

Lemma ensure_partial_spec s idx sz c :
  slab_ok s → slab_sizes !! idx = Some sz → caches s !! idx = Some c →
  ∃ b s', run (ensure_partial idx) s b s' ∧ slab_ok s' ∧ (∀ i a, in_use s' i a ↔ in_use s i a) ∧
    (b = true → ∃ c' sp rest, caches s' !! idx = Some c' ∧ sc_partial c' = sp :: rest).
Proof.
  intros Hok Hsz Hc. pose proof (so_cache s Hok idx sz c Hsz Hc) as Hcok.
  assert (∀ c', <[idx := c']> (caches s) !! idx = Some c') as Hins.
  { intros c'. apply list_lookup_insert_eq. by eapply lookup_lt_Some. }
  unfold ensure_partial. rewrite (bind_Ret _ _ _ _ _ (run_get s)). cbv zeta. rewrite (cache_of_lookup s idx c Hc).
  destruct (sc_partial c) as [|sp partial] eqn:Ep; [destruct (sc_empty c) as [|sp rest] eqn:Ee|].
  - unfold slab_page_init. rewrite (cc_size sz c Hcok).
    destruct (palloc_spec (pages s) (so_k s Hok)) as (r & k' & Er & Hk' & Hr).
    destruct r as [p|].
    + destruct Hr as (Hp0 & Hpal & Hpr & Hrefs). destruct (fresh_objs sz p) as (Hnd & Hin & Hlen); [pose proof (class_bounds idx sz Hsz); lia|].
      set (sp := SlabPage p sz (objs_per_page sz) (objs_per_page sz) ((λ i, p + header_size + Z.of_nat i * sz) <$> seq 0 (Z.to_nat (objs_per_page sz))) (p + header_size)).
      rewrite (bind_Ret _ _ s (Some sp) (Slab (caches s) (stats s) k')).
      2:{ rewrite (bind_Ret _ _ _ _ _ (run_liftk _ s _ _ Er)). done. }
      cbn beta iota. rewrite (bind_Ret _ _ _ _ _ (run_on_cache idx _ (Slab (caches s) (stats s) k') c Hc)). cbn beta.
      set (c' := c <| sc_partial ::= cons sp |> <| sc_total_pages ::= λ n, i32 (n + 1) |>).
      rewrite (bind_Ret _ _ _ _ _ (run_on_stats _ _)). cbn [caches pages stats update field_set].
      assert (0 < objs_per_page sz) as Hpos.
      { pose proof (class_bounds idx sz Hsz). unfold objs_per_page. apply Z.div_str_pos. assert (header_size = 48) by done. unfold PGSIZE. lia. }
      assert (sp_ok sz sp) as Hspok.
      { split; cbn; [done|rewrite Hlen; lia|done|by intros a Ha%Hin|lia]. }
      assert (cpages c' = sp :: cpages c) as Ecp by (unfold cpages; cbn; by rewrite Ep).
      eexists true, _. split; [done|]. split_and!.
      * apply (slab_ok_insert s idx sz c c' [p]); try done.
        -- destruct Hcok as [H1 H2 H3 H4 H5]. split; [exact H1| | |exact H4|exact H5].
           ++ rewrite Ecp. by constructor.
           ++ cbn. rewrite Ep. by repeat constructor.
        -- apply NoDup_singleton.
        -- intros q ->%list_elem_of_singleton Hin'. pose proof (so_refs s Hok p Hin'). lia.
        -- intros q [->%list_elem_of_singleton|Hq]; rewrite Hrefs; unfold fupd; [by rewrite decide_True|].
           case_decide; [lia|]. by apply (so_refs s Hok).
      * intros i a. rewrite (in_use_insert s idx sz c c') by done. case_decide; [subst i|done].
        rewrite (in_use_at s idx sz c) by done. unfold used. rewrite Ecp. setoid_rewrite elem_of_cons. split.
        -- intros (sp' & [->|Hsp] & Hs & Hn); [|by exists sp']. destruct Hn. by apply Hin.
        -- intros (sp' & Hsp & Hs & Hn). exists sp'. naive_solver.
      * intros _. exists c', sp, []. split; [apply Hins|]. cbn. by rewrite Ep.
    + rewrite (bind_Ret _ _ s None (Slab (caches s) (stats s) k')).
      2:{ rewrite (bind_Ret _ _ _ _ _ (run_liftk _ s _ _ Er)). done. }
      exists false, (Slab (caches s) (stats s) k'). split; [done|]. split_and!; try done.
      destruct Hok as [? ? ? ? Hrf]. split; try done. intros q Hq. cbn in *. rewrite Hr. by apply Hrf.
  - rewrite (bind_Ret _ _ _ _ _ (run_on_cache idx _ s c Hc)). cbn beta.
    set (c' := c <| sc_empty := rest |> <| sc_partial ::= cons sp |>).
    rewrite (bind_Ret _ _ _ _ _ (run_on_stats _ _)). cbn [caches pages stats update field_set].
    assert (cpages c ≡ₚ cpages c') as P.
    { unfold cpages, c'. cbn. rewrite Ep, Ee. cbn. by rewrite <- Permutation_middle. }
    assert (0 < objs_per_page sz) as Hpos.
    { pose proof (class_bounds idx sz Hsz). unfold objs_per_page. apply Z.div_str_pos. assert (header_size = 48) by done. unfold PGSIZE. lia. }
    eexists true, _. split; [done|]. split_and!.
    + apply (slab_ok_same s idx sz c c'); try done; [|by rewrite P].
      destruct Hcok as [H1 Hpg H3 H4 Hem]. rewrite Ee in Hem. apply Forall_cons in Hem as [Hsp Hem].
      split; [exact H1|by rewrite <- P| |exact H4|exact Hem]. cbn. rewrite Ep. constructor; [lia|done].
    + intros i a. rewrite (in_use_insert s idx sz c c') by done. case_decide; [subst i|done].
      rewrite (in_use_at s idx sz c) by done. symmetry. by apply used_perm.
    + intros _. exists c', sp, []. split; [apply Hins|]. cbn. by rewrite Ep.
  - rewrite (bind_Ret _ _ _ _ _ (run_on_stats _ _)). eexists true, _. split; [done|]. split_and!.
    + by apply slab_ok_stats.
    + done.
    + intros _. by exists c, sp, partial.
Qed.

Lemma cache_nodup s idx c : slab_ok s → caches s !! idx = Some c → NoDup (sp_addr <$> cpages c).
Proof.
  intros Hok Hc. apply (NoDup_concat_lookup ((λ c, sp_addr <$> cpages c) <$> caches s) idx); [apply Hok|].
  by rewrite list_lookup_fmap, Hc.
Qed.

(** A page address determines its cache and its page. *)
Lemma page_unique s i j c c' sp sp' :
  slab_ok s → caches s !! i = Some c → caches s !! j = Some c' → sp ∈ cpages c → sp' ∈ cpages c' →
  sp_addr sp = sp_addr sp' → i = j ∧ sp = sp'.
Proof.
  intros Hok Hi Hj Hsp Hsp' E. pose proof (so_nodup s Hok) as Hnd. unfold addrs in Hnd.
  assert (∀ k x, caches s !! k = Some x → ((λ c, sp_addr <$> cpages c) <$> caches s) !! k = Some (sp_addr <$> cpages x)) as Hk.
  { intros k x Hx. by rewrite list_lookup_fmap, Hx. }
  assert (i = j) as <-.
  { eapply (NoDup_concat_unique _ i j _ _ (sp_addr sp) Hnd); [by apply Hk|by apply Hk|by apply list_elem_of_fmap_2|].
    rewrite E. by apply list_elem_of_fmap_2. }
  simplify_eq. split; [done|]. pose proof (cache_nodup s i c Hok Hi) as Hn.
  apply list_elem_of_lookup in Hsp as [a Ha]. apply list_elem_of_lookup in Hsp' as [b Hb].
  assert (a = b) as ->; [|by simplify_eq].
  apply (NoDup_lookup _ a b (sp_addr sp) Hn); rewrite list_lookup_fmap; [by rewrite Ha|by rewrite Hb, E].
Qed.

Lemma take_obj_spec s idx sz c sp rest :
  slab_ok s → slab_sizes !! idx = Some sz → caches s !! idx = Some c → sc_partial c = sp :: rest →
  ∃ a s', run (take_obj idx) s (Some a) s' ∧ slab_ok s' ∧ ¬ in_use s idx a ∧ slot sz (sp_addr sp) a ∧
    ∀ i b, in_use s' i b ↔ in_use s i b ∨ (i = idx ∧ b = a).
Proof.
  intros Hok Hsz Hc Ep. pose proof (so_cache s Hok idx sz c Hsz Hc) as Hcok.
  assert (sp ∈ cpages c) as Hin by (unfold cpages; rewrite Ep; by left).
  destruct Hcok as [Hcs Hpg Hpa Hfu Hem].
  assert (sp_ok sz sp) as Hsp by (rewrite Forall_forall in Hpg; by apply Hpg).
  rewrite Ep in Hpa. apply Forall_cons in Hpa as [Hfree Hpa].
  destruct (sp_freelist sp) as [|a next] eqn:El; [rewrite (sk_free sz sp Hsp), El in Hfree; simpl in Hfree; lia|].
  set (sp' := sp <| sp_freelist := next |> <| sp_free_objs ::= λ n, n - 1 |>).
  set (c1 := if sp_free_objs sp' =? 0 then c <| sc_partial := rest |> <| sc_full ::= cons sp' |> else c <| sc_partial := sp' :: rest |>).
  set (c2 := c1 <| sc_alloc_count ::= λ n, u64 (n + 1) |>).
  assert (slot sz (sp_addr sp) a) as Hslot by (apply (sk_slots sz sp Hsp); rewrite El; by left).
  assert (¬ used sz c a) as Hnot.
  { intros (sp2 & Hin2 & Hs2 & Hn2). pose proof (class_bounds idx sz Hsz) as Hb.
    assert (sp_ok sz sp2) as Hsp2 by (rewrite Forall_forall in Hpg; by apply Hpg).
    destruct (page_unique s idx idx c c sp2 sp Hok Hc Hc Hin2 Hin) as [_ ->].
    - rewrite <- (slot_page sz _ a Hb (proj1 (sk_addr sz sp2 Hsp2)) Hs2).
      by apply (slot_page sz _ a Hb (proj1 (sk_addr sz sp Hsp))).
    - apply Hn2. rewrite El. by left. }
  assert (cpages c2 ≡ₚ sp' :: (rest ++ sc_full c ++ sc_empty c)) as P2.
  { unfold cpages, c2, c1. destruct (_ =? 0); cbn; [|done]. by rewrite <- Permutation_middle. }
  assert (cpages c = sp :: (rest ++ sc_full c ++ sc_empty c)) as P1 by (unfold cpages; by rewrite Ep).
  assert (sp_ok sz sp') as Hsp'.
  { destruct Hsp as [H1 H2 H3 H4 H5]. rewrite El in H2, H3, H4. split; cbn; [done|simpl in H2; lia| | |done].
    - by apply NoDup_cons in H3 as [_ ?].
    - intros b Hb. apply H4. by right. }
  exists a, (Slab (<[idx := c2]> (caches s)) ((stats s) <| total_allocs ::= λ n, u64 (n + 1) |>) (pages s)).
  split_and!.
  - unfold take_obj. rewrite (bind_Ret _ _ _ _ _ (run_get s)), (cache_of_lookup s idx c Hc), Ep, El. cbv zeta.
    rewrite (bind_Ret _ _ _ _ _ (run_on_cache idx _ s c Hc)). cbn beta.
    rewrite (bind_Ret _ _ _ _ _ (run_on_cache idx _ (Slab (<[idx := c1]> (caches s)) (stats s) (pages s)) c1
      ltac:(apply list_lookup_insert_eq; by eapply lookup_lt_Some))). cbn [caches stats pages].
    rewrite list_insert_insert_eq. done.
  - apply (slab_ok_same s idx sz c c2); try done.
    + split.
      * unfold c2, c1. by destruct (_ =? 0).
      * rewrite P2. constructor; [done|]. rewrite P1 in Hpg. by apply Forall_cons in Hpg as [_ ?].
      * unfold c2, c1. destruct (Z.eqb_spec (sp_free_objs sp') 0); cbn; [done|]. constructor; [cbn in *; lia|done].
      * unfold c2, c1. destruct (Z.eqb_spec (sp_free_objs sp') 0); cbn; [by constructor|done].
      * unfold c2, c1. by destruct (_ =? 0).
    + rewrite P2, P1. done.
  - by rewrite (in_use_at s idx sz c).
  - done.
  - intros i b. rewrite (in_use_insert s idx sz c c2) by done. case_decide as Ei; [subst i|naive_solver].
    rewrite (in_use_at s idx sz c) by done. unfold used. rewrite P1. setoid_rewrite P2. setoid_rewrite elem_of_cons. split.
    + intros (x & [->|Hx] & Hs & Hn); [|left; naive_solver].
      destruct (decide (b = a)) as [->|]; [by right|]. left. exists sp. split; [by left|]. split; [done|].
      rewrite El. cbn in Hn. intros [->|?]%elem_of_cons; done.
    + intros [(x & [->|Hx] & Hs & Hn)|[_ ->]].
      * exists sp'. split; [by left|]. split; [done|]. cbn. intros Hb. apply Hn. rewrite El. by right.
      * exists x. naive_solver.
      * exists sp'. split; [by left|]. split; [done|]. cbn. pose proof (sk_nodup sz sp Hsp) as Hnd. rewrite El in Hnd.
        by apply NoDup_cons in Hnd as [? _].
Qed.

(** *** Release *)

(** The cache after [put_obj] has given [a] back to [sp], the [i]-th partial
    page. *)
Definition given (a : Z) (sp : slab_page) : slab_page :=
  sp <| sp_freelist ::= cons a |> <| sp_free_objs ::= λ n, n + 1 |>.
Definition put_c (i : nat) (a : Z) (sp : slab_page) (c : slab_cache) : slab_cache :=
  let sp' := given a sp in
  let c := if sp_free_objs sp' =? sp_total_objs sp' then c <| sc_partial ::= delete i |> <| sc_empty ::= cons sp' |>
           else c <| sc_partial ::= <[i := sp']> |> in
  c <| sc_free_count ::= λ n, u64 (n + 1) |>.

Lemma run_put_obj s idx i a c sp :
  caches s !! idx = Some c → sc_partial c !! i = Some sp →
  run (put_obj idx i a) s ()
    (Slab (<[idx := put_c i a sp c]> (caches s)) ((stats s) <| total_frees ::= λ n, u64 (n + 1) |>) (pages s)).
Proof.
  intros Hc Hi. unfold put_obj. rewrite (bind_Ret _ _ _ _ _ (run_get s)), (cache_of_lookup s idx c Hc), Hi. cbv zeta.
  rewrite (bind_Ret _ _ _ _ _ (run_on_cache idx _ s c Hc)). cbn beta.
  match goal with |- context [<[idx := ?x]> (caches s)] => set (c1 := x) end.
  rewrite (bind_Ret _ _ _ _ _ (run_on_cache idx _ (Slab (<[idx := c1]> (caches s)) (stats s) (pages s)) c1
    ltac:(apply list_lookup_insert_eq; by eapply lookup_lt_Some))). cbn [caches stats pages].
  rewrite list_insert_insert_eq. done.
Qed.

(** The pages other than the [i]-th partial one are kept. *)
Lemma put_c_pages i a sp c :
  sc_partial c !! i = Some sp →
  ∃ others, cpages c ≡ₚ sp :: others ∧ cpages (put_c i a sp c) ≡ₚ given a sp :: others.
Proof.
  intros Hi. exists (delete i (sc_partial c) ++ sc_full c ++ sc_empty c). unfold cpages. split.
  - rewrite (delete_Permutation (sc_partial c) i sp Hi) at 1. done.
  - unfold put_c. destruct (_ =? _); cbn.
    + rewrite <- !Permutation_middle. done.
    + rewrite (delete_Permutation (<[i := given a sp]> (sc_partial c)) i (given a sp)).
      * cbn. by rewrite list_delete_insert_eq.
      * apply list_lookup_insert_eq. by eapply lookup_lt_Some.
Qed.

Lemma given_ok sz sp a : sp_ok sz sp → slot sz (sp_addr sp) a → a ∉ sp_freelist sp → sp_ok sz (given a sp).
Proof.
  intros [H1 H2 H3 H4 H5] Hs Hn. split; cbn; [done|lia|by constructor| |done].
  intros b [->|Hb]%elem_of_cons; [done|by apply H4].
Qed.

(** No page has more free objects than it holds. *)
Lemma sp_free_lt sz sp a :
  32 ≤ sz → sp_ok sz sp → slot sz (sp_addr sp) a → a ∉ sp_freelist sp → sp_free_objs sp < objs_per_page sz.
Proof.
  intros Hsz Hsp Hs Hn. destruct (fresh_objs sz (sp_addr sp)) as (Hnd & Hin & Hlen); [lia|].
  pose proof (given_ok sz sp a Hsp Hs Hn) as [_ Hf Hnd' Hsl _]. cbn in Hf.
  assert (length (a :: sp_freelist sp) ≤ Z.to_nat (objs_per_page sz))%nat as Hle.
  { rewrite <- Hlen. apply submseteq_length, NoDup_submseteq; [exact Hnd'|]. intros b Hb. apply Hin. by apply Hsl. }
  destruct Hs as (i & Hi & _). simpl in *. lia.
Qed.

(** What giving [a] back does to the allocator, from a cache [c1] with the
    pages of [c] in which [sp] is the [i]-th partial page. *)
Lemma put_c_spec s idx sz c c1 i a sp st' :
  slab_ok s → slab_sizes !! idx = Some sz → caches s !! idx = Some c →
  cpages c1 ≡ₚ cpages c → sc_partial c1 !! i = Some sp → slot sz (sp_addr sp) a → a ∉ sp_freelist sp →
  sc_obj_size c1 = sz → Forall (λ sp, 0 < sp_free_objs sp) (delete i (sc_partial c1)) →
  Forall (λ sp, sp_free_objs sp = 0) (sc_full c1) → Forall (λ sp, sp_free_objs sp = objs_per_page sz) (sc_empty c1) →
  let s' := Slab (<[idx := put_c i a sp c1]> (caches s)) st' (pages s) in
  slab_ok s' ∧ ∀ j b, in_use s' j b ↔ in_use s j b ∧ ¬ (j = idx ∧ b = a).
Proof.
  intros Hok Hsz Hc P Hi Hs Hn H1 H2 H3 H4 s'. destruct (put_c_pages i a sp c1 Hi) as (others & P1 & P2).
  rewrite P in P1. pose proof (so_cache s Hok idx sz c Hsz Hc) as Hcok.
  pose proof (cc_pages sz c Hcok) as Hpg. rewrite P1 in Hpg. apply Forall_cons in Hpg as [Hsp Hoth].
  pose proof (given_ok sz sp a Hsp Hs Hn) as Hg. pose proof (class_bounds idx sz Hsz) as Hb.
  assert (0 < sp_free_objs (given a sp)) as Hpos by (rewrite (sk_free sz _ Hg); simpl; lia).
  split.
  - apply (slab_ok_same s idx sz c); try done; [|by rewrite P2, P1].
    assert (Forall (λ sp, 0 < sp_free_objs sp) (<[i := given a sp]> (sc_partial c1))) as Hins.
    { pose proof H2 as Hd. rewrite Forall_forall in Hd |- *. intros x Hx.
      rewrite (delete_Permutation _ i (given a sp)), list_delete_insert_eq in Hx
        by (apply list_lookup_insert_eq; by eapply lookup_lt_Some).
      apply elem_of_cons in Hx as [->|Hx]; [done|by apply Hd]. }
    split.
    + unfold put_c. by destruct (_ =? _).
    + rewrite P2. by constructor.
    + unfold put_c. destruct (_ =? _); cbn; [done|exact Hins].
    + unfold put_c. by destruct (_ =? _).
    + unfold put_c. destruct (Z.eqb_spec (sp_free_objs (given a sp)) (sp_total_objs (given a sp))) as [E|E]; cbn; [|done].
      constructor; [|done]. rewrite E. apply Hg.
  - intros j b. unfold s'. rewrite (in_use_insert s idx sz c) by done. case_decide as Ej; [subst j|naive_solver].
    rewrite (in_use_at s idx sz c) by done. unfold used. setoid_rewrite P2. setoid_rewrite P1. setoid_rewrite elem_of_cons.
    split.
    + intros (x & Hx & Hsx & Hnx). assert (b ≠ a) as Hne.
      { intros ->. destruct Hx as [->|Hx]; [apply Hnx; cbn; by left|].
        (* another page with an object at the same address *)
        assert (sp_ok sz x) as Hxo by (rewrite Forall_forall in Hoth; by apply Hoth).
        pose proof (cache_nodup s idx c Hok Hc) as Hndc. rewrite P1 in Hndc. cbn in Hndc.
        apply NoDup_cons in Hndc as [Hnin _]. apply Hnin.
        rewrite <- (slot_page sz _ a Hb (proj1 (sk_addr sz sp Hsp)) Hs).
        rewrite (slot_page sz _ a Hb (proj1 (sk_addr sz x Hxo)) Hsx). by apply list_elem_of_fmap_2. }
      split; [|naive_solver]. destruct Hx as [->|Hx]; [|naive_solver].
      exists sp. split; [by left|]. split; [done|]. intros Hbin. apply Hnx. cbn. by right.
    + intros [(x & [->|Hx] & Hsx & Hnx) Hne]; [|naive_solver].
      exists (given a sp). split; [by left|]. split; [done|]. cbn. intros [->|?]%elem_of_cons; naive_solver.
Qed.

Lemma slab_free_spec s idx sz a size :
  slab_ok s → find_cache_index size = Some idx → slab_sizes !! idx = Some sz → in_use s idx a →
  ∃ s', run (slab_free a size) s () s' ∧ slab_ok s' ∧
    ∀ j b, in_use s' j b ↔ in_use s j b ∧ ¬ (j = idx ∧ b = a).
Proof.
  intros Hok Hf Hsz Hu. pose proof (class_bounds idx sz Hsz) as Hb.
  destruct Hu as (sz' & c & Hsz' & Hc & sp & Hin & Hs & Hn). simplify_eq.
  pose proof (so_cache s Hok idx sz c Hsz Hc) as [Hcs Hpg Hpa Hfu Hem].
  assert (sp_ok sz sp) as Hsp by (rewrite Forall_forall in Hpg; by apply Hpg).
  pose proof (slot_page sz _ a Hb (proj1 (sk_addr sz sp Hsp)) Hs) as Hpage.
  pose proof (slot_bounds sz _ a Hb Hs) as [Hlo _]. pose proof (sk_addr sz sp Hsp) as [_ Hpos].
  assert (header_size = 48) as Hh by done.
  unfold slab_free. destruct (Z.eqb_spec a 0); [lia|]. rewrite Hf.
  rewrite (bind_Ret _ _ _ _ _ (run_get s)). cbv zeta. rewrite (cache_of_lookup s idx c Hc).
  destruct (findi (is_page (PGROUNDDOWN a)) (sc_full c)) as [j|] eqn:Ef.
  - apply findi_lookup in Ef as (x & Hx & Ex%Z.eqb_eq). rewrite Hx.
    assert (x = sp) as ->.
    { destruct (page_unique s idx idx c c x sp Hok Hc Hc); [|done|congruence|done].
      unfold cpages. rewrite !elem_of_app. right. left. by eapply list_elem_of_lookup_2. }
    rewrite (bind_Ret _ _ _ _ _ (run_on_cache idx _ s c Hc)). cbn beta.
    set (c1 := c <| sc_full ::= delete j |> <| sc_partial ::= cons sp |>).
    eexists. split; [apply (run_put_obj (Slab (<[idx := c1]> (caches s)) (stats s) (pages s)) idx 0 a c1 sp);
      [apply list_lookup_insert_eq; by eapply lookup_lt_Some|done]|].
    cbn [caches stats pages]. rewrite list_insert_insert_eq.
    apply (put_c_spec s idx sz c c1 0 a sp); try done.
    + pose proof (delete_Permutation (sc_full c) j sp Hx) as Pd. unfold cpages, c1. cbn.
      set (d := delete j (sc_full c)) in *. rewrite Pd. cbn. by rewrite <- Permutation_middle.
    + cbn. by apply Forall_delete.
  - assert (sp ∉ sc_full c) as Hnf.
    { intros Hin'. apply list_elem_of_lookup in Hin' as [k Hk]. rewrite findi_None in Ef.
      specialize (Ef k sp Hk). unfold is_page in Ef. rewrite Hpage, Z.eqb_refl in Ef. done. }
    assert (sp ∈ sc_partial c) as Hip.
    { unfold cpages in Hin. rewrite !elem_of_app in Hin. destruct Hin as [?|[?|He]]; [done|done|].
      rewrite Forall_forall in Hem. specialize (Hem sp He). pose proof (sp_free_lt sz sp a ltac:(lia) Hsp Hs Hn). lia. }
    destruct (findi (is_page (PGROUNDDOWN a)) (sc_partial c)) as [i|] eqn:Ei.
    + apply findi_lookup in Ei as (x & Hx & Ex%Z.eqb_eq).
      assert (x = sp) as ->.
      { destruct (page_unique s idx idx c c x sp Hok Hc Hc); [|done|congruence|done].
        unfold cpages. rewrite !elem_of_app. left. by eapply list_elem_of_lookup_2. }
      eexists. split; [by apply run_put_obj|].
      apply (put_c_spec s idx sz c c i a sp); try done. by apply Forall_delete.
    + exfalso. apply list_elem_of_lookup in Hip as [k Hk]. rewrite findi_None in Ei.
      specialize (Ei k sp Hk). unfold is_page in Ei. rewrite Hpage, Z.eqb_refl in Ei. done.
Qed.

(** *** Shrinking *)

(** The pages of the empty lists. *)
Definition empty_pages (cs : list slab_cache) : list Z := concat ((λ c, sp_addr <$> sc_empty c) <$> cs).

(** What shrinking leaves of a cache. *)
Definition emptied c c' : Prop :=
  sc_empty c' = [] ∧ sc_partial c' = sc_partial c ∧ sc_full c' = sc_full c ∧
  i32 (sc_total_pages c') = i32 (sc_total_pages c - Z.of_nat (length (sc_empty c))).

Lemma i32_pred a k : i32 (i32 (a - 1) - k) = i32 (a - (1 + k)).
Proof. unfold i32. f_equal. Z.to_euclidean_division_equations. lia. Qed.

(** One empty page given back. *)
Lemma shrink_step s idx sz c sp rest :
  slab_ok s → slab_sizes !! idx = Some sz → caches s !! idx = Some c → sc_empty c = sp :: rest →
  let c' := c <| sc_empty := rest |> <| sc_total_pages ::= λ n, i32 (n - 1) |> in
  ∃ k', run (pfree (sp_addr sp)) (pages s) () k' ∧
    slab_ok (Slab (<[idx := c']> (caches s)) (stats s) k') ∧
    (∀ i a, in_use (Slab (<[idx := c']> (caches s)) (stats s) k') i a ↔ in_use s i a) ∧
    ∀ q, refs k' q = refs (pages s) q - if sp_addr sp =? q then 1 else 0.
Proof.
  intros Hok Hsz Hc Ee c'. pose proof (class_bounds idx sz Hsz) as Hb.
  pose proof (so_cache s Hok idx sz c Hsz Hc) as [Hcs Hpg Hpa Hfu Hem].
  assert (cpages c ≡ₚ sp :: cpages c') as P.
  { unfold cpages, c'. cbn. rewrite Ee, !app_assoc. by rewrite <- Permutation_middle. }
  assert (sp ∈ cpages c) as Hin by (rewrite P; by left).
  assert (sp_ok sz sp) as Hsp by (rewrite Forall_forall in Hpg; by apply Hpg).
  rewrite Ee in Hem. apply Forall_cons in Hem as [Hfull Hem].
  destruct (pfree_spec (pages s) (sp_addr sp) (so_k s Hok)) as (k' & E & Hk' & Hr).
  { apply (so_refs s Hok). by apply (addrs_in s idx c). }
  exists k'. split; [done|].
  assert (addrs (caches s) ≡ₚ sp_addr sp :: addrs (<[idx := c']> (caches s))) as PA.
  { pose proof (addrs_insert (<[idx := c']> (caches s)) idx c' c [sp_addr sp]) as PA.
    rewrite list_insert_insert_eq, (list_insert_id (caches s) idx c Hc) in PA. apply PA; [|by rewrite P].
    apply list_lookup_insert_eq. by eapply lookup_lt_Some. }
  pose proof (so_nodup s Hok) as Hnd. rewrite PA in Hnd. apply NoDup_cons in Hnd as [Hn Hnd]. split_and!.
  - destruct Hok as [_ Hlen Hcache _ Hrefs]. split; cbn [caches pages]; [done|by rewrite length_insert| |done|].
    + intros i sz' x Hi Hx. destruct (decide (i = idx)) as [->|].
      * rewrite list_lookup_insert_eq in Hx by (by eapply lookup_lt_Some). injection Hx as <-.
        assert (sz' = sz) as -> by congruence. rewrite P in Hpg. apply Forall_cons in Hpg as [_ Hpg]. split; [exact Hcs|done|exact Hpa|exact Hfu|exact Hem].
      * rewrite list_lookup_insert_ne in Hx by done. by eapply Hcache.
    + intros p Hp. rewrite Hr. unfold fupd. case_decide as Ep; [subst p; done|]. apply Hrefs. rewrite PA. by right.
  - intros i a. rewrite (in_use_insert s idx sz c) by done. case_decide; [subst i|done].
    rewrite (in_use_at s idx sz c) by done. unfold used. setoid_rewrite P. setoid_rewrite elem_of_cons. split.
    + intros (x & Hx & Hs & Hn'). exists x. naive_solver.
    + intros (x & [->|Hx] & Hs & Hn'); [|by exists x].
      pose proof (sp_free_lt sz sp a ltac:(lia) Hsp Hs Hn'). lia.
  - intros q. rewrite Hr. unfold fupd. destruct (Z.eqb_spec (sp_addr sp) q); case_decide; subst; (done || lia).
Qed.

Lemma shrink_cache_spec n s idx sz c freed :
  slab_ok s → slab_sizes !! idx = Some sz → caches s !! idx = Some c → (length (sc_empty c) < n)%nat →
  ∃ s' c', run (shrink_cache n idx freed) s (freed + Z.of_nat (length (sc_empty c))) s' ∧ slab_ok s' ∧
    (∀ i a, in_use s' i a ↔ in_use s i a) ∧ caches s' !! idx = Some c' ∧ emptied c c' ∧
    (∀ i, i ≠ idx → caches s' !! i = caches s !! i) ∧
    ∀ q, refs (pages s') q = refs (pages s) q - tally (λ p, p =? q) (sp_addr <$> sc_empty c).
Proof.
  revert s c freed. induction n as [|n IH]; intros s c freed Hok Hsz Hc Hn; [lia|]. cbn [shrink_cache].
  rewrite (bind_Ret _ _ _ _ _ (run_get s)), (cache_of_lookup s idx c Hc).
  destruct (sc_empty c) as [|sp rest] eqn:Ee.
  - exists s, c. cbn [length]. rewrite Z.add_0_r. split_and!; try done; [by unfold emptied; rewrite Ee, Z.sub_0_r|]. intros q. cbn. lia.
  - destruct (shrink_step s idx sz c sp rest Hok Hsz Hc Ee) as (k' & E & Hok' & Hu & Hr).
    set (c1 := c <| sc_empty := rest |>). set (c2 := c1 <| sc_total_pages ::= λ n, i32 (n - 1) |>).
    assert (∀ x, <[idx := x]> (caches s) !! idx = Some x) as Hins.
    { intros x. apply list_lookup_insert_eq. by eapply lookup_lt_Some. }
    rewrite (bind_Ret _ _ _ _ _ (run_on_cache idx _ s c Hc)). cbn beta.
    rewrite (bind_Ret _ _ _ _ _ (run_liftk _ (Slab (<[idx := c1]> (caches s)) (stats s) (pages s)) _ _ E)). cbn beta.
    rewrite (bind_Ret _ _ _ _ _ (run_on_cache idx _ (Slab (<[idx := c1]> (caches s)) (stats s) k') c1 (Hins c1))).
    cbn [caches stats pages]. rewrite list_insert_insert_eq.
    destruct (IH _ c2 (freed + 1) Hok' Hsz (Hins c2)) as (s' & c' & E' & H1 & H2 & H3 & (H4 & H5 & H6 & H7) & H8 & H9); [cbn in *; lia|].
    exists s', c'. split.
    + cbn [length]. replace (freed + Z.of_nat (S (length rest))) with (freed + 1 + Z.of_nat (length rest)) by lia. exact E'.
    + unfold emptied. split_and!; [done| |done|done|done|done| | |].
      * intros i a. rewrite H2. apply Hu.
      * rewrite H7, Ee. cbn [length c2 c1 sc_total_pages sc_empty update field_set]. rewrite i32_pred. f_equal. lia.
      * intros i Hi. rewrite H8 by done. cbn. by rewrite list_lookup_insert_ne.
      * intros q. rewrite H9. cbn [pages]. rewrite Hr. cbn [fmap list_fmap tally c2 c1 sc_empty update field_set]. lia.
Qed.

Lemma tally_app {A} (f : A → bool) l k : tally f (l ++ k) = tally f l + tally f k.
Proof. induction l as [|x l IH]; cbn; [done|]. rewrite IH. lia. Qed.

Lemma shrink_from_spec n s idx freed :
  slab_ok s → (idx + n = length slab_sizes)%nat →
  ∃ s', run (shrink_from n idx freed) s (freed + Z.of_nat (length (empty_pages (drop idx (caches s))))) s' ∧
    slab_ok s' ∧ (∀ i a, in_use s' i a ↔ in_use s i a) ∧
    (∀ i, (i < idx)%nat → caches s' !! i = caches s !! i) ∧
    (∀ i c', (idx ≤ i)%nat → caches s' !! i = Some c' → ∃ c, caches s !! i = Some c ∧ emptied c c') ∧
    ∀ q, refs (pages s') q = refs (pages s) q - tally (λ p, p =? q) (empty_pages (drop idx (caches s))).
Proof.
  revert s idx freed. induction n as [|n IH]; intros s idx freed Hok Hn; cbn [shrink_from].
  - exists s. rewrite drop_ge by (rewrite (so_len s Hok); lia). cbn. rewrite Z.add_0_r. split_and!; try done; [|intros; lia].
    intros i c Hi Hc. apply lookup_lt_Some in Hc. rewrite (so_len s Hok) in Hc. lia.
  - destruct (lookup_lt_is_Some_2 slab_sizes idx) as [sz Hsz]; [lia|].
    destruct (lookup_lt_is_Some_2 (caches s) idx) as [c Hc]; [rewrite (so_len s Hok); lia|].
    rewrite (bind_Ret _ _ _ _ _ (run_get s)), (cache_of_lookup s idx c Hc).
    destruct (shrink_cache_spec (S (length (sc_empty c))) s idx sz c freed Hok Hsz Hc) as (s1 & c1 & E1 & Hok1 & Hu1 & Hc1 & He1 & Ho1 & Hr1); [lia|].
    step_with E1. replace (idx + 1)%nat with (S idx) by lia.
    destruct (IH s1 (S idx) (freed + Z.of_nat (length (sc_empty c))) Hok1) as (s2 & E2 & Hok2 & Hu2 & Hlow & He2 & Hr2); [lia|].
    assert (drop (S idx) (caches s1) = drop (S idx) (caches s)) as Ed.
    { apply list_eq. intros i. rewrite !lookup_drop. apply Ho1. lia. }
    rewrite Ed in *. rewrite (drop_S _ _ _ Hc). unfold empty_pages in *. cbn [fmap list_fmap concat].
    exists s2. split_and!; [|done|..].
    + rewrite E2, length_app, length_fmap. do 2 f_equal. lia.
    + intros i a. by rewrite Hu2.
    + intros i Hi. rewrite Hlow by lia. apply Ho1. lia.
    + intros i x Hi Hx. destruct (decide (i = idx)) as [->|].
      * rewrite Hlow in Hx by lia. rewrite Hc1 in Hx. injection Hx as <-. by exists c.
      * rewrite <- (Ho1 i) by done. apply He2; [lia|done].
    + intros q. rewrite Hr2, Hr1, tally_app. lia.
Qed.

Lemma empty_pages_nodup s : slab_ok s → NoDup (empty_pages (caches s)).
Proof.
  intros Hok. pose proof (so_nodup s Hok) as H. clear Hok. revert H. unfold addrs, empty_pages.
  induction (caches s) as [|c cs IH]; cbn; [done|]. rewrite !NoDup_app. intros (H1 & H2 & H3).
  assert (∀ a cs, a ∈ concat ((λ c, sp_addr <$> sc_empty c) <$> cs) → a ∈ concat ((λ c, sp_addr <$> cpages c) <$> cs)) as Hin.
  { intros a l. induction l as [|x l IHl]; cbn; [done|]. rewrite !elem_of_app. intros [Ha|Ha]; [left|right; by apply IHl].
    unfold cpages. rewrite !fmap_app, !elem_of_app. by right; right. }
  unfold cpages in H1. rewrite !fmap_app, !NoDup_app in H1. split; [apply H1|]. split; [|by apply IH].
  intros a Ha Hb%Hin. apply (H2 a); [|done]. unfold cpages. rewrite !fmap_app, !elem_of_app. by right; right.
Qed.

Lemma tally_once (l : list Z) q : NoDup l → tally (λ p, p =? q) l = if decide (q ∈ l) then 1 else 0.
Proof.
  induction 1 as [|x l Hx Hl IH]; [done|]. cbn [tally]. rewrite IH. destruct (Z.eqb_spec x q) as [->|Hne].
  - rewrite decide_False, decide_True by (done || left). done.
  - rewrite (decide_ext (q ∈ x :: l) (q ∈ l)); [lia|]. rewrite elem_of_cons. naive_solver.
Qed.

(** Two objects in use never overlap. *)
Lemma in_use_disjoint s i j sz sz' a b :
  slab_ok s → slab_sizes !! i = Some sz → slab_sizes !! j = Some sz' → in_use s i a → in_use s j b →
  (i = j ∧ a = b) ∨ a + sz ≤ b ∨ b + sz' ≤ a.
Proof.
  intros Hok Hi Hj (x & c & Hx & Hc & sp & Hin & Hs & Hn) (x' & c' & Hx' & Hc' & sp' & Hin' & Hs' & Hn'). simplify_eq.
  pose proof (class_bounds i sz Hi) as Hb. pose proof (class_bounds j sz' Hj) as Hb'.
  pose proof (cc_pages sz c (so_cache s Hok i sz c Hi Hc)) as Hpg. rewrite Forall_forall in Hpg.
  pose proof (cc_pages sz' c' (so_cache s Hok j sz' c' Hj Hc')) as Hpg'. rewrite Forall_forall in Hpg'.
  pose proof (sk_addr _ _ (Hpg sp Hin)) as [Ha _]. pose proof (sk_addr _ _ (Hpg' sp' Hin')) as [Ha' _].
  destruct (decide (sp_addr sp = sp_addr sp')) as [E|E].
  - destruct (page_unique s i j c c' sp sp' Hok Hc Hc' Hin Hin' E) as [<- <-]. simplify_eq.
    destruct (decide (a = b)) as [->|]; [by left|right]. apply (slot_disjoint sz (sp_addr sp)); [lia|done..].
  - right. destruct (slot_bounds _ _ _ Hb Hs), (slot_bounds _ _ _ Hb' Hs'). assert (header_size = 48) by done.
    unfold PGSIZE in *. Z.to_euclidean_division_equations. lia.
Qed.

Lemma slab_alloc_spec s size idx sz :
  slab_ok s → find_cache_index size = Some idx → slab_sizes !! idx = Some sz →
  ∃ r s', run (slab_alloc size) s r s' ∧ slab_ok s' ∧
    match r with
    | Some a => ¬ in_use s idx a ∧ (∃ p, p mod PGSIZE = 0 ∧ slot sz p a) ∧
                ∀ i b, in_use s' i b ↔ in_use s i b ∨ (i = idx ∧ b = a)
    | None => ∀ i b, in_use s' i b ↔ in_use s i b
    end.
Proof.
  intros Hok Hf Hsz. destruct (lookup_lt_is_Some_2 (caches s) idx) as [c Hc].
  { rewrite (so_len s Hok). by eapply lookup_lt_Some. }
  unfold slab_alloc. rewrite Hf.
  destruct (ensure_partial_spec s idx sz c Hok Hsz Hc) as (b & s1 & E1 & Hok1 & Hu1 & Hb). step_with E1.
  destruct b; [|exists None, s1; split_and!; done].
  destruct (Hb eq_refl) as (c1 & sp & rest & Hc1 & Ep).
  destruct (take_obj_spec s1 idx sz c1 sp rest Hok1 Hsz Hc1 Ep) as (a & s2 & E2 & Hok2 & Hn & Hs & Hu2).
  exists (Some a), s2. split; [done|]. split; [done|]. split_and!.
  - by rewrite <- Hu1.
  - exists (sp_addr sp). split; [|done].
    pose proof (cc_pages sz c1 (so_cache s1 Hok1 idx sz c1 Hsz Hc1)) as Hpg. rewrite Forall_forall in Hpg.
    apply (sk_addr sz sp), Hpg. unfold cpages. rewrite Ep. by left.
  - intros i b. by rewrite Hu2, Hu1.
Qed.

Lemma slab_init_ok k : pwf k → slab_ok (slab_init k) ∧ ∀ i a, ¬ in_use (slab_init k) i a.
Proof.
  intros Hk.
  assert (∀ i c, caches (slab_init k) !! i = Some c → cpages c = [] ∧ slab_sizes !! i = Some (sc_obj_size c)) as Hc.
  { intros i c H. unfold slab_init in H. cbn [caches] in H. rewrite list_lookup_fmap in H.
    destruct (slab_sizes !! i) as [sz|]; simpl in H; [|done]. by simplify_eq. }
  split.
  - split; [done|done| |by apply NoDup_nil|by intros p []%not_elem_of_nil].
    intros i sz c Hsz H. destruct (Hc i c H) as [Hp Hs]. unfold cpages in Hp. simplify_eq.
    apply app_eq_nil in Hp as [E1 Hp]. apply app_eq_nil in Hp as [E2 E3].
    split; [done|unfold cpages|..]; rewrite ?E1, ?E2, ?E3; constructor.
  - intros i a (sz & c & _ & H & sp & Hin & _). destruct (Hc i c H) as [Hp _]. rewrite Hp in Hin. by apply not_elem_of_nil in Hin.
Qed.
End proofs.

(** ** Properties of slab.c over any page allocator *)

Section properties.
Context {K : Type} `{!PageAlloc K} `{!PageAllocSpec K}.
Implicit Types (s : slab K).

Lemma find_cache_index_spec size idx sz :
  find_cache_index size = Some idx → slab_sizes !! idx = Some sz → size ≤ sz.
Proof. intros (x & Hx & Hle)%findi_lookup Hsz. simplify_eq. lia. Qed.

Lemma find_cache_index_is_Some size : size ≤ 512 → ∃ idx sz, find_cache_index size = Some idx ∧ slab_sizes !! idx = Some sz.
Proof.
  intros H. destruct (findi_is_Some (λ sz, size <=? sz) slab_sizes 4 512) as [i Hi]; [done|simpl; lia|].
  destruct (findi_lookup _ _ _ Hi) as (sz & Hsz & _). by exists i, sz.
Qed.

(** [slab_alloc] of at most 512 bytes never panics: it returns an object
    that was not in use, of at least the size asked for, that overlaps no
    object in use, and exactly this object becomes in use; or it returns
    nothing because no page could be allocated, and changes no object. *)
Theorem slab_alloc_fresh s size :
  slab_ok s → size ≤ 512 →
  ∃ r s' idx sz, run (slab_alloc size) s r s' ∧ slab_ok s' ∧ slab_sizes !! idx = Some sz ∧ size ≤ sz ∧
    match r with
    | Some a =>
        ¬ in_use s idx a ∧ (∀ i b, in_use s' i b ↔ in_use s i b ∨ (i = idx ∧ b = a)) ∧
        ∀ j szj b, slab_sizes !! j = Some szj → in_use s j b → a + sz ≤ b ∨ b + szj ≤ a
    | None => ∀ i b, in_use s' i b ↔ in_use s i b
    end.
Proof.
  intros Hok Hle. destruct (find_cache_index_is_Some size Hle) as (idx & sz & Hf & Hsz).
  destruct (slab_alloc_spec s size idx sz Hok Hf Hsz) as (r & s' & E & Hok' & Hr).
  exists r, s', idx, sz. split_and!; [done..|by eapply find_cache_index_spec|].
  destruct r as [a|]; [|done]. destruct Hr as (Hn & _ & Hu). split_and!; [done..|].
  intros j szj b Hj Hb.
  destruct (in_use_disjoint s' idx j sz szj a b Hok' Hsz Hj) as [[-> ->]|H]; [by apply Hu; right|by apply Hu; left|by destruct Hn|done].
Qed.

(** Allocation and release are inverse: an object obtained from
    [slab_alloc] can be given back with the size it was asked for, and then
    exactly the objects in use before the allocation are in use, whatever
    page lists the two calls went through. *)
Theorem slab_roundtrip s size a s1 :
  slab_ok s → size ≤ 512 → run (slab_alloc size) s (Some a) s1 →
  ∃ s2, run (slab_free a size) s1 () s2 ∧ slab_ok s2 ∧ ∀ j b, in_use s2 j b ↔ in_use s j b.
Proof.
  intros Hok Hle E. destruct (find_cache_index_is_Some size Hle) as (idx & sz & Hf & Hsz).
  destruct (slab_alloc_spec s size idx sz Hok Hf Hsz) as (r & s' & E' & Hok' & Hr).
  rewrite E in E'. injection E' as <- <-. destruct Hr as (Hn & _ & Hu).
  destruct (slab_free_spec s1 idx sz a size Hok' Hf Hsz) as (s2 & E2 & Hok2 & Hu2); [by apply Hu; right|].
  exists s2. split_and!; [done..|]. intros j b. rewrite Hu2, Hu.
  split; [naive_solver|]. intros Hb. split; [by left|]. intros [-> ->]. done.
Qed.

(** C40. [slab_shrink] terminates and gives every page of every empty list back
    to the page allocator, once: that page loses one reference and no other page
    does, the number returned is the number of these pages, the page counts of
    the caches drop by as many, and the other lists of the caches and every
    object in use stay as they are. *)
Theorem slab_shrink_safe s :
  slab_ok s →
  ∃ s', run slab_shrink s (Z.of_nat (length (empty_pages (caches s)))) s' ∧ slab_ok s' ∧
    (∀ i a, in_use s' i a ↔ in_use s i a) ∧
    (∀ q, refs (pages s') q = refs (pages s) q - if decide (q ∈ empty_pages (caches s)) then 1 else 0) ∧
    (∀ i c', caches s' !! i = Some c' → ∃ c, caches s !! i = Some c ∧ sc_empty c' = [] ∧ sc_partial c' = sc_partial c ∧
       sc_full c' = sc_full c ∧ i32 (sc_total_pages c') = i32 (sc_total_pages c - Z.of_nat (length (sc_empty c)))).
Proof.
  intros Hok. destruct (shrink_from_spec (length slab_sizes) s 0 0 Hok) as (s' & E & Hok' & Hu & _ & He & Hr); [done|].
  rewrite drop_0 in *. exists s'. split_and!; try done.
  - intros q. by rewrite Hr, (tally_once _ q (empty_pages_nodup s Hok)).
  - intros i c'. apply He. lia.
Qed.
End properties.

(** ** The slab allocator over kalloc.c *)

Definition sl_init : slab kstate := slab_init ks_init.
Definition sl_alloc : ST (slab kstate) (option Z) := slab_alloc (PageAlloc0 := kalloc_pages kend_ex) 100.
Definition sl_one : slab kstate := after sl_alloc sl_init.
Definition obj_ex : Z := pg_ex + 48.

Lemma sl_init_ok : slab_ok (PageAllocSpec0 := kalloc_spec kend_ex) sl_init.
Proof.
  apply slab_init_ok. destruct (kinit_ok kend_ex kend_ex_ok (λ _, []) 0) as (s0 & E0 & Hok & _); [apply Nat.ltb_lt; reflexivity|].
  rewrite ks_init_run in E0. by injection E0 as <-.
Qed.

Lemma slab_alloc_fresh_witness :
  ∃ r s', run sl_alloc sl_init r s' ∧ slab_ok (PageAllocSpec0 := kalloc_spec kend_ex) s'.
Proof.
  destruct (slab_alloc_fresh (PageAllocSpec0 := kalloc_spec kend_ex) sl_init 100 sl_init_ok) as (r & s' & _ & _ & E & Hok & _); [lia|].
  exists r, s'. split; [exact E|exact Hok].
Defined.

Lemma sl_one_run : run sl_alloc sl_init (Some obj_ex) sl_one.
Proof. refine (run_after sl_alloc sl_init (Some obj_ex) _). vm_compute. reflexivity. Qed.

Lemma sl_one_spec : slab_ok (PageAllocSpec0 := kalloc_spec kend_ex) sl_one ∧ in_use sl_one 2 obj_ex.
Proof.
  destruct (slab_alloc_spec (PageAllocSpec0 := kalloc_spec kend_ex) sl_init 100 2 128 sl_init_ok eq_refl eq_refl) as (r & s' & E & Hok & Hr).
  change (sl_alloc sl_init = Ret (r, s')) in E. rewrite sl_one_run in E. injection E as <- <-.
  split; [exact Hok|]. apply Hr. by right.
Qed.

Lemma slab_roundtrip_witness :
  ∃ s2, run (slab_free (PageAlloc0 := kalloc_pages kend_ex) obj_ex 100) sl_one () s2 ∧ ¬ in_use s2 2 obj_ex.
Proof.
  destruct (slab_roundtrip (PageAllocSpec0 := kalloc_spec kend_ex) sl_init 100 obj_ex sl_one sl_init_ok) as (s2 & E & _ & Hu).
  - lia.
  - exact sl_one_run.
  - exists s2. split; [exact E|]. rewrite Hu. apply (slab_init_ok (PageAllocSpec0 := kalloc_spec kend_ex)).
    destruct (kinit_ok kend_ex kend_ex_ok (λ _, []) 0) as (s0 & E0 & Hok & _); [apply Nat.ltb_lt; reflexivity|].
    rewrite ks_init_run in E0. by injection E0 as <-.
Defined.

(** With the page back on the empty list. *)
Definition sl_back : slab kstate := after (slab_free (PageAlloc0 := kalloc_pages kend_ex) obj_ex 100) sl_one.

Lemma slab_shrink_safe_witness :
  ∃ s', run (slab_shrink (PageAlloc0 := kalloc_pages kend_ex)) sl_back 1 s' ∧
    refs (PageAllocSpec := kalloc_spec kend_ex) (pages s') pg_ex = refs (PageAllocSpec := kalloc_spec kend_ex) (pages sl_back) pg_ex - 1.
Proof.
  assert (slab_ok (PageAllocSpec0 := kalloc_spec kend_ex) sl_back) as Hok.
  { destruct (slab_free_spec (PageAllocSpec0 := kalloc_spec kend_ex) sl_one 2 128 obj_ex 100 (proj1 sl_one_spec) eq_refl eq_refl (proj2 sl_one_spec))
      as (s2 & E & Hok & _). unfold sl_back, after. rewrite E. exact Hok. }
  destruct (slab_shrink_safe (PageAllocSpec0 := kalloc_spec kend_ex) sl_back Hok) as (s' & E & _ & _ & Hr & _).
  assert (empty_pages (caches sl_back) = [pg_ex]) as Ee by (vm_compute; reflexivity). rewrite Ee in E, Hr.
  exists s'. split; [exact E|]. rewrite Hr. rewrite decide_True by left. reflexivity.
Defined.
