(* ===== verification/Memory.v ===== *)
(** * Physical memory by address

    The kernel maps physical memory one to one, and some components follow
    pointers into it.  A byte address is a page of [Kalloc] and an offset; a
    field is little-endian and may cross a page boundary. *)

From S2P Require Import Prelude Bytes PageAlloc Kalloc.

(** ** Memory by address *)

Definition mget (a : Z) (k : kstate) : Z := byte_at (k_page k (PGROUNDDOWN a)) (Z.to_nat (a mod PGSIZE)).
Definition mset (a b : Z) (k : kstate) : kstate :=
  k <| k_page ::= fupd (PGROUNDDOWN a) (<[Z.to_nat (a mod PGSIZE) := b]> (k_page k (PGROUNDDOWN a))) |>.

Fixpoint mem_ld (n : nat) (a : Z) (k : kstate) : Z :=
  match n with
  | O => 0
  | S n' => mget a k + 256 * mem_ld n' (a + 1) k
  end.
Fixpoint mem_st (n : nat) (a v : Z) (k : kstate) : kstate :=
  match n with
  | O => k
  | S n' => mem_st n' (a + 1) (v / 256) (mset a (v mod 256) k)
  end.

Fixpoint mem_read (n : nat) (a : Z) (k : kstate) : list Z :=
  match n with
  | O => []
  | S n' => mget a k :: mem_read n' (a + 1) k
  end.
Fixpoint mem_write (a : Z) (bs : list Z) (k : kstate) : kstate :=
  match bs with
  | [] => k
  | b :: bs' => mem_write (a + 1) bs' (mset a b k)
  end.

(** [memmove] within memory, its count a [uint]. *)
Definition mem_move (dst src n : Z) (k : kstate) : kstate :=
  mem_write dst (mem_read (Z.to_nat (u32 n)) src k) k.

(** ** Bytes of memory *)

Section memory.
Implicit Types (k : kstate) (a b v : Z).

(** The page of [a] is a whole page. *)
Definition whole k a : Prop := length (k_page k (PGROUNDDOWN a)) = Z.to_nat PGSIZE.

Lemma whole_mset k a a' b : whole k a → whole (mset a' b k) a.
Proof.
  unfold whole, mset. cbn [k_page update field_set]. unfold fupd. case_decide as E; [|done].
  rewrite E. by rewrite length_insert.
Qed.

Lemma addr_eq a a' : PGROUNDDOWN a = PGROUNDDOWN a' → a mod PGSIZE = a' mod PGSIZE → a = a'.
Proof. rewrite !PGROUNDDOWN_eq. unfold PGSIZE. intros. Z.to_euclidean_division_equations. lia. Qed.

Lemma mget_mset k a b a' : whole k a → mget a' (mset a b k) = if decide (a' = a) then b else mget a' k.
Proof.
  intros Hw. unfold whole in Hw. unfold mget, mset. cbn [k_page update field_set]. unfold fupd.
  pose proof (Z.mod_pos_bound a PGSIZE ltac:(done)). pose proof (Z.mod_pos_bound a' PGSIZE ltac:(done)).
  case_decide as E; [|by rewrite decide_False by congruence]. unfold byte_at.
  destruct (decide (a' = a)) as [->|Hne].
  - by rewrite list_lookup_insert_eq by (rewrite Hw; lia).
  - rewrite E, list_lookup_insert_ne; [done|]. intros Ho. apply Hne, addr_eq; [done|lia].
Qed.

Lemma whole_mem_st k n a a' v : whole k a' → whole (mem_st n a v k) a'.
Proof. revert k a v. induction n as [|n IH]; intros; simpl; [done|]. by apply IH, whole_mset. Qed.

Lemma whole_mem_write k bs a a' : whole k a' → whole (mem_write a bs k) a'.
Proof. revert k a. induction bs as [|b bs IH]; intros; simpl; [done|]. by apply IH, whole_mset. Qed.

Lemma mget_mem_st k n a v a' :
  (∀ i, a ≤ i < a + Z.of_nat n → whole k i) → ¬ a ≤ a' < a + Z.of_nat n → mget a' (mem_st n a v k) = mget a' k.
Proof.
  revert k a v. induction n as [|n IH]; intros k a v Hw Ha; simpl; [done|].
  rewrite IH; [|intros i Hi; apply whole_mset, Hw; lia|lia].
  rewrite mget_mset by (apply Hw; lia). by rewrite decide_False by lia.
Qed.

Lemma mem_ld_ext n a k k' : (∀ i, a ≤ i < a + Z.of_nat n → mget i k = mget i k') → mem_ld n a k = mem_ld n a k'.
Proof.
  revert a. induction n as [|n IH]; intros a H; simpl; [done|]. rewrite (H a), IH by (intros; try apply H; lia). done.
Qed.

Lemma mem_ld_st k n a v :
  (∀ i, a ≤ i < a + Z.of_nat n → whole k i) → mem_ld n a (mem_st n a v k) = v mod 256 ^ Z.of_nat n.
Proof.
  revert k a v. induction n as [|n IH]; intros k a v Hw; simpl mem_ld; simpl mem_st; [by rewrite Z.mod_1_r|].
  rewrite IH by (intros i Hi; apply whole_mset, Hw; lia).
  rewrite mget_mem_st by (intros; try apply whole_mset, Hw; lia).
  rewrite mget_mset by (apply Hw; lia). rewrite decide_True by done.
  rewrite Nat2Z.inj_succ, Z.pow_succ_r by lia. rewrite Z.rem_mul_r by lia. lia.
Qed.

Lemma mem_ld_st_ne k n a v m a' :
  (∀ i, a ≤ i < a + Z.of_nat n → whole k i) → a' + Z.of_nat m ≤ a ∨ a + Z.of_nat n ≤ a' →
  mem_ld m a' (mem_st n a v k) = mem_ld m a' k.
Proof. intros Hw Hd. apply mem_ld_ext. intros i Hi. apply mget_mem_st; [done|lia]. Qed.

Lemma mget_mem_write k bs a a' :
  (∀ i, a ≤ i < a + Z.of_nat (length bs) → whole k i) →
  mget a' (mem_write a bs k) =
    if decide (a ≤ a' < a + Z.of_nat (length bs)) then byte_at bs (Z.to_nat (a' - a)) else mget a' k.
Proof.
  revert k a. induction bs as [|b bs IH]; intros k a Hw; simpl mem_write; simpl length in *.
  { by rewrite decide_False by lia. }
  rewrite IH by (intros i Hi; apply whole_mset, Hw; lia). rewrite mget_mset by (apply Hw; lia).
  repeat case_decide; try lia; subst; try done.
  - unfold byte_at. replace (Z.to_nat (a' - a)) with (S (Z.to_nat (a' - (a + 1)))) by lia. done.
  - by rewrite Z.sub_diag.
Qed.

(** A field read where bytes were written. *)
Lemma mem_ld_write k bs a n o :
  (∀ i, a ≤ i < a + Z.of_nat (length bs) → whole k i) → (o + n ≤ length bs)%nat →
  mem_ld n (a + Z.of_nat o) (mem_write a bs k) = ld n o bs.
Proof.
  revert o. induction n as [|n IH]; intros o Hw Hlen; [done|]. cbn [mem_ld].
  Transparent ld. cbn [ld]. rewrite mget_mem_write, decide_True by (done || lia).
  replace (Z.to_nat (a + Z.of_nat o - a)) with o by lia. f_equal. f_equal.
  rewrite <- IH by (done || lia). f_equal. lia. Opaque ld.
Qed.

Lemma mem_ld_write_ne k bs a n a' :
  (∀ i, a ≤ i < a + Z.of_nat (length bs) → whole k i) →
  a' + Z.of_nat n ≤ a ∨ a + Z.of_nat (length bs) ≤ a' → mem_ld n a' (mem_write a bs k) = mem_ld n a' k.
Proof.
  intros Hw Hd. apply mem_ld_ext. intros i Hi. rewrite mget_mem_write by done. by rewrite decide_False by lia.
Qed.

Lemma whole_page k pg : pg mod PGSIZE = 0 → length (k_page k pg) = Z.to_nat PGSIZE → ∀ i, pg ≤ i < pg + PGSIZE → whole k i.
Proof.
  intros Hal Hlen i Hi. unfold whole. replace i with (pg + (i - pg)) by lia. by rewrite PGROUNDDOWN_in by (done || lia).
Qed.
End memory.
