(* ===== verification/Vm.v ===== *)
(** * vm.c: page tables and user memory

    Sv39 page tables as they are in memory: three levels of pages of 512
    eight-byte entries, read and written in the page contents that kalloc.c
    hands out.  A page table is the address of its root page; a PTE pointer is
    a table page and an index.  The copy-on-write functions of kalloc.c are
    here because they work on these tables.  Virtual addresses and sizes are
    64-bit words. *)

From stdpp Require Import gmap.
From S2P Require Import Prelude Bytes PageAlloc Kalloc.

(** ** riscv.h *)

Definition PTE_V : Z := Z.shiftl 1 0.
Definition PTE_R : Z := Z.shiftl 1 1.
Definition PTE_W : Z := Z.shiftl 1 2.
Definition PTE_X : Z := Z.shiftl 1 3.
Definition PTE_U : Z := Z.shiftl 1 4.
Definition PTE_F : Z := Z.shiftl 1 8.
Definition PA2PTE (pa : Z) : Z := Z.shiftl (Z.shiftr pa 12) 10.
Definition PTE2PA (pte : Z) : Z := Z.shiftl (Z.shiftr pte 10) 12.
Definition PTE_FLAGS (pte : Z) : Z := Z.land pte 0x3FF.
Definition MAXVA : Z := Z.shiftl 1 (9 + 9 + 9 + 12 - 1).
Definition PXSHIFT (level : nat) : Z := 12 + 9 * Z.of_nat level.
Definition PX (level : nat) (va : Z) : nat := Z.to_nat (Z.land (Z.shiftr va (PXSHIFT level)) 0x1FF).

(** ** Entries of a table page *)

Abbreviation pte_ref := (Z * nat)%type.

Definition pte_ld (e : pte_ref) (s : kstate) : Z := ld 8 (8 * e.2) (k_page s e.1).
Definition pte_st (e : pte_ref) (v : Z) : ST kstate () :=
  modify (λ s, s <| k_page ::= fupd e.1 (st 8 (8 * e.2) v (k_page s e.1)) |>).

Definition has (pte flag : Z) : bool := negb (Z.land pte flag =? 0).

Section code.
Context (kend : Z).

(** The loop of [walk] from [level] down. *)
Fixpoint walk_from (level : nat) (pagetable va : Z) (alloc : bool) : ST kstate (option pte_ref) :=
  match level with
  | O => mret (Some (pagetable, PX 0 va))
  | S l =>
      let e := (pagetable, PX level va) in
      s ← get;
      if has (pte_ld e s) PTE_V then walk_from l (PTE2PA (pte_ld e s)) va alloc
      else if negb alloc then mret None
      else
        r ← kalloc;
        match r with
        | None => mret None
        | Some p =>
            _ ← fill p 0;
            _ ← pte_st e (Z.lor (PA2PTE p) PTE_V);
            walk_from l p va alloc
        end
  end.

Definition walk (pagetable va : Z) (alloc : bool) : ST kstate (option pte_ref) :=
  if MAXVA <=? va then panic "walk" else walk_from 2 pagetable va alloc.

Definition walkaddr (pagetable va : Z) : ST kstate Z :=
  if MAXVA <=? va then mret 0
  else
    r ← walk pagetable va false;
    match r with
    | None => mret 0
    | Some e =>
        s ← get;
        if negb (has (pte_ld e s) PTE_V) then mret 0
        else if negb (has (pte_ld e s) PTE_U) then mret 0
        else mret (PTE2PA (pte_ld e s))
    end.

(** The endless loop of [mappages], which ends at [last], or in a panic of
    [walk] at [MAXVA] when it starts above [last]. *)
Fixpoint mappages_loop (n : nat) (pagetable a last pa perm : Z) : ST kstate Z :=
  match n with
  | O => panic "walk"
  | S n' =>
      r ← walk pagetable a true;
      match r with
      | None => mret (-1)
      | Some e =>
          s ← get;
          if has (pte_ld e s) PTE_V then panic "remap"
          else
            _ ← pte_st e (Z.lor (Z.lor (PA2PTE pa) perm) PTE_V);
            if a =? last then mret 0
            else mappages_loop n' pagetable (u64 (a + PGSIZE)) last (u64 (pa + PGSIZE)) perm
      end
  end.

Definition mappages (pagetable va size pa perm : Z) : ST kstate Z :=
  let a := PGROUNDDOWN va in
  let last := PGROUNDDOWN (u64 (va + size - 1)) in
  let n := if a <=? last then (last - a) / PGSIZE + 1 else MAXVA / PGSIZE + 1 in
  mappages_loop (Z.to_nat n) pagetable a last pa perm.

(** The body of the loop of [uvmunmap], after [walk]. *)
Definition unmap_entry (do_free : bool) (r : option pte_ref) : ST kstate () :=
  match r with
  | None => mret ()
  | Some e =>
      s ← get;
      let pte := pte_ld e s in
      if negb (has pte PTE_V) then mret ()
      else if PTE_FLAGS pte =? PTE_V then panic "uvmunmap: not a leaf"
      else
        _ ← (if do_free then kfree kend (PTE2PA pte) else mret ());
        pte_st e 0
  end.

Fixpoint uvmunmap_loop (n : nat) (pagetable a : Z) (do_free : bool) : ST kstate () :=
  match n with
  | O => mret ()
  | S n' =>
      r ← walk pagetable a false;
      _ ← unmap_entry do_free r;
      uvmunmap_loop n' pagetable (a + PGSIZE) do_free
  end.

Definition uvmunmap (pagetable va npages : Z) (do_free : bool) : ST kstate () :=
  if negb (va mod PGSIZE =? 0) then panic "uvmunmap: not aligned"
  else
    let end_ := u64 (va + npages * PGSIZE) in
    uvmunmap_loop (Z.to_nat ((end_ - va) / PGSIZE)) pagetable va do_free.

Definition uvmcreate : ST kstate (option Z) :=
  r ← kalloc;
  match r with
  | None => mret None
  | Some p => _ ← fill p 0; mret (Some p)
  end.

Definition uvminit (pagetable : Z) (src : list Z) (sz : Z) : ST kstate () :=
  if PGSIZE <=? sz then panic "inituvm: more than a page"
  else
    r ← kalloc;
    match r with
    | None => panic "kerneltrap"        (* memset at the unmapped address 0 *)
    | Some mem =>
        _ ← fill mem 0;
        _ ← mappages pagetable 0 PGSIZE mem (Z.lor (Z.lor (Z.lor PTE_W PTE_R) PTE_X) PTE_U);
        modify (λ s, s <| k_page ::= fupd mem (take (Z.to_nat sz) src ++ drop (Z.to_nat sz) (k_page s mem)) |>)
    end.

Definition uvmdealloc (pagetable oldsz newsz : Z) : ST kstate Z :=
  if oldsz <=? newsz then mret oldsz
  else
    _ ← (if PGROUNDUP newsz <? PGROUNDUP oldsz then
           let npages := u64 (i32 ((PGROUNDUP oldsz - PGROUNDUP newsz) / PGSIZE)) in
           uvmunmap pagetable (PGROUNDUP newsz) npages true
         else mret ());
    mret newsz.

Fixpoint uvmalloc_loop (n : nat) (pagetable a oldsz newsz : Z) : ST kstate Z :=
  match n with
  | O => mret newsz
  | S n' =>
      if a <? newsz then
        r ← kalloc;
        match r with
        | None => _ ← uvmdealloc pagetable a oldsz; mret 0
        | Some mem =>
            _ ← fill mem 0;
            m ← mappages pagetable a PGSIZE mem (Z.lor (Z.lor (Z.lor PTE_W PTE_X) PTE_R) PTE_U);
            if negb (m =? 0) then
              _ ← kfree kend mem;
              _ ← uvmdealloc pagetable a oldsz;
              mret 0
            else uvmalloc_loop n' pagetable (a + PGSIZE) oldsz newsz
        end
      else mret newsz
  end.

Definition uvmalloc (pagetable oldsz newsz : Z) : ST kstate Z :=
  if newsz <? oldsz then mret oldsz
  else
    let oldsz := PGROUNDUP oldsz in
    uvmalloc_loop (Z.to_nat ((newsz - oldsz) / PGSIZE + 1)) pagetable oldsz oldsz newsz.

(** [freewalk]: the recursion is as deep as the tree, three pages in a
    well-formed table; deeper entries exhaust [depth]. *)
Fixpoint freewalk (depth : nat) (pagetable : Z) : ST kstate () :=
  match depth with
  | O => panic "freewalk: depth"
  | S d =>
      _ ← for_loop 0 512 (λ i,
            s ← get;
            let pte := pte_ld (pagetable, i) s in
            if has pte PTE_V && (Z.land pte (Z.lor (Z.lor PTE_R PTE_W) PTE_X) =? 0) then
              _ ← freewalk d (PTE2PA pte);
              pte_st (pagetable, i) 0
            else mret ());
      kfree kend pagetable
  end.

Definition uvmfree (pagetable sz : Z) : ST kstate () :=
  _ ← (if 0 <? sz then uvmunmap pagetable 0 (PGROUNDUP sz / PGSIZE) true else mret ());
  freewalk 3 pagetable.

Fixpoint uvmcopy_loop (n : nat) (old new i sz : Z) : ST kstate Z :=
  match n with
  | O => mret 0
  | S n' =>
      if i <? sz then
        r ← walk old i false;
        match r with
        | None => uvmcopy_loop n' old new (i + PGSIZE) sz
        | Some e =>
            s ← get;
            let pte := pte_ld e s in
            if negb (has pte PTE_V) then uvmcopy_loop n' old new (i + PGSIZE) sz
            else
              let pa := PTE2PA pte in
              let cow := has (PTE_FLAGS pte) PTE_W in
              let flags := if cow then Z.land (Z.lor (PTE_FLAGS pte) PTE_F) (Z.lnot PTE_W) else PTE_FLAGS pte in
              _ ← (if cow then pte_st e (Z.lor (PA2PTE pa) flags) else mret ());
              m ← mappages new i PGSIZE pa flags;
              if negb (m =? 0) then
                _ ← uvmunmap new 0 (i / PGSIZE) true;
                mret (-1)
              else
                _ ← kaddrefcnt kend pa;
                uvmcopy_loop n' old new (i + PGSIZE) sz
        end
      else mret 0
  end.

Definition uvmcopy (old new sz : Z) : ST kstate Z :=
  uvmcopy_loop (Z.to_nat (sz / PGSIZE + 1)) old new 0 sz.

Definition uvmclear (pagetable va : Z) : ST kstate () :=
  r ← walk pagetable va false;
  match r with
  | None => panic "uvmclear"
  | Some e => s ← get; pte_st e (Z.land (pte_ld e s) (Z.lnot PTE_U))
  end.

(** ** Copy on write (kalloc.c) *)

Definition cowpage (pagetable va : Z) : ST kstate Z :=
  if MAXVA <=? va then mret (-1)
  else
    r ← walk pagetable va false;
    match r with
    | None => mret (-1)
    | Some e =>
        s ← get;
        if negb (has (pte_ld e s) PTE_V) then mret (-1)
        else mret (if has (pte_ld e s) PTE_F then 0 else -1)
    end.

(** The physical address, or 0 when it fails. *)
Definition cowalloc (pagetable va : Z) : ST kstate Z :=
  if negb (va mod PGSIZE =? 0) then mret 0
  else
    pa ← walkaddr pagetable va;
    if pa =? 0 then mret 0
    else
      r ← walk pagetable va false;
      match r with
      | None => mret 0                  (* excluded by the test on pa *)
      | Some e =>
          s ← get;
          if krefcnt pa s =? 1 then
            _ ← pte_st e (Z.lor (pte_ld e s) PTE_W);
            s ← get;
            _ ← pte_st e (Z.land (pte_ld e s) (Z.lnot PTE_F));
            mret pa
          else
            mem ← kalloc;
            match mem with
            | None => mret 0
            | Some mem =>
                _ ← modify (λ s, s <| k_page ::= fupd mem (k_page s pa) |>);
                s ← get;
                _ ← pte_st e (Z.land (pte_ld e s) (Z.lnot PTE_V));
                s ← get;
                m ← mappages pagetable va PGSIZE mem
                      (Z.land (Z.lor (PTE_FLAGS (pte_ld e s)) PTE_W) (Z.lnot PTE_F));
                if negb (m =? 0) then
                  _ ← kfree kend mem;
                  s ← get;
                  _ ← pte_st e (Z.lor (pte_ld e s) PTE_V);
                  mret 0
                else
                  _ ← kfree kend (PGROUNDDOWN pa);
                  mret mem
            end
      end.

(** ** Copies between kernel and user memory *)

(** [len] bytes of the page [pa] from offset [o], and a store of [bs] there. *)
Definition page_get (pa : Z) (o len : nat) (s : kstate) : list Z := take len (drop o (k_page s pa)).
Definition page_put (pa : Z) (o : nat) (bs : list Z) : ST kstate () :=
  modify (λ s, s <| k_page ::= fupd pa (take o (k_page s pa) ++ bs ++ drop (o + length bs) (k_page s pa)) |>).

(** The fuel is a bound on the pages touched. *)
Fixpoint copyout_loop (fuel : nat) (pagetable dstva : Z) (src : list Z) : ST kstate Z :=
  match src, fuel with
  | [], _ => mret 0
  | _, O => mret (-1)
  | _, S fuel' =>
      let va0 := PGROUNDDOWN dstva in
      pa0 ← walkaddr pagetable va0;
      c ← cowpage pagetable va0;
      pa0 ← (if c =? 0 then cowalloc pagetable va0 else mret pa0);
      if pa0 =? 0 then mret (-1)
      else
        let n := Z.to_nat (Z.min (PGSIZE - (dstva - va0)) (Z.of_nat (length src))) in
        _ ← page_put pa0 (Z.to_nat (dstva - va0)) (take n src);
        copyout_loop fuel' pagetable (va0 + PGSIZE) (drop n src)
  end.
Definition copyout (pagetable dstva : Z) (src : list Z) : ST kstate Z :=
  copyout_loop (length src / Z.to_nat PGSIZE + 2) pagetable dstva src.

(** The bytes read, or [None] for the return value -1. *)
Fixpoint copyin_loop (fuel : nat) (pagetable srcva len : Z) (dst : list Z) : ST kstate (option (list Z)) :=
  if len =? 0 then mret (Some dst)
  else match fuel with
  | O => mret None
  | S fuel' =>
      let va0 := PGROUNDDOWN srcva in
      pa0 ← walkaddr pagetable va0;
      if pa0 =? 0 then mret None
      else
        let n := Z.min (PGSIZE - (srcva - va0)) len in
        s ← get;
        copyin_loop fuel' pagetable (va0 + PGSIZE) (len - n)
          (dst ++ page_get pa0 (Z.to_nat (srcva - va0)) (Z.to_nat n) s)
  end.
Definition copyin (pagetable srcva len : Z) : ST kstate (option (list Z)) :=
  copyin_loop (Z.to_nat (len / PGSIZE + 2)) pagetable srcva len [].

(** The bytes of a string up to its NUL, looked for in the [n] bytes [bs]. *)
Fixpoint upto_nul (bs : list Z) : list Z * bool :=
  match bs with
  | [] => ([], false)
  | b :: bs' => if b =? 0 then ([0], true) else let '(r, f) := upto_nul bs' in (b :: r, f)
  end.

Fixpoint copyinstr_loop (fuel : nat) (pagetable srcva max : Z) (dst : list Z) : ST kstate (option (list Z)) :=
  if max =? 0 then mret None
  else match fuel with
  | O => mret None
  | S fuel' =>
      let va0 := PGROUNDDOWN srcva in
      pa0 ← walkaddr pagetable va0;
      if pa0 =? 0 then mret None
      else
        let n := Z.min (PGSIZE - (srcva - va0)) max in
        s ← get;
        let '(bs, got_null) := upto_nul (page_get pa0 (Z.to_nat (srcva - va0)) (Z.to_nat n) s) in
        if (got_null : bool) then mret (Some (dst ++ bs))
        else copyinstr_loop fuel' pagetable (va0 + PGSIZE) (max - n) (dst ++ bs)
  end.
Definition copyinstr (pagetable srcva max : Z) : ST kstate (option (list Z)) :=
  copyinstr_loop (Z.to_nat (max / PGSIZE + 2)) pagetable srcva max [].

(** ** The kernel's own table *)

Definition kvmmap (kernel_pagetable va pa sz perm : Z) : ST kstate () :=
  r ← mappages kernel_pagetable va sz pa perm;
  if negb (r =? 0) then panic "kvmmap" else mret ().

Definition UART0 : Z := 0x10000000.
Definition VIRTIO0 : Z := 0x10001000.
Definition CLINT : Z := 0x2000000.
Definition PLIC : Z := 0x0c000000.
Definition TRAMPOLINE : Z := MAXVA - PGSIZE.

(** [etext] and [trampoline] are symbols of the linker script; the result is
    the value of [kernel_pagetable]. *)
Definition kvminit (etext trampoline : Z) : ST kstate Z :=
  let rw := Z.lor PTE_R PTE_W in
  let rx := Z.lor PTE_R PTE_X in
  r ← kalloc;
  match r with
  | None => panic "kerneltrap"          (* memset at the unmapped address 0 *)
  | Some kernel_pagetable =>
      let kvmmap := kvmmap kernel_pagetable in
      _ ← fill kernel_pagetable 0;
      _ ← kvmmap UART0 UART0 PGSIZE rw;
      _ ← kvmmap VIRTIO0 VIRTIO0 PGSIZE rw;
      _ ← kvmmap 0x30000000 0x30000000 0x10000000 rw;
      _ ← kvmmap 0x40000000 0x40000000 0x20000 rw;
      _ ← kvmmap CLINT CLINT 0x10000 rw;
      _ ← kvmmap PLIC PLIC 0x400000 rw;
      _ ← kvmmap KERNBASE KERNBASE (u64 (etext - KERNBASE)) rx;
      _ ← kvmmap etext etext (u64 (PHYSTOP - etext)) rw;
      _ ← kvmmap TRAMPOLINE trampoline PGSIZE rx;
      mret kernel_pagetable
  end.

Definition kvmpa (kernel_pagetable va : Z) : ST kstate Z :=
  r ← walk kernel_pagetable va false;
  match r with
  | None => panic "kvmpa"
  | Some e =>
      s ← get;
      if negb (has (pte_ld e s) PTE_V) then panic "kvmpa"
      else mret (PTE2PA (pte_ld e s) + va mod PGSIZE)
  end.
End code.

(** ** Virtual page numbers *)

Lemma PX_eq l va : PX l va = Z.to_nat (va / 2 ^ (12 + 9 * Z.of_nat l) mod 512).
Proof.
  unfold PX, PXSHIFT. change 0x1FF with (Z.ones 9). by rewrite Z.land_ones, Z.shiftr_div_pow2 by lia.
Qed.

Lemma PX_lt l va : (PX l va < 512)%nat.
Proof. rewrite PX_eq. pose proof (Z.mod_pos_bound (va / 2 ^ (12 + 9 * Z.of_nat l)) 512). lia. Qed.

(** The indices of a virtual address in the two upper levels. *)
Definition path (va : Z) : list nat := [PX 2 va; PX 1 va].

Lemma vpn_eq va :
  0 ≤ va < MAXVA → va / PGSIZE = Z.of_nat (PX 2 va) * 2 ^ 18 + Z.of_nat (PX 1 va) * 2 ^ 9 + Z.of_nat (PX 0 va).
Proof.
  intros Hva. change MAXVA with (2 ^ 38) in Hva. rewrite !PX_eq. simpl Z.of_nat. unfold PGSIZE.
  change (12 + 9 * 2) with 30. change (12 + 9 * 1) with 21. change (12 + 9 * 0) with 12.
  Z.to_euclidean_division_equations. lia.
Qed.

Lemma vpn_inj va va' :
  0 ≤ va < MAXVA → 0 ≤ va' < MAXVA → path va = path va' → PX 0 va = PX 0 va' → va / PGSIZE = va' / PGSIZE.
Proof. intros H H' [= E2 E1] E0. rewrite !vpn_eq, E2, E1, E0 by done. done. Qed.

Lemma vpn_path va va' : va / PGSIZE = va' / PGSIZE → path va = path va' ∧ PX 0 va = PX 0 va'.
Proof.
  intros E. assert (∀ l, PX l va = PX l va') as H; [|by unfold path; rewrite !H].
  intros l. rewrite !PX_eq. assert (2 ^ (12 + 9 * Z.of_nat l) = PGSIZE * 2 ^ (9 * Z.of_nat l)) as ->
    by (rewrite Z.pow_add_r by lia; done).
  rewrite <- !Z.div_div by (unfold PGSIZE; lia). by rewrite E.
Qed.

(** ** The tree of table pages *)

Definition entry (s : kstate) (p : Z) (j : nat) : Z := ld 8 (8 * j) (k_page s p).

(** The page entry [j] of table page [p] leads to. *)
Definition child (s : kstate) (p : Z) (j : nat) : option Z :=
  if Z.testbit (entry s p j) 0 then Some (PTE2PA (entry s p j)) else None.

(** The page reached from the root [pt] by the indices [π]. *)
Definition node (s : kstate) (pt : Z) (π : list nat) : option Z :=
  fold_left (λ o j, p ← o; child s p j) π (Some pt).

Lemma node_snoc s pt π j : node s pt (π ++ [j]) = p ← node s pt π; child s p j.
Proof. unfold node. by rewrite fold_left_app. Qed.

(** The last-level PTE of a virtual address, 0 where its table is missing. *)
Definition lpte (s : kstate) (pt va : Z) : Z :=
  match node s pt (path va) with Some p => entry s p (PX 0 va) | None => 0 end.

Definition path_ok (π : list nat) : Prop := (length π ≤ 2)%nat ∧ Forall (λ j, j < 512)%nat π.

Lemma path_path_ok va : path_ok (path va).
Proof. split; [done|]. apply Forall_cons; split; [apply PX_lt|]. apply Forall_cons; split; [apply PX_lt|constructor]. Qed.

Lemma path_ok_snoc π j : path_ok (π ++ [j]) → path_ok π ∧ (j < 512)%nat ∧ (length π < 2)%nat.
Proof.
  intros [Hl Hf]. rewrite length_app in Hl. simpl in Hl. apply Forall_app in Hf as [Hf Hj].
  apply Forall_cons in Hj as [Hj _]. unfold path_ok. split_and!; [lia|done|done|lia].
Qed.

Lemma has_V x : has x PTE_V = Z.testbit x 0.
Proof. unfold has, PTE_V. by rewrite land_bit_zero, negb_involutive by lia. Qed.
Lemma has_U x : has x PTE_U = Z.testbit x 4.
Proof. unfold has, PTE_U. by rewrite land_bit_zero, negb_involutive by lia. Qed.

Section tables.
Context (kend : Z).
Implicit Types (s : kstate) (pt p q : Z) (π ρ : list nat).

(** Every table page is a page of its own, allocated for this table alone. *)
Record pt_ok s pt : Prop := PtOk {
  po_page : ∀ π p, path_ok π → node s pt π = Some p →
    valid kend p ∧ length (k_page s p) = Z.to_nat PGSIZE ∧ pg_refs kend s p = 1;
  po_inj : ∀ π ρ p, path_ok π → path_ok ρ → node s pt π = Some p → node s pt ρ = Some p → π = ρ;
}.

(** Entry [j] of page [p] overwritten. *)
Definition set_entry p (j : nat) (x : Z) s : kstate := s <| k_page ::= fupd p (st 8 (8 * j) x (k_page s p)) |>.

Lemma entry_bound (j : nat) : (j < 512)%nat → (8 * j + 8 ≤ Z.to_nat PGSIZE)%nat.
Proof. intros Hj. unfold PGSIZE. lia. Qed.

Lemma entry_set p j x s q i :
  length (k_page s p) = Z.to_nat PGSIZE → (j < 512)%nat →
  entry (set_entry p j x s) q i = if decide (q = p ∧ i = j) then u64 x else entry s q i.
Proof.
  intros Hlen Hj. unfold entry, set_entry. cbn [k_page update field_set]. unfold fupd.
  destruct (decide (q = p)) as [->|Hq].
  - destruct (decide (i = j)) as [->|Hi].
    + rewrite decide_True by done. rewrite ld_st_eq; [done|]. rewrite Hlen. by apply entry_bound.
    + rewrite decide_False by naive_solver. apply ld_st_ne. lia.
  - rewrite decide_False by naive_solver. done.
Qed.

Lemma child_set_ne p j x s q i :
  length (k_page s p) = Z.to_nat PGSIZE → (j < 512)%nat → ¬ (q = p ∧ i = j) →
  child (set_entry p j x s) q i = child s q i.
Proof. intros Hl Hj Hn. unfold child. rewrite entry_set by done. by rewrite decide_False. Qed.

(** Paths that do not go through the changed entry lead to the same page. *)
Lemma node_set_other s pt π p j x ρ :
  pt_ok s pt → path_ok π → node s pt π = Some p → (j < 512)%nat →
  path_ok ρ → (∀ τ, ρ ≠ π ++ [j] ++ τ) → node (set_entry p j x s) pt ρ = node s pt ρ.
Proof.
  intros Hok Hπ Hp Hj. destruct (po_page _ _ Hok π p Hπ Hp) as (_ & Hlen & _).
  induction ρ as [|i ρ IH] using rev_ind; intros Hρ Hne; [done|].
  destruct (path_ok_snoc ρ i Hρ) as (Hρ' & _ & _). rewrite !node_snoc.
  rewrite IH; [|done|intros τ ->; by apply (Hne (τ ++ [i])); rewrite <- !app_assoc].
  destruct (node s pt ρ) as [q|] eqn:Eq; [|done]. simpl. apply child_set_ne; [done|done|].
  intros [-> ->]. apply (Hne []). rewrite app_nil_r. by rewrite (po_inj _ _ Hok π ρ p).
Qed.

Lemma page_refs_set p j x s q : pg_refs kend (set_entry p j x s) q = pg_refs kend s q.
Proof. done. Qed.
Lemma k_ok_set p j x s : k_ok kend s → k_ok kend (set_entry p j x s).
Proof. intros []. by split. Qed.
Lemma length_set p j x s q : length (k_page (set_entry p j x s) q) = length (k_page s q).
Proof. unfold set_entry. cbn. unfold fupd. case_decide; [subst; apply length_st|done]. Qed.

(** *** A last-level entry *)

Section leaf.
Context s pt π p (j : nat) (x : Z).
Context (Hok : pt_ok s pt) (Hπ : path_ok π) (Hp : node s pt π = Some p) (Hj : (j < 512)%nat) (Hl : length π = 2%nat).

Lemma leaf_nodes ρ : path_ok ρ → node (set_entry p j x s) pt ρ = node s pt ρ.
Proof.
  intros Hρ. apply (node_set_other s pt π); try done. intros τ ->. destruct Hρ as [Hlen _].
  rewrite !length_app in Hlen. simpl in Hlen. lia.
Qed.

Lemma leaf_pt_ok : pt_ok (set_entry p j x s) pt.
Proof.
  destruct Hok as [Hpg Hinj]. split.
  - intros ρ q Hρ. rewrite leaf_nodes by done. intros Hq. rewrite length_set, page_refs_set. by apply (Hpg ρ).
  - intros ρ τ q Hρ Hτ. rewrite !leaf_nodes by done. by apply Hinj.
Qed.

Lemma leaf_lpte va :
  lpte (set_entry p j x s) pt va = if decide (path va = π ∧ PX 0 va = j) then u64 x else lpte s pt va.
Proof.
  unfold lpte. rewrite leaf_nodes by apply path_path_ok.
  destruct (node s pt (path va)) as [q|] eqn:Eq.
  - rewrite entry_set; [|by apply (po_page _ _ Hok π)|done].
    destruct (decide (path va = π ∧ PX 0 va = j)) as [[E1 E2]|Hn].
    + rewrite decide_True; [done|]. split; [|done]. rewrite E1 in Eq. congruence.
    + rewrite decide_False; [done|]. intros [Ep Ej]. apply Hn. split; [|done]. rewrite Ep in Eq.
      apply (po_inj _ _ Hok _ _ p); [apply path_path_ok|done..].
  - rewrite decide_False; [done|]. intros [E _]. rewrite E in Eq. congruence.
Qed.
End leaf.

(** *** A new table page *)

Section grow.
Context s pt π p (j : nat) q.
Context (Hok : pt_ok s pt) (Hπ : path_ok (π ++ [j])) (Hp : node s pt π = Some p) (Hnone : child s p j = None).
Context (Hq : valid kend q) (Href : pg_refs kend s q = 1) (Hfresh : ∀ ρ, path_ok ρ → node s pt ρ ≠ Some q).
Context (Hzero : k_page s q = page_of 0) (Hend : 0 < kend).
Local Notation x := (Z.lor (PA2PTE q) PTE_V).
Local Notation s' := (set_entry p j x s).

Lemma pte_new_low f : 0 ≤ f < 2 ^ 10 → PTE2PA (Z.lor (PA2PTE q) f) = q ∧ 0 ≤ Z.lor (PA2PTE q) f < 2 ^ 64.
Proof.
  intros Hf. destruct Hq as (Hal & Hlo & Hhi). unfold PHYSTOP, KERNBASE in Hhi.
  assert (PA2PTE q = q / 2 ^ 12 * 2 ^ 10) as E.
  { unfold PA2PTE. by rewrite Z.shiftl_mul_pow2, Z.shiftr_div_pow2 by lia. }
  assert (Z.lor (PA2PTE q) f = PA2PTE q + f) as E2.
  { rewrite <- Z.add_lor_land, E. assert (Z.land (q / 2 ^ 12 * 2 ^ 10) f = 0) as ->; [|lia].
    apply Z.bits_inj'. intros n Hn. rewrite Z.land_spec, Z.bits_0. destruct (decide (n < 10)).
    - rewrite Z.mul_pow2_bits_low by lia. done.
    - assert (Z.testbit f n = false) as ->; [apply (word_bits 10); [done..|lia]|apply andb_false_r]. }
  unfold PGSIZE in Hal. split; [|rewrite E2, E; Z.to_euclidean_division_equations; lia].
  unfold PTE2PA. rewrite E2, E, Z.shiftl_mul_pow2, Z.shiftr_div_pow2 by lia. Z.to_euclidean_division_equations. lia.
Qed.

Lemma grow_child : child s' p j = Some q.
Proof.
  destruct (path_ok_snoc π j Hπ) as (Hπ' & Hj & _). destruct (po_page _ _ Hok π p Hπ' Hp) as (_ & Hlen & _).
  unfold child. rewrite entry_set, decide_True by done.
  destruct (pte_new_low PTE_V ltac:(done)) as [E Hr]. rewrite u64_small, E by done.
  rewrite Z.lor_spec. unfold PTE_V. simpl. by rewrite orb_true_r.
Qed.

Lemma grow_leaf_none i : (i < 512)%nat → child s' q i = None ∧ entry s' q i = 0.
Proof.
  intros Hi. destruct (path_ok_snoc π j Hπ) as (Hπ' & Hj & _). destruct (po_page _ _ Hok π p Hπ' Hp) as (_ & Hlen & _).
  assert (entry s' q i = 0) as E; [|unfold child; by rewrite E].
  rewrite entry_set, decide_False by (done || (intros [-> _]; by apply (Hfresh π))).
  unfold entry. rewrite Hzero. apply ld_replicate_0.
Qed.

Lemma grow_nodes ρ : path_ok ρ → node s' pt ρ = if decide (ρ = π ++ [j]) then Some q else node s pt ρ.
Proof.
  destruct (path_ok_snoc π j Hπ) as (Hπ' & Hj & Hl).
  induction ρ as [|i ρ IH] using rev_ind; intros Hρ; [rewrite decide_False; [done|by destruct π]|].
  destruct (path_ok_snoc ρ i Hρ) as (Hρ' & Hi & _). rewrite !node_snoc, IH by done.
  destruct (po_page _ _ Hok π p Hπ' Hp) as (_ & Hlen & _).
  destruct (decide (ρ = π ++ [j])) as [->|Hne].
  - simpl. rewrite (proj1 (grow_leaf_none i Hi)). rewrite node_snoc, Hp. simpl. rewrite Hnone. simpl.
    rewrite decide_False; [done|]. intros E. apply (f_equal length) in E. rewrite !length_app in E. simpl in E. lia.
  - destruct (decide (ρ ++ [i] = π ++ [j])) as [E|Hne'].
    + apply app_inj_tail in E as [-> ->]. rewrite Hp. simpl. apply grow_child.
    + destruct (node s pt ρ) as [r|] eqn:Er; [|done]. simpl. apply child_set_ne; [done|done|].
      intros [-> ->]. apply Hne'. by rewrite (po_inj _ _ Hok ρ π p).
Qed.

Lemma grow_pt_ok : pt_ok s' pt.
Proof.
  split.
  - intros ρ r Hρ. rewrite grow_nodes, length_set, page_refs_set by done. case_decide as E.
    + intros [= <-]. split_and!; [done|by rewrite Hzero; unfold page_of; rewrite length_replicate|done].
    + by apply (po_page _ _ Hok).
  - intros ρ τ r Hρ Hτ. rewrite !grow_nodes by done. repeat case_decide; subst; try done.
    + intros [= <-] E. by apply Hfresh in E.
    + intros E [= <-]. by apply Hfresh in E.
    + by apply (po_inj _ _ Hok).
Qed.

Lemma grow_lpte va : lpte s' pt va = lpte s pt va.
Proof.
  destruct (path_ok_snoc π j Hπ) as (Hπ' & Hj & Hl). destruct (po_page _ _ Hok π p Hπ' Hp) as (_ & Hlen & _).
  unfold lpte. rewrite grow_nodes by apply path_path_ok. case_decide as E.
  - rewrite E, node_snoc, Hp. simpl. rewrite Hnone. simpl. apply grow_leaf_none, PX_lt.
  - destruct (node s pt (path va)) as [r|] eqn:Er; [|done]. rewrite entry_set, decide_False; [done| |done|done].
    intros [-> _]. assert (path va = π) as E' by (apply (po_inj _ _ Hok _ _ p); try done; apply path_path_ok).
    rewrite <- E' in Hl. simpl in Hl. lia.
Qed.
End grow.

(** *** A page taken from the allocator *)

(** Not a page of the table [pt]. *)
Definition off_table s pt q : Prop := ∀ π, path_ok π → node s pt π ≠ Some q.

Lemma node_ext s s' pt π :
  (∀ ρ p, path_ok ρ → node s pt ρ = Some p → k_page s' p = k_page s p) → path_ok π → node s' pt π = node s pt π.
Proof.
  intros H. induction π as [|i π IH] using rev_ind; intros Hπ; [done|].
  destruct (path_ok_snoc π i Hπ) as (Hπ' & _ & _). rewrite !node_snoc, IH by done.
  destruct (node s pt π) as [p|] eqn:Ep; [|done]. simpl. unfold child, entry. by rewrite (H π).
Qed.

Lemma lpte_ext s s' pt va :
  (∀ ρ p, path_ok ρ → node s pt ρ = Some p → k_page s' p = k_page s p) → lpte s' pt va = lpte s pt va.
Proof.
  intros H. unfold lpte. rewrite (node_ext s s') by (done || apply path_path_ok).
  destruct (node s pt (path va)) as [p|] eqn:Ep; [|done]. unfold entry. rewrite (H _ _ (path_path_ok va) Ep). done.
Qed.

Lemma pt_ok_ext s s' pt :
  (∀ ρ p, path_ok ρ → node s pt ρ = Some p → k_page s' p = k_page s p ∧ pg_refs kend s' p = pg_refs kend s p) →
  pt_ok s pt → pt_ok s' pt.
Proof.
  intros H [Hpg Hinj]. assert (∀ π, path_ok π → node s' pt π = node s pt π) as Hn.
  { intros π. apply node_ext. intros. by eapply H. }
  split.
  - intros π p Hπ. rewrite Hn by done. intros Hp. destruct (H π p Hπ Hp) as [-> ->]. by apply (Hpg π).
  - intros π ρ p Hπ Hρ. rewrite !Hn by done. by apply Hinj.
Qed.

(** What a step that only adds table pages to [pt] leaves alone: the table
    pages it has, the references of every page in use, and the contents of the
    pages that are not table pages.  The pages it takes become table pages. *)
Record frame s pt s' : Prop := Frame {
  fr_k : k_ok kend s';
  fr_pt : pt_ok s' pt;
  fr_keep : ∀ π q, path_ok π → node s pt π = Some q → node s' pt π = Some q;
  fr_new : ∀ π q, path_ok π → node s' pt π = Some q → node s pt π = Some q ∨ pg_refs kend s q = 0;
  fr_refs : ∀ q, pg_refs kend s q ≠ 0 → pg_refs kend s' q = pg_refs kend s q;
  fr_data : ∀ q, pg_refs kend s q ≠ 0 → off_table s pt q → k_page s' q = k_page s q;
  fr_own : ∀ q, pg_refs kend s q = 0 → pg_refs kend s' q ≠ 0 → ∃ π, path_ok π ∧ node s' pt π = Some q;
}.

Lemma frame_refl s pt : k_ok kend s → pt_ok s pt → frame s pt s.
Proof. intros. split; try done; by left. Qed.

Lemma frame_off s pt s' q : frame s pt s' → pg_refs kend s q ≠ 0 → off_table s pt q → off_table s' pt q.
Proof. intros Hf Hq Hoff π Hπ Hn. destruct (fr_new _ _ _ Hf π q Hπ Hn); [by apply (Hoff π)|done]. Qed.

Lemma frame_trans s1 s2 s3 pt : frame s1 pt s2 → frame s2 pt s3 → frame s1 pt s3.
Proof.
  intros F G. split; [apply G|apply G|..].
  - intros π q Hπ Hn. by apply (fr_keep _ _ _ G), (fr_keep _ _ _ F).
  - intros π q Hπ Hn. destruct (decide (pg_refs kend s1 q = 0)) as [|Hq]; [by right|left].
    destruct (fr_new _ _ _ G π q Hπ Hn) as [Hn2|Hz].
    + by destruct (fr_new _ _ _ F π q Hπ Hn2).
    + by rewrite (fr_refs _ _ _ F) in Hz.
  - intros q Hq. rewrite (fr_refs _ _ _ G), (fr_refs _ _ _ F); rewrite ?(fr_refs _ _ _ F); done.
  - intros q Hq Hoff. rewrite (fr_data _ _ _ G), (fr_data _ _ _ F); rewrite ?(fr_refs _ _ _ F); try done.
    by apply (frame_off s1).
  - intros q Hz Hq. destruct (decide (pg_refs kend s2 q = 0)) as [Hz2|Hz2].
    + by apply (fr_own _ _ _ G).
    + destruct (fr_own _ _ _ F q Hz Hz2) as (π & Hπ & Hn). exists π. split; [done|]. by apply (fr_keep _ _ _ G).
Qed.

Lemma pt_refs s pt π q : pt_ok s pt → path_ok π → node s pt π = Some q → pg_refs kend s q ≠ 0.
Proof. intros Hok Hπ Hq. destruct (po_page _ _ Hok π q Hπ Hq) as (_ & _ & ->). done. Qed.

(** The state after a page [q] is taken and filled. *)
Lemma kalloc_page s :
  k_ok kend s →
  (∃ q s', run kalloc s (Some q) s' ∧ k_ok kend s' ∧ valid kend q ∧ pg_refs kend s q = 0 ∧
    (∀ r, pg_refs kend s' r = fupd q 1 (pg_refs kend s) r) ∧ k_page s' = fupd q (page_of 5) (k_page s)) ∨
  (run kalloc s None s ∧ concat (k_free s) = []).
Proof.
  intros Hok. destruct (kalloc_cases kend s Hok) as [(i & r & next & Hi & E)|?]; [left|by right].
  assert (valid kend r ∧ k_cnt s (r / PGSIZE) = 0) as [Hv Hz].
  { apply (ko_free kend s Hok). rewrite (concat_uncons _ _ _ _ Hi). by left. }
  exists r, (taken i r next s). split_and!; [done|by apply taken_ok|done| |intros; by apply taken_refs|done].
  unfold pg_refs. by rewrite decide_True.
Qed.

Lemma k_ok_page f s : k_ok kend s → k_ok kend (s <| k_page ::= f |>).
Proof. intros []. by split. Qed.

(** A fresh page is not in the table, and taking it changes no table. *)
Lemma fresh_ext s pt s' q :
  pt_ok s pt → pg_refs kend s q = 0 → (∀ r, pg_refs kend s' r = fupd q 1 (pg_refs kend s) r) →
  (∀ r, r ≠ q → k_page s' r = k_page s r) →
  off_table s pt q ∧
  ∀ π p, path_ok π → node s pt π = Some p → k_page s' p = k_page s p ∧ pg_refs kend s' p = pg_refs kend s p.
Proof.
  intros Hok Hz Hr Hp. assert (off_table s pt q) as Hoff.
  { intros π Hπ Hn. exact (pt_refs s pt π q Hok Hπ Hn Hz). }
  split; [done|]. intros π p Hπ Hn. assert (p ≠ q) by (intros ->; by apply (Hoff π)).
  by rewrite Hp, Hr, fupd_ne.
Qed.

(** ** walk *)

Lemma path_level va l : (S l ≤ 2)%nat → take (2 - l) (path va) = take (2 - S l) (path va) ++ [PX (S l) va].
Proof. destruct l as [|[|l]]; [done..|lia]. Qed.

Lemma take_path_ok n va : path_ok (take n (path va)).
Proof.
  destruct (path_path_ok va) as [Hl Hf]. split; [rewrite length_take; lia|by apply Forall_take].
Qed.

(** Without allocation, [walk] finds the last-level entry if its table is there. *)
Lemma walk_from_find s pt va l p :
  (l ≤ 2)%nat → node s pt (take (2 - l) (path va)) = Some p →
  run (walk_from l p va false) s ((λ q, (q, PX 0 va)) <$> node s pt (path va)) s.
Proof.
  revert p. induction l as [|l IH]; intros p Hl Hp; cbn [walk_from].
  - change (take (2 - 0) (path va)) with (path va) in Hp. by rewrite Hp.
  - rewrite (bind_Ret _ _ _ _ _ (run_get s)). rewrite has_V.
    pose proof (node_snoc s pt (take (2 - S l) (path va)) (PX (S l) va)) as Hn.
    rewrite <- path_level, Hp in Hn by done. simpl in Hn. unfold child in Hn.
    change (pte_ld (p, PX (S l) va) s) with (entry s p (PX (S l) va)).
    destruct (Z.testbit _ 0) eqn:Eb; cbn [negb].
    + apply IH; [lia|done].
    + assert (node s pt (path va) = None) as ->; [|done].
      rewrite <- (take_drop (2 - l) (path va)). unfold node at 1. rewrite fold_left_app.
      fold (node s pt (take (2 - l) (path va))). rewrite Hn. by induction (drop _ _).
Qed.

Lemma walk_find s pt va :
  va < MAXVA → run (walk pt va false) s ((λ q, (q, PX 0 va)) <$> node s pt (path va)) s.
Proof. intros Hva. unfold walk. destruct (Z.leb_spec MAXVA va); [lia|]. by apply walk_from_find. Qed.

(** A fresh zeroed page linked in at a missing entry. *)
Lemma link_table s pt π p j q s1 :
  0 < kend → pt_ok s pt → path_ok (π ++ [j]) → node s pt π = Some p → child s p j = None →
  k_ok kend s1 → valid kend q → pg_refs kend s q = 0 →
  (∀ r, pg_refs kend s1 r = fupd q 1 (pg_refs kend s) r) → k_page s1 = fupd q (page_of 5) (k_page s) →
  let s' := set_entry p j (Z.lor (PA2PTE q) PTE_V) (s1 <| k_page ::= fupd q (page_of 0) |>) in
  frame s pt s' ∧ (∀ va, lpte s' pt va = lpte s pt va) ∧ node s' pt (π ++ [j]) = Some q.
Proof.
  intros Hend Hok Hπj Hp Hc Hk1 Hv Hz Hr1 Hp1 s'. set (s2 := s1 <| k_page ::= fupd q (page_of 0) |>) in *.
  destruct (path_ok_snoc π j Hπj) as (Hπ & Hj & Hl).
  assert (k_page s2 = fupd q (page_of 0) (fupd q (page_of 5) (k_page s))) as Hp2 by (by rewrite <- Hp1).
  destruct (fresh_ext s pt s2 q Hok Hz Hr1) as [Hoff Hext].
  { intros r Hr. by rewrite Hp2, !fupd_ne. }
  assert (∀ ρ r, path_ok ρ → node s pt ρ = Some r → k_page s2 r = k_page s r) as Hext1 by (intros; by eapply Hext).
  assert (∀ ρ, path_ok ρ → node s2 pt ρ = node s pt ρ) as Hn2 by (intros ρ; by apply node_ext).
  pose proof (pt_ok_ext s s2 pt Hext Hok) as Hok2.
  assert (node s2 pt π = Some p) as Hp2' by (by rewrite Hn2).
  assert (child s2 p j = None) as Hc2 by (unfold child, entry in *; by rewrite (Hext1 π)).
  assert (pg_refs kend s2 q = 1) as Hrq by (change (pg_refs kend s1 q = 1); by rewrite Hr1, fupd_eq).
  assert (∀ ρ, path_ok ρ → node s2 pt ρ ≠ Some q) as Hoff2 by (intros ρ Hρ; rewrite Hn2 by done; by apply Hoff).
  assert (k_page s2 q = page_of 0) as Hzq by (by rewrite Hp2, fupd_eq).
  assert (∀ ρ, path_ok ρ → node s' pt ρ = if decide (ρ = π ++ [j]) then Some q else node s2 pt ρ) as Hg
    by (intros; by apply (grow_nodes s2 pt π p j q)).
  split_and!; [|intros va; unfold s'; rewrite (grow_lpte s2 pt π p j q) by done; by apply lpte_ext|by rewrite Hg, decide_True].
  assert (node s pt (π ++ [j]) = None) as Hnone by (by rewrite node_snoc, Hp).
  split; [by apply k_ok_set, k_ok_page|by apply (grow_pt_ok s2 pt π p j q)|..].
  - intros ρ r Hρ Hr. rewrite Hg by done. case_decide; [congruence|by rewrite Hn2].
  - intros ρ r Hρ. rewrite Hg by done. case_decide; [intros [= <-]; by right|rewrite Hn2 by done; by left].
  - intros r Hr. change (pg_refs kend s1 r = pg_refs kend s r). rewrite Hr1, fupd_ne; [done|congruence].
  - intros r Hr Hr'. unfold s', set_entry. cbn [k_page update field_set].
    rewrite Hp2, !fupd_ne; [done|congruence|congruence|]. intros ->. by apply (Hr' π).
  - intros r Hr. change (pg_refs kend s' r) with (pg_refs kend s1 r). rewrite Hr1. unfold fupd. case_decide; [|done].
    subst. intros _. exists (π ++ [j]). by rewrite Hg, decide_True.
Qed.

(** With allocation, the missing tables are added; mappings are unchanged. *)
Lemma walk_from_alloc pt va l s p :
  0 < kend → (l ≤ 2)%nat → k_ok kend s → pt_ok s pt → node s pt (take (2 - l) (path va)) = Some p →
  ∃ r s', run (walk_from l p va true) s r s' ∧ frame s pt s' ∧ (∀ va', lpte s' pt va' = lpte s pt va') ∧
    match r with
    | None => concat (k_free s') = []
    | Some e => e.2 = PX 0 va ∧ node s' pt (path va) = Some e.1
    end.
Proof.
  intros Hend. revert s p. induction l as [|l IH]; intros s p Hl Hk Hok Hp; cbn [walk_from].
  - exists (Some (p, PX 0 va)), s. split_and!; [done|by apply frame_refl|done..].
  - rewrite (bind_Ret _ _ _ _ _ (run_get s)). rewrite has_V. set (j := PX (S l) va) in *.
    set (π := take (2 - S l) (path va)) in *.
    assert (path_ok (π ++ [j])) as Hπj by (unfold π, j; rewrite <- path_level by done; apply take_path_ok).
    pose proof (node_snoc s pt π j) as Hn. rewrite Hp in Hn. simpl in Hn.
    change (pte_ld (p, j) s) with (entry s p j).
    assert (child s p j = if Z.testbit (entry s p j) 0 then Some (PTE2PA (entry s p j)) else None) as Hc by done.
    destruct (Z.testbit (entry s p j) 0); cbn [negb].
    + apply IH; [lia|done|done|]. rewrite path_level by done. fold π j. by rewrite Hn.
    + destruct (kalloc_page s Hk) as [(q & s1 & E1 & Hk1 & Hv & Hz & Hr1 & Hp1)|[E1 Hnil]].
      2:{ step_with E1. exists None, s. split_and!; [done|by apply frame_refl|done..]. }
      step_with E1. unfold fill, pte_st. rewrite !(bind_Ret _ _ _ _ _ (run_modify _ _)).
      destruct (link_table s pt π p j q s1) as (F & Hlp & Hn'); [done..|].
      destruct (IH _ q ltac:(lia) (fr_k _ _ _ F) (fr_pt _ _ _ F)) as (r & s3 & E3 & F3 & Hlp3 & Hr3).
      { by rewrite path_level. }
      exists r, s3. split_and!; [exact E3|by eapply frame_trans| |done]. intros va'. by rewrite Hlp3, Hlp.
Qed.

Lemma walk_alloc pt va s :
  0 < kend → va < MAXVA → k_ok kend s → pt_ok s pt →
  ∃ r s', run (walk pt va true) s r s' ∧ frame s pt s' ∧ (∀ va', lpte s' pt va' = lpte s pt va') ∧
    match r with
    | None => concat (k_free s') = []
    | Some e => e.2 = PX 0 va ∧ node s' pt (path va) = Some e.1
    end.
Proof.
  intros Hend Hva Hk Hok. unfold walk. destruct (Z.leb_spec MAXVA va); [lia|]. by apply (walk_from_alloc pt va 2).
Qed.

(** ** Storing a last-level entry *)

Lemma lpte_at s pt va q : node s pt (path va) = Some q → pte_ld (q, PX 0 va) s = lpte s pt va.
Proof. intros Hq. unfold lpte. by rewrite Hq. Qed.

Lemma vpn_iff va a :
  0 ≤ va < MAXVA → 0 ≤ a < MAXVA → path va = path a ∧ PX 0 va = PX 0 a ↔ va / PGSIZE = a / PGSIZE.
Proof. intros Hva Ha. split; [intros []; by apply vpn_inj|apply vpn_path]. Qed.

Lemma store_pte s pt a q x :
  k_ok kend s → pt_ok s pt → 0 ≤ a < MAXVA → 0 ≤ x < 2 ^ 64 → node s pt (path a) = Some q →
  let s' := set_entry q (PX 0 a) x s in
  frame s pt s' ∧ (∀ π, path_ok π → node s' pt π = node s pt π) ∧
  ∀ va, 0 ≤ va < MAXVA → lpte s' pt va = if decide (va / PGSIZE = a / PGSIZE) then x else lpte s pt va.
Proof.
  intros Hk Hok Ha Hx Hq s'. assert (∀ π, path_ok π → node s' pt π = node s pt π) as Hn.
  { intros π. apply (leaf_nodes s pt (path a)); [done|apply path_path_ok|done|apply PX_lt|done]. }
  split_and!; [|done|].
  - split; [by apply k_ok_set|apply (leaf_pt_ok s pt (path a)); [done|apply path_path_ok|done|apply PX_lt|done]|..]; try done.
    + intros π r Hπ. by rewrite Hn.
    + intros π r Hπ. rewrite Hn by done. by left.
    + intros r Hr Hoff. unfold s', set_entry. cbn [k_page update field_set]. rewrite fupd_ne; [done|].
      intros ->. by apply (Hoff (path a) (path_path_ok a)).
  - intros va Hva. unfold s'. rewrite (leaf_lpte s pt (path a) q); [|done|apply path_path_ok|done|apply PX_lt|done].
    rewrite u64_small by done. by rewrite (decide_ext _ _ _ _ (vpn_iff va a Hva Ha)).
Qed.

(** ** mappages *)

Definition new_pte (pa perm : Z) : Z := Z.lor (Z.lor (PA2PTE pa) perm) PTE_V.

(** The pages from [a] up to [b] are mapped to those from [pa] up, the rest is
    as before. *)
Definition map_to (a b pa perm : Z) s pt s' : Prop :=
  ∀ va, 0 ≤ va < MAXVA →
    lpte s' pt va = if decide (a ≤ va < b) then new_pte (pa + (PGROUNDDOWN va - a)) perm else lpte s pt va.

(** What [mappages] does to the range from [a] to the page [last]. *)
Definition map_result (a last pa perm : Z) s pt (o : outcome (Z * kstate)) : Prop :=
  match o with
  | Ret (r, s') =>
      frame s pt s' ∧
      (r = 0 ∧ (∀ va, a ≤ va < last + PGSIZE → has (lpte s pt va) PTE_V = false) ∧ map_to a (last + PGSIZE) pa perm s pt s' ∨
       r = -1 ∧ concat (k_free s') = [] ∧ ∃ b, a ≤ b ≤ last ∧ b mod PGSIZE = 0 ∧ map_to a b pa perm s pt s')
  | Panic m => m = "remap" ∧ ∃ va, a ≤ va < last + PGSIZE ∧ has (lpte s pt va) PTE_V = true
  | Blocks => False
  end.

Lemma new_pte_bound pa perm : 0 ≤ pa < 2 ^ 56 → 0 ≤ perm < 2 ^ 10 → 0 ≤ new_pte pa perm < 2 ^ 64.
Proof.
  intros Hpa Hperm. unfold new_pte, PA2PTE. rewrite Z.shiftl_mul_pow2, Z.shiftr_div_pow2 by lia.
  assert (0 ≤ pa / 2 ^ 12 * 2 ^ 10 < 2 ^ 54) as H1 by (Z.to_euclidean_division_equations; lia).
  pose proof (word_lor 54 _ PTE_V ltac:(done) (word_lor 54 _ perm ltac:(done) H1 ltac:(lia)) ltac:(done)). lia.
Qed.

Lemma same_page va a :
  a mod PGSIZE = 0 → va / PGSIZE = a / PGSIZE ↔ a ≤ va < a + PGSIZE.
Proof. unfold PGSIZE. intros H. split; intros; Z.to_euclidean_division_equations; lia. Qed.

Lemma lpte_page s pt va a : va / PGSIZE = a / PGSIZE → lpte s pt va = lpte s pt a.
Proof. intros [Ep Ej]%vpn_path. unfold lpte. by rewrite Ep, Ej. Qed.

(** The first page of the range, then the others. *)
Lemma map_result_cons a last pa perm s pt s2 o :
  a mod PGSIZE = 0 → a + PGSIZE ≤ last → 0 ≤ a → last + PGSIZE ≤ MAXVA → frame s pt s2 → has (lpte s pt a) PTE_V = false →
  map_to a (a + PGSIZE) pa perm s pt s2 →
  map_result (a + PGSIZE) last (pa + PGSIZE) perm s2 pt o → map_result a last pa perm s pt o.
Proof.
  intros Hal Hle Ha Hmax F Hun Hm. assert (0 < PGSIZE) as Hpos by done.
  assert (∀ va, 0 ≤ va < MAXVA → a + PGSIZE ≤ va → lpte s2 pt va = lpte s pt va) as Hrest.
  { intros va Hva Hge. rewrite Hm by done. by rewrite decide_False by lia. }
  assert (∀ b s', map_to (a + PGSIZE) b (pa + PGSIZE) perm s2 pt s' → a + PGSIZE ≤ b → map_to a b pa perm s pt s') as Hcat.
  { intros b s' Hm' Hb va Hva. rewrite Hm', Hm by done. repeat case_decide; try lia; try done.
    f_equal. lia. }
  assert (∀ va, a ≤ va < a + PGSIZE → has (lpte s pt va) PTE_V = false) as Hfst.
  { intros va Hva. rewrite (lpte_page s pt va a); [done|by apply same_page]. }
  destruct o as [[r s']|m|]; [|intros [-> (va & Hva & Hv)]; split; [done|]|done].
  - intros [F' [(-> & Hun' & Hm')|(-> & Hnil & b & Hb & Hbal & Hm')]]; (split; [by eapply frame_trans|]).
    + left. split_and!; [done| |apply Hcat; [done|lia]]. intros va Hva.
      destruct (decide (va < a + PGSIZE)); [apply Hfst; lia|].
      rewrite <- Hrest; [apply Hun'|..]; lia.
    + right. split_and!; [done..|]. exists b. split_and!; [lia|lia|done|]. apply Hcat; [done|lia].
  - exists va. split; [lia|]. rewrite <- Hrest; [done|lia..].
Qed.

Lemma mappages_loop_S n pt a last pa perm :
  mappages_loop (S n) pt a last pa perm =
    (r ← walk pt a true;
     match r with
     | None => mret (-1)
     | Some e =>
         s ← get;
         if has (pte_ld e s) PTE_V then panic "remap"
         else
           _ ← pte_st e (new_pte pa perm);
           if a =? last then mret 0 else mappages_loop n pt (u64 (a + PGSIZE)) last (u64 (pa + PGSIZE)) perm
     end).
Proof. done. Qed.

Lemma mappages_loop_run n pt a pa perm s :
  0 < kend → k_ok kend s → pt_ok s pt → a mod PGSIZE = 0 → 0 ≤ a → a + Z.of_nat (S n) * PGSIZE ≤ MAXVA →
  0 ≤ pa → pa + Z.of_nat (S n) * PGSIZE ≤ 2 ^ 56 → 0 ≤ perm < 2 ^ 10 →
  map_result a (a + Z.of_nat n * PGSIZE) pa perm s pt
    (mappages_loop (S n) pt a (a + Z.of_nat n * PGSIZE) pa perm s).
Proof.
  intros Hend. revert a pa s. assert (0 < PGSIZE < 2 ^ 13) as Hpos by done. assert (MAXVA = 2 ^ 38) as Hmax by done.
  induction n as [|n IH]; intros a pa s Hk Hok Hal Ha Hlast Hpa Hpa2 Hperm.
  all: destruct (walk_alloc pt a s Hend ltac:(lia) Hk Hok) as (r & s1 & E1 & F1 & Hl1 & Hr).
  all: rewrite Nat2Z.inj_succ in Hlast, Hpa2; rewrite mappages_loop_S; step_with E1; (destruct r as [[q j]|];
    [|split; [done|]; right; split_and!; [done..|]; exists a; split_and!; [lia|lia|done|];
      intros va Hva; rewrite decide_False by lia; apply Hl1]).
  all: cbn [fst snd] in Hr; destruct Hr as [-> Hq]; rewrite (bind_Ret _ _ _ _ _ (run_get s1)), (lpte_at _ _ _ _ Hq), Hl1.
  all: destruct (has (lpte s pt a) PTE_V) eqn:Eh; [split; [done|]; exists a; split; [lia|done]|].
  all: unfold pte_st; rewrite (bind_Ret _ _ _ _ _ (run_modify _ _)); cbn [fst snd].
  all: destruct (store_pte s1 pt a q (new_pte pa perm) (fr_k _ _ _ F1) (fr_pt _ _ _ F1)) as (F2 & _ & Hl2);
    [lia|by apply new_pte_bound; lia|done|].
  all: pose proof (frame_trans _ _ _ _ F1 F2) as F.
  all: assert (map_to a (a + PGSIZE) pa perm s pt (set_entry q (PX 0 a) (new_pte pa perm) s1)) as Hm.
  1,3: intros va Hva; rewrite Hl2, Hl1 by done; rewrite (decide_ext _ _ _ _ (same_page va a Hal)); case_decide as Hd; [|done].
  1,2: rewrite (PGROUNDDOWN_eq va), (proj2 (same_page va a Hal) Hd), <- PGROUNDDOWN_eq.
  1,2: rewrite <- (Z.add_0_r a), PGROUNDDOWN_in by done; f_equal; lia.
  - rewrite Z.mul_0_l, Z.add_0_r, Z.eqb_refl. split; [done|]. left. split_and!; [done| |done].
    intros va Hva. rewrite (lpte_page s pt va a); [done|by apply same_page].
  - pose proof (Z.mul_pos_pos (Z.of_nat (S n)) PGSIZE ltac:(lia) ltac:(done)).
    pose proof (Z.mul_nonneg_nonneg (Z.of_nat n) PGSIZE ltac:(lia) ltac:(done)).
    destruct (Z.eqb_spec a (a + Z.of_nat (S n) * PGSIZE)); [lia|]. rewrite !u64_small by lia.
    replace (a + Z.of_nat (S n) * PGSIZE) with (a + PGSIZE + Z.of_nat n * PGSIZE) by lia.
    eapply map_result_cons; [done|lia|done|lia|exact F|done|exact Hm|].
    apply IH; [apply F|apply F| |lia..]; try lia.
    unfold PGSIZE in *. Z.to_euclidean_division_equations. lia.
Qed.

(** ** uvmunmap *)

Abbreviation mapped s pt va := (has (lpte s pt va) PTE_V = true).
Abbreviation page_at s pt va := (PTE2PA (lpte s pt va)).

(** The user part of an address space ends below the trap frame and the
    trampoline, which every process maps at the top. *)
Definition USERTOP : Z := MAXVA - 2 * PGSIZE.

Lemma user_va va : 0 ≤ va < USERTOP → 0 ≤ va < MAXVA.
Proof. unfold USERTOP, PGSIZE. lia. Qed.

(** The pages of a user address space: mapped by leaf entries to pages in use
    that are not part of the table, a different one for each virtual page. *)
Record user_ok s pt : Prop := UserOk {
  us_leaf : ∀ va, 0 ≤ va < USERTOP → mapped s pt va → PTE_FLAGS (lpte s pt va) ≠ PTE_V;
  us_page : ∀ va, 0 ≤ va < USERTOP → mapped s pt va →
    valid kend (page_at s pt va) ∧ pg_refs kend s (page_at s pt va) ≠ 0 ∧ off_table s pt (page_at s pt va);
  us_inj : ∀ va va', 0 ≤ va < USERTOP → 0 ≤ va' < USERTOP → mapped s pt va → mapped s pt va' →
    page_at s pt va = page_at s pt va' → va / PGSIZE = va' / PGSIZE;
}.

(** The range from [a] to [b] unmapped, its pages released if [do_free]. *)
Record unmapped (do_free : bool) (a b : Z) s pt s' : Prop := Unmapped {
  um_k : k_ok kend s';
  um_pt : pt_ok s' pt;
  um_nodes : ∀ π, path_ok π → node s' pt π = node s pt π;
  um_lpte : ∀ va, 0 ≤ va < MAXVA →
    lpte s' pt va = if decide (a ≤ va < b ∧ mapped s pt va) then 0 else lpte s pt va;
  um_drop : ∀ va, 0 ≤ va < MAXVA → a ≤ va < b → mapped s pt va →
    pg_refs kend s' (page_at s pt va) = pg_refs kend s (page_at s pt va) - Z.b2z do_free;
  um_keep : ∀ q, (∀ va, 0 ≤ va < MAXVA → a ≤ va < b → mapped s pt va → page_at s pt va ≠ q) →
    pg_refs kend s' q = pg_refs kend s q ∧ (off_table s pt q → k_page s' q = k_page s q);
}.

Lemma unmapped_refl do_free a b s pt :
  k_ok kend s → pt_ok s pt → (∀ va, 0 ≤ va < MAXVA → a ≤ va < b → ¬ mapped s pt va) → unmapped do_free a b s pt s.
Proof.
  intros Hk Hok Hno. split; try done.
  - intros va Hva. rewrite decide_False; [done|]. intros [Hr Hm]. by apply (Hno va).
  - intros va Hva Hr Hm. by destruct (Hno va).
Qed.

Lemma unmapped_out do_free a b s pt s' va :
  unmapped do_free a b s pt s' → 0 ≤ va < MAXVA → ¬ a ≤ va < b → lpte s' pt va = lpte s pt va.
Proof. intros U Hva Ho. rewrite (um_lpte _ _ _ _ _ _ U) by done. rewrite decide_False; naive_solver. Qed.

Lemma unmapped_in do_free a b s pt s' va :
  unmapped do_free a b s pt s' → 0 ≤ va < MAXVA → mapped s' pt va → ¬ a ≤ va < b ∧ lpte s' pt va = lpte s pt va.
Proof.
  intros U Hva Hm. pose proof (um_lpte _ _ _ _ _ _ U va Hva) as El. rewrite El in Hm. case_decide as Hd; [done|].
  split; [|done]. intros Hr. by destruct Hd.
Qed.

Lemma unmapped_refs do_free a b s pt s' q :
  unmapped do_free a b s pt s' →
  (∀ va, 0 ≤ va < MAXVA → a ≤ va < b → mapped s pt va → page_at s pt va ≠ q) → pg_refs kend s' q = pg_refs kend s q.
Proof. intros U H. by apply (um_keep _ _ _ _ _ _ U). Qed.

Lemma unmapped_user do_free a b s pt s' :
  a mod PGSIZE = 0 → b mod PGSIZE = 0 → b ≤ USERTOP → user_ok s pt → unmapped do_free a b s pt s' → user_ok s' pt.
Proof.
  intros Ha Hb Htop [Hleaf Hpg Hinj] U. split.
  - intros va Hva Hm. destruct (unmapped_in _ _ _ _ _ _ va U (user_va va Hva) Hm) as [_ E]. rewrite E in *. by apply Hleaf.
  - intros va Hva Hm. destruct (unmapped_in _ _ _ _ _ _ va U (user_va va Hva) Hm) as [Hout E]. rewrite E in *.
    destruct (Hpg va Hva Hm) as (Hv & Hr & Hoff). split_and!; [done| |].
    + rewrite (unmapped_refs _ _ _ _ _ _ _ U); [done|].
      intros va' Hva' Hr' Hm' Eq. apply Hout. pose proof (Hinj va' va ltac:(lia) Hva Hm' Hm Eq).
      unfold PGSIZE in *. Z.to_euclidean_division_equations. lia.
    + intros π Hπ. rewrite (um_nodes _ _ _ _ _ _ U) by done. by apply Hoff.
  - intros va va' Hva Hva' Hm Hm'. destruct (unmapped_in _ _ _ _ _ _ va U (user_va va Hva) Hm) as [_ E].
    destruct (unmapped_in _ _ _ _ _ _ va' U (user_va va' Hva') Hm') as [_ E']. rewrite E, E' in *. by apply Hinj.
Qed.

(** Two ranges unmapped one after the other, in either order. *)
Lemma unmapped_union do_free a1 b1 a2 b2 a b s1 s2 s3 pt :
  (∀ va, a ≤ va < b ↔ a1 ≤ va < b1 ∨ a2 ≤ va < b2) →
  (∀ va va', a1 ≤ va < b1 → a2 ≤ va' < b2 → va / PGSIZE ≠ va' / PGSIZE) → b1 ≤ USERTOP → b2 ≤ USERTOP → user_ok s1 pt →
  unmapped do_free a1 b1 s1 pt s2 → unmapped do_free a2 b2 s2 pt s3 → unmapped do_free a b s1 pt s3.
Proof.
  intros Hun Hdis Htop1 Htop2 Hus U V.
  assert (∀ va, 0 ≤ va < MAXVA → a2 ≤ va < b2 → lpte s2 pt va = lpte s1 pt va) as Hhi.
  { intros va Hva H2. apply (unmapped_out _ _ _ _ _ _ _ U); [done|]. intros H1. by apply (Hdis va va). }
  assert (∀ va va', 0 ≤ va < MAXVA → 0 ≤ va' < MAXVA → a1 ≤ va < b1 → a2 ≤ va' < b2 → mapped s1 pt va → mapped s1 pt va' →
    page_at s1 pt va ≠ page_at s1 pt va') as Hdisj.
  { intros va va' Hva Hva' H1 H2 Hm1 Hm2 Eq. apply (Hdis va va' H1 H2). apply (us_inj _ _ Hus); [lia|lia|done..]. }
  split; [apply V|apply V|..].
  - intros π Hπ. by rewrite (um_nodes _ _ _ _ _ _ V), (um_nodes _ _ _ _ _ _ U).
  - intros va Hva. rewrite (um_lpte _ _ _ _ _ _ V) by done. case_decide as H2.
    + destruct H2 as [Hr H2]. destruct (unmapped_in _ _ _ _ _ _ va U Hva H2) as [_ E]. rewrite E in H2.
      rewrite decide_True; [done|]. split; [apply Hun; by right|done].
    + rewrite (um_lpte _ _ _ _ _ _ U) by done. case_decide as H1.
      { rewrite decide_True; [done|]. split; [apply Hun; left; apply H1|apply H1]. }
      rewrite decide_False; [done|]. intros [[Hr|Hr]%Hun Hmp]; [by apply H1|]. apply H2. by rewrite Hhi.
  - intros va Hva [Hr|Hr]%Hun Hmp.
    + rewrite (unmapped_refs _ _ _ _ _ _ _ V); [by apply (um_drop _ _ _ _ _ _ U)|].
      intros va' Hva' Hr' Hm'. rewrite (Hhi va') in * by done. by apply not_eq_sym, Hdisj.
    + rewrite <- (Hhi va) in * by done. rewrite (um_drop _ _ _ _ _ _ V) by done.
      rewrite (unmapped_refs _ _ _ _ _ _ _ U); [done|].
      intros va' Hva' Hr' Hm'. rewrite (Hhi va) in * by done. by apply Hdisj.
  - intros q Hq. destruct (um_keep _ _ _ _ _ _ U q) as [R1 D1]; [intros va Hva Hr; apply Hq; [done|apply Hun; by left]|].
    destruct (um_keep _ _ _ _ _ _ V q) as [R2 D2].
    + intros va Hva Hr. rewrite (Hhi va) by done. apply Hq; [done|apply Hun; by right].
    + rewrite R2, R1. split; [done|]. intros Hoff. rewrite D2, D1; [done|done|].
      intros π Hπ. rewrite (um_nodes _ _ _ _ _ _ U) by done. by apply Hoff.
Qed.

Lemma dropped_page q s r : r ≠ q → k_page (dropped q s) r = k_page s r.
Proof.
  intros Hr. unfold dropped. cbv zeta. destruct (_ =? 0); [|done]. cbn [k_page update field_set]. by rewrite fupd_ne.
Qed.

(** Releasing the page of a mapping, or keeping it. *)
Lemma release_run (do_free : bool) s q :
  k_ok kend s → valid kend q → pg_refs kend s q ≠ 0 →
  ∃ s', run (if do_free then kfree kend q else mret ()) s () s' ∧ k_ok kend s' ∧
    (∀ r, pg_refs kend s' r = fupd q (pg_refs kend s q - Z.b2z do_free) (pg_refs kend s) r) ∧
    ∀ r, r ≠ q → k_page s' r = k_page s r.
Proof.
  intros Hk Hv Hr. destruct do_free.
  - unfold pg_refs in Hr. rewrite decide_True in Hr by done. pose proof (ko_cnt kend s Hk q Hv).
    exists (dropped q s). split_and!; [apply run_kfree; [done|lia]|apply dropped_ok; [done|done|lia]| |].
    + intros r. by apply dropped_refs.
    + intros r Hne. by apply dropped_page.
  - exists s. split_and!; [done..| |done]. intros r. unfold fupd. case_decide; [subst; simpl; lia|done].
Qed.

(** Releasing the page mapped at [a] and clearing its entry. *)
Lemma clear_entry (do_free : bool) pt a s q :
  k_ok kend s → pt_ok s pt → user_ok s pt → a mod PGSIZE = 0 → 0 ≤ a < USERTOP →
  node s pt (path a) = Some q → mapped s pt a →
  ∃ s1, run (if do_free then kfree kend (page_at s pt a) else mret ()) s () s1 ∧
    unmapped do_free a (a + PGSIZE) s pt (set_entry q (PX 0 a) 0 s1).
Proof.
  intros Hk Hok Hus Hal Ha Hq Hm. destruct (us_page _ _ Hus a Ha Hm) as (Hv & Hr & Hoff).
  destruct (release_run do_free s _ Hk Hv Hr) as (s1 & E1 & Hk1 & Hr1 & Hp1). exists s1. split; [done|].
  assert (∀ ρ p, path_ok ρ → node s pt ρ = Some p → k_page s1 p = k_page s p ∧ pg_refs kend s1 p = pg_refs kend s p) as Hext.
  { intros ρ p Hρ Hn. assert (p ≠ page_at s pt a) by (intros ->; by apply (Hoff ρ)). by rewrite Hp1, Hr1, fupd_ne. }
  assert (∀ ρ p, path_ok ρ → node s pt ρ = Some p → k_page s1 p = k_page s p) as Hext1 by (intros; by eapply Hext).
  pose proof (pt_ok_ext s s1 pt Hext Hok) as Hok1.
  assert (node s1 pt (path a) = Some q) as Hq1 by (by rewrite (node_ext s) by (done || apply path_path_ok)).
  destruct (store_pte s1 pt a q 0 Hk1 Hok1 (user_va a Ha) ltac:(lia) Hq1) as (F & Hn & Hl).
  assert (∀ va, a ≤ va < a + PGSIZE → lpte s pt va = lpte s pt a) as Hsame.
  { intros va Hva. apply lpte_page. by apply same_page. }
  split; [apply F|apply F|..].
  - intros π Hπ. rewrite Hn by done. by apply node_ext.
  - intros va Hva. rewrite Hl, (lpte_ext s s1) by done. rewrite (decide_ext _ _ _ _ (same_page va a Hal)).
    case_decide as Hd; [rewrite decide_True; [done|by rewrite Hsame]|]. rewrite decide_False; naive_solver.
  - intros va Hva Hin _. rewrite Hsame by done. change (pg_refs kend s1 (page_at s pt a) = pg_refs kend s (page_at s pt a) - Z.b2z do_free).
    by rewrite Hr1, fupd_eq.
  - intros r Hne. assert (r ≠ page_at s pt a) as Hne' by (intros ->; by apply (Hne a (user_va a Ha)); [unfold PGSIZE; lia|..]).
    split; [change (pg_refs kend s1 r = pg_refs kend s r); by rewrite Hr1, fupd_ne|]. intros Ho.
    unfold set_entry. cbn [k_page update field_set]. rewrite fupd_ne; [by apply Hp1|].
    intros ->. by apply (Ho (path a) (path_path_ok a)).
Qed.

Lemma unmap_page do_free pt a s q :
  k_ok kend s → pt_ok s pt → user_ok s pt → a mod PGSIZE = 0 → 0 ≤ a < USERTOP →
  node s pt (path a) = Some q → mapped s pt a →
  ∃ s', run (unmap_entry kend do_free (Some (q, PX 0 a))) s () s' ∧ unmapped do_free a (a + PGSIZE) s pt s'.
Proof.
  intros Hk Hok Hus Hal Ha Hq Hm. destruct (clear_entry do_free pt a s q) as (s1 & E1 & U); [done..|].
  unfold unmap_entry. rewrite (bind_Ret _ _ _ _ _ (run_get s)), (lpte_at s pt a q Hq), Hm. cbn [negb].
  rewrite (proj2 (Z.eqb_neq _ _) (us_leaf _ _ Hus a Ha Hm)). rewrite (bind_Ret _ _ _ _ _ E1). by eexists.
Qed.

Lemma uvmunmap_loop_run do_free pt n a s :
  k_ok kend s → pt_ok s pt → user_ok s pt → a mod PGSIZE = 0 → 0 ≤ a → a + Z.of_nat n * PGSIZE ≤ USERTOP →
  ∃ s', run (uvmunmap_loop kend n pt a do_free) s () s' ∧ unmapped do_free a (a + Z.of_nat n * PGSIZE) s pt s'.
Proof.
  revert a s. assert (0 < PGSIZE) as Hpos by done.
  induction n as [|n IH]; intros a s Hk Hok Hus Hal Ha Hle; cbn [uvmunmap_loop].
  { exists s. split; [done|]. apply unmapped_refl; [done..|lia]. }
  rewrite Nat2Z.inj_succ in *. pose proof (Z.mul_nonneg_nonneg (Z.of_nat n) PGSIZE ltac:(lia) ltac:(done)).
  assert (0 ≤ a < USERTOP) as Hau by lia. rewrite (bind_Ret _ _ _ _ _ (walk_find s pt a (proj2 (user_va a Hau)))).
  assert (∃ s1, run (unmap_entry kend do_free ((λ q, (q, PX 0 a)) <$> node s pt (path a))) s () s1 ∧
    unmapped do_free a (a + PGSIZE) s pt s1) as (s1 & E1 & U1).
  { destruct (decide (mapped s pt a)) as [Hm|Hm].
    - destruct (node s pt (path a)) as [q|] eqn:Eq; [|unfold lpte in Hm; by rewrite Eq in Hm].
      apply unmap_page; [done..|lia|done|done].
    - exists s. split.
      + destruct (node s pt (path a)) as [q|] eqn:Eq; [|done]. cbn [fmap option_fmap option_map]. unfold unmap_entry.
        rewrite (bind_Ret _ _ _ _ _ (run_get s)), (lpte_at s pt a q Eq). by destruct (has _ _).
      + apply unmapped_refl; [done..|]. intros va _ Hin. rewrite (lpte_page s pt va a); [done|by apply same_page]. }
  step_with E1. assert ((a + PGSIZE) mod PGSIZE = 0) as Hal' by (unfold PGSIZE in *; Z.to_euclidean_division_equations; lia).
  pose proof (unmapped_user _ _ _ _ _ _ Hal Hal' ltac:(lia) Hus U1) as Hus1.
  destruct (IH (a + PGSIZE) s1 (um_k _ _ _ _ _ _ U1) (um_pt _ _ _ _ _ _ U1) Hus1 Hal') as (s2 & E2 & U2); [lia..|].
  exists s2. split; [done|]. replace (a + Z.succ (Z.of_nat n) * PGSIZE) with (a + PGSIZE + Z.of_nat n * PGSIZE) by lia.
  apply (unmapped_union _ a (a + PGSIZE) (a + PGSIZE) (a + PGSIZE + Z.of_nat n * PGSIZE) _ _ _ s1); [lia| |lia|lia|done..].
  intros va va' H1 H2. unfold PGSIZE in *. Z.to_euclidean_division_equations. lia.
Qed.

(** ** The calls with their arguments checked *)

Lemma mappages_run pt va size pa perm s :
  k_ok kend s → pt_ok s pt → 0 ≤ va → 0 < size → va + size ≤ MAXVA →
  0 ≤ pa → pa + size + 2 * PGSIZE ≤ 2 ^ 56 → 0 ≤ perm < 2 ^ 10 →
  map_result (PGROUNDDOWN va) (PGROUNDDOWN (va + size - 1)) pa perm s pt (mappages pt va size pa perm s).
Proof.
  intros Hk Hok Hva Hsz Hmax Hpa Hpa2 Hperm. unfold mappages. assert (MAXVA = 2 ^ 38) as Em by done.
  rewrite u64_small by lia. set (a := PGROUNDDOWN va). set (last := PGROUNDDOWN (va + size - 1)).
  assert (a = va / PGSIZE * PGSIZE) as Ea by apply PGROUNDDOWN_eq.
  assert (last = (va + size - 1) / PGSIZE * PGSIZE) as El by apply PGROUNDDOWN_eq.
  set (n := Z.to_nat ((last - a) / PGSIZE)).
  assert (last = a + Z.of_nat n * PGSIZE ∧ a ≤ last) as [E Hle].
  { unfold n. rewrite Ea, El. unfold PGSIZE in *. Z.to_euclidean_division_equations. lia. }
  destruct (Z.leb_spec a last); [|lia].
  replace (Z.to_nat ((last - a) / PGSIZE + 1)) with (S n).
  2:{ unfold n. assert (0 ≤ (last - a) / PGSIZE) by (apply Z.div_pos; [lia|done]). lia. }
  rewrite E. apply mappages_loop_run; [by apply (ko_pos kend s)|done|done|apply PGROUNDDOWN_aligned|..]; try done.
  - rewrite Ea. unfold PGSIZE. Z.to_euclidean_division_equations. lia.
  - rewrite Nat2Z.inj_succ, Z.mul_succ_l, Z.add_assoc, <- E, El, Em. unfold PGSIZE in *.
    Z.to_euclidean_division_equations. lia.
  - rewrite Nat2Z.inj_succ, Z.mul_succ_l. assert (Z.of_nat n * PGSIZE = last - a) as -> by lia.
    rewrite El, Ea. unfold PGSIZE in *. Z.to_euclidean_division_equations. lia.
Qed.

(** One page. *)
Lemma mappages_page pt a pa perm s :
  k_ok kend s → pt_ok s pt → a mod PGSIZE = 0 → 0 ≤ a < MAXVA →
  valid kend pa → 0 ≤ perm < 2 ^ 10 → ¬ mapped s pt a →
  ∃ r s', run (mappages pt a PGSIZE pa perm) s r s' ∧ frame s pt s' ∧
    (r = 0 ∧ (∀ va, 0 ≤ va < MAXVA →
                lpte s' pt va = if decide (a ≤ va < a + PGSIZE) then new_pte pa perm else lpte s pt va) ∨
     r = -1 ∧ ∀ va, 0 ≤ va < MAXVA → lpte s' pt va = lpte s pt va).
Proof.
  intros Hk Hok Hal Ha (Hpal & Hplo & Hphi) Hperm Hno. pose proof (ko_pos kend s Hk) as Hpos.
  assert (MAXVA = 2 ^ 38) as Em by done. assert (PHYSTOP < 2 ^ 33) as Hps by done.
  pose proof (mappages_run pt a PGSIZE pa perm s Hk Hok) as H.
  assert (PGROUNDDOWN a = a) as Ea by (rewrite <- (Z.add_0_r a) at 1; apply PGROUNDDOWN_in; [done|unfold PGSIZE; lia]).
  assert (PGROUNDDOWN (a + PGSIZE - 1) = a) as El by (replace (a + PGSIZE - 1) with (a + 4095) by (unfold PGSIZE; lia); apply PGROUNDDOWN_in; [done|unfold PGSIZE; lia]).
  rewrite Ea, El in H. specialize (H ltac:(lia) ltac:(done)).
  assert (a + PGSIZE ≤ MAXVA) as Hm by (rewrite Em in *; unfold PGSIZE in *; Z.to_euclidean_division_equations; lia).
  specialize (H Hm ltac:(lia) ltac:(unfold PGSIZE in *; lia) Hperm).
  destruct (mappages pt a PGSIZE pa perm s) as [[r s']|m|]; [|destruct H as (_ & va & Hva & Hv)|done].
  - exists r, s'. split; [done|]. destruct H as [F [(-> & _ & Hmap)|(-> & _ & b & Hb & _ & Hmap)]]; (split; [done|]).
    + left. split; [done|]. intros va Hva. rewrite Hmap by done. case_decide as Hd; [|done].
      rewrite (PGROUNDDOWN_eq va), (proj2 (same_page va a Hal) Hd), <- PGROUNDDOWN_eq, Ea. by rewrite Z.sub_diag, Z.add_0_r.
    + right. split; [done|]. intros va Hva. rewrite Hmap by done. by rewrite decide_False by lia.
  - destruct Hno. rewrite <- (lpte_page s pt va a); [done|by apply same_page].
Qed.

Lemma uvmunmap_run do_free pt a npages s :
  k_ok kend s → pt_ok s pt → user_ok s pt → a mod PGSIZE = 0 → 0 ≤ a → 0 ≤ npages → a + npages * PGSIZE ≤ USERTOP →
  ∃ s', run (uvmunmap kend pt a npages do_free) s () s' ∧ unmapped do_free a (a + npages * PGSIZE) s pt s' ∧ user_ok s' pt.
Proof.
  intros Hk Hok Hus Hal Ha Hn Hle. unfold uvmunmap. rewrite Hal. change (negb (0 =? 0)) with false. cbv iota.
  assert (USERTOP < 2 ^ 38) as Em by done. pose proof (Z.mul_nonneg_nonneg npages PGSIZE Hn ltac:(done)).
  rewrite u64_small by lia. replace (a + npages * PGSIZE - a) with (npages * PGSIZE) by lia. rewrite Z.div_mul by done.
  destruct (uvmunmap_loop_run do_free pt (Z.to_nat npages) a s) as (s' & E & U); [done..|by rewrite Z2Nat.id by lia|].
  rewrite Z2Nat.id in U by lia. exists s'. split_and!; [done..|]. eapply unmapped_user; [exact Hal| |exact Hle|done|exact U].
  unfold PGSIZE in *. Z.to_euclidean_division_equations. lia.
Qed.

(** ** A new address space *)

Lemma new_root_ok s pt :
  k_ok kend s → valid kend pt → pg_refs kend s pt = 1 → k_page s pt = page_of 0 →
  pt_ok s pt ∧ user_ok s pt ∧ ∀ va, lpte s pt va = 0.
Proof.
  intros Hk Hv Hr Hz. assert (∀ j, entry s pt j = 0) as He.
  { intros j. unfold entry. rewrite Hz. apply ld_replicate_0. }
  assert (∀ π, node s pt π = if decide (π = []) then Some pt else None) as Hn.
  { induction π as [|j π IH] using rev_ind; [done|]. rewrite node_snoc, IH.
    rewrite (decide_False (P := π ++ [j] = [])) by (by destruct π).
    case_decide; [|done]. simpl. unfold child. by rewrite He. }
  assert (∀ va, lpte s pt va = 0) as Hl by (intros va; unfold lpte; by rewrite Hn).
  split_and!; [|split; intros va; by rewrite Hl|done]. split.
  - intros π p _. rewrite Hn. case_decide; [|done]. intros [= <-]. split_and!; [done| |done].
    rewrite Hz. unfold page_of. apply length_replicate.
  - intros π ρ p _ _. rewrite !Hn. by repeat case_decide; subst.
Qed.

Lemma uvmcreate_run s :
  k_ok kend s →
  (∃ pt s', run uvmcreate s (Some pt) s' ∧ k_ok kend s' ∧ pt_ok s' pt ∧ user_ok s' pt ∧ (∀ va, lpte s' pt va = 0) ∧
    pg_refs kend s pt = 0 ∧ (∀ r, pg_refs kend s' r = fupd pt 1 (pg_refs kend s) r)) ∨
  (run uvmcreate s None s ∧ concat (k_free s) = []).
Proof.
  intros Hk. unfold uvmcreate. destruct (kalloc_page s Hk) as [(q & s1 & E1 & Hk1 & Hv & Hz & Hr1 & Hp1)|[E1 Hnil]].
  - left. exists q, (s1 <| k_page ::= fupd q (page_of 0) |>). rewrite (bind_Ret _ _ _ _ _ E1). unfold fill.
    rewrite (bind_Ret _ _ _ _ _ (run_modify _ _)). pose proof (k_ok_page (fupd q (page_of 0)) s1 Hk1) as Hk2.
    destruct (new_root_ok _ q Hk2 Hv) as (? & ? & ?).
    + change (pg_refs kend s1 q = 1). by rewrite Hr1, fupd_eq.
    + cbn [k_page update field_set]. by rewrite fupd_eq.
    + split_and!; done.
  - right. by rewrite (bind_Ret _ _ _ _ _ E1).
Qed.
End tables.
