(* ===== verification/VmUser.v ===== *)
(** * vm.c: user address spaces

    The properties of the page-table code of [Vm]: ranges mapped and unmapped,
    address spaces grown all or nothing, copies between kernel and user
    memory, and the copy-on-write fault of kalloc.c. *)

From stdpp Require Import gmap.
From S2P Require Import Prelude Bytes PageAlloc Kalloc Vm.

Abbreviation mapped s pt va := (has (lpte s pt va) PTE_V = true).
Abbreviation page_at s pt va := (PTE2PA (lpte s pt va)).

(** ** Entries *)

Lemma pte_or_low q f n : 0 ≤ n < 10 → Z.testbit (Z.lor (PA2PTE q) f) n = Z.testbit f n.
Proof. intros Hn. unfold PA2PTE. by rewrite Z.lor_spec, Z.shiftl_spec_low by lia. Qed.

Lemma new_pte_lor q perm : new_pte q perm = Z.lor (PA2PTE q) (Z.lor perm PTE_V).
Proof. unfold new_pte. by rewrite Z.lor_assoc. Qed.

Lemma perm_V perm : 0 ≤ perm < 2 ^ 10 → 0 ≤ Z.lor perm PTE_V < 2 ^ 10.
Proof. intros H. by apply word_lor. Qed.

Lemma new_pte_mapped q perm : has (new_pte q perm) PTE_V = true.
Proof. rewrite has_V, new_pte_lor, pte_or_low by lia. rewrite Z.lor_spec. unfold PTE_V. apply orb_true_r. Qed.

Lemma new_pte_pa kend q perm : 0 < kend → valid kend q → 0 ≤ perm < 2 ^ 10 → PTE2PA (new_pte q perm) = q.
Proof. intros Hk Hv Hp. rewrite new_pte_lor. by apply (pte_new_low kend); [| |apply perm_V]. Qed.

Lemma new_pte_flags q perm : 0 ≤ perm < 2 ^ 10 → PTE_FLAGS (new_pte q perm) = Z.lor perm PTE_V.
Proof.
  intros Hp. pose proof (perm_V perm Hp) as Hv. unfold PTE_FLAGS. rewrite new_pte_lor. apply Z.bits_inj'. intros n Hn.
  rewrite Z.land_spec. change 0x3FF with (Z.ones 10). rewrite Z.testbit_ones_nonneg by lia.
  destruct (Z.ltb_spec n 10) as [Hlt|Hge]; [by rewrite pte_or_low, andb_true_r by lia|]. rewrite andb_false_r.
  symmetry. apply (word_bits 10); [done..|lia].
Qed.

(** ** Growing an address space *)

Definition user_perm : Z := Z.lor (Z.lor (Z.lor PTE_W PTE_X) PTE_R) PTE_U.

(** [perm] is a leaf: more than the valid bit. *)
Definition leaf_perm (perm : Z) : Prop := 0 ≤ perm < 2 ^ 10 ∧ Z.lor perm PTE_V ≠ PTE_V.

Section grow.
Context (kend pt perm : Z) (Hperm : leaf_perm perm).
Implicit Types (s : kstate) (q : Z).

Lemma user_ok_ext s s' :
  user_ok kend s pt → (∀ va, 0 ≤ va < MAXVA → lpte s' pt va = lpte s pt va) →
  (∀ va, 0 ≤ va < USERTOP → mapped s pt va →
     pg_refs kend s' (page_at s pt va) ≠ 0 ∧ off_table s' pt (page_at s pt va)) → user_ok kend s' pt.
Proof.
  intros [Hleaf Hpg Hinj] Hl' Hp. assert (∀ va, 0 ≤ va < USERTOP → lpte s' pt va = lpte s pt va) as Hl by (intros; by apply Hl', user_va).
  split.
  - intros va Hva. rewrite Hl by done. by apply Hleaf.
  - intros va Hva. rewrite Hl by done. intros Hm. destruct (Hpg va Hva Hm) as (? & _ & _), (Hp va Hva Hm). done.
  - intros va va' Hva Hva'. rewrite !Hl by done. by apply Hinj.
Qed.

(** The address space [s0] grown with fresh zeroed pages from [a0] to [a]. *)
Record grown s0 (a0 a : Z) s : Prop := Grown {
  gw_k : k_ok kend s;
  gw_pt : pt_ok kend s pt;
  gw_user : user_ok kend s pt;
  gw_top : a ≤ USERTOP;
  gw_out : ∀ va, 0 ≤ va < MAXVA → ¬ a0 ≤ va < a → lpte s pt va = lpte s0 pt va;
  gw_in : ∀ va, 0 ≤ va < MAXVA → a0 ≤ va < a → ∃ q,
    lpte s pt va = new_pte q perm ∧ valid kend q ∧ pg_refs kend s0 q = 0 ∧ pg_refs kend s q = 1 ∧
    k_page s q = page_of 0;
  gw_keep : ∀ q, pg_refs kend s0 q ≠ 0 →
    pg_refs kend s q = pg_refs kend s0 q ∧ (off_table s0 pt q → k_page s q = k_page s0 q ∧ off_table s pt q);
  gw_own : ∀ q, pg_refs kend s0 q = 0 → pg_refs kend s q ≠ 0 →
    (∃ π, path_ok π ∧ node s pt π = Some q) ∨ (∃ va, 0 ≤ va < MAXVA ∧ a0 ≤ va < a ∧ page_at s pt va = q);
}.

Lemma grown_refl s a : k_ok kend s → pt_ok kend s pt → user_ok kend s pt → a ≤ USERTOP → grown s a a s.
Proof. intros. split; try done; intros; lia. Qed.

(** A page [q] taken from the free pages and zeroed, not mapped yet. *)
Record fresh s q s2 : Prop := Fresh {
  fz_valid : valid kend q;
  fz_free : pg_refs kend s q = 0;
  fz_k : k_ok kend s2;
  fz_pt : pt_ok kend s2 pt;
  fz_user : user_ok kend s2 pt;
  fz_lpte : ∀ va, lpte s2 pt va = lpte s pt va;
  fz_nodes : ∀ π, path_ok π → node s2 pt π = node s pt π;
  fz_refs : ∀ r, pg_refs kend s2 r = fupd q 1 (pg_refs kend s) r;
  fz_data : ∀ r, k_page s2 r = fupd q (page_of 0) (k_page s) r;
}.

Lemma fresh_zero s :
  k_ok kend s → pt_ok kend s pt → user_ok kend s pt →
  (∃ q s1, run kalloc s (Some q) s1 ∧ fresh s q (s1 <| k_page ::= fupd q (page_of 0) |>)) ∨ run kalloc s None s.
Proof.
  intros Hk Hok Hus. destruct (kalloc_page kend s Hk) as [(q & s1 & E1 & Hk1 & Hv & Hz & Hr1 & Hp1)|[E1 _]]; [left|by right].
  exists q, s1. split; [done|]. set (s2 := s1 <| k_page ::= fupd q (page_of 0) |>).
  assert (∀ r, k_page s2 r = fupd q (page_of 0) (k_page s) r) as Hp2.
  { intros r. unfold s2. cbn [k_page update field_set]. rewrite Hp1. unfold fupd. by repeat case_decide. }
  assert (∀ r, pg_refs kend s2 r = fupd q 1 (pg_refs kend s) r) as Hr2 by done.
  destruct (fresh_ext kend s pt s2 q Hok Hz Hr2) as [_ Hext]; [intros r Hr; by rewrite Hp2, fupd_ne|].
  assert (∀ π p, path_ok π → node s pt π = Some p → k_page s2 p = k_page s p) as Hext1 by (intros; by eapply Hext).
  assert (∀ π, path_ok π → node s2 pt π = node s pt π) as Hn by (intros π; by apply node_ext).
  assert (∀ va, lpte s2 pt va = lpte s pt va) as Hl by (intros va; by apply lpte_ext).
  split; try done; [by apply k_ok_page|by apply (pt_ok_ext kend s)|].
  apply (user_ok_ext s); [done..|]. intros va Hva Hm. destruct (us_page _ _ _ Hus va Hva Hm) as (_ & Hr & Hoff). split.
  - rewrite Hr2, fupd_ne; [done|congruence].
  - intros π Hπ. rewrite Hn by done. by apply Hoff.
Qed.

Lemma fresh_ne s q s2 r : fresh s q s2 → pg_refs kend s r ≠ 0 → r ≠ q.
Proof. intros Hf Hr ->. by apply Hr, (fz_free _ _ _ Hf). Qed.

Lemma fresh_off s q s2 : pt_ok kend s pt → fresh s q s2 → off_table s2 pt q.
Proof.
  intros Hok Hf π Hπ. rewrite (fz_nodes _ _ _ Hf) by done. intros Hn.
  by apply (fresh_ne _ _ _ q Hf); [apply (pt_refs kend s pt π)|].
Qed.

Lemma off_table_ext s s2 q :
  (∀ π, path_ok π → node s2 pt π = node s pt π) → off_table s pt q → off_table s2 pt q.
Proof. intros Hn Ho π Hπ. rewrite Hn by done. by apply Ho. Qed.

(** A fresh page mapped at the unmapped page [a]. *)
Definition maps_page s2 (a q perm : Z) s3 : Prop :=
  frame kend s2 pt s3 ∧
  ∀ va, 0 ≤ va < MAXVA → lpte s3 pt va = if decide (a ≤ va < a + PGSIZE) then new_pte q perm else lpte s2 pt va.

Lemma user_ok_map s2 a q s3 :
  k_ok kend s2 → a mod PGSIZE = 0 → user_ok kend s2 pt → valid kend q → pg_refs kend s2 q ≠ 0 → off_table s2 pt q →
  (∀ va, 0 ≤ va < USERTOP → mapped s2 pt va → page_at s2 pt va ≠ q) → maps_page s2 a q perm s3 → user_ok kend s3 pt.
Proof.
  intros Hk Hal Hus Hv Hr Hoff Hne [F Hl]. pose proof (ko_pos kend s2 Hk) as Hpos.
  assert (PTE2PA (new_pte q perm) = q) as Eq by (apply (new_pte_pa kend); [done|done|apply Hperm]).
  split.
  - intros va Hva. rewrite Hl by (by apply user_va). case_decide; [|by apply (us_leaf _ _ _ Hus)].
    intros _. rewrite new_pte_flags; apply Hperm.
  - intros va Hva. rewrite Hl by (by apply user_va). case_decide as Hd.
    + intros _. rewrite Eq. split_and!; [done|by rewrite (fr_refs _ _ _ _ F)|by apply (frame_off kend s2)].
    + intros Hm. destruct (us_page _ _ _ Hus va Hva Hm) as (? & ? & ?).
      split_and!; [done|by rewrite (fr_refs _ _ _ _ F)|by apply (frame_off kend s2)].
  - intros va va' Hva Hva'. rewrite !Hl by (by apply user_va). repeat case_decide.
    + intros _ _ _. trans (a / PGSIZE); [|symmetry]; by apply same_page.
    + rewrite Eq. intros _ Hm E. by destruct (Hne va').
    + rewrite Eq. intros Hm _ E. by destruct (Hne va).
    + by apply (us_inj _ _ _ Hus).
Qed.

Lemma grown_map s0 a0 a s q s2 s3 :
  a0 ≤ a → a mod PGSIZE = 0 → 0 ≤ a → a + PGSIZE ≤ USERTOP → grown s0 a0 a s → fresh s q s2 → maps_page s2 a q perm s3 →
  grown s0 a0 (a + PGSIZE) s3.
Proof.
  intros Hle Hal Hpos Htop G Hf M. assert (0 < PGSIZE) as Hps by done. assert (0 ≤ a < MAXVA) as Ha by (apply user_va; lia). pose proof M as [F Hl]. pose proof (fresh_off s q s2 (gw_pt _ _ _ _ G) Hf) as Hoff.
  assert (pg_refs kend s2 q = 1) as Hrq by (by rewrite (fz_refs _ _ _ Hf), fupd_eq).
  assert (∀ r, pg_refs kend s r ≠ 0 → pg_refs kend s2 r = pg_refs kend s r ∧ k_page s2 r = k_page s r) as Hsame.
  { intros r Hr. pose proof (fresh_ne s q s2 r Hf Hr). by rewrite (fz_refs _ _ _ Hf), (fz_data _ _ _ Hf), !fupd_ne. }
  assert (∀ r, pg_refs kend s r ≠ 0 → pg_refs kend s3 r = pg_refs kend s r) as Hr3.
  { intros r Hr. destruct (Hsame r Hr) as [E _]. by rewrite (fr_refs _ _ _ _ F), E by (by rewrite E). }
  assert (∀ r, pg_refs kend s r ≠ 0 → off_table s pt r → k_page s3 r = k_page s r ∧ off_table s3 pt r) as Hd3.
  { intros r Hr Ho. destruct (Hsame r Hr) as [E Ed]. pose proof (off_table_ext s s2 r (fz_nodes _ _ _ Hf) Ho).
    rewrite (fr_data _ _ _ _ F), Ed by (done || by rewrite E). split; [done|]. by apply (frame_off kend s2); [|rewrite E|]. }
  assert (pg_refs kend s0 q = 0) as Hq0.
  { destruct (decide (pg_refs kend s0 q = 0)) as [|Hne]; [done|]. destruct (gw_keep _ _ _ _ G q Hne) as [E _].
    by rewrite <- E, (fz_free _ _ _ Hf). }
  split; [apply F|apply F|..].
  - apply (user_ok_map s2 a q); [apply Hf|done|apply Hf|apply Hf|by rewrite Hrq|done| |done].
    intros va Hva. rewrite (fz_lpte _ _ _ Hf). intros Hm. apply (fresh_ne s q s2); [done|].
    by apply (us_page _ _ _ (gw_user _ _ _ _ G)).
  - done.
  - intros va Hva Hout. rewrite Hl, decide_False, (fz_lpte _ _ _ Hf) by (done || lia). apply (gw_out _ _ _ _ G); [done|lia].
  - intros va Hva Hin. rewrite Hl by done. case_decide as Hd.
    + exists q. split_and!; [done|apply Hf|done|by rewrite (fr_refs _ _ _ _ F), Hrq; rewrite ?Hrq|].
      rewrite (fr_data _ _ _ _ F), (fz_data _ _ _ Hf), fupd_eq; [done|by rewrite Hrq|done].
    + rewrite (fz_lpte _ _ _ Hf). destruct (gw_in _ _ _ _ G va Hva ltac:(lia)) as (r & El & Hv & Hz & Hr & Hd').
      assert (page_at s pt va = r) as Er by (rewrite El; apply (new_pte_pa kend _ _ (ko_pos kend s (gw_k _ _ _ _ G))); [done|apply Hperm]).
      exists r. split_and!; [done|done|done|by rewrite Hr3; rewrite ?Hr|]. rewrite <- Hd'. apply Hd3; [by rewrite Hr|].
      rewrite <- Er. apply (us_page _ _ _ (gw_user _ _ _ _ G) va ltac:(lia)). rewrite El. apply new_pte_mapped.
  - intros r Hr. destruct (gw_keep _ _ _ _ G r Hr) as [E Hd]. rewrite Hr3, E by (by rewrite E). split; [done|].
    intros Ho. destruct (Hd Ho) as [Ed Ho']. destruct (Hd3 r) as [Ed' ?]; [by rewrite E|done|]. by rewrite Ed'.
  - intros r Hz Hr. destruct (decide (pg_refs kend s2 r = 0)) as [Hz2|Hz2]; [left; by apply (fr_own _ _ _ _ F)|].
    destruct (decide (r = q)) as [->|Hne].
    + right. exists a. split_and!; [lia|lia|lia|unfold PGSIZE; lia|]. rewrite Hl by done.
      rewrite decide_True by (unfold PGSIZE; lia). apply (new_pte_pa kend); [apply (ko_pos kend s), G|apply Hf|apply Hperm].
    + rewrite (fz_refs _ _ _ Hf), fupd_ne in Hz2 by done.
      destruct (gw_own _ _ _ _ G r Hz Hz2) as [(π & Hπ & Hn)|(va & Hva & Hin & E)].
      * left. exists π. split; [done|]. apply (fr_keep _ _ _ _ F); [done|]. by rewrite (fz_nodes _ _ _ Hf).
      * right. exists va. split_and!; [lia|lia|lia|unfold PGSIZE; lia|].
        by rewrite Hl, decide_False, (fz_lpte _ _ _ Hf) by (done || lia).
Qed.

Lemma grown_frame s0 a0 a s s' :
  grown s0 a0 a s → frame kend s pt s' → (∀ va, 0 ≤ va < MAXVA → lpte s' pt va = lpte s pt va) → grown s0 a0 a s'.
Proof.
  intros G F Hl. pose proof (gw_top _ _ _ _ G) as Htop. assert (∀ va, 0 ≤ va < USERTOP → mapped s pt va → pg_refs kend s (page_at s pt va) ≠ 0 ∧ off_table s pt (page_at s pt va)) as Hpg.
  { intros va Hva Hm. apply (us_page _ _ _ (gw_user _ _ _ _ G) va Hva Hm). }
  split; [apply F|apply F|..].
  - apply (user_ok_ext s); [apply G|done|]. intros va Hva Hm. destruct (Hpg va Hva Hm).
    split; [by rewrite (fr_refs _ _ _ _ F)|by apply (frame_off kend s)].
  - done.
  - intros va Hva Ho. rewrite Hl by done. by apply (gw_out _ _ _ _ G).
  - intros va Hva Hin. destruct (gw_in _ _ _ _ G va Hva Hin) as (q & El & Hv & Hz & Hr & Hd). exists q.
    destruct (Hpg va ltac:(lia)) as [_ Ho]; [rewrite El; apply new_pte_mapped|].
    rewrite El, (new_pte_pa kend) in Ho by (done || apply Hperm || apply (ko_pos kend s), G).
    split_and!; [by rewrite Hl|done|done|by rewrite (fr_refs _ _ _ _ F); rewrite ?Hr|].
    by rewrite (fr_data _ _ _ _ F); rewrite ?Hr.
  - intros q Hq. destruct (gw_keep _ _ _ _ G q Hq) as [E Hd]. rewrite (fr_refs _ _ _ _ F), E by (by rewrite E).
    split; [done|]. intros Ho. destruct (Hd Ho) as [Ed Ho']. rewrite (fr_data _ _ _ _ F), Ed by (done || by rewrite E).
    split; [done|]. by apply (frame_off kend s); [|rewrite E|].
  - intros q Hz Hq. destruct (decide (pg_refs kend s q = 0)) as [Hzs|Hzs]; [left; by apply (fr_own _ _ _ _ F)|].
    destruct (gw_own _ _ _ _ G q Hz Hzs) as [(π & Hπ & Hn)|(va & Hva & Hin & E)].
    + left. exists π. split; [done|]. by apply (fr_keep _ _ _ _ F).
    + right. exists va. by rewrite Hl.
Qed.

(** Giving the fresh page back. *)
Lemma undo_frame s q s2 s3 :
  pt_ok kend s pt → fresh s q s2 → frame kend s2 pt s3 →
  ∃ s4, run (kfree kend q) s3 () s4 ∧ frame kend s pt s4 ∧ ∀ va, lpte s4 pt va = lpte s3 pt va.
Proof.
  intros Hok Hf F. pose proof (fresh_off s q s2 Hok Hf) as Hoff.
  assert (pg_refs kend s2 q = 1) as Hrq by (by rewrite (fz_refs _ _ _ Hf), fupd_eq).
  assert (pg_refs kend s3 q = 1) as Hrq3 by (by rewrite (fr_refs _ _ _ _ F), Hrq; rewrite ?Hrq).
  destruct (release_run kend true s3 q (fr_k _ _ _ _ F)) as (s4 & E4 & Hk4 & Hr4 & Hp4); [apply Hf|by rewrite Hrq3|].
  rewrite Hrq3 in Hr4. simpl in Hr4. pose proof (frame_off kend s2 pt s3 q F ltac:(by rewrite Hrq) Hoff) as Hoff3.
  assert (∀ π p, path_ok π → node s3 pt π = Some p → k_page s4 p = k_page s3 p ∧ pg_refs kend s4 p = pg_refs kend s3 p) as Hext.
  { intros π p Hπ Hn. assert (p ≠ q) by (intros ->; by apply (Hoff3 π)). by rewrite Hp4, Hr4, fupd_ne. }
  assert (∀ π p, path_ok π → node s3 pt π = Some p → k_page s4 p = k_page s3 p) as Hext1 by (intros; by eapply Hext).
  assert (∀ π, path_ok π → node s4 pt π = node s3 pt π) as Hn4 by (intros; by apply node_ext).
  assert (∀ r, pg_refs kend s r ≠ 0 → pg_refs kend s2 r = pg_refs kend s r ∧ r ≠ q ∧ k_page s2 r = k_page s r) as Hs2.
  { intros r Hr. pose proof (fresh_ne s q s2 r Hf Hr). by rewrite (fz_refs _ _ _ Hf), (fz_data _ _ _ Hf), !fupd_ne. }
  exists s4. split_and!; [done| |intros; by apply lpte_ext]. split; [done|by apply (pt_ok_ext kend s3), F|..].
  - intros π r Hπ Hn. rewrite Hn4 by done. apply (fr_keep _ _ _ _ F); [done|]. by rewrite (fz_nodes _ _ _ Hf).
  - intros π r Hπ. rewrite Hn4 by done. intros Hn. destruct (fr_new _ _ _ _ F π r Hπ Hn) as [Hn2|Hz].
    + left. by rewrite <- (fz_nodes _ _ _ Hf).
    + right. rewrite (fz_refs _ _ _ Hf) in Hz. revert Hz. unfold fupd. by case_decide.
  - intros r Hr. destruct (Hs2 r Hr) as (E & Hne & _). rewrite Hr4, fupd_ne by done.
    by rewrite (fr_refs _ _ _ _ F), E by (by rewrite E).
  - intros r Hr Ho. destruct (Hs2 r Hr) as (E & Hne & Ed). rewrite Hp4, (fr_data _ _ _ _ F), Ed; [done|by rewrite E| |done].
    by apply (off_table_ext s s2 r (fz_nodes _ _ _ Hf)).
  - intros r Hz. rewrite Hr4. unfold fupd. case_decide as Hd; [done|]. intros Hr.
    destruct (fr_own _ _ _ _ F r) as (π & Hπ & Hn); [by rewrite (fz_refs _ _ _ Hf), fupd_ne|done|].
    exists π. by rewrite Hn4.
Qed.

(** ** uvmdealloc and uvmalloc *)

Lemma PGROUNDUP_eq x : 0 ≤ x ≤ MAXVA → PGROUNDUP x = (x + 4095) / PGSIZE * PGSIZE.
Proof.
  intros Hx. change MAXVA with (2 ^ 38) in Hx. unfold PGROUNDUP. rewrite u64_small by (unfold PGSIZE; lia).
  fold (PGROUNDDOWN (x + PGSIZE - 1)). rewrite PGROUNDDOWN_eq. by replace (x + PGSIZE - 1) with (x + 4095) by (unfold PGSIZE; lia).
Qed.

Lemma PGROUNDUP_spec x :
  0 ≤ x ≤ MAXVA → PGROUNDUP x mod PGSIZE = 0 ∧ x ≤ PGROUNDUP x ≤ MAXVA ∧ (x mod PGSIZE = 0 → PGROUNDUP x = x).
Proof.
  intros Hx. rewrite PGROUNDUP_eq by done. change MAXVA with (2 ^ 38) in *. unfold PGSIZE.
  split_and!; [apply Z_mod_mult|Z.to_euclidean_division_equations; lia..].
Qed.

Lemma PGROUNDUP_id x : 0 ≤ x ≤ MAXVA → x mod PGSIZE = 0 → PGROUNDUP x = x.
Proof. intros Hx. apply PGROUNDUP_spec, Hx. Qed.

Lemma user_size x : 0 ≤ x ≤ USERTOP → 0 ≤ x ≤ MAXVA ∧ PGROUNDUP x ≤ USERTOP.
Proof.
  intros Hx. assert (0 ≤ x ≤ MAXVA) as Hm by (unfold USERTOP, PGSIZE in *; lia). split; [done|].
  rewrite PGROUNDUP_eq by done. change USERTOP with (67108862 * 4096) in *. unfold PGSIZE.
  Z.to_euclidean_division_equations. lia.
Qed.

Lemma uvmdealloc_run s oldsz newsz :
  k_ok kend s → pt_ok kend s pt → user_ok kend s pt → 0 ≤ newsz < oldsz → oldsz ≤ USERTOP →
  ∃ s', run (uvmdealloc kend pt oldsz newsz) s newsz s' ∧
    unmapped kend true (PGROUNDUP newsz) (PGROUNDUP oldsz) s pt s' ∧ user_ok kend s' pt.
Proof.
  intros Hk Hok Hus Hsz Hmax. destruct (user_size oldsz ltac:(lia)) as [Hmo Hto], (user_size newsz ltac:(lia)) as [Hmn _].
  unfold uvmdealloc. destruct (Z.leb_spec oldsz newsz); [lia|].
  destruct (PGROUNDUP_spec newsz ltac:(lia)) as (Han & Hn & _). destruct (PGROUNDUP_spec oldsz ltac:(lia)) as (Hao & Ho & _).
  destruct (Z.ltb_spec (PGROUNDUP newsz) (PGROUNDUP oldsz)) as [Hlt|Hge].
  - set (n := (PGROUNDUP oldsz - PGROUNDUP newsz) / PGSIZE).
    assert (PGROUNDUP newsz + n * PGSIZE = PGROUNDUP oldsz ∧ 0 ≤ n < 2 ^ 31) as [En Hnr].
    { unfold n. change MAXVA with (2 ^ 38) in *. unfold PGSIZE in *. Z.to_euclidean_division_equations. lia. }
    rewrite i32_small, u64_small by lia. destruct (uvmunmap_run kend true pt (PGROUNDUP newsz) n s) as (s' & E & U & Hus');
      [done..|lia|lia|lia|]. rewrite En in U. exists s'. split_and!; [|done..]. by rewrite (bind_Ret _ _ _ _ _ E).
  - exists s. split_and!; [done| |done]. apply unmapped_refl; [done..|]. lia.
Qed.

(** The address space as it was, but for table pages added to it. *)
Record restored s0 s : Prop := Restored {
  rs_k : k_ok kend s;
  rs_pt : pt_ok kend s pt;
  rs_user : user_ok kend s pt;
  rs_lpte : ∀ va, 0 ≤ va < MAXVA → (mapped s pt va ↔ mapped s0 pt va) ∧ (mapped s0 pt va → lpte s pt va = lpte s0 pt va);
  rs_keep : ∀ q, pg_refs kend s0 q ≠ 0 → pg_refs kend s q = pg_refs kend s0 q ∧ (off_table s0 pt q → k_page s q = k_page s0 q);
  rs_own : ∀ q, pg_refs kend s0 q = 0 → pg_refs kend s q ≠ 0 → ∃ π, path_ok π ∧ node s pt π = Some q;
}.

(** Unmapping the whole growth brings the old address space back. *)
Lemma grown_unmapped s0 a0 a b s s' :
  a ≤ b → grown s0 a0 a s → unmapped kend true a0 b s pt s' → user_ok kend s' pt →
  (∀ va, 0 ≤ va < MAXVA → a0 ≤ va < b → ¬ mapped s0 pt va) → restored s0 s'.
Proof.
  intros Hle G U Hus Hun.
  assert (∀ va, 0 ≤ va < MAXVA → a0 ≤ va < a → ∃ q, page_at s pt va = q ∧ mapped s pt va ∧ pg_refs kend s0 q = 0 ∧ pg_refs kend s q = 1) as Hin.
  { intros va Hva Hi. destruct (gw_in _ _ _ _ G va Hva Hi) as (q & El & Hv & Hz & Hr & _). exists q. rewrite El.
    split_and!; [apply (new_pte_pa kend); [apply (ko_pos kend s), G|done|apply Hperm]|apply new_pte_mapped|done..]. }
  assert (∀ va, 0 ≤ va < MAXVA → a0 ≤ va < b → mapped s pt va → a0 ≤ va < a) as Hlow.
  { intros va Hva Hi Hm. destruct (decide (va < a)); [lia|]. destruct (Hun va Hva Hi). by rewrite <- (gw_out _ _ _ _ G) by (done || lia). }
  split; [apply U|apply U|done|..].
  - intros va Hva. rewrite (um_lpte _ _ _ _ _ _ _ U) by done. case_decide as Hd.
    + split; [split; [done|]|]; intros Hm; destruct (Hun va Hva); naive_solver.
    + assert (¬ a0 ≤ va < a) as Ho by (intros Hi; destruct (Hin va Hva Hi) as (? & _ & ? & _); apply Hd; split; [lia|done]).
      by rewrite (gw_out _ _ _ _ G).
  - intros q Hq. destruct (gw_keep _ _ _ _ G q Hq) as [E' Hd]. destruct (um_keep _ _ _ _ _ _ _ U q) as [Eu Hdu].
    + intros va Hva Hi Hm <-. destruct (Hin va Hva (Hlow va Hva Hi Hm)) as (r & <- & _ & Hz & _). done.
    + rewrite Eu, E'. split; [done|]. intros Ho. destruct (Hd Ho) as [<- ?]. by apply Hdu.
  - intros q Hz Hq. assert (∀ va, 0 ≤ va < MAXVA → a0 ≤ va < b → mapped s pt va → page_at s pt va ≠ q) as Hnot.
    { intros va Hva Hi Hm <-. destruct (Hin va Hva (Hlow va Hva Hi Hm)) as (r & <- & _ & _ & Hr1).
      rewrite (um_drop _ _ _ _ _ _ _ U va Hva Hi Hm), Hr1 in Hq. done. }
    rewrite (proj1 (um_keep _ _ _ _ _ _ _ U q Hnot)) in Hq.
    destruct (gw_own _ _ _ _ G q Hz Hq) as [(π & Hπ & Hn)|(va & Hva & Hi & Eq)].
    + exists π. by rewrite (um_nodes _ _ _ _ _ _ _ U).
    + destruct (Hnot va Hva); [lia| |done]. by destruct (Hin va Hva Hi) as (_ & _ & ? & _).
Qed.

Lemma grown_dealloc s0 a0 a s :
  a0 mod PGSIZE = 0 → a mod PGSIZE = 0 → 0 ≤ a0 ≤ a → a ≤ USERTOP → grown s0 a0 a s →
  (∀ va, 0 ≤ va < MAXVA → a0 ≤ va < a → ¬ mapped s0 pt va) →
  ∃ r s', run (uvmdealloc kend pt a a0) s r s' ∧ restored s0 s'.
Proof.
  intros Hal0 Hal Hle Hmax G Hun. destruct (decide (a0 = a)) as [->|Hne].
  - exists a, s. unfold uvmdealloc. rewrite Z.leb_refl. split; [done|].
    apply (grown_unmapped s0 a a a s); [done|done| |apply G|done]. apply unmapped_refl; [apply G|apply G|lia].
  - destruct (uvmdealloc_run s a a0 (gw_k _ _ _ _ G) (gw_pt _ _ _ _ G) (gw_user _ _ _ _ G) ltac:(lia) Hmax) as (s' & E & U & Hus).
    destruct (user_size a ltac:(lia)), (user_size a0 ltac:(lia)).
    rewrite !PGROUNDUP_id in U by (done || lia). exists a0, s'. split; [done|]. by apply (grown_unmapped s0 a0 a a s).
Qed.

End grow.

Lemma user_perm_leaf : leaf_perm user_perm.
Proof. split; [split; [apply Z.leb_le|apply Z.ltb_lt]; reflexivity|by vm_compute]. Qed.

Section uvmalloc.
Context (kend pt : Z).
Implicit Types (s : kstate).
Lemma uvmalloc_loop_run s0 a0 newsz n a s :
  a0 mod PGSIZE = 0 → a mod PGSIZE = 0 → 0 ≤ a0 ≤ a → a ≤ PGROUNDUP newsz → 0 ≤ newsz ≤ USERTOP →
  newsz - a < Z.of_nat n * PGSIZE → grown kend pt user_perm s0 a0 a s →
  (∀ va, 0 ≤ va < MAXVA → a0 ≤ va < PGROUNDUP newsz → ¬ mapped s0 pt va) →
  ∃ r s', run (uvmalloc_loop kend n pt a a0 newsz) s r s' ∧
    (r = newsz ∧ grown kend pt user_perm s0 a0 (PGROUNDUP newsz) s' ∨ r = 0 ∧ restored kend pt s0 s').
Proof.
  intros Hal0. revert a s. induction n as [|n IH]; intros a s Hal Hle Hup Hn Hfuel G Hun; cbn [uvmalloc_loop];
    destruct (user_size newsz Hn) as [Hmx Htop];
    pose proof (PGROUNDUP_spec newsz Hmx) as (Hupal & Hupge & _); assert (0 < PGSIZE) as Hpos by done.
  { assert (a = PGROUNDUP newsz) as -> by (rewrite PGROUNDUP_eq in * by done; clear Htop Hn; unfold PGSIZE in *; Z.to_euclidean_division_equations; lia).
    exists newsz, s. split; [done|]. by left. }
  destruct (Z.ltb_spec a newsz) as [Hlt|Hge].
  2:{ assert (a = PGROUNDUP newsz) as -> by (rewrite PGROUNDUP_eq in * by done; clear Htop Hn; unfold PGSIZE in *; Z.to_euclidean_division_equations; lia).
      exists newsz, s. split; [done|]. by left. }
  assert (a + PGSIZE ≤ PGROUNDUP newsz) as Hnext by (unfold PGSIZE in *; Z.to_euclidean_division_equations; lia).
  assert (∀ s', grown kend pt user_perm s0 a0 a s' → ∃ r s2, run (_ ← uvmdealloc kend pt a a0; mret 0) s' r s2 ∧ r = 0 ∧ restored kend pt s0 s2) as Hback.
  { intros s' G'. destruct (grown_dealloc kend pt user_perm user_perm_leaf s0 a0 a s' Hal0 Hal Hle ltac:(lia) G') as (r & s2 & E & R).
    - intros va Hva Hi. apply Hun; [done|lia].
    - exists 0, s2. by rewrite (bind_Ret _ _ _ _ _ E). }
  destruct (fresh_zero kend pt s (gw_k _ _ _ _ _ _ _ G) (gw_pt _ _ _ _ _ _ _ G) (gw_user _ _ _ _ _ _ _ G)) as [(q & s1 & E1 & Hf)|E1].
  2:{ rewrite (bind_Ret _ _ _ _ _ E1). destruct (Hback s G) as (r & s2 & E & ? & ?). exists r, s2. split; [done|by right]. }
  rewrite (bind_Ret _ _ _ _ _ E1). unfold fill. rewrite (bind_Ret _ _ _ _ _ (run_modify _ _)).
  set (s2 := s1 <| k_page ::= fupd q (page_of 0) |>) in *.
  assert (¬ mapped s2 pt a) as Hnm.
  { rewrite (fz_lpte _ _ _ _ _ Hf), (gw_out _ _ _ _ _ _ _ G) by lia. apply Hun; lia. }
  destruct (mappages_page kend pt a q user_perm s2 (fz_k _ _ _ _ _ Hf) (fz_pt _ _ _ _ _ Hf)) as (r & s3 & E3 & F & [[-> Hl]|[-> Hl]]);
    [done|lia|apply Hf|done|done|..]; fold user_perm; rewrite (bind_Ret _ _ _ _ _ E3).
  - apply IH; [unfold PGSIZE in *; Z.to_euclidean_division_equations; lia|lia|done|done|lia| |done].
    apply (grown_map kend pt user_perm user_perm_leaf s0 a0 a s q s2); [lia|done|lia|lia|done..].
  - change (negb (-1 =? 0)) with true. cbv iota.
    destruct (undo_frame kend pt s q s2 s3 (gw_pt _ _ _ _ _ _ _ G) Hf F) as (s4 & E4 & F4 & Hl4). rewrite (bind_Ret _ _ _ _ _ E4).
    destruct (Hback s4) as (r & s5 & E & ? & ?); [|exists r, s5; split; [done|by right]].
    apply (grown_frame kend pt user_perm user_perm_leaf s0 a0 a s); [done..|]. intros va Hva. by rewrite Hl4, Hl, (fz_lpte _ _ _ _ _ Hf).
Qed.
End uvmalloc.

Lemma uvmalloc_run kend pt oldsz newsz s :
  k_ok kend s → pt_ok kend s pt → user_ok kend s pt → 0 ≤ oldsz ≤ newsz → newsz ≤ USERTOP →
  (∀ va, PGROUNDUP oldsz ≤ va < PGROUNDUP newsz → has (lpte s pt va) PTE_V = false) →
  ∃ r s', run (uvmalloc kend pt oldsz newsz) s r s' ∧
    (r = newsz ∧ grown kend pt user_perm s (PGROUNDUP oldsz) (PGROUNDUP newsz) s' ∨ r = 0 ∧ restored kend pt s s').
Proof.
  intros Hk Hok Hus Hsz Hmax Hun. unfold uvmalloc. destruct (Z.ltb_spec newsz oldsz); [lia|].
  destruct (user_size oldsz ltac:(lia)) as [Hmo Hto], (user_size newsz ltac:(lia)) as [Hmn _].
  destruct (PGROUNDUP_spec oldsz ltac:(lia)) as (Hal & Hge & _). assert (0 < PGSIZE) as Hpos by done.
  apply uvmalloc_loop_run; [done|done|lia| |lia| |by apply grown_refl|].
  - rewrite !PGROUNDUP_eq by lia. apply Z.mul_le_mono_nonneg_r; [done|]. apply Z.div_le_mono; [done|lia].
  - set (d := newsz - PGROUNDUP oldsz). pose proof (Z.div_mod d PGSIZE ltac:(done)). pose proof (Z.mod_pos_bound d PGSIZE Hpos).
    assert (-1 ≤ d / PGSIZE).
    { unfold d. rewrite PGROUNDUP_eq by lia. unfold PGSIZE. Z.to_euclidean_division_equations. lia. }
    rewrite Z2Nat.id by lia. lia.
  - intros va _ Hva. by rewrite Hun.
Qed.

(** ** Copy on write *)

(** The permissions [cowalloc] gives the private copy. *)
Definition cow_perm (pte : Z) : Z := Z.land (Z.lor (PTE_FLAGS (Z.land pte (Z.lnot PTE_V))) PTE_W) (Z.lnot PTE_F).

Lemma cow_perm_word pte : 0 ≤ pte < 2 ^ 64 → 0 ≤ cow_perm pte < 2 ^ 10.
Proof.
  intros Hp. unfold cow_perm. apply word_land, word_lor; [done..| |done]. unfold PTE_FLAGS. rewrite Z.land_comm.
  by apply word_land.
Qed.

(** Writable and not copy-on-write. *)
Definition private (pte : Z) : Prop := has pte PTE_V = true ∧ has pte PTE_W = true ∧ has pte PTE_F = false.

Lemma has_bit x n : 0 ≤ n → has x (Z.shiftl 1 n) = Z.testbit x n.
Proof. intros Hn. unfold has. by rewrite land_bit_zero, negb_involutive. Qed.

Lemma private_cow q pte : private (new_pte q (cow_perm pte)).
Proof.
  unfold private, PTE_V, PTE_W, PTE_F. rewrite !has_bit, new_pte_lor, !pte_or_low by lia.
  rewrite !Z.lor_spec. unfold cow_perm, PTE_V, PTE_W, PTE_F. rewrite !Z.land_spec, !Z.lnot_spec, !Z.lor_spec by lia.
  rewrite !flag_bit by lia. cbn. by rewrite !orb_true_r, andb_false_r.
Qed.

Lemma private_own pte : has pte PTE_V = true → private (Z.land (Z.lor pte PTE_W) (Z.lnot PTE_F)).
Proof.
  unfold private, PTE_V, PTE_W, PTE_F. rewrite !has_bit by lia. intros Hv.
  rewrite !Z.land_spec, !Z.lnot_spec, !Z.lor_spec, Hv by lia. rewrite !flag_bit by lia. cbn.
  by rewrite !orb_true_r, !andb_false_r.
Qed.

Lemma pa_own pte : PTE2PA (Z.land (Z.lor pte PTE_W) (Z.lnot PTE_F)) = PTE2PA pte.
Proof.
  unfold PTE2PA. f_equal. apply Z.bits_inj'. intros n Hn.
  rewrite !Z.shiftr_spec, Z.land_spec, Z.lnot_spec, Z.lor_spec by lia. unfold PTE_W, PTE_F. rewrite !flag_bit by lia.
  rewrite !bool_decide_false by lia. by rewrite orb_false_r, andb_true_r.
Qed.

(** ** Lookups *)

Lemma walkaddr_run s pt va :
  0 ≤ va → run (walkaddr pt va) s
    (if (va <? MAXVA) && has (lpte s pt va) PTE_V && has (lpte s pt va) PTE_U then page_at s pt va else 0) s.
Proof.
  intros Hva. unfold walkaddr. destruct (Z.leb_spec MAXVA va), (Z.ltb_spec va MAXVA); try lia; [done|].
  rewrite (bind_Ret _ _ _ _ _ (walk_find s pt va ltac:(lia))).
  destruct (node s pt (path va)) as [q|] eqn:Eq.
  - cbn [fmap option_fmap option_map]. rewrite (bind_Ret _ _ _ _ _ (run_get s)), (lpte_at s pt va q Eq).
    by destruct (has _ PTE_V), (has _ PTE_U).
  - cbn [fmap option_fmap option_map]. unfold lpte. by rewrite Eq.
Qed.

(** [walk] with allocation where the tables are all there. *)
Lemma walk_hit s pt va l p q :
  (l ≤ 2)%nat → node s pt (take (2 - l) (path va)) = Some p → node s pt (path va) = Some q →
  run (walk_from l p va true) s (Some (q, PX 0 va)) s.
Proof.
  revert p. induction l as [|l IH]; intros p Hl Hp Hq; cbn [walk_from].
  - change (take (2 - 0) (path va)) with (path va) in Hp. rewrite Hp in Hq. by injection Hq as ->.
  - rewrite (bind_Ret _ _ _ _ _ (run_get s)). rewrite has_V.
    pose proof (node_snoc s pt (take (2 - S l) (path va)) (PX (S l) va)) as Hn.
    rewrite <- path_level, Hp in Hn by done. simpl in Hn. unfold child in Hn.
    change (pte_ld (p, PX (S l) va) s) with (entry s p (PX (S l) va)).
    destruct (Z.testbit _ 0) eqn:Eb; cbn [negb]; [apply IH; [lia|done..]|].
    rewrite <- (take_drop (2 - l) (path va)) in Hq. unfold node in Hq. rewrite fold_left_app in Hq.
    fold (node s pt (take (2 - l) (path va))) in Hq. rewrite Hn in Hq. exfalso. revert Hq. by induction (drop _ _).
Qed.

Lemma run_pte_st q j v s : run (pte_st (q, j) v) s () (set_entry q j v s).
Proof. done. Qed.

Lemma mappages_hit s pt a q pa perm :
  a mod PGSIZE = 0 → 0 ≤ a < MAXVA → node s pt (path a) = Some q → ¬ mapped s pt a →
  run (mappages pt a PGSIZE pa perm) s 0 (set_entry q (PX 0 a) (new_pte pa perm) s).
Proof.
  intros Hal Ha Hq Hn. unfold mappages. assert (MAXVA = 2 ^ 38) as Em by done.
  rewrite u64_small by (unfold PGSIZE; lia).
  replace (PGROUNDDOWN (a + PGSIZE - 1)) with a.
  2:{ replace (a + PGSIZE - 1) with (a + 4095) by (unfold PGSIZE; lia). symmetry. apply PGROUNDDOWN_in; [done|unfold PGSIZE; lia]. }
  replace (PGROUNDDOWN a) with a.
  2:{ rewrite <- (Z.add_0_r a) at 2. symmetry. apply PGROUNDDOWN_in; [done|unfold PGSIZE; lia]. }
  rewrite Z.leb_refl, Z.sub_diag. change (Z.to_nat (0 / PGSIZE + 1)) with 1%nat. rewrite mappages_loop_S.
  unfold walk. destruct (Z.leb_spec MAXVA a); [lia|].
  rewrite (bind_Ret _ _ _ _ _ (walk_hit s pt a 2 pt q ltac:(done) eq_refl Hq)).
  rewrite (bind_Ret _ _ _ _ _ (run_get s)), (lpte_at s pt a q Hq). rewrite (not_true_is_false _ Hn).
  rewrite (bind_Ret _ _ _ _ _ (run_pte_st _ _ _ _)). by rewrite Z.eqb_refl.
Qed.

(** ** cowalloc *)

Section cow.
Context (kend pt : Z).
Implicit Types (s : kstate).

(** A page whose only reference is this mapping is kept. *)
Lemma cowalloc_own s va :
  k_ok kend s → pt_ok kend s pt → va mod PGSIZE = 0 → 0 ≤ va < MAXVA → 0 ≤ lpte s pt va < 2 ^ 64 →
  mapped s pt va → has (lpte s pt va) PTE_U = true → valid kend (page_at s pt va) → pg_refs kend s (page_at s pt va) = 1 →
  ∃ s', run (cowalloc kend pt va) s (page_at s pt va) s' ∧ frame kend s pt s' ∧
    ∀ va', 0 ≤ va' < MAXVA → lpte s' pt va' =
      if decide (va' / PGSIZE = va / PGSIZE) then Z.land (Z.lor (lpte s pt va) PTE_W) (Z.lnot PTE_F) else lpte s pt va'.
Proof.
  intros Hk Hok Hal Hva Hw Hm Hu Hv Hr. set (pte := lpte s pt va) in *. set (pa := PTE2PA pte) in *.
  destruct (node s pt (path va)) as [q|] eqn:Eq; [|unfold pte, lpte in Hm; by rewrite Eq in Hm].
  destruct (store_pte kend s pt va q (Z.lor pte PTE_W) Hk Hok Hva) as (F1 & N1 & L1);
    [by apply (word_lor 64)|done|].
  set (s1 := set_entry q (PX 0 va) (Z.lor pte PTE_W) s) in *.
  assert (node s1 pt (path va) = Some q) as Eq1 by (by rewrite N1 by apply path_path_ok).
  destruct (store_pte kend s1 pt va q (Z.land (Z.lor pte PTE_W) (Z.lnot PTE_F)) (fr_k _ _ _ _ F1) (fr_pt _ _ _ _ F1) Hva) as (F2 & _ & L2);
    [apply (word_land 64), word_lor; done|done|].
  eexists. split_and!; [|by eapply frame_trans|].
  - unfold cowalloc. rewrite Hal. change (negb (0 =? 0)) with false. cbv iota.
    rewrite (bind_Ret _ _ _ _ _ (walkaddr_run s pt va ltac:(lia))). fold pte pa.
    destruct (Z.ltb_spec va MAXVA); [|lia]. rewrite Hm, Hu. cbn [andb].
    pose proof (ko_pos kend s Hk). destruct (Z.eqb_spec pa 0); [destruct Hv; lia|].
    rewrite (bind_Ret _ _ _ _ _ (walk_find s pt va ltac:(lia))), Eq. cbn [fmap option_fmap option_map].
    rewrite (bind_Ret _ _ _ _ _ (run_get s)). unfold pg_refs in Hr. rewrite decide_True in Hr by done.
    unfold krefcnt. rewrite Hr. change (1 =? 1) with true. cbv iota. rewrite (lpte_at s pt va q Eq).
    rewrite (bind_Ret _ _ _ _ _ (run_pte_st _ _ _ _)), (bind_Ret _ _ _ _ _ (run_get _)). fold pte s1.
    rewrite (lpte_at s1 pt va q Eq1), L1, decide_True by done. reflexivity.
  - intros va' Hva'. rewrite L2, L1 by done. by repeat case_decide.
Qed.

Lemma dropped_shared q s : 1 < k_cnt s (q / PGSIZE) → k_page (dropped q s) = k_page s.
Proof. intros H. unfold dropped. cbv zeta. by destruct (Z.eqb_spec (k_cnt s (q / PGSIZE) - 1) 0); [lia|]. Qed.

(** The mapping moved to a private copy. *)
Record copied s va mem s' : Prop := Copied {
  cp_k : k_ok kend s';
  cp_pt : pt_ok kend s' pt;
  cp_lpte : ∀ va', 0 ≤ va' < MAXVA → lpte s' pt va' =
    if decide (va' / PGSIZE = va / PGSIZE) then new_pte mem (cow_perm (lpte s pt va)) else lpte s pt va';
  cp_mem : valid kend mem ∧ pg_refs kend s mem = 0;
  cp_refs : ∀ r, pg_refs kend s' r = fupd mem 1 (fupd (page_at s pt va) (pg_refs kend s (page_at s pt va) - 1) (pg_refs kend s)) r;
  cp_data : k_page s' mem = k_page s (page_at s pt va);
  cp_old : ∀ r, r ≠ mem → off_table s pt r → k_page s' r = k_page s r;
}.

(** The steps of [cowalloc] on a shared page, as state changes. *)
Lemma copied_steps s va q mem s1 :
  let pte := lpte s pt va in
  let pa := PTE2PA pte in
  let s2 := s1 <| k_page ::= fupd mem (k_page s1 pa) |> in
  let s3 := set_entry q (PX 0 va) (Z.land pte (Z.lnot PTE_V)) s2 in
  let s4 := set_entry q (PX 0 va) (new_pte mem (cow_perm pte)) s3 in
  k_ok kend s → pt_ok kend s pt → 0 ≤ va < MAXVA → 0 ≤ pte < 2 ^ 64 →
  node s pt (path va) = Some q → valid kend pa → off_table s pt pa → 1 < pg_refs kend s pa →
  k_ok kend s1 → valid kend mem → pg_refs kend s mem = 0 →
  (∀ r, pg_refs kend s1 r = fupd mem 1 (pg_refs kend s) r) → k_page s1 = fupd mem (page_of 5) (k_page s) →
  node s2 pt (path va) = Some q ∧ lpte s2 pt va = pte ∧ node s3 pt (path va) = Some q ∧
  lpte s3 pt va = Z.land pte (Z.lnot PTE_V) ∧ pg_refs kend s4 pa = pg_refs kend s pa ∧ copied s va mem (dropped pa s4).
Proof.
  intros pte pa s2 s3 s4 Hk Hok Hva Hw Eq Hv Ho Hr Hk1 Hvm Hz Hr1 Hp1.
  assert (pa ≠ mem) as Hne by (intros E; rewrite E in Hr; lia).
  assert (∀ r, r ≠ mem → k_page s2 r = k_page s r) as Hp2.
  { intros r Hrm. unfold s2. cbn [k_page update field_set]. by rewrite Hp1, !fupd_ne. }
  destruct (fresh_ext kend s pt s2 mem Hok Hz Hr1 Hp2) as [Hoffm Hext].
  assert (∀ π p, path_ok π → node s pt π = Some p → k_page s2 p = k_page s p) as Hext1 by (intros; by eapply Hext).
  assert (∀ π, path_ok π → node s2 pt π = node s pt π) as N2 by (intros; by apply node_ext).
  assert (∀ va, lpte s2 pt va = lpte s pt va) as L2 by (intros; by apply lpte_ext).
  assert (node s2 pt (path va) = Some q) as Eq2 by (by rewrite N2 by apply path_path_ok).
  destruct (store_pte kend s2 pt va q (Z.land pte (Z.lnot PTE_V))) as (F3 & N3 & L3);
    [by apply k_ok_page|by apply (pt_ok_ext kend s)|done|by apply (word_land 64)|done|].
  assert (node s3 pt (path va) = Some q) as Eq3 by (by rewrite N3 by apply path_path_ok).
  destruct (store_pte kend s3 pt va q (new_pte mem (cow_perm pte)) (fr_k _ _ _ _ F3) (fr_pt _ _ _ _ F3)) as (F4 & N4 & L4);
    [done|apply new_pte_bound; [|by apply cow_perm_word]|done|].
  { pose proof (ko_pos kend s Hk). destruct Hvm as (_ & ? & ?). assert (PHYSTOP < 2 ^ 56) by done. lia. }
  fold s3 in L3, L4, N3, N4. fold s4 in L4, N4, F4.
  assert (pg_refs kend s4 pa = pg_refs kend s pa) as Hr4 by (change (pg_refs kend s1 pa = pg_refs kend s pa); by rewrite Hr1, fupd_ne).
  assert (k_cnt s4 (pa / PGSIZE) = pg_refs kend s pa) as Hc4 by (rewrite <- Hr4; unfold pg_refs; by rewrite decide_True).
  assert (∀ va, lpte (dropped pa s4) pt va = lpte s4 pt va) as L5 by (intros; apply lpte_ext; intros; by rewrite dropped_shared by lia).
  split_and!; [done|apply L2|done|by rewrite L3, decide_True|done|].
  assert (∀ r, off_table s pt r → k_page s4 r = k_page s2 r) as Hd4.
  { intros r Hor. assert (r ≠ q) by (intros ->; by apply (Hor (path va) (path_path_ok va))).
    unfold s4, s3, set_entry. cbn [k_page update field_set]. by rewrite !fupd_ne. }
  assert (∀ π, path_ok π → node s4 pt π = node s pt π) as N by (intros π Hπ; by rewrite N4, N3, N2).
  split; [apply dropped_ok; [apply F4|done|lia]| | |done| | |].
  - apply (pt_ok_ext kend s4); [|apply F4]. intros π p Hπ Hn. rewrite dropped_shared, dropped_refs by (done || lia).
    rewrite fupd_ne; [done|]. intros ->. rewrite N in Hn by done. by apply (Ho π).
  - intros va' Hva'. rewrite L5, L4, L3, L2 by done. fold pte. by repeat case_decide.
  - intros r. rewrite dropped_refs, Hr4 by done. fold pte pa. unfold fupd. case_decide as Hd; subst.
    + by rewrite (decide_False _ _ Hne).
    + change (pg_refs kend s4 r) with (pg_refs kend s1 r). rewrite Hr1. by unfold fupd.
  - rewrite dropped_shared, Hd4 by (done || lia). unfold s2. cbn [k_page update field_set]. by rewrite fupd_eq, Hp1, fupd_ne.
  - intros r Hrm Hor. rewrite dropped_shared, Hd4 by (done || lia). by apply Hp2.
Qed.

Lemma cowalloc_shared s va :
  k_ok kend s → pt_ok kend s pt → va mod PGSIZE = 0 → 0 ≤ va < MAXVA → 0 ≤ lpte s pt va < 2 ^ 64 →
  mapped s pt va → has (lpte s pt va) PTE_U = true → valid kend (page_at s pt va) → off_table s pt (page_at s pt va) →
  1 < pg_refs kend s (page_at s pt va) →
  (∃ mem s', run (cowalloc kend pt va) s mem s' ∧ copied s va mem s') ∨
  (run (cowalloc kend pt va) s 0 s ∧ concat (k_free s) = []).
Proof.
  intros Hk Hok Hal Hva Hw Hm Hu Hv Ho Hr. set (pte := lpte s pt va) in *. set (pa := PTE2PA pte) in *.
  destruct (node s pt (path va)) as [q|] eqn:Eq; [|unfold pte, lpte in Hm; by rewrite Eq in Hm].
  unfold cowalloc. rewrite Hal. change (negb (0 =? 0)) with false. cbv iota.
  rewrite (bind_Ret _ _ _ _ _ (walkaddr_run s pt va ltac:(lia))). fold pte pa.
  destruct (Z.ltb_spec va MAXVA); [|lia]. rewrite Hm, Hu. cbn [andb].
  pose proof (ko_pos kend s Hk). destruct (Z.eqb_spec pa 0); [destruct Hv; lia|].
  rewrite (bind_Ret _ _ _ _ _ (walk_find s pt va ltac:(lia))), Eq. cbn [fmap option_fmap option_map].
  rewrite (bind_Ret _ _ _ _ _ (run_get s)).
  assert (krefcnt pa s = pg_refs kend s pa) as -> by (unfold krefcnt, pg_refs; by rewrite decide_True).
  destruct (Z.eqb_spec (pg_refs kend s pa) 1); [lia|].
  destruct (kalloc_page kend s Hk) as [(mem & s1 & E1 & Hk1 & Hvm & Hz & Hr1 & Hp1)|[E1 Hnil]].
  2:{ right. by rewrite (bind_Ret _ _ _ _ _ E1). }
  left. destruct (copied_steps s va q mem s1) as (Eq2 & El2 & Eq3 & El3 & Hr4 & C); [done..|]. fold pte in Eq2, El2, Eq3, El3, Hr4, C. fold pa in Eq2, El2, Eq3, El3, Hr4, C.
  exists mem. eexists. split; [|exact C].
  rewrite (bind_Ret _ _ _ _ _ E1), (bind_Ret _ _ _ _ _ (run_modify _ _)), (bind_Ret _ _ _ _ _ (run_get _)).
  rewrite (lpte_at _ pt va q Eq2), El2, (bind_Ret _ _ _ _ _ (run_pte_st _ _ _ _)), (bind_Ret _ _ _ _ _ (run_get _)).
  rewrite (lpte_at _ pt va q Eq3), El3. fold (cow_perm pte).
  erewrite bind_Ret; [|apply mappages_hit; [done|done|exact Eq3|rewrite El3; unfold PTE_V]].
  2:{ rewrite has_bit, Z.land_spec, Z.lnot_spec, flag_bit, andb_false_r by lia. done. }
  cbn beta. change (negb (0 =? 0)) with false. cbv iota.
  replace (PGROUNDDOWN pa) with pa by (rewrite <- (Z.add_0_r pa) at 2; symmetry; apply PGROUNDDOWN_in; [apply Hv|done]).
  erewrite bind_Ret; [done|]. apply run_kfree; [done|].
  pose proof (ko_cnt kend s Hk pa Hv). unfold pg_refs in Hr, Hr4. destruct (decide (valid kend pa)); [|done].
  assert (0 < k_cnt s (pa / PGSIZE) < 2 ^ 31) as Hc by lia. rewrite <- Hr4 in Hc. exact Hc.
Qed.
End cow.

(** ** copyin *)

(** What the user can read at a virtual address. *)
Definition user_can (s : kstate) (pt va : Z) : bool :=
  (va <? MAXVA) && has (lpte s pt va) PTE_V && has (lpte s pt va) PTE_U && negb (page_at s pt va =? 0).
Definition user_byte (s : kstate) (pt va : Z) : Z := byte_at (k_page s (page_at s pt va)) (Z.to_nat (va mod PGSIZE)).

Section copy.
Context (s : kstate) (pt : Z).

Lemma user_can_page va a : va / PGSIZE = a / PGSIZE → user_can s pt va = user_can s pt a.
Proof.
  intros E. unfold user_can. rewrite (lpte_page s pt va a E). do 3 f_equal.
  assert (MAXVA / PGSIZE * PGSIZE = MAXVA) as Em by done. destruct (Z.ltb_spec va MAXVA), (Z.ltb_spec a MAXVA); try done;
    unfold PGSIZE in *; Z.to_euclidean_division_equations; lia.
Qed.

(** The bytes of a part of one page. *)
Lemma page_get_bytes va n :
  length (k_page s (page_at s pt va)) = Z.to_nat PGSIZE → 0 ≤ va → 0 ≤ n ≤ PGSIZE - va mod PGSIZE →
  page_get (page_at s pt va) (Z.to_nat (va mod PGSIZE)) (Z.to_nat n) s = user_byte s pt <$> seqZ va n.
Proof.
  intros Hlen Hva Hn. pose proof (Z.mod_pos_bound va PGSIZE ltac:(done)) as Hm. apply list_eq. intros i.
  unfold page_get. destruct (decide (i < Z.to_nat n)%nat) as [Hi|Hi].
  - rewrite lookup_take_lt, lookup_drop by done. rewrite list_lookup_fmap, lookup_seqZ_lt by lia. cbn [fmap option_fmap option_map].
    unfold user_byte. rewrite (lpte_page s pt (va + Z.of_nat i) va).
    2:{ unfold PGSIZE in *. Z.to_euclidean_division_equations. lia. }
    replace (Z.to_nat ((va + Z.of_nat i) mod PGSIZE)) with (Z.to_nat (va mod PGSIZE) + i)%nat.
    2:{ unfold PGSIZE in *. Z.to_euclidean_division_equations. lia. }
    unfold byte_at. destruct (lookup_lt_is_Some_2 (k_page s (page_at s pt va)) (Z.to_nat (va mod PGSIZE) + i)) as [x ->]; [lia|done].
  - rewrite lookup_take_ge by lia. rewrite list_lookup_fmap, lookup_seqZ_ge by lia. done.
Qed.

Lemma forallb_const {A} (f : A → bool) (b : bool) l : l ≠ [] → (∀ x, x ∈ l → f x = b) → forallb f l = b.
Proof.
  intros Hne Hf. destruct l as [|x l]; [done|]. cbn [forallb]. rewrite (Hf x) by left. destruct b; [|done]. simpl.
  apply forallb_forall. intros y Hy. apply Hf. right. by apply list_elem_of_In.
Qed.

Hypothesis Hpages : ∀ va, 0 ≤ va → user_can s pt va = true → length (k_page s (page_at s pt va)) = Z.to_nat PGSIZE.

Lemma copyin_loop_run fuel va len dst :
  0 ≤ va → 0 ≤ len → va mod PGSIZE + len ≤ Z.of_nat fuel * PGSIZE →
  run (copyin_loop fuel pt va len dst) s
    (if forallb (user_can s pt) (seqZ va len) then Some (dst ++ (user_byte s pt <$> seqZ va len)) else None) s.
Proof.
  revert va len dst. induction fuel as [|fuel IH]; intros va len dst Hva Hlen Hf;
    pose proof (Z.mod_pos_bound va PGSIZE ltac:(done)) as Hm; cbn [copyin_loop];
    (destruct (Z.eqb_spec len 0) as [->|Hne]; [cbn; by rewrite app_nil_r|]); [lia|].
  assert (PGROUNDDOWN va = va - va mod PGSIZE) as Er by (rewrite PGROUNDDOWN_eq; unfold PGSIZE; Z.to_euclidean_division_equations; lia).
  assert (PGROUNDDOWN va / PGSIZE = va / PGSIZE) as Ep by (rewrite PGROUNDDOWN_eq; by rewrite Z.div_mul).
  assert (0 ≤ PGROUNDDOWN va) as Hr0 by (rewrite PGROUNDDOWN_eq; apply Z.mul_nonneg_nonneg; [apply Z.div_pos; [lia|done]|done]).
  rewrite (bind_Ret _ _ _ _ _ (walkaddr_run s pt (PGROUNDDOWN va) Hr0)).
  pose proof (user_can_page _ _ Ep) as Hc. unfold user_can at 1 in Hc. rewrite (lpte_page s pt _ _ Ep) in *.
  set (n := Z.min (PGSIZE - (va - PGROUNDDOWN va)) len).
  assert (0 < n ≤ len ∧ n ≤ PGSIZE - va mod PGSIZE) as [Hn Hn'] by (unfold n; lia).
  assert (seqZ va len = seqZ va n ++ seqZ (va + n) (len - n)) as -> by (rewrite <- seqZ_app by lia; f_equal; lia).
  rewrite forallb_app, fmap_app. rewrite (forallb_const _ (user_can s pt va) (seqZ va n)).
  2:{ intros E. apply (f_equal length) in E. rewrite length_seqZ in E. simpl in E. lia. }
  2:{ intros x Hx%elem_of_seqZ. apply user_can_page. unfold PGSIZE in *. Z.to_euclidean_division_equations. lia. }
  rewrite <- Hc. destruct ((PGROUNDDOWN va <? MAXVA) && has (lpte s pt va) PTE_V && has (lpte s pt va) PTE_U) eqn:Ec; cbn [andb].
  2:{ done. }
  destruct (page_at s pt va =? 0) eqn:E0; [done|]. cbn [negb andb] in *.
  rewrite (bind_Ret _ _ _ _ _ (run_get s)). replace (va - PGROUNDDOWN va) with (va mod PGSIZE) in * by lia.
  rewrite page_get_bytes by (lia || (apply Hpages; [done|by rewrite <- Hc])). fold n.
  destruct (decide (n = len)) as [En|En].
  - rewrite En, Z.sub_diag. destruct fuel; cbn; by rewrite !app_nil_r.
  - assert (n = PGSIZE - va mod PGSIZE) as En2 by lia. assert (PGROUNDDOWN va + PGSIZE = va + n) as -> by lia.
    rewrite IH; [by rewrite app_assoc|lia|lia|]. pose proof (Z.div_mod va PGSIZE ltac:(done)).
    replace (va + n) with ((va / PGSIZE + 1) * PGSIZE) by lia. rewrite Z_mod_mult. lia.
Qed.
End copy.

(** ** Properties of vm.c *)

(** C16. [mappages] on a well-formed page table either maps exactly the pages
    of the range, every one of them unmapped before, and returns 0; or returns
    -1 because memory ran out, with a prefix of the range mapped; or panics
    with "remap" because a page of the range was mapped already.  Nothing else
    changes but for table pages it adds: mappings outside the range, the
    references of pages in use and the contents of pages that are not tables. *)
Theorem mappages_correct kend pt va size pa perm s :
  k_ok kend s → pt_ok kend s pt → 0 ≤ va → 0 < size → va + size ≤ MAXVA →
  0 ≤ pa → pa + size + 2 * PGSIZE ≤ 2 ^ 56 → 0 ≤ perm < 2 ^ 10 →
  map_result kend (PGROUNDDOWN va) (PGROUNDDOWN (va + size - 1)) pa perm s pt (mappages pt va size pa perm s).
Proof. apply mappages_run. Qed.

(** C17. [uvmunmap] of a range of a user address space clears exactly the
    mappings of the range, present or not, never panics, releases one reference
    of each page that was mapped (when asked to), and leaves every other page
    and mapping alone; the address space stays well formed. *)
Theorem uvmunmap_correct kend do_free pt a npages s :
  k_ok kend s → pt_ok kend s pt → user_ok kend s pt →
  a mod PGSIZE = 0 → 0 ≤ a → 0 ≤ npages → a + npages * PGSIZE ≤ USERTOP →
  ∃ s', run (uvmunmap kend pt a npages do_free) s () s' ∧
    unmapped kend do_free a (a + npages * PGSIZE) s pt s' ∧ user_ok kend s' pt.
Proof. apply uvmunmap_run. Qed.

(** C11. [uvmalloc] is all or nothing: it returns the new size with fresh
    zeroed pages mapped over the whole growth, each referenced once, and the
    rest unchanged; or it returns 0 with the mappings, references and contents
    of the old address space, having given back every page but the table pages
    it added. *)
Theorem uvmalloc_all_or_nothing kend pt oldsz newsz s :
  k_ok kend s → pt_ok kend s pt → user_ok kend s pt → 0 ≤ oldsz ≤ newsz → newsz ≤ USERTOP →
  (∀ va, PGROUNDUP oldsz ≤ va < PGROUNDUP newsz → has (lpte s pt va) PTE_V = false) →
  ∃ r s', run (uvmalloc kend pt oldsz newsz) s r s' ∧
    (r = newsz ∧ grown kend pt user_perm s (PGROUNDUP oldsz) (PGROUNDUP newsz) s' ∨ r = 0 ∧ restored kend pt s s').
Proof. apply uvmalloc_run. Qed.

(** C31. [copyin] returns the bytes the user sees at [srcva], across page
    boundaries, and fails exactly when some byte of the range is above MAXVA,
    unmapped or not a user page; the state does not change. *)
Theorem copyin_correct pt srcva len s :
  0 ≤ srcva → 0 ≤ len →
  (∀ va, 0 ≤ va → user_can s pt va = true → length (k_page s (page_at s pt va)) = Z.to_nat PGSIZE) →
  run (copyin pt srcva len) s
    (if forallb (user_can s pt) (seqZ srcva len) then Some (user_byte s pt <$> seqZ srcva len) else None) s.
Proof.
  intros Hva Hlen Hpg. unfold copyin. rewrite copyin_loop_run; [done..|].
  pose proof (Z.mod_pos_bound srcva PGSIZE ltac:(done)). pose proof (Z.div_mod len PGSIZE ltac:(done)).
  pose proof (Z.mod_pos_bound len PGSIZE ltac:(done)). pose proof (Z.div_pos len PGSIZE Hlen ltac:(done)).
  rewrite Z2Nat.id by lia. lia.
Qed.

(** C19. Copy on write: on a mapped user page [cowalloc] makes the mapping of
    that page writable and no longer copy-on-write, changing no other mapping.
    A page with one reference is kept; a shared page is copied to a page nobody
    else references, keeps its contents and loses one reference; without memory
    nothing changes and 0 is returned. *)
Theorem cowalloc_isolates kend pt va s :
  let pte := lpte s pt va in
  let pa := PTE2PA pte in
  k_ok kend s → pt_ok kend s pt → va mod PGSIZE = 0 → 0 ≤ va < MAXVA → 0 ≤ pte < 2 ^ 64 →
  has pte PTE_V = true → has pte PTE_U = true → valid kend pa → off_table s pt pa → pg_refs kend s pa ≠ 0 →
  (∃ r s', run (cowalloc kend pt va) s r s' ∧ k_ok kend s' ∧ pt_ok kend s' pt ∧ r ≠ 0 ∧ page_at s' pt va = r ∧
    private (lpte s' pt va) ∧ k_page s' r = k_page s pa ∧ k_page s' pa = k_page s pa ∧
    (∀ va', 0 ≤ va' < MAXVA → va' / PGSIZE ≠ va / PGSIZE → lpte s' pt va' = lpte s pt va') ∧
    (r = pa ∧ pg_refs kend s' pa = 1 ∨
     r ≠ pa ∧ pg_refs kend s r = 0 ∧ pg_refs kend s' r = 1 ∧ pg_refs kend s' pa = pg_refs kend s pa - 1)) ∨
  (run (cowalloc kend pt va) s 0 s ∧ concat (k_free s) = []).
Proof.
  intros pte pa Hk Hok Hal Hva Hw Hm Hu Hv Ho Hr. pose proof (ko_pos kend s Hk) as Hpos.
  assert (0 < pg_refs kend s pa) as Hr' by (unfold pg_refs in *; rewrite decide_True in * by done; pose proof (ko_cnt kend s Hk pa Hv); lia).
  destruct (decide (pg_refs kend s pa = 1)) as [E1|E1].
  - left. destruct (cowalloc_own kend pt s va) as (s' & E & F & Hl); [done..|]. exists pa, s'.
    assert (k_page s' pa = k_page s pa) as Hd by (by apply (fr_data _ _ _ _ F)).
    split_and!; [done|apply F|apply F|destruct Hv; lia| | |done|done| |].
    + rewrite Hl, decide_True by done. apply pa_own.
    + rewrite Hl, decide_True by done. by apply private_own.
    + intros va' Hva' Hne. by rewrite Hl, decide_False.
    + left. split; [done|]. by rewrite (fr_refs _ _ _ _ F).
  - destruct (cowalloc_shared kend pt s va) as [(mem & s' & E & C)|?]; [done..|fold pte pa; lia| |by right].
    left. exists mem, s'. destruct (cp_mem _ _ _ _ _ _ C) as [Hvm Hz]. assert (mem ≠ pa) as Hne by (intros ->; lia).
    pose proof (cow_perm_word pte Hw) as Hperm.
    split_and!; [done|apply C|apply C|destruct Hvm; lia| | |apply C|by apply (cp_old _ _ _ _ _ _ C)| |right; split_and!]; try done.
    + rewrite (cp_lpte _ _ _ _ _ _ C), decide_True by done. by apply (new_pte_pa kend).
    + rewrite (cp_lpte _ _ _ _ _ _ C), decide_True by done. apply private_cow.
    + intros va' Hva' Hn. by rewrite (cp_lpte _ _ _ _ _ _ C), decide_False.
    + by rewrite (cp_refs _ _ _ _ _ _ C), fupd_eq.
    + by rewrite (cp_refs _ _ _ _ _ _ C), fupd_ne, fupd_eq.
Qed.

(** ** A concrete machine with eight free pages *)

Definition kend_vm : Z := PHYSTOP - 8 * PGSIZE - 100.
Definition vs_init : kstate := after (kinit kend_vm) (k0 (λ _, []) 0).
Definition pt_vm : Z := PHYSTOP - PGSIZE.
Definition vs_root : kstate := after uvmcreate vs_init.
Definition vs_user : kstate := after (uvmalloc kend_vm pt_vm 0 5000) vs_root.

Lemma kend_vm_ok : 0 < kend_vm ≤ PHYSTOP.
Proof. unfold kend_vm, PHYSTOP, KERNBASE, PGSIZE. lia. Qed.
Lemma vs_init_run : run (kinit kend_vm) (k0 (λ _, []) 0) () vs_init.
Proof. refine (run_after (kinit kend_vm) (k0 (λ _, []) 0) () _). vm_compute. reflexivity. Qed.
Lemma vs_root_run : run uvmcreate vs_init (Some pt_vm) vs_root.
Proof. refine (run_after uvmcreate vs_init (Some pt_vm) _). vm_compute. reflexivity. Qed.
Lemma vs_user_run : run (uvmalloc kend_vm pt_vm 0 5000) vs_root 5000 vs_user.
Proof. refine (run_after (uvmalloc kend_vm pt_vm 0 5000) vs_root 5000 _). vm_compute. reflexivity. Qed.

Lemma vs_root_ok :
  k_ok kend_vm vs_root ∧ pt_ok kend_vm vs_root pt_vm ∧ user_ok kend_vm vs_root pt_vm ∧ ∀ va, lpte vs_root pt_vm va = 0.
Proof.
  destruct (kinit_ok kend_vm kend_vm_ok (λ _, []) 0) as (s0 & E0 & Hok & _); [apply Nat.ltb_lt; reflexivity|].
  rewrite vs_init_run in E0. injection E0 as <-.
  destruct (uvmcreate_run kend_vm vs_init Hok) as [(pt & s' & E & Hk & Hpt & Hus & Hl & _)|[E _]]; rewrite vs_root_run in E.
  - injection E as <- <-. split_and!; assumption.
  - discriminate.
Qed.

Lemma vs_user_ok : grown kend_vm pt_vm user_perm vs_root 0 8192 vs_user.
Proof.
  destruct vs_root_ok as (Hk & Hpt & Hus & Hl).
  destruct (uvmalloc_run kend_vm pt_vm 0 5000 vs_root Hk Hpt Hus) as (r & s' & E & H).
  - lia.
  - apply Z.leb_le. reflexivity.
  - intros va _. rewrite Hl. reflexivity.
  - destruct (run_det _ _ _ _ _ _ vs_user_run E) as [<- <-]. destruct H as [[_ G]|[H _]]; [exact G|discriminate H].
Qed.

Lemma mappages_correct_witness :
  map_result kend_vm (PGROUNDDOWN 5000) (PGROUNDDOWN (5000 + 5000 - 1)) 0x87000000 user_perm vs_root pt_vm
    (mappages pt_vm 5000 5000 0x87000000 user_perm vs_root).
Proof.
  destruct vs_root_ok as (Hk & Hpt & _). apply mappages_correct.
  - exact Hk.
  - exact Hpt.
  - lia.
  - lia.
  - apply Z.leb_le. reflexivity.
  - lia.
  - apply Z.leb_le. reflexivity.
  - split; [apply Z.leb_le|apply Z.ltb_lt]; reflexivity.
Defined.

Lemma uvmunmap_correct_witness :
  ∃ s', run (uvmunmap kend_vm pt_vm 4096 1 true) vs_user () s' ∧ unmapped kend_vm true 4096 (4096 + 1 * PGSIZE) vs_user pt_vm s'.
Proof.
  destruct (uvmunmap_correct kend_vm true pt_vm 4096 1 vs_user) as (s' & E & U & _).
  - exact (gw_k _ _ _ _ _ _ _ vs_user_ok).
  - exact (gw_pt _ _ _ _ _ _ _ vs_user_ok).
  - exact (gw_user _ _ _ _ _ _ _ vs_user_ok).
  - reflexivity.
  - lia.
  - lia.
  - apply Z.leb_le. reflexivity.
  - exists s'. split; [exact E|exact U].
Defined.

(** Growing by a page, then by more memory than there is. *)
Lemma uvmalloc_all_or_nothing_witness :
  (∃ s', run (uvmalloc kend_vm pt_vm 5000 9000) vs_user 9000 s' ∧ grown kend_vm pt_vm user_perm vs_user (PGROUNDUP 5000) (PGROUNDUP 9000) s') ∧
  (∃ s', run (uvmalloc kend_vm pt_vm 5000 50000) vs_user 0 s' ∧ restored kend_vm pt_vm vs_user s').
Proof.
  assert (∀ n va, PGROUNDUP 5000 ≤ va < PGROUNDUP n → 0 ≤ n ≤ MAXVA → has (lpte vs_user pt_vm va) PTE_V = false) as Hun.
  { intros n va Hva Hn. change (PGROUNDUP 5000) with 8192 in Hva. pose proof (proj1 (proj2 (PGROUNDUP_spec n Hn))).
    rewrite (gw_out _ _ _ _ _ _ _ vs_user_ok) by lia. destruct vs_root_ok as (_ & _ & _ & Hl). rewrite Hl. reflexivity. }
  split.
  - destruct (uvmalloc_all_or_nothing kend_vm pt_vm 5000 9000 vs_user) as (r & s' & E & H).
    + exact (gw_k _ _ _ _ _ _ _ vs_user_ok).
    + exact (gw_pt _ _ _ _ _ _ _ vs_user_ok).
    + exact (gw_user _ _ _ _ _ _ _ vs_user_ok).
    + lia.
    + apply Z.leb_le. reflexivity.
    + intros va Hva. apply (Hun 9000 va Hva). split; apply Z.leb_le; reflexivity.
    + exists s'. destruct H as [[-> G]|[-> _]]; [split; [exact E|exact G]|exfalso].
      assert (value (uvmalloc kend_vm pt_vm 5000 9000) vs_user = Some 9000) as Ev by (vm_compute; reflexivity).
      unfold value in Ev. rewrite E in Ev. discriminate.
  - destruct (uvmalloc_all_or_nothing kend_vm pt_vm 5000 50000 vs_user) as (r & s' & E & H).
    + exact (gw_k _ _ _ _ _ _ _ vs_user_ok).
    + exact (gw_pt _ _ _ _ _ _ _ vs_user_ok).
    + exact (gw_user _ _ _ _ _ _ _ vs_user_ok).
    + lia.
    + apply Z.leb_le. reflexivity.
    + intros va Hva. apply (Hun 50000 va Hva). split; apply Z.leb_le; reflexivity.
    + exists s'. destruct H as [[-> _]|[-> R]]; [exfalso|split; [exact E|exact R]].
      assert (value (uvmalloc kend_vm pt_vm 5000 50000) vs_user = Some 0) as Ev by (vm_compute; reflexivity).
      unfold value in Ev. rewrite E in Ev. discriminate.
Defined.

(** The two user pages hold a page of bytes each. *)
Lemma vs_user_pages va :
  0 ≤ va → user_can vs_user pt_vm va = true → length (k_page vs_user (page_at vs_user pt_vm va)) = Z.to_nat PGSIZE.
Proof.
  intros Hva Hc. unfold user_can in Hc. apply andb_true_iff in Hc as [[[Hlt%Z.ltb_lt Hv]%andb_true_iff _]%andb_true_iff _].
  destruct (decide (0 ≤ va < 8192)) as [Hin|Hout].
  - destruct (gw_in _ _ _ _ _ _ _ vs_user_ok va ltac:(lia) Hin) as (q & El & Hq & _ & _ & Hd). rewrite El.
    rewrite (new_pte_pa kend_vm) by (exact Hq || apply kend_vm_ok || (split; [apply Z.leb_le|apply Z.ltb_lt]; reflexivity)).
    rewrite Hd. apply length_replicate.
  - rewrite (gw_out _ _ _ _ _ _ _ vs_user_ok) in Hv by lia. destruct vs_root_ok as (_ & _ & _ & Hl). rewrite Hl in Hv. discriminate Hv.
Qed.

(** A copy across the two pages, and one that runs off their end. *)
Lemma copyin_correct_witness :
  run (copyin pt_vm 4090 12) vs_user (Some (replicate 12 0)) vs_user ∧ run (copyin pt_vm 8190 12) vs_user None vs_user.
Proof.
  split.
  - rewrite (copyin_correct pt_vm 4090 12 vs_user); [|lia|lia|exact vs_user_pages].
    replace (forallb (user_can vs_user pt_vm) (seqZ 4090 12)) with true by (vm_compute; reflexivity).
    replace (user_byte vs_user pt_vm <$> seqZ 4090 12) with (replicate 12 0) by (vm_compute; reflexivity). reflexivity.
  - rewrite (copyin_correct pt_vm 8190 12 vs_user); [|lia|lia|exact vs_user_pages].
    replace (forallb (user_can vs_user pt_vm) (seqZ 8190 12)) with false by (vm_compute; reflexivity). reflexivity.
Defined.

(** The first user page shared with another address space. *)
Definition pg_vm : Z := PTE2PA (lpte vs_user pt_vm 0).
Definition vs_shared : kstate := after (kaddrefcnt kend_vm pg_vm) vs_user.

Lemma vs_shared_run : run (kaddrefcnt kend_vm pg_vm) vs_user 0 vs_shared.
Proof. refine (run_after (kaddrefcnt kend_vm pg_vm) vs_user 0 _). vm_compute. reflexivity. Qed.

Lemma vs_user_first :
  has (lpte vs_user pt_vm 0) PTE_V = true ∧ valid kend_vm pg_vm ∧ pg_refs kend_vm vs_user pg_vm = 1 ∧ off_table vs_user pt_vm pg_vm.
Proof.
  assert (0 ≤ 0 < MAXVA) as H0 by (split; [lia|apply Z.ltb_lt; reflexivity]).
  destruct (gw_in _ _ _ _ _ _ _ vs_user_ok 0 H0 ltac:(lia)) as (q & El & Hq & _ & Hr & _).
  assert (has (lpte vs_user pt_vm 0) PTE_V = true) as Hm by (rewrite El; apply new_pte_mapped).
  destruct (us_page _ _ _ (gw_user _ _ _ _ _ _ _ vs_user_ok) 0 H0 Hm) as (Hv & _ & Ho).
  assert (pg_vm = q) as E.
  { unfold pg_vm. rewrite El. apply (new_pte_pa kend_vm); [apply kend_vm_ok|exact Hq|].
    split; [apply Z.leb_le|apply Z.ltb_lt]; reflexivity. }
  split_and!; [exact Hm|exact Hv|rewrite E; exact Hr|exact Ho].
Qed.

Lemma share_page kend p s s' : run (kaddrefcnt kend p) s 0 s' → k_page s' = k_page s.
Proof. unfold kaddrefcnt. destruct (bad_page kend p); [by intros [=]|]. by intros [= <-]. Qed.

Lemma vs_shared_ok :
  k_ok kend_vm vs_shared ∧ pt_ok kend_vm vs_shared pt_vm ∧ lpte vs_shared pt_vm 0 = lpte vs_user pt_vm 0 ∧
  off_table vs_shared pt_vm pg_vm ∧ pg_refs kend_vm vs_shared pg_vm = 2.
Proof.
  destruct vs_user_first as (_ & Hv & Hr & Ho). pose proof (share_page _ _ _ _ vs_shared_run) as Hpg.
  destruct (page_step_ok kend_vm vs_user (pg_refs kend_vm vs_user) vs_shared
              (fupd pg_vm (pg_refs kend_vm vs_user pg_vm + 1) (pg_refs kend_vm vs_user))) as [Hk Hrs].
  - exact (gw_k _ _ _ _ _ _ _ vs_user_ok).
  - reflexivity.
  - apply (pg_share kend_vm vs_user pg_vm); [rewrite Hr; lia|exact vs_shared_run].
  - assert (∀ π p, path_ok π → node vs_user pt_vm π = Some p → k_page vs_shared p = k_page vs_user p) as Hext
      by (intros; rewrite Hpg; reflexivity).
    split_and!; [exact Hk| |apply lpte_ext; exact Hext| |rewrite <- Hrs, fupd_eq, Hr; reflexivity].
    + apply (pt_ok_ext kend_vm vs_user); [|exact (gw_pt _ _ _ _ _ _ _ vs_user_ok)]. intros π p Hπ Hn. rewrite Hpg. split; [reflexivity|].
      rewrite <- Hrs, fupd_ne; [reflexivity|]. intros ->. exact (Ho π Hπ Hn).
    + apply (off_table_ext pt_vm vs_user); [intros π Hπ; apply node_ext; [exact Hext|exact Hπ]|exact Ho].
Qed.

Lemma cowalloc_isolates_witness :
  ∃ r s', run (cowalloc kend_vm pt_vm 0) vs_shared r s' ∧ private (lpte s' pt_vm 0) ∧ k_page s' r = k_page vs_shared pg_vm ∧
    pg_refs kend_vm s' pg_vm = 1.
Proof.
  destruct vs_shared_ok as (Hk & Hpt & El & Ho & Hr). destruct vs_user_first as (Hm & Hv & _ & _).
  destruct (cowalloc_isolates kend_vm pt_vm 0 vs_shared) as [(r & s' & E & _ & _ & _ & _ & Hp & Hd & _ & _ & H)|[_ Hnil]];
    rewrite ?El; fold pg_vm.
  - exact Hk.
  - exact Hpt.
  - reflexivity.
  - split; [lia|apply Z.ltb_lt; reflexivity].
  - split; [apply Z.leb_le|apply Z.ltb_lt]; vm_compute; reflexivity.
  - exact Hm.
  - vm_compute; reflexivity.
  - exact Hv.
  - exact Ho.
  - rewrite Hr. discriminate.
  - exists r, s'. split_and!; [exact E|exact Hp|rewrite Hd, El; reflexivity|]. rewrite El in H. fold pg_vm in H.
    destruct H as [[_ H]|(_ & _ & _ & H)]; [exact H|rewrite H, Hr; reflexivity].
  - exfalso. revert Hnil. vm_compute. discriminate.
Defined.
