(* ===== verification/ProcTable.v ===== *)
(** * What the users of the process table share

    The states of a process, and the loop that looks for the best entry of an
    array: a candidate replaces the current best only when it is strictly
    better, so among equals the first one wins. *)

From S2P Require Import Prelude.

Inductive procstate := UNUSED | SLEEPING | RUNNABLE | RUNNING | ZOMBIE.
#[export] Instance procstate_eq_dec : EqDecision procstate.
Proof. solve_decision. Defined.

Definition NPROC : nat := 64.

(** [best = 0; bound = init; for (p = proc; p < &proc[NPROC]; p++)
    if (ok(p) && better(key(p), bound)) { best = p; bound = key(p); }] *)
Fixpoint scan_best {A : Type} (ok : A → bool) (key : A → Z) (better : Z → Z → bool)
    (i : nat) (best : option nat) (bound : Z) (l : list A) : option nat :=
  match l with
  | [] => best
  | p :: l' =>
      if ok p && better (key p) bound then scan_best ok key better (S i) (Some i) (key p) l'
      else scan_best ok key better (S i) best bound l'
  end.

Section scan_best.
Context {A : Type} (ok : A → bool) (key : A → Z) (better : Z → Z → bool).
Context (better_trans : ∀ x y z, better x y = true → better y z = true → better x z = true).
Context (better_cotrans : ∀ x y z, better x y = false → better y z = false → better x z = false).
Context (better_irrefl : ∀ x, better x x = false).

(** [i] is the first of the best entries of [l] that beat [init]. *)
Definition first_best (init : Z) (l : list A) (i : nat) : Prop :=
  ∃ p, l !! i = Some p ∧ ok p = true ∧ better (key p) init = true ∧
    (∀ j q, (j < i)%nat → l !! j = Some q → ok q = true → better (key p) (key q) = true) ∧
    (∀ j q, l !! j = Some q → ok q = true → better (key q) (key p) = false).

Definition none_best (init : Z) (l : list A) : Prop :=
  ∀ j q, l !! j = Some q → ok q = true → better (key q) init = false.

Lemma none_best_cons init p l :
  none_best init (p :: l) ↔ (ok p = true → better (key p) init = false) ∧ none_best init l.
Proof.
  split.
  - intros H. split; [apply (H 0%nat); done|]. intros j q Hj. by apply (H (S j)).
  - intros [Hp Hl] [|j] q Hj Hq; simpl in Hj; [|by apply (Hl j)]. simplify_eq. by apply Hp.
Qed.

(** The loop body at an entry that becomes the new best, and stays it. *)
Lemma first_best_here init p l :
  ok p = true → better (key p) init = true → none_best (key p) l → first_best init (p :: l) 0.
Proof.
  intros Hok Hb Hn. exists p. split_and!; [done..|lia|].
  intros [|j] q Hj Hq; simpl in Hj; [|by apply (Hn j)]. simplify_eq. apply better_irrefl.
Qed.

(** An entry further on is the best one of the rest under the bound the loop
    has when it gets there. *)
Lemma first_best_later init bound p l i :
  (ok p = true → better (key p) bound = false) →
  (bound = init ∨ ok p = true ∧ bound = key p ∧ better (key p) init = true) →
  first_best bound l i → first_best init (p :: l) (S i).
Proof.
  intros Hp Hbound (q & Hq & Hok & Hb & Hlt & Hle).
  assert (ok p = true → better (key q) (key p) = true) as Hqp.
  { intros Hokp. destruct (better (key q) (key p)) eqn:E; [done|].
    rewrite (better_cotrans _ _ _ E (Hp Hokp)) in Hb. done. }
  exists q. split_and!; [done|done| | |].
  - destruct Hbound as [<-|(_ & -> & ?)]; [done|]. by eapply better_trans.
  - intros [|j] x Hj Hx Hokx; simpl in Hx; [simplify_eq; by apply Hqp|]. apply (Hlt j); [lia|done..].
  - intros [|j] x Hx Hokx; simpl in Hx; [simplify_eq|by apply (Hle j)].
    destruct (better (key x) (key q)) eqn:E; [|done].
    pose proof (better_trans _ _ _ E (Hqp Hokx)) as H. by rewrite better_irrefl in H.
Qed.

Lemma scan_best_spec n best bound l :
  scan_best ok key better n best bound l = best ∧ none_best bound l ∨
  (∃ i, scan_best ok key better n best bound l = Some (n + i)%nat ∧ first_best bound l i).
Proof.
  revert n best bound. induction l as [|p l IH]; intros n best bound; simpl.
  - left. split; [done|]. by intros j q Hj.
  - destruct (ok p && better (key p) bound) eqn:E.
    + apply andb_prop in E as [Hok Hb].
      destruct (IH (S n) (Some n) (key p)) as [[-> Hn]|(i & -> & Hi)]; right.
      * exists 0%nat. rewrite Nat.add_0_r. split; [done|]. by apply first_best_here.
      * exists (S i). split; [f_equal; lia|]. eapply first_best_later; [| |done]; [|by right].
        intros _. apply better_irrefl.
    + assert (ok p = true → better (key p) bound = false) as Hp.
      { intros Hok. by rewrite Hok in E. }
      destruct (IH (S n) best bound) as [[-> Hn]|(i & -> & Hi)].
      * left. split; [done|]. by apply none_best_cons.
      * right. exists (S i). split; [f_equal; lia|]. eapply first_best_later; [done| |done]. by left.
Qed.

Lemma scan_best_correct init l :
  match scan_best ok key better 0 None init l with
  | Some i => first_best init l i
  | None => none_best init l
  end.
Proof. destruct (scan_best_spec 0 None init l) as [[-> H]|(i & -> & H)]; done. Qed.
End scan_best.

(** The two orders the code uses. *)
Lemma scan_least {A : Type} (ok : A → bool) (key : A → Z) init l :
  match scan_best ok key Z.ltb 0 None init l with
  | Some i => first_best ok key Z.ltb init l i
  | None => none_best ok key Z.ltb init l
  end.
Proof. apply scan_best_correct; intros; lia. Qed.

Lemma scan_greatest {A : Type} (ok : A → bool) (key : A → Z) init l :
  match scan_best ok key Z.gtb 0 None init l with
  | Some i => first_best ok key Z.gtb init l i
  | None => none_best ok key Z.gtb init l
  end.
Proof. apply scan_best_correct; intros; lia. Qed.
