(* ===== verification/Capability.v ===== *)
(** * capability.c: process capabilities

    The capability fields of the process table, the counters and the audit
    ring of the capability manager.  Capability sets are 32-bit masks; a
    process is looked up by pid among the entries that are in use, the first
    match wins.  [myproc()] is the index [cs_cur]. *)

From S2P Require Import Prelude.

Definition CAP_SETFCAP : Z := 17.
Definition CAP_STORAGE_READ : Z := 26.
Definition CAP_NETWORK : Z := 28.
Definition CAP_MAX : Z := 32.
Definition CAP_EFFECTIVE : Z := 0.
Definition CAP_PERMITTED : Z := 1.
Definition CAP_INHERITABLE : Z := 2.
Definition CAP_BOUNDING : Z := 3.
Definition MAX_CAP_AUDIT : Z := 64.

(** ** State *)

(** The fields of [struct proc] that capability.c uses. *)
Record cproc := CProc {
  cp_pid : Z;
  cp_used : bool;                       (* state != UNUSED *)
  cp_uid : Z;
  cp_eff : Z;
  cp_perm : Z;
  cp_inh : Z;
  cp_bnd : Z;
}.
#[export] Instance cproc_fields : Fields cproc := λ p,
  CProc (cp_pid p) (cp_used p) (cp_uid p) (cp_eff p) (cp_perm p) (cp_inh p) (cp_bnd p).

Record cap_audit := CapAudit { au_pid : Z; au_cap : Z; au_granted : bool; au_time : Z }.

Record capst := CapSt {
  cs_procs : list cproc;
  cs_cur : nat;
  cs_ticks : Z;
  cs_default_caps : Z;
  cs_root_caps : Z;
  cs_checks : Z;
  cs_granted : Z;
  cs_denied : Z;
  cs_audit : list cap_audit;
  cs_idx : Z;
}.
#[export] Instance capst_fields : Fields capst := λ s,
  CapSt (cs_procs s) (cs_cur s) (cs_ticks s) (cs_default_caps s) (cs_root_caps s)
    (cs_checks s) (cs_granted s) (cs_denied s) (cs_audit s) (cs_idx s).

Definition bit (cap : Z) : Z := Z.shiftl 1 cap.

Definition capability_init (s : capst) : capst :=
  s <| cs_default_caps := Z.lor (bit CAP_STORAGE_READ) (bit CAP_NETWORK) |>
    <| cs_root_caps := 0xFFFFFFFF |>
    <| cs_checks := 0 |> <| cs_granted := 0 |> <| cs_denied := 0 |>
    <| cs_audit := replicate (Z.to_nat MAX_CAP_AUDIT) (CapAudit 0 0 false 0) |>.

Definition find_proc (pid : Z) (ps : list cproc) : option nat :=
  findi (λ p, (cp_pid p =? pid) && cp_used p) ps.

Definition proc_at (s : capst) (i : nat) : cproc := default (CProc 0 false 0 0 0 0 0) (cs_procs s !! i).

(** ** Checks *)

Definition has_cap (p : cproc) (cap : Z) : bool :=
  if cp_uid p =? 0 then true else negb (Z.land (cp_eff p) (bit cap) =? 0).

Definition record_check (pid cap : Z) (granted : bool) (s : capst) : capst :=
  let s := s <| cs_checks ::= λ n, u64 (n + 1) |> in
  let s := if granted then s <| cs_granted ::= λ n, u64 (n + 1) |> else s <| cs_denied ::= λ n, u64 (n + 1) |> in
  s <| cs_audit ::= <[Z.to_nat (cs_idx s mod MAX_CAP_AUDIT) := CapAudit pid cap granted (cs_ticks s)]> |>
    <| cs_idx ::= λ n, n + 1 |>.

Definition cap_check (pid cap : Z) : ST capst bool :=
  if (cap <? 0) || (CAP_MAX <=? cap) then mret false
  else
    s ← get;
    let granted := match find_proc pid (cs_procs s) with
                   | Some i => has_cap (proc_at s i) cap
                   | None => false
                   end in
    _ ← modify (record_check pid cap granted);
    mret granted.

Definition cap_capable (cap : Z) : ST capst bool :=
  s ← get; cap_check (cp_pid (proc_at s (cs_cur s))) cap.

(** ** Updates *)

Definition set_caps (cap_type caps : Z) (p : cproc) : cproc :=
  if cap_type =? CAP_EFFECTIVE then p <| cp_eff := Z.land caps (cp_perm p) |>
  else if cap_type =? CAP_PERMITTED then p <| cp_perm := Z.land caps (cp_bnd p) |>
  else if cap_type =? CAP_INHERITABLE then p <| cp_inh := caps |>
  else p <| cp_bnd ::= λ b, Z.land b caps |>.

Definition cap_set (pid cap_type caps : Z) : ST capst Z :=
  if (cap_type <? 0) || (CAP_BOUNDING <? cap_type) then mret (-1)
  else
    s ← get;
    ok ← (if cp_uid (proc_at s (cs_cur s)) =? 0 then mret true else cap_capable CAP_SETFCAP);
    if negb ok then mret (-1)
    else
      s ← get;
      match find_proc pid (cs_procs s) with
      | Some i => _ ← modify (λ s, s <| cs_procs ::= alter (set_caps cap_type caps) i |>); mret 0
      | None => mret (-1)
      end.

Definition get_caps (cap_type : Z) (p : cproc) : Z :=
  if cap_type =? CAP_EFFECTIVE then cp_eff p
  else if cap_type =? CAP_PERMITTED then cp_perm p
  else if cap_type =? CAP_INHERITABLE then cp_inh p
  else cp_bnd p.

(** [None] is the return value -1. *)
Definition cap_get (pid cap_type : Z) (s : capst) : option Z :=
  if (cap_type <? 0) || (CAP_BOUNDING <? cap_type) then None
  else i ← find_proc pid (cs_procs s); Some (get_caps cap_type (proc_at s i)).

Definition cap_raise (pid cap : Z) : ST capst Z :=
  if (cap <? 0) || (CAP_MAX <=? cap) then mret (-1)
  else
    s ← get;
    match cap_get pid CAP_EFFECTIVE s with
    | None => mret (-1)
    | Some current => cap_set pid CAP_EFFECTIVE (Z.lor current (bit cap))
    end.

Definition cap_drop (pid cap : Z) : ST capst Z :=
  if (cap <? 0) || (CAP_MAX <=? cap) then mret (-1)
  else
    s ← get;
    match cap_get pid CAP_EFFECTIVE s with
    | None => mret (-1)
    | Some current => cap_set pid CAP_EFFECTIVE (Z.land current (u32 (Z.lnot (bit cap))))
    end.

(** ** Inheritance *)

Definition cap_fork_init (child parent : cproc) : cproc :=
  child <| cp_eff := Z.land (cp_inh parent) (cp_perm parent) |>
        <| cp_perm := Z.land (cp_inh parent) (cp_bnd parent) |>
        <| cp_inh := cp_inh parent |>
        <| cp_bnd := cp_bnd parent |>.

Definition cap_exec_init (p : cproc) : cproc := p <| cp_eff := Z.land (cp_perm p) (cp_inh p) |>.

(** ** Capability sets *)

Definition subset (a b : Z) : Prop := ∀ n, 0 ≤ n → Z.testbit a n = true → Z.testbit b n = true.

#[export] Instance subset_preorder : PreOrder subset.
Proof. split; [intros a n _; done|intros a b c H1 H2 n Hn Ha; by apply H2, H1]. Qed.

Lemma subset_land_l a b : subset (Z.land a b) a.
Proof. intros n Hn. rewrite Z.land_spec. by intros [? ?]%andb_true_iff. Qed.
Lemma subset_land_r a b : subset (Z.land a b) b.
Proof. intros n Hn. rewrite Z.land_spec. by intros [? ?]%andb_true_iff. Qed.
Lemma subset_land_mono a b c : subset a c → subset (Z.land a b) c.
Proof. intros H. etrans; [apply subset_land_l|done]. Qed.
Lemma subset_land_mono_r a b c : subset b c → subset (Z.land a b) c.
Proof. intros H. etrans; [apply subset_land_r|done]. Qed.

Create HintDb caps.
#[export] Hint Resolve subset_land_mono subset_land_mono_r subset_land_l subset_land_r : caps.

Lemma bit_land x cap : 0 ≤ cap → negb (Z.land x (bit cap) =? 0) = Z.testbit x cap.
Proof.
  intros Hc. unfold bit. destruct (Z.testbit x cap) eqn:E.
  - apply negb_true_iff, Z.eqb_neq. intros H. apply (f_equal (λ z, Z.testbit z cap)) in H.
    rewrite Z.land_spec, E, Z.shiftl_spec, Z.sub_diag, Z.bits_0 in H by done. done.
  - apply negb_false_iff, Z.eqb_eq, Z.bits_inj'. intros n Hn. rewrite Z.land_spec, Z.shiftl_spec, Z.bits_0 by done.
    destruct (decide (n = cap)) as [->|]; [by rewrite E|].
    destruct (decide (n < cap)); [rewrite (Z.testbit_neg_r 1) by lia; apply andb_false_r|].
    rewrite (Z.bits_above_log2 1) by (simpl; lia). apply andb_false_r.
Qed.

(** ** Runs of the whole system *)

(** Capability calls by any running process, scheduling, fork into a free
    entry and exec. *)
Inductive cap_step : capst → capst → Prop :=
| ct_check pid cap b s s' : run (cap_check pid cap) s b s' → cap_step s s'
| ct_set pid ty caps r s s' : run (cap_set pid ty caps) s r s' → cap_step s s'
| ct_raise pid cap r s s' : run (cap_raise pid cap) s r s' → cap_step s s'
| ct_drop pid cap r s s' : run (cap_drop pid cap) s r s' → cap_step s s'
| ct_fork child parent pid uid s p :
    cs_procs s !! parent = Some p →
    cap_step s (s <| cs_procs ::= alter (λ c, cap_fork_init (c <| cp_pid := pid |> <| cp_uid := uid |> <| cp_used := true |>) p) child |>)
| ct_exec i s : cap_step s (s <| cs_procs ::= alter cap_exec_init i |>)
| ct_exit i s : cap_step s (s <| cs_procs ::= alter (λ p, p <| cp_used := false |>) i |>)
| ct_sched i tk s : cap_step s (s <| cs_cur := i |> <| cs_ticks := tk |>).

(** Everything a process holds or may come to hold lies in [S]. *)
Definition within (S : Z) (p : cproc) : Prop := subset (cp_eff p) S ∧ subset (cp_perm p) S ∧ subset (cp_bnd p) S.

Lemma set_caps_within S ty caps p : within S p → within S (set_caps ty caps p).
Proof.
  intros (H1 & H2 & H3). unfold set_caps, within. repeat case_match; cbn; split_and!; auto with caps.
Qed.

Lemma fork_within S c p : within S p → within S (cap_fork_init c p).
Proof. intros (H1 & H2 & H3). unfold within. cbn. split_and!; auto with caps. Qed.

Lemma exec_within S p : within S p → within S (cap_exec_init p).
Proof. intros (H1 & H2 & H3). unfold within. cbn. split_and!; auto with caps. Qed.

Lemma Forall_alter_list {A} (P : A → Prop) f i (l : list A) :
  Forall P l → (∀ x, P x → P (f x)) → Forall P (alter f i l).
Proof. intros Hl Hf. apply Forall_alter; [done|]. naive_solver. Qed.

Lemma cap_check_inv pid cap s b s' :
  run (cap_check pid cap) s b s' →
  cs_procs s' = cs_procs s ∧ cs_cur s' = cs_cur s ∧
  (s' = s ∧ b = false ∧ (cap < 0 ∨ CAP_MAX <= cap) ∨
   0 ≤ cap < CAP_MAX ∧ s' = record_check pid cap b s ∧
   b = match find_proc pid (cs_procs s) with Some i => has_cap (proc_at s i) cap | None => false end).
Proof.
  unfold cap_check. destruct (Z.ltb_spec cap 0), (Z.leb_spec CAP_MAX cap); cbn [orb];
    [intros [= <- <-]; naive_solver lia..|].
  rewrite (bind_Ret _ _ _ _ _ (run_get s)). cbv zeta. rewrite (bind_Ret _ _ _ _ _ (run_modify _ s)).
  set (g := match find_proc pid (cs_procs s) with Some i => _ | None => _ end).
  intros H'. injection H' as <- <-. unfold record_check. split_and!; [by destruct g..|]. right. split_and!; [lia..|done|done].
Qed.

Lemma cap_set_inv pid ty caps s r s' :
  run (cap_set pid ty caps) s r s' →
  (r = -1 ∧ cs_procs s' = cs_procs s) ∨
  (r = 0 ∧ ∃ i, find_proc pid (cs_procs s) = Some i ∧ cs_procs s' = alter (set_caps ty caps) i (cs_procs s)).
Proof.
  unfold cap_set. destruct (_ || _); [intros [= <- <-]; by left|].
  rewrite (bind_Ret _ _ _ _ _ (run_get s)). intros (ok & s1 & E1 & H)%bind_Ret_inv.
  assert (cs_procs s1 = cs_procs s) as Hp.
  { destruct (_ =? 0); [by injection E1 as <- <-|]. unfold cap_capable in E1.
    rewrite (bind_Ret _ _ _ _ _ (run_get s)) in E1. by apply cap_check_inv in E1 as [? _]. }
  destruct ok; cbn [negb] in H; [|injection H as <- <-; by left].
  rewrite (bind_Ret _ _ _ _ _ (run_get s1)), Hp in H. destruct (find_proc pid (cs_procs s)) as [i|] eqn:Ef.
  - rewrite (bind_Ret _ _ _ _ _ (run_modify _ s1)) in H. injection H as <- <-. right. split; [done|].
    exists i. split; [done|]. cbn. by rewrite Hp.
  - injection H as <- <-. by left.
Qed.

Lemma cap_step_within S s s' :
  cap_step s s' → Forall (within S) (cs_procs s) → Forall (within S) (cs_procs s').
Proof.
  assert (∀ pid ty caps s r s', run (cap_set pid ty caps) s r s' → Forall (within S) (cs_procs s) → Forall (within S) (cs_procs s')) as Hset.
  { intros pid ty caps s1 r s2 [[_ ->]|(_ & i & _ & ->)]%cap_set_inv H; [done|].
    apply Forall_alter_list; [done|]. intros. by apply set_caps_within. }
  intros Hst Hall. destruct Hst as [pid cap b s s' E|pid ty caps r s s' E|pid cap r s s' E|pid cap r s s' E|child parent pid uid s p Hp|i s|i s|i tk s].
  - by apply cap_check_inv in E as [-> _].
  - by eapply Hset.
  - unfold cap_raise in E. destruct (_ || _); [by injection E as _ <-|].
    rewrite (bind_Ret _ _ _ _ _ (run_get s)) in E. destruct (cap_get _ _ _); [by eapply Hset|by injection E as _ <-].
  - unfold cap_drop in E. destruct (_ || _); [by injection E as _ <-|].
    rewrite (bind_Ret _ _ _ _ _ (run_get s)) in E. destruct (cap_get _ _ _); [by eapply Hset|by injection E as _ <-].
  - cbn. apply Forall_alter_list; [done|]. intros c _. apply fork_within. by eapply Forall_lookup_1.
  - cbn. apply Forall_alter_list; [done|]. apply exec_within.
  - cbn. by apply Forall_alter_list.
  - done.
Qed.

(** No capability appears from nowhere: if everything all processes hold
    (effective or permitted) or are bounded by lies in a set [S], then no
    sequence of capability calls, forks, execs and exits gives any process a
    capability outside [S]. *)
Theorem cap_no_escalation S s s' i p :
  Forall (within S) (cs_procs s) → rtc cap_step s s' → cs_procs s' !! i = Some p →
  subset (cp_eff p) S ∧ subset (cp_perm p) S ∧ subset (cp_bnd p) S.
Proof.
  intros H Hr Hi. assert (Forall (within S) (cs_procs s')) as H'.
  { induction Hr as [|x y z Hxy _ IH]; [done|]. apply IH; [by eapply cap_step_within|done]. }
  by apply (Forall_lookup_1 _ _ _ _ H' Hi).
Qed.

(** [cap_check] answers exactly whether the first process in use with that
    pid is root or has the capability in its effective set (and no process:
    no), counts the answer, and writes it to the audit ring. *)
Theorem cap_check_correct pid cap s :
  0 ≤ cap < CAP_MAX → length (cs_audit s) = Z.to_nat MAX_CAP_AUDIT →
  let ok := match find_proc pid (cs_procs s) with
            | Some i => (cp_uid (proc_at s i) =? 0) || Z.testbit (cp_eff (proc_at s i)) cap
            | None => false
            end in
  ∃ s', run (cap_check pid cap) s ok s' ∧ cs_procs s' = cs_procs s ∧
    cs_checks s' = u64 (cs_checks s + 1) ∧
    cs_granted s' = (if ok then u64 (cs_granted s + 1) else cs_granted s) ∧
    cs_denied s' = (if ok then cs_denied s else u64 (cs_denied s + 1)) ∧
    cs_audit s' !! Z.to_nat (cs_idx s mod MAX_CAP_AUDIT) = Some (CapAudit pid cap ok (cs_ticks s)).
Proof.
  intros Hc Hlen ok. assert (match find_proc pid (cs_procs s) with Some i => has_cap (proc_at s i) cap | None => false end = ok) as E.
  { unfold ok, has_cap. destruct (find_proc pid (cs_procs s)) as [i|]; [|done]. rewrite bit_land by lia.
    by destruct (cp_uid (proc_at s i) =? 0). }
  exists (record_check pid cap ok s). unfold cap_check.
  destruct (Z.ltb_spec cap 0), (Z.leb_spec CAP_MAX cap); [lia..|]. cbn [orb].
  rewrite (bind_Ret _ _ _ _ _ (run_get s)). cbv zeta. rewrite E, (bind_Ret _ _ _ _ _ (run_modify _ s)).
  split; [done|]. unfold record_check. pose proof (Z.mod_pos_bound (cs_idx s) MAX_CAP_AUDIT ltac:(done)).
  destruct ok; cbn; split_and!; try done; apply list_lookup_insert_eq; rewrite Hlen; lia.
Qed.

(** [cap_set] refuses callers that are neither root nor hold
    [CAP_SETFCAP], unknown types and unknown pids; otherwise it changes only
    that process, never widens the bounding set, and clips a new effective set
    to the permitted and a new permitted set to the bounding set. *)
Theorem cap_set_guarded pid ty caps s :
  ∃ r s', run (cap_set pid ty caps) s r s' ∧
    (r = 0 ↔ 0 ≤ ty ≤ CAP_BOUNDING ∧ is_Some (find_proc pid (cs_procs s)) ∧
             (cp_uid (proc_at s (cs_cur s)) = 0 ∨
              value (cap_capable CAP_SETFCAP) s = Some true)) ∧
    (r ≠ 0 → r = -1 ∧ cs_procs s' = cs_procs s) ∧
    ∀ i p, cs_procs s !! i = Some p → ∃ p', cs_procs s' !! i = Some p' ∧
      subset (cp_bnd p') (cp_bnd p) ∧
      (cp_eff p' = cp_eff p ∨ subset (cp_eff p') (cp_perm p')) ∧
      (cp_perm p' = cp_perm p ∨ subset (cp_perm p') (cp_bnd p')).
Proof.
  assert (∀ ps ty i p, (ps : list cproc) !! i = Some p → ∀ j, ∃ p', alter (set_caps ty caps) j ps !! i = Some p' ∧
      subset (cp_bnd p') (cp_bnd p) ∧ (cp_eff p' = cp_eff p ∨ subset (cp_eff p') (cp_perm p')) ∧
      (cp_perm p' = cp_perm p ∨ subset (cp_perm p') (cp_bnd p'))) as Halt.
  { intros ps ty' i p Hp j. destruct (decide (i = j)) as [->|].
    - rewrite list_lookup_alter_eq, Hp. eexists. split; [done|]. unfold set_caps.
      repeat case_match; cbn; split_and!; try (by left); try (right; apply subset_land_r); try done; apply subset_land_l.
    - rewrite list_lookup_alter_ne, Hp by done. exists p. split_and!; try done; by left. }
  assert (∀ s1 : capst, cs_procs s1 = cs_procs s → ∀ i p, cs_procs s !! i = Some p → ∃ p', cs_procs s1 !! i = Some p' ∧
      subset (cp_bnd p') (cp_bnd p) ∧ (cp_eff p' = cp_eff p ∨ subset (cp_eff p') (cp_perm p')) ∧
      (cp_perm p' = cp_perm p ∨ subset (cp_perm p') (cp_bnd p'))) as Hsame.
  { intros s1 -> i p Hp. exists p. split_and!; try done; by left. }
  unfold cap_set. destruct (Z.ltb_spec ty 0), (Z.ltb_spec CAP_BOUNDING ty); cbn [orb];
    [exists (-1), s; split_and!; [done|lia|done|by apply Hsame]..|].
  rewrite (bind_Ret _ _ _ _ _ (run_get s)).
  assert (∃ ok s1, (if cp_uid (proc_at s (cs_cur s)) =? 0 then mret true else cap_capable CAP_SETFCAP) s = Ret (ok, s1) ∧
    cs_procs s1 = cs_procs s ∧ (ok = true ↔ cp_uid (proc_at s (cs_cur s)) = 0 ∨ value (cap_capable CAP_SETFCAP) s = Some true))
    as (ok & s1 & E1 & Hp1 & Hok).
  { destruct (Z.eqb_spec (cp_uid (proc_at s (cs_cur s))) 0) as [Eu|Eu]; [by exists true, s; naive_solver|].
    destruct (cap_capable CAP_SETFCAP s) as [[b s1]| |] eqn:E.
    - exists b, s1. split; [done|]. unfold cap_capable in E. rewrite (bind_Ret _ _ _ _ _ (run_get s)) in E.
      pose proof (cap_check_inv _ _ _ _ _ E) as (? & _ & _). split; [done|]. unfold value, cap_capable.
      rewrite (bind_Ret _ _ _ _ _ (run_get s)), E. naive_solver.
    - done.
    - done. }
  rewrite (bind_Ret _ _ _ _ _ E1). destruct ok; cbn [negb].
  - rewrite (bind_Ret _ _ _ _ _ (run_get s1)), Hp1. destruct (find_proc pid (cs_procs s)) as [i|] eqn:Ef.
    + rewrite (bind_Ret _ _ _ _ _ (run_modify _ s1)). eexists 0, _. split; [done|]. split_and!.
      * split; [intros _; split_and!; [lia..|done|by apply Hok]|done].
      * done.
      * intros j p Hj. cbn. rewrite Hp1. by apply Halt.
    + exists (-1), s1. split_and!; [done| |done|by apply Hsame]. split; [done|]. by intros (_ & [? ?] & _).
  - exists (-1), s1. split_and!; [done| |done|by apply Hsame]. split; [done|]. intros (_ & _ & H'). by apply Hok in H'.
Qed.

(** ** A concrete process table *)

(** Root (pid 1), and an ordinary process (pid 2) with the default
    capabilities. *)
Definition p_root : cproc := CProc 1 true 0 0xFFFFFFFF 0xFFFFFFFF 0xFFFFFFFF 0xFFFFFFFF.
Definition p_user : cproc := CProc 2 true 1000 0x14000000 0x14000000 0x14000000 0x14000000.
Definition cs_ex : capst := capability_init (CapSt [p_root; p_user] 0 9 0 0 5 5 5 [] 0).

(** The comment in [cap_set] that the effective set cannot exceed the
    permitted set describes only that one assignment: taking capabilities out
    of the permitted set leaves them effective, so [cap_check] still grants
    them; and a child forked by a process whose bounding set was narrowed has
    effective capabilities that its own permitted set lacks. *)
Theorem cap_effective_exceeds_permitted :
  (∃ s, run (cap_set 2 CAP_PERMITTED 0) cs_ex 0 s ∧ cap_get 2 CAP_PERMITTED s = Some 0 ∧
        value (cap_check 2 CAP_NETWORK) s = Some true) ∧
  ∃ parent, run (cap_set 2 CAP_BOUNDING 0) cs_ex 0 (cs_ex <| cs_procs := [p_root; parent] |>) ∧
    let child := cap_fork_init (CProc 3 true 1000 0 0 0 0) parent in
    cp_perm child = 0 ∧ Z.testbit (cp_eff child) CAP_NETWORK = true.
Proof.
  split.
  - eexists. split; [reflexivity|]. by vm_compute.
  - exists (set_caps CAP_BOUNDING 0 p_user). split; [reflexivity|]. by vm_compute.
Qed.

Lemma cs_ex_within : Forall (within 0xFFFFFFFF) (cs_procs cs_ex).
Proof.
  assert (∀ x, Z.land x 0xFFFFFFFF = x → subset x 0xFFFFFFFF) as H by (intros x <-; apply subset_land_r).
  repeat constructor; apply H; reflexivity.
Qed.

Definition cs_dropped : capst := after (cap_drop 2 CAP_NETWORK) cs_ex.

Lemma cap_no_escalation_witness : subset (cp_eff (proc_at cs_dropped 1)) 0xFFFFFFFF.
Proof.
  refine (proj1 (cap_no_escalation 0xFFFFFFFF cs_ex cs_dropped 1 (proc_at cs_dropped 1) cs_ex_within _ eq_refl)).
  apply rtc_once, (ct_drop 2 CAP_NETWORK 0). reflexivity.
Defined.

Lemma cap_check_correct_witness : ∃ s', run (cap_check 2 CAP_NETWORK) cs_ex true s' ∧ cs_granted s' = 1.
Proof.
  destruct (cap_check_correct 2 CAP_NETWORK cs_ex) as (s' & E & _ & _ & Hg & _).
  - unfold CAP_NETWORK, CAP_MAX. lia.
  - reflexivity.
  - exists s'. split; [exact E|exact Hg].
Defined.
