(* ===== verification/Sched.v ===== *)
(** * proc.c: the scheduler

    The scheduling fields of the process table, the policies (earliest
    deadline first, fixed real-time priorities, multi-level feedback queues)
    and the scheduler loop.

    The loop appears twice.  [scheduler_select], [scheduler_dispatch] and
    [scheduler_return] are one turn of it as a function: what it does while no
    other CPU comes between.  [sched_step] is the loop as several CPUs run it,
    one access at a time: the boost counter is read and written back without a
    lock, the boost and the renewal of the deadlines lock one process at a
    time, a process is chosen under its lock, and locked again to be taken.
    Lemma [select_run] connects the two.  [mach_step] adds what the rest of the
    kernel does to the table meanwhile, with the window in which clone has
    filled in an entry, released its lock and not yet made it runnable. *)

From S2P Require Import Prelude ProcTable.

Definition MLFQ_LEVELS : Z := 4.
Definition MLFQ_BOOST_INTERVAL : Z := 100.
Definition mlfq_allotment_init (level : Z) : Z := default 0 ([5; 10; 20; 40] !! Z.to_nat level).

Definition SCHED_NORMAL : Z := 0.
Definition SCHED_FIFO : Z := 1.
Definition SCHED_RR : Z := 2.
Definition SCHED_DEADLINE : Z := 3.

(** ** State *)

(** The fields of [struct proc] that the scheduler reads and writes. *)
Record task := Task {
  t_state : procstate;
  t_pid : Z;
  priority : Z;
  mlfq_level : Z;
  mlfq_ticks : Z;
  mlfq_allotment : Z;
  t_total_ticks : Z;
  sched_policy : Z;
  rt_priority : Z;
  deadline : Z;
  period : Z;
  runtime : Z;
  runtime_remaining : Z;
}.
#[export] Instance task_fields : Fields task := λ t,
  Task (t_state t) (t_pid t) (priority t) (mlfq_level t) (mlfq_ticks t) (mlfq_allotment t)
    (t_total_ticks t) (sched_policy t) (rt_priority t) (deadline t) (period t) (runtime t)
    (runtime_remaining t).

(** Where the loop of one CPU is, with what it holds there: the value of
    [mlfq_boost_counter] in a register, the index of the loops over the table,
    the variable [selected] between choosing a process and taking it, and
    [c->proc] while the process runs. *)
Inductive cpu_loop :=
| Choosing
| Loaded (n : Z)
| Counted (n : Z)
| Boosting (k : nat)
| Updating (k : nat)
| Scanning
| Selected (i : nat)
| OnCpu (i : nat).
#[export] Instance cpu_loop_eq_dec : EqDecision cpu_loop.
Proof. solve_decision. Defined.

Record sched := Sched {
  tasks : list task;
  loops : list cpu_loop;
  boost_counter : Z;
  rt_schedules : Z;
  deadline_misses : Z;
  deadline_schedules : Z;
  s_ticks : Z;
}.
#[export] Instance sched_fields : Fields sched := λ s,
  Sched (tasks s) (loops s) (boost_counter s) (rt_schedules s) (deadline_misses s)
    (deadline_schedules s) (s_ticks s).

(** What allocproc sets. *)
Definition task_alloc (pid : Z) (t : task) : task :=
  t <| t_pid := pid |> <| priority := 10 |> <| mlfq_level := 0 |> <| mlfq_ticks := 0 |>
    <| mlfq_allotment := 5 |> <| t_total_ticks := 0 |> <| sched_policy := 0 |> <| rt_priority := 0 |>
    <| deadline := 0 |> <| period := 0 |> <| runtime := 0 |> <| runtime_remaining := 0 |>.

Definition is_runnable (t : task) : bool := bool_decide (t_state t = RUNNABLE).

(** ** Choosing a process *)

Definition mlfq_boost_one (t : task) : task :=
  if bool_decide (t_state t ≠ UNUSED) then
    t <| mlfq_level := 0 |> <| mlfq_ticks := 0 |> <| mlfq_allotment := mlfq_allotment_init 0 |>
  else t.

Definition mlfq_priority_boost (s : sched) : sched := s <| tasks ::= fmap mlfq_boost_one |>.

Definition is_rt (t : task) : bool := (sched_policy t =? SCHED_FIFO) || (sched_policy t =? SCHED_RR).

Definition find_rt_process (s : sched) : option nat :=
  scan_best (λ t, is_runnable t && is_rt t) rt_priority Z.gtb 0 None (-1) (tasks s).

Definition find_deadline_process (s : sched) : option nat :=
  scan_best (λ t, is_runnable t && (sched_policy t =? SCHED_DEADLINE) && (0 <? runtime_remaining t))
    deadline Z.ltb 0 None 0xFFFFFFFFFFFFFFFF (tasks s).

(** One process of [update_deadline_periods]: the new process, and whether it
    missed its deadline. *)
Definition update_deadline_one (ticks : Z) (t : task) : task * bool :=
  if bool_decide (t_state t ≠ UNUSED) && (sched_policy t =? SCHED_DEADLINE) then
    let missed := (deadline t <? ticks) && (0 <? runtime_remaining t) in
    if deadline t <=? ticks then
      (t <| deadline := u64 (ticks + period t) |> <| runtime_remaining := runtime t |>, missed)
    else (t, missed)
  else (t, false).

Definition update_deadline_periods (s : sched) : sched :=
  let r := update_deadline_one (s_ticks s) <$> tasks s in
  s <| tasks := r.*1 |>
    <| deadline_misses := u64 (deadline_misses s + Z.of_nat (length (filter is_true (r.*2)))) |>.

(** The first runnable normal process of a level, and the scan of the levels
    from the highest ([n] levels are left). *)
Definition mlfq_first (level : Z) (s : sched) : option nat :=
  findi (λ t, is_runnable t && (mlfq_level t =? level) && (sched_policy t =? SCHED_NORMAL)) (tasks s).

Fixpoint mlfq_scan (n : nat) (level : Z) (s : sched) : option nat :=
  match n with
  | O => None
  | S n' => match mlfq_first level s with
            | Some i => Some i
            | None => mlfq_scan n' (level + 1) s
            end
  end.

(** One turn of the loop up to the label [run_process]. *)
Definition scheduler_boost (s : sched) : sched :=
  let s := s <| boost_counter := i32 (boost_counter s + 1) |> in
  if MLFQ_BOOST_INTERVAL <=? boost_counter s then (mlfq_priority_boost s) <| boost_counter := 0 |> else s.

Definition scheduler_select (s : sched) : option nat * sched :=
  let s := update_deadline_periods (scheduler_boost s) in
  match find_deadline_process s with
  | Some i => (Some i, s <| deadline_schedules := u64 (deadline_schedules s + 1) |>)
  | None =>
      match find_rt_process s with
      | Some i => (Some i, s <| rt_schedules := u64 (rt_schedules s + 1) |>)
      | None => (mlfq_scan (Z.to_nat MLFQ_LEVELS) 0 s, s)
      end
  end.

(** ** Taking it, and taking the CPU back *)

(** With the lock of the process held, up to [swtch]; the result says whether
    the CPU switches to the process. *)
Definition scheduler_dispatch (i : nat) (s : sched) : bool * sched :=
  match tasks s !! i with
  | Some t =>
      if is_runnable t then
        (true, s <| tasks ::= <[i := t <| t_state := RUNNING |> <| mlfq_ticks := 0 |>]> |>)
      else (false, s)
  | None => (false, s)
  end.

(** What the loop does after [swtch] to the process it switched to, whose
    state the process has changed. *)
Definition account (t : task) : task :=
  if is_runnable t then
    let t := t <| t_total_ticks := i32 (t_total_ticks t + 1) |> in
    if sched_policy t =? SCHED_DEADLINE then
      if 0 <? runtime_remaining t then t <| runtime_remaining := u64 (runtime_remaining t - 1) |> else t
    else if sched_policy t =? SCHED_NORMAL then
      let t := t <| mlfq_ticks := i32 (mlfq_ticks t + 1) |>
                 <| mlfq_allotment := i32 (mlfq_allotment t - 1) |> in
      if (mlfq_allotment t <=? 0) && (mlfq_level t <? MLFQ_LEVELS - 1) then
        let t := t <| mlfq_level := mlfq_level t + 1 |> in
        t <| mlfq_allotment := mlfq_allotment_init (mlfq_level t) |>
      else t
    else t
  else t.

Definition scheduler_return (i : nat) (s : sched) : sched := s <| tasks ::= alter account i |>.

(** ** The two older schedulers *)

(** scheduler1 runs a process of the highest priority. *)
Definition scheduler1_select (s : sched) : option nat :=
  scan_best is_runnable priority Z.gtb 0 None (-1) (tasks s).

(** One pass of scheduler2 over the table; [swtch] is what happens while the
    process runs.  The result is the variable [found]. *)
Fixpoint scheduler2_pass (swtch : nat → sched → sched) (i n : nat) (found : bool) (s : sched) : bool * sched :=
  match n with
  | O => (found, s)
  | S n' =>
      match tasks s !! i with
      | Some t =>
          if is_runnable t then
            scheduler2_pass swtch (S i) n' true (swtch i (s <| tasks ::= <[i := t <| t_state := RUNNING |>]> |>))
          else scheduler2_pass swtch (S i) n' found s
      | None => scheduler2_pass swtch (S i) n' found s
      end
  end.

(** ** System calls *)

Definition find_pid (pid : Z) (s : sched) : option nat := findi (λ t, t_pid t =? pid) (tasks s).

Definition setPriority (pid prio : Z) : ST sched Z :=
  i ← gets (find_pid pid);
  match i with
  | Some i => _ ← modify (λ s, s <| tasks ::= alter (λ t, t <| priority := prio |>) i |>); mret 0
  | None => mret (-1)
  end.

Definition set_policy (policy prio : Z) (t : task) : task :=
  let t := t <| sched_policy := policy |> in
  if (policy =? SCHED_FIFO) || (policy =? SCHED_RR) then t <| rt_priority := prio |> else t.

Definition sched_setscheduler (pid policy prio : Z) : ST sched Z :=
  if (policy <? 0) || (3 <? policy) then mret (-1)
  else if ((policy =? SCHED_FIFO) || (policy =? SCHED_RR)) && ((prio <? 0) || (99 <? prio)) then mret (-1)
  else
    i ← gets (find_pid pid);
    match i with
    | Some i => _ ← modify (λ s, s <| tasks ::= alter (set_policy policy prio) i |>); mret 0
    | None => mret (-1)
    end.

Definition set_deadline (ticks rt dl per : Z) (t : task) : task :=
  t <| sched_policy := SCHED_DEADLINE |> <| runtime := rt |> <| runtime_remaining := rt |>
    <| period := per |> <| deadline := u64 (ticks + dl) |>.

Definition sched_setdeadline (pid rt dl per : Z) : ST sched Z :=
  if (rt =? 0) || (per =? 0) || (per <? rt) then mret (-1)
  else
    i ← gets (find_pid pid);
    match i with
    | Some i => _ ← modify (λ s, s <| tasks ::= alter (set_deadline (s_ticks s) rt dl per) i |>); mret 0
    | None => mret (-1)
    end.

Definition sched_get_stats (s : sched) : Z * Z * Z := (rt_schedules s, deadline_schedules s, deadline_misses s).

(** ** Snapshots *)

(** What checkpoint_create keeps of these fields and checkpoint_restore writes
    back: the priority and the queue level, not the allotment. *)
Definition save_sched (t : task) : Z * Z := (priority t, mlfq_level t).
Definition restore_sched (x : Z * Z) (t : task) : task := t <| priority := x.1 |> <| mlfq_level := x.2 |>.

(** ** The loops of several CPUs *)

(** What the three searches of the loop accept.  Each holds the lock of the
    process it returns when it has found it to be so. *)
Definition eligible (t : task) : bool :=
  is_runnable t &&
  ((sched_policy t =? SCHED_DEADLINE) && (0 <? runtime_remaining t) || is_rt t || (sched_policy t =? SCHED_NORMAL)).

Definition go_on (c : nat) (l : cpu_loop) (s : sched) : sched := s <| loops ::= <[c := l]> |>.

(** The statistics [deadline_misses], [rt_schedules] and [deadline_schedules]
    are incremented without a lock: a step that touches one leaves any value.
    [STest] compares the value just stored or, if the compiler loads it again,
    the one in memory. *)
Inductive sched_step : sched → sched → Prop :=
| SLoad c s : loops s !! c = Some Choosing → sched_step s (go_on c (Loaded (boost_counter s)) s)
| SStore c n s :
    loops s !! c = Some (Loaded n) →
    sched_step s (go_on c (Counted (i32 (n + 1))) (s <| boost_counter := i32 (n + 1) |>))
| STest c n x s :
    loops s !! c = Some (Counted n) → x = n ∨ x = boost_counter s →
    sched_step s (go_on c (if MLFQ_BOOST_INTERVAL <=? x then Boosting 0 else Updating 0) s)
| SBoost c k s :
    loops s !! c = Some (Boosting k) → (k < length (tasks s))%nat →
    sched_step s (go_on c (Boosting (S k)) (s <| tasks ::= alter mlfq_boost_one k |>))
| SReset c k s :
    loops s !! c = Some (Boosting k) → (length (tasks s) ≤ k)%nat →
    sched_step s (go_on c (Updating 0) (s <| boost_counter := 0 |>))
| SUpdate c k misses s :
    loops s !! c = Some (Updating k) → (k < length (tasks s))%nat →
    sched_step s (go_on c (Updating (S k))
      (s <| tasks ::= alter (λ t, (update_deadline_one (s_ticks s) t).1) k |> <| deadline_misses := misses |>))
| SScan c k s :
    loops s !! c = Some (Updating k) → (length (tasks s) ≤ k)%nat → sched_step s (go_on c Scanning s)
| SFound c i t dl rt s :
    loops s !! c = Some Scanning → tasks s !! i = Some t → eligible t = true →
    sched_step s (go_on c (Selected i) (s <| deadline_schedules := dl |> <| rt_schedules := rt |>))
| SNone c s : loops s !! c = Some Scanning → sched_step s (go_on c Choosing s)
| SDispatch c i s s' b :
    loops s !! c = Some (Selected i) → scheduler_dispatch i s = (b, s') →
    sched_step s (go_on c (if b : bool then OnCpu i else Choosing) s').

(** ** The machine *)

(** What a process may be when it switches back to the scheduler: yield, sleep
    and exit set these states before they call sched. *)
Definition gives_up (st : procstate) : Prop := st = RUNNABLE ∨ st = SLEEPING ∨ st = ZOMBIE.

(** State changes of processes that run on no CPU, each within one critical
    section of the lock of the process: the wakeups (wakeup, kill, futex_wake,
    and sigkill, which also takes a process in pause for sleeping; that one
    keeps its lock whenever it runs), fork and userinit, a fork that fails, and
    the release of a zombie by wait or join. *)
Inductive table_step : task → task → Prop :=
| TWake t : t_state t = SLEEPING → table_step t (t <| t_state := RUNNABLE |>)
| TAlloc pid t : t_state t = UNUSED → table_step t ((task_alloc pid t) <| t_state := RUNNABLE |>)
| TFail pid t : t_state t = UNUSED → table_step t (task_alloc pid t)
| TFree t : t_state t = ZOMBIE → table_step t (t <| t_pid := 0 |> <| t_state := UNUSED |>).

(** The scheduler, the entries that clone has filled in and unlocked while they
    are still UNUSED, and the snapshots.  Three more fields record the run: how
    many turns have been accounted for, whether a clone found its entry RUNNING
    when it locked it again, and whether a snapshot was restored. *)
Record machine := Machine {
  sch : sched;
  half_made : list nat;
  snapshots : list (Z * Z);
  turns : Z;
  raced : bool;
  rewound : bool;
}.
#[export] Instance machine_fields : Fields machine := λ m,
  Machine (sch m) (half_made m) (snapshots m) (turns m) (raced m) (rewound m).

Inductive mach_step : machine → machine → Prop :=
| MLoop m s : sched_step (sch m) s → mach_step m (m <| sch := s |>)
| MReturn c i st m :
    loops (sch m) !! c = Some (OnCpu i) → gives_up st →
    mach_step m (m <| sch ::= λ s,
        go_on c Choosing (scheduler_return i (s <| tasks ::= alter (λ t, t <| t_state := st |>) i |>)) |>
      <| turns ::= Z.succ |>)
| MTable i t t' m :
    tasks (sch m) !! i = Some t → table_step t t' →
    mach_step m (m <| sch ::= λ s, s <| tasks ::= <[i := t']> |> |>)
| MClone pid i t m :
    tasks (sch m) !! i = Some t → t_state t = UNUSED →
    mach_step m (m <| sch ::= λ s, s <| tasks ::= <[i := task_alloc pid t]> |> |> <| half_made ::= cons i |>)
| MCloneRun i t l l' m :
    half_made m = l ++ i :: l' → tasks (sch m) !! i = Some t →
    mach_step m (m <| sch ::= λ s, s <| tasks ::= <[i := t <| t_state := RUNNABLE |>]> |> |>
      <| half_made := l ++ l' |> <| raced ::= orb (bool_decide (t_state t = RUNNING)) |>)
| MSave c i t m :
    loops (sch m) !! c = Some (OnCpu i) → tasks (sch m) !! i = Some t →
    mach_step m (m <| snapshots ::= cons (save_sched t) |>)
| MRestore c i x m :
    loops (sch m) !! c = Some (OnCpu i) → x ∈ snapshots m →
    mach_step m (m <| sch ::= λ s, s <| tasks ::= alter (restore_sched x) i |> |> <| rewound := true |>)
| MPriority pid prio r s m : setPriority pid prio (sch m) = Ret (r, s) → mach_step m (m <| sch := s |>)
| MSetScheduler pid policy prio r s m :
    sched_setscheduler pid policy prio (sch m) = Ret (r, s) → mach_step m (m <| sch := s |>)
| MSetDeadline pid rt dl per r s m :
    0 ≤ rt < 2 ^ 64 → 0 ≤ dl < 2 ^ 64 → 0 ≤ per < 2 ^ 64 →
    sched_setdeadline pid rt dl per (sch m) = Ret (r, s) → mach_step m (m <| sch := s |>)
| MTick m : mach_step m (m <| sch ::= λ s, s <| s_ticks := u32 (s_ticks s + 1) |> |>).

(** ** Well-formedness of the scheduling fields *)

(** The queue fields after [k] accounted turns; the sharper bounds hold as long
    as no snapshot was restored ([r]). *)
Definition mlfq_ok (r : bool) (k : Z) (t : task) : Prop :=
  0 ≤ mlfq_level t < MLFQ_LEVELS ∧ 1 - k ≤ mlfq_allotment t ≤ 40 ∧
  (r = false → mlfq_allotment t ≤ mlfq_allotment_init (mlfq_level t) ∧
               (mlfq_level t < MLFQ_LEVELS - 1 → 1 ≤ mlfq_allotment t)).

Definition class_ok (t : task) : Prop :=
  SCHED_NORMAL ≤ sched_policy t ≤ SCHED_DEADLINE ∧ 0 ≤ rt_priority t ≤ 99 ∧ 0 ≤ deadline t < 2 ^ 64 ∧
  0 ≤ runtime_remaining t ≤ runtime t ∧ runtime t ≤ period t < 2 ^ 64.

Definition task_ok (r : bool) (k : Z) (t : task) : Prop := class_ok t ∧ (t_state t ≠ UNUSED → mlfq_ok r k t).

Definition sched_ok (r : bool) (k : Z) (s : sched) : Prop :=
  0 ≤ k ∧ 0 ≤ s_ticks s < 2 ^ 32 ∧ ∀ i t, tasks s !! i = Some t → task_ok r k t.

(** ** A running process is on one CPU *)

Definition cpu_ok (s : sched) : Prop :=
  (∀ c i, loops s !! c = Some (OnCpu i) → ∃ t, tasks s !! i = Some t ∧ t_state t = RUNNING) ∧
  (∀ c d i, loops s !! c = Some (OnCpu i) → loops s !! d = Some (OnCpu i) → c = d) ∧
  (∀ i t, tasks s !! i = Some t → t_state t = RUNNING → ∃ c, loops s !! c = Some (OnCpu i)).

(** ** What the operations change *)

Lemma update_deadline_state k t : t_state (update_deadline_one k t).1 = t_state t.
Proof. unfold update_deadline_one. repeat case_match; done. Qed.

Lemma update_deadline_mlfq k t :
  mlfq_level (update_deadline_one k t).1 = mlfq_level t ∧ mlfq_allotment (update_deadline_one k t).1 = mlfq_allotment t ∧
  sched_policy (update_deadline_one k t).1 = sched_policy t ∧ rt_priority (update_deadline_one k t).1 = rt_priority t.
Proof. unfold update_deadline_one. repeat case_match; done. Qed.

Lemma boost_one_state t : t_state (mlfq_boost_one t) = t_state t.
Proof. unfold mlfq_boost_one. by case_bool_decide. Qed.

Lemma boost_one_policy t : sched_policy (mlfq_boost_one t) = sched_policy t.
Proof. unfold mlfq_boost_one. by case_bool_decide. Qed.

Lemma account_state t : t_state (account t) = t_state t.
Proof. unfold account. repeat case_match; done. Qed.

(** What one turn of the loop does to a process before it chooses one. *)
Definition refreshed (s : sched) (t : task) : task :=
  (update_deadline_one (s_ticks s)
     (if MLFQ_BOOST_INTERVAL <=? i32 (boost_counter s + 1) then mlfq_boost_one t else t)).1.

Definition refresh (s : sched) : sched := update_deadline_periods (scheduler_boost s).

Lemma refreshed_state s t : t_state (refreshed s t) = t_state t.
Proof. unfold refreshed. rewrite update_deadline_state. case_match; [apply boost_one_state|done]. Qed.

Lemma refresh_tasks s : tasks (refresh s) = refreshed s <$> tasks s.
Proof.
  unfold refresh, update_deadline_periods, scheduler_boost. cbn. unfold refreshed.
  destruct (_ <=? _); cbn; rewrite <-?list_fmap_compose; done.
Qed.

Lemma refresh_rest s :
  loops (refresh s) = loops s ∧ s_ticks (refresh s) = s_ticks s ∧
  boost_counter (refresh s) = (let k := i32 (boost_counter s + 1) in if MLFQ_BOOST_INTERVAL <=? k then 0 else k).
Proof. unfold refresh, update_deadline_periods, scheduler_boost. cbn. destruct (_ <=? _); done. Qed.

Lemma select_frame s r s' : scheduler_select s = (r, s') →
  tasks s' = refreshed s <$> tasks s ∧ loops s' = loops s ∧ s_ticks s' = s_ticks s ∧
  boost_counter s' = boost_counter (refresh s).
Proof.
  unfold scheduler_select. fold (refresh s). rewrite <-refresh_tasks.
  destruct (refresh_rest s) as (<- & <- & _).
  destruct (find_deadline_process _); [by intros [= <- <-]|].
  destruct (find_rt_process _); by intros [= <- <-].
Qed.

Lemma dispatch_inv s i b s' : scheduler_dispatch i s = (b, s') →
  (b = false ∧ s' = s) ∨
  (b = true ∧ ∃ t, tasks s !! i = Some t ∧ t_state t = RUNNABLE ∧
    s' = s <| tasks ::= <[i := t <| t_state := RUNNING |> <| mlfq_ticks := 0 |>]> |>).
Proof.
  unfold scheduler_dispatch, is_runnable. destruct (tasks s !! i) as [t|] eqn:E; [|intros [= <- <-]; by left].
  case_bool_decide; intros [= <- <-]; [right; eauto|by left].
Qed.

(** ** One CPU per running process *)

Definition on_cpu (st : list procstate) (ls : list cpu_loop) : Prop :=
  (∀ c i, ls !! c = Some (OnCpu i) → st !! i = Some RUNNING) ∧
  (∀ c d i, ls !! c = Some (OnCpu i) → ls !! d = Some (OnCpu i) → c = d) ∧
  (∀ i, st !! i = Some RUNNING → ∃ c, ls !! c = Some (OnCpu i)).

Definition states (s : sched) : list procstate := t_state <$> tasks s.

Lemma cpu_ok_on_cpu s : cpu_ok s ↔ on_cpu (states s) (loops s).
Proof.
  unfold cpu_ok, on_cpu, states. setoid_rewrite list_lookup_fmap. setoid_rewrite fmap_Some.
  split; intros (H1 & H2 & H3); split_and!; try done; naive_solver.
Qed.

Ltac lookups := repeat match goal with
  | H : context [<[?c := _]> _ !! ?d] |- _ => rewrite list_lookup_insert_Some in H
  | H : _ ∨ _ |- _ => destruct H
  | H : _ ∧ _ |- _ => destruct H
  end; simplify_eq; try done.

Section on_cpu.
Context (st : list procstate) (ls : list cpu_loop) (Hok : on_cpu st ls).

(** A CPU that runs nothing may change what it waits for. *)
Lemma on_cpu_idle c l l' :
  ls !! c = Some l → (∀ i, l ≠ OnCpu i) → (∀ i, l' ≠ OnCpu i) → on_cpu st (<[c := l']> ls).
Proof.
  destruct Hok as (H1 & H2 & H3). intros Hc Hl Hl'. split_and!.
  - intros d i Hd. lookups; naive_solver.
  - intros d e i Hd He. lookups; naive_solver.
  - intros i Hi. destruct (H3 i Hi) as (d & Hd). exists d. rewrite list_lookup_insert_ne; [done|]. naive_solver.
Qed.

(** It takes a process that is runnable, so on no CPU. *)
Lemma on_cpu_take c l i :
  ls !! c = Some l → (∀ j, l ≠ OnCpu j) → st !! i = Some RUNNABLE →
  on_cpu (<[i := RUNNING]> st) (<[c := OnCpu i]> ls).
Proof.
  destruct Hok as (H1 & H2 & H3). intros Hc Hl Hi. pose proof (lookup_lt_Some _ _ _ Hi).
  pose proof (lookup_lt_Some _ _ _ Hc).
  assert (∀ d, ls !! d ≠ Some (OnCpu i)) as Hno by (intros d Hd; specialize (H1 _ _ Hd); congruence).
  split_and!.
  - intros d j Hd. lookups; [by apply list_lookup_insert_eq|].
    rewrite list_lookup_insert_ne by naive_solver. eauto.
  - intros d e j Hd He. lookups; naive_solver.
  - intros j Hj. lookups; [exists c; by apply list_lookup_insert_eq|].
    destruct (H3 j) as (d & Hd); [done|]. exists d. rewrite list_lookup_insert_ne; [done|]. naive_solver.
Qed.

(** The process it runs gives the CPU back. *)
Lemma on_cpu_leave c i x :
  ls !! c = Some (OnCpu i) → x ≠ RUNNING → on_cpu (<[i := x]> st) (<[c := Choosing]> ls).
Proof.
  destruct Hok as (H1 & H2 & H3). intros Hc Hx. split_and!.
  - intros d j Hd. lookups. rewrite list_lookup_insert_ne; [eauto|]. intros ->. naive_solver.
  - intros d e j Hd He. lookups; naive_solver.
  - intros j Hj. lookups. destruct (H3 j) as (d & Hd); [done|]. exists d.
    rewrite list_lookup_insert_ne; [done|]. naive_solver.
Qed.

(** A process on no CPU changes its state. *)
Lemma on_cpu_table i x y :
  st !! i = Some x → x ≠ RUNNING → y ≠ RUNNING → on_cpu (<[i := y]> st) ls.
Proof.
  destruct Hok as (H1 & H2 & H3). intros Hi Hx Hy. split_and!; [|done|].
  - intros d j Hd. rewrite list_lookup_insert_ne; [eauto|]. intros <-. specialize (H1 _ _ Hd). congruence.
  - intros j Hj. lookups. eauto.
Qed.
End on_cpu.

Lemma states_insert s i t : t_state <$> <[i := t]> (tasks s) = <[i := t_state t]> (states s).
Proof. apply list_fmap_insert. Qed.

(** A change that keeps the state of each process. *)
Lemma states_alter s f i : (∀ t, t_state (f t) = t_state t) → t_state <$> alter f i (tasks s) = states s.
Proof.
  intros H. apply list_eq. intros j. unfold states. rewrite !list_lookup_fmap. destruct (decide (j = i)) as [->|].
  - rewrite list_lookup_alter_eq. destruct (tasks s !! i); simpl; [by rewrite H|done].
  - by rewrite list_lookup_alter_ne.
Qed.

(** The calls that look a process up by pid change one entry, or nothing. *)
Lemma setPriority_inv pid prio s r s' : setPriority pid prio s = Ret (r, s') →
  s' = s ∨ ∃ i, s' = s <| tasks ::= alter (λ t, t <| priority := prio |>) i |>.
Proof. unfold setPriority, gets, mbind, ST_bind. destruct (find_pid pid s); intros [= <- <-]; eauto. Qed.

Lemma setscheduler_inv pid policy prio s r s' : sched_setscheduler pid policy prio s = Ret (r, s') →
  s' = s ∨ ∃ i, 0 ≤ policy ≤ 3 ∧ ((policy = SCHED_FIFO ∨ policy = SCHED_RR) → 0 ≤ prio ≤ 99) ∧
    s' = s <| tasks ::= alter (set_policy policy prio) i |>.
Proof.
  unfold sched_setscheduler, gets, mbind, ST_bind. destruct (_ || _) eqn:E1; [intros [= <- <-]; by left|].
  destruct (_ && _) eqn:E2; [intros [= <- <-]; by left|].
  destruct (find_pid pid s) as [i|]; intros [= <- <-]; [right|by left]. exists i.
  unfold SCHED_FIFO, SCHED_RR in *. split_and!; [lia..| |done]. intros [-> | ->]; lia.
Qed.

Lemma setdeadline_inv pid rt dl per s r s' : sched_setdeadline pid rt dl per s = Ret (r, s') →
  s' = s ∨ ∃ i, rt ≠ 0 ∧ rt ≤ per ∧ s' = s <| tasks ::= alter (set_deadline (s_ticks s) rt dl per) i |>.
Proof.
  unfold sched_setdeadline, gets, mbind, ST_bind. destruct (_ || _) eqn:E1; [intros [= <- <-]; by left|].
  destruct (find_pid pid s) as [i|]; intros [= <- <-]; [right|by left]. exists i. split_and!; [lia..|done].
Qed.

Lemma set_policy_state policy prio t : t_state (set_policy policy prio t) = t_state t.
Proof. unfold set_policy. by destruct (_ || _). Qed.

Lemma table_step_states t t' : table_step t t' → t_state t ≠ RUNNING ∧ t_state t' ≠ RUNNING.
Proof. intros [? E|pid ? E|pid ? E|? E]; cbn; rewrite ?E; done. Qed.

Lemma cpu_ok_loop s s' : cpu_ok s → sched_step s s' → cpu_ok s'.
Proof.
  rewrite !cpu_ok_on_cpu. intros H Hstep. unfold go_on in Hstep.
  destruct Hstep as [| |c n x s Hc _|c k s Hc _| |c k d s Hc _| | | |c i s s1 b Hc E]; unfold states in *; cbn;
    try by eapply on_cpu_idle.
  - eapply on_cpu_idle; [done..|]. by destruct (_ <=? _).
  - rewrite states_alter by apply boost_one_state. by eapply on_cpu_idle.
  - rewrite states_alter by apply update_deadline_state. by eapply on_cpu_idle.
  - apply dispatch_inv in E as [[-> ->]|(-> & t & Ht & Hrun & ->)]; cbn.
    + by eapply on_cpu_idle.
    + rewrite states_insert. cbn. eapply on_cpu_take; [done..|]. unfold states.
      by rewrite list_lookup_fmap, Ht, <-Hrun.
Qed.

(** A process on no CPU is rewritten, and still runs on none. *)
Lemma cpu_ok_insert s i t t' :
  cpu_ok s → tasks s !! i = Some t → t_state t ≠ RUNNING → t_state t' ≠ RUNNING → cpu_ok (s <| tasks ::= <[i := t']> |>).
Proof.
  rewrite !cpu_ok_on_cpu. intros H Ht Hx Hy. unfold states in *. cbn. rewrite states_insert.
  apply (on_cpu_table _ _ H i (t_state t)); [|done..]. unfold states. by rewrite list_lookup_fmap, Ht.
Qed.

Lemma cpu_ok_alter s f i : (∀ t, t_state (f t) = t_state t) → cpu_ok s → cpu_ok (s <| tasks ::= alter f i |>).
Proof. rewrite !cpu_ok_on_cpu. intros Hf H. unfold states in *. cbn. by rewrite states_alter. Qed.

Lemma cpu_ok_return s c i st :
  cpu_ok s → loops s !! c = Some (OnCpu i) → gives_up st →
  cpu_ok (go_on c Choosing (scheduler_return i (s <| tasks ::= alter (λ t, t <| t_state := st |>) i |>))).
Proof.
  rewrite !cpu_ok_on_cpu. intros H Hc Hst. unfold states in *. cbn. rewrite list_alter_alter_eq.
  pose proof (proj1 H) as H1.
  destruct (list_lookup_fmap_Some_1 t_state (tasks s) i RUNNING (H1 _ _ Hc)) as (t & Hrun & Ht).
  rewrite (alter_insert _ _ _ _ Ht), states_insert. cbn. rewrite account_state. cbn.
  apply on_cpu_leave; [done..|]. by destruct Hst as [->|[->| ->]].
Qed.

Lemma cpu_ok_step m m' :
  (raced m = false → cpu_ok (sch m)) → mach_step m m' → raced m' = false → cpu_ok (sch m').
Proof.
  intros H Hstep. destruct Hstep as [m s Hs|c i st m Hc Hst|i t t' m Ht Htt|pid i t m Ht Hu|i t l l' m Hl Ht
    | |c i x m Hc Hx|pid prio r s m E|pid policy prio r s m E|pid rt dl per r s m _ _ _ E|m]; cbn; intros Hr;
    try specialize (H Hr).
  - by eapply cpu_ok_loop.
  - by apply cpu_ok_return.
  - destruct (table_step_states _ _ Htt). by eapply cpu_ok_insert.
  - eapply cpu_ok_insert; [done..| |]; cbn; by rewrite Hu.
  - apply orb_false_iff in Hr as [Hrun%bool_decide_eq_false Hr]. by eapply cpu_ok_insert; eauto.
  - done.
  - by apply cpu_ok_alter.
  - apply setPriority_inv in E as [->|(i & ->)]; [done|]. by apply cpu_ok_alter.
  - apply setscheduler_inv in E as [->|(i & _ & _ & ->)]; [done|]. apply cpu_ok_alter; [apply set_policy_state|done].
  - apply setdeadline_inv in E as [->|(i & _ & _ & ->)]; [done|]. by apply cpu_ok_alter.
  - done.
Qed.

(** The tables at boot: every slot is unused, every CPU is about to choose. *)
Definition task0 : task := Task UNUSED 0 0 0 0 0 0 0 0 0 0 0 0.
Definition sched_boot (ncpu : nat) : sched :=
  Sched (replicate NPROC task0) (replicate ncpu Choosing) 0 0 0 0 0.

Lemma boot_tasks n i t : tasks (sched_boot n) !! i = Some t → t = task0.
Proof. intros [-> _]%lookup_replicate. done. Qed.

Lemma cpu_ok_boot n : cpu_ok (sched_boot n).
Proof.
  split_and!; [by intros c i [? _]%lookup_replicate|by intros c d i [? _]%lookup_replicate|].
  intros i t ->%boot_tasks. done.
Qed.

Definition mach_boot (ncpu : nat) : machine := Machine (sched_boot ncpu) [] [] 0 false false.

(** C25. However several CPUs interleave the accesses of their scheduler loops
    with processes that yield, sleep, exit, are woken, created, cloned,
    snapshotted and reaped meanwhile: as long as no clone has found its entry
    RUNNING when it locked it again to make it runnable, a process in state
    RUNNING is the current process of exactly one CPU, and a CPU only runs a
    process in state RUNNING. *)
Theorem running_on_one_cpu n m : rtc mach_step (mach_boot n) m → raced m = false → cpu_ok (sch m).
Proof. apply (rtc_invariant _ (λ m, raced m = false → cpu_ok (sch m))); [apply cpu_ok_step|intros _; apply cpu_ok_boot]. Qed.

(** ** The scheduling fields stay in range *)

Lemma allotment_pos level : 0 ≤ level < MLFQ_LEVELS → 5 ≤ mlfq_allotment_init level ≤ 40.
Proof.
  unfold MLFQ_LEVELS. intros H. assert (level = 0 ∨ level = 1 ∨ level = 2 ∨ level = 3) as [->|[->|[->| ->]]] by lia;
  vm_compute; split; discriminate.
Qed.

Lemma mlfq_ok_mono r k k' t : k ≤ k' → mlfq_ok r k t → mlfq_ok r k' t.
Proof. intros Hk (Hl & Ha & Hr). split_and!; [lia..|done]. Qed.

Lemma mlfq_ok_fresh r k t : 0 ≤ k → mlfq_level t = 0 → mlfq_allotment t = 5 → mlfq_ok r k t.
Proof.
  intros Hk H1 H2. unfold mlfq_ok. rewrite H1, H2. change (mlfq_allotment_init 0) with 5. unfold MLFQ_LEVELS. lia.
Qed.

Lemma boosted_class t : class_ok t → class_ok (mlfq_boost_one t).
Proof. unfold mlfq_boost_one. by case_bool_decide. Qed.

Lemma boosted_mlfq r k t : 0 ≤ k → mlfq_ok r k t → mlfq_ok r k (mlfq_boost_one t).
Proof. intros Hk H. unfold mlfq_boost_one. case_bool_decide; [by apply mlfq_ok_fresh|done]. Qed.

Lemma update_deadline_class ticks t : 0 ≤ ticks < 2 ^ 32 → class_ok t → class_ok (update_deadline_one ticks t).1.
Proof.
  intros Ht Hc. destruct (update_deadline_mlfq ticks t) as (_ & _ & E3 & E4).
  unfold class_ok in *. rewrite E3, E4. unfold update_deadline_one.
  destruct (_ && _); [|done]. destruct (_ <=? _); [|done]. cbn. pose proof (u64_range (ticks + period t)). lia.
Qed.

Lemma update_deadline_queue r k ticks t : mlfq_ok r k t → mlfq_ok r k (update_deadline_one ticks t).1.
Proof. destruct (update_deadline_mlfq ticks t) as (E1 & E2 & _). unfold mlfq_ok. by rewrite E1, E2. Qed.

Lemma account_class t : class_ok t → class_ok (account t).
Proof. unfold account, class_ok. intros Hc. repeat case_match; try done. cbn in *. rewrite u64_small; lia. Qed.

(** One turn of a process of allotment [1 - k] or more. *)
Lemma account_mlfq r k t : 0 ≤ k < 2 ^ 31 → mlfq_ok r k t → mlfq_ok r (k + 1) (account t).
Proof.
  intros Hk H. pose proof H as (Hl & Ha & Hr). pose proof (allotment_pos _ Hl) as Hinit. unfold account.
  destruct (is_runnable t); [|by apply (mlfq_ok_mono r k); [lia|]]. cbn.
  destruct (_ =? SCHED_DEADLINE); [destruct (_ <? _); apply (mlfq_ok_mono r k); [lia|done|lia|done]|].
  destruct (_ =? SCHED_NORMAL); [|by apply (mlfq_ok_mono r k); [lia|]]. cbn.
  rewrite (i32_small (mlfq_allotment t - 1)) by lia.
  destruct (_ && _) eqn:E2; unfold mlfq_ok, MLFQ_LEVELS in *; cbn.
  - pose proof (allotment_pos (mlfq_level t + 1)). unfold MLFQ_LEVELS in *. lia.
  - split_and!; [lia..|]. intros Hf. specialize (Hr Hf). lia.
Qed.

Lemma class_ok_fresh t :
  sched_policy t = 0 → rt_priority t = 0 → deadline t = 0 → period t = 0 → runtime t = 0 → runtime_remaining t = 0 →
  class_ok t.
Proof. unfold class_ok, SCHED_NORMAL, SCHED_DEADLINE. lia. Qed.

Lemma set_policy_class policy prio t :
  0 ≤ policy ≤ 3 → ((policy = SCHED_FIFO ∨ policy = SCHED_RR) → 0 ≤ prio ≤ 99) →
  class_ok t → class_ok (set_policy policy prio t).
Proof.
  intros Hp Hprio Hc. unfold set_policy.
  destruct (_ || _) eqn:E; unfold class_ok, SCHED_NORMAL, SCHED_DEADLINE, SCHED_FIFO, SCHED_RR in *; cbn; lia.
Qed.

Lemma set_policy_mlfq r k policy prio t : mlfq_ok r k t → mlfq_ok r k (set_policy policy prio t).
Proof. unfold set_policy. by destruct (_ || _). Qed.

Lemma set_deadline_class ticks rt dl per t :
  0 ≤ rt < 2 ^ 64 → 0 ≤ per < 2 ^ 64 → rt ≤ per → class_ok t → class_ok (set_deadline ticks rt dl per t).
Proof.
  intros Hrt Hper Hle Hc. unfold class_ok in *. cbn. pose proof (u64_range (ticks + dl)).
  unfold SCHED_NORMAL, SCHED_DEADLINE. lia.
Qed.

(** An update of one entry. *)
Lemma alter_all {A : Type} (P : A → Prop) (f : A → A) (l : list A) i :
  (∀ j x, l !! j = Some x → P x) → (∀ x, P x → P (f x)) → ∀ j x, alter f i l !! j = Some x → P x.
Proof.
  intros Hl Hf j x. destruct (decide (j = i)) as [->|].
  - rewrite list_lookup_alter_eq. destruct (l !! i) as [y|] eqn:E; [|done]. intros [= <-]. eauto.
  - rewrite list_lookup_alter_ne by done. eauto.
Qed.

(** Somebody will write the entry without looking at its state: a CPU that runs
    it, or a clone that has filled it in. *)
Definition held (F : list nat) (s : sched) (i : nat) : Prop :=
  (∃ c, loops s !! c = Some (OnCpu i)) ∨ i ∈ F.

Definition fields_ok (r : bool) (k : Z) (F : list nat) (s : sched) : Prop :=
  0 ≤ s_ticks s < 2 ^ 32 ∧
  ∀ i t, tasks s !! i = Some t → class_ok t ∧ (t_state t ≠ UNUSED ∨ held F s i → mlfq_ok r k t).

Section fields_ok.
Context (r : bool) (k : Z) (F : list nat) (s : sched) (Hok : fields_ok r k F s).

(** One entry is changed in a way that keeps the ranges. *)
Lemma fields_ok_alter f i :
  (∀ t, class_ok t → class_ok (f t)) → (∀ t, mlfq_ok r k t → mlfq_ok r k (f t)) → (∀ t, t_state (f t) = t_state t) →
  fields_ok r k F (s <| tasks ::= alter f i |>).
Proof.
  destruct Hok as [Ht Hall]. intros H1 H2 H3. split; [done|]. intros j t Hj. cbn in Hj. destruct (decide (j = i)) as [->|].
  - rewrite list_lookup_alter_eq in Hj. destruct (tasks s !! i) as [u|] eqn:E; [|done]. injection Hj as <-.
    destruct (Hall _ _ E) as [Hc Hm]. split; [auto|]. rewrite H3. auto.
  - rewrite list_lookup_alter_ne in Hj by done. exact (Hall _ _ Hj).
Qed.

(** One entry is rewritten. *)
Lemma fields_ok_insert i t :
  class_ok t → mlfq_ok r k t → fields_ok r k F (s <| tasks ::= <[i := t]> |>).
Proof.
  destruct Hok as [Ht Hall]. intros H1 H2. split; [done|].
  intros j u [(-> & <- & _)|[_ Hj]]%list_lookup_insert_Some; [done|]. exact (Hall _ _ Hj).
Qed.

(** A CPU goes on. *)
Lemma fields_ok_go_on c l :
  (∀ i t, l = OnCpu i → tasks s !! i = Some t → t_state t ≠ UNUSED) → fields_ok r k F (go_on c l s).
Proof.
  destruct Hok as [Ht Hall]. intros Hl. split; [done|]. intros i t Hi. destruct (Hall _ _ Hi) as [Hc Hm]. split; [done|].
  intros [Hs|[[d Hd]|HF]]; [by apply Hm; left| |by apply Hm; right; right].
  cbn in Hd. apply list_lookup_insert_Some in Hd as [(_ & -> & _)|[_ Hd]].
  - apply Hm. left. eauto.
  - apply Hm. right. left. eauto.
Qed.

(** More turns, fewer promises, more snapshots. *)
Lemma fields_ok_weaken r' k' F' :
  (∀ t, mlfq_ok r k t → mlfq_ok r' k' t) → (∀ i, i ∈ F' → i ∈ F) → fields_ok r' k' F' s.
Proof.
  destruct Hok as [Ht Hall]. intros Hr HF. split; [done|]. intros i t Hi. destruct (Hall _ _ Hi) as [Hc Hm].
  split; [done|]. intros Hu. apply Hr, Hm. unfold held in *. naive_solver.
Qed.

(** One more entry that clone has filled in. *)
Lemma fields_ok_fill i t :
  class_ok t → mlfq_ok r k t → fields_ok r k (i :: F) (s <| tasks ::= <[i := t]> |>).
Proof.
  destruct Hok as [Ht Hall]. intros H1 H2. split; [done|].
  intros j u Hj. apply list_lookup_insert_Some in Hj as [(-> & <- & _)|[Hne Hj]]; [done|].
  destruct (Hall _ _ Hj) as [Hc Hm]. split; [done|]. intros Hu. apply Hm. unfold held in *. cbn in Hu. set_solver.
Qed.

Lemma fields_ok_entry i t : tasks s !! i = Some t → t_state t ≠ UNUSED ∨ held F s i → class_ok t ∧ mlfq_ok r k t.
Proof. intros Ht Hu. destruct Hok as [_ Hall]. destruct (Hall _ _ Ht) as [Hc Hm]. auto. Qed.
End fields_ok.

Lemma fields_ok_loop r k F s s' : 0 ≤ k → fields_ok r k F s → sched_step s s' → fields_ok r k F s'.
Proof.
  intros Hk Hok Hstep. pose proof Hok as [Hticks _].
  destruct Hstep as [| |c n x s Hc _|c j s Hc _| |c j d s Hc _| | | |c i s s1 b Hc E];
    try (by apply fields_ok_go_on); apply fields_ok_go_on; try done.
  - by destruct (_ <=? _).
  - apply fields_ok_alter; [done|apply boosted_class|by intros; apply boosted_mlfq|apply boost_one_state].
  - refine (fields_ok_alter _ _ _ s Hok _ j _ _ _);
      [by intros; apply update_deadline_class|by intros; apply update_deadline_queue|by intros; apply update_deadline_state].
  - apply dispatch_inv in E as [[-> ->]|(-> & t & Ht & Hrun & ->)]; [done|].
    destruct (fields_ok_entry _ _ _ _ Hok _ _ Ht) as [Hcl Hm]; [left; by rewrite Hrun|]. by apply fields_ok_insert.
  - apply dispatch_inv in E as [[-> ->]|(-> & t & Ht & Hrun & ->)]; [done|]. intros j u [= <-] Hu. cbn in Hu.
    rewrite list_lookup_insert_eq in Hu by (by eapply lookup_lt_Some). by injection Hu as <-.
Qed.

Lemma fields_ok_table r k F s i t t' :
  0 ≤ k → fields_ok r k F s → tasks s !! i = Some t → table_step t t' → fields_ok r k F (s <| tasks ::= <[i := t']> |>).
Proof.
  intros Hk Hok Ht Hstep. destruct Hstep as [t E|pid t E|pid t E|t E].
  - destruct (fields_ok_entry _ _ _ _ Hok _ _ Ht); [left; by rewrite E|]. by apply fields_ok_insert.
  - apply fields_ok_insert; [done|by apply class_ok_fresh|by apply mlfq_ok_fresh].
  - apply fields_ok_insert; [done|by apply class_ok_fresh|by apply mlfq_ok_fresh].
  - destruct (fields_ok_entry _ _ _ _ Hok _ _ Ht); [left; by rewrite E|]. by apply fields_ok_insert.
Qed.

Lemma fields_ok_return r k F s c i st :
  0 ≤ k < 2 ^ 31 → fields_ok r k F s → loops s !! c = Some (OnCpu i) →
  fields_ok r (Z.succ k) F (go_on c Choosing (scheduler_return i (s <| tasks ::= alter (λ t, t <| t_state := st |>) i |>))).
Proof.
  intros Hk Hok Hc. apply fields_ok_go_on; [|done]. unfold scheduler_return. cbn. rewrite list_alter_alter_eq.
  destruct (tasks s !! i) as [t|] eqn:Ht.
  - rewrite (alter_insert _ _ _ _ Ht). destruct (fields_ok_entry _ _ _ _ Hok _ _ Ht); [right; left; eauto|].
    refine (fields_ok_insert _ _ _ s _ i _ _ _).
    + eapply fields_ok_weaken; [done| |done]. intros u. apply mlfq_ok_mono. lia.
    + by apply account_class.
    + by apply account_mlfq.
  - rewrite (list_alter_ext _ id _ (tasks s) i), (list_alter_id id) by (done || (intros ?; congruence)).
    eapply (fields_ok_weaken _ _ _ s); [done| |done]. intros u. apply mlfq_ok_mono. lia.
Qed.

Definition machine_ok (m : machine) : Prop :=
  0 ≤ turns m ∧ (∀ x, x ∈ snapshots m → 0 ≤ x.2 < MLFQ_LEVELS) ∧
  fields_ok (rewound m) (turns m) (half_made m) (sch m).

Lemma machine_ok_step m m' :
  (turns m ≤ 2 ^ 31 → machine_ok m) → mach_step m m' → turns m' ≤ 2 ^ 31 → machine_ok m'.
Proof.
  intros H Hstep. destruct Hstep as [m s Hs|c i st m Hc Hst|i t t' m Ht Htt|pid i t m Ht Hu|i t l l' m Hl Ht
    |c i t m Hc Ht|c i x m Hc Hx|pid prio r s m E|pid policy prio r s m E|pid rt dl per r s m Hrt Hdl Hper E|m];
    cbn; intros Hk; (destruct H as (Hk0 & Hx' & Hok); [cbn; lia|]); (split; [cbn; lia|]); (split; [try exact Hx'|]); cbn.
  - by eapply fields_ok_loop.
  - apply fields_ok_return; [lia|done..].
  - by eapply fields_ok_table.
  - apply fields_ok_fill; [done|by apply class_ok_fresh|by apply mlfq_ok_fresh].
  - rewrite Hl in Hok. destruct (fields_ok_entry _ _ _ _ Hok _ _ Ht) as [Hc Hm]; [right; right; set_solver|].
    apply fields_ok_insert; [|done..]. eapply fields_ok_weaken; [done..|]. set_solver.
  - intros x [->|Hin]%elem_of_cons; [|by apply Hx'].
    destruct (fields_ok_entry _ _ _ _ Hok _ _ Ht) as [_ Hm]; [right; left; eauto|]. apply Hm.
  - done.
  - refine (fields_ok_alter _ _ _ (sch m) _ (restore_sched x) i _ _ _).
    + eapply fields_ok_weaken; [done| |done]. intros t (Hl & Ha & _). split; [exact Hl|]. by split.
    + done.
    + intros t (_ & Ha & _). split; [exact (Hx' _ Hx)|]. by split.
    + done.
  - apply setPriority_inv in E as [->|(i & ->)]; [done|]. by apply fields_ok_alter.
  - apply setscheduler_inv in E as [->|(i & Hpol & Hprio & ->)]; [done|]. apply fields_ok_alter;
      [done|by intros; apply set_policy_class|intros; by apply set_policy_mlfq|apply set_policy_state].
  - apply setdeadline_inv in E as [->|(i & Hne & Hle & ->)]; [done|].
    apply fields_ok_alter; [done|by intros; apply set_deadline_class|done..].
  - destruct Hok as [_ Hall]. split; [|done]. cbn. pose proof (u32_range (s_ticks (sch m) + 1)). lia.
Qed.

Lemma machine_ok_boot n : machine_ok (mach_boot n).
Proof.
  split; [done|]. split; [by intros x ?%elem_of_nil|]. split; [cbn; lia|]. intros i t Ht. apply boot_tasks in Ht as ->.
  split; [unfold class_ok, SCHED_NORMAL, SCHED_DEADLINE; cbn; lia|].
  intros [[]|[[c [? _]%lookup_replicate]|[]%elem_of_nil]]; done.
Qed.

(** C32. Type invariant of the scheduling fields.  In every reachable state,
    whatever races the CPUs lose on the boost counter and whatever clone does
    to its entry: the policy and real-time priority of a process are in range
    and its remaining budget is at most its runtime, which is at most its
    period; the queue level of a process in use is one of the four; its
    allotment is at most 40 and at least 1 minus the number [turns m] of turns
    accounted so far, so that the decrement of the [int] does not overflow
    within [2^31] turns.  Unless a snapshot was restored, the allotment is at
    most that of the level and positive above the lowest level. *)
Theorem sched_fields_typed n m i t :
  rtc mach_step (mach_boot n) m → turns m ≤ 2 ^ 31 → tasks (sch m) !! i = Some t →
  class_ok t ∧ (t_state t ≠ UNUSED → mlfq_ok (rewound m) (turns m) t) ∧
  (t_state t ≠ UNUSED → turns m < 2 ^ 31 → i32 (mlfq_allotment t - 1) = mlfq_allotment t - 1).
Proof.
  intros Hreach Hk Ht. assert (turns m ≤ 2 ^ 31 → machine_ok m) as H.
  { revert Hreach. apply (rtc_invariant _ (λ m, turns m ≤ 2 ^ 31 → machine_ok m)); [apply machine_ok_step|].
    intros _. apply machine_ok_boot. }
  destruct (H Hk) as (Hk0 & _ & _ & Hall). destruct (Hall _ _ Ht) as [Hc Hm]. split_and!; [done|auto|].
  intros Hu Hlt. destruct (Hm (or_introl Hu)) as (_ & Ha & _). apply i32_small. lia.
Qed.

(** ** Which process is chosen *)

(** The ready processes of the three classes.  A deadline of [2^64 - 1] is the
    start value of the search for the earliest one and is never found. *)
Definition dl_ready (t : task) : Prop :=
  t_state t = RUNNABLE ∧ sched_policy t = SCHED_DEADLINE ∧ 0 < runtime_remaining t ∧ deadline t < 2 ^ 64 - 1.
Definition rt_ready (t : task) : Prop :=
  t_state t = RUNNABLE ∧ (sched_policy t = SCHED_FIFO ∨ sched_policy t = SCHED_RR).
Definition normal_ready (t : task) : Prop := t_state t = RUNNABLE ∧ sched_policy t = SCHED_NORMAL.

(** [i] is the first of the ready processes with the least key. *)
Definition chosen (ready : task → Prop) (key : task → Z) (T : list task) (i : nat) : Prop :=
  ∃ t, T !! i = Some t ∧ ready t ∧
    ∀ j u, T !! j = Some u → ready u → key t < key u ∨ (key t = key u ∧ (i ≤ j)%nat).

Definition nobody (ready : task → Prop) (T : list task) : Prop := ∀ j u, T !! j = Some u → ¬ ready u.

Lemma first_best_chosen (ok : task → bool) (key : task → Z) (better : Z → Z → bool) init (ready : task → Prop) sgn T i :
  (∀ t, t ∈ T → ok t = true ∧ better (key t) init = true ↔ ready t) →
  (∀ x y, better x y = true ↔ sgn * x < sgn * y) → sgn = 1 ∨ sgn = -1 →
  first_best ok key better init T i → chosen ready (λ t, sgn * key t) T i.
Proof.
  intros Hready Hbetter Hsgn (t & Ht & Hok & Hb & Hlt & Hle). exists t. split_and!; [done| |].
  - apply Hready; [by eapply list_elem_of_lookup_2|done].
  - intros j u Hu Hru. apply Hready in Hru as [Hoku _]; [|by eapply list_elem_of_lookup_2].
    specialize (Hle j u Hu Hoku). destruct (decide (j < i)%nat) as [Hj|].
    + specialize (Hlt j u Hj Hu Hoku). apply Hbetter in Hlt. by left.
    + destruct (decide (sgn * key t < sgn * key u)) as [|Hge]; [by left|right]. split; [|lia].
      assert (¬ sgn * key u < sgn * key t) by (rewrite <-Hbetter, Hle; done). lia.
Qed.

Lemma none_best_nobody (ok : task → bool) (key : task → Z) (better : Z → Z → bool) init (ready : task → Prop) T :
  (∀ t, t ∈ T → ok t = true ∧ better (key t) init = true ↔ ready t) →
  none_best ok key better init T → nobody ready T.
Proof.
  intros Hready Hn j u Hu Hru. apply Hready in Hru as [Hok Hb]; [|by eapply list_elem_of_lookup_2].
  rewrite (Hn j u Hu Hok) in Hb. done.
Qed.

Lemma find_deadline_correct s :
  match find_deadline_process s with
  | Some i => chosen dl_ready deadline (tasks s) i
  | None => nobody dl_ready (tasks s)
  end.
Proof.
  assert (∀ t, t ∈ tasks s → is_runnable t && (sched_policy t =? SCHED_DEADLINE) && (0 <? runtime_remaining t) = true ∧
    (deadline t <? 0xFFFFFFFFFFFFFFFF) = true ↔ dl_ready t) as Hr.
  { intros t _. unfold is_runnable, dl_ready. rewrite !andb_true_iff, bool_decide_eq_true, Z.eqb_eq, !Z.ltb_lt. intuition lia. }
  unfold find_deadline_process. 
  match goal with |- context [scan_best ?ok _ _ _ _ ?init _] => pose proof (scan_least ok deadline init (tasks s)) as H end.
  destruct (scan_best _ _ _ _ _ _ _) as [i|].
  - eapply first_best_chosen with (sgn := 1) in H; [|done|lia|by left]. destruct H as (t & Ht & Hrt & Hmin).
    exists t. split_and!; [done..|]. intros j u Hu Hru. specialize (Hmin j u Hu Hru). lia.
  - exact (none_best_nobody _ _ _ _ _ _ Hr H).
Qed.

Lemma find_rt_correct s :
  (∀ t, t ∈ tasks s → 0 ≤ rt_priority t) →
  match find_rt_process s with
  | Some i => chosen rt_ready (λ t, -1 * rt_priority t) (tasks s) i
  | None => nobody rt_ready (tasks s)
  end.
Proof.
  intros Hprio. assert (∀ t, t ∈ tasks s → is_runnable t && is_rt t = true ∧ (rt_priority t >? -1) = true ↔ rt_ready t) as Hr.
  { intros t Ht. specialize (Hprio t Ht). unfold is_runnable, is_rt, rt_ready.
    rewrite andb_true_iff, orb_true_iff, bool_decide_eq_true, !Z.eqb_eq, Z.gtb_lt. intuition lia. }
  unfold find_rt_process. 
  match goal with |- context [scan_best ?ok _ _ _ _ ?init _] => pose proof (scan_greatest ok rt_priority init (tasks s)) as H end.
  destruct (scan_best _ _ _ _ _ _ _) as [i|].
  - refine (first_best_chosen _ _ _ _ _ (-1) _ _ Hr _ _ H); [lia|by right].
  - exact (none_best_nobody _ _ _ _ _ _ Hr H).
Qed.

(** The scan of the levels [level, level + n). *)
Lemma mlfq_scan_correct n level s :
  match mlfq_scan n level s with
  | Some i => chosen (λ t, normal_ready t ∧ level ≤ mlfq_level t < level + Z.of_nat n) mlfq_level (tasks s) i
  | None => nobody (λ t, normal_ready t ∧ level ≤ mlfq_level t < level + Z.of_nat n) (tasks s)
  end.
Proof.
  revert level. induction n as [|n IH]; intros level; simpl; [intros j u _; lia|].
  assert (∀ l t, is_runnable t && (mlfq_level t =? l) && (sched_policy t =? SCHED_NORMAL) = true ↔
    normal_ready t ∧ mlfq_level t = l) as Hr.
  { intros l t. unfold is_runnable, normal_ready. rewrite !andb_true_iff, bool_decide_eq_true, !Z.eqb_eq. intuition lia. }
  destruct (mlfq_first level s) as [i|] eqn:E.
  - apply findi_Some in E as [(t & Ht & [Hn Hl]%Hr) Hlt]. exists t. split; [done|]. split; [split; [done|lia]|].
    intros j u Hu [Hnu Hlu]. destruct (decide (mlfq_level u = level)) as [Hl'|]; [right|left; lia].
    split; [lia|]. destruct (decide (j < i)%nat) as [Hj|]; [|lia]. specialize (Hlt j u Hj Hu).
    by rewrite (proj2 (Hr level u)) in Hlt.
  - assert (∀ j u, tasks s !! j = Some u → normal_ready u → mlfq_level u ≠ level) as Hno.
    { intros j u Hu Hnu Hl. eapply findi_None in E; [|done]. by rewrite (proj2 (Hr level u)) in E. }
    specialize (IH (level + 1)). destruct (mlfq_scan n (level + 1) s) as [i|].
    + destruct IH as (t & Ht & [Hn Hl] & Hmin). exists t. split; [done|]. split; [split; [done|lia]|].
      intros j u Hu [Hnu Hlu]. specialize (Hno j u Hu Hnu). apply (Hmin j u Hu). split; [done|lia].
    + intros j u Hu [Hnu Hlu]. specialize (Hno j u Hu Hnu). apply (IH j u Hu). split; [done|lia].
Qed.

Lemma refreshed_ok q k s t :
  0 ≤ k → 0 ≤ s_ticks s < 2 ^ 32 → task_ok q k t → task_ok q k (refreshed s t).
Proof.
  intros Hk Ht [Hc Hm]. split; [|rewrite refreshed_state; intros Hu%Hm]; unfold refreshed.
  - apply update_deadline_class; [done|]. case_match; [by apply boosted_class|done].
  - apply update_deadline_queue. case_match; [by apply boosted_mlfq|done].
Qed.

(** C26. The choice of a scheduler loop that no other CPU disturbs, after it has
    boosted the queues when that is due and renewed the deadline budgets: a ready deadline process with the
    earliest deadline if there is one; otherwise a ready real-time process of
    the highest priority; otherwise a runnable normal process of the highest
    queue level; always the first in the table among equals.  It chooses none
    only when no process of the three classes is ready. *)
Theorem scheduler_select_correct q k s r s' :
  sched_ok q k s → scheduler_select s = (r, s') →
  tasks s' = refreshed s <$> tasks s ∧
  match r with
  | Some i =>
      chosen dl_ready deadline (tasks s') i ∨
      (nobody dl_ready (tasks s') ∧ chosen rt_ready (λ t, -1 * rt_priority t) (tasks s') i) ∨
      (nobody dl_ready (tasks s') ∧ nobody rt_ready (tasks s') ∧ chosen normal_ready mlfq_level (tasks s') i)
  | None => nobody dl_ready (tasks s') ∧ nobody rt_ready (tasks s') ∧ nobody normal_ready (tasks s')
  end.
Proof.
  intros (Hk & Hticks & Hall0) E. split; [by apply select_frame in E as (-> & _)|].
  assert (∀ i t, tasks (refresh s) !! i = Some t → task_ok q k t) as Hall.
  { intros i t. rewrite refresh_tasks. intros (u & -> & Hu)%list_lookup_fmap_Some_1. apply refreshed_ok; eauto. }
  unfold scheduler_select in E. fold (refresh s) in E.
  assert (∀ t, t ∈ tasks (refresh s) → 0 ≤ rt_priority t) as Hprio.
  { intros t [j Hj]%list_elem_of_lookup_1. destruct (Hall _ _ Hj) as [(_ & ? & _) _]. lia. }
  assert (∀ j t, tasks (refresh s) !! j = Some t → normal_ready t → 0 ≤ mlfq_level t < 0 + Z.of_nat (Z.to_nat MLFQ_LEVELS)) as Hlevel.
  { intros j t Hj [Hst _]. destruct (Hall _ _ Hj) as [_ Hm]. rewrite Hst in Hm. destruct (Hm ltac:(done)) as [Hl _].
    unfold MLFQ_LEVELS in *. cbn. lia. }
  pose proof (find_deadline_correct (refresh s)) as Hdl. pose proof (find_rt_correct _ Hprio) as Hrt.
  pose proof (mlfq_scan_correct (Z.to_nat MLFQ_LEVELS) 0 (refresh s)) as Hn.
  destruct (find_deadline_process _) as [i|]; [injection E as <- <-; by left|].
  destruct (find_rt_process _) as [i|]; [injection E as <- <-; right; by left|].
  injection E as Er <-. change (mlfq_scan (Z.to_nat MLFQ_LEVELS) 0 (refresh s) = r) in Er. rewrite Er in Hn. destruct r as [i|].
  - do 2 right. split; [done|]. split; [done|]. destruct Hn as (t & Ht & [Hnt _] & Hmin). exists t. split; [done|]. split; [done|].
    intros j u Hu Hnu. apply (Hmin j u Hu). eauto.
  - split; [done|]. split; [done|]. intros j u Hu Hnu. apply (Hn j u Hu). eauto.
Qed.

(** ** A turn as a function and as steps *)

Lemma eligible_ready t : dl_ready t ∨ rt_ready t ∨ normal_ready t → eligible t = true.
Proof.
  unfold dl_ready, rt_ready, normal_ready, eligible, is_rt, is_runnable.
  rewrite andb_true_iff, !orb_true_iff, andb_true_iff, bool_decide_eq_true, !Z.eqb_eq, Z.ltb_lt. tauto.
Qed.

Lemma select_eligible s i s' : scheduler_select s = (Some i, s') → ∃ t, tasks s' !! i = Some t ∧ eligible t = true.
Proof.
  unfold scheduler_select. fold (refresh s). pose proof (find_deadline_correct (refresh s)) as Hdl.
  destruct (find_deadline_process _) as [j|].
  { intros [= -> <-]. destruct Hdl as (t & Ht & Hr & _). exists t. split; [done|]. apply eligible_ready. by left. }
  clear Hdl. unfold find_rt_process.
  match goal with |- context [scan_best ?ok _ _ _ _ ?init _] => pose proof (scan_greatest ok rt_priority init (tasks (refresh s))) as Hrt end.
  destruct (scan_best _ _ _ _ _ _ _) as [j|].
  { intros [= -> <-]. destruct Hrt as (t & Ht & Hr & _). exists t. split; [done|].
    unfold eligible. apply andb_prop in Hr as [-> ->]. by rewrite orb_true_r. }
  pose proof (mlfq_scan_correct (Z.to_nat MLFQ_LEVELS) 0 (refresh s)) as Hn. intros [= E <-].
  change (mlfq_scan (Z.to_nat MLFQ_LEVELS) 0 (refresh s) = Some i) in E. rewrite E in Hn. destruct Hn as (t & Ht & [Hr _] & _).
  exists t. split; [done|]. apply eligible_ready. auto.
Qed.

(** A loop over the table that locks one process at a time, run without
    interruption from entry [length pre] on. *)
Lemma loop_run (f : task → task) (at_entry : nat → cpu_loop) c s pre l :
  (∀ k s', loops s' !! c = Some (at_entry k) → (k < length (tasks s'))%nat → s_ticks s' = s_ticks s →
    sched_step s' (go_on c (at_entry (S k)) (s' <| tasks ::= alter f k |>))) →
  tasks s = pre ++ l → loops s !! c = Some (at_entry (length pre)) →
  rtc sched_step s (go_on c (at_entry (length (pre ++ l))) (s <| tasks := pre ++ (f <$> l) |>)).
Proof.
  intros Hstep. revert pre. remember (s_ticks s) as ticks eqn:Eticks. revert s Eticks.
  induction l as [|t l IH]; intros [T L b r dm ds tk] Et pre E Hc; cbn in Et, E, Hc; subst T.
  - unfold go_on. cbn. rewrite !app_nil_r in *. rewrite list_insert_id by done. apply rtc_refl.
  - assert (alter f (length pre) (pre ++ t :: l) = (pre ++ [f t]) ++ l) as Ea.
    { rewrite <-app_assoc. pose proof (alter_app_r f pre (t :: l) 0) as Ha. rewrite Nat.add_0_r in Ha. exact Ha. }
    assert (length ((pre ++ [f t]) ++ l) = length (pre ++ t :: l)) as El by (rewrite !length_app; cbn; lia).
    pose proof (IH (Sched (alter f (length pre) (pre ++ t :: l)) (<[c := at_entry (S (length pre))]> L) b r dm ds tk) Et (pre ++ [f t]) Ea) as H.
    unfold go_on in *. cbn in H |- *. rewrite list_insert_insert_eq, El, <-!app_assoc in H.
    eapply rtc_l; [apply (Hstep (length pre)); [done| |done]; cbn; rewrite length_app; cbn; lia|].
    apply H. rewrite list_lookup_insert_eq by (by eapply lookup_lt_Some). rewrite length_app. cbn. do 2 f_equal. lia.
Qed.

(** The boost and the renewal of the deadlines by a CPU that runs undisturbed. *)
Lemma boost_run c T L b rs dm ds tk :
  L !! c = Some Choosing →
  rtc sched_step (Sched T L b rs dm ds tk) (go_on c (Updating 0) (scheduler_boost (Sched T L b rs dm ds tk))).
Proof.
  intros Hc. pose proof (lookup_lt_Some _ _ _ Hc) as Hlt.
  eapply rtc_l; [by apply (SLoad c)|]. eapply rtc_l; [apply (SStore c b); by apply list_lookup_insert_eq|].
  eapply rtc_l; [apply (STest c (i32 (b + 1)) (i32 (b + 1))); [|by left]; cbn; apply list_lookup_insert_eq; by rewrite length_insert|].
  unfold go_on, scheduler_boost. cbn. rewrite !list_insert_insert_eq. destruct (_ <=? i32 _); [|apply rtc_refl].
  etrans; [apply (loop_run mlfq_boost_one Boosting c _ [] T)|].
  - intros k s' H1 H2 _. by apply (SBoost c k).
  - done.
  - cbn. by apply list_lookup_insert_eq.
  - apply rtc_once. refine (eq_ind _ (sched_step _) (SReset c (length T) _ _ _) _ _).
    + cbn. apply list_lookup_insert_eq. by rewrite length_insert.
    + cbn. by rewrite length_fmap.
    + unfold go_on. cbn. by rewrite !list_insert_insert_eq.
Qed.

Lemma deadline_run c s :
  loops s !! c = Some (Updating 0) →
  rtc sched_step s (go_on c Scanning ((update_deadline_periods s) <| deadline_misses := deadline_misses s |>)).
Proof.
  intros Hc. pose proof (lookup_lt_Some _ _ _ Hc) as Hlt.
  etrans; [apply (loop_run (λ t, (update_deadline_one (s_ticks s) t).1) Updating c s [] (tasks s))|].
  - intros k s' H1 H2 <-. exact (SUpdate c k (deadline_misses s') s' H1 H2).
  - done.
  - done.
  - apply rtc_once. refine (eq_ind _ (sched_step _) (SScan c (length (tasks s)) _ _ _) _ _).
    + cbn. by apply list_lookup_insert_eq.
    + cbn. by rewrite length_fmap.
    + unfold go_on, update_deadline_periods. cbn. by rewrite list_insert_insert_eq, <-list_fmap_compose.
Qed.

(** A CPU that runs undisturbed from the top of its loop has chosen what
    [scheduler_select] says, in the state it says, up to the number of misses,
    which the steps leave open. *)
Lemma select_run c s r s' :
  loops s !! c = Some Choosing → scheduler_select s = (r, s') →
  rtc sched_step s (go_on c (if r is Some i then Selected i else Choosing) (s' <| deadline_misses := deadline_misses s |>)).
Proof.
  intros Hc E. pose proof (lookup_lt_Some _ _ _ Hc) as Hlt.
  assert (rtc sched_step s (go_on c Scanning ((refresh s) <| deadline_misses := deadline_misses s |>))) as H.
  { etrans; [destruct s; by apply (boost_run c)|].
    refine (eq_ind _ (rtc sched_step _) (deadline_run c _ _) _ _).
    - apply list_lookup_insert_eq. unfold scheduler_boost. by destruct (_ <=? _).
    - unfold refresh, go_on, update_deadline_periods, scheduler_boost. cbn. destruct (_ <=? _); cbn; by rewrite list_insert_insert_eq. }
  eapply rtc_r; [exact H|]. clear H. destruct (refresh_rest s) as (El & _ & _).
  assert (loops (go_on c Scanning ((refresh s) <| deadline_misses := deadline_misses s |>)) !! c = Some Scanning) as Hs.
  { apply list_lookup_insert_eq. change (c < length (loops (refresh s)))%nat. by rewrite El. }
  assert (s' = (refresh s) <| deadline_schedules := deadline_schedules s' |> <| rt_schedules := rt_schedules s' |>) as Es.
  { unfold scheduler_select in E. fold (refresh s) in E. destruct (find_deadline_process _); [by injection E as <- <-|].
    destruct (find_rt_process _); injection E as <- <-; [done|]. by destruct (refresh s). }
  destruct r as [i|].
  - destruct (select_eligible _ _ _ E) as (t & Ht & Hsel). rewrite Es in Ht.
    refine (eq_ind _ (sched_step _) (SFound c i t (deadline_schedules s') (rt_schedules s') _ Hs Ht Hsel) _ _).
    rewrite Es. unfold go_on. cbn. by rewrite list_insert_insert_eq.
  - refine (eq_ind _ (sched_step _) (SNone c _ Hs) _ _). unfold go_on. cbn. rewrite list_insert_insert_eq.
    unfold scheduler_select in E. fold (refresh s) in E. destruct (find_deadline_process _); [done|].
    destruct (find_rt_process _); [done|]. by injection E as _ <-.
Qed.

(** ** The feedback queues of one CPU *)

(** One turn of the loop of a single CPU; [swtch] is what happens from the
    switch to a process until it switches back.  The result is the process
    that ran, if any. *)
Definition scheduler_turn (swtch : nat → sched → sched) (s : sched) : option nat * sched :=
  match scheduler_select s with
  | (Some i, s) =>
      match scheduler_dispatch i s with
      | (true, s) => (Some i, scheduler_return i (swtch i s))
      | (false, s) => (None, s)
      end
  | (None, s) => (None, s)
  end.

(** The state before turn number [n] of the loop. *)
Fixpoint after_turns (swtch : nat → sched → sched) (n : nat) (s : sched) : sched :=
  match n with
  | O => s
  | S n' => after_turns swtch n' (scheduler_turn swtch s).2
  end.

Section feedback.
Context (swtch : nat → sched → sched).

Definition all_normal (s : sched) : Prop := ∀ j t, tasks s !! j = Some t → sched_policy t = SCHED_NORMAL.

(** While process [i] runs, the first twenty slots stay as they are except that
    [i] is preempted and runnable again; other slots and the clock may change. *)
Definition preempts : Prop := ∀ i s,
  boost_counter (swtch i s) = boost_counter s ∧ (all_normal s → all_normal (swtch i s)) ∧
  ∀ j, (j < 20)%nat →
    tasks (swtch i s) !! j = (if decide (j = i) then (λ t, t <| t_state := RUNNABLE |>) <$> tasks s !! j else tasks s !! j).

Context (Hswtch : preempts).

Definition busy_slots (s : sched) : Prop :=
  ∀ j, (j < 20)%nat → ∃ t, tasks s !! j = Some t ∧ t_state t = RUNNABLE.

(** Slot [j] when [u] turns have passed since the boost. *)
Definition slot_at (u j : nat) (t : task) : Prop :=
  t_state t = RUNNABLE ∧
  if decide (5 * j + 5 ≤ u)%nat then 1 ≤ mlfq_level t
  else mlfq_level t = 0 ∧ mlfq_allotment t = 5 - Z.of_nat (u - 5 * j).

Definition turn_inv (u : nat) (s : sched) : Prop :=
  boost_counter s = Z.of_nat u - 1 ∧ all_normal s ∧
  ∀ j, (j < 20)%nat → ∃ t, tasks s !! j = Some t ∧ slot_at u j t.

Lemma normal_update k t : sched_policy t = SCHED_NORMAL → (update_deadline_one k t).1 = t.
Proof. intros E. unfold update_deadline_one. rewrite E. cbn. by rewrite andb_false_r. Qed.

Lemma refreshed_normal s t : sched_policy t = SCHED_NORMAL →
  refreshed s t = if MLFQ_BOOST_INTERVAL <=? i32 (boost_counter s + 1) then mlfq_boost_one t else t.
Proof. intros E. unfold refreshed. apply normal_update. case_match; [by rewrite boost_one_policy|done]. Qed.

Lemma refresh_normal s : all_normal s → all_normal (refresh s).
Proof.
  intros H j t. rewrite refresh_tasks. intros (t0 & -> & Ht)%list_lookup_fmap_Some_1.
  rewrite refreshed_normal by eauto. case_match; [rewrite boost_one_policy|]; eauto.
Qed.

(** With normal processes only, the first runnable one of level 0 is chosen. *)
Lemma select_first s i t :
  all_normal s → tasks (refresh s) !! i = Some t → t_state t = RUNNABLE → mlfq_level t = 0 →
  (∀ j u, (j < i)%nat → tasks (refresh s) !! j = Some u → mlfq_level u ≠ 0) →
  scheduler_select s = (Some i, refresh s).
Proof.
  intros Hn Ht Hst Hlev Hlt. apply refresh_normal in Hn. unfold scheduler_select. fold (refresh s).
  pose proof (find_deadline_correct (refresh s)) as Hdl. destruct (find_deadline_process _) as [k|].
  { destruct Hdl as (u & Hu & (_ & Hp & _) & _). rewrite (Hn _ _ Hu) in Hp. done. }
  unfold find_rt_process.
  match goal with |- context [scan_best ?ok _ _ _ _ ?init _] => pose proof (scan_greatest ok rt_priority init (tasks (refresh s))) as Hrt end.
  destruct (scan_best _ _ _ _ _ _ _) as [k|].
  { destruct Hrt as (u & Hu & Hok & _). unfold is_rt in Hok. rewrite (Hn _ _ Hu), andb_false_r in Hok. done. }
  assert (mlfq_first 0 (refresh s) = Some i) as E.
  { apply findi_Some. unfold is_runnable. split.
    - exists t. split; [done|]. rewrite (bool_decide_eq_true_2 _ Hst), Hlev, (Hn _ _ Ht). done.
    - intros j u Hj Hu. specialize (Hlt j u Hj Hu). rewrite (proj2 (Z.eqb_neq _ _) Hlt), andb_false_r. done. }
  change (mlfq_scan (Z.to_nat MLFQ_LEVELS) 0 (refresh s))
    with (match mlfq_first 0 (refresh s) with Some i => Some i | None => mlfq_scan 3 1 (refresh s) end).
  by rewrite E.
Qed.

(** The account of a turn of a normal process of level 0. *)
Lemma account_normal t a :
  t_state t = RUNNABLE → sched_policy t = SCHED_NORMAL → mlfq_level t = 0 → mlfq_allotment t = a → 1 ≤ a ≤ 5 →
  t_state (account t) = RUNNABLE ∧ sched_policy (account t) = SCHED_NORMAL ∧
  if decide (a = 1) then 1 ≤ mlfq_level (account t)
  else mlfq_level (account t) = 0 ∧ mlfq_allotment (account t) = a - 1.
Proof.
  intros Hst Hp Hl Ha Hr. rewrite account_state. split; [done|]. unfold account, is_runnable.
  rewrite (bool_decide_eq_true_2 _ Hst). cbn. rewrite Hp. cbn. rewrite Hl, Ha, (i32_small (a - 1)) by lia.
  destruct (decide (a = 1)).
  - rewrite (proj2 (Z.leb_le (a - 1) 0)) by lia. change (0 <? MLFQ_LEVELS - 1) with true.
    split; [done|]. cbn. lia.
  - rewrite (proj2 (Z.leb_gt (a - 1) 0)) by lia. by split.
Qed.

Lemma account_policy t : sched_policy (account t) = sched_policy t.
Proof. unfold account. repeat case_match; done. Qed.

Lemma slot_at_later u j t : (j ≠ u / 5)%nat → slot_at u j t → slot_at (S u) j t.
Proof.
  intros Hj [Hst Hl]. pose proof (Nat.div_mod u 5 ltac:(lia)). pose proof (Nat.mod_upper_bound u 5 ltac:(lia)).
  split; [done|]. case_decide.
  - rewrite decide_True by lia. done.
  - rewrite decide_False by lia. destruct Hl as [? ->]. split; [done|]. lia.
Qed.

Lemma slot_at_run u t :
  let i := (u / 5)%nat in
  slot_at u i t → sched_policy t = SCHED_NORMAL →
  slot_at (S u) i (account (t <| mlfq_ticks := 0 |> <| t_state := RUNNABLE |>)).
Proof.
  intros i [Hst Hl] Hp.
  assert (5 * i ≤ u < 5 * i + 5)%nat by (unfold i; pose proof (Nat.div_mod u 5); pose proof (Nat.mod_upper_bound u 5); lia).
  rewrite decide_False in Hl by lia. destruct Hl as [Hl Ha].
  destruct (account_normal (t <| mlfq_ticks := 0 |> <| t_state := RUNNABLE |>) (5 - Z.of_nat (u - 5 * i)))
    as (Hst' & _ & H'); [done..|lia|]. split; [done|]. repeat case_decide; try lia; try done.
Qed.

(** One turn, from the table the choice is made in. *)
Lemma turn_spec u s :
  all_normal s → (u < 100)%nat → boost_counter (refresh s) = Z.of_nat u →
  (∀ j, (j < 20)%nat → ∃ t, tasks (refresh s) !! j = Some t ∧ slot_at u j t) →
  ∃ s', scheduler_turn swtch s = (Some (u / 5)%nat, s') ∧ turn_inv (S u) s'.
Proof.
  intros Hn Hu Hb Hslots. pose proof (refresh_normal s Hn) as Hn1. set (i := (u / 5)%nat).
  assert (5 * i ≤ u < 5 * i + 5)%nat as Hi by (unfold i; pose proof (Nat.div_mod u 5); pose proof (Nat.mod_upper_bound u 5); lia).
  destruct (Hslots i ltac:(lia)) as (t & Ht & Hslot). pose proof Hslot as [Hst Hlev].
  rewrite decide_False in Hlev by lia. destruct Hlev as [Hlev _].
  unfold scheduler_turn. rewrite (select_first s i t); [|done..|].
  2:{ intros j x Hj Hx. destruct (Hslots j ltac:(lia)) as (y & Hy & _ & Hl). rewrite decide_True in Hl by lia.
      rewrite Hx in Hy. injection Hy as <-. lia. }
  unfold scheduler_dispatch, is_runnable. rewrite Ht, (bool_decide_eq_true_2 _ Hst).
  eexists. split; [done|].
  set (t1 := t <| t_state := RUNNING |> <| mlfq_ticks := 0 |>).
  set (s1 := (refresh s) <| tasks ::= <[i := t1]> |>). destruct (Hswtch i s1) as (Eb & En & Et).
  assert (all_normal s1) as Hn2.
  { intros j x [(-> & <- & _)|[_ Hx]]%list_lookup_insert_Some; [|eauto]. exact (Hn1 _ _ Ht). }
  split_and!.
  - change (boost_counter (swtch i s1) = Z.of_nat (S u) - 1). rewrite Eb.
    change (boost_counter (refresh s) = Z.of_nat (S u) - 1). lia.
  - refine (alter_all (λ t, sched_policy t = SCHED_NORMAL) account _ i (En Hn2) _). intros x. by rewrite account_policy.
  - intros j Hj. change (∃ t, alter account i (tasks (swtch i s1)) !! j = Some t ∧ slot_at (S u) j t).
    destruct (decide (j = i)) as [->|Hne].
    + rewrite list_lookup_alter_eq, Et, decide_True by (done || lia). unfold s1. cbn.
      rewrite list_lookup_insert_eq by (by eapply lookup_lt_Some). eexists. split; [done|].
      apply (slot_at_run u t); [done|]. exact (Hn1 _ _ Ht).
    + rewrite list_lookup_alter_ne, Et, decide_False by done. unfold s1. cbn. rewrite list_lookup_insert_ne by done.
      destruct (Hslots j Hj) as (x & Hx & Hxs). exists x. split; [done|]. by apply slot_at_later.
Qed.

(** A turn that boosts: slot 0 runs. *)
Lemma boost_turn s :
  boost_counter s = 99 → all_normal s → busy_slots s →
  ∃ s', scheduler_turn swtch s = (Some 0%nat, s') ∧ turn_inv 1 s'.
Proof.
  intros Hb Hn Hbusy. apply (turn_spec 0); [done|lia| |].
  - destruct (refresh_rest s) as (_ & _ & ->). by rewrite Hb.
  - intros j Hj. destruct (Hbusy j Hj) as (t & Ht & Hst). exists (refreshed s t).
    rewrite refresh_tasks, list_lookup_fmap, Ht. split; [done|]. split; [by rewrite refreshed_state|].
    rewrite refreshed_normal by eauto. rewrite Hb. unfold mlfq_boost_one.
    rewrite bool_decide_eq_true_2 by (by rewrite Hst). by rewrite decide_False by lia.
Qed.

(** Any other turn. *)
Lemma next_turn u s :
  (1 ≤ u < 100)%nat → turn_inv u s →
  ∃ s', scheduler_turn swtch s = (Some (u / 5)%nat, s') ∧ turn_inv (S u) s'.
Proof.
  intros Hu (Hb & Hn & Hslots).
  assert (MLFQ_BOOST_INTERVAL <=? i32 (boost_counter s + 1) = false) as E.
  { rewrite i32_small by lia. apply Z.leb_gt. unfold MLFQ_BOOST_INTERVAL. lia. }
  apply turn_spec; [done|lia| |].
  - destruct (refresh_rest s) as (_ & _ & ->). cbv zeta. rewrite E, i32_small by lia. lia.
  - intros j Hj. destruct (Hslots j Hj) as (t & Ht & Hs). exists t. split; [|done].
    rewrite refresh_tasks, list_lookup_fmap, Ht. cbn. by rewrite refreshed_normal, E by eauto.
Qed.

Lemma turn_inv_busy u s : turn_inv u s → all_normal s ∧ busy_slots s.
Proof. intros (_ & Hn & Hs). split; [done|]. intros j Hj. destruct (Hs j Hj) as (t & ? & ? & _). eauto. Qed.

(** The state before turn [n], counted from a turn that boosts. *)
Definition turn_state (n : nat) (s : sched) : Prop :=
  let u := (n mod 100)%nat in
  if decide (u = 0%nat) then boost_counter s = 99 ∧ all_normal s ∧ busy_slots s else turn_inv u s.

Lemma turn_state_step n s :
  turn_state n s → ∃ s', scheduler_turn swtch s = (Some (n mod 100 / 5)%nat, s') ∧ turn_state (S n) s'.
Proof.
  unfold turn_state. set (u := (n mod 100)%nat). pose proof (Nat.mod_upper_bound n 100 ltac:(lia)).
  assert ((S n mod 100)%nat = if decide (u = 99)%nat then 0%nat else S u) as ->.
  { unfold u. pose proof (Nat.div_mod n 100 ltac:(lia)). case_decide.
    - symmetry. apply (Nat.mod_unique _ _ (S (n / 100))); lia.
    - symmetry. apply (Nat.mod_unique _ _ (n / 100)); lia. }
  intros Hs. assert (∃ s', scheduler_turn swtch s = (Some (u / 5)%nat, s') ∧ turn_inv (S u) s') as (s' & E & Hi).
  { case_decide as Hu; [rewrite Hu; destruct Hs as (? & ? & ?); by apply boost_turn|]. apply next_turn; [lia|done]. }
  exists s'. split; [done|]. destruct (decide (u = 99)%nat) as [Hu|]; [|by rewrite decide_False by lia].
  rewrite decide_True by done.
  destruct (turn_inv_busy _ _ Hi). split_and!; [|done..]. destruct Hi as (-> & _). rewrite Hu. done.
Qed.

Lemma turn_state_after n m s : turn_state m s → turn_state (n + m) (after_turns swtch n s).
Proof.
  revert m s. induction n as [|n IH]; intros m s Hs; [done|]. simpl.
  destruct (turn_state_step m s Hs) as (s' & -> & Hs'). specialize (IH (S m) s' Hs').
  by replace (S (n + m)) with (n + S m)%nat by lia.
Qed.
End feedback.

(** C36. The schedule of the feedback queues on a single CPU when processes only
    lose it by preemption.  If the first twenty slots hold runnable normal processes and
    no process of the table is a deadline or real-time one, then from a boost on turn [n]
    runs slot [(n mod 100) / 5]: each of the twenty gets five turns in a row
    out of every hundred, and a runnable process in any other slot never runs,
    although the boost is there to prevent starvation. *)
Theorem mlfq_schedule swtch s n :
  preempts swtch → boost_counter s = 99 → all_normal s → busy_slots s →
  (scheduler_turn swtch (after_turns swtch n s)).1 = Some (n mod 100 / 5)%nat ∧ (n mod 100 / 5 < 20)%nat.
Proof.
  intros Hsw Hb Hn Hs. assert (turn_state 0 s) as H0 by done.
  pose proof (turn_state_after swtch Hsw n 0 s H0) as H. rewrite Nat.add_0_r in H.
  destruct (turn_state_step swtch Hsw n _ H) as (s' & -> & _). split; [done|].
  apply Nat.Div0.div_lt_upper_bound. pose proof (Nat.mod_upper_bound n 100). lia.
Qed.

(** ** Real-time processes *)

(** The process that runs is preempted; nothing else changes. *)
Definition swtch_preempt (i : nat) (s : sched) : sched :=
  s <| tasks ::= alter (λ t, t <| t_state := RUNNABLE |>) i |>.

(** What the choice of a real-time process depends on. *)
Definition rt_view (t : task) : procstate * Z * Z := (t_state t, sched_policy t, rt_priority t).

Lemma chosen_unique ready key T i k : chosen ready key T i → chosen ready key T k → i = k.
Proof.
  intros (t & Ht & Hrt & Ht') (u & Hu & Hru & Hu'). specialize (Ht' _ _ Hu Hru). specialize (Hu' _ _ Ht Hrt). lia.
Qed.

Lemma chosen_rt_view T T' i :
  rt_view <$> T = rt_view <$> T' →
  chosen rt_ready (λ t, -1 * rt_priority t) T i → chosen rt_ready (λ t, -1 * rt_priority t) T' i.
Proof.
  intros E (t & Ht & Hrt & Hmin).
  assert (∀ j, rt_view <$> T !! j = rt_view <$> T' !! j) as Ej by (intros j; by rewrite <-!list_lookup_fmap, E).
  pose proof (Ej i) as Ei. rewrite Ht in Ei. destruct (T' !! i) as [t'|] eqn:Ht'; [|done].
  injection Ei as E1 E2 E3. exists t'. split; [done|]. split; [unfold rt_ready in *; by rewrite <-E1, <-E2|].
  intros j u' Hu' Hru'. pose proof (Ej j) as Eu. rewrite Hu' in Eu. destruct (T !! j) as [u|] eqn:Hu; [|done].
  injection Eu as F1 F2 F3. rewrite <-E3, <-F3. apply (Hmin j u Hu). unfold rt_ready in *. by rewrite F1, F2.
Qed.

Lemma refreshed_rt_view s t : rt_view (refreshed s t) = rt_view t.
Proof.
  unfold rt_view, refreshed. destruct (update_deadline_mlfq (s_ticks s)
    (if MLFQ_BOOST_INTERVAL <=? i32 (boost_counter s + 1) then mlfq_boost_one t else t)) as (_ & _ & -> & ->).
  rewrite update_deadline_state. destruct (_ <=? _); [|done]. rewrite boost_one_state, boost_one_policy.
  unfold mlfq_boost_one. by case_bool_decide.
Qed.

Lemma account_rt_view t : rt_view (account t) = rt_view t.
Proof. unfold rt_view. rewrite account_state, account_policy. unfold account. repeat case_match; done. Qed.

(** No deadline process, and [i] is the real-time process to choose. *)
Definition rt_inv (i : nat) (s : sched) : Prop :=
  (∀ j t, tasks s !! j = Some t → sched_policy t ≠ SCHED_DEADLINE ∧ 0 ≤ rt_priority t) ∧
  chosen rt_ready (λ t, -1 * rt_priority t) (tasks s) i.

Lemma rt_inv_view i s s' : rt_view <$> tasks s = rt_view <$> tasks s' → rt_inv i s → rt_inv i s'.
Proof.
  intros E [H1 H2]. split; [|by eapply chosen_rt_view].
  intros j t Ht. apply (f_equal (.!! j)) in E. rewrite !list_lookup_fmap, Ht in E.
  destruct (tasks s !! j) as [t0|] eqn:Ht0; [|done]. injection E as _ <- <-. eauto.
Qed.

Lemma rt_turn i s :
  rt_inv i s → (scheduler_turn swtch_preempt s).1 = Some i ∧ rt_inv i (scheduler_turn swtch_preempt s).2.
Proof.
  intros H. assert (rt_view <$> tasks s = rt_view <$> tasks (refresh s)) as E.
  { rewrite refresh_tasks, <-list_fmap_compose. apply list_fmap_ext. intros j t _. symmetry. apply refreshed_rt_view. }
  pose proof (rt_inv_view i s (refresh s) E H) as [Hno Hch].
  unfold scheduler_turn, scheduler_select. fold (refresh s). revert E Hno Hch.
  generalize (refresh s) as s1. intros s1 E Hno Hch.
  pose proof (find_deadline_correct s1) as Hdl. destruct (find_deadline_process _) as [k|].
  { destruct Hdl as (u & Hu & (_ & Hp & _) & _). by destruct (Hno _ _ Hu). }
  pose proof (find_rt_correct s1) as Hrt. destruct (find_rt_process _) as [k|].
  2:{ destruct Hch as (t & Ht & Hr & _). destruct (Hrt ltac:(intros x [j Hj]%list_elem_of_lookup_1; by destruct (Hno _ _ Hj)) _ _ Ht Hr). }
  rewrite <-(chosen_unique _ _ _ _ _ Hch (Hrt ltac:(intros x [j Hj]%list_elem_of_lookup_1; by destruct (Hno _ _ Hj)))).
  clear k Hrt. destruct Hch as (t & Ht & [Hst Hpol] & _).
  unfold scheduler_dispatch, is_runnable. cbn. rewrite Ht, (bool_decide_eq_true_2 _ Hst). split; [done|].
  eapply rt_inv_view; [|exact H]. rewrite E. cbn. rewrite list_alter_alter_eq.
  apply list_eq. intros j. rewrite !list_lookup_fmap. destruct (decide (j = i)) as [->|Hne].
  - rewrite list_lookup_alter_eq, list_lookup_insert_eq, Ht by (by eapply lookup_lt_Some). cbn.
    rewrite account_rt_view. unfold rt_view. cbn. by rewrite Hst.
  - by rewrite list_lookup_alter_ne, list_lookup_insert_ne.
Qed.

(** SCHED_RR does not rotate: when there is no deadline process, the first
    runnable real-time process of the highest priority runs on every turn for
    as long as it stays runnable, whatever its policy; an equal real-time
    process further on in the table and every normal process get no turn,
    although the code says that SCHED_RR rotates when a time slice is used up. *)
Theorem rt_runs_alone i s n :
  (∀ j t, tasks s !! j = Some t → sched_policy t ≠ SCHED_DEADLINE ∧ 0 ≤ rt_priority t) →
  chosen rt_ready (λ t, -1 * rt_priority t) (tasks s) i →
  (scheduler_turn swtch_preempt (after_turns swtch_preempt n s)).1 = Some i.
Proof.
  intros H1 H2. assert (rt_inv i (after_turns swtch_preempt n s)) as H; [|by apply rt_turn].
  assert (rt_inv i s) as H0 by done. clear H1 H2. revert s H0. induction n as [|n IH]; intros s H0; [done|].
  apply IH. by apply rt_turn.
Qed.

(** ** Instances *)

(** CPU [c] runs through its loop undisturbed and takes process [i]. *)
Definition chosen_by (c i : nat) (s : sched) : sched :=
  go_on c (Selected i) ((scheduler_select s).2 <| deadline_misses := deadline_misses s |>).
Definition taken_by (c i : nat) (m : machine) : machine :=
  m <| sch := go_on c (OnCpu i) (scheduler_dispatch i (chosen_by c i (sch m))).2 |>.

Lemma taken_by_run c i m :
  loops (sch m) !! c = Some Choosing → (scheduler_select (sch m)).1 = Some i →
  (scheduler_dispatch i (chosen_by c i (sch m))).1 = true → rtc mach_step m (taken_by c i m).
Proof.
  intros Hc E1 E2. assert (rtc sched_step (sch m) (chosen_by c i (sch m))) as H.
  { unfold chosen_by. destruct (scheduler_select (sch m)) as [r s'] eqn:E. cbn in E1. subst r.
    exact (select_run c _ (Some i) _ Hc E). }
  apply (rtc_congruence (λ s, m <| sch := s |>) mach_step) in H; [|intros s s' Hs; exact (MLoop (m <| sch := s |>) s' Hs)].
  eapply rtc_r; [destruct m; exact H|]. unfold taken_by.
  destruct (scheduler_dispatch i (chosen_by c i (sch m))) as [b s''] eqn:E. cbn in E2. subst b.
  refine (MLoop (m <| sch := chosen_by c i (sch m) |>) (go_on c (OnCpu i) s'') (SDispatch c i _ _ true _ E)).
  apply list_lookup_insert_eq. destruct (scheduler_select (sch m)) as [r s'] eqn:Es. cbn.
  destruct (select_frame _ _ _ Es) as (_ & -> & _). by eapply lookup_lt_Some.
Qed.

(** Two CPUs; a process is created in slot 0 and taken by CPU 0. *)
Definition m_created : machine :=
  (mach_boot 2) <| sch ::= λ s, s <| tasks ::= <[0%nat := (task_alloc 1 task0) <| t_state := RUNNABLE |>]> |> |>.
Definition m_taken : machine := taken_by 0 0 m_created.

Lemma m_taken_reach : rtc mach_step (mach_boot 2) m_taken.
Proof.
  apply (rtc_l _ _ m_created); [refine (MTable 0 task0 _ (mach_boot 2) _ _); [done|by apply TAlloc]|].
  apply taken_by_run; vm_compute; reflexivity.
Qed.

Lemma running_on_one_cpu_witness :
  rtc mach_step (mach_boot 2) m_taken ∧ t_state <$> tasks (sch m_taken) !! 0%nat = Some RUNNING ∧ cpu_ok (sch m_taken).
Proof.
  split; [exact m_taken_reach|]. split; [vm_compute; reflexivity|].
  apply (running_on_one_cpu 2 m_taken m_taken_reach). vm_compute; reflexivity.
Defined.

(** The exception is real: clone fills in slot 0 and unlocks it, a fork finds
    the slot UNUSED and its child runs on CPU 0, clone makes the slot runnable,
    and CPU 1 takes it as well. *)
Definition m_filled : machine :=
  (mach_boot 2) <| sch ::= λ s, s <| tasks ::= <[0%nat := task_alloc 1 task0]> |> |> <| half_made ::= cons 0%nat |>.
Definition m_forked : machine :=
  m_filled <| sch ::= λ s, s <| tasks ::= <[0%nat := (task_alloc 2 (task_alloc 1 task0)) <| t_state := RUNNABLE |>]> |> |>.
Definition t_child : task := default task0 (tasks (sch (taken_by 0 0 m_forked)) !! 0%nat).
Definition m_cloned : machine :=
  (taken_by 0 0 m_forked) <| sch ::= λ s, s <| tasks ::= <[0%nat := t_child <| t_state := RUNNABLE |>]> |> |>
    <| half_made := [] ++ [] |> <| raced ::= orb (bool_decide (t_state t_child = RUNNING)) |>.

Theorem clone_runs_twice :
  rtc mach_step (mach_boot 2) (taken_by 1 0 m_cloned) ∧ raced (taken_by 1 0 m_cloned) = true ∧
  loops (sch (taken_by 1 0 m_cloned)) = [OnCpu 0; OnCpu 0].
Proof.
  split; [|split; vm_compute; reflexivity].
  apply (rtc_l _ _ m_filled); [refine (MClone 1 0 task0 (mach_boot 2) _ _); done|].
  apply (rtc_l _ _ m_forked); [refine (MTable 0 (task_alloc 1 task0) _ m_filled _ _); [done|by apply TAlloc]|].
  etrans; [apply (taken_by_run 0 0 m_forked); vm_compute; reflexivity|].
  apply (rtc_l _ _ m_cloned);
    [refine (MCloneRun 0 t_child [] [] (taken_by 0 0 m_forked) _ _); vm_compute; reflexivity|].
  apply taken_by_run; vm_compute; reflexivity.
Qed.

(** The boost counter loses updates: two CPUs have gone once around and it
    says one. *)
Example boost_update_lost :
  ∃ s, rtc sched_step (sched_boot 2) s ∧ loops s = [Counted 1; Counted 1] ∧ boost_counter s = 1.
Proof.
  eexists. split.
  { eapply rtc_l; [by apply (SLoad 0)|]. eapply rtc_l; [by apply (SLoad 1)|].
    eapply rtc_l; [by apply (SStore 0 0)|]. eapply rtc_l; [by apply (SStore 1 0)|]. apply rtc_refl. }
  split; reflexivity.
Qed.

Definition t_taken : task := default task0 (tasks (sch m_taken) !! 0%nat).

Lemma sched_fields_typed_witness : t_state t_taken = RUNNING ∧ class_ok t_taken ∧ mlfq_ok false 0 t_taken.
Proof.
  assert (t_state t_taken = RUNNING) as Hst by (vm_compute; reflexivity). split; [exact Hst|].
  destruct (sched_fields_typed 2 m_taken 0 t_taken) as (Hc & Hm & _).
  - exact m_taken_reach.
  - vm_compute; discriminate.
  - vm_compute; reflexivity.
  - split; [exact Hc|]. apply Hm. rewrite Hst. discriminate.
Defined.

(** A normal, a real-time and two deadline processes with equal deadlines. *)
Definition s_classes : sched :=
  Sched [Task RUNNABLE 1 10 0 0 5 0 SCHED_NORMAL 0 0 0 0 0; Task RUNNABLE 2 10 0 0 5 0 SCHED_FIFO 50 0 0 0 0;
         Task RUNNABLE 3 10 0 0 5 0 SCHED_DEADLINE 0 40 20 3 3; Task RUNNABLE 4 10 0 0 5 0 SCHED_DEADLINE 0 40 20 3 2]
    [Choosing] 0 0 0 0 25.

Lemma s_classes_ok : sched_ok false 0 s_classes.
Proof.
  split; [done|]. split; [cbn; lia|].
  intros [|[|[|[|i]]]] t Ht; simplify_eq/=; split; try (intros _; by apply mlfq_ok_fresh);
    unfold class_ok, SCHED_NORMAL, SCHED_DEADLINE, SCHED_FIFO; cbn; lia.
Qed.

Lemma scheduler_select_correct_witness :
  (scheduler_select s_classes).1 = Some 2%nat ∧
  tasks (scheduler_select s_classes).2 = refreshed s_classes <$> tasks s_classes.
Proof.
  split; [vm_compute; reflexivity|]. destruct (scheduler_select s_classes) as [r s'] eqn:E.
  exact (proj1 (scheduler_select_correct false 0 s_classes r s' s_classes_ok E)).
Defined.

(** Twenty-one runnable normal processes, just before a boost. *)
Definition s_twentyone : sched :=
  Sched (replicate 21 (Task RUNNABLE 1 10 2 0 7 0 SCHED_NORMAL 0 0 0 0 0)) [Choosing] 99 0 0 0 0.

Lemma preempts_swtch : preempts swtch_preempt.
Proof.
  intros i s. split; [done|]. split.
  - intros H. refine (alter_all (λ t, sched_policy t = SCHED_NORMAL) _ _ i H _). done.
  - intros j _. cbn. case_decide as E; [by rewrite E, list_lookup_alter_eq|by apply list_lookup_alter_ne].
Qed.

Lemma mlfq_schedule_witness :
  t_state <$> tasks s_twentyone !! 20%nat = Some RUNNABLE ∧
  (scheduler_turn swtch_preempt (after_turns swtch_preempt 234 s_twentyone)).1 = Some (234 mod 100 / 5)%nat.
Proof.
  split; [reflexivity|]. apply (mlfq_schedule swtch_preempt s_twentyone 234).
  - exact preempts_swtch.
  - reflexivity.
  - intros j t [-> _]%lookup_replicate. reflexivity.
  - intros j Hj. eexists. split; [apply lookup_replicate_2; lia|reflexivity].
Defined.

(** Two SCHED_RR processes of the same priority. *)
Definition s_rr : sched :=
  Sched (replicate 2 (Task RUNNABLE 1 10 0 0 5 0 SCHED_RR 10 0 0 0 0)) [Choosing] 0 0 0 0 0.

Lemma rt_runs_alone_witness : (scheduler_turn swtch_preempt (after_turns swtch_preempt 500 s_rr)).1 = Some 0%nat.
Proof.
  apply (rt_runs_alone 0 s_rr 500).
  - intros j t [-> _]%lookup_replicate. cbn. unfold SCHED_RR, SCHED_DEADLINE. lia.
  - eexists. split; [reflexivity|]. split; [split; [reflexivity|right; reflexivity]|].
    intros j u [-> _]%lookup_replicate _. right. cbn. lia.
Defined.
