(* ===== verification/SleepLock.v ===== *)
(** * sleeplock.c over sleep and wakeup of proc.c, instruction by instruction

    The processes of the table take and release one sleep lock.  Each has a
    program counter; a step is one lock operation or one access to shared
    fields, so all interleavings of acquiresleep, releasesleep, sleep, wakeup,
    kill and the scheduler are runs of the relation [sl_step].  The two kinds of
    spin locks involved are [lk->lk] and the lock of each process. *)

From stdpp Require Import functions.
From S2P Require Import Prelude ProcTable.

(** Where a process is.  [A] are the lines of acquiresleep, [S] those of sleep,
    [R] those of releasesleep and of the loop of wakeup in it. *)
Inductive slpc :=
| Idle                                  (* not using the lock *)
| A0                                    (* acquire(&lk->lk) *)
| A1                                    (* while (lk->locked) ...; lk->locked = 1 *)
| A2                                    (* release(&lk->lk) *)
| Holds                                 (* acquiresleep has returned *)
| S1                                    (* acquire(&p->lock) *)
| S2                                    (* release(lk) *)
| S3                                    (* p->chan = chan; p->state = SLEEPING *)
| S4                                    (* sched(): swtch, the scheduler releases p->lock *)
| S5                                    (* off the CPU *)
| S6                                    (* p->chan = 0 *)
| S7                                    (* release(&p->lock) *)
| S8                                    (* acquire(lk) *)
| R0                                    (* acquire(&lk->lk) *)
| R1                                    (* lk->locked = 0 *)
| R2 (j : nat)                          (* wakeup: loop test, acquire(&proc[j].lock) *)
| R3 (j : nat)                          (* if sleeping on the channel, RUNNABLE *)
| R4 (j : nat)                          (* release(&proc[j].lock) *)
| R5.                                   (* release(&lk->lk) *)
#[export] Instance slpc_eq_dec : EqDecision slpc.
Proof. solve_decision. Defined.

Record slst := Slst {
  pc : nat → slpc;
  st : nat → procstate;                 (* p->state *)
  onchan : nat → bool;                  (* p->chan == lk *)
  plock : nat → option nat;             (* who holds p->lock *)
  lk : option nat;                      (* who holds lk->lk *)
  locked : bool;                        (* lk->locked *)
  lpid : option nat;                    (* lk->pid, as the process *)
}.
#[export] Instance slst_fields : Fields slst := λ s,
  Slst (pc s) (st s) (onchan s) (plock s) (lk s) (locked s) (lpid s).

Definition goto (i : nat) (l : slpc) (s : slst) : slst := s <| pc ::= <[i := l]> |>.

Definition take_lk (i : nat) (l : slpc) (s : slst) : option slst :=
  if lk s is None then Some (goto i l (s <| lk := Some i |>)) else None.
Definition drop_lk (i : nat) (l : slpc) (s : slst) : option slst := Some (goto i l (s <| lk := None |>)).
Definition take_p (i j : nat) (l : slpc) (s : slst) : option slst :=
  if plock s j is None then Some (goto i l (s <| plock ::= <[j := Some i]> |>)) else None.
Definition drop_p (i j : nat) (l : slpc) (s : slst) : option slst :=
  Some (goto i l (s <| plock ::= <[j := None]> |>)).

(** The next step of process [i] in a table of [n]; [None] when it spins on a
    lock, sleeps, or has nothing to do. *)
Definition thread_step (n i : nat) (s : slst) : option slst :=
  match pc s i with
  | Idle | Holds => None
  | A0 => take_lk i A1 s
  | A1 => if locked s then Some (goto i S1 s)
          else Some (goto i A2 (s <| locked := true |> <| lpid := Some i |>))
  | A2 => drop_lk i Holds s
  | S1 => take_p i i S2 s
  | S2 => drop_lk i S3 s
  | S3 => Some (goto i S4 (s <| onchan ::= <[i := true]> |> <| st ::= <[i := SLEEPING]> |>))
  | S4 => drop_p i i S5 s
  | S5 => if st s i is RUNNABLE then
            s' ← take_p i i S6 s;
            Some (s' <| st ::= <[i := RUNNING]> |>)
          else None
  | S6 => Some (goto i S7 (s <| onchan ::= <[i := false]> |>))
  | S7 => drop_p i i S8 s
  | S8 => take_lk i A1 s
  | R0 => take_lk i R1 s
  | R1 => Some (goto i (R2 0) (s <| locked := false |> <| lpid := None |>))
  | R2 j => if decide (j < n)%nat then take_p i j (R3 j) s else Some (goto i R5 s)
  | R3 j => Some (goto i (R4 j)
              (if bool_decide (st s j = SLEEPING) && onchan s j then s <| st ::= <[j := RUNNABLE]> |> else s))
  | R4 j => drop_p i j (R2 (S j)) s
  | R5 => drop_lk i Idle s
  end.

Inductive sl_step (n : nat) : slst → slst → Prop :=
| SlThread i s s' : (i < n)%nat → thread_step n i s = Some s' → sl_step n s s'
| SlAcquire i s : (i < n)%nat → pc s i = Idle → st s i = RUNNING → sl_step n s (goto i A0 s)
| SlRelease i s : (i < n)%nat → pc s i = Holds → st s i = RUNNING → sl_step n s (goto i R0 s)
| SlKill i s :
    (* kill: with p->lock held, a sleeping process becomes runnable *)
    (i < n)%nat → plock s i = None → st s i = SLEEPING → sl_step n s (s <| st ::= <[i := RUNNABLE]> |>)
| SlOther i x s :
    (* a process outside these calls sleeps elsewhere, runs or ends *)
    (i < n)%nat → pc s i = Idle ∨ pc s i = Holds → plock s i = None → sl_step n s (s <| st ::= <[i := x]> |>).

Definition sl_boot : slst := Slst (λ _, Idle) (λ _, RUNNING) (λ _, false) (λ _, None) None false None.

(** ** Invariant *)

(** The lines at which a process holds [lk->lk], the lock of process [j], is
    registered on the channel, and has the sleep lock. *)
Definition has_lk (l : slpc) : bool :=
  match l with A1 | A2 | S1 | S2 | R1 | R2 _ | R3 _ | R4 _ | R5 => true | _ => false end.
Definition has_plock (i : nat) (l : slpc) : option nat :=
  match l with S2 | S3 | S4 | S6 | S7 => Some i | R3 j | R4 j => Some j | _ => None end.
Definition on_channel (l : slpc) : bool := match l with S4 | S5 | S6 => true | _ => false end.
Definition owns (l : slpc) : bool := match l with A2 | Holds | R0 | R1 => true | _ => false end.

(** [i] will sleep, or sleeps, until it is woken. *)
Definition waits (P : nat → slpc) (T : nat → procstate) (i : nat) : Prop :=
  P i = S3 ∨ P i = S4 ∨ (P i = S5 ∧ T i = SLEEPING).

(** The loop of wakeup at line [l] will still look at process [i]. *)
Definition ahead (l : slpc) (i : nat) : Prop :=
  match l with R2 j | R3 j => (j ≤ i)%nat | R4 j => (j < i)%nat | _ => False end.

Definition lk_inv (P : nat → slpc) (h : option nat) : Prop := ∀ i, h = Some i ↔ has_lk (P i) = true.
Definition plock_inv (P : nat → slpc) (H : nat → option nat) : Prop :=
  ∀ i j, H j = Some i ↔ has_plock i (P i) = Some j.
Definition chan_inv (P : nat → slpc) (C : nat → bool) : Prop := ∀ i, C i = on_channel (P i).
Definition st_inv (P : nat → slpc) (T : nat → procstate) : Prop :=
  ∀ i, (P i = S4 → T i = SLEEPING) ∧ (P i = S5 → T i = SLEEPING ∨ T i = RUNNABLE) ∧ (P i = S6 → T i ≠ SLEEPING).
Definition own_inv (P : nat → slpc) (b : bool) (h : option nat) : Prop :=
  (b = true → is_Some h) ∧ ∀ i, owns (P i) = true ↔ b = true ∧ h = Some i.
Definition wake_inv (n : nat) (P : nat → slpc) (T : nat → procstate) (b : bool) : Prop :=
  b = false → ∀ i, (i < n)%nat → P i ≠ S1 ∧ P i ≠ S2 ∧ (waits P T i → ∃ w, ahead (P w) i).

Record sl_ok (n : nat) (s : slst) : Prop := SlOk {
  sl_range : ∀ i, (n ≤ i)%nat → pc s i = Idle;
  sl_lk : lk_inv (pc s) (lk s);
  sl_plock : plock_inv (pc s) (plock s);
  sl_chan : chan_inv (pc s) (onchan s);
  sl_st : st_inv (pc s) (st s);
  sl_own : own_inv (pc s) (locked s) (lpid s);
  sl_wake : wake_inv n (pc s) (st s) (locked s);
}.

(** ** How the parts change when process [i] moves to line [l] *)

Lemma fn_insert_eq {A : Type} (f : nat → A) i x : (<[i := x]> f) i = x.
Proof. apply fn_lookup_insert. Qed.
Lemma fn_insert_ne {A : Type} (f : nat → A) i j x : i ≠ j → (<[i := x]> f) j = f j.
Proof. apply fn_lookup_insert_ne. Qed.
Create HintDb fn.
#[local] Hint Rewrite @fn_insert_eq : fn.
#[local] Hint Rewrite @fn_insert_ne using congruence : fn.

(** Case analysis on whether process [k] is the one that moves. *)
Ltac moved i k := destruct (decide (i = k)) as [<-|?]; autorewrite with fn.

Section move.
Context (P : nat → slpc) (i : nat) (l : slpc).

Lemma lk_keep h : lk_inv P h → has_lk l = has_lk (P i) → lk_inv (<[i := l]> P) h.
Proof. intros H E k. moved i k; [rewrite E|]; apply H. Qed.

Lemma lk_take : lk_inv P None → has_lk l = true → lk_inv (<[i := l]> P) (Some i).
Proof.
  intros H E k. moved i k; [by rewrite E|]. split; [congruence|]. intros Hk%H. done.
Qed.

Lemma lk_drop h : lk_inv P h → has_lk (P i) = true → has_lk l = false → lk_inv (<[i := l]> P) None.
Proof.
  intros H Ei E k. moved i k; [by rewrite E|]. split; [done|]. intros Hk%H. apply H in Ei. congruence.
Qed.

Lemma plock_keep H : plock_inv P H → has_plock i l = has_plock i (P i) → plock_inv (<[i := l]> P) H.
Proof. intros Hp E k j. moved i k; [rewrite E|]; apply Hp. Qed.

Lemma plock_take H j : plock_inv P H → H j = None → has_plock i (P i) = None → has_plock i l = Some j →
  plock_inv (<[i := l]> P) (<[j := Some i]> H).
Proof.
  intros Hp Hj Ei E k m. moved j m.
  - moved i k; [by rewrite E|]. rewrite <-(Hp k j), Hj. naive_solver.
  - moved i k; [|apply Hp]. rewrite E, (Hp i m), Ei. naive_solver.
Qed.

Lemma plock_drop H j : plock_inv P H → has_plock i (P i) = Some j → has_plock i l = None →
  plock_inv (<[i := l]> P) (<[j := None]> H).
Proof.
  intros Hp Ei E k m. moved j m.
  - moved i k; [by rewrite E|]. split; [done|]. intros Hk%Hp. apply Hp in Ei. congruence.
  - moved i k; [|apply Hp]. rewrite E, (Hp i m), Ei. naive_solver.
Qed.

Lemma chan_keep C : chan_inv P C → on_channel l = on_channel (P i) → chan_inv (<[i := l]> P) C.
Proof. intros H E k. moved i k; [rewrite E|]; apply H. Qed.

Lemma chan_set C : chan_inv P C → chan_inv (<[i := l]> P) (<[i := on_channel l]> C).
Proof. intros H k. moved i k; [done|apply H]. Qed.

Lemma st_move T : st_inv P T → l ≠ S4 → l ≠ S5 → l ≠ S6 → st_inv (<[i := l]> P) T.
Proof. intros H ? ? ? k. moved i k; [done|apply H]. Qed.

Lemma st_set T x : st_inv P T → (l = S4 → x = SLEEPING) → (l = S5 → x = SLEEPING ∨ x = RUNNABLE) →
  (l = S6 → x ≠ SLEEPING) →
  st_inv (<[i := l]> P) (<[i := x]> T).
Proof. intros H ? ? ? k. moved i k; [done|apply H]. Qed.

Lemma st_off T : st_inv P T → P i = S4 → st_inv (<[i := S5]> P) T.
Proof. intros H E k. moved i k; [|apply H]. split_and!; [done| |done]. left. by apply H. Qed.

Lemma st_woken T : st_inv P T → P i ≠ S4 → st_inv P (<[i := RUNNABLE]> T).
Proof. intros H E k. moved i k; [|apply H]. split_and!; [done|by right|done]. Qed.

Lemma own_keep b h : own_inv P b h → owns l = owns (P i) → own_inv (<[i := l]> P) b h.
Proof. intros [H1 H2] E. split; [done|]. intros k. moved i k; [rewrite E|]; apply H2. Qed.

Lemma own_take h : own_inv P false h → owns l = true → own_inv (<[i := l]> P) true (Some i).
Proof.
  intros [_ H] E. split; [done|]. intros k. moved i k; [rewrite E; split; done|]. rewrite (H k). split; [by intros []|intros [_ ?]; congruence].
Qed.

Lemma own_drop b h : own_inv P b h → owns (P i) = true → owns l = false → own_inv (<[i := l]> P) false None.
Proof.
  intros [_ H] Ei E. split; [done|]. intros k. moved i k; [rewrite E; split; [done|by intros []]|].
  apply H in Ei as [-> ->]. rewrite (H k). split; [intros [_ ?]; congruence|by intros []].
Qed.
End move.

(** The wake-up part.  A process that may sleep while the lock is free has a
    loop of wakeup ahead of it. *)
Section wake.
Context (n : nat) (P : nat → slpc) (T : nat → procstate) (i : nat) (l : slpc).

(** Moves of [i] that do not make it wait and do not pass a process. *)
Lemma wake_keep T' b :
  wake_inv n P T b → l ≠ S1 → l ≠ S2 → (∀ k, i ≠ k → T' k = T k) → (waits (<[i := l]> P) T' i → waits P T i) →
  (∀ k, (k < n)%nat → ahead (P i) k → ahead l k) → wake_inv n (<[i := l]> P) T' b.
Proof.
  intros H Hl1 Hl2 HT Hw Ha Hb k Hk. destruct (H Hb k Hk) as (H1 & H2 & H3).
  split; [by moved i k|]. split; [by moved i k|]. intros Hwk.
  destruct H3 as [w Hw']; [|exists w; moved i w; auto].
  destruct (decide (i = k)) as [<-|]; [by apply Hw|]. unfold waits in *. rewrite !fn_insert_ne, HT in Hwk by done. done.
Qed.

(** The lock becomes free: the loop of wakeup is ahead of everyone. *)
Lemma wake_release :
  (∀ k, P k = S1 ∨ P k = S2 → k = i) → wake_inv n (<[i := R2 0]> P) T false.
Proof.
  intros H _ k Hk. split; [moved i k; [done|]; intros E; naive_solver|].
  split; [moved i k; [done|]; intros E; naive_solver|].
  intros _. exists i. autorewrite with fn. simpl. lia.
Qed.

(** The loop looks at process [j], whose lock it holds. *)
Lemma wake_visit b j C :
  P i = R3 j → wake_inv n P T b → P j ≠ S3 → P j ≠ S4 → chan_inv P C →
  wake_inv n (<[i := R4 j]> P)
    (if bool_decide (T j = SLEEPING) && C j then <[j := RUNNABLE]> T else T) b.
Proof.
  intros Ei H HS3 HS4 HC Hb k Hk. destruct (H Hb k Hk) as (H1 & H2 & H3).
  split; [by moved i k|]. split; [by moved i k|]. unfold waits. moved i k; [by intros [|[|[]]]|]. intros Hwk.
  destruct (decide (j = k)) as [<-|Hjk].
  - destruct Hwk as [|[|[E5 Est]]]; [done..|]. rewrite (HC j), E5, andb_true_r in Est.
    case_bool_decide as E; [|done]. by rewrite fn_insert_eq in Est.
  - destruct H3 as [w Hw].
    + unfold waits. destruct (_ && _); [by rewrite fn_insert_ne in Hwk|done].
    + exists w. moved i w; [|done]. rewrite Ei in Hw. simpl in *. lia.
Qed.

(** Process [i] becomes runnable or changes state outside the protocol. *)
Lemma wake_state b x :
  wake_inv n P T b → (x ≠ SLEEPING ∨ P i ≠ S5) → wake_inv n P (<[i := x]> T) b.
Proof.
  intros H Hx Hb k Hk. destruct (H Hb k Hk) as (H1 & H2 & H3). split; [done|]. split; [done|].
  intros Hw. apply H3. unfold waits in *. revert Hw. moved i k; naive_solver.
Qed.
End wake.

(** ** Every step keeps the invariant *)

Lemma range_goto n i l P : (i < n)%nat → (∀ k, (n ≤ k)%nat → P k = Idle) → ∀ k, (n ≤ k)%nat → (<[i := l]> P) k = Idle.
Proof. intros Hi H k Hk. rewrite fn_insert_ne by lia. auto. Qed.

(** Only one process can be in sleep with the lock held. *)
Lemma lk_unique P h i k : lk_inv P h → has_lk (P i) = true → has_lk (P k) = true → k = i.
Proof. intros H Hi%H Hk%H. congruence. Qed.

Lemma not_seen n P T b i : wake_inv n P T b → (i < n)%nat → P i = S1 ∨ P i = S2 → b = true.
Proof. intros H Hi HS. destruct b; [done|]. destruct (H eq_refl i Hi) as (? & ? & _). naive_solver. Qed.

(** The parts that follow from the line [i] leaves and the line it goes to. *)
Ltac part E := first
  [ by apply range_goto
  | apply lk_keep; [done|by rewrite E]
  | by apply lk_take
  | eapply lk_drop; [done|by rewrite E|done]
  | apply plock_keep; [done|by rewrite E]
  | apply plock_take; [done|done|by rewrite E|done]
  | apply plock_drop; [done|by rewrite E|done]
  | apply chan_keep; [done|by rewrite E]
  | refine (chan_set _ _ _ _ _); done
  | by apply st_move
  | by apply st_set
  | by apply st_off
  | apply own_keep; [done|by rewrite E]
  | eapply own_take; [done|done]
  | eapply own_drop; [done|by rewrite E|done]
  | eapply wake_keep; [eassumption|done|done|by intros; rewrite ?fn_insert_ne
      |unfold waits; rewrite ?fn_insert_eq, ?E; naive_solver|intros k ?; rewrite E; simpl; lia]
  | done ].

(** A process whose lock another one holds is not about to sleep. *)
Lemma visited_not_sleeping P H i j : plock_inv P H → P i = R3 j → P j ≠ S3 ∧ P j ≠ S4.
Proof.
  intros Hp Ei. assert (H j = Some i) as Hj by (apply Hp; by rewrite Ei).
  split; intros E; assert (H j = Some j) as Hj' by (apply Hp; by rewrite E); congruence.
Qed.

Lemma thread_step_ok n i s s' : (i < n)%nat → sl_ok n s → thread_step n i s = Some s' → sl_ok n s'.
Proof.
  intros Hi [Hr Hlk Hp Hc Hst Ho Hw] E. unfold thread_step in E.
  destruct (pc s i) eqn:Epc; unfold take_lk, drop_lk, take_p, drop_p in E;
    repeat case_match; simplify_eq/=; split; cbn; try part Epc.
  - rewrite H. apply own_keep; [done|by rewrite Epc].
  - by rewrite H.
  - by rewrite (not_seen _ _ _ _ i Hw) by auto.
  - by rewrite (not_seen _ _ _ _ i Hw) by auto.
  - apply wake_release. intros k Hk. eapply lk_unique; [done|by rewrite Epc|]. by destruct Hk as [-> | ->].
  - destruct (visited_not_sleeping _ _ _ _ Hp Epc). apply st_move; [|done..]. by apply st_woken.
  - destruct (visited_not_sleeping _ _ _ _ Hp Epc). pose proof (wake_visit n _ _ i _ j _ Epc Hw ltac:(done) ltac:(done) Hc) as Hv.
    by rewrite H in Hv.
  - destruct (visited_not_sleeping _ _ _ _ Hp Epc). pose proof (wake_visit n _ _ i _ j _ Epc Hw ltac:(done) ltac:(done) Hc) as Hv.
    by rewrite H in Hv.
Qed.

Lemma sl_step_ok n s s' : sl_ok n s → sl_step n s s' → sl_ok n s'.
Proof.
  intros Hok Hstep. destruct Hstep as [i s s' Hi E|i s Hi Epc Est|i s Hi Epc Est|i s Hi Hpl Est|i x s Hi Epc Hpl];
    [by eapply thread_step_ok|destruct Hok as [Hr Hlk Hp Hc Hst Ho Hw]..]; split; cbn; try part Epc; try done.
  - apply st_woken; [done|]. intros E. assert (plock s i = Some i) by (apply Hp; by rewrite E). congruence.
  - apply wake_state; [done|by left].
  - intros k. moved i k; [destruct Epc as [-> | ->]; done|apply Hst].
  - apply wake_state; [done|right; destruct Epc as [-> | ->]; done].
Qed.

Lemma sl_boot_ok n : sl_ok n sl_boot.
Proof.
  split; cbn; [done|by split|by split|done|done| |].
  - split; [done|]. intros i. split; [done|by intros []].
  - intros _ i _. split_and!; [done..|]. by intros [|[|[]]].
Qed.

Lemma sl_reach_ok n s : rtc (sl_step n) sl_boot s → sl_ok n s.
Proof. apply rtc_invariant; [apply sl_step_ok|apply sl_boot_ok]. Qed.

(** ** What it means *)

(** C20. The sleep lock excludes: in every interleaving of acquiresleep,
    releasesleep, sleep, wakeup, kill and the scheduler over any number of
    processes, at most one process has the lock, [lk->locked] is set exactly
    then, and [lk->pid] names that process. *)
Theorem sleeplock_exclusive n s :
  rtc (sl_step n) sl_boot s →
  (∀ i j, owns (pc s i) = true → owns (pc s j) = true → i = j) ∧
  (∀ i, owns (pc s i) = true → locked s = true ∧ lpid s = Some i) ∧
  (locked s = true → ∃ i, owns (pc s i) = true).
Proof.
  intros [_ _ _ _ _ [Hsome Hown] _]%sl_reach_ok. split_and!.
  - intros i j [_ Hi]%Hown [_ Hj]%Hown. congruence.
  - intros i. apply Hown.
  - intros Hl. destruct (Hsome Hl) as [i Hi]. exists i. by apply Hown.
Qed.

(** C21. No wakeup is lost: when the sleep lock is free, a process that sleeps on
    it, or has decided to sleep (it has found the lock taken and released
    [lk->lk] but is not asleep yet), will still be visited by the loop of a
    releasesleep that is under way; so when no releasesleep is in its loop,
    nobody sleeps on a free lock. *)
Theorem sleeplock_no_lost_wakeup n s i :
  rtc (sl_step n) sl_boot s → locked s = false → (i < n)%nat →
  (waits (pc s) (st s) i → ∃ w, ahead (pc s w) i) ∧
  ((∀ w, ¬ ahead (pc s w) i) → ¬ (st s i = SLEEPING ∧ onchan s i = true)).
Proof.
  intros [_ _ _ Hc Hst _ Hw]%sl_reach_ok Hl Hi. destruct (Hw Hl i Hi) as (_ & _ & H). split; [done|].
  intros Hno [Es Hch]. rewrite (Hc i) in Hch.
  assert (waits (pc s) (st s) i) as (w & Hw')%H; [|by apply (Hno w)].
  unfold waits. destruct (Hst i) as (_ & _ & H6). destruct (pc s i); try done; [by right; left|by do 2 right|].
  by destruct (H6 eq_refl).
Qed.

Lemma enabled_take_p i j l s : plock s j = None → is_Some (take_p i j l s).
Proof. intros E. unfold take_p. by rewrite E. Qed.

(** Whoever holds [lk->lk] can move, or the holder of the process lock it
    waits for can. *)
Lemma lk_holder_moves n s h : sl_ok n s → lk s = Some h → ∃ k, (k < n)%nat ∧ is_Some (thread_step n k s).
Proof.
  intros [Hr Hlk Hp Hc Hst Ho Hw] Eh.
  assert (∀ k, pc s k ≠ Idle → (k < n)%nat) as Hlt.
  { intros k Hk. destruct (decide (k < n)%nat); [done|]. destruct Hk. apply Hr. lia. }
  assert (has_lk (pc s h) = true) as Hh by by apply Hlk.
  assert (∀ k, has_lk (pc s k) = true → k = h) as Huniq by (intros k; by apply lk_unique with (h := lk s)).
  destruct (pc s h) eqn:Epc; try done;
    try (exists h; split; [apply Hlt; by rewrite Epc|unfold thread_step; rewrite Epc; try done; by repeat case_match]).
  - exists h. split; [apply Hlt; by rewrite Epc|]. unfold thread_step. rewrite Epc. apply enabled_take_p.
    destruct (plock s h) as [k|] eqn:E; [|done]. apply Hp in E as Ek.
    destruct (decide (k = h)) as [->|Hne]; [by rewrite Epc in Ek|].
    destruct (pc s k) eqn:Ek'; simpl in Ek; simplify_eq; destruct Hne; apply Huniq; by rewrite Ek'.
  - destruct (decide (j < n)%nat) as [Hj|Hj].
    2:{ exists h. split; [apply Hlt; by rewrite Epc|]. unfold thread_step. rewrite Epc. by case_decide. }
    destruct (plock s j) as [k|] eqn:E.
    + apply Hp in E as Ek. exists k. split; [apply Hlt; intros E'; by rewrite E' in Ek|]. unfold thread_step.
      destruct (pc s k) eqn:Ek'; simpl in Ek; try done.
    + exists h. split; [apply Hlt; by rewrite Epc|]. unfold thread_step. rewrite Epc. case_decide; [|done].
      by apply enabled_take_p.
Qed.

(** No deadlock: whenever a process is inside acquiresleep or releasesleep
    (spinning, asleep or running), some process can take a step of these calls,
    or a process that has acquired the lock can go on to release it. *)
Theorem sleeplock_progress n s i :
  rtc (sl_step n) sl_boot s → pc s i ≠ Idle →
  (∃ k, (k < n)%nat ∧ is_Some (thread_step n k s)) ∨ (∃ o, pc s o = Holds).
Proof.
  intros Hok%sl_reach_ok Hi. destruct (lk s) as [h|] eqn:Eh; [left; by eapply lk_holder_moves|].
  destruct Hok as [Hr Hlk Hp Hc Hst Ho Hw]. rewrite Eh in Hlk.
  assert (∀ k, has_lk (pc s k) = false) as Hno.
  { intros k. destruct (has_lk (pc s k)) eqn:E; [|done]. by apply Hlk in E. }
  assert (∀ k, pc s k ≠ Idle → (k < n)%nat) as Hlt.
  { intros k Hk. destruct (decide (k < n)%nat); [done|]. destruct Hk. apply Hr. lia. }
  specialize (Hlt i Hi) as Hin. pose proof (Hno i) as Hi'.
  destruct (pc s i) eqn:Epc; try done; try (by right; exists i);
    try (left; exists i; split; [done|]; unfold thread_step, take_lk; rewrite Epc, ?Eh; done).
  destruct (Hst i) as (_ & H5 & _). destruct (H5 Epc) as [Es|Es].
  - destruct (locked s) eqn:El.
    + destruct Ho as [Hsome Hown]. destruct (Hsome eq_refl) as [o Eo].
      assert (owns (pc s o) = true) as Hoo by by apply Hown. specialize (Hno o).
      destruct (pc s o) eqn:Epo; try done; [by right; exists o|]. left. exists o.
      split; [apply Hlt; by rewrite Epo|]. unfold thread_step, take_lk. by rewrite Epo, Eh.
    + destruct (Hw eq_refl i Hin) as (_ & _ & Ha). destruct Ha as [w Hw']; [by do 2 right|].
      specialize (Hno w). by destruct (pc s w).
  - left. exists i. split; [done|]. unfold thread_step. rewrite Epc, Es.
    destruct (plock s i) as [k|] eqn:E; [|by unfold take_p; rewrite E].
    apply Hp in E. specialize (Hno k). destruct (pc s k) eqn:Ek; simpl in E; simplify_eq; congruence.
Qed.

(** ** A run *)

Inductive move := Acq (i : nat) | Rel (i : nat) | Go (i : nat).

(** Follows a list of moves, as long as each is possible. *)
Fixpoint moves (n : nat) (l : list move) (s : slst) : option slst :=
  match l with
  | [] => Some s
  | Acq i :: l' =>
      if bool_decide (i < n)%nat && bool_decide (pc s i = Idle) && bool_decide (st s i = RUNNING) then moves n l' (goto i A0 s)
      else None
  | Rel i :: l' =>
      if bool_decide (i < n)%nat && bool_decide (pc s i = Holds) && bool_decide (st s i = RUNNING) then moves n l' (goto i R0 s)
      else None
  | Go i :: l' =>
      if bool_decide (i < n)%nat then s' ← thread_step n i s; moves n l' s' else None
  end.

Lemma moves_reach n l s s' : moves n l s = Some s' → rtc (sl_step n) s s'.
Proof.
  revert s. induction l as [|[i|i|i] l IH]; intros s E; simpl in E; [simplify_eq; apply rtc_refl|..].
  - destruct (_ && _) eqn:Eb; [|done]. apply andb_prop in Eb as [[H1 H2]%andb_prop H3].
    apply bool_decide_eq_true in H1, H2, H3. eapply rtc_l; [by apply SlAcquire|auto].
  - destruct (_ && _) eqn:Eb; [|done]. apply andb_prop in Eb as [[H1 H2]%andb_prop H3].
    apply bool_decide_eq_true in H1, H2, H3. eapply rtc_l; [by apply SlRelease|auto].
  - case_bool_decide; [|done]. apply bind_Some in E as (s1 & E1 & E2). eapply rtc_l; [by eapply SlThread|auto].
Qed.

(** Process 0 takes the lock, process 1 goes to sleep on it; then process 0 is
    in releasesleep and has set the lock free. *)
Definition sleeper : list move :=
  [Acq 0; Go 0; Go 0; Go 0; Acq 1; Go 1; Go 1; Go 1; Go 1; Go 1; Go 1].
Definition s_sleeper : slst := default sl_boot (moves 2 sleeper sl_boot).
Definition s_freed : slst := default sl_boot (moves 2 [Rel 0; Go 0; Go 0] s_sleeper).

Lemma moves_default n l s : is_Some (moves n l s) → rtc (sl_step n) s (default sl_boot (moves n l s)).
Proof. intros [s' E]. rewrite E. by eapply moves_reach. Qed.

Lemma s_sleeper_reach : rtc (sl_step 2) sl_boot s_sleeper.
Proof. apply moves_default. vm_compute. by eexists. Qed.

Lemma s_freed_reach : rtc (sl_step 2) sl_boot s_freed.
Proof. etrans; [exact s_sleeper_reach|]. apply moves_default. vm_compute. by eexists. Qed.

Lemma sleeplock_exclusive_witness :
  pc s_sleeper 0 = Holds ∧ st s_sleeper 1 = SLEEPING ∧ locked s_sleeper = true ∧ lpid s_sleeper = Some 0%nat.
Proof.
  split; [vm_compute; reflexivity|]. split; [vm_compute; reflexivity|].
  apply (proj1 (proj2 (sleeplock_exclusive 2 s_sleeper s_sleeper_reach))). vm_compute. reflexivity.
Defined.

Lemma sleeplock_no_lost_wakeup_witness :
  pc s_freed 1 = S5 ∧ st s_freed 1 = SLEEPING ∧ ∃ w, ahead (pc s_freed w) 1.
Proof.
  split; [vm_compute; reflexivity|]. split; [vm_compute; reflexivity|].
  apply (proj1 (sleeplock_no_lost_wakeup 2 s_freed 1 s_freed_reach ltac:(vm_compute; reflexivity) ltac:(lia))).
  right; right. split; vm_compute; reflexivity.
Defined.

Lemma sleeplock_progress_witness :
  (∃ k, (k < 2)%nat ∧ is_Some (thread_step 2 k s_sleeper)) ∨ (∃ o, pc s_sleeper o = Holds).
Proof. apply (sleeplock_progress 2 s_sleeper 1 s_sleeper_reach). vm_compute. discriminate. Defined.
