(* ===== verification/Futex.v ===== *)
(** * futex.c: user-space mutexes

    The hash table of waiters and the scheduling state of the processes.
    [futex_wait] gives up its locks twice, so it is three atomic pieces that
    other processes' calls may come between: entering the waiter
    ([futex_enqueue]), going to sleep ([futex_sleep]) and, once the scheduler
    has run the process again, leaving ([futex_finish]).  The other operations
    hold the bucket lock throughout and are one piece each. *)

From S2P Require Import Prelude.

Definition MAX_FUTEX_QUEUES : nat := 64.
Definition FUTEX_HASH_SIZE : nat := 32.
Definition NWAITERS : nat := MAX_FUTEX_QUEUES / FUTEX_HASH_SIZE.

(** ** State *)

Inductive pstate := SLEEPING | RUNNABLE | RUNNING.
#[export] Instance pstate_eq_dec : EqDecision pstate.
Proof. solve_decision. Defined.

Record fproc := FProc { fp_state : pstate; fp_chan : Z }.
#[export] Instance fproc_fields : Fields fproc := λ p, FProc (fp_state p) (fp_chan p).

Record futex_waiter := Waiter {
  w_used : bool;
  w_proc : nat;
  w_uaddr : Z;
  w_val : Z;
  w_bitset : Z;
  w_timeout : Z;
  w_woken : bool;
}.
#[export] Instance waiter_fields : Fields futex_waiter := λ w,
  Waiter (w_used w) (w_proc w) (w_uaddr w) (w_val w) (w_bitset w) (w_timeout w) (w_woken w).

Record futex_bucket := Bucket { waiters : list futex_waiter; count : Z }.
#[export] Instance bucket_fields : Fields futex_bucket := λ b, Bucket (waiters b) (count b).

Record futex_mgr := FutexMgr {
  buckets : list futex_bucket;
  total_waits : Z;
  total_wakes : Z;
  total_requeues : Z;
  fprocs : list fproc;
  fticks : Z;
}.
#[export] Instance futex_mgr_fields : Fields futex_mgr := λ m,
  FutexMgr (buckets m) (total_waits m) (total_wakes m) (total_requeues m) (fprocs m) (fticks m).

Definition waiter0 : futex_waiter := Waiter false 0 0 0 0 0 false.
Definition bucket0 : futex_bucket := Bucket (replicate NWAITERS waiter0) 0.

Definition futex_init (ps : list fproc) (tk : Z) : futex_mgr :=
  FutexMgr (replicate FUTEX_HASH_SIZE bucket0) 0 0 0 ps tk.

Definition futex_hash (uaddr : Z) : nat := Z.to_nat (Z.shiftr uaddr 2 mod Z.of_nat FUTEX_HASH_SIZE).

Definition bucket_of (m : futex_mgr) (h : nat) : futex_bucket := default bucket0 (buckets m !! h).
Definition find_free_waiter (b : futex_bucket) : option nat := findi (λ w, negb (w_used w)) (waiters b).

(** ** futex_wait *)

(** The slot taken, or none: the bucket is full and the call returns -1. *)
Definition futex_enqueue (p : nat) (uaddr val timeout : Z) : ST futex_mgr (option nat) :=
  m ← get;
  let h := futex_hash uaddr in
  match find_free_waiter (bucket_of m h) with
  | None => mret None
  | Some i =>
      let w := Waiter true p uaddr val 0xFFFFFFFF (if 0 <? timeout then u64 (fticks m + timeout) else 0) false in
      _ ← modify (λ m, m <| buckets ::= alter (λ b, b <| waiters ::= <[i := w]> |> <| count ::= λ n, n + 1 |>) h |>);
      _ ← modify (λ m, m <| total_waits ::= λ n, u64 (n + 1) |>);
      mret (Some i)
  end.

Definition futex_sleep (p : nat) (uaddr : Z) : ST futex_mgr () :=
  modify (λ m, m <| fprocs ::= alter (λ x, x <| fp_state := SLEEPING |> <| fp_chan := uaddr |>) p |>).

Definition futex_finish (p h i : nat) : ST futex_mgr Z :=
  _ ← modify (λ m, m <| fprocs ::= alter (λ x, x <| fp_chan := 0 |>) p |>);
  _ ← modify (λ m, m <| buckets ::= alter (λ b, b <| waiters ::= alter (λ w, w <| w_used := false |>) i |>
                                                  <| count ::= λ n, n - 1 |>) h |>);
  m ← get;
  mret (if w_woken (default waiter0 (waiters (bucket_of m h) !! i)) then 0 else -1).

(** ** Wake-ups *)

(** The loop of the wake operations over the waiters of a bucket: mark the
    selected ones, apply [wk] to their processes, stop at [nr]. *)
Fixpoint wake_loop (sel : futex_waiter → bool) (wk : fproc → fproc) (nr woken : Z)
    (ws : list futex_waiter) (ps : list fproc) : list futex_waiter * list fproc * Z :=
  match ws with
  | [] => ([], ps, woken)
  | w :: ws' =>
      if negb (woken <? nr) then (w :: ws', ps, woken)
      else if sel w then
        let '(r, ps', k) := wake_loop sel wk nr (woken + 1) ws' (alter wk (w_proc w) ps) in
        (w <| w_woken := true |> :: r, ps', k)
      else
        let '(r, ps', k) := wake_loop sel wk nr woken ws' ps in (w :: r, ps', k)
  end.

Definition waits_on (uaddr : Z) (w : futex_waiter) : bool :=
  w_used w && (w_uaddr w =? uaddr) && negb (w_woken w).

Definition wake_if (uaddr : Z) (x : fproc) : fproc :=
  if bool_decide (fp_state x = SLEEPING) && (fp_chan x =? uaddr) then x <| fp_state := RUNNABLE |> else x.
Definition wake_any (x : fproc) : fproc :=
  if bool_decide (fp_state x = SLEEPING) then x <| fp_state := RUNNABLE |> else x.

Definition wake_bucket (h : nat) (sel : futex_waiter → bool) (wk : fproc → fproc) (nr : Z) : ST futex_mgr Z :=
  m ← get;
  let '(ws, ps, woken) := wake_loop sel wk nr 0 (waiters (bucket_of m h)) (fprocs m) in
  _ ← modify (λ m, m <| buckets ::= alter (λ b, b <| waiters := ws |>) h |> <| fprocs := ps |>);
  _ ← modify (λ m, m <| total_wakes ::= λ n, u64 (n + woken) |>);
  mret woken.

Definition futex_wake (uaddr nr_wake : Z) : ST futex_mgr Z :=
  wake_bucket (futex_hash uaddr) (waits_on uaddr) (wake_if uaddr) nr_wake.

Definition futex_wake_bitset (uaddr nr_wake bitset : Z) : ST futex_mgr Z :=
  if bitset =? 0 then mret (-1)
  else wake_bucket (futex_hash uaddr) (λ w, waits_on uaddr w && negb (Z.land (w_bitset w) bitset =? 0)) wake_any nr_wake.

(** The loop of [futex_requeue] over the first bucket. *)
Fixpoint requeue_loop (uaddr uaddr2 nr_wake nr_requeue woken requeued : Z)
    (ws : list futex_waiter) (ps : list fproc) : list futex_waiter * list fproc * Z * Z :=
  match ws with
  | [] => ([], ps, woken, requeued)
  | w :: ws' =>
      if waits_on uaddr w then
        if woken <? nr_wake then
          let '(r, ps', k, q) := requeue_loop uaddr uaddr2 nr_wake nr_requeue (woken + 1) requeued ws' (alter wake_any (w_proc w) ps) in
          (w <| w_woken := true |> :: r, ps', k, q)
        else if requeued <? nr_requeue then
          let '(r, ps', k, q) := requeue_loop uaddr uaddr2 nr_wake nr_requeue woken (requeued + 1) ws' ps in
          (w <| w_uaddr := uaddr2 |> :: r, ps', k, q)
        else
          let '(r, ps', k, q) := requeue_loop uaddr uaddr2 nr_wake nr_requeue woken requeued ws' ps in (w :: r, ps', k, q)
      else
        let '(r, ps', k, q) := requeue_loop uaddr uaddr2 nr_wake nr_requeue woken requeued ws' ps in (w :: r, ps', k, q)
  end.

Definition futex_requeue (uaddr uaddr2 nr_wake nr_requeue : Z) : ST futex_mgr Z :=
  m ← get;
  let h := futex_hash uaddr in
  let '(ws, ps, woken, requeued) := requeue_loop uaddr uaddr2 nr_wake nr_requeue 0 0 (waiters (bucket_of m h)) (fprocs m) in
  _ ← modify (λ m, m <| buckets ::= alter (λ b, b <| waiters := ws |>) h |> <| fprocs := ps |>);
  _ ← modify (λ m, m <| total_wakes ::= λ n, u64 (n + woken) |> <| total_requeues ::= λ n, u64 (n + requeued) |>);
  mret (woken + requeued).

(** [sys_futex] without [FUTEX_WAIT], whose pieces are above; [val] is an
    [int] in the wake operations. *)
Definition FUTEX_PRIVATE_FLAG : Z := 128.
Definition sys_futex (uaddr op val timeout uaddr2 val3 : Z) : ST futex_mgr Z :=
  let cmd := Z.land op (Z.lnot FUTEX_PRIVATE_FLAG) in
  if cmd =? 1 then futex_wake uaddr (i32 val)
  else if cmd =? 6 then futex_wake_bitset uaddr (i32 val) val3
  else if cmd =? 2 then futex_requeue uaddr uaddr2 (i32 val) (i32 timeout)
  else mret (-1).

Definition futex_get_stats (m : futex_mgr) : Z * Z := (total_waits m, total_wakes m).

(** ** Interleavings *)

(** One atomic piece of a futex call by process [p], or a scheduling decision. *)
Inductive futex_step : nat → futex_mgr → futex_mgr → Prop :=
| ft_enqueue p uaddr val timeout r m m' :
    run (futex_enqueue p uaddr val timeout) m r m' → futex_step p m m'
| ft_sleep p uaddr m m' : run (futex_sleep p uaddr) m () m' → futex_step p m m'
| ft_finish p h i w r m m' :
    waiters (bucket_of m h) !! i = Some w → w_used w = true → w_proc w = p →
    run (futex_finish p h i) m r m' → futex_step p m m'
| ft_wake p uaddr nr r m m' : run (futex_wake uaddr nr) m r m' → futex_step p m m'
| ft_bitset p uaddr nr bs r m m' : run (futex_wake_bitset uaddr nr bs) m r m' → futex_step p m m'
| ft_requeue p uaddr uaddr2 nw nq r m m' : run (futex_requeue uaddr uaddr2 nw nq) m r m' → futex_step p m m'
| ft_sched p st m :
    fp_state (default (FProc RUNNING 0) (fprocs m !! p)) ≠ SLEEPING →
    futex_step p m (m <| fprocs ::= alter (λ x, x <| fp_state := if (st : bool) then RUNNABLE else RUNNING |>) p |>).

(** ** What the loops do *)

Lemma wake_loop_waiters sel wk nr woken ws ps r ps' k :
  wake_loop sel wk nr woken ws ps = (r, ps', k) →
  Forall2 (λ w w', w' = w ∨ (sel w = true ∧ w' = w <| w_woken := true |>)) ws r.
Proof.
  revert woken ps r ps' k. induction ws as [|w ws IH]; intros woken ps r ps' k E; cbn [wake_loop] in E.
  - injection E as <- _ _. constructor.
  - destruct (negb (woken <? nr)).
    + injection E as <- _ _. constructor; [by left|]. apply Forall_Forall2_diag, Forall_forall. by left.
    + destruct (sel w) eqn:Hs; destruct (wake_loop _ _ _ _ _ _) as [[r1 ps1] k1] eqn:E1; injection E as <- _ _;
        constructor; [by right|by eapply IH|by left|by eapply IH].
Qed.

Lemma wake_loop_procs sel wk nr woken ws ps r ps' k q :
  wake_loop sel wk nr woken ws ps = (r, ps', k) →
  (∀ w, w ∈ ws → sel w = true → w_proc w ≠ q) → ps' !! q = ps !! q.
Proof.
  revert woken ps r ps' k. induction ws as [|w ws IH]; intros woken ps r ps' k E Hq; cbn [wake_loop] in E.
  - by injection E as _ <- _.
  - destruct (negb (woken <? nr)); [by injection E as _ <- _|].
    destruct (sel w) eqn:Hs; destruct (wake_loop _ _ _ _ _ _) as [[r1 ps1] k1] eqn:E1; injection E as _ <- _.
    + rewrite (IH _ _ _ _ _ E1) by (intros w' Hw'; apply Hq; by right).
      apply list_lookup_alter_ne. apply Hq; [by left|done].
    + apply (IH _ _ _ _ _ E1). intros w' Hw'. apply Hq. by right.
Qed.

(** The number of wake-ups: every selected waiter, up to [nr]. *)
Lemma wake_loop_count sel wk nr woken ws ps :
  (wake_loop sel wk nr woken ws ps).2 =
  woken + Z.min (Z.max 0 (nr - woken)) (Z.of_nat (length (filter (λ w, sel w = true) ws))).
Proof.
  revert woken ps. induction ws as [|w ws IH]; intros woken ps; cbn [wake_loop].
  - simpl. lia.
  - rewrite filter_cons. destruct (Z.ltb_spec woken nr); cbn [negb].
    + destruct (sel w) eqn:Hs.
      * specialize (IH (woken + 1) (alter wk (w_proc w) ps)).
        destruct (wake_loop _ _ _ _ _ _) as [[r1 ps1] k1]. cbn [snd] in *.
        rewrite IH, decide_True by done. cbn [length]. lia.
      * specialize (IH woken ps). destruct (wake_loop _ _ _ _ _ _) as [[r1 ps1] k1]. cbn [snd] in *.
        by rewrite IH, decide_False.
    + simpl. lia.
Qed.

(** With room for all, every selected waiter is marked. *)
Lemma wake_loop_all sel wk nr woken ws ps r ps' k :
  wake_loop sel wk nr woken ws ps = (r, ps', k) → woken + Z.of_nat (length ws) ≤ nr →
  Forall2 (λ w w', w' = if sel w then w <| w_woken := true |> else w) ws r.
Proof.
  revert woken ps r ps' k. induction ws as [|w ws IH]; intros woken ps r ps' k E Hn; cbn [wake_loop length] in *.
  - injection E as <- _ _. constructor.
  - destruct (Z.ltb_spec woken nr); [|lia]. cbn [negb] in E.
    destruct (sel w) eqn:Hs; destruct (wake_loop _ _ _ _ _ _) as [[r1 ps1] k1] eqn:E1; injection E as <- _ _;
      (constructor; [by rewrite Hs|eapply IH; [done|lia]]).
Qed.

Lemma wake_if_runnable uaddr x : fp_state x = RUNNABLE → wake_if uaddr x = x.
Proof. intros H. unfold wake_if. rewrite H. done. Qed.

Lemma wake_if_sleeping uaddr x :
  fp_state x = SLEEPING → fp_chan x = uaddr → wake_if uaddr x = x <| fp_state := RUNNABLE |>.
Proof. intros H1 H2. unfold wake_if. by rewrite H1, H2, Z.eqb_refl. Qed.

Lemma wake_loop_keeps sel uaddr nr woken ws ps r ps' k q x :
  wake_loop sel (wake_if uaddr) nr woken ws ps = (r, ps', k) → ps !! q = Some x → fp_state x = RUNNABLE →
  ps' !! q = Some x.
Proof.
  revert woken ps r ps' k. induction ws as [|w ws IH]; intros woken ps r ps' k E Hq Hx; cbn [wake_loop] in E.
  - by injection E as _ <- _.
  - destruct (negb (woken <? nr)); [by injection E as _ <- _|].
    destruct (sel w) eqn:Hs; destruct (wake_loop _ _ _ _ _ _) as [[r1 ps1] k1] eqn:E1; injection E as _ <- _; [|by eapply IH].
    eapply IH; [done| |done]. destruct (decide (q = w_proc w)) as [->|].
    + rewrite list_lookup_alter_eq, Hq. simpl. by rewrite wake_if_runnable.
    + by rewrite list_lookup_alter_ne.
Qed.

(** ... and its process, if asleep on the address, made runnable. *)
Lemma wake_loop_runs sel uaddr nr woken ws ps r ps' k q x w :
  wake_loop sel (wake_if uaddr) nr woken ws ps = (r, ps', k) → woken + Z.of_nat (length ws) ≤ nr →
  ps !! q = Some x → fp_state x = SLEEPING → fp_chan x = uaddr → w ∈ ws → sel w = true → w_proc w = q →
  ps' !! q = Some (x <| fp_state := RUNNABLE |>).
Proof.
  revert woken ps r ps' k. induction ws as [|w' ws IH]; intros woken ps r ps' k E Hn Hq Hs Hc Hin Hsel Hp;
    [by apply not_elem_of_nil in Hin|]. cbn [wake_loop length] in *.
  destruct (Z.ltb_spec woken nr); [|lia]. cbn [negb] in E.
  destruct (sel w') eqn:Hs'; destruct (wake_loop _ _ _ _ _ _) as [[r1 ps1] k1] eqn:E1; injection E as _ <- _.
  - destruct (decide (q = w_proc w')) as [Eq|Nq].
    + eapply wake_loop_keeps; [done| |done]. rewrite <- Eq, list_lookup_alter_eq, Hq. simpl. by rewrite wake_if_sleeping.
    + apply elem_of_cons in Hin as [->|Hin]; [congruence|].
      eapply IH; try done; [lia|]. by rewrite list_lookup_alter_ne.
  - apply elem_of_cons in Hin as [->|Hin]; [congruence|]. eapply IH; try done. lia.
Qed.

Lemma requeue_loop_spec uaddr uaddr2 nw nq woken rq ws ps r ps' k j q :
  requeue_loop uaddr uaddr2 nw nq woken rq ws ps = (r, ps', k, j) →
  Forall2 (λ w w', w' = w ∨ (waits_on uaddr w = true ∧ (w' = w <| w_woken := true |> ∨ w' = w <| w_uaddr := uaddr2 |>))) ws r ∧
  ((∀ w, w ∈ ws → waits_on uaddr w = true → w_proc w ≠ q) → ps' !! q = ps !! q).
Proof.
  revert woken rq ps r ps' k j. induction ws as [|w ws IH]; intros woken rq ps r ps' k j E; cbn [requeue_loop] in E.
  - injection E as <- <- _ _. split; [constructor|done].
  - destruct (waits_on uaddr w) eqn:Hw; [destruct (woken <? nw); [|destruct (rq <? nq)]|];
      destruct (requeue_loop _ _ _ _ _ _ _ _) as [[[r1 ps1] k1] j1] eqn:E1; injection E as <- <- _ _;
      destruct (IH _ _ _ _ _ _ _ E1) as [H1 H2]; (split; [constructor; [naive_solver|done]|]);
      intros Hq; (rewrite H2 by (intros w' Hw'; apply Hq; by right)); try done.
    apply list_lookup_alter_ne. apply Hq; [by left|done].
Qed.

(** ** Invariant of the buckets *)

Definition nused (ws : list futex_waiter) : nat := length (filter (λ w, w_used w = true) ws).

Record futex_ok (m : futex_mgr) : Prop := {
  fo_len : length (buckets m) = FUTEX_HASH_SIZE;
  fo_slots : ∀ h b, buckets m !! h = Some b → length (waiters b) = NWAITERS;
  fo_count : ∀ h b, buckets m !! h = Some b → count b = Z.of_nat (nused (waiters b));
}.

Lemma nused_Forall2 ws r : Forall2 (λ w w', w_used w' = w_used w) ws r → nused r = nused ws.
Proof.
  unfold nused. induction 1 as [|w w' ws r Hw _ IH]; [done|]. rewrite !filter_cons, Hw.
  case_decide; simpl; by rewrite IH.
Qed.

Lemma nused_insert ws i w w' :
  ws !! i = Some w →
  (nused (<[i := w']> ws) + (if w_used w then 1 else 0) = nused ws + (if w_used w' then 1 else 0))%nat.
Proof.
  unfold nused. revert i. induction ws as [|x ws IH]; intros [|i] H; simpl in H; simplify_eq.
  - change (<[0%nat := w']> (w :: ws)) with (w' :: ws). rewrite !filter_cons.
    repeat case_decide; destruct (w_used w), (w_used w'); simpl; (congruence || lia).
  - change (<[S i := w']> (x :: ws)) with (x :: <[i := w']> ws). rewrite !filter_cons. specialize (IH i H).
    case_decide; simpl; lia.
Qed.

Lemma bucket_of_lookup m h b : buckets m !! h = Some b → bucket_of m h = b.
Proof. intros H. unfold bucket_of. by rewrite H. Qed.

(** Replacing one bucket. *)
Lemma futex_ok_alter m h f ps tw tk tr :
  futex_ok m →
  (∀ b, buckets m !! h = Some b → length (waiters (f b)) = NWAITERS ∧ count (f b) = Z.of_nat (nused (waiters (f b)))) →
  futex_ok (FutexMgr (alter f h (buckets m)) tw tk tr ps (fticks m)).
Proof.
  intros [H1 H2 H3] Hf. split; cbn.
  - by rewrite length_alter.
  - intros h' b. destruct (decide (h' = h)) as [->|]; [|rewrite list_lookup_alter_ne by done; apply H2].
    rewrite list_lookup_alter_eq. intros (b0 & Hb & ->)%fmap_Some. by apply Hf.
  - intros h' b. destruct (decide (h' = h)) as [->|]; [|rewrite list_lookup_alter_ne by done; apply H3].
    rewrite list_lookup_alter_eq. intros (b0 & Hb & ->)%fmap_Some. by apply Hf.
Qed.

Lemma wake_bucket_inv h sel wk nr m r m' :
  run (wake_bucket h sel wk nr) m r m' →
  ∃ ws ps, wake_loop sel wk nr 0 (waiters (bucket_of m h)) (fprocs m) = (ws, ps, r) ∧
    m' = FutexMgr (alter (λ b, b <| waiters := ws |>) h (buckets m)) (total_waits m) (u64 (total_wakes m + r)) (total_requeues m) ps (fticks m).
Proof.
  unfold wake_bucket. rewrite (bind_Ret _ _ _ _ _ (run_get m)).
  destruct (wake_loop _ _ _ _ _ _) as [[ws ps] k]. rewrite (bind_Ret _ _ _ _ _ (run_modify _ m)).
  rewrite (bind_Ret _ _ _ _ _ (run_modify _ _)). intros H. injection H as <- <-. by exists ws, ps.
Qed.

Lemma futex_requeue_inv a a2 nw nq m r m' :
  run (futex_requeue a a2 nw nq) m r m' →
  ∃ ws ps k j, requeue_loop a a2 nw nq 0 0 (waiters (bucket_of m (futex_hash a))) (fprocs m) = (ws, ps, k, j) ∧
    m' = FutexMgr (alter (λ b, b <| waiters := ws |>) (futex_hash a) (buckets m)) (total_waits m) (u64 (total_wakes m + k)) (u64 (total_requeues m + j)) ps (fticks m).
Proof.
  unfold futex_requeue. rewrite (bind_Ret _ _ _ _ _ (run_get m)). cbv zeta.
  destruct (requeue_loop _ _ _ _ _ _ _ _) as [[[ws ps] k] j]. rewrite (bind_Ret _ _ _ _ _ (run_modify _ m)).
  rewrite (bind_Ret _ _ _ _ _ (run_modify _ _)). intros H. injection H as _ <-. by exists ws, ps, k, j.
Qed.

Lemma futex_enqueue_inv p a v t m r m' :
  run (futex_enqueue p a v t) m r m' →
  (r = None ∧ m' = m) ∨
  ∃ i w0 w, r = Some i ∧ waiters (bucket_of m (futex_hash a)) !! i = Some w0 ∧ w_used w0 = false ∧
    w_used w = true ∧ w_proc w = p ∧ w_uaddr w = a ∧ w_woken w = false ∧
    m' = FutexMgr (alter (λ b, b <| waiters ::= <[i := w]> |> <| count ::= λ n, n + 1 |>) (futex_hash a) (buckets m))
           (u64 (total_waits m + 1)) (total_wakes m) (total_requeues m) (fprocs m) (fticks m).
Proof.
  unfold futex_enqueue. rewrite (bind_Ret _ _ _ _ _ (run_get m)). cbv zeta.
  destruct (find_free_waiter _) as [i|] eqn:Ef; [|intros [= <- <-]; by left].
  rewrite (bind_Ret _ _ _ _ _ (run_modify _ m)). rewrite (bind_Ret _ _ _ _ _ (run_modify _ _)).
  intros H. injection H as <- <-. right. apply findi_lookup in Ef as (w0 & Hw0 & Hu).
  eexists i, w0, _. split_and!; [done|done|by apply negb_true_iff|..|done]; done.
Qed.

Lemma futex_step_ok p m m' : futex_ok m → futex_step p m m' → futex_ok m'.
Proof.
  intros Hok Hst. pose proof Hok as [H1 H2 H3].
  assert (∀ h ws tw tk tr ps, Forall2 (λ w w', w_used w' = w_used w) (waiters (bucket_of m h)) ws →
    futex_ok (FutexMgr (alter (λ b, b <| waiters := ws |>) h (buckets m)) tw tk tr ps (fticks m))) as Hws.
  { intros h ws tw tk tr ps HF. apply futex_ok_alter; [done|]. intros b Hb. rewrite (bucket_of_lookup m h b Hb) in HF. cbn [waiters count update field_set].
    split; [by rewrite <- (Forall2_length _ _ _ HF), (H2 h b Hb)|]. by rewrite (nused_Forall2 _ _ HF), (H3 h b Hb). }
  destruct Hst as [p a v t r m m' E|p a m m' E|p h i w r m m' Hw Hu Hp E|p a nr r m m' E|p a nr bs r m m' E|p a a2 nw nq r m m' E|p st m E].
  - apply futex_enqueue_inv in E as [[_ ->]|(i & w0 & w & -> & Hw0 & Hu0 & Hu & _ & _ & _ & ->)]; [done|].
    apply futex_ok_alter; [done|]. intros b Hb. rewrite (bucket_of_lookup m _ b Hb) in Hw0. cbn [waiters count update field_set].
    rewrite length_insert. split; [by apply (H2 _ b Hb)|]. pose proof (nused_insert _ i w0 w Hw0) as Hn.
    rewrite Hu0, Hu in Hn. rewrite (H3 _ b Hb). lia.
  - injection E as <-. by split.
  - unfold futex_finish in E. rewrite (bind_Ret _ _ _ _ _ (run_modify _ m)), (bind_Ret _ _ _ _ _ (run_modify _ _)) in E.
    rewrite (bind_Ret _ _ _ _ _ (run_get _)) in E. injection E as _ <-. cbn [buckets fprocs update field_set].
    apply futex_ok_alter; [done|]. intros b Hb. rewrite (bucket_of_lookup m _ b Hb) in Hw. cbn [waiters count update field_set].
    rewrite length_alter. split; [by apply (H2 _ b Hb)|].
    rewrite (alter_insert _ _ i w Hw). pose proof (nused_insert _ i w (w <| w_used := false |>) Hw) as Hn.
    rewrite Hu in Hn. cbn [w_used update field_set] in Hn. rewrite (H3 _ b Hb). lia.
  - apply wake_bucket_inv in E as (ws & ps & E & ->). apply Hws. apply wake_loop_waiters in E.
    eapply Forall2_impl; [done|]. intros w w' [->|[_ ->]]; done.
  - unfold futex_wake_bitset in E. destruct (bs =? 0); [by injection E as _ <-|].
    apply wake_bucket_inv in E as (ws & ps & E & ->). apply Hws. apply wake_loop_waiters in E.
    eapply Forall2_impl; [done|]. intros w w' [->|[_ ->]]; done.
  - apply futex_requeue_inv in E as (ws & ps & k & j & E & ->). apply Hws. apply (requeue_loop_spec _ _ _ _ _ _ _ _ _ _ _ _ 0%nat) in E as [E _].
    eapply Forall2_impl; [done|]. intros w w' [->|[_ [-> | ->]]]; done.
  - by split.
Qed.

(** ** Properties of futex.c *)

(** Under every interleaving of the pieces of futex calls the count of a
    bucket is the number of its occupied slots, so a bucket never loses or
    duplicates a waiter slot. *)
Theorem futex_count_exact ps tk m h b :
  rtc (λ m m', ∃ p, futex_step p m m') (futex_init ps tk) m → buckets m !! h = Some b →
  length (waiters b) = NWAITERS ∧ count b = Z.of_nat (nused (waiters b)).
Proof.
  intros H Hb. assert (futex_ok m) as [_ H2 H3]; [|split; [by apply (H2 h)|by apply (H3 h)]].
  assert (futex_ok (futex_init ps tk)) as H0.
  { split; [done|by intros h' b' [-> _]%lookup_replicate..]. }
  clear Hb. induction H as [|x y z [p Hxy] _ IH]; [done|]. apply IH. by eapply futex_step_ok.
Qed.

(** [futex_wake] wakes as many of the waiters on the address as it is asked
    to and no others, and returns their number; with a large enough [nr_wake]
    no waiter on the address is left unmarked and every process asleep on the
    address becomes runnable. *)
Theorem futex_wake_exact uaddr nr m :
  let ws := waiters (bucket_of m (futex_hash uaddr)) in
  let n := Z.of_nat (length (filter (λ w, waits_on uaddr w = true) ws)) in
  ∃ m', run (futex_wake uaddr nr) m (Z.min (Z.max 0 nr) n) m' ∧
    (∀ q, (∀ w, w ∈ ws → waits_on uaddr w = true → w_proc w ≠ q) → fprocs m' !! q = fprocs m !! q) ∧
    (Z.of_nat (length ws) ≤ nr → is_Some (buckets m !! futex_hash uaddr) →
       (∀ w, w ∈ waiters (bucket_of m' (futex_hash uaddr)) → waits_on uaddr w = false) ∧
       ∀ w q x, w ∈ ws → waits_on uaddr w = true → w_proc w = q → fprocs m !! q = Some x →
         fp_state x = SLEEPING → fp_chan x = uaddr → fprocs m' !! q = Some (x <| fp_state := RUNNABLE |>)).
Proof.
  intros ws n. unfold futex_wake, wake_bucket. rewrite (bind_Ret _ _ _ _ _ (run_get m)). fold ws.
  pose proof (wake_loop_count (waits_on uaddr) (wake_if uaddr) nr 0 ws (fprocs m)) as Hk.
  destruct (wake_loop (waits_on uaddr) (wake_if uaddr) nr 0 ws (fprocs m)) as [[r ps] k] eqn:E.
  cbn [snd] in Hk. rewrite Z.sub_0_r, Z.add_0_l in Hk.
  rewrite (bind_Ret _ _ _ _ _ (run_modify _ m)), (bind_Ret _ _ _ _ _ (run_modify _ _)).
  eexists. split; [by rewrite Hk|]. cbn [buckets fprocs update field_set]. split_and!.
  - intros q. by eapply wake_loop_procs.
  - intros Hn [b Hb]. split.
    + intros w Hw. unfold bucket_of in Hw. cbn in Hw. rewrite list_lookup_alter_eq, Hb in Hw. cbn in Hw.
      pose proof (wake_loop_all _ _ _ _ _ _ _ _ _ E ltac:(lia)) as HF.
      apply list_elem_of_lookup in Hw as [i Hi]. destruct (Forall2_lookup_r _ _ _ _ _ HF Hi) as (w0 & _ & ->).
      destruct (waits_on uaddr w0) eqn:Hw0; [|done]. unfold waits_on. cbn. apply andb_false_r.
    + intros w q x Hw Hwo Hp Hx Hs Hc. eapply (wake_loop_runs _ _ _ _ _ _ _ _ _ q x w E); try done; lia.
Qed.

(** A process asleep whose waiters have all been marked woken. *)
Definition all_woken (q : nat) (m : futex_mgr) : Prop :=
  ∀ h b w, buckets m !! h = Some b → w ∈ waiters b → w_used w = true → w_proc w = q → w_woken w = true.
Definition stuck (q : nat) (m : futex_mgr) : Prop :=
  (∃ x, fprocs m !! q = Some x ∧ fp_state x = SLEEPING) ∧ all_woken q m.

Lemma all_woken_not q m h a w : all_woken q m → w ∈ waiters (bucket_of m h) → waits_on a w = true → w_proc w ≠ q.
Proof.
  intros Hall Hin Hw Hq. unfold waits_on in Hw. rewrite !andb_true_iff, negb_true_iff in Hw. destruct Hw as [[Hu _] Hk].
  unfold bucket_of in Hin. destruct (buckets m !! h) as [b|] eqn:Hb; cbn in Hin.
  - specialize (Hall h b w Hb Hin Hu Hq). congruence.
  - rewrite !elem_of_cons in Hin. destruct Hin as [-> |[-> |[]%not_elem_of_nil]]; done.
Qed.

Lemma all_woken_alter q m h f ps tw tk tr :
  all_woken q m →
  (∀ b w, buckets m !! h = Some b → w ∈ waiters (f b) → w_used w = true → w_proc w = q → w_woken w = true) →
  all_woken q (FutexMgr (alter f h (buckets m)) tw tk tr ps (fticks m)).
Proof.
  intros Hall Hf h' b w Hb Hin Hu Hq. cbn in Hb. destruct (decide (h' = h)) as [->|].
  - rewrite list_lookup_alter_eq in Hb. apply fmap_Some in Hb as (b0 & Hb0 & ->). by apply (Hf b0).
  - rewrite list_lookup_alter_ne in Hb by done. by apply (Hall h' b).
Qed.

(** Waiters replaced by ones with the same owner that are at least as woken. *)
Lemma all_woken_replace q m h ws ps tw tk tr :
  all_woken q m →
  Forall2 (λ w w', w_used w' = w_used w ∧ w_proc w' = w_proc w ∧ (w_woken w = true → w_woken w' = true)) (waiters (bucket_of m h)) ws →
  all_woken q (FutexMgr (alter (λ b, b <| waiters := ws |>) h (buckets m)) tw tk tr ps (fticks m)).
Proof.
  intros Hall HF. apply all_woken_alter; [done|]. intros b w Hb Hin Hu Hq. cbn in Hin.
  apply list_elem_of_lookup in Hin as [i Hi]. destruct (Forall2_lookup_r _ _ _ _ _ HF Hi) as (w0 & Hi0 & E1 & E2 & E3).
  apply E3. rewrite (bucket_of_lookup m h b Hb) in Hi0.
  apply (Hall h b w0 Hb); [by eapply list_elem_of_lookup_2|congruence|congruence].
Qed.

Lemma stuck_step p q m m' : p ≠ q → stuck q m → futex_step p m m' → stuck q m'.
Proof.
  intros Hp [(x & Hx & Hsl) Hall] Hs.
  destruct Hs as [p a v t r m m' E|p a m m' E|p h i w r m m' Hwi Hu Hwp E|p a nr r m m' E|p a nr bs r m m' E|p a a2 nw nq r m m' E|p st m E].
  - apply futex_enqueue_inv in E as [[_ ->]|(i & w0 & w & -> & Hw0 & Hu0 & Hu & Hpw & _ & _ & ->)]; [by split; [exists x|]|].
    split; [by exists x|]. apply all_woken_alter; [done|]. intros b w' Hb Hin Hu' Hq. cbn in Hin.
    apply list_elem_of_lookup in Hin as [j Hj]. apply list_lookup_insert_Some in Hj as [(_ & <- & _)|[_ Hj]]; [congruence|].
    apply (Hall _ b _ Hb); [by eapply list_elem_of_lookup_2|done..].
  - injection E as <-. split; [|done]. exists x. cbn. by rewrite list_lookup_alter_ne.
  - unfold futex_finish in E. rewrite (bind_Ret _ _ _ _ _ (run_modify _ m)), (bind_Ret _ _ _ _ _ (run_modify _ _)) in E.
    rewrite (bind_Ret _ _ _ _ _ (run_get _)) in E. injection E as _ <-. split.
    + exists x. cbn. by rewrite list_lookup_alter_ne.
    + cbn [buckets fprocs update field_set]. apply all_woken_alter; [done|]. intros b w' Hb Hin Hu' Hq. cbn in Hin.
      apply list_elem_of_lookup in Hin as [j Hj]. destruct (decide (j = i)) as [->|].
      * rewrite list_lookup_alter_eq in Hj. apply fmap_Some in Hj as (w1 & _ & ->). done.
      * rewrite list_lookup_alter_ne in Hj by done. apply (Hall _ b _ Hb); [by eapply list_elem_of_lookup_2|done..].
  - apply wake_bucket_inv in E as (ws & ps & E & ->). split.
    + exists x. split; [|done]. cbn. rewrite <- Hx. apply (wake_loop_procs _ _ _ _ _ _ _ _ _ q E).
      intros w Hin Hs. by apply (all_woken_not q m (futex_hash a) a).
    + apply all_woken_replace; [done|]. eapply Forall2_impl; [by eapply wake_loop_waiters|]. intros w w' [->|[_ ->]]; done.
  - unfold futex_wake_bitset in E. destruct (bs =? 0); [injection E as _ <-; by split; [exists x|]|].
    apply wake_bucket_inv in E as (ws & ps & E & ->). split.
    + exists x. split; [|done]. cbn. rewrite <- Hx. apply (wake_loop_procs _ _ _ _ _ _ _ _ _ q E).
      intros w Hin [Hs _]%andb_true_iff. by apply (all_woken_not q m (futex_hash a) a).
    + apply all_woken_replace; [done|]. eapply Forall2_impl; [by eapply wake_loop_waiters|]. intros w w' [->|[_ ->]]; done.
  - apply futex_requeue_inv in E as (ws & ps & k & j & E & ->).
    apply (requeue_loop_spec _ _ _ _ _ _ _ _ _ _ _ _ q) in E as [E1 E2]. split.
    + exists x. split; [|done]. cbn. rewrite <- Hx. apply E2.
      intros w Hin Hs. by apply (all_woken_not q m (futex_hash a) a).
    + apply all_woken_replace; [done|]. eapply Forall2_impl; [done|]. intros w w' [->|[_ [-> | ->]]]; done.
  - split; [|done]. exists x. cbn. by rewrite list_lookup_alter_ne.
Qed.

(** The code between the enqueue and the sleep of [futex_wait] is not
    protected: a process that goes to sleep after it has been woken, that is,
    whose waiters are all marked woken, is never made runnable again by any
    futex operation of the other processes. *)
Theorem futex_lost_wakeup q m m' :
  stuck q m → rtc (λ m m', ∃ p, p ≠ q ∧ futex_step p m m') m m' → stuck q m'.
Proof. intros Hst Hr. induction Hr as [|m1 m2 m3 (p & Hp & Hs) _ IH]; [done|]. apply IH. by eapply stuck_step. Qed.

(** ** Concrete runs *)

(** Process 1 waits on address 64 while process 0 wakes it. *)
Definition f_init : futex_mgr := futex_init [FProc RUNNING 0; FProc RUNNING 0] 10.
Definition f_enq : futex_mgr := after (futex_enqueue 1 64 5 0) f_init.
Definition f_slept : futex_mgr := after (futex_sleep 1 64) f_enq.
Definition f_woken : futex_mgr := after (futex_wake 64 1) f_slept.
(** The wake-up comes between the enqueue and the sleep. *)
Definition f_lost : futex_mgr := after (_ ← futex_wake 64 1; futex_sleep 1 64) f_enq.

(** When the wake-up comes after the sleep the wait completes with 0. *)
Lemma futex_wait_wake :
  fp_state (default (FProc RUNNING 0) (fprocs f_woken !! 1%nat)) = RUNNABLE ∧ value (futex_finish 1 16 0) f_woken = Some 0.
Proof. by vm_compute. Qed.

Lemma futex_count_exact_witness : count (bucket_of f_slept 16) = 1.
Proof.
  refine (eq_trans (proj2 (futex_count_exact [FProc RUNNING 0; FProc RUNNING 0] 10 f_slept 16 (bucket_of f_slept 16) _ eq_refl)) eq_refl).
  apply rtc_l with (y := f_enq); [exists 1%nat; exact (ft_enqueue 1 64 5 0 (Some 0%nat) f_init f_enq eq_refl)|].
  apply rtc_once. exists 1%nat. exact (ft_sleep 1 64 f_enq f_slept eq_refl).
Defined.

Lemma f_lost_stuck : stuck 1 f_lost.
Proof.
  split; [by eexists|]. intros h b w Hb Hin Hu Hq.
  assert (forallb (λ b, forallb (λ w, negb (w_used w) || w_woken w) (waiters b)) (buckets f_lost) = true) as H by (vm_compute; reflexivity).
  pose proof (forallb_lookup _ _ _ _ H Hb) as H1. apply list_elem_of_lookup in Hin as [i Hi].
  pose proof (forallb_lookup _ _ _ _ H1 Hi) as H2. cbv beta in H2. by rewrite Hu in H2.
Qed.

(** A second wake-up of the address finds nobody to wake. *)
Lemma futex_lost_wakeup_witness : stuck 1 (after (futex_wake 64 100) f_lost).
Proof.
  refine (futex_lost_wakeup 1 f_lost _ f_lost_stuck _).
  apply rtc_once. exists 0%nat. split; [done|]. exact (ft_wake 0 64 100 0 f_lost (after (futex_wake 64 100) f_lost) eq_refl).
Defined.

(** A waiter requeued to an address of another bucket stays in its old bucket,
    where a wake-up of the new address does not look. *)
Lemma futex_requeue_strands :
  value (futex_requeue 64 68 0 1) f_slept = Some 1 ∧
  value (_ ← futex_requeue 64 68 0 1; futex_wake 68 100) f_slept = Some 0.
Proof. by vm_compute. Qed.
