(* ===== verification/CpuAffinity.v ===== *)
(** * cpuaffinity.c: CPU affinity masks and load balancing

    The affinity manager [aff_mgr] with its per-CPU statistics, the affinity
    fields of the process table and the tick counter.  CPU numbers are [int]s
    and masks 32-bit words; counters are 64-bit and wrap. *)

From S2P Require Import Prelude ProcTable.

Definition MAX_CPUS : Z := 8.
Definition NCPU : Z := 8.
Definition CPU_MASK_ALL : Z := 0xFF.
Definition LB_NONE : Z := 0.
Definition LB_PERIODIC : Z := 1.
Definition LB_AGGRESSIVE : Z := 3.

(** ** State *)

(** The fields of [struct proc] that cpuaffinity.c uses. *)
Record aproc := AProc {
  ap_pid : Z;
  ap_state : procstate;
  cpu_affinity : Z;
  preferred_cpu : Z;
}.
#[export] Instance aproc_fields : Fields aproc := λ p,
  AProc (ap_pid p) (ap_state p) (cpu_affinity p) (preferred_cpu p).

Record cpu_stats := CpuStats {
  total_ticks : Z;
  idle_ticks : Z;
  user_ticks : Z;
  kernel_ticks : Z;
  context_switches : Z;
  migrations_in : Z;
  migrations_out : Z;
  runqueue_len : Z;
  current_pid : Z;
}.
#[export] Instance cpu_stats_fields : Fields cpu_stats := λ c,
  CpuStats (total_ticks c) (idle_ticks c) (user_ticks c) (kernel_ticks c) (context_switches c)
    (migrations_in c) (migrations_out c) (runqueue_len c) (current_pid c).

(** [struct affinity_manager], with the process table and [ticks] beside it. *)
Record affst := Aff {
  num_cpus : Z;
  lb_policy : Z;
  lb_interval : Z;
  last_lb_tick : Z;
  stats : list cpu_stats;
  total_migrations : Z;
  total_lb_runs : Z;
  affinity_violations : Z;
  procs : list aproc;
  ticks : Z;
}.
#[export] Instance affst_fields : Fields affst := λ s,
  Aff (num_cpus s) (lb_policy s) (lb_interval s) (last_lb_tick s) (stats s)
    (total_migrations s) (total_lb_runs s) (affinity_violations s) (procs s) (ticks s).

Definition cpuaffinity_init (s : affst) : affst :=
  s <| num_cpus := if MAX_CPUS <? NCPU then MAX_CPUS else NCPU |>
    <| lb_policy := LB_PERIODIC |> <| lb_interval := 100 |> <| last_lb_tick := 0 |>
    <| total_migrations := 0 |> <| total_lb_runs := 0 |> <| affinity_violations := 0 |>
    <| stats := replicate (Z.to_nat MAX_CPUS) (CpuStats 0 0 0 0 0 0 0 0 (-1)) |>.

(** ** Affinity masks *)

Definition find_aproc (pid : Z) (s : affst) : option nat :=
  findi (λ p, (ap_pid p =? pid) && bool_decide (ap_state p ≠ UNUSED)) (procs s).

Definition valid_mask (s : affst) : Z := u32 (Z.shiftl 1 (num_cpus s) - 1).

Definition sched_setaffinity (pid mask : Z) : ST affst Z :=
  if mask =? 0 then mret (-1)
  else
    s ← get;
    let mask := Z.land mask (valid_mask s) in
    if mask =? 0 then mret (-1)
    else
      match find_aproc pid s with
      | Some i => _ ← modify (λ s, s <| procs ::= alter (λ p, p <| cpu_affinity := mask |>) i |>); mret 0
      | None => mret (-1)
      end.

(** [None] is the return value -1. *)
Definition sched_getaffinity (pid : Z) (s : affst) : option Z :=
  i ← find_aproc pid s; p ← procs s !! i; Some (cpu_affinity p).

Definition cpu_allowed (s : affst) (p : aproc) (cpu : Z) : bool :=
  if (cpu <? 0) || (num_cpus s <=? cpu) then false
  else negb (Z.land (cpu_affinity p) (Z.shiftl 1 cpu) =? 0).

(** ** Load balancing *)

Definition get_cpu_load (s : affst) (cpu : Z) : Z :=
  if (cpu <? 0) || (num_cpus s <=? cpu) then 0
  else match stats s !! Z.to_nat cpu with Some c => runqueue_len c | None => 0 end.

Fixpoint least_loop (s : affst) (mask : Z) (i : nat) (n : nat) (best_cpu min_load : Z) : Z :=
  match n with
  | O => best_cpu
  | S n' =>
      if negb (Z.land mask (Z.shiftl 1 (Z.of_nat i)) =? 0) && (get_cpu_load s (Z.of_nat i) <? min_load)
      then least_loop s mask (i + 1) n' (Z.of_nat i) (get_cpu_load s (Z.of_nat i))
      else least_loop s mask (i + 1) n' best_cpu min_load
  end.

Definition find_least_loaded_cpu (s : affst) (mask : Z) : Z :=
  least_loop s mask 0 (Z.to_nat (num_cpus s)) (-1) 0x7FFFFFFF.

Fixpoint most_loop (s : affst) (i : nat) (n : nat) (worst_cpu max_load : Z) : Z :=
  match n with
  | O => worst_cpu
  | S n' =>
      if max_load <? get_cpu_load s (Z.of_nat i)
      then most_loop s (i + 1) n' (Z.of_nat i) (get_cpu_load s (Z.of_nat i))
      else most_loop s (i + 1) n' worst_cpu max_load
  end.

Definition find_most_loaded_cpu (s : affst) : Z :=
  most_loop s 0 (Z.to_nat (num_cpus s)) (-1) (-1).

(** [try_migrate_process(&proc[i], from_cpu, to_cpu)]. *)
Definition try_migrate_process (i : nat) (from_cpu to_cpu : Z) : ST affst Z :=
  s ← get;
  match procs s !! i with
  | None => mret (-1)
  | Some p =>
      if negb (cpu_allowed s p to_cpu) then
        _ ← modify (λ s, s <| affinity_violations ::= λ n, u64 (n + 1) |>); mret (-1)
      else
        _ ← modify (λ s, s <| stats ::= alter (λ c, c <| migrations_out ::= λ n, u64 (n + 1) |>) (Z.to_nat from_cpu) |>);
        _ ← modify (λ s, s <| stats ::= alter (λ c, c <| migrations_in ::= λ n, u64 (n + 1) |>) (Z.to_nat to_cpu) |>);
        _ ← modify (λ s, s <| total_migrations ::= λ n, u64 (n + 1) |>);
        _ ← modify (λ s, s <| procs ::= alter (λ p, p <| preferred_cpu := to_cpu |>) i |>);
        mret 0
  end.

Definition load_balance : ST affst () :=
  s ← get;
  if lb_policy s =? LB_NONE then mret ()
  else if (lb_policy s =? LB_PERIODIC) && (u64 (ticks s - last_lb_tick s) <? lb_interval s) then mret ()
  else
    _ ← modify (λ s, s <| last_lb_tick := ticks s |> <| total_lb_runs ::= λ n, u64 (n + 1) |>);
    s ← get;
    let busiest := find_most_loaded_cpu s in
    let idlest := find_least_loaded_cpu s CPU_MASK_ALL in
    if (busiest <? 0) || (idlest <? 0) || (busiest =? idlest) then mret ()
    else
      let load_diff := i32 (get_cpu_load s busiest - get_cpu_load s idlest) in
      if 2 <? load_diff then
        match findi (λ p, bool_decide (ap_state p = RUNNABLE) && cpu_allowed s p idlest) (procs s) with
        | Some i => _ ← try_migrate_process i busiest idlest; mret ()
        | None => mret ()
        end
      else mret ().

(** ** Statistics and configuration *)

Definition on_cpu (cpu : Z) (f : cpu_stats → cpu_stats) (s : affst) : affst :=
  if (cpu <? 0) || (num_cpus s <=? cpu) then s else s <| stats ::= alter f (Z.to_nat cpu) |>.

Definition cpu_stats_tick (cpu : Z) (is_idle : bool) : affst → affst :=
  on_cpu cpu (λ c,
    let c := c <| total_ticks ::= λ n, u64 (n + 1) |> in
    if is_idle then c <| idle_ticks ::= λ n, u64 (n + 1) |> else c).

Definition cpu_stats_switch (cpu new_pid : Z) : affst → affst :=
  on_cpu cpu (λ c, c <| context_switches ::= λ n, u64 (n + 1) |> <| current_pid := new_pid |>).

Definition cpu_stats_runqueue (cpu len : Z) : affst → affst :=
  on_cpu cpu (λ c, c <| runqueue_len := len |>).

Definition lb_set_policy (policy : Z) : ST affst Z :=
  if (policy <? LB_NONE) || (LB_AGGRESSIVE <? policy) then mret (-1)
  else _ ← modify (λ s, s <| lb_policy := policy |>); mret 0.

Definition lb_set_interval (interval : Z) : ST affst Z :=
  if interval <? 1 then mret (-1)
  else _ ← modify (λ s, s <| lb_interval := interval |>); mret 0.

(** ** The searches return an extremal CPU *)

(** CPU [i] may be chosen under [mask]. *)
Definition selectable (s : affst) (mask : Z) (i : Z) : Prop :=
  0 ≤ i < num_cpus s ∧ Z.testbit mask i = true.

(** What a search that has examined the CPUs below [i] knows: [best] is -1
    while nothing qualified, and otherwise the first minimum so far. *)
Definition least_below (s : affst) (mask : Z) (i : Z) (best lo : Z) : Prop :=
  (∀ j, 0 ≤ j < i → Z.testbit mask j = true → lo ≤ get_cpu_load s j) ∧
  ((best = -1 ∧ lo = 0x7FFFFFFF) ∨
   (0 ≤ best < i ∧ Z.testbit mask best = true ∧ get_cpu_load s best = lo ∧
    lo < 0x7FFFFFFF ∧ ∀ j, 0 ≤ j < best → Z.testbit mask j = true → lo < get_cpu_load s j)).

Lemma least_loop_spec s mask n i best lo :
  least_below s mask (Z.of_nat i) best lo →
  ∃ lo', least_below s mask (Z.of_nat (i + n)) (least_loop s mask i n best lo) lo'.
Proof.
  revert i best lo. induction n as [|n IH]; intros i best lo H; simpl.
  - exists lo. by rewrite Nat.add_0_r.
  - rewrite land_bit_zero, negb_involutive by lia.
    replace (i + S n)%nat with (i + 1 + n)%nat by lia.
    destruct H as [Hlo Hb]. destruct (Z.testbit mask (Z.of_nat i)) eqn:Em; simpl.
    + destruct (Z.ltb_spec (get_cpu_load s (Z.of_nat i)) lo); apply IH; split.
      * intros j Hj Hm. destruct (decide (j = Z.of_nat i)) as [->|]; [lia|].
        specialize (Hlo j ltac:(lia) Hm). lia.
      * right. split_and!; [lia..|done|done| |]; [destruct Hb; lia|].
        intros j Hj Hm. specialize (Hlo j ltac:(lia) Hm). lia.
      * intros j Hj Hm. destruct (decide (j = Z.of_nat i)) as [->|]; [lia|]. apply Hlo; [lia|done].
      * destruct Hb as [?|(? & ?)]; [by left|right]. split; [lia|done].
    + apply IH. split.
      * intros j Hj Hm. destruct (decide (j = Z.of_nat i)) as [->|]; [congruence|]. apply Hlo; [lia|done].
      * destruct Hb as [?|(? & ?)]; [by left|right]. split; [lia|done].
Qed.

Lemma find_least_spec s mask :
  0 ≤ num_cpus s → ∃ lo, least_below s mask (num_cpus s) (find_least_loaded_cpu s mask) lo.
Proof.
  intros Hn. destruct (least_loop_spec s mask (Z.to_nat (num_cpus s)) 0 (-1) 0x7FFFFFFF) as (lo & H).
  { split; [lia|]. by left. }
  exists lo. by rewrite Nat.add_0_l, Z2Nat.id in H.
Qed.

Definition most_below (s : affst) (i : Z) (worst hi : Z) : Prop :=
  (∀ j, 0 ≤ j < i → get_cpu_load s j ≤ hi) ∧
  ((worst = -1 ∧ hi = -1) ∨ (0 ≤ worst < i ∧ get_cpu_load s worst = hi ∧ 0 ≤ hi)).

Lemma most_loop_spec s n i worst hi :
  most_below s (Z.of_nat i) worst hi →
  ∃ hi', most_below s (Z.of_nat (i + n)) (most_loop s i n worst hi) hi'.
Proof.
  revert i worst hi. induction n as [|n IH]; intros i worst hi H; simpl.
  - exists hi. by rewrite Nat.add_0_r.
  - replace (i + S n)%nat with (i + 1 + n)%nat by lia. destruct H as [Hhi Hw].
    destruct (Z.ltb_spec hi (get_cpu_load s (Z.of_nat i))); apply IH; split;
      try (intros j Hj; destruct (decide (j = Z.of_nat i)) as [->|]; [lia|];
           specialize (Hhi j ltac:(lia)); lia); [right|]; destruct Hw; lia.
Qed.

Lemma find_most_spec s :
  0 ≤ num_cpus s → ∃ hi, most_below s (num_cpus s) (find_most_loaded_cpu s) hi.
Proof.
  intros Hn. destruct (most_loop_spec s (Z.to_nat (num_cpus s)) 0 (-1) (-1)) as (hi & H).
  { split; [lia|]. by left. }
  exists hi. by rewrite Nat.add_0_l, Z2Nat.id in H.
Qed.

(** ** The manager's invariant *)

Definition aproc_ok (p : aproc) : Prop :=
  cpu_affinity p ≠ 0 ∧ Z.land (cpu_affinity p) CPU_MASK_ALL = cpu_affinity p ∧ -1 ≤ preferred_cpu p < MAX_CPUS.

Record aff_inv (s : affst) : Prop := AffInv {
  ai_cpus : num_cpus s = MAX_CPUS;
  ai_stats : length (stats s) = Z.to_nat MAX_CPUS;
  ai_policy : LB_NONE ≤ lb_policy s ≤ LB_AGGRESSIVE;
  ai_interval : 1 ≤ lb_interval s;
  ai_procs : Forall aproc_ok (procs s);
}.

Lemma affinity_init_inv s : Forall aproc_ok (procs s) → aff_inv (cpuaffinity_init s).
Proof. intros H. split; [done|done|cbn; unfold LB_NONE, LB_PERIODIC, LB_AGGRESSIVE; lia|cbn; lia|done]. Qed.

Lemma valid_mask_inv s : aff_inv s → valid_mask s = CPU_MASK_ALL.
Proof. intros H. unfold valid_mask. by rewrite (ai_cpus _ H). Qed.

Lemma Forall_alter_ok {A : Type} (P : A → Prop) (f : A → A) i l :
  Forall P l → (∀ x, P x → P (f x)) → Forall P (alter f i l).
Proof. intros Hl Hf. apply Forall_alter; [done|]. intros x _ Hx. by apply Hf. Qed.

Lemma setaffinity_inv pid mask s : aff_inv s → aff_inv (after (sched_setaffinity pid mask) s).
Proof.
  intros H. unfold after, sched_setaffinity. destruct (mask =? 0); [done|]. step_with (run_get s).
  rewrite (valid_mask_inv _ H). destruct (Z.eqb_spec (Z.land mask CPU_MASK_ALL) 0); [done|].
  destruct (find_aproc pid s); [|done]. destruct H. split; cbn; try done.
  apply Forall_alter_ok; [done|]. intros p (? & ? & ?). split_and!; cbn; [done| |lia..].
  by rewrite <-Z.land_assoc, Z.land_diag.
Qed.

(** The whole effect of a successful [try_migrate_process]. *)
Definition migrated (i : nat) (from_cpu to_cpu : Z) (s : affst) : affst :=
  s <| stats ::= alter (λ c, c <| migrations_out ::= λ n, u64 (n + 1) |>) (Z.to_nat from_cpu) |>
    <| stats ::= alter (λ c, c <| migrations_in ::= λ n, u64 (n + 1) |>) (Z.to_nat to_cpu) |>
    <| total_migrations ::= λ n, u64 (n + 1) |>
    <| procs ::= alter (λ p, p <| preferred_cpu := to_cpu |>) i |>.

Lemma try_migrate_run s i p from_cpu to_cpu :
  procs s !! i = Some p → cpu_allowed s p to_cpu = true →
  run (try_migrate_process i from_cpu to_cpu) s 0 (migrated i from_cpu to_cpu s).
Proof. intros Hi Ha. unfold try_migrate_process. step_with (run_get s). rewrite Hi, Ha. done. Qed.

Lemma migrated_inv i from_cpu to_cpu s :
  -1 ≤ to_cpu < MAX_CPUS → aff_inv s → aff_inv (migrated i from_cpu to_cpu s).
Proof.
  intros Hto H. destruct H. split; cbn; try done; [by rewrite !length_alter|].
  apply Forall_alter_ok; [done|]. by intros p (? & ? & ?).
Qed.

(** The state after the bookkeeping at the head of a balancing run. *)
Definition lb_started (s : affst) : affst :=
  s <| last_lb_tick := ticks s |> <| total_lb_runs ::= λ n, u64 (n + 1) |>.

Definition lb_due (s : affst) : bool :=
  negb (lb_policy s =? LB_NONE) &&
  (negb (lb_policy s =? LB_PERIODIC) || (lb_interval s <=? u64 (ticks s - last_lb_tick s))).

(** The result of [load_balance] as a function. *)
Definition lb_result (s : affst) : affst :=
  if negb (lb_due s) then s
  else
    let busiest := find_most_loaded_cpu s in
    let idlest := find_least_loaded_cpu s CPU_MASK_ALL in
    if (busiest <? 0) || (idlest <? 0) || (busiest =? idlest)
       || (i32 (get_cpu_load s busiest - get_cpu_load s idlest) <=? 2)
    then lb_started s
    else match findi (λ p, bool_decide (ap_state p = RUNNABLE) && cpu_allowed s p idlest) (procs s) with
         | Some i => migrated i busiest idlest (lb_started s)
         | None => lb_started s
         end.

Lemma lb_started_loads s cpu : get_cpu_load (lb_started s) cpu = get_cpu_load s cpu.
Proof. done. Qed.
Lemma least_loop_started s mask n i b lo :
  least_loop (lb_started s) mask i n b lo = least_loop s mask i n b lo.
Proof. revert i b lo. induction n as [|n IH]; intros; simpl; rewrite ?IH, ?lb_started_loads; done. Qed.
Lemma most_loop_started s n i w hi : most_loop (lb_started s) i n w hi = most_loop s i n w hi.
Proof. revert i w hi. induction n as [|n IH]; intros; simpl; rewrite ?IH, ?lb_started_loads; done. Qed.
Lemma find_least_started s mask : find_least_loaded_cpu (lb_started s) mask = find_least_loaded_cpu s mask.
Proof. apply least_loop_started. Qed.
Lemma find_most_started s : find_most_loaded_cpu (lb_started s) = find_most_loaded_cpu s.
Proof. apply most_loop_started. Qed.

Lemma load_balance_run s : run load_balance s () (lb_result s).
Proof.
  unfold load_balance, lb_result, lb_due. step_with (run_get s).
  destruct (lb_policy s =? LB_NONE); simpl; [done|].
  rewrite Z.leb_antisym.
  destruct (lb_policy s =? LB_PERIODIC); simpl; [destruct (_ <? lb_interval s); simpl; [done|]|].
  all: step_with (run_modify (λ s, lb_started s) s); step_with (run_get (lb_started s));
    rewrite find_least_started, find_most_started, !lb_started_loads, Z.leb_antisym;
    destruct ((find_most_loaded_cpu s <? 0) || _ || _); simpl; [done|];
    destruct (2 <? _); simpl; [|done];
    destruct (findi _ _) as [i|] eqn:Ef; [|done];
    pose proof (findi_lookup _ _ _ Ef) as (p & Hp & [_ Hall]%andb_true_iff);
    step_with (try_migrate_run (lb_started s) i p (find_most_loaded_cpu s) (find_least_loaded_cpu s CPU_MASK_ALL) Hp Hall); done.
Qed.

(** Loads the searches can tell apart from their start values. *)
Definition loads_ok (s : affst) : Prop := ∀ j, 0 ≤ j < num_cpus s → 0 ≤ get_cpu_load s j < 0x7FFFFFFF.

Lemma least_in_range s :
  aff_inv s → loads_ok s →
  let b := find_least_loaded_cpu s CPU_MASK_ALL in
  0 ≤ b < MAX_CPUS ∧ (∀ j, 0 ≤ j < MAX_CPUS → get_cpu_load s b ≤ get_cpu_load s j) ∧
  (∀ j, 0 ≤ j < b → get_cpu_load s b < get_cpu_load s j).
Proof.
  intros H Hl b. unfold b. assert (Hall : ∀ j, 0 ≤ j < MAX_CPUS → Z.testbit CPU_MASK_ALL j = true).
  { intros j Hj. change CPU_MASK_ALL with (Z.ones 8). apply Z.ones_spec_low. unfold MAX_CPUS in Hj. lia. }
  destruct (find_least_spec s CPU_MASK_ALL) as (lo & Hlo & Hb); rewrite (ai_cpus _ H) in *; [done|].
  destruct Hb as [(Hb & ->)|(Hb & Hm & Hload & Hlt & Hmin)].
  - specialize (Hlo 0 ltac:(done) (Hall 0 ltac:(done))). unfold loads_ok in Hl.
    rewrite (ai_cpus _ H) in Hl. specialize (Hl 0 ltac:(done)). lia.
  - rewrite Hload. split_and!; [lia..| |].
    + intros j Hj. by apply Hlo, Hall.
    + intros j Hj. apply Hmin; [done|]. apply Hall. lia.
Qed.

Lemma most_in_range s :
  aff_inv s → loads_ok s →
  let w := find_most_loaded_cpu s in
  0 ≤ w < MAX_CPUS ∧ ∀ j, 0 ≤ j < MAX_CPUS → get_cpu_load s j ≤ get_cpu_load s w.
Proof.
  intros H Hl w. unfold w. unfold loads_ok in Hl.
  destruct (find_most_spec s) as (hi & Hhi & Hw); rewrite (ai_cpus _ H) in *; [done|].
  destruct Hw as [(Hw & ->)|(Hw & <- & _)]; [|done].
  specialize (Hhi 0 ltac:(done)). specialize (Hl 0 ltac:(done)). lia.
Qed.

(** ** The operations as steps of the running system *)

Inductive aff_step : affst → affst → Prop :=
| ASetAffinity pid mask s : aff_step s (after (sched_setaffinity pid mask) s)
| ALoadBalance s : aff_step s (after load_balance s)
| AStatsTick cpu idle s : aff_step s (cpu_stats_tick cpu idle s)
| AStatsSwitch cpu pid s : aff_step s (cpu_stats_switch cpu pid s)
| AStatsRunqueue cpu len s : aff_step s (cpu_stats_runqueue cpu len s)
| ASetPolicy policy s : aff_step s (after (lb_set_policy policy) s)
| ASetInterval interval s : aff_step s (after (lb_set_interval interval) s)
| AClock t s : aff_step s (s <| ticks := t |>)
(** [allocproc] (proc.c) resets the affinity fields of the entry it takes,
    and the scheduler changes states. *)
| AAlloc i pid s : aff_step s (s <| procs ::= alter (λ _, AProc pid RUNNABLE 0xFF (-1)) i |>)
| AState i st s : aff_step s (s <| procs ::= alter (λ p, p <| ap_state := st |>) i |>).

Lemma on_cpu_inv cpu f s : aff_inv s → aff_inv (on_cpu cpu f s).
Proof.
  intros H. unfold on_cpu. destruct (_ || _); [done|]. destruct H. split; cbn; try done. by rewrite length_alter.
Qed.

Lemma least_range_any s : aff_inv s → -1 ≤ find_least_loaded_cpu s CPU_MASK_ALL < MAX_CPUS.
Proof.
  intros H. destruct (find_least_spec s CPU_MASK_ALL) as (lo & _ & Hb); rewrite (ai_cpus _ H) in *; [done|].
  unfold MAX_CPUS in *. destruct Hb as [[-> _]|[? _]]; lia.
Qed.

Lemma load_balance_inv s : aff_inv s → aff_inv (after load_balance s).
Proof.
  intros H. unfold after. rewrite load_balance_run. unfold lb_result.
  assert (aff_inv (lb_started s)) by (destruct H; by split).
  destruct (negb _); [done|]. destruct (_ || _ || _ || _); [done|]. destruct (findi _ _); [|done].
  apply migrated_inv; [|done]. by apply least_range_any.
Qed.

Lemma aff_step_inv s s' : aff_step s s' → aff_inv s → aff_inv s'.
Proof.
  intros Hst H. destruct Hst; try (by apply on_cpu_inv).
  - by apply setaffinity_inv.
  - by apply load_balance_inv.
  - unfold after, lb_set_policy. destruct ((policy <? LB_NONE) || (LB_AGGRESSIVE <? policy)) eqn:E; [done|].
    apply orb_false_iff in E as [?%Z.ltb_ge ?%Z.ltb_ge]. destruct H. by split.
  - unfold after, lb_set_interval. destruct (Z.ltb_spec interval 1); [done|]. destruct H. by split.
  - destruct H. by split.
  - destruct H. split; cbn; try done. by apply Forall_alter_ok.
  - destruct H. split; cbn; try done. by apply Forall_alter_ok.
Qed.

(** Whatever sequence of affinity calls, balancing runs, statistics
    updates, configuration changes, clock ticks, process creations and state
    changes follows [cpuaffinity_init], every process keeps at least one CPU
    it may run on, its mask names only existing CPUs, its preferred CPU is -1
    or an existing CPU, and the manager's policy and interval stay valid. *)
Theorem affinity_invariant s s' :
  Forall aproc_ok (procs s) → rtc aff_step (cpuaffinity_init s) s' → aff_inv s'.
Proof.
  intros Hp Hr. apply affinity_init_inv in Hp. revert Hp.
  induction Hr as [|x y z Hxy _ IH]; [done|]. intros Hx. by eapply IH, aff_step_inv.
Qed.

(** A table of two processes, the first one on every CPU, the second pinned. *)
Definition aff0 : affst :=
  Aff 0 0 0 0 [] 0 0 0 [AProc 1 RUNNING 0xFF (-1); AProc 2 RUNNABLE 0xFF (-1)] 200.

Lemma aff0_ok : Forall aproc_ok (procs aff0).
Proof. repeat constructor; unfold MAX_CPUS; cbn; lia. Qed.

Lemma affinity_invariant_witness :
  aff_inv (after load_balance (cpu_stats_runqueue 3 7 (after (sched_setaffinity 2 0x30C) (cpuaffinity_init aff0)))).
Proof.
  apply (affinity_invariant aff0 _ aff0_ok).
  eapply rtc_l; [apply (ASetAffinity 2 0x30C)|]. eapply rtc_l; [apply (AStatsRunqueue 3 7)|].
  eapply rtc_l; [apply ALoadBalance|]. apply rtc_refl.
Defined.

(** [load_balance] does nothing before it is due.  When due it records the
    run, compares a busiest CPU with the first idlest one, and only if their
    queue lengths differ by more than two marks one process: the first
    runnable process of the table whose mask admits the idlest CPU, which
    becomes its preferred CPU, with one migration counted out of the busiest
    and into the idlest CPU. *)
Theorem load_balance_correct s :
  aff_inv s → loads_ok s →
  ∃ s', run load_balance s () s' ∧
    (lb_due s = false → s' = s) ∧
    (lb_due s = true → ∃ busiest idlest,
      0 ≤ busiest < MAX_CPUS ∧ 0 ≤ idlest < MAX_CPUS ∧
      (∀ j, 0 ≤ j < MAX_CPUS → get_cpu_load s idlest ≤ get_cpu_load s j ≤ get_cpu_load s busiest) ∧
      (∀ j, 0 ≤ j < idlest → get_cpu_load s idlest < get_cpu_load s j) ∧
      (get_cpu_load s busiest - get_cpu_load s idlest ≤ 2 → s' = lb_started s) ∧
      (2 < get_cpu_load s busiest - get_cpu_load s idlest →
        (s' = lb_started s ∧
           ∀ i p, procs s !! i = Some p → ap_state p = RUNNABLE → cpu_allowed s p idlest = false) ∨
        (∃ i p, procs s !! i = Some p ∧ ap_state p = RUNNABLE ∧ Z.testbit (cpu_affinity p) idlest = true ∧
           (∀ i' p', (i' < i)%nat → procs s !! i' = Some p' → ap_state p' = RUNNABLE → cpu_allowed s p' idlest = false) ∧
           s' = migrated i busiest idlest (lb_started s)))).
Proof.
  intros H Hl. exists (lb_result s). split; [apply load_balance_run|]. unfold lb_result.
  split; intros ->; [done|]. simpl.
  destruct (least_in_range s H Hl) as (Hb & Hmin & Hfst). destruct (most_in_range s H Hl) as (Hw & Hmax).
  pose proof (Hl (find_least_loaded_cpu s CPU_MASK_ALL)) as Hl1.
  pose proof (Hl (find_most_loaded_cpu s)) as Hl2. rewrite (ai_cpus _ H) in Hl1, Hl2.
  specialize (Hl1 Hb). specialize (Hl2 Hw).
  set (idlest := find_least_loaded_cpu s CPU_MASK_ALL) in *. set (busiest := find_most_loaded_cpu s) in *.
  exists busiest, idlest. split_and!; [lia..| | | |].
  - intros j Hj. split; [by apply Hmin|by apply Hmax].
  - done.
  - intros Hd. rewrite i32_small by lia. rewrite (proj2 (Z.leb_le _ 2)) by lia. by rewrite orb_true_r.
  - intros Hd. rewrite i32_small by lia. rewrite (proj2 (Z.leb_gt _ 2)), orb_false_r by lia.
    rewrite (proj2 (Z.ltb_ge busiest 0)), (proj2 (Z.ltb_ge idlest 0)) by lia.
    rewrite (proj2 (Z.eqb_neq busiest idlest)) by (intros E; rewrite E in Hd; lia). simpl.
    destruct (findi _ _) as [i|] eqn:Ef; [right|left].
    + apply findi_Some in Ef as [(p & Hp & [Hr Ha]%andb_true_iff) Hno]. exists i, p.
      apply bool_decide_eq_true in Hr. split_and!; [done|done| | |done].
      * unfold cpu_allowed in Ha. destruct (_ || _); [done|]. rewrite land_bit_zero, negb_involutive in Ha by lia. done.
      * intros i' p' Hi Hp' Hr'. specialize (Hno i' p' Hi Hp'). by rewrite Hr', bool_decide_true in Hno.
    + split; [done|]. intros i p Hp Hr. rewrite findi_None in Ef. specialize (Ef i p Hp).
      by rewrite Hr, bool_decide_true in Ef.
Qed.

(** CPU 3 has seven processes queued, the others none; the run is due. *)
Definition aff1 : affst := cpu_stats_runqueue 3 7 (cpuaffinity_init aff0).

Lemma aff1_inv : aff_inv aff1.
Proof. apply on_cpu_inv, affinity_init_inv, aff0_ok. Qed.

Lemma aff1_loads : loads_ok aff1.
Proof.
  intros j Hj. change (num_cpus aff1) with 8 in Hj.
  assert (j = 0 ∨ j = 1 ∨ j = 2 ∨ j = 3 ∨ j = 4 ∨ j = 5 ∨ j = 6 ∨ j = 7) as Hc by lia.
  destruct_or! Hc; subst j; vm_compute; split; congruence.
Qed.

Lemma load_balance_correct_witness :
  lb_due aff1 = true ∧ ∃ s', run load_balance aff1 () s' ∧ ∃ busiest idlest,
    0 ≤ busiest < MAX_CPUS ∧ 0 ≤ idlest < MAX_CPUS ∧
    (∀ j, 0 ≤ j < MAX_CPUS → get_cpu_load aff1 idlest ≤ get_cpu_load aff1 j ≤ get_cpu_load aff1 busiest).
Proof.
  split; [reflexivity|]. destruct (load_balance_correct aff1 aff1_inv aff1_loads) as (s' & Hr & _ & Hd).
  exists s'. split; [exact Hr|]. destruct (Hd eq_refl) as (b & i & ? & ? & ? & _). by exists b, i.
Defined.

(** The candidate is not taken from the busiest CPU and not remembered: with
    the aggressive policy a second run marks the same process again and counts
    a second migration out of the busiest CPU although nothing moved. *)
Lemma load_balance_repeats :
  let s := aff1 <| lb_policy := LB_AGGRESSIVE |> in
  let s1 := after load_balance s in
  let s2 := after load_balance s1 in
  procs s2 = procs s1 ∧ total_migrations s1 = 1 ∧ total_migrations s2 = 2.
Proof. vm_compute. done. Qed.
