(* ===== verification/Cgroups.v ===== *)
(** * cgroups.c: control groups

    The table of groups, their members and limits.  Each call runs under
    [cgroups.lock] and is a function from the table to its result and the new
    table; [ticks] is the clock when the call reads it.  [token_bucket] is the
    rate limiter that the four traffic checks share. *)

From S2P Require Import Prelude CString ProcTable.

Definition MAX_CGROUPS : nat := 16.
Definition MAX_PROCS_PER_CGROUP : nat := 32.
Definition CGROUP_NAME_LEN : nat := 32.

Definition CTRL_CPU : Z := 0x01.
Definition CTRL_MEMORY : Z := 0x02.
Definition CTRL_IO : Z := 0x04.
Definition CTRL_PIDS : Z := 0x08.

(** ** State *)

Record cpu_controller := CpuC {
  cpu_enabled : Z; cpu_shares : Z; cpu_quota : Z; cpu_period : Z; cpu_usage : Z;
}.
#[export] Instance cpu_controller_fields : Fields cpu_controller := λ c,
  CpuC (cpu_enabled c) (cpu_shares c) (cpu_quota c) (cpu_period c) (cpu_usage c).

Record memory_controller := MemC {
  mem_enabled : Z; memory_limit : Z; memory_usage : Z; memory_max_usage : Z; oom_kill_count : Z;
}.
#[export] Instance memory_controller_fields : Fields memory_controller := λ c,
  MemC (mem_enabled c) (memory_limit c) (memory_usage c) (memory_max_usage c) (oom_kill_count c).

(** One direction of the I/O and of the network controller. *)
Record channel := Channel {
  bps_limit : Z;
  ops_limit : Z;                        (* iops or packets per second *)
  c_bytes : Z;
  c_ops : Z;
  last_time : Z;
  tokens : Z;
}.
#[export] Instance channel_fields : Fields channel := λ c,
  Channel (bps_limit c) (ops_limit c) (c_bytes c) (c_ops c) (last_time c) (tokens c).

Record io_controller := IoC { io_enabled : Z; io_read : channel; io_write : channel; io_weight : Z; io_throttled : Z }.
#[export] Instance io_controller_fields : Fields io_controller := λ c,
  IoC (io_enabled c) (io_read c) (io_write c) (io_weight c) (io_throttled c).

Record net_controller := NetC { net_enabled : Z; net_tx : channel; net_rx : channel; net_priority : Z; net_throttled : Z }.
#[export] Instance net_controller_fields : Fields net_controller := λ c,
  NetC (net_enabled c) (net_tx c) (net_rx c) (net_priority c) (net_throttled c).

Record pids_controller := PidsC { pids_enabled : Z; pids_max : Z; pids_current : Z }.
#[export] Instance pids_controller_fields : Fields pids_controller := λ c,
  PidsC (pids_enabled c) (pids_max c) (pids_current c).

Record cgroup := Cgroup {
  cg_used : bool;
  cg_name : list Z;
  cg_id : Z;
  parent_id : Z;
  controllers : Z;
  cg_cpu : cpu_controller;
  cg_memory : memory_controller;
  cg_io : io_controller;
  cg_net : net_controller;
  cg_pids : pids_controller;
  cg_procs : list Z;
  proc_count : nat;
  created_time : Z;
  io_throttle_count : Z;
  net_throttle_count : Z;
}.
#[export] Instance cgroup_fields : Fields cgroup := λ g,
  Cgroup (cg_used g) (cg_name g) (cg_id g) (parent_id g) (controllers g) (cg_cpu g) (cg_memory g) (cg_io g) (cg_net g)
    (cg_pids g) (cg_procs g) (proc_count g) (created_time g) (io_throttle_count g) (net_throttle_count g).

Record cgroups := Cgroups { groups : list cgroup; group_count : Z; next_id : Z }.
#[export] Instance cgroups_fields : Fields cgroups := λ s, Cgroups (groups s) (group_count s) (next_id s).

Definition channel0 : channel := Channel 0 0 0 0 0 0.
Definition cgroup0 : cgroup :=
  Cgroup false (replicate CGROUP_NAME_LEN 0) 0 0 0 (CpuC 0 0 0 0 0) (MemC 0 0 0 0 0) (IoC 0 channel0 channel0 0 0)
    (NetC 0 channel0 channel0 0 0) (PidsC 0 0 0) (replicate MAX_PROCS_PER_CGROUP 0) 0 0 0 0.

(** The name field after [strncpy(cg->name, name, CGROUP_NAME_LEN)]. *)
Definition group_name (str : list Z) : list Z := strncpy_field CGROUP_NAME_LEN [] str.

Definition all_controllers : Z := Z.lor (Z.lor (Z.lor CTRL_CPU CTRL_MEMORY) CTRL_IO) CTRL_PIDS.

Definition cgroups_init : cgroups :=
  let root := cgroup0 <| cg_used := true |> <| cg_name := group_name [47; 0] |> <| parent_id := -1 |>
                <| controllers := all_controllers |> <| cg_cpu := CpuC 1 1024 (-1) 100000 0 |>
                <| cg_memory := MemC 1 0 0 0 0 |> <| cg_io ::= λ c, c <| io_enabled := 1 |> |>
                <| cg_pids := PidsC 1 (Z.of_nat NPROC) 0 |> in
  Cgroups (<[0%nat := root]> (replicate MAX_CGROUPS cgroup0)) 1 1.

(** ** Groups *)

Definition has_id (x : Z) (g : cgroup) : bool := cg_used g && (cg_id g =? x).
Definition find_group (x : Z) (s : cgroups) : option nat := findi (has_id x) (groups s).
Definition group (i : nat) (s : cgroups) : cgroup := default cgroup0 (groups s !! i).

(** The loop that looks for a group by its id and changes it, or returns -1. *)
Definition on_group (x : Z) (f : cgroup → cgroup) (s : cgroups) : Z * cgroups :=
  match find_group x s with
  | Some i => (0, s <| groups ::= alter f i |>)
  | None => (-1, s)
  end.

Definition new_group (name : list Z) (parent : option cgroup) (parent_id ticks next : Z) : cgroup :=
  let g := Cgroup true (group_name name) next parent_id 0 (CpuC 0 0 0 0 0) (MemC 0 0 0 0 0)
             (IoC 0 channel0 channel0 0 0) (NetC 0 channel0 channel0 0 0) (PidsC 0 0 0)
             (replicate MAX_PROCS_PER_CGROUP 0) 0 ticks 0 0 in
  match parent with
  | Some p =>
      g <| controllers := controllers p |> <| cg_cpu := cg_cpu p |> <| cg_memory := cg_memory p |>
        <| cg_io := cg_io p |> <| cg_pids := cg_pids p |>
  | None =>
      g <| controllers := all_controllers |> <| cg_cpu ::= λ c, c <| cpu_enabled := 1 |> <| cpu_shares := 1024 |> |>
        <| cg_memory ::= λ c, c <| mem_enabled := 1 |> |> <| cg_io ::= λ c, c <| io_enabled := 1 |> |>
        <| cg_pids ::= λ c, c <| pids_enabled := 1 |> <| pids_max := Z.of_nat NPROC |> |>
  end.

Definition cgroup_create (name : list Z) (parent_id ticks : Z) (s : cgroups) : Z * cgroups :=
  let parent := if 0 <=? parent_id then find_group parent_id s else None in
  if (0 <=? parent_id) && bool_decide (parent = None) then (-1, s)
  else match findi (λ g, negb (cg_used g)) (groups s) with
  | None => (-1, s)
  | Some i =>
      (next_id s,
       s <| groups ::= <[i := new_group name ((λ k, group k s) <$> parent) parent_id ticks (next_id s)]> |>
         <| next_id ::= λ n, i32 (n + 1) |> <| group_count ::= λ n, i32 (n + 1) |>)
  end.

Definition cgroup_delete (x : Z) (s : cgroups) : Z * cgroups :=
  match find_group x s with
  | Some i =>
      if (0 <? proc_count (group i s))%nat then (-1, s)
      else (0, s <| groups ::= alter (λ g, g <| cg_used := false |>) i |> <| group_count ::= λ n, i32 (n - 1) |>)
  | None => (-1, s)
  end.

(** ** Members *)

Definition members (g : cgroup) : list Z := take (proc_count g) (cg_procs g).
Definition member_index (pid : Z) (g : cgroup) : option nat := findi (Z.eqb pid) (members g).

Definition add_member (pid : Z) (g : cgroup) : cgroup :=
  g <| cg_procs ::= <[proc_count g := pid]> |> <| proc_count := S (proc_count g) |>
    <| cg_pids ::= λ c, c <| pids_current ::= λ n, i32 (n + 1) |> |>.

Definition cgroup_attach (x pid : Z) (s : cgroups) : Z * cgroups :=
  match find_group x s with
  | None => (-1, s)
  | Some i =>
      let g := group i s in
      if negb (pids_enabled (cg_pids g) =? 0) && (pids_max (cg_pids g) <=? pids_current (cg_pids g)) then (-1, s)
      else if member_index pid g then (0, s)
      else if (MAX_PROCS_PER_CGROUP <=? proc_count g)%nat then (-1, s)
      else (0, s <| groups ::= alter (add_member pid) i |>)
  end.

(** [for (j = i; ...; j++) procs[j] = procs[j + 1]], [n] times. *)
Fixpoint shift_down (j n : nat) (l : list Z) : list Z :=
  match n with
  | O => l
  | S n' => shift_down (S j) n' (<[j := default 0 (l !! S j)]> l)
  end.

Definition drop_member (j : nat) (g : cgroup) : cgroup :=
  g <| cg_procs ::= shift_down j (proc_count g - 1 - j) |> <| proc_count := (proc_count g - 1)%nat |>
    <| cg_pids ::= λ c, c <| pids_current ::= λ n, i32 (n - 1) |> |>.

Definition cgroup_detach (x pid : Z) (s : cgroups) : Z * cgroups :=
  match find_group x s with
  | None => (-1, s)
  | Some i =>
      match member_index pid (group i s) with
      | Some j => (0, s <| groups ::= alter (drop_member j) i |>)
      | None => (-1, s)
      end
  end.

(** ** Limits *)

Definition cgroup_set_cpu (x shares quota period : Z) : cgroups → Z * cgroups :=
  on_group x (λ g, g <| cg_cpu ::= λ c,
    let c := if 0 <? shares then c <| cpu_shares := shares |> else c in
    let c := if negb (quota =? 0) then c <| cpu_quota := quota |> else c in
    if 0 <? period then c <| cpu_period := period |> else c |>).
Definition cgroup_set_memory (x limit : Z) : cgroups → Z * cgroups :=
  on_group x (λ g, g <| cg_memory ::= λ c, c <| memory_limit := limit |> |>).
Definition cgroup_set_pids (x max : Z) : cgroups → Z * cgroups :=
  on_group x (λ g, g <| cg_pids ::= λ c, c <| pids_max := max |> |>).

Definition limit_bps (bps : Z) (c : channel) : channel := if 0 <? bps then c <| bps_limit := bps |> else c.
Definition limit_ops (ops : Z) (c : channel) : channel := if 0 <? ops then c <| ops_limit := ops |> else c.

Definition cgroup_set_io_limit (x read_bps write_bps weight : Z) : cgroups → Z * cgroups :=
  on_group x (λ g, g <| cg_io ::= λ c,
    let c := c <| io_read ::= limit_bps read_bps |> <| io_write ::= limit_bps write_bps |> in
    if (100 <=? weight) && (weight <=? 1000) then c <| io_weight := weight |> else c |>).
Definition cgroup_set_io_iops (x read_iops write_iops : Z) : cgroups → Z * cgroups :=
  on_group x (λ g, g <| cg_io ::= λ c, c <| io_read ::= limit_ops read_iops |> <| io_write ::= limit_ops write_iops |> |>).
Definition cgroup_set_net_limit (x tx_bps rx_bps priority : Z) : cgroups → Z * cgroups :=
  on_group x (λ g, g <| cg_net ::= λ c,
    let c := c <| net_enabled := 1 |> <| net_tx ::= limit_bps tx_bps |> <| net_rx ::= limit_bps rx_bps |> in
    if (0 <=? priority) && (priority <=? 7) then c <| net_priority := priority |> else c |>).
Definition cgroup_set_net_pps (x tx_pps rx_pps : Z) : cgroups → Z * cgroups :=
  on_group x (λ g, g <| cg_net ::= λ c, c <| net_tx ::= limit_ops tx_pps |> <| net_rx ::= limit_ops rx_pps |> |>).

(** ** Checks *)

(** The nested loops that find the group of a process: the first group in use
    that has it. *)
Definition has_member (pid : Z) (g : cgroup) : bool := cg_used g && bool_decide (is_Some (member_index pid g)).
Definition group_of (pid : Z) (s : cgroups) : option nat := findi (has_member pid) (groups s).

Definition cgroup_check_memory (pid size : Z) (s : cgroups) : Z :=
  match group_of pid s with
  | Some i =>
      let c := cg_memory (group i s) in
      if negb (mem_enabled c =? 0) && (0 <? memory_limit c) && (memory_limit c <? u64 (memory_usage c + size)) then 0 else 1
  | None => 1
  end.

Definition charge_memory (delta : Z) (c : memory_controller) : memory_controller :=
  if 0 <? delta then
    let u := u64 (memory_usage c + delta) in
    c <| memory_usage := u |> <| memory_max_usage := Z.max u (memory_max_usage c) |>
  else if u64 (i32 (- delta)) <=? memory_usage c then c <| memory_usage := u64 (memory_usage c + delta) |>
  else c <| memory_usage := 0 |>.
Definition cgroup_update_memory (pid delta : Z) (s : cgroups) : cgroups :=
  match group_of pid s with
  | Some i => s <| groups ::= alter (λ g, g <| cg_memory ::= charge_memory delta |>) i |>
  | None => s
  end.

(** The token bucket of a channel with a limit: refill for the time since the
    last call, then take [bytes] tokens if there are as many. *)
Definition refill (ticks : Z) (c : channel) : channel :=
  let elapsed := u64 (ticks - last_time c) in
  let new_tokens := u64 (elapsed * bps_limit c) / 100 in
  c <| tokens := Z.min (u64 (tokens c + new_tokens)) (bps_limit c) |> <| last_time := ticks |>.
Definition token_bucket (ticks bytes : Z) (c : channel) : bool * channel :=
  let c := refill ticks c in
  if bytes <=? tokens c then
    (true, c <| tokens ::= λ n, n - bytes |> <| c_bytes ::= λ n, u64 (n + bytes) |> <| c_ops ::= λ n, u64 (n + 1) |>)
  else (false, c).

Definition throttle_io (g : cgroup) : cgroup :=
  g <| cg_io ::= λ c, c <| io_throttled := 1 |> |> <| io_throttle_count ::= λ n, u64 (n + 1) |>.
Definition throttle_net (g : cgroup) : cgroup :=
  g <| cg_net ::= λ c, c <| net_throttled := 1 |> |> <| net_throttle_count ::= λ n, u64 (n + 1) |>.

(** A check of the group of [pid]: [chan] and [put] are the channel and its
    place, [enabled] the switch of its controller. *)
Definition check_traffic (chan : cgroup → channel) (put : channel → cgroup → cgroup) (enabled : cgroup → Z)
    (throttle : cgroup → cgroup) (pid ticks bytes : Z) (s : cgroups) : Z * cgroups :=
  match group_of pid s with
  | None => (1, s)
  | Some i =>
      let g := group i s in
      if (enabled g =? 0) || (bps_limit (chan g) =? 0) then (1, s)
      else
        let '(ok, c) := token_bucket ticks bytes (chan g) in
        if ok then (1, s <| groups ::= alter (put c) i |>)
        else (0, s <| groups ::= alter (λ g, throttle (put c g)) i |>)
  end.

Definition read_chan (g : cgroup) : channel := io_read (cg_io g).
Definition write_chan (g : cgroup) : channel := io_write (cg_io g).
Definition tx_chan (g : cgroup) : channel := net_tx (cg_net g).
Definition rx_chan (g : cgroup) : channel := net_rx (cg_net g).
Definition put_read (c : channel) (g : cgroup) : cgroup := g <| cg_io ::= λ x, x <| io_read := c |> |>.
Definition put_write (c : channel) (g : cgroup) : cgroup := g <| cg_io ::= λ x, x <| io_write := c |> |>.
Definition put_tx (c : channel) (g : cgroup) : cgroup := g <| cg_net ::= λ x, x <| net_tx := c |> |>.
Definition put_rx (c : channel) (g : cgroup) : cgroup := g <| cg_net ::= λ x, x <| net_rx := c |> |>.

Definition cgroup_check_io_read := check_traffic read_chan put_read (λ g, io_enabled (cg_io g)) throttle_io.
Definition cgroup_check_io_write := check_traffic write_chan put_write (λ g, io_enabled (cg_io g)) throttle_io.
Definition cgroup_check_net_tx := check_traffic tx_chan put_tx (λ g, net_enabled (cg_net g)) throttle_net.
Definition cgroup_check_net_rx := check_traffic rx_chan put_rx (λ g, net_enabled (cg_net g)) throttle_net.

(** Statistics: bytes and operations in both directions; nothing is written
    for an unknown group. *)
Definition chan_stats (c d : channel) : Z * Z * Z * Z := (c_bytes c, c_bytes d, c_ops c, c_ops d).
Definition cgroup_get_io_stats (x : Z) (s : cgroups) : option (Z * Z * Z * Z) :=
  (λ i, chan_stats (read_chan (group i s)) (write_chan (group i s))) <$> find_group x s.
Definition cgroup_get_net_stats (x : Z) (s : cgroups) : option (Z * Z * Z * Z) :=
  (λ i, chan_stats (tx_chan (group i s)) (rx_chan (group i s))) <$> find_group x s.

(** ** Rate limits

    The four checks as one, by direction. *)

Inductive direction := Read | Write | Tx | Rx.

Definition chan_of (d : direction) : cgroup → channel :=
  match d with Read => read_chan | Write => write_chan | Tx => tx_chan | Rx => rx_chan end.
Definition put_of (d : direction) : channel → cgroup → cgroup :=
  match d with Read => put_read | Write => put_write | Tx => put_tx | Rx => put_rx end.
Definition enabled_of (d : direction) (g : cgroup) : Z :=
  match d with Read | Write => io_enabled (cg_io g) | Tx | Rx => net_enabled (cg_net g) end.
Definition check (d : direction) : Z → Z → Z → cgroups → Z * cgroups :=
  match d with
  | Read => cgroup_check_io_read
  | Write => cgroup_check_io_write
  | Tx => cgroup_check_net_tx
  | Rx => cgroup_check_net_rx
  end.

(** A request of [pid] at time [ticks] for [bytes]. *)
Abbreviation request := (Z * Z * Z)%type.

(** The bytes granted to processes of group [i] by the checks of a sequence. *)
Fixpoint granted (d : direction) (i : nat) (l : list request) (s : cgroups) : Z :=
  match l with
  | [] => 0
  | (pid, ticks, bytes) :: l =>
      let '(r, s') := check d pid ticks bytes s in
      (if bool_decide (group_of pid s = Some i) && (r =? 1) then bytes else 0) + granted d i l s'
  end.

(** Times of a sequence do not go back, and end at [t2]. *)
Fixpoint in_order (t1 : Z) (l : list request) (t2 : Z) : Prop :=
  match l with
  | [] => t1 ≤ t2
  | (_, ticks, bytes) :: l => t1 ≤ ticks ∧ 0 ≤ bytes ∧ in_order ticks l t2
  end.

Section rate.
Context (d : direction).

(** What one check does to group [i], when its channel is limited. *)
Definition limited (g : cgroup) : Prop := enabled_of d g ≠ 0 ∧ 0 < bps_limit (chan_of d g) < 2 ^ 64.

Lemma refill_tokens t c :
  0 ≤ tokens c → 0 ≤ last_time c ≤ t → 0 < bps_limit c →
  0 ≤ tokens (refill t c) ≤ bps_limit c ∧
  100 * tokens (refill t c) ≤ 100 * tokens c + bps_limit c * (t - last_time c).
Proof.
  intros Hk Ht Hl. unfold refill. cbn. set (x := u64 (u64 (t - last_time c) * bps_limit c)).
  assert (0 ≤ u64 (t - last_time c) ≤ t - last_time c) as He by (unfold u64; split; [apply Z.mod_pos_bound|apply Z.mod_le]; lia).
  assert (0 ≤ x ≤ bps_limit c * (t - last_time c)) as Hx.
  { unfold x. split; [unfold u64 at 1; apply Z.mod_pos_bound; lia|].
    transitivity (u64 (t - last_time c) * bps_limit c); [apply Z.mod_le; nia|nia]. }
  assert (0 ≤ u64 (tokens c + x / 100) ≤ tokens c + x / 100) as Hu.
  { pose proof (Z.div_pos x 100). unfold u64. split; [apply Z.mod_pos_bound|apply Z.mod_le]; lia. }
  pose proof (Z.mul_div_le x 100). lia.
Qed.

Definition throttle_of (g : cgroup) : cgroup := match d with Read | Write => throttle_io g | Tx | Rx => throttle_net g end.

(** The group after a check that reached its bucket. *)
Definition bucket_step (t b : Z) (g : cgroup) : cgroup :=
  let '(ok, c) := token_bucket t b (chan_of d g) in if ok then put_of d c g else throttle_of (put_of d c g).

Lemma bucket_step_chan t b g : chan_of d (bucket_step t b g) = (token_bucket t b (chan_of d g)).2.
Proof. unfold bucket_step, throttle_of. destruct (token_bucket t b (chan_of d g)) as [[] c]; by destruct d. Qed.
Lemma bucket_step_enabled t b g : enabled_of d (bucket_step t b g) = enabled_of d g.
Proof. unfold bucket_step, throttle_of. destruct (token_bucket t b (chan_of d g)) as [[] c]; by destruct d. Qed.
Lemma bucket_step_member t b g pid : has_member pid (bucket_step t b g) = has_member pid g.
Proof. unfold bucket_step, throttle_of. destruct (token_bucket t b (chan_of d g)) as [[] c]; by destruct d. Qed.

Lemma check_cases pid t b s :
  (check d pid t b s = (1, s) ∧ ∀ i, group_of pid s = Some i → ¬ limited (group i s)) ∨
  ∃ i g, group_of pid s = Some i ∧ groups s !! i = Some g ∧
    check d pid t b s = (if (token_bucket t b (chan_of d g)).1 then 1 else 0, s <| groups ::= alter (bucket_step t b) i |>).
Proof.
  assert (check d pid t b s =
          check_traffic (chan_of d) (put_of d) (enabled_of d) throttle_of pid t b s) as -> by (by unfold throttle_of; destruct d).
  unfold check_traffic. destruct (group_of pid s) as [i|] eqn:Ei; [|left; by split].
  pose proof (findi_lookup _ _ _ Ei) as (g & Hg & _). unfold group. rewrite Hg. cbn.
  destruct ((enabled_of d g =? 0) || (bps_limit (chan_of d g) =? 0)) eqn:E.
  - left. split; [done|]. intros j [= <-]. rewrite Hg. cbn. unfold limited.
    apply orb_prop in E as [E%Z.eqb_eq|E%Z.eqb_eq]; lia.
  - right. exists i, g. split; [done|]. split; [done|].
    assert (∀ f : cgroup → cgroup, f g = bucket_step t b g → alter f i (groups s) = alter (bucket_step t b) i (groups s)) as Hf.
    { intros f Ef. by rewrite !(alter_insert_eq _ _ _ g Hg), Ef. }
    destruct (token_bucket t b (chan_of d g)) as [ok c] eqn:Eb. cbn.
    destruct ok; (unfold update; cbn; rewrite Hf; [done|]); unfold bucket_step; by rewrite Eb.
Qed.

Lemma check_group_of pid t b s q : group_of q (check d pid t b s).2 = group_of q s.
Proof.
  destruct (check_cases pid t b s) as [[-> _]|(i & g & _ & _ & ->)]; [done|]. apply findi_alter. intros x. apply bucket_step_member.
Qed.

Lemma check_other pid t b s i : group_of pid s ≠ Some i → group i (check d pid t b s).2 = group i s.
Proof.
  intros Hi. destruct (check_cases pid t b s) as [[-> _]|(j & g & Hj & _ & ->)]; [done|].
  unfold group. cbn. rewrite list_lookup_alter_ne; [done|congruence].
Qed.

Lemma check_self pid t b s i :
  group_of pid s = Some i → limited (group i s) →
  check d pid t b s = (if (token_bucket t b (chan_of d (group i s))).1 then 1 else 0, (check d pid t b s).2) ∧
  group i (check d pid t b s).2 = bucket_step t b (group i s).
Proof.
  intros Hi Hl. destruct (check_cases pid t b s) as [[_ H]|(j & g & Hj & Hg & ->)]; [by destruct (H i Hi)|].
  assert (j = i) as -> by congruence. unfold group in *. cbn. rewrite list_lookup_alter_eq, Hg. done.
Qed.
End rate.

(** The bytes granted from a time on are bounded by the bucket and what has
    dripped in since, and by a full bucket and what drips in from that time. *)
Lemma granted_bound d i l : ∀ s t1 t2,
  limited d (group i s) → 0 ≤ tokens (chan_of d (group i s)) → 0 ≤ last_time (chan_of d (group i s)) ≤ t1 → in_order t1 l t2 →
  100 * granted d i l s ≤
    100 * tokens (chan_of d (group i s)) + bps_limit (chan_of d (group i s)) * (t2 - last_time (chan_of d (group i s))) ∧
  100 * granted d i l s ≤ bps_limit (chan_of d (group i s)) * (100 + (t2 - t1)).
Proof.
  induction l as [|[[pid t] b] l IH]; intros s t1 t2 Hl Hk Ht Ho; cbn [granted].
  { cbn in Ho. destruct Hl. nia. }
  destruct Ho as (Ht1 & Hb & Ho). destruct (decide (group_of pid s = Some i)) as [Hi|Hi].
  - destruct (check_self d pid t b s i Hi Hl) as [E Hg]. rewrite E. rewrite bool_decide_eq_true_2 by done. cbn [andb].
    set (s' := (check d pid t b s).2) in *. set (c := chan_of d (group i s)) in *.
    destruct (refill_tokens t c) as [Hr Hr']; [done|lia|apply Hl|].
    assert (chan_of d (group i s') = (token_bucket t b c).2) as Hc by (rewrite Hg; apply bucket_step_chan).
    assert (bps_limit (token_bucket t b c).2 = bps_limit c ∧ last_time (token_bucket t b c).2 = t) as [Hc1 Hc2]
      by (unfold token_bucket; destruct (b <=? _); done).
    specialize (IH s' t t2). rewrite Hc, Hc1, Hc2 in IH.
    assert (tokens (token_bucket t b c).2 = tokens (refill t c) - (if (token_bucket t b c).1 then b else 0) ∧
            0 ≤ tokens (token_bucket t b c).2) as [Hk1 Hk2].
    { unfold token_bucket. destruct (Z.leb_spec b (tokens (refill t c))); cbn -[refill]; lia. }
    assert (100 * granted d i l s' ≤ 100 * tokens (token_bucket t b c).2 + bps_limit c * (t2 - t)) as IH'.
    { apply (λ A B C D, proj1 (IH A B C D)); [|done|lia|done]. unfold limited. rewrite Hc, Hc1, Hg, bucket_step_enabled. exact Hl. }
    rewrite Hk1 in IH'. destruct (token_bucket t b c).1; cbn [Z.eqb Pos.eqb]; split; nia.
  - pose proof (check_other d pid t b s i Hi) as Hg. rewrite bool_decide_eq_false_2 by done. cbn [andb].
    destruct (check d pid t b s) as [r s'] eqn:E. cbn in Hg. rewrite <- Hg in *.
    destruct (IH s' t t2) as [IH1 IH2]; [done|done|lia|done|]. split; [lia|]. destruct Hl. nia.
Qed.

(** C37. The rate limit of a group: over any sequence of checks by any processes,
    with times that do not go back, the processes of a group with a limit are
    granted at most one second's worth of bytes (100 ticks) plus what the limit
    allows for the time of the sequence, in each direction.  Wrap-around of the
    token arithmetic only takes tokens away. *)
Theorem traffic_rate_bounded d i l s t1 t2 :
  limited d (group i s) → 0 ≤ tokens (chan_of d (group i s)) → 0 ≤ last_time (chan_of d (group i s)) ≤ t1 → in_order t1 l t2 →
  100 * granted d i l s ≤ bps_limit (chan_of d (group i s)) * (100 + (t2 - t1)).
Proof. intros Hl Hk Ht Ho. exact (proj2 (granted_bound d i l s t1 t2 Hl Hk Ht Ho)). Qed.

Lemma traffic_rate_bounded_witness :
  let s := (cgroup_set_io_limit 0 1000 0 0 (cgroup_attach 0 7 cgroups_init).2).2 in
  let l := [(7, 50, 600); (7, 51, 600); (7, 60, 400); (7, 90, 300)] in
  granted Read 0 l s = 700 ∧ 100 * granted Read 0 l s ≤ 1000 * (100 + (90 - 50)).
Proof.
  intros s l. split; [vm_compute; reflexivity|]. refine (traffic_rate_bounded Read 0 l s 50 90 _ _ _ _).
  - unfold limited. split; vm_compute; [discriminate|by split].
  - vm_compute. discriminate.
  - vm_compute. split; discriminate.
  - cbn. lia.
Defined.

(** Requests of one process, one every [gap] ticks after [t]. *)
Fixpoint poll (n : nat) (pid t gap b : Z) : list request :=
  match n with O => [] | S n' => (pid, t + gap, b) :: poll n' pid (t + gap) gap b end.

(** A limit can starve its group: the refill is rounded down to whole bytes
    while the time counts as used, so a process that asks every [gap] ticks with
    [limit * gap < 100] is never granted a byte, however long it goes on; with
    a limit below 100 bytes per second, one request per tick is enough. *)
Theorem traffic_starved d i pid t gap b n s :
  limited d (group i s) → group_of pid s = Some i → tokens (chan_of d (group i s)) = 0 →
  last_time (chan_of d (group i s)) = t → 0 ≤ gap → 0 < b → bps_limit (chan_of d (group i s)) * gap < 100 →
  granted d i (poll n pid t gap b) s = 0.
Proof.
  revert s t. induction n as [|n IH]; intros s t Hl Hi Hk Ht Hg Hb Hsmall; [done|]. cbn [poll granted].
  destruct (check_self d pid (t + gap) b s i Hi Hl) as [E Hs]. rewrite E.
  set (s' := (check d pid (t + gap) b s).2) in *. set (c := chan_of d (group i s)) in *.
  pose proof (proj2 Hl) as Hpos. fold c in Hpos.
  assert (tokens (refill (t + gap) c) = 0) as Hr.
  { assert (u64 gap = gap) as Eg by (apply u64_small; nia).
    unfold refill. cbn. rewrite Hk, Ht. replace (t + gap - t) with gap by lia. rewrite Eg, (u64_small (gap * _)) by nia.
    rewrite Z.div_small by nia. unfold u64. rewrite Z.mod_0_l by done. lia. }
  assert (token_bucket (t + gap) b c = (false, refill (t + gap) c)) as Eb.
  { unfold token_bucket. rewrite Hr. by rewrite (proj2 (Z.leb_gt b 0)). }
  rewrite Eb. cbn [fst]. rewrite andb_false_r.
  assert (chan_of d (group i s') = refill (t + gap) c) as Hc by (rewrite Hs, bucket_step_chan; by fold c; rewrite Eb).
  rewrite IH; [done|..]; rewrite ?Hc; try done.
  - unfold limited. rewrite Hc, Hs, bucket_step_enabled. exact Hl.
  - unfold s'. by rewrite check_group_of.
Qed.

Lemma traffic_starved_witness :
  let s0 := (cgroup_set_io_limit 0 99 0 0 (cgroup_attach 0 7 cgroups_init).2).2 in
  let s := (cgroup_check_io_read 7 1000 99 s0).2 in
  granted Read 0 (poll 500 7 1000 1 1) s = 0.
Proof.
  intros s0 s. refine (traffic_starved Read 0 7 1000 1 1 500 s _ _ _ _ _ _ _).
  - unfold limited. split; vm_compute; [discriminate|by split].
  - vm_compute. reflexivity.
  - vm_compute. reflexivity.
  - vm_compute. reflexivity.
  - lia.
  - lia.
  - vm_compute. reflexivity.
Defined.

(** ** The table of groups *)

(** Any call of the interface. Ids are not reused before 2^31 creations. *)
Inductive cg_step : cgroups → cgroups → Prop :=
| CgCreate name parent ticks s : next_id s < 2 ^ 31 - 1 → cg_step s (cgroup_create name parent ticks s).2
| CgDelete x s : cg_step s (cgroup_delete x s).2
| CgAttach x pid s : cg_step s (cgroup_attach x pid s).2
| CgDetach x pid s : cg_step s (cgroup_detach x pid s).2
| CgSetCpu x shares quota period s : cg_step s (cgroup_set_cpu x shares quota period s).2
| CgSetMemory x limit s : cg_step s (cgroup_set_memory x limit s).2
| CgSetPids x max s : - 2 ^ 31 ≤ max < 2 ^ 31 → cg_step s (cgroup_set_pids x max s).2
| CgSetIo x r w weight s : cg_step s (cgroup_set_io_limit x r w weight s).2
| CgSetIops x r w s : cg_step s (cgroup_set_io_iops x r w s).2
| CgSetNet x t r prio s : cg_step s (cgroup_set_net_limit x t r prio s).2
| CgSetPps x t r s : cg_step s (cgroup_set_net_pps x t r s).2
| CgMemory pid delta s : cg_step s (cgroup_update_memory pid delta s)
| CgCheck d pid ticks bytes s : cg_step s (check d pid ticks bytes s).2.

Definition group_ok (g : cgroup) : Prop :=
  length (cg_procs g) = MAX_PROCS_PER_CGROUP ∧ (proc_count g ≤ MAX_PROCS_PER_CGROUP)%nat ∧ NoDup (members g) ∧
  (cg_used g = true → pids_enabled (cg_pids g) ≠ 0 ∧ pids_max (cg_pids g) < 2 ^ 31 ∧
     Z.of_nat (proc_count g) ≤ pids_current (cg_pids g) < 2 ^ 31).

Definition used_count : list cgroup → Z := tally cg_used.

Record cg_ok (s : cgroups) : Prop := CgOk {
  cg_len : length (groups s) = MAX_CGROUPS;
  cg_all : ∀ i g, groups s !! i = Some g → group_ok g;
  cg_ids : ∀ i j g h, groups s !! i = Some g → groups s !! j = Some h → cg_used g = true → cg_used h = true →
             cg_id g = cg_id h → i = j;
  cg_old : ∀ i g, groups s !! i = Some g → cg_used g = true → cg_id g < next_id s;
  cg_next : 1 ≤ next_id s < 2 ^ 31;
  cg_count : group_count s = used_count (groups s);
}.

(** Replacing a group by one with the same id, in use or not as before. *)
Lemma cg_ok_insert s i g h :
  cg_ok s → groups s !! i = Some g → group_ok h → cg_used h = cg_used g → cg_id h = cg_id g →
  cg_ok (s <| groups ::= <[i := h]> |>).
Proof.
  intros [Hlen Hall Hids Hold Hnext Hcount] Hg Hh Hu Hid. split; cbn.
  - by rewrite length_insert.
  - intros j x [(-> & <- & _)|[_ Hx]]%list_lookup_insert_Some; [done|eauto].
  - intros j k x y [(-> & <- & _)|[Hj Hx]]%list_lookup_insert_Some [(-> & <- & _)|[Hk Hy]]%list_lookup_insert_Some; [done|..];
      rewrite ?Hu, ?Hid; eauto.
  - intros j x [(-> & <- & _)|[_ Hx]]%list_lookup_insert_Some; [rewrite Hu, Hid; eauto|eauto].
  - done.
  - unfold used_count in *; rewrite (tally_insert _ _ _ _ _ Hg), Hu. lia.
Qed.

Lemma cg_ok_alter s i f :
  cg_ok s → (∀ g, groups s !! i = Some g → group_ok g → group_ok (f g) ∧ cg_used (f g) = cg_used g ∧ cg_id (f g) = cg_id g) →
  cg_ok (s <| groups ::= alter f i |>).
Proof.
  intros Hok Hf. destruct (groups s !! i) as [g|] eqn:Hg.
  - destruct (Hf g eq_refl (cg_all _ Hok _ _ Hg)) as (H1 & H2 & H3). cbn. rewrite (alter_insert_eq f i _ g Hg).
    by apply (cg_ok_insert s i g (f g)).
  - assert (alter f i (groups s) = groups s) as E.
    { apply list_eq. intros j. destruct (decide (j = i)) as [->|]; [by rewrite list_lookup_alter_eq, Hg|by rewrite list_lookup_alter_ne]. }
    destruct s. cbn in *. by rewrite E.
Qed.

(** Setting limits and counters leaves the groups well formed. *)
Lemma on_group_ok x f s :
  cg_ok s → (∀ g, group_ok g → group_ok (f g) ∧ cg_used (f g) = cg_used g ∧ cg_id (f g) = cg_id g) → cg_ok (on_group x f s).2.
Proof. intros Hok Hf. unfold on_group. destruct (find_group x s); [|done]. apply cg_ok_alter; [done|]. intros g _. apply Hf. Qed.

Lemma find_group_lookup x s i : find_group x s = Some i → ∃ g, groups s !! i = Some g ∧ group i s = g ∧ cg_used g = true ∧ cg_id g = x.
Proof.
  intros (g & Hg & [Hu Hx%Z.eqb_eq]%andb_prop)%findi_lookup. exists g. unfold group. by rewrite Hg.
Qed.

Lemma create_ok name parent ticks s : cg_ok s → next_id s < 2 ^ 31 - 1 → cg_ok (cgroup_create name parent ticks s).2.
Proof.
  intros Hok Hn. unfold cgroup_create. destruct ((0 <=? parent) && _) eqn:Ep; [done|].
  destruct (findi _ (groups s)) as [i|] eqn:Ei; [|done]. apply findi_lookup in Ei as (g & Hg & Hu%negb_true_iff).
  set (o := (λ k, group k s) <$> (if 0 <=? parent then find_group parent s else None)).
  assert (∀ p, o = Some p → group_ok p ∧ cg_used p = true) as Ho.
  { unfold o. intros p. destruct (0 <=? parent); [|done]. destruct (find_group parent s) as [k|] eqn:Ek; [|done].
    apply find_group_lookup in Ek as (q & Hq & E & Hqu & _). cbn. rewrite E. intros [= <-]. split; [|done]. by eapply cg_all. }
  set (h := new_group name o parent ticks (next_id s)). destruct Hok as [Hlen Hall Hids Hold Hnext Hcount].
  assert (group_ok h ∧ cg_used h = true ∧ cg_id h = next_id s) as (Hh & Hhu & Hhid).
  { unfold h, new_group. destruct o as [p|].
    - destruct (Ho p eq_refl) as [(_ & _ & _ & Hp) Hpu]. specialize (Hp Hpu). split; [|done]. unfold group_ok. cbn.
      split; [done|]. split; [lia|]. split; [constructor|]. intros _. lia.
    - split; [|done]. unfold group_ok. cbn. split; [done|]. split; [lia|]. split; [constructor|]. intros _. split; [done|]. by split. }
  clearbody h. pose proof (tally_bound cg_used (groups s)) as Hb. rewrite Hlen in Hb. change (Z.of_nat MAX_CGROUPS) with 16 in Hb.
  split; cbn.
  - by rewrite length_insert.
  - intros j x [(-> & <- & _)|[_ Hx]]%list_lookup_insert_Some; [done|eauto].
  - intros j k x y [(-> & <- & _)|[Hj Hx]]%list_lookup_insert_Some [(-> & <- & _)|[Hk Hy]]%list_lookup_insert_Some; [done|..]; [| |eauto].
    + intros _ Hy' E. specialize (Hold _ _ Hy Hy'). lia.
    + intros Hx' _ E. specialize (Hold _ _ Hx Hx'). lia.
  - rewrite i32_small by lia. intros j x [(-> & <- & _)|[_ Hx]]%list_lookup_insert_Some; [lia|].
    intros Hx'. specialize (Hold _ _ Hx Hx'). lia.
  - rewrite i32_small by lia. lia.
  - unfold used_count in *; rewrite (tally_insert _ _ _ _ _ Hg), Hu, Hhu, i32_small; lia.
Qed.

Lemma delete_ok x s : cg_ok s → cg_ok (cgroup_delete x s).2.
Proof.
  intros Hok. unfold cgroup_delete. destruct (find_group x s) as [i|] eqn:Ei; [|done].
  apply find_group_lookup in Ei as (g & Hg & _ & Hu & _). destruct (_ <? _)%nat; [done|].
  destruct Hok as [Hlen Hall Hids Hold Hnext Hcount]. pose proof (tally_bound cg_used (groups s)) as Hb.
  rewrite Hlen in Hb. change (Z.of_nat MAX_CGROUPS) with 16 in Hb.
  unfold used_count in *. assert (1 ≤ tally cg_used (groups s)) as Hpos.
  { pose proof (tally_insert cg_used (groups s) i g (g <| cg_used := false |>) Hg) as E. rewrite Hu in E.
    change (cg_used (g <| cg_used := false |>)) with false in E. cbv match in E.
    pose proof (tally_bound cg_used (<[i:=g <| cg_used := false |>]> (groups s))). lia. }
  split; cbn; try rewrite (alter_insert_eq _ _ _ _ Hg).
  - by rewrite length_insert.
  - intros j y [(-> & <- & _)|[_ Hx]]%list_lookup_insert_Some; [|eauto]. destruct (Hall _ _ Hg) as (H1 & H2 & H3 & _). by split_and!.
  - intros j k y z [(-> & <- & _)|[Hj Hx]]%list_lookup_insert_Some [(-> & <- & _)|[Hk Hy]]%list_lookup_insert_Some; [done|done|done|eauto].
  - intros j y [(-> & <- & _)|[_ Hx]]%list_lookup_insert_Some; [done|eauto].
  - done.
  - unfold used_count in *; rewrite (tally_insert _ _ _ _ _ Hg), Hu, i32_small by lia. cbn. lia.
Qed.

Lemma shift_down_length j n l : length (shift_down j n l) = length l.
Proof. revert j l. induction n as [|n IH]; intros j l; cbn [shift_down]; [done|]. by rewrite IH, length_insert. Qed.

(** Removing member [j] by the shift removes it from the list of members. *)
Lemma shift_down_take n : ∀ j l, (j + S n ≤ length l)%nat → take (j + n) (shift_down j n l) = delete j (take (j + S n) l).
Proof.
  induction n as [|n IH]; intros j l Hl; cbn [shift_down].
  - rewrite Nat.add_0_r, delete_take_drop, take_take, drop_ge, app_nil_r by (rewrite ?length_take; lia). f_equal. lia.
  - replace (j + S n)%nat with (S j + n)%nat by lia. rewrite IH by (rewrite length_insert; lia).
    assert (∃ x y, l !! j = Some x ∧ l !! S j = Some y) as (x & y & Hx & Hy).
    { destruct (lookup_lt_is_Some_2 l j) as [x Hx]; [lia|]. destruct (lookup_lt_is_Some_2 l (S j)) as [y Hy]; [lia|]. eauto. }
    rewrite Hy. cbn [default from_option]. replace (S j + S n)%nat with (j + S (S n))%nat by lia.
    rewrite !delete_take_drop, !take_take, !Nat.min_l by lia. rewrite (take_S_r (<[j:=_]> l) j y) by (apply list_lookup_insert_eq; lia).
    rewrite take_insert_ge by lia. rewrite (drop_S (take (j + S (S n)) l) y (S j)) by (rewrite lookup_take_lt; [done|lia]).
    rewrite <-app_assoc. cbn [app id]. do 2 f_equal.
    apply list_eq. intros k. rewrite !lookup_drop. destruct (decide (S (S j) + k < j + S (S n))%nat).
    + rewrite !lookup_take_lt, list_lookup_insert_ne by lia. done.
    + rewrite !lookup_take_ge by lia. done.
Qed.

Lemma members_add pid g : group_ok g → (proc_count g < MAX_PROCS_PER_CGROUP)%nat → members (add_member pid g) = members g ++ [pid].
Proof.
  intros (Hl & _) Hc. unfold members, add_member. cbn [proc_count cg_procs update field_set]. cbn.
  rewrite (take_S_r _ _ pid) by (apply list_lookup_insert_eq; lia). by rewrite take_insert_ge by lia.
Qed.

Lemma members_drop j g : group_ok g → (j < proc_count g)%nat → members (drop_member j g) = delete j (members g).
Proof.
  intros (Hl & Hc & _) Hj. unfold members, drop_member. cbn.
  replace (proc_count g - 1)%nat with (j + (proc_count g - 1 - j))%nat at 1 by lia.
  rewrite shift_down_take by lia. do 2 f_equal. lia.
Qed.

Lemma attach_ok x pid s : cg_ok s → cg_ok (cgroup_attach x pid s).2.
Proof.
  intros Hok. unfold cgroup_attach. destruct (find_group x s) as [i|] eqn:Ei; [|done].
  apply find_group_lookup in Ei as (g & Hg & Hgr & Hu & _). rewrite Hgr.
  destruct (negb (pids_enabled (cg_pids g) =? 0) && _) eqn:El; [done|]. destruct (member_index pid g) eqn:Em; [done|].
  destruct (Nat.leb_spec MAX_PROCS_PER_CGROUP (proc_count g)) as [|Hc]; [done|]. apply cg_ok_alter; [done|].
  intros h Hh Hgok. assert (h = g) as -> by congruence. split; [|done].
  pose proof (members_add pid g Hgok Hc) as Hm. destruct Hgok as (Hl & _ & Hnd & Hp). destruct (Hp Hu) as (Hen & Hmax & Hcur).
  apply Z.eqb_neq in Hen. rewrite Hen in El. cbn in El. apply Z.leb_gt in El.
  split; [cbn; by rewrite length_insert|]. split; [cbn; lia|]. split.
  - rewrite Hm. apply NoDup_app. split; [done|]. split; [|apply NoDup_singleton].
    intros y Hy ->%list_elem_of_singleton. apply list_elem_of_lookup_1 in Hy as [k Hk]. unfold member_index in Em.
    rewrite findi_None in Em. specialize (Em k pid Hk). lia.
  - intros _. cbn. rewrite i32_small by lia. apply Z.eqb_neq in Hen. lia.
Qed.

Lemma detach_ok x pid s : cg_ok s → cg_ok (cgroup_detach x pid s).2.
Proof.
  intros Hok. unfold cgroup_detach. destruct (find_group x s) as [i|] eqn:Ei; [|done].
  apply find_group_lookup in Ei as (g & Hg & Hgr & Hu & _). rewrite Hgr.
  destruct (member_index pid g) as [j|] eqn:Em; [|done]. apply findi_lt in Em. unfold members in Em. rewrite length_take in Em.
  apply cg_ok_alter; [done|]. intros h Hh Hgok. assert (h = g) as -> by congruence. split; [|done].
  pose proof (members_drop j g Hgok ltac:(lia)) as Hm. destruct Hgok as (Hl & Hc & Hnd & Hp). destruct (Hp Hu) as (Hen & Hmax & Hcur).
  split; [cbn; by rewrite shift_down_length|]. split; [cbn; lia|]. split.
  - rewrite Hm. eapply sublist_NoDup; [exact Hnd|]. apply sublist_delete.
  - intros _. cbn. rewrite i32_small by lia. lia.
Qed.

Lemma check_ok d pid t b s : cg_ok s → cg_ok (check d pid t b s).2.
Proof.
  intros Hok. destruct (check_cases d pid t b s) as [[-> _]|(i & g & _ & _ & ->)]; [done|]. apply cg_ok_alter; [done|].
  intros h _ Hh. unfold bucket_step, throttle_of. destruct (token_bucket t b (chan_of d h)) as [[] c]; by destruct d.
Qed.

Lemma cg_step_ok s s' : cg_ok s → cg_step s s' → cg_ok s'.
Proof.
  intros Hok Hs. destruct Hs; try (apply on_group_ok; [done|]; intros g Hg; by split).
  - by apply create_ok.
  - by apply delete_ok.
  - by apply attach_ok.
  - by apply detach_ok.
  - apply on_group_ok; [done|]. intros g (H1 & H2 & H3 & H4). split; [|done]. split; [done|]. split; [done|]. split; [done|].
    intros Hu. specialize (H4 Hu). cbn. lia.
  - unfold cgroup_update_memory. destruct (group_of pid s); [|done]. apply cg_ok_alter; [done|]. intros g _ Hg. by split.
  - by apply check_ok.
Qed.

Lemma cg_ok_init : cg_ok cgroups_init.
Proof.
  split.
  - reflexivity.
  - assert (Forall group_ok (groups cgroups_init)) as H; [|by rewrite Forall_lookup in H].
    change (groups cgroups_init) with (take 1 (groups cgroups_init) ++ replicate 15 cgroup0). apply Forall_app. split.
    + constructor; [|constructor]. split; [reflexivity|]. split; [cbn; lia|]. split; [constructor|]. intros _. by split_and!.
    + apply Forall_replicate. split; [reflexivity|]. split; [cbn; lia|]. split; [constructor|]. done.
  - assert (∀ i g, groups cgroups_init !! i = Some g → cg_used g = true → i = 0%nat) as H.
    { intros [|i] g; [done|]. change (groups cgroups_init !! S i) with (replicate 15 cgroup0 !! i).
      intros [-> _]%lookup_replicate_1. done. }
    intros i j g h Hi Hj Hg Hh _. rewrite (H _ _ Hi Hg), (H _ _ Hj Hh). done.
  - intros [|i] g; [by intros [= <-]|]. change (groups cgroups_init !! S i) with (replicate 15 cgroup0 !! i).
    intros [-> _]%lookup_replicate_1. done.
  - by vm_compute.
  - reflexivity.
Qed.

(** The table after any sequence of calls: groups in use have different ids,
    [group_count] counts them, and each has at most 32 members, all different,
    which its process counter covers; adding a process or removing one changes
    the members by exactly that process. *)
Theorem cgroups_invariant s :
  rtc cg_step cgroups_init s →
  group_count s = used_count (groups s) ∧
  (∀ i j g h, groups s !! i = Some g → groups s !! j = Some h → cg_used g = true → cg_used h = true → cg_id g = cg_id h → i = j) ∧
  (∀ i g, groups s !! i = Some g → cg_used g = true →
     NoDup (members g) ∧ (length (members g) ≤ MAX_PROCS_PER_CGROUP)%nat ∧
     Z.of_nat (length (members g)) ≤ pids_current (cg_pids g)) ∧
  (∀ i g pid, groups s !! i = Some g → cg_used g = true → pid ∉ members g →
     (cgroup_attach (cg_id g) pid s).1 = 0 →
     members (group i (cgroup_attach (cg_id g) pid s).2) = members g ++ [pid]) ∧
  (∀ i g pid, groups s !! i = Some g → cg_used g = true → pid ∈ members g →
     (cgroup_detach (cg_id g) pid s).1 = 0 ∧
     ∃ j, members g !! j = Some pid ∧ members (group i (cgroup_detach (cg_id g) pid s).2) = delete j (members g)).
Proof.
  intros Hr. assert (cg_ok s) as Hok by (eapply (rtc_invariant cg_step cg_ok); [apply cg_step_ok|apply cg_ok_init|done]).
  assert (∀ i g, groups s !! i = Some g → cg_used g = true → find_group (cg_id g) s = Some i ∧ group i s = g) as Hfind.
  { intros i g Hg Hu. destruct (findi_is_Some (has_id (cg_id g)) (groups s) i g Hg) as [k Hk].
    { unfold has_id. by rewrite Hu, Z.eqb_refl. }
    pose proof Hk as (h & Hh & _ & Hhu & Hid)%find_group_lookup. unfold group. rewrite Hg. split; [|done].
    unfold find_group. rewrite Hk. f_equal. by apply (cg_ids _ Hok k i h g). }
  split; [apply Hok|]. split; [apply Hok|]. split_and!.
  - intros i g Hg Hu. destruct (cg_all _ Hok _ _ Hg) as (Hl & Hc & Hnd & Hp). destruct (Hp Hu) as (_ & _ & Hcur).
    unfold members in *. rewrite length_take. split; [done|]. lia.
  - intros i g pid Hg Hu Hin. destruct (Hfind i g Hg Hu) as [Hf Hgr]. unfold cgroup_attach. rewrite Hf, Hgr.
    destruct (_ && _); [done|]. destruct (member_index pid g) as [k|] eqn:Em.
    { apply findi_lookup in Em as (y & Hy & ->%Z.eqb_eq). apply list_elem_of_lookup_2 in Hy. done. }
    destruct (Nat.leb_spec MAX_PROCS_PER_CGROUP (proc_count g)); [done|]. intros _. unfold group. cbn.
    rewrite list_lookup_alter_eq, Hg. cbn. apply members_add; [by eapply cg_all|done].
  - intros i g pid Hg Hu Hin. destruct (Hfind i g Hg Hu) as [Hf Hgr]. unfold cgroup_detach. rewrite Hf, Hgr.
    apply list_elem_of_lookup_1 in Hin as [k Hk]. destruct (findi_is_Some (Z.eqb pid) (members g) k pid Hk) as [j Hj]; [lia|].
    unfold member_index. rewrite Hj. split; [done|]. exists j. pose proof Hj as (y & Hy & ->%Z.eqb_eq)%findi_lookup.
    split; [done|]. unfold group. cbn. rewrite list_lookup_alter_eq, Hg. cbn. apply members_drop; [by eapply cg_all|].
    apply lookup_lt_Some in Hy. unfold members in Hy. rewrite length_take in Hy. lia.
Qed.

Lemma cgroups_invariant_witness :
  let s1 := (cgroup_create [103; 0] 0 5 cgroups_init).2 in
  let s2 := (cgroup_attach 1 8 (cgroup_attach 1 7 s1).2).2 in
  members (group 1 s2) = [7; 8] ∧ members (group 1 (cgroup_detach 1 7 s2).2) = [8].
Proof.
  intros s1 s2. split; [vm_compute; reflexivity|].
  destruct (cgroups_invariant s2) as (_ & _ & _ & _ & H).
  - eapply rtc_l; [apply (CgCreate [103; 0] 0 5); vm_compute; reflexivity|].
    eapply rtc_l; [apply (CgAttach 1 7)|]. eapply rtc_l; [apply (CgAttach 1 8)|]. apply rtc_refl.
  - destruct (H 1%nat (group 1 s2) 7) as (_ & j & Hj & E).
    + vm_compute. reflexivity.
    + vm_compute. reflexivity.
    + vm_compute. left.
    + assert (j = 0%nat) as ->; [|exact E].
      destruct j as [|[|j]]; [reflexivity|vm_compute in Hj; discriminate Hj|vm_compute in Hj; discriminate Hj].
Defined.
