(* ===== verification/Qos.v ===== *)
(** * qos.c: quality-of-service scheduling

    Tasks live in a pool and are linked into one queue per level by their
    [next] fields; pointers to tasks are indices of the pool, and a process is
    its index in the process table.  The walk of the queues in [qos_tick] has
    no bound in the code: its fuel is a parameter, and running out of it is
    [None]. *)

From S2P Require Import Prelude ProcTable.

Definition QOS_USER_INTERACTIVE : Z := 0.
Definition QOS_DEADLINE_REQUEST : Z := 1.
Definition QOS_USER_INITIATED : Z := 2.
Definition QOS_DEFAULT : Z := 3.
Definition QOS_LEVELS : nat := 6.
Definition MAX_QOS_TASKS : nat := 128.

Definition qos_timeslice (level : Z) : Z := default 0 ([2; 4; 8; 16; 32; 64] !! Z.to_nat level).
Definition qos_boost_threshold (level : Z) : Z := default 0 ([0; 50; 100; 200; 400; 800] !! Z.to_nat level).

(** ** State *)

Record qos_task := QosTask {
  q_proc : option nat;
  qos_level : Z;
  base_qos : Z;
  remaining_slice : Z;
  wait_ticks : Z;
  cpu_usage : Z;
  io_wait : Z;
  q_deadline : Z;
  boosted : bool;
  q_next : option nat;
}.
#[export] Instance qos_task_fields : Fields qos_task := λ t,
  QosTask (q_proc t) (qos_level t) (base_qos t) (remaining_slice t) (wait_ticks t) (cpu_usage t) (io_wait t)
    (q_deadline t) (boosted t) (q_next t).
Definition qtask0 : qos_task := QosTask None 0 0 0 0 0 0 0 false None.

Record qos_queue := QosQueue { q_head : option nat; q_tail : option nat; q_count : Z }.
#[export] Instance qos_queue_fields : Fields qos_queue := λ q, QosQueue (q_head q) (q_tail q) (q_count q).
Definition queue0 : qos_queue := QosQueue None None 0.

Record qos_stats := QosStats {
  total_schedules : Z; level_schedules : list Z; priority_boosts : Z; deadline_misses : Z; context_switches : Z;
}.
#[export] Instance qos_stats_fields : Fields qos_stats := λ x,
  QosStats (total_schedules x) (level_schedules x) (priority_boosts x) (deadline_misses x) (context_switches x).

Record qos_config := QosConfig { qos_enabled : Z; auto_boost : Z; deadline_aware : Z; io_boost : Z }.

Record qos := Qos {
  pool : list qos_task;
  queues : list qos_queue;
  stats : qos_stats;
  config : qos_config;
}.
#[export] Instance qos_fields : Fields qos := λ s, Qos (pool s) (queues s) (stats s) (config s).

Definition qos_init : qos :=
  Qos (replicate MAX_QOS_TASKS qtask0) (replicate QOS_LEVELS queue0) (QosStats 0 (replicate QOS_LEVELS 0) 0 0 0)
    (QosConfig 1 1 1 1).

Definition qtask (i : nat) (s : qos) : qos_task := default qtask0 (pool s !! i).
Definition set_task (i : nat) (f : qos_task → qos_task) (s : qos) : qos := s <| pool ::= alter f i |>.
Definition queue (l : Z) (s : qos) : qos_queue := default queue0 (queues s !! Z.to_nat l).

(** ** Tasks *)

Definition qos_task_alloc (s : qos) : option nat * qos :=
  match findi (λ t, bool_decide (q_proc t = None)) (pool s) with
  | Some i => (Some i, set_task i (λ _, qtask0) s)
  | None => (None, s)
  end.
Definition qos_task_free (i : nat) : qos → qos := set_task i (λ t, t <| q_proc := None |>).
Definition qos_find_task (p : nat) (s : qos) : option nat := findi (λ t, bool_decide (q_proc t = Some p)) (pool s).

Definition valid_level (l : Z) : bool := (0 <=? l) && (l <? Z.of_nat QOS_LEVELS).

Definition qos_enqueue (i : nat) (s : qos) : qos :=
  let l := if valid_level (qos_level (qtask i s)) then qos_level (qtask i s) else QOS_DEFAULT in
  let s := set_task i (λ t, t <| q_next := None |>) s in
  let s := match q_tail (queue l s) with
           | Some j => set_task j (λ t, t <| q_next := Some i |>) s
           | None => s <| queues ::= alter (λ q, q <| q_head := Some i |>) (Z.to_nat l) |>
           end in
  s <| queues ::= alter (λ q, q <| q_tail := Some i |> <| q_count ::= λ n, i32 (n + 1) |>) (Z.to_nat l) |>.

Definition qos_dequeue (l : Z) (s : qos) : option nat * qos :=
  if negb (valid_level l) then (None, s)
  else match q_head (queue l s) with
  | None => (None, s)
  | Some i =>
      let nx := q_next (qtask i s) in
      (Some i,
       set_task i (λ t, t <| q_next := None |>)
         (s <| queues ::= alter (λ q,
            let q := q <| q_head := nx |> <| q_count ::= λ n, i32 (n - 1) |> in
            if nx then q else q <| q_tail := None |>) (Z.to_nat l) |>))
  end.

(** ** Registration and levels *)

Definition qos_register (p : nat) (level : Z) (s : qos) : Z * qos :=
  if qos_enabled (config s) =? 0 then (-1, s)
  else
    let l := if valid_level level then level else QOS_DEFAULT in
    let '(o, s) := match qos_find_task p s with Some i => (Some i, s) | None => qos_task_alloc s end in
    match o with
    | None => (-1, s)
    | Some i => (0, set_task i (λ t, QosTask (Some p) l l (qos_timeslice l) 0 0 0 0 false (q_next t)) s)
    end.

Definition qos_unregister (p : nat) (s : qos) : qos :=
  match qos_find_task p s with Some i => qos_task_free i s | None => s end.

Definition qos_set_level (p : nat) (level : Z) (s : qos) : Z * qos :=
  if negb (valid_level level) then (-1, s)
  else match qos_find_task p s with
  | None => qos_register p level s
  | Some i =>
      (0, set_task i (λ t, t <| qos_level := level |> <| base_qos := level |> <| remaining_slice := qos_timeslice level |>
                             <| boosted := false |>) s)
  end.

Definition qos_get_level (p : nat) (s : qos) : Z :=
  match qos_find_task p s with Some i => qos_level (qtask i s) | None => QOS_DEFAULT end.

Definition qos_set_deadline (p : nat) (deadline : Z) (s : qos) : Z * qos :=
  match qos_find_task p s with
  | None => (-1, s)
  | Some i =>
      (0, set_task i (λ t,
            let t := t <| q_deadline := deadline |> in
            if (0 <? deadline) && (QOS_DEADLINE_REQUEST <? qos_level t) then t <| qos_level := QOS_DEADLINE_REQUEST |> else t) s)
  end.

(** ** Scheduling *)

Definition qos_check_boost (i : nat) (s : qos) : qos :=
  let t := qtask i s in
  if auto_boost (config s) =? 0 then s
  else if qos_level t <=? QOS_USER_INTERACTIVE then s
  else if qos_boost_threshold (qos_level t) <=? wait_ticks t then
    set_task i (λ t, t <| qos_level := qos_level t - 1 |> <| remaining_slice := qos_timeslice (qos_level t - 1) |>
                       <| wait_ticks := 0 |> <| boosted := true |>)
      (s <| stats ::= λ x, x <| priority_boosts ::= λ n, u64 (n + 1) |> |>)
  else s.

Definition qos_restore_priority (t : qos_task) : qos_task :=
  if boosted t && (qos_level t <? base_qos t) then
    t <| qos_level := base_qos t |> <| remaining_slice := qos_timeslice (base_qos t) |> <| boosted := false |>
  else t.

(** The levels from [l] on, [n] of them; [states] are the states of the
    processes. *)
Fixpoint schedule_from (states : nat → procstate) (l : Z) (n : nat) (s : qos) : option nat * qos :=
  match n with
  | O => (None, s)
  | S n' =>
      let '(o, s) := qos_dequeue l s in
      match o with
      | Some i =>
          match q_proc (qtask i s) with
          | Some p =>
              if bool_decide (states p = RUNNABLE) then
                let s := s <| stats ::= λ x, x <| level_schedules ::= alter (λ n, u64 (n + 1)) (Z.to_nat l) |>
                                               <| context_switches ::= λ n, u64 (n + 1) |> |> in
                (Some p, set_task i (λ t, qos_restore_priority
                           (t <| remaining_slice := qos_timeslice l |> <| wait_ticks := 0 |>)) s)
              else schedule_from states (l + 1) n' s
          | None => schedule_from states (l + 1) n' s
          end
      | None => schedule_from states (l + 1) n' s
      end
  end.
Definition qos_schedule (states : nat → procstate) (s : qos) : option nat * qos :=
  if qos_enabled (config s) =? 0 then (None, s)
  else schedule_from states 0 QOS_LEVELS (s <| stats ::= λ x, x <| total_schedules ::= λ n, u64 (n + 1) |> |>).

(** One queue of [qos_tick]: every task in it waits a tick longer. *)
Definition wait_longer (i : nat) (s : qos) : qos :=
  qos_check_boost i (set_task i (λ t, t <| wait_ticks ::= λ n, i32 (n + 1) |>) s).
Fixpoint walk_queue (fuel : nat) (o : option nat) (s : qos) : option qos :=
  match o with
  | None => Some s
  | Some i =>
      match fuel with
      | O => None
      | S fuel' => let s := wait_longer i s in walk_queue fuel' (q_next (qtask i s)) s
      end
  end.
Fixpoint walk_queues (fuel : nat) (l : Z) (n : nat) (s : qos) : option qos :=
  match n with
  | O => Some s
  | S n' => s ← walk_queue fuel (q_head (queue l s)) s; walk_queues fuel (l + 1) n' s
  end.

Definition run_tick (ticks : Z) (aware : bool) (t : qos_task) : qos_task :=
  let t := if 0 <? remaining_slice t then t <| remaining_slice := remaining_slice t - 1 |> else t in
  let t := t <| cpu_usage ::= λ n, i32 (n + 1) |> in
  if aware && (0 <? q_deadline t) && (q_deadline t <=? ticks) then t <| q_deadline := 0 |> else t.
Definition missed (ticks : Z) (aware : bool) (t : qos_task) : bool := aware && (0 <? q_deadline t) && (q_deadline t <=? ticks).

Definition qos_tick (fuel : nat) (p : nat) (ticks : Z) (s : qos) : option qos :=
  if qos_enabled (config s) =? 0 then Some s
  else match qos_find_task p s with
  | None => Some s
  | Some i =>
      let aware := negb (deadline_aware (config s) =? 0) in
      let s := if missed ticks aware (qtask i s) then s <| stats ::= λ x, x <| deadline_misses ::= λ n, u64 (n + 1) |> |> else s in
      walk_queues fuel 0 QOS_LEVELS (set_task i (run_tick ticks aware) s)
  end.

(** The loop over the levels above that of the task. *)
Definition qos_should_preempt (p : nat) (s : qos) : bool :=
  if qos_enabled (config s) =? 0 then false
  else match qos_find_task p s with
  | None => false
  | Some i =>
      let t := qtask i s in
      (remaining_slice t <=? 0) || existsb (λ l, 0 <? q_count (queue (Z.of_nat l) s)) (seq 0 (Z.to_nat (qos_level t)))
  end.

Definition qos_yield (p : nat) (s : qos) : qos :=
  match qos_find_task p s with Some i => qos_enqueue i s | None => s end.

Definition qos_io_complete (p : nat) (s : qos) : qos :=
  if io_boost (config s) =? 0 then s
  else match qos_find_task p s with
  | None => s
  | Some i =>
      if QOS_USER_INITIATED <? qos_level (qtask i s)
      then set_task i (λ t, t <| qos_level := QOS_USER_INITIATED |> <| boosted := true |>) s else s
  end.

Definition qos_get_stats (s : qos) : Z * Z * Z * Z :=
  (total_schedules (stats s), priority_boosts (stats s), deadline_misses (stats s), context_switches (stats s)).
Definition qos_configure (enabled boost aware io : Z) (s : qos) : qos := s <| config := QosConfig enabled boost aware io |>.

(** ** The queues as lists

    [seg pl o l]: the chain of [next] fields from [o] is the list [l]. *)

Fixpoint seg (pl : list qos_task) (o : option nat) (l : list nat) : Prop :=
  match l with
  | [] => o = None
  | i :: l' => o = Some i ∧ ∃ t, pl !! i = Some t ∧ seg pl (q_next t) l'
  end.

(** The queues of a state are the lists [ls], one per level; no task is in two
    places. *)
Record qos_rep (s : qos) (ls : list (list nat)) : Prop := QosRep {
  rep_pool : length (pool s) = MAX_QOS_TASKS;
  rep_levels : length ls = QOS_LEVELS;
  rep_queues : length (queues s) = QOS_LEVELS;
  rep_queue : ∀ k l q, ls !! k = Some l → queues s !! k = Some q →
                seg (pool s) (q_head q) l ∧ q_tail q = last l ∧ q_count q = Z.of_nat (length l);
  rep_nodup : ∀ k l, ls !! k = Some l → NoDup l;
  rep_disj : ∀ k k' l l' i, ls !! k = Some l → ls !! k' = Some l' → i ∈ l → i ∈ l' → k = k';
}.

Definition queued (ls : list (list nat)) (i : nat) : Prop := ∃ k l, ls !! k = Some l ∧ i ∈ l.

Definition nexts (s : qos) : list (option nat) := q_next <$> pool s.

Lemma seg_frame pl pl' o l :
  seg pl o l → (∀ i, i ∈ l → q_next <$> pl' !! i = q_next <$> pl !! i) → seg pl' o l.
Proof.
  revert o. induction l as [|i l IH]; intros o H Hf; [done|]. destruct H as (-> & t & Ht & H). split; [done|].
  pose proof (Hf i ltac:(left)) as E. rewrite Ht in E. destruct (pl' !! i) as [t'|]; [|done]. injection E as E.
  exists t'. split; [done|]. rewrite E. apply IH; [done|]. intros j Hj. apply Hf. by right.
Qed.

Lemma seg_bound pl o l i : seg pl o l → i ∈ l → (i < length pl)%nat.
Proof.
  revert o. induction l as [|j l IH]; intros o H; [by intros ?%not_elem_of_nil|]. destruct H as (_ & t & Ht & H).
  intros [->|Hi]%elem_of_cons; [by eapply lookup_lt_Some|by apply (IH _ H)].
Qed.

(** Appending a task behind the last one. *)
Lemma seg_app pl o l i j t :
  seg pl o (l ++ [j]) → NoDup (l ++ [j]) → i ∉ l ++ [j] → pl !! i = Some t → q_next t = None →
  seg (alter (λ t, t <| q_next := Some i |>) j pl) o (l ++ [j; i]).
Proof.
  intros H Hnd Hi Ht Hn. revert o H. induction l as [|k l IH]; intros o H; cbn [app] in *.
  - destruct H as (-> & tj & Htj & _). split; [done|]. exists (tj <| q_next := Some i |>).
    rewrite list_lookup_alter_eq, Htj. split; [done|]. split; [done|]. exists t. split; [|done].
    rewrite list_lookup_alter_ne; [done|]. intros ->. apply Hi. by left.
  - destruct H as (-> & tk & Htk & H). apply NoDup_cons in Hnd as [Hk Hnd]. split; [done|]. exists tk. split.
    + rewrite list_lookup_alter_ne; [done|]. intros ->. apply Hk, elem_of_app. right. by left.
    + apply IH; [done| |done]. intros Hin. apply Hi. by right.
Qed.

(** A change of a queue's task that leaves its links. *)
Lemma set_task_rep i f s ls : (∀ t, q_next (f t) = q_next t) → qos_rep s ls → qos_rep (set_task i f s) ls.
Proof.
  intros Hf [H1 H2 H3 H4 H5 H6]. split; try done; cbn; [by rewrite length_alter|].
  intros k l q Hl Hq. destruct (H4 k l q Hl Hq) as (Hs & Ht & Hc). split; [|done]. apply (seg_frame (pool s)); [done|].
  intros j _. destruct (decide (j = i)) as [->|]; [|by rewrite list_lookup_alter_ne].
  rewrite list_lookup_alter_eq. destruct (pool s !! i); [|done]. cbn. by rewrite Hf.
Qed.

(** A task that is in no queue can change at will. *)
Lemma set_task_out i f s ls : ¬ queued ls i → qos_rep s ls → qos_rep (set_task i f s) ls.
Proof.
  intros Hi [H1 H2 H3 H4 H5 H6]. split; try done; cbn; [by rewrite length_alter|].
  intros k l q Hl Hq. destruct (H4 k l q Hl Hq) as (Hs & Ht & Hc). split; [|done]. apply (seg_frame (pool s)); [done|].
  intros j Hj. rewrite list_lookup_alter_ne; [done|]. intros ->. apply Hi. by exists k, l.
Qed.

Lemma rep_length s ls k l : qos_rep s ls → ls !! k = Some l → (length l ≤ MAX_QOS_TASKS)%nat.
Proof.
  intros Hr Hl. destruct (lookup_lt_is_Some_2 (queues s) k) as [q Hq].
  { rewrite (rep_queues _ _ Hr), <-(rep_levels _ _ Hr). by eapply lookup_lt_Some. }
  destruct (rep_queue _ _ Hr k l q Hl Hq) as (Hs & _). rewrite <-(length_seq MAX_QOS_TASKS 0).
  apply submseteq_length, NoDup_submseteq; [by eapply rep_nodup|]. intros i Hi. apply elem_of_seq. split; [lia|].
  rewrite <-(rep_pool _ _ Hr). by eapply seg_bound.
Qed.

Lemma lookup_alter_cases {A} (f : A → A) i j (l : list A) x :
  alter f i l !! j = Some x → (j = i ∧ ∃ y, l !! i = Some y ∧ x = f y) ∨ (j ≠ i ∧ l !! j = Some x).
Proof.
  destruct (decide (j = i)) as [->|]; [|rewrite list_lookup_alter_ne by done; by right].
  rewrite list_lookup_alter_eq. destruct (l !! i) as [y|]; [|done]. intros [= <-]. left. eauto.
Qed.

Lemma enqueue_rep i k s ls :
  qos_rep s ls → ¬ queued ls i → (i < MAX_QOS_TASKS)%nat → qos_level (qtask i s) = Z.of_nat k → (k < QOS_LEVELS)%nat →
  qos_rep (qos_enqueue i s) (alter (λ l, l ++ [i]) k ls).
Proof.
  intros Hr0 Hi Hlt Hlev Hk. unfold qos_enqueue. rewrite Hlev. unfold valid_level.
  rewrite (proj2 (Z.leb_le _ _)), (proj2 (Z.ltb_lt _ _)) by lia. cbn [andb]. unfold queue. rewrite !Nat2Z.id.
  pose proof (set_task_out i (λ t, t <| q_next := None |>) s ls Hi Hr0) as Hr. set (s1 := set_task i _ s) in *.
  assert (∃ t, pool s1 !! i = Some t ∧ q_next t = None) as (t & Ht & Hn).
  { destruct (lookup_lt_is_Some_2 (pool s) i) as [t Ht]; [rewrite (rep_pool _ _ Hr0); lia|]. exists (t <| q_next := None |>).
    unfold s1. cbn. by rewrite list_lookup_alter_eq, Ht. }
  destruct (lookup_lt_is_Some_2 (queues s1) k) as [q Hq]; [rewrite (rep_queues _ _ Hr); lia|].
  destruct (lookup_lt_is_Some_2 ls k) as [l Hl]; [rewrite (rep_levels _ _ Hr); lia|]. rewrite Hq. cbn [default from_option id].
  pose proof (rep_length _ _ _ _ Hr Hl) as Hlen. destruct Hr as [H1 H2 H3 H4 H5 H6].
  destruct (H4 k l q Hl Hq) as (Hs & Htl & Hc). clearbody s1. clear Hr0 Hlev s.
  assert (NoDup (l ++ [i])) as Hnd.
  { apply NoDup_app. split; [by eapply H5|]. split; [|apply NoDup_singleton]. intros j Hj ->%list_elem_of_singleton.
    apply Hi. by exists k, l. }
  assert (∀ k' l', alter (λ l, l ++ [i]) k ls !! k' = Some l' → NoDup l') as H5'.
  { intros k' l' [(-> & y & Hy & ->)|[? Hy]]%lookup_alter_cases; [by simplify_eq|by eapply H5]. }
  assert (∀ k1 k2 l1 l2 j, alter (λ l, l ++ [i]) k ls !! k1 = Some l1 → alter (λ l, l ++ [i]) k ls !! k2 = Some l2 →
            j ∈ l1 → j ∈ l2 → k1 = k2) as H6'.
  { intros k1 k2 l1 l2 j [(-> & y & Hy & ->)|[? Hy]]%lookup_alter_cases [(-> & z & Hz & ->)|[? Hz]]%lookup_alter_cases; [done|..|by eapply H6].
    - intros [Hj| ->%list_elem_of_singleton]%elem_of_app Hj'; [by eapply (H6 k k2)|]. destruct Hi. by exists k2, l2.
    - intros Hj' [Hj| ->%list_elem_of_singleton]%elem_of_app; [by eapply (H6 k1 k)|]. destruct Hi. by exists k1, l1. }
  destruct (q_tail q) as [j|] eqn:Ej.
  - assert (∃ l', l = l' ++ [j]) as [l' ->].
    { symmetry in Htl. apply last_Some in Htl as [l' ->]. by exists l'. }
    split; cbn; [by rewrite length_alter|by rewrite length_alter|by rewrite length_alter| |done|done].
    intros k' x qx [(-> & y & Hy & ->)|[Hne Hy]]%lookup_alter_cases [(E & z & Hz & ->)|[Hne' Hz]]%lookup_alter_cases; try done.
    + simplify_eq. cbn. split; [|split].
      * rewrite <-app_assoc. apply (seg_app _ _ _ _ _ t); [done|by eapply H5| |done|done].
        intros Hin. apply Hi. by exists k, (l' ++ [j]).
      * by rewrite last_snoc.
      * rewrite Hc, (length_app _ [i]). change (length [i]) with 1%nat. unfold MAX_QOS_TASKS in *. rewrite i32_small; lia.
    + destruct (H4 k' x qx Hy Hz) as (Hs' & Ht' & Hc'). split; [|done]. apply (seg_frame (pool s1)); [done|].
      intros m Hm. rewrite list_lookup_alter_ne; [done|]. intros <-. apply Hne. eapply (H6 k' k); [exact Hy|exact Hl|exact Hm|].
      apply elem_of_app. right. by left.
  - assert (l = []) as -> by (symmetry in Htl; by apply last_None in Htl).
    split; cbn; [done|by rewrite length_alter|by rewrite !length_alter| |done|done].
    intros k' x qx [(-> & y & Hy & ->)|[Hne Hy]]%lookup_alter_cases [(E & z & Hz & ->)|[Hne' Hz]]%lookup_alter_cases; try done.
    + rewrite list_lookup_alter_eq, Hq in Hz. simplify_eq. injection Hz as <-. cbn. rewrite Hc.
      split; [|done]. split; [done|]. exists t. by rewrite Ht.
    + rewrite list_lookup_alter_ne in Hz by done. by apply (H4 k').
Qed.

Lemma dequeue_rep i r k s ls :
  qos_rep s ls → ls !! k = Some (i :: r) →
  ∃ s', qos_dequeue (Z.of_nat k) s = (Some i, s') ∧ qos_rep s' (alter tail k ls).
Proof.
  intros Hr Hl. pose proof (lookup_lt_Some _ _ _ Hl) as Hk. rewrite (rep_levels _ _ Hr) in Hk.
  pose proof (rep_length _ _ _ _ Hr Hl) as Hlen. destruct (lookup_lt_is_Some_2 (queues s) k) as [q Hq]; [rewrite (rep_queues _ _ Hr); lia|].
  destruct Hr as [H1 H2 H3 H4 H5 H6]. destruct (H4 _ _ _ Hl Hq) as ((Hh & t & Ht & Hs) & Htl & Hc).
  unfold qos_dequeue, valid_level. rewrite (proj2 (Z.leb_le _ _)), (proj2 (Z.ltb_lt _ _)) by lia. cbn [andb negb].
  unfold queue, qtask. rewrite Nat2Z.id, Hq. cbn [default from_option id]. rewrite Hh, Ht. cbn [default from_option id].
  eexists. split; [done|]. pose proof (H5 _ _ Hl) as [Hir Hnd]%NoDup_cons.
  assert (∀ k' l', alter tail k ls !! k' = Some l' → ∃ l, ls !! k' = Some l ∧ l' `sublist_of` l) as Hsub.
  { intros k' l' [(-> & y & Hy & ->)|[? Hy]]%lookup_alter_cases; [|eauto]. exists y. split; [done|].
    destruct y; [done|]. by apply sublist_cons. }
  split; cbn; [by rewrite length_alter|by rewrite length_alter|by rewrite length_alter|..].
  - assert (∀ x o, i ∉ x → seg (pool s) o x → seg (alter (λ t, t <| q_next := None |>) i (pool s)) o x) as Hfr.
    { intros x o Hx Hsx. apply (seg_frame (pool s)); [done|]. intros m Hm. rewrite list_lookup_alter_ne; [done|]. by intros ->. }
    intros k' x qx [(-> & y & Hy & ->)|[Hne Hy]]%lookup_alter_cases [(E & z & Hz & ->)|[Hne' Hz]]%lookup_alter_cases; try done.
    + simplify_eq. cbn [tail]. destruct r as [|j r].
      * cbn in Hs. rewrite Hs. cbn. split; [done|]. split; [done|]. by rewrite Hc.
      * destruct Hs as (Hj & Hs). rewrite Hj. cbn -[seg last length]. split; [|split].
        -- rewrite <-Hj. apply Hfr; [done|]. rewrite Hj. by split.
        -- by rewrite Htl.
        -- rewrite Hc. cbn [length] in *. unfold MAX_QOS_TASKS in *. rewrite i32_small; lia.
    + destruct (H4 k' x qx Hy Hz) as (Hs' & Ht' & Hc'). split; [|done]. apply Hfr; [|done]. intros Hin. apply Hne.
      eapply (H6 k' k); [exact Hy|exact Hl|exact Hin|by left].
  - intros k' l' (l & Hl' & Hsb)%Hsub. eapply sublist_NoDup; [by eapply H5|done].
  - intros k1 k2 l1 l2 j (x1 & Hx1 & Hb1)%Hsub (x2 & Hx2 & Hb2)%Hsub Hj1 Hj2.
    apply (H6 k1 k2 x1 x2 j); [done|done|by apply (elem_of_sublist l1)|by apply (elem_of_sublist l2)].
Qed.

(** qos_enqueue and qos_dequeue implement a queue per level: a task that is
    in no queue is appended at the level it has, dequeue takes the first task
    of the level, and the other levels are as they were. *)
Theorem qos_queues_refine s ls :
  qos_rep s ls →
  (∀ i k, ¬ queued ls i → (i < MAX_QOS_TASKS)%nat → qos_level (qtask i s) = Z.of_nat k → (k < QOS_LEVELS)%nat →
     qos_rep (qos_enqueue i s) (alter (λ l, l ++ [i]) k ls)) ∧
  (∀ k l, ls !! k = Some l →
     match l with
     | [] => qos_dequeue (Z.of_nat k) s = (None, s)
     | i :: r => ∃ s', qos_dequeue (Z.of_nat k) s = (Some i, s') ∧ qos_rep s' (alter tail k ls)
     end).
Proof.
  intros Hr. split.
  - intros i k Hi Hlt Hlev Hk. by apply enqueue_rep.
  - intros k [|i r] Hl; [|by eapply dequeue_rep]. pose proof (lookup_lt_Some _ _ _ Hl) as Hk.
    rewrite (rep_levels _ _ Hr) in Hk. destruct (lookup_lt_is_Some_2 (queues s) k) as [q Hq]; [rewrite (rep_queues _ _ Hr); lia|].
    destruct (rep_queue _ _ Hr _ _ _ Hl Hq) as (Hh & _). cbn in Hh. unfold qos_dequeue, valid_level.
    rewrite (proj2 (Z.leb_le _ _)), (proj2 (Z.ltb_lt _ _)) by lia. cbn [andb negb]. unfold queue.
    rewrite Nat2Z.id, Hq. cbn [default from_option id]. by rewrite Hh.
Qed.

(** ** The walk of the queues *)

Lemma set_task_nexts i f s : (∀ t, q_next (f t) = q_next t) → nexts (set_task i f s) = nexts s.
Proof.
  intros Hf. unfold nexts. cbn. apply list_eq. intros j. rewrite !list_lookup_fmap.
  destruct (decide (j = i)) as [->|]; [|by rewrite list_lookup_alter_ne].
  rewrite list_lookup_alter_eq. destruct (pool s !! i); cbn; [by rewrite Hf|done].
Qed.

Lemma wait_longer_keeps i s : nexts (wait_longer i s) = nexts s ∧ queues (wait_longer i s) = queues s.
Proof.
  unfold wait_longer, qos_check_boost. set (s1 := set_task i _ s).
  assert (nexts s1 = nexts s ∧ queues s1 = queues s) as [<- <-] by (split; [by apply set_task_nexts|done]).
  destruct (_ =? 0); [done|]. destruct (_ <=? _); [done|]. destruct (_ <=? _); [|done].
  split; [|done]. rewrite set_task_nexts by done. done.
Qed.

Lemma next_of i s o : nexts s !! i = Some o → q_next (qtask i s) = o.
Proof. unfold nexts, qtask. rewrite list_lookup_fmap. destruct (pool s !! i); [|done]. by intros [= <-]. Qed.

Lemma walk_queue_keeps fuel o s s' : walk_queue fuel o s = Some s' → nexts s' = nexts s ∧ queues s' = queues s.
Proof.
  revert o s. induction fuel as [|fuel IH]; intros [i|] s; cbn [walk_queue]; try done; [by intros [= <-]| |by intros [= <-]].
  intros H. destruct (wait_longer_keeps i s) as [<- <-]. by apply IH in H.
Qed.

(** A chain that ends is walked to its end. *)
Lemma walk_seg l : ∀ fuel o s, (∃ pl, q_next <$> pl = nexts s ∧ seg pl o l) → (length l ≤ fuel)%nat →
  ∃ s', walk_queue fuel o s = Some s'.
Proof.
  induction l as [|i l IH]; intros fuel o s (pl & Hn & Hs) Hf.
  - cbn in Hs. subst o. exists s. by destruct fuel.
  - destruct Hs as (-> & t & Ht & Hs). destruct fuel as [|fuel]; [cbn in Hf; lia|]. cbn [walk_queue].
    destruct (wait_longer_keeps i s) as [Hk _]. rewrite (next_of i _ (q_next t)).
    + apply IH; [|cbn in Hf; lia]. exists pl. by rewrite Hk.
    + by rewrite Hk, <-Hn, list_lookup_fmap, Ht.
Qed.

(** A set of tasks that the links do not leave is walked for ever. *)
Lemma walk_closed (R : nat → Prop) fuel : ∀ i s,
  (∀ j, R j → ∃ k, nexts s !! j = Some (Some k) ∧ R k) → R i → walk_queue fuel (Some i) s = None.
Proof.
  induction fuel as [|fuel IH]; intros i s HR Hi; [done|]. cbn [walk_queue].
  destruct (wait_longer_keeps i s) as [Hk _]. destruct (HR i Hi) as (k & Hik & Hk').
  rewrite (next_of i _ (Some k)) by (by rewrite Hk). apply IH; [|done]. by rewrite Hk.
Qed.

Lemma walk_queues_total fuel n : ∀ l s, (∀ k, (k < n)%nat → ∃ x pl, q_next <$> pl = nexts s ∧
    seg pl (q_head (queue (l + Z.of_nat k) s)) x ∧ (length x ≤ fuel)%nat) → ∃ s', walk_queues fuel l n s = Some s'.
Proof.
  induction n as [|n IH]; intros l s H; cbn [walk_queues]; [eauto|].
  destruct (H 0%nat ltac:(lia)) as (x & pl & Hp & Hs & Hf). rewrite Z.add_0_r in Hs.
  destruct (walk_seg x fuel (q_head (queue l s)) s) as [s' E]; [eauto|done|]. rewrite E. cbn.
  destruct (walk_queue_keeps _ _ _ _ E) as [Hn Hq]. apply IH. intros k Hk. destruct (H (S k) ltac:(lia)) as (y & pl' & Hp' & Hs' & Hf').
  exists y, pl'. unfold queue in *. rewrite Hn, Hq. replace (l + 1 + Z.of_nat k) with (l + Z.of_nat (S k)) by lia. done.
Qed.

Lemma walk_queues_hang fuel k n : ∀ l s, (k < n)%nat →
  (∀ s', nexts s' = nexts s → queues s' = queues s → walk_queue fuel (q_head (queue (l + Z.of_nat k) s')) s' = None) →
  walk_queues fuel l n s = None.
Proof.
  revert k. induction n as [|n IH]; intros k l s Hk H; [lia|]. cbn [walk_queues].
  destruct k as [|k]; [rewrite Z.add_0_r in H; by rewrite H|].
  destruct (walk_queue fuel (q_head (queue l s)) s) as [s'|] eqn:E; [|done]. cbn.
  destruct (walk_queue_keeps _ _ _ _ E) as [Hn Hq]. apply (IH k); [lia|]. intros s'' Hn' Hq'.
  replace (l + 1 + Z.of_nat k) with (l + Z.of_nat (S k)) by lia. apply H; congruence.
Qed.

Lemma run_tick_next ticks aware t : q_next (run_tick ticks aware t) = q_next t.
Proof. unfold run_tick. destruct (0 <? remaining_slice t); repeat case_match; done. Qed.

(** qos_tick terminates: when the queues are lists without a task twice, its
    walk ends within as many steps as the pool has tasks. *)
Theorem qos_tick_terminates s ls p ticks : qos_rep s ls → ∃ s', qos_tick MAX_QOS_TASKS p ticks s = Some s'.
Proof.
  intros Hr. unfold qos_tick. destruct (_ =? 0); [eauto|]. destruct (qos_find_task p s) as [i|]; [|eauto].
  set (s1 := if missed _ _ _ then _ else s).
  assert (nexts s1 = nexts s ∧ queues s1 = queues s) as [Hn Hq] by (unfold s1; destruct (missed _ _ _); split; reflexivity).
  apply walk_queues_total. intros k Hk. rewrite Z.add_0_l.
  destruct (lookup_lt_is_Some_2 ls k) as [l Hl]; [rewrite (rep_levels _ _ Hr); lia|].
  destruct (lookup_lt_is_Some_2 (queues s) k) as [q Hq']; [rewrite (rep_queues _ _ Hr); lia|].
  destruct (rep_queue _ _ Hr _ _ _ Hl Hq') as (Hs & _). exists l, (pool s). split; [|split].
  - rewrite set_task_nexts; [done|]. intros t. apply run_tick_next.
  - unfold queue. cbn. rewrite Hq, Nat2Z.id, Hq'. exact Hs.
  - by eapply rep_length.
Qed.

Lemma seg_next pl o l i j : seg pl o (l ++ [i]) → j ∈ l → ∃ k, q_next <$> pl !! j = Some (Some k) ∧ k ∈ l ++ [i].
Proof.
  revert o. induction l as [|x l IH]; intros o H; [by intros ?%not_elem_of_nil|]. destruct H as (_ & t & Ht & H).
  intros [->|Hj]%elem_of_cons.
  - rewrite Ht. destruct l as [|y l]; destruct H as [Hn _]; eexists; cbn; rewrite Hn; (split; [done|]); set_solver.
  - destruct (IH _ H Hj) as (k & Hk & Hin). exists k. split; [done|]. by right.
Qed.

Lemma seg_head pl o l i : seg pl o (l ++ [i]) → ∃ h, o = Some h ∧ h ∈ l ++ [i].
Proof. destruct l as [|x l]; cbn; intros [-> _]; eexists; (split; [done|]); set_solver. Qed.

(** A process that yields twice without having been scheduled in between
    hangs the kernel: qos_enqueue does not see that its task is the last of the
    queue already and links the task to itself, and no number of steps brings
    the walk of the next qos_tick to an end. *)
Theorem qos_double_yield_hangs s ls p i k l ticks fuel :
  qos_rep s ls → qos_enabled (config s) ≠ 0 → qos_find_task p s = Some i →
  qos_level (qtask i s) = Z.of_nat k → (k < QOS_LEVELS)%nat → ls !! k = Some (l ++ [i]) →
  qos_tick fuel p ticks (qos_yield p s) = None.
Proof.
  intros Hr Hen Hf Hlev Hk Hl. destruct (lookup_lt_is_Some_2 (queues s) k) as [q Hq]; [rewrite (rep_queues _ _ Hr); lia|].
  destruct (rep_queue _ _ Hr _ _ _ Hl Hq) as (Hs & Htl & _). rewrite last_snoc in Htl.
  pose proof (rep_nodup _ _ Hr _ _ Hl) as (_ & Hil & _)%NoDup_app.
  assert (∃ t, pool s !! i = Some t) as [t Ht].
  { apply lookup_lt_is_Some_2. eapply seg_bound; [exact Hs|]. set_solver. }
  set (s' := qos_yield p s).
  assert (queues s' !! k = Some (q <| q_tail := Some i |> <| q_count ::= λ n, i32 (n + 1) |>) ∧ config s' = config s ∧
          pool s' = alter (λ t, t <| q_next := Some i |>) i (alter (λ t, t <| q_next := None |>) i (pool s))) as (Hq' & Hc & Hp).
  { unfold s', qos_yield. rewrite Hf. unfold qos_enqueue. rewrite Hlev. unfold valid_level.
    rewrite (proj2 (Z.leb_le _ _)), (proj2 (Z.ltb_lt _ _)) by lia. cbn [andb]. unfold queue. cbn [queues set_task update field_set].
    cbn. rewrite Nat2Z.id, Hq. cbn. rewrite Htl. cbn. by rewrite list_lookup_alter_eq, Hq. }
  assert (nexts s' !! i = Some (Some i) ∧ ∀ j, j ≠ i → nexts s' !! j = nexts s !! j) as [Hself Hoth].
  { unfold nexts. rewrite Hp. split.
    - by rewrite list_lookup_fmap, !list_lookup_alter_eq, Ht.
    - intros j Hj. by rewrite !list_lookup_fmap, !list_lookup_alter_ne. }
  assert (∀ j, j ∈ l ++ [i] → ∃ x, nexts s' !! j = Some (Some x) ∧ x ∈ l ++ [i]) as HR.
  { intros j [Hj| ->%list_elem_of_singleton]%elem_of_app; [|exists i; split; [done|set_solver]].
    rewrite Hoth by (intros ->; by apply (Hil i Hj), list_elem_of_singleton).
    unfold nexts. rewrite list_lookup_fmap. by eapply seg_next. }
  assert (qos_find_task p s' = Some i) as Hf'.
  { unfold qos_find_task. rewrite Hp, !findi_alter by done. exact Hf. }
  clearbody s'. unfold qos_tick. rewrite Hc, Hf'. apply Z.eqb_neq in Hen. rewrite Hen.
  apply (walk_queues_hang _ k); [done|]. intros s2 Hn2 Hq2. rewrite Z.add_0_l.
  assert (nexts s2 = nexts s' ∧ queues s2 = queues s') as [Hn3 Hq3].
  { rewrite Hn2, Hq2, set_task_nexts.
    - destruct (missed _ _ _); split; reflexivity.
    - intros x. apply run_tick_next. }
  unfold queue. rewrite Hq3, Nat2Z.id, Hq'. cbn. destruct (seg_head _ _ _ _ Hs) as (h & -> & Hh).
  apply (walk_closed (λ j, j ∈ l ++ [i])); [|done]. by rewrite Hn3.
Qed.

(** ** Runs *)

Definition qos_ex : qos := (qos_register 9 1 (qos_register 8 1 qos_init).2).2.
Definition ls_ex : list (list nat) := replicate QOS_LEVELS [].

Lemma qos_ex_rep : qos_rep qos_ex ls_ex.
Proof.
  split; [reflexivity..| | |].
  - intros k l q Hl Hq. apply lookup_replicate_1 in Hl as [-> _]. change (queues qos_ex) with (replicate QOS_LEVELS queue0) in Hq.
    apply lookup_replicate_1 in Hq as [-> _]. done.
  - intros k l Hl. apply lookup_replicate_1 in Hl as [-> _]. constructor.
  - intros k k' l l' i Hl. apply lookup_replicate_1 in Hl as [-> _]. by intros _ ?%not_elem_of_nil.
Qed.

Lemma ls_ex_free i : ¬ queued ls_ex i.
Proof. intros (k & l & Hl & Hi). apply lookup_replicate_1 in Hl as [-> _]. by apply not_elem_of_nil in Hi. Qed.

Lemma qos_queues_refine_witness :
  ∃ s', qos_dequeue 1 (qos_yield 8 qos_ex) = (Some 0%nat, s') ∧ qos_rep s' (replicate QOS_LEVELS []).
Proof.
  destruct (qos_queues_refine qos_ex ls_ex qos_ex_rep) as [He _].
  specialize (He 0%nat 1%nat (ls_ex_free 0) (proj1 (Nat.ltb_lt 0 128) eq_refl) eq_refl (proj1 (Nat.ltb_lt 1 6) eq_refl)).
  destruct (qos_queues_refine _ _ He) as [_ Hd]. exact (Hd 1%nat [0%nat] eq_refl).
Defined.

Lemma qos_tick_terminates_witness : ∃ s', qos_tick MAX_QOS_TASKS 8 5 qos_ex = Some s'.
Proof. exact (qos_tick_terminates qos_ex ls_ex 8 5 qos_ex_rep). Defined.

Lemma qos_double_yield_hangs_witness : qos_tick 1000 8 5 (qos_yield 8 (qos_yield 8 qos_ex)) = None.
Proof.
  refine (qos_double_yield_hangs (qos_yield 8 qos_ex) (alter (λ l, l ++ [0%nat]) 1%nat ls_ex) 8 0 1 [] 5 1000 _ _ _ _ _ _).
  - refine (enqueue_rep 0 1 qos_ex ls_ex qos_ex_rep (ls_ex_free 0) _ eq_refl _); apply Nat.ltb_lt; reflexivity.
  - discriminate.
  - reflexivity.
  - reflexivity.
  - apply Nat.ltb_lt. reflexivity.
  - reflexivity.
Defined.
