(* ===== verification/Binder.v ===== *)
(** * binder.c: services and transactions between processes

    Each call runs under [binder.lock] and is a function of the tables; [me] is
    the pid of the calling process.  Data passed by pointer is the list of
    bytes at it, [None] for a null pointer. *)

From S2P Require Import Prelude CString ProcTable.

Definition BINDER_MAX_SERVICES : nat := 32.
Definition BINDER_MAX_TRANSACTIONS : nat := 64.
Definition BINDER_MAX_DATA : nat := 1024.
Definition BINDER_SERVICE_NAME_LEN : nat := 32.
Definition BINDER_CALL : Z := 1.

Inductive trans_status := TRANS_FREE | TRANS_PENDING | TRANS_PROCESSING | TRANS_COMPLETED.
#[export] Instance trans_status_eq_dec : EqDecision trans_status.
Proof. solve_decision. Defined.

Record binder_service := Service {
  svc_used : bool;
  svc_name : list Z;
  owner_pid : Z;
  handle : Z;
  svc_ptr : Z;
  ref_count : Z;
  allow_isolated : Z;
}.
#[export] Instance binder_service_fields : Fields binder_service := λ v,
  Service (svc_used v) (svc_name v) (owner_pid v) (handle v) (svc_ptr v) (ref_count v) (allow_isolated v).

Record binder_transaction := Transaction {
  t_used : bool;
  t_id : Z;
  t_type : Z;
  from_pid : Z;
  to_pid : Z;
  target_handle : Z;
  code : Z;
  t_data : list Z;
  data_size : Z;
  status : trans_status;
  reply_data : Z;
  reply_size : Z;
}.
#[export] Instance binder_transaction_fields : Fields binder_transaction := λ t,
  Transaction (t_used t) (t_id t) (t_type t) (from_pid t) (to_pid t) (target_handle t) (code t) (t_data t) (data_size t)
    (status t) (reply_data t) (reply_size t).

Record binder_proc := BProc { bp_pid : Z; bp_ready : Z; pending_transaction : Z }.
#[export] Instance binder_proc_fields : Fields binder_proc := λ p, BProc (bp_pid p) (bp_ready p) (pending_transaction p).

Record binder := Binder {
  services : list binder_service;
  service_count : Z;
  next_handle : Z;
  transactions : list binder_transaction;
  next_trans_id : Z;
  bprocs : list binder_proc;
  total_transactions : Z;
  total_calls : Z;
  total_replies : Z;
}.
#[export] Instance binder_fields : Fields binder := λ b,
  Binder (services b) (service_count b) (next_handle b) (transactions b) (next_trans_id b) (bprocs b)
    (total_transactions b) (total_calls b) (total_replies b).

Definition service0 : binder_service := Service false (replicate BINDER_SERVICE_NAME_LEN 0) 0 0 0 0 0.
Definition transaction0 : binder_transaction :=
  Transaction false 0 0 0 0 0 0 (replicate BINDER_MAX_DATA 0) 0 TRANS_FREE 0 0.

Definition binder_init : binder :=
  Binder (replicate BINDER_MAX_SERVICES service0) 0 1 (replicate BINDER_MAX_TRANSACTIONS transaction0) 1
    (replicate NPROC (BProc 0 0 0)) 0 0 0.

(** ** Services *)

Definition has_name (name : list Z) (v : binder_service) : bool :=
  svc_used v && (strncmp_field BINDER_SERVICE_NAME_LEN (svc_name v) name =? 0).
Definition has_handle (h : Z) (v : binder_service) : bool := svc_used v && (handle v =? h).

Definition binder_register_service (me : Z) (name : list Z) (ptr : Z) (b : binder) : Z * binder :=
  if findi (has_name name) (services b) then (-1, b)
  else match findi (λ v, negb (svc_used v)) (services b) with
  | None => (-1, b)
  | Some i =>
      (next_handle b,
       b <| services ::= alter (λ v, Service true (strncpy_field BINDER_SERVICE_NAME_LEN (svc_name v) name) me
                                       (next_handle b) ptr 1 0) i |>
         <| next_handle ::= λ n, i32 (n + 1) |> <| service_count ::= λ n, i32 (n + 1) |>)
  end.

Definition binder_lookup_service (name : list Z) (b : binder) : Z * binder :=
  match findi (has_name name) (services b) with
  | Some i =>
      (handle (default service0 (services b !! i)),
       b <| services ::= alter (λ v, v <| ref_count ::= λ n, i32 (n + 1) |>) i |>)
  | None => (-1, b)
  end.

Definition binder_release_service (h : Z) (b : binder) : Z * binder :=
  match findi (has_handle h) (services b) with
  | Some i =>
      let r := i32 (ref_count (default service0 (services b !! i)) - 1) in
      let b := b <| services ::= alter (λ v, v <| ref_count := r |>) i |> in
      (0, if r <=? 0 then b <| services ::= alter (λ v, v <| svc_used := false |>) i |>
                            <| service_count ::= λ n, i32 (n - 1) |>
          else b)
  | None => (-1, b)
  end.

(** ** Transactions *)

Definition alloc_transaction (b : binder) : option nat * binder :=
  match findi (λ t, negb (t_used t)) (transactions b) with
  | Some i =>
      (Some i, b <| transactions ::= alter (λ t, t <| t_used := true |> <| t_id := next_trans_id b |>) i |>
                 <| next_trans_id ::= λ n, i32 (n + 1) |>)
  | None => (None, b)
  end.

(** [memmove] of [n] bytes to the start of an array. *)
Definition put_bytes (n : nat) (src dst : list Z) : list Z := ((λ k, default 0 (src !! k)) <$> seq 0 n) ++ drop n dst.

Definition fill_call (me to h cd : Z) (data : option (list Z)) (size reply rsize : Z) (t : binder_transaction) : binder_transaction :=
  let t := t <| t_type := BINDER_CALL |> <| from_pid := me |> <| to_pid := to |> <| target_handle := h |> <| code := cd |>
             <| data_size := size |> <| reply_data := reply |> <| reply_size := rsize |> <| status := TRANS_PENDING |> in
  match data with
  | Some d => if 0 <? size then t <| t_data ::= put_bytes (Z.to_nat size) d |> else t
  | None => t
  end.

Definition notify (owner id : Z) (ps : list binder_proc) : list binder_proc :=
  match findi (λ p, bp_pid p =? owner) ps with
  | Some i => alter (λ p, p <| pending_transaction := id |>) i ps
  | None => ps
  end.

Definition binder_call (me h cd : Z) (data : option (list Z)) (size reply rsize : Z) (b : binder) : Z * binder :=
  if Z.of_nat BINDER_MAX_DATA <? size then (-1, b)
  else match findi (has_handle h) (services b) with
  | None => (-1, b)
  | Some k =>
      let owner := owner_pid (default service0 (services b !! k)) in
      let id := next_trans_id b in
      let '(o, b) := alloc_transaction b in
      match o with
      | None => (-1, b)
      | Some i =>
          (id, b <| transactions ::= alter (fill_call me owner h cd data size reply rsize) i |>
                 <| total_transactions ::= λ n, u64 (n + 1) |> <| total_calls ::= λ n, u64 (n + 1) |>
                 <| bprocs ::= notify owner id |>)
      end
  end.

Definition has_trans (x : Z) (t : binder_transaction) : bool := t_used t && (t_id t =? x).

Definition fill_reply (data : option (list Z)) (size : Z) (t : binder_transaction) : binder_transaction :=
  let t := match data with
           | Some d =>
               if (0 <? size) && negb (reply_data t =? 0) then t <| t_data ::= put_bytes (Z.to_nat size) d |> <| data_size := size |>
               else t
           | None => t
           end in
  t <| status := TRANS_COMPLETED |>.

Definition binder_reply (x : Z) (data : option (list Z)) (size : Z) (b : binder) : Z * binder :=
  if Z.of_nat BINDER_MAX_DATA <? size then (-1, b)
  else match findi (has_trans x) (transactions b) with
  | None => (-1, b)
  | Some i =>
      if bool_decide (status (default transaction0 (transactions b !! i)) = TRANS_PROCESSING) then
        (0, b <| transactions ::= alter (fill_reply data size) i |> <| total_replies ::= λ n, u64 (n + 1) |>)
      else (-1, b)
  end.

Definition waits_for (me : Z) (t : binder_transaction) : bool :=
  t_used t && (to_pid t =? me) && bool_decide (status t = TRANS_PENDING).

(** What is stored through the pointers of the caller: id, code, data, size. *)
Definition binder_receive (me : Z) (b : binder) : option (Z * Z * list Z * Z) * binder :=
  match findi (waits_for me) (transactions b) with
  | Some i =>
      let t := default transaction0 (transactions b !! i) in
      (Some (t_id t, code t, if 0 <? data_size t then take (Z.to_nat (data_size t)) (t_data t) else [], data_size t),
       b <| transactions ::= alter (λ t, t <| status := TRANS_PROCESSING |>) i |>)
  | None => (None, b)
  end.

(** ** Finding a service by its name *)

(** A registered name is found: after a registration that succeeds, a lookup
    of the same name returns its handle, and the handle leads to the owner. *)
Theorem binder_register_lookup me name ptr b h b' :
  Forall (λ c, 0 ≤ c < 256) name → binder_register_service me name ptr b = (h, b') → h ≠ -1 →
  (binder_lookup_service name b').1 = h ∧
  ∃ i v, services b' !! i = Some v ∧ svc_used v = true ∧ handle v = h ∧ owner_pid v = me ∧ ref_count v = 1.
Proof.
  intros Hb E Hh. unfold binder_register_service in E. destruct (findi (has_name name) (services b)) eqn:En; [by simplify_eq|].
  destruct (findi _ (services b)) as [i|] eqn:Ei in E; [|by simplify_eq]. injection E as <- <-.
  apply findi_lookup in Ei as (v & Hv & Hu).
  set (f := λ v, Service true (strncpy_field BINDER_SERVICE_NAME_LEN (svc_name v) name) me (next_handle b) ptr 1 0).
  assert (alter f i (services b) !! i = Some (f v)) as Hf by (by rewrite list_lookup_alter_eq, Hv).
  split.
  - unfold binder_lookup_service. cbn. fold f.
    assert (findi (has_name name) (alter f i (services b)) = Some i) as ->.
    { apply findi_Some. split.
      - exists (f v). split; [done|]. unfold has_name, f. cbn [svc_used svc_name andb].
        rewrite strncpy_strncmp; [done|by apply Nat.ltb_lt|done].
      - intros j x Hj Hx. rewrite list_lookup_alter_ne in Hx by lia. rewrite findi_None in En. by apply (En j). }
    by rewrite Hf.
  - exists i, (f v). split; [exact Hf|done].
Qed.

Lemma binder_register_lookup_witness :
  (binder_lookup_service [99; 97; 109; 0] (binder_register_service 5 [99; 97; 109; 0] 4096 binder_init).2).1 = 1.
Proof.
  refine (proj1 (binder_register_lookup 5 [99; 97; 109; 0] 4096 binder_init 1 _ _ _ _)).
  - repeat constructor; lia.
  - reflexivity.
  - discriminate.
Defined.

(** ** The life of transactions *)

Inductive binder_step : binder → binder → Prop :=
| BRegister me name ptr b : binder_step b (binder_register_service me name ptr b).2
| BLookup name b : binder_step b (binder_lookup_service name b).2
| BRelease h b : binder_step b (binder_release_service h b).2
| BCall me h cd data size reply rsize b : binder_step b (binder_call me h cd data size reply rsize b).2
| BReply x data size b : binder_step b (binder_reply x data size b).2
| BReceive me b : binder_step b (binder_receive me b).2.

Definition completed (t : binder_transaction) : bool := bool_decide (status t = TRANS_COMPLETED).

Record binder_ok (b : binder) : Prop := BinderOk {
  bk_len : length (transactions b) = BINDER_MAX_TRANSACTIONS;
  bk_free : ∀ i t, transactions b !! i = Some t → t_used t = false → status t = TRANS_FREE;
  bk_ids : ∀ i j t u, transactions b !! i = Some t → transactions b !! j = Some u → t_used t = true → t_used u = true →
             t_id t = t_id u → i = j;
  bk_calls : total_calls b = tally t_used (transactions b);
  bk_next : next_trans_id b = 1 + total_calls b;
  bk_old : ∀ i t, transactions b !! i = Some t → t_used t = true → t_id t < next_trans_id b;
  bk_replies : total_replies b = tally completed (transactions b);
}.

Lemma calls_bound b : binder_ok b → 0 ≤ total_calls b ≤ 64 ∧ 0 ≤ total_replies b ≤ 64.
Proof.
  intros Hok. pose proof (tally_bound t_used (transactions b)). pose proof (tally_bound completed (transactions b)).
  rewrite (bk_calls _ Hok), (bk_replies _ Hok). rewrite (bk_len _ Hok) in *. unfold BINDER_MAX_TRANSACTIONS in *. lia.
Qed.

(** Replacing a transaction by one that stays in use with its id. *)
Lemma binder_ok_alter b i t f n :
  binder_ok b → transactions b !! i = Some t → t_used t = true → t_used (f t) = true → t_id (f t) = t_id t →
  n = total_replies b - (if completed t then 1 else 0) + (if completed (f t) then 1 else 0) →
  binder_ok (b <| transactions ::= alter f i |> <| total_replies := n |>).
Proof.
  intros [H1 H2 H3 H4 H5 H6 H7] Ht Hu Hu' Hid ->. pose proof (alter_insert_eq f i _ t Ht) as E.
  split; cbn; rewrite ?E.
  - by rewrite length_insert.
  - intros j x [(-> & <- & _)|[_ Hx]]%list_lookup_insert_Some; [congruence|eauto].
  - intros j k x y [(-> & <- & _)|[Hj Hx]]%list_lookup_insert_Some [(-> & <- & _)|[Hk Hy]]%list_lookup_insert_Some;
      [done|..]; rewrite ?Hid; eauto.
  - rewrite (tally_insert _ _ _ _ _ Ht), Hu, Hu'. lia.
  - done.
  - intros j x [(-> & <- & _)|[_ Hx]]%list_lookup_insert_Some; [rewrite Hid|]; eauto.
  - rewrite (tally_insert _ _ _ _ _ Ht). lia.
Qed.

Lemma binder_ok_ext b b' :
  binder_ok b → transactions b' = transactions b → total_calls b' = total_calls b → next_trans_id b' = next_trans_id b →
  total_replies b' = total_replies b → binder_ok b'.
Proof. intros [H1 H2 H3 H4 H5 H6 H7] E1 E2 E3 E4. split; rewrite ?E1, ?E2, ?E3, ?E4; done. Qed.

Lemma fill_call_fields me to h cd data size reply rsize t :
  t_used (fill_call me to h cd data size reply rsize t) = t_used t ∧
  t_id (fill_call me to h cd data size reply rsize t) = t_id t ∧
  status (fill_call me to h cd data size reply rsize t) = TRANS_PENDING.
Proof. unfold fill_call. destruct data; [destruct (0 <? size)|]; done. Qed.

Lemma call_ok me h cd data size reply rsize b : binder_ok b → binder_ok (binder_call me h cd data size reply rsize b).2.
Proof.
  intros Hok. unfold binder_call. destruct (_ <? size); [done|]. destruct (findi (has_handle h) (services b)) as [k|]; [|done].
  unfold alloc_transaction. destruct (findi _ (transactions b)) as [i|] eqn:Ei; [|done].
  apply findi_lookup in Ei as (t & Ht & Hu%negb_true_iff). cbn [snd].
  pose proof (calls_bound b Hok) as Hb. destruct Hok as [H1 H2 H3 H4 H5 H6 H7].
  set (to := owner_pid _). set (g := fill_call me to h cd data size reply rsize).
  set (u := g (t <| t_used := true |> <| t_id := next_trans_id b |>)).
  assert (alter g i (alter (λ t, t <| t_used := true |> <| t_id := next_trans_id b |>) i (transactions b)) =
          <[i := u]> (transactions b)) as E.
  { rewrite (alter_insert_eq _ i (transactions b) t Ht), (alter_insert_eq g i _ (t <| t_used := true |> <| t_id := next_trans_id b |>)).
    - by rewrite list_insert_insert_eq.
    - apply list_lookup_insert_eq. by eapply lookup_lt_Some. }
  destruct (fill_call_fields me to h cd data size reply rsize (t <| t_used := true |> <| t_id := next_trans_id b |>)) as (Hfu & Hfi & Hfs).
  fold g in Hfu, Hfi, Hfs. fold u in Hfu, Hfi, Hfs. cbn in Hfu, Hfi.
  assert (completed t = false ∧ completed u = false) as [Hct Hcu].
  { unfold completed. by rewrite Hfs, (H2 i t Ht Hu). }
  match goal with |- binder_ok ?x => set (b' := x) end.
  assert (transactions b' = <[i := u]> (transactions b) ∧ total_calls b' = u64 (total_calls b + 1) ∧
          next_trans_id b' = i32 (next_trans_id b + 1) ∧ total_replies b' = total_replies b) as (E1 & E2 & E3 & E4).
  { rewrite <-E. by split_and!. }
  clearbody b'. split; rewrite ?E1, ?E2, ?E3, ?E4.
  - by rewrite length_insert.
  - intros j x [(-> & <- & _)|[_ Hx]]%list_lookup_insert_Some; [congruence|eauto].
  - intros j k' x y [(-> & <- & _)|[Hj Hx]]%list_lookup_insert_Some [(-> & <- & _)|[Hk Hy]]%list_lookup_insert_Some; [done|..|eauto].
    + intros _ Hy'. specialize (H6 _ _ Hy Hy'). rewrite Hfi. lia.
    + intros Hx' _. specialize (H6 _ _ Hx Hx'). rewrite Hfi. lia.
  - rewrite (tally_insert _ _ _ _ _ Ht), Hu, Hfu, u64_small; lia.
  - rewrite i32_small, u64_small; lia.
  - rewrite i32_small by lia. intros j x [(-> & <- & _)|[_ Hx]]%list_lookup_insert_Some; [lia|].
    intros Hx'. specialize (H6 _ _ Hx Hx'). lia.
  - rewrite (tally_insert _ _ _ _ _ Ht), Hct, Hcu. lia.
Qed.

Lemma binder_step_ok b b' : binder_ok b → binder_step b b' → binder_ok b'.
Proof.
  intros Hok Hs. destruct Hs as [me name ptr b|name b|h b|me h cd data size reply rsize b|x data size b|me b].
  - unfold binder_register_service. destruct (findi (has_name name) _); [done|]. destruct (findi _ _); [|done].
    by apply (binder_ok_ext b).
  - unfold binder_lookup_service. destruct (findi _ _); [|done]. by apply (binder_ok_ext b).
  - unfold binder_release_service. destruct (findi _ _); [|done]. cbn [snd]. destruct (_ <=? 0); by apply (binder_ok_ext b).
  - by apply call_ok.
  - unfold binder_reply. destruct (_ <? size); [done|]. destruct (findi (has_trans x) _) as [i|] eqn:Ei; [|done].
    apply findi_lookup in Ei as (t & Ht & [Hu _]%andb_prop). rewrite Ht. cbn [default from_option id].
    case_bool_decide as Hst; [|done]. pose proof (calls_bound b Hok) as Hb.
    apply (binder_ok_ext (b <| transactions ::= alter (fill_reply data size) i |> <| total_replies := total_replies b + 1 |>)); [|done..|].
    + apply (binder_ok_alter b i t); [done..| | |].
      * unfold fill_reply. destruct data; [destruct (_ && _)|]; done.
      * unfold fill_reply. destruct data; [destruct (_ && _)|]; done.
      * unfold completed. rewrite Hst. rewrite bool_decide_eq_false_2, bool_decide_eq_true_2 by done. lia.
    + cbn. rewrite u64_small; lia.
  - unfold binder_receive. destruct (findi (waits_for me) _) as [i|] eqn:Ei; [|done].
    apply findi_lookup in Ei as (t & Ht & [[Hu _]%andb_prop Hst%bool_decide_eq_true]%andb_prop). cbn [snd].
    apply (binder_ok_ext (b <| transactions ::= alter (λ t, t <| status := TRANS_PROCESSING |>) i |>
                            <| total_replies := total_replies b |>)); [|done..].
    apply (binder_ok_alter b i t); [done..|]. unfold completed. rewrite Hst.
    rewrite !bool_decide_eq_false_2 by done. lia.
Qed.

Lemma binder_reach b : rtc binder_step binder_init b → binder_ok b.
Proof.
  intros Hr. eapply (rtc_invariant binder_step binder_ok); [apply binder_step_ok| |exact Hr]. split; try reflexivity.
  - intros i t Ht. apply lookup_replicate_1 in Ht as [-> _]. done.
  - intros i j t u Ht _. apply lookup_replicate_1 in Ht as [-> _]. done.
  - intros i t Ht. apply lookup_replicate_1 in Ht as [-> _]. done.
Qed.

(** Transactions are never freed: in every run the calls that succeed are
    the transactions in use and the replies those completed; so at most 64
    calls succeed in the life of the kernel, and after that every call fails. *)
Theorem binder_calls_bounded b :
  rtc binder_step binder_init b →
  total_calls b = tally t_used (transactions b) ∧ 0 ≤ total_replies b ≤ total_calls b ∧ total_calls b ≤ 64 ∧
  (total_calls b = 64 → ∀ me h cd data size reply rsize, binder_call me h cd data size reply rsize b = (-1, b)).
Proof.
  intros Hr. pose proof (binder_reach b Hr) as Hok.
  pose proof (calls_bound b Hok) as Hb. split; [apply Hok|]. split; [|split; [lia|]].
  - split; [lia|]. rewrite (bk_calls _ Hok), (bk_replies _ Hok). pose proof (bk_free _ Hok) as Hf.
    induction (transactions b) as [|t l IH]; cbn; [lia|].
    assert ((if completed t then 1 else 0) ≤ (if t_used t then 1 else 0)).
    { destruct (t_used t) eqn:Eu; [by destruct (completed t)|]. unfold completed. by rewrite (Hf 0%nat t eq_refl Eu). }
    assert (tally completed l ≤ tally t_used l) by (apply IH; intros i u Hu; by apply (Hf (S i))). lia.
  - intros Hfull me h cd data size reply rsize. unfold binder_call. destruct (_ <? size); [done|].
    destruct (findi (has_handle h) (services b)); [|done]. unfold alloc_transaction.
    destruct (findi _ (transactions b)) as [i|] eqn:Ei; [|done]. exfalso.
    apply findi_lookup in Ei as (t & Ht & Hu%negb_true_iff).
    pose proof (tally_insert t_used _ i t (t <| t_used := true |>) Ht) as E. rewrite Hu in E.
    change (t_used (t <| t_used := true |>)) with true in E. cbv match in E.
    pose proof (tally_bound t_used (<[i := t <| t_used := true |>]> (transactions b))) as Hb2.
    rewrite length_insert, (bk_len _ Hok) in Hb2. rewrite <-(bk_calls _ Hok) in E. unfold BINDER_MAX_TRANSACTIONS in Hb2. lia.
Qed.

Lemma put_bytes_take n src dst : (n ≤ length src)%nat → take n (put_bytes n src dst) = take n src.
Proof.
  intros Hn. unfold put_bytes. rewrite take_app_le by (rewrite length_fmap, length_seq; lia).
  rewrite take_ge by (rewrite length_fmap, length_seq; lia). apply list_eq. intros i. rewrite list_lookup_fmap.
  destruct (decide (i < n)%nat).
  - rewrite lookup_seq_lt, lookup_take_lt by done. cbn. destruct (lookup_lt_is_Some_2 src i) as [x Hx]; [lia|]. by rewrite Hx.
  - rewrite lookup_seq_ge, lookup_take_ge by lia. done.
Qed.

(** A call that succeeds leaves a pending transaction with its data. *)
Lemma call_pending me h cd d size reply rsize b tid b' k v :
  binder_call me h cd (Some d) size reply rsize b = (tid, b') → tid ≠ -1 → 0 < size ≤ Z.of_nat (length d) →
  findi (has_handle h) (services b) = Some k → services b !! k = Some v →
  ∃ i t, transactions b' = <[i := t]> (transactions b) ∧ (i < length (transactions b))%nat ∧
    t_used t = true ∧ t_id t = tid ∧ code t = cd ∧ to_pid t = owner_pid v ∧ status t = TRANS_PENDING ∧
    data_size t = size ∧ take (Z.to_nat size) (t_data t) = take (Z.to_nat size) d.
Proof.
  intros E Hid Hsz Hk Hv. unfold binder_call in E. destruct (_ <? size); [by simplify_eq|]. rewrite Hk, Hv in E.
  cbn [default from_option id] in E. unfold alloc_transaction in E.
  destruct (findi _ (transactions b)) as [i|] eqn:Ei; [|by simplify_eq]. injection E as <- <-.
  apply findi_lookup in Ei as (t & Ht & _). exists i.
  set (f := fill_call _ _ _ _ _ _ _ _). set (t1 := t <| t_used := true |> <| t_id := next_trans_id b |>).
  exists (f t1). pose proof (lookup_lt_Some _ _ _ Ht) as Hi. split.
  { change (alter f i (alter (λ t, t <| t_used := true |> <| t_id := next_trans_id b |>) i (transactions b)) =
            <[i := f t1]> (transactions b)).
    rewrite (alter_insert_eq _ i (transactions b) t Ht), (alter_insert_eq f i _ t1) by (by apply list_lookup_insert_eq).
    by rewrite list_insert_insert_eq. }
  split; [done|]. unfold f, fill_call. rewrite (proj2 (Z.ltb_lt 0 size)) by lia. split_and!; try done.
  cbn -[put_bytes]. apply put_bytes_take. lia.
Qed.

(** Call, receive and reply go together: when the owner of a service has
    nothing pending, a call delivers its code and bytes to the owner's next
    receive under the id returned to the caller; that transaction then accepts
    one reply, and no second one. *)
Theorem binder_roundtrip b me h cd d size reply rsize tid b' k v rd rs :
  rtc binder_step binder_init b → findi (has_handle h) (services b) = Some k → services b !! k = Some v →
  findi (waits_for (owner_pid v)) (transactions b) = None →
  binder_call me h cd (Some d) size reply rsize b = (tid, b') → tid ≠ -1 → 0 < size ≤ Z.of_nat (length d) → rs ≤ 1024 →
  ∃ b1 b2, binder_receive (owner_pid v) b' = (Some (tid, cd, take (Z.to_nat size) d, size), b1) ∧
    binder_reply tid rd rs b1 = (0, b2) ∧ (binder_reply tid rd rs b2).1 = -1 ∧ (binder_reply tid rd rs b').1 = -1.
Proof.
  intros Hr Hk Hv Hnone E Hid Hsz Hrs. pose proof (binder_reach b Hr) as Hok.
  assert (binder_ok b') as Hok'.
  { pose proof (call_ok me h cd (Some d) size reply rsize b Hok) as H. by rewrite E in H. }
  destruct (call_pending _ _ _ _ _ _ _ _ _ _ _ _ E Hid Hsz Hk Hv) as (i & t & Et & Hi & Hu & Hti & Hcd & Hto & Hst & Hds & Hdat).
  assert (transactions b' !! i = Some t) as Ht by (rewrite Et; by apply list_lookup_insert_eq).
  assert (findi (waits_for (owner_pid v)) (transactions b') = Some i) as Hw.
  { apply findi_Some. split.
    - exists t. split; [done|]. unfold waits_for. by rewrite Hu, Hto, Z.eqb_refl, Hst.
    - intros j x Hj. rewrite Et, list_lookup_insert_ne by lia. rewrite findi_None in Hnone. apply Hnone. }
  assert (∀ ts u, ts !! i = Some u → t_used u = true → t_id u = tid →
            (∀ j x, j ≠ i → ts !! j = Some x → ∃ y, transactions b' !! j = Some y ∧ t_used y = t_used x ∧ t_id y = t_id x) →
            findi (has_trans tid) ts = Some i) as Hfind.
  { intros ts u Hu0 Hused Huid Hoth. apply findi_Some. split.
    - exists u. split; [done|]. unfold has_trans. by rewrite Hused, Huid, Z.eqb_refl.
    - intros j x Hj Hx. destruct (Hoth j x ltac:(lia) Hx) as (y & Hy & Ey1 & Ey2). unfold has_trans.
      destruct (t_used x) eqn:Exu; [|done]. cbn. apply Z.eqb_neq. intros Exid.
      assert (j = i) as -> by (apply (bk_ids _ Hok' j i y t Hy Ht); congruence). lia. }
  set (g := λ t, t <| status := TRANS_PROCESSING |>). set (b1 := b' <| transactions ::= alter g i |>).
  assert (transactions b1 = <[i := g t]> (transactions b')) as E1 by (by apply alter_insert_eq).
  assert (findi (has_trans tid) (transactions b1) = Some i) as Hf1.
  { rewrite E1. apply (Hfind _ (g t)); [apply list_lookup_insert_eq; by eapply lookup_lt_Some|done|done|].
    intros j x Hj. rewrite list_lookup_insert_ne by done. eauto. }
  set (b2 := b1 <| transactions ::= alter (fill_reply rd rs) i |> <| total_replies ::= λ n, u64 (n + 1) |>).
  assert (transactions b2 = <[i := fill_reply rd rs (g t)]> (transactions b')) as E2.
  { change (alter (fill_reply rd rs) i (transactions b1) = <[i := fill_reply rd rs (g t)]> (transactions b')).
    rewrite E1, (alter_insert_eq _ i _ (g t)) by (apply list_lookup_insert_eq; by eapply lookup_lt_Some).
    by rewrite list_insert_insert_eq. }
  assert (t_used (fill_reply rd rs (g t)) = true ∧ t_id (fill_reply rd rs (g t)) = tid ∧
          status (fill_reply rd rs (g t)) = TRANS_COMPLETED) as (Hu2 & Hi2 & Hs2).
  { unfold fill_reply. destruct rd; [destruct (_ && _)|]; by split_and!. }
  assert (findi (has_trans tid) (transactions b2) = Some i) as Hf2.
  { rewrite E2. apply (Hfind _ (fill_reply rd rs (g t))); [apply list_lookup_insert_eq; by eapply lookup_lt_Some|done|done|].
    intros j x Hj. rewrite list_lookup_insert_ne by done. eauto. }
  assert (transactions b1 !! i = Some (g t) ∧ transactions b2 !! i = Some (fill_reply rd rs (g t))) as [Hl1 Hl2].
  { rewrite E1, E2. split; apply list_lookup_insert_eq; by eapply lookup_lt_Some. }
  exists b1, b2. unfold binder_receive, binder_reply. rewrite Hw, Ht. cbn [default from_option id].
  rewrite Hcd, Hti, Hds, (proj2 (Z.ltb_lt 0 size)), Hdat by lia. rewrite (proj2 (Z.ltb_ge (Z.of_nat BINDER_MAX_DATA) rs)) by (change (Z.of_nat BINDER_MAX_DATA) with 1024; lia).
  rewrite Hf1, Hl1, Hf2, Hl2, (Hfind _ t Ht Hu Hti) by eauto. rewrite Ht. cbn [default from_option id]. rewrite Hs2, Hst.
  split; [done|]. split; [by rewrite bool_decide_eq_true_2|]. done.
Qed.

Definition binder_ex : binder := (binder_register_service 5 [99; 0] 4096 binder_init).2.

Lemma binder_ex_reach : rtc binder_step binder_init binder_ex.
Proof. eapply rtc_l; [apply (BRegister 5 [99; 0] 4096)|]. apply rtc_refl. Qed.

Lemma binder_roundtrip_witness :
  ∃ b1 b2, binder_receive 5 (binder_call 9 1 7 (Some [1; 2; 3]) 2 0 0 binder_ex).2 = (Some (1, 7, [1; 2], 2), b1) ∧
    binder_reply 1 None 0 b1 = (0, b2) ∧ (binder_reply 1 None 0 b2).1 = -1.
Proof.
  destruct (binder_roundtrip binder_ex 9 1 7 [1; 2; 3] 2 0 0 1 (binder_call 9 1 7 (Some [1; 2; 3]) 2 0 0 binder_ex).2 0
              (default service0 (services binder_ex !! 0%nat)) None 0) as (b1 & b2 & H1 & H2 & H3 & _).
  - exact binder_ex_reach.
  - vm_compute. reflexivity.
  - vm_compute. reflexivity.
  - vm_compute. reflexivity.
  - vm_compute. reflexivity.
  - discriminate.
  - cbn. lia.
  - lia.
  - exists b1, b2. split; [exact H1|]. split; [exact H2|exact H3].
Defined.

Lemma binder_calls_bounded_witness :
  let b := (binder_call 9 1 7 None 0 0 0 binder_ex).2 in total_calls b = 1 ∧ total_calls b ≤ 64.
Proof.
  intros b. split; [vm_compute; reflexivity|]. apply (binder_calls_bounded b).
  eapply rtc_r; [exact binder_ex_reach|]. apply BCall.
Defined.
