(* ===== verification/MsgQueue.v ===== *)
(** * messagequeue.c: message queues

    Eight queues, each with one page that holds its messages.  A message is a
    [struct msg] in that page, at the byte address the code computes: [next] at
    offset 0, [type] at 8, [dataaddr] at 16 and [datasize] at 24, 32 bytes in
    all, read and written byte by byte in physical memory ([Memory]).  The variable
    [proc] of the file is the process table, so [proc->mqmask] is the mask of
    its first entry and [proc] as a sleep channel is one and the same address
    for every thread: the blocked queues are kept as their length, and
    [wakeups] counts the calls of [wakeup] on that channel.

    Argument [type] and the bytes [data] are those behind the pointer [msg] of
    the system calls.  The chain of messages is followed with fuel; a chain that
    is longer, or cyclic, leaves the thread in the loop ([Blocks]). *)

From stdpp Require Import gmap.
From S2P Require Import Prelude Bytes PageAlloc Kalloc Memory.

Definition MQMAX : nat := 8.

Record mq := Mq {
  mq_key : Z;
  mq_status : Z;
  mq_msgs : Z;
  mq_maxbytes : Z;
  mq_curbytes : Z;
  mq_refcount : Z;
}.
#[export] Instance mq_fields : Fields mq := λ q,
  Mq (mq_key q) (mq_status q) (mq_msgs q) (mq_maxbytes q) (mq_curbytes q) (mq_refcount q).

Record mqstate := MqState {
  mqs : list mq;
  mqmask : Z;                           (* proc[0].mqmask *)
  wstart : Z;
  rstart : Z;
  wakeups : Z;
  mq_mem : kstate;
}.
#[export] Instance mqstate_fields : Fields mqstate := λ s,
  MqState (mqs s) (mqmask s) (wstart s) (rstart s) (wakeups s) (mq_mem s).

(** The fields of a [struct msg] at address [m]. *)
Definition msg_next (m : Z) (k : kstate) : Z := mem_ld 8 m k.
Definition i64 (z : Z) : Z := (z + 2 ^ 63) mod 2 ^ 64 - 2 ^ 63.
Definition msg_type (m : Z) (k : kstate) : Z := i64 (mem_ld 8 (m + 8) k).
Definition msg_dataaddr (m : Z) (k : kstate) : Z := mem_ld 8 (m + 16) k.
Definition msg_datasize (m : Z) (k : kstate) : Z := i32 (mem_ld 4 (m + 24) k).

Definition set_next (m v : Z) : kstate → kstate := mem_st 8 m v.
Definition set_type (m v : Z) : kstate → kstate := mem_st 8 (m + 8) v.
Definition set_dataaddr (m v : Z) : kstate → kstate := mem_st 8 (m + 16) v.
Definition set_datasize (m v : Z) : kstate → kstate := mem_st 4 (m + 24) v.

Definition on_mem {A} (m : ST kstate A) : ST mqstate A := λ s,
  match m (mq_mem s) with
  | Ret (a, k) => Ret (a, s <| mq_mem := k |>)
  | Panic msg => Panic msg
  | Blocks => Blocks
  end.
Definition upd_mem (f : kstate → kstate) : ST mqstate () := modify (λ s, s <| mq_mem ::= f |>).
Definition upd_mq (i : nat) (f : mq → mq) : ST mqstate () := modify (λ s, s <| mqs ::= alter f i |>).
Definition mq0 : mq := Mq 0 0 0 0 0 0.
Definition get_mq (i : nat) : ST mqstate mq := gets (λ s, default mq0 (mqs s !! i)).

Definition bit (mask : Z) (i : nat) : bool := negb (Z.land (Z.shiftr mask (Z.of_nat i)) 1 =? 0).

Section code.
Context (kend : Z) (fuel : nat).

Definition findkey (key : Z) (s : mqstate) : option nat :=
  findi (λ q, negb (mq_status q =? 0) && (mq_key q =? key)) (mqs s).

Definition mqinit : ST mqstate () := modify (λ s, s <| mqs ::= fmap (λ q, q <| mq_status := 0 |>) |>).

(** -1 is [None]. *)
Definition newmq (key : Z) : ST mqstate (option nat) :=
  s ← get;
  match findi (λ q, mq_status q =? 0) (mqs s) with
  | None => mret None
  | Some idx =>
      r ← on_mem kalloc;
      _ ← upd_mq idx (λ q, q <| mq_msgs := default 0 r |>);
      match r with
      | None => mret None
      | Some pa =>
          _ ← upd_mq idx (λ q, q <| mq_key := key |> <| mq_status := 1 |>);
          _ ← on_mem (fill pa 0);
          _ ← upd_mem (set_next pa 0);
          _ ← upd_mem (set_datasize pa 0);
          _ ← upd_mq idx (λ q, q <| mq_maxbytes := PGSIZE |> <| mq_curbytes := 16 |> <| mq_refcount := 1 |>);
          _ ← modify (λ s, s <| mqmask ::= λ m, Z.lor m (u32 (Z.shiftl 1 (Z.of_nat idx))) |>);
          mret (Some idx)
      end
  end.

Definition addmqcount (mask : Z) : ST mqstate () :=
  for_loop 0 MQMAX (λ key,
    if bit mask key then upd_mq key (λ q, q <| mq_refcount ::= λ r, i32 (r + 1) |>) else mret ()).

Definition sys_mqget (key : Z) : ST mqstate (option nat) :=
  let key := i32 key in
  s ← get;
  match findkey key s with
  | Some idx =>
      _ ← (if negb (bit (mqmask s) idx) then
             _ ← modify (λ s, s <| mqmask ::= λ m, Z.lor m (u32 (Z.shiftl 1 (Z.of_nat idx))) |>);
             upd_mq idx (λ q, q <| mq_refcount ::= λ r, i32 (r + 1) |>)
           else mret ());
      mret (Some idx)
  | None => newmq key
  end.

(** The loop of [reloc] from message [m], moved to [pages]; [pre] is the last
    message moved. *)
Fixpoint reloc_loop (n : nat) (pages pre m : Z) : ST kstate Z :=
  if m =? 0 then mret pre
  else match n with
  | O => blocks
  | S n' =>
      k ← get;
      let t := msg_next m k in
      _ ← modify (mem_move pages m (msg_datasize m k + 16));
      k ← get;
      let next := u64 (pages + msg_datasize pages k + 16) in
      _ ← modify (set_next pages next);
      _ ← modify (set_dataaddr pages (pages + 16));
      k ← get;
      reloc_loop n' (msg_next pages k) pages t
  end.

Definition reloc (mqid : nat) : ST mqstate () :=
  q ← get_mq mqid;
  pre ← on_mem (reloc_loop fuel (mq_msgs q) (mq_msgs q) (mq_msgs q));
  upd_mem (set_next pre 0).

(** The last message of the chain from [m]. *)
Fixpoint last_msg (n : nat) (m : Z) (k : kstate) : option Z :=
  if msg_next m k =? 0 then Some m
  else match n with
  | O => None
  | S n' => last_msg n' (msg_next m k) k
  end.

(** One turn of the endless loop of [sys_msgsnd]: [Some r] returns [r], [None]
    sleeps and turns again when woken. *)
Definition msgsnd_turn (mqid : nat) (type : Z) (data : list Z) (sz : Z) : ST mqstate (option Z) :=
  q ← get_mq mqid;
  if i32 (i32 (mq_curbytes q + sz) + 16) <=? mq_maxbytes q then
    s ← get;
    match last_msg fuel (mq_msgs q) (mq_mem s) with
    | None => blocks
    | Some m0 =>
        let m := u64 (m0 + msg_datasize m0 (mq_mem s) + 16) in
        _ ← upd_mem (set_next m0 m);
        s ← get;
        let m := msg_next m0 (mq_mem s) in
        _ ← upd_mem (set_type m type);
        _ ← upd_mem (set_next m 0);
        _ ← upd_mem (set_dataaddr m (m + 16));
        _ ← upd_mem (set_datasize m sz);
        s ← get;
        _ ← upd_mem (mem_write (msg_dataaddr m (mq_mem s)) (take (Z.to_nat (u32 sz)) data));
        _ ← upd_mq mqid (λ q, q <| mq_curbytes ::= λ c, i32 (c + i32 (sz + 16)) |>);
        _ ← modify (λ s, s <| wakeups ::= λ w, w + rstart s |> <| rstart := 0 |>);
        mret (Some 0)
    end
  else
    _ ← modify (λ s, s <| wstart ::= λ w, w + 1 |>);
    mret None.

Definition sys_msgsnd (mqid : Z) (type : Z) (data : list Z) (sz : Z) : ST mqstate (option Z) :=
  if Z.of_nat MQMAX <=? mqid then mret (Some (-1))
  else
    q ← get_mq (Z.to_nat mqid);
    if mq_status q =? 0 then mret (Some (-1))
    else if mq_msgs q =? 0 then mret (Some (-1))
    else msgsnd_turn (Z.to_nat mqid) type data sz.

(** The message of type [type] after [pre], with the message before it. *)
Fixpoint find_msg (n : nat) (type pre m : Z) (k : kstate) : option (option (Z * Z)) :=
  if m =? 0 then Some None
  else if msg_type m k =? type then Some (Some (pre, m))
  else match n with
  | O => None
  | S n' => find_msg n' type m (msg_next m k) k
  end.

(** The bytes read, or [None] for -1 (after a sleep when no message of the
    type is there). *)
Definition sys_msgrcv (mqid : Z) (type : Z) (sz : Z) : ST mqstate (option (list Z)) :=
  if Z.of_nat MQMAX <=? mqid then mret None
  else
    q ← get_mq (Z.to_nat mqid);
    if mq_status q =? 0 then mret None
    else
      s ← get;
      match find_msg fuel type (mq_msgs q) (msg_next (mq_msgs q) (mq_mem s)) (mq_mem s) with
      | None => blocks
      | Some (Some (pre, m)) =>
          let bytes := mem_read (Z.to_nat (u32 sz)) (msg_dataaddr m (mq_mem s)) (mq_mem s) in
          _ ← upd_mem (set_next pre (msg_next m (mq_mem s)));
          s ← get;
          _ ← upd_mq (Z.to_nat mqid) (λ q, q <| mq_curbytes ::= λ c, i32 (c - i32 (msg_datasize m (mq_mem s) + 16)) |>);
          _ ← reloc (Z.to_nat mqid);
          _ ← modify (λ s, s <| wakeups ::= λ w, w + wstart s |> <| wstart := 0 |>);
          mret (Some bytes)
      | Some None =>
          _ ← modify (λ s, s <| rstart ::= λ r, r + 1 |>);
          mret None
      end.

Definition rmmq (mqid : nat) : ST mqstate () :=
  q ← get_mq mqid;
  _ ← on_mem (kfree kend (mq_msgs q));
  upd_mq mqid (λ q, q <| mq_status := 0 |>).

Definition drop_ref (id : nat) : ST mqstate () :=
  _ ← upd_mq id (λ q, q <| mq_refcount ::= λ r, i32 (r - 1) |>);
  q ← get_mq id;
  if mq_refcount q =? 0 then rmmq id else mret ().

Definition releasemq (key : Z) : ST mqstate () :=
  s ← get;
  match findkey (i32 key) s with
  | Some idx => drop_ref idx
  | None => mret ()
  end.

Definition releasemq2 (mask : Z) : ST mqstate () :=
  for_loop 0 MQMAX (λ id, if bit mask id then drop_ref id else mret ()).
End code.

(** ** A message in a fresh queue *)

(** The memory after [sys_msgsnd] has stored its first message in page [pg]. *)
Definition sent (pg type : Z) (data : list Z) (sz : Z) (k : kstate) : kstate :=
  let m := pg + 16 in
  mem_write (m + 16) data (set_datasize m sz (set_dataaddr m (m + 16) (set_next m 0 (set_type m type (set_next pg m k))))).

Lemma i64_small z : - 2 ^ 63 ≤ z < 2 ^ 63 → i64 (z mod 2 ^ 64) = z.
Proof. intros H. unfold i64. rewrite Zplus_mod_idemp_l, Z.mod_small; lia. Qed.

Section send.
Context (pg type sz : Z) (data : list Z) (k : kstate).
Hypothesis Hal : pg mod PGSIZE = 0.
Hypothesis Hpg : 0 < pg < 2 ^ 63.
Hypothesis Hlen : length (k_page k pg) = Z.to_nat PGSIZE.
Hypothesis Hdata : Z.of_nat (length data) = sz.
Hypothesis Hsz : 8 ≤ sz ≤ PGSIZE - 32.
Hypothesis Htype : - 2 ^ 31 ≤ type < 2 ^ 31.

(** All the stores fall into the page. *)
Ltac in_page := intros; repeat (apply whole_mem_st || apply whole_mem_write); apply (whole_page k pg Hal Hlen); unfold PGSIZE in *; lia.

Lemma sent_dataaddr_before :
  msg_dataaddr (pg + 16) (set_datasize (pg + 16) sz (set_dataaddr (pg + 16) (pg + 16 + 16)
    (set_next (pg + 16) 0 (set_type (pg + 16) type (set_next pg (pg + 16) k))))) = pg + 32.
Proof.
  unfold msg_dataaddr, set_datasize. rewrite mem_ld_st_ne by (lia || in_page).
  unfold set_dataaddr, set_next, set_type. rewrite mem_ld_st by in_page. rewrite Z.mod_small by lia. lia.
Qed.

Lemma sent_next : msg_next pg (sent pg type data sz k) = pg + 16.
Proof.
  unfold msg_next, sent. rewrite mem_ld_write_ne by (lia || in_page).
  unfold set_datasize, set_dataaddr, set_type, set_next. rewrite !mem_ld_st_ne by (lia || in_page).
  rewrite mem_ld_st by in_page. apply Z.mod_small. lia.
Qed.

Lemma sent_type : msg_type (pg + 16) (sent pg type data sz k) = type.
Proof.
  unfold msg_type, sent. rewrite mem_ld_write_ne by (lia || in_page).
  unfold set_datasize, set_dataaddr, set_type, set_next. rewrite !mem_ld_st_ne by (lia || in_page).
  rewrite mem_ld_st by in_page. change (256 ^ Z.of_nat 8) with (2 ^ 64). apply i64_small. lia.
Qed.

Lemma sent_last : msg_next (pg + 16) (sent pg type data sz k) = 0.
Proof.
  unfold msg_next, sent. rewrite mem_ld_write_ne by (lia || in_page).
  unfold set_datasize, set_dataaddr, set_type, set_next. rewrite !mem_ld_st_ne by (lia || in_page).
  by rewrite mem_ld_st by in_page.
Qed.

(** The data have overwritten the field that says where they are. *)
Lemma sent_dataaddr : msg_dataaddr (pg + 16) (sent pg type data sz k) = ld 8 0 data.
Proof.
  unfold msg_dataaddr, sent. replace (pg + 16 + 16) with (pg + 16 + 16 + Z.of_nat 0) at 1 by lia.
  apply mem_ld_write; [in_page|lia].
Qed.
End send.

(** ** The system calls on a fresh queue *)

Lemma run_upd_mem f s : run (upd_mem f) s () (s <| mq_mem ::= f |>).
Proof. done. Qed.
Lemma run_upd_mq i f s : run (upd_mq i f) s () (s <| mqs ::= alter f i |>).
Proof. done. Qed.

Lemma MQMAX_id i : (i < MQMAX)%nat → (Z.of_nat MQMAX <=? Z.of_nat i) = false.
Proof. intros Hi. apply Z.leb_gt. lia. Qed.

Lemma run_get_mq i s q : mqs s !! i = Some q → run (get_mq i) s q s.
Proof. intros H. unfold get_mq, gets. by rewrite H. Qed.

Section calls.
Context (fuel : nat) (i : nat) (q : mq) (pg type sz : Z) (data : list Z) (s : mqstate).
Hypothesis Hi : (i < MQMAX)%nat.
Hypothesis Hq : mqs s !! i = Some q.
Hypothesis Hst : mq_status q ≠ 0.
Hypothesis Hmsgs : mq_msgs q = pg.
Hypothesis Hcur : mq_curbytes q = 16 ∧ mq_maxbytes q = PGSIZE.
Hypothesis Hal : pg mod PGSIZE = 0.
Hypothesis Hpg : 0 < pg < 2 ^ 63.
Hypothesis Hlen : length (k_page (mq_mem s) pg) = Z.to_nat PGSIZE.
Hypothesis Hempty : msg_next pg (mq_mem s) = 0 ∧ msg_datasize pg (mq_mem s) = 0.
Hypothesis Hdata : Z.of_nat (length data) = sz.
Hypothesis Hsz : 8 ≤ sz ≤ PGSIZE - 32.
Hypothesis Htype : - 2 ^ 31 ≤ type < 2 ^ 31.

Lemma msgsnd_run :
  ∃ s1 q1, run (sys_msgsnd fuel (Z.of_nat i) type data sz) s (Some 0) s1 ∧
    mq_mem s1 = sent pg type data sz (mq_mem s) ∧ mqs s1 !! i = Some q1 ∧ mq_status q1 = mq_status q ∧ mq_msgs q1 = pg.
Proof.
  destruct Hcur as [Hc Hmx], Hempty as [Hn Hd]. unfold sys_msgsnd. rewrite MQMAX_id, Nat2Z.id by done.
  rewrite (bind_Ret _ _ _ _ _ (run_get_mq i s q Hq)). destruct (Z.eqb_spec (mq_status q) 0); [done|].
  rewrite Hmsgs. destruct (Z.eqb_spec pg 0); [lia|]. unfold msgsnd_turn.
  rewrite (bind_Ret _ _ _ _ _ (run_get_mq i s q Hq)), Hc, Hmx, Hmsgs.
  rewrite !i32_small by (unfold PGSIZE in *; rewrite ?i32_small; lia).
  destruct (Z.leb_spec (16 + sz + 16) PGSIZE); [|lia]. rewrite (bind_Ret _ _ _ _ _ (run_get s)).
  assert (last_msg fuel pg (mq_mem s) = Some pg) as -> by (destruct fuel; simpl; by rewrite Hn).
  rewrite Hd, u64_small by lia. rewrite Z.add_0_r.
  rewrite (bind_Ret _ _ _ _ _ (run_upd_mem _ s)), (bind_Ret _ _ _ _ _ (run_get _)).
  assert (msg_next pg (set_next pg (pg + 16) (mq_mem s)) = pg + 16) as Hnx.
  { unfold msg_next, set_next. rewrite mem_ld_st; [apply Z.mod_small; lia|].
    intros. apply (whole_page _ pg Hal Hlen). unfold PGSIZE in *. lia. }
  cbn [mq_mem update field_set]. rewrite Hnx.
  rewrite !(bind_Ret _ _ _ _ _ (run_upd_mem _ _)), (bind_Ret _ _ _ _ _ (run_get _)). cbn [mq_mem update field_set].
  rewrite (sent_dataaddr_before pg type sz data (mq_mem s)) by done.
  rewrite (bind_Ret _ _ _ _ _ (run_upd_mem _ _)), (bind_Ret _ _ _ _ _ (run_upd_mq _ _ _)), (bind_Ret _ _ _ _ _ (run_modify _ _)).
  eexists. eexists. split; [reflexivity|]. cbn [mq_mem mqs update field_set]. split_and!.
  - unfold sent. rewrite take_ge; [by replace (pg + 32) with (pg + 16 + 16) by lia|].
    rewrite u32_small; unfold PGSIZE in *; lia.
  - by rewrite list_lookup_alter_eq, Hq.
  - done.
  - done.
Qed.
End calls.

(** Receiving the only message of a queue. *)
Lemma reloc_head n pg k :
  pg ≠ 0 → msg_next pg k = 0 → ∃ k', run (reloc_loop (S n) pg pg pg) k pg k'.
Proof.
  intros Hpg Hn. cbn [reloc_loop]. destruct (Z.eqb_spec pg 0); [done|].
  rewrite (bind_Ret _ _ _ _ _ (run_get k)), Hn, !(bind_Ret _ _ _ _ _ (run_modify _ _)), (bind_Ret _ _ _ _ _ (run_get _)).
  rewrite !(bind_Ret _ _ _ _ _ (run_modify _ _)), (bind_Ret _ _ _ _ _ (run_get _)).
  eexists. by destruct n.
Qed.

Lemma msgrcv_run fuel i q pg m type sz s :
  (i < MQMAX)%nat → mqs s !! i = Some q → mq_status q ≠ 0 → mq_msgs q = pg → pg ≠ 0 →
  (∀ a, pg ≤ a < pg + 8 → whole (mq_mem s) a) →
  msg_next pg (mq_mem s) = m → m ≠ 0 → msg_type m (mq_mem s) = type → msg_next m (mq_mem s) = 0 →
  ∃ s2, run (sys_msgrcv (S fuel) (Z.of_nat i) type sz) s
    (Some (mem_read (Z.to_nat (u32 sz)) (msg_dataaddr m (mq_mem s)) (mq_mem s))) s2.
Proof.
  intros Hi Hq Hst Hmsgs Hpg Hw Hn Hm Ht Hl. unfold sys_msgrcv. rewrite MQMAX_id, Nat2Z.id by done.
  rewrite (bind_Ret _ _ _ _ _ (run_get_mq i s q Hq)). destruct (Z.eqb_spec (mq_status q) 0); [done|].
  rewrite (bind_Ret _ _ _ _ _ (run_get s)), Hmsgs, Hn. cbn [find_msg].
  destruct (Z.eqb_spec m 0); [done|]. rewrite Ht, Z.eqb_refl, Hl.
  rewrite (bind_Ret _ _ _ _ _ (run_upd_mem _ _)), (bind_Ret _ _ _ _ _ (run_get _)), (bind_Ret _ _ _ _ _ (run_upd_mq _ _ _)).
  set (s1 := update mqs _ _). unfold reloc.
  destruct (lookup_lt_is_Some_2 (mqs s1) i) as [q1 Hq1].
  { cbn [s1 mqs update field_set]. rewrite length_alter. by eapply lookup_lt_Some. }
  assert (mq_msgs q1 = pg) as Hm1.
  { cbn [s1 mqs update field_set] in Hq1. rewrite list_lookup_alter_eq, Hq in Hq1. injection Hq1 as <-. done. }
  destruct (reloc_head fuel pg (mq_mem s1) Hpg) as (k' & E).
  { cbn [s1 mq_mem update field_set]. unfold msg_next, set_next. by rewrite mem_ld_st. }
  assert (run (reloc (S fuel) i) s1 () (s1 <| mq_mem := k' |> <| mq_mem ::= set_next pg 0 |>)) as Er.
  { unfold reloc. rewrite (bind_Ret _ _ _ _ _ (run_get_mq i s1 q1 Hq1)), Hm1. unfold on_mem, mbind, ST_bind. by rewrite E. }
  fold (reloc (S fuel) i). rewrite (bind_Ret _ _ _ _ _ Er), (bind_Ret _ _ _ _ _ (run_modify _ _)). by eexists.
Qed.

(** The header of a message is taken to be 16 bytes, so the data of a
    message overwrite its [dataaddr]: when a message of at least eight bytes is
    sent to an empty queue and received, the receiver gets, not the data, but
    the bytes of kernel memory at the address that the first eight bytes of the
    data spell. *)
Theorem msgrcv_reads_sender_address fuel i q pg type sz data s :
  (i < MQMAX)%nat → mqs s !! i = Some q → mq_status q ≠ 0 → mq_msgs q = pg →
  mq_curbytes q = 16 ∧ mq_maxbytes q = PGSIZE → pg mod PGSIZE = 0 → 0 < pg < 2 ^ 63 →
  length (k_page (mq_mem s) pg) = Z.to_nat PGSIZE → msg_next pg (mq_mem s) = 0 ∧ msg_datasize pg (mq_mem s) = 0 →
  Z.of_nat (length data) = sz → 8 ≤ sz ≤ PGSIZE - 32 → - 2 ^ 31 ≤ type < 2 ^ 31 →
  ∃ s1 s2, run (sys_msgsnd (S fuel) (Z.of_nat i) type data sz) s (Some 0) s1 ∧
    run (sys_msgrcv (S fuel) (Z.of_nat i) type sz) s1 (Some (mem_read (Z.to_nat sz) (ld 8 0 data) (mq_mem s1))) s2.
Proof.
  intros Hi Hq Hst Hmsgs Hcur Hal Hpg Hlen Hempty Hdata Hsz Htype.
  destruct (msgsnd_run (S fuel) i q pg type sz data s) as (s1 & q1 & E1 & Hmem & Hq1 & Hst1 & Hm1); [done..|].
  destruct (msgrcv_run fuel i q1 pg (pg + 16) type sz s1) as (s2 & E2); try done; try lia; rewrite ?Hmem.
  - intros a Ha. unfold sent. apply whole_mem_write. repeat apply whole_mem_st.
    apply (whole_page _ pg Hal Hlen). unfold PGSIZE. lia.
  - by apply sent_next.
  - by apply sent_type.
  - by apply sent_last.
  - exists s1, s2. split; [done|]. rewrite Hmem in *. rewrite sent_dataaddr in E2 by done.
    rewrite u32_small in E2 by (unfold PGSIZE in *; lia). exact E2.
Qed.

(** ** sys_mqget *)

Lemma bit_testbit mask i : bit mask i = Z.testbit mask (Z.of_nat i).
Proof.
  unfold bit. change 1 with (Z.shiftl 1 0) at 1. rewrite land_bit_zero, negb_involutive by done.
  by rewrite Z.shiftr_spec, Z.add_0_l by done.
Qed.

Lemma bit_set_bit mask i : (i < 32)%nat → bit (Z.lor mask (u32 (Z.shiftl 1 (Z.of_nat i)))) i = true.
Proof.
  intros Hi. rewrite bit_testbit, Z.lor_spec. rewrite u32_small.
  - rewrite flag_bit, bool_decide_true by (done || lia). apply orb_true_r.
  - rewrite Z.shiftl_1_l. split; [lia|]. apply Z.pow_lt_mono_r; lia.
Qed.

(** A queue that is not found becomes the first one of its key. *)
Lemma findi_new {A} (f : A → bool) (l : list A) i (g : A → A) x :
  findi f l = None → l !! i = Some x → f (g x) = true → findi f (alter g i l) = Some i.
Proof.
  intros Hn Hx Hg. apply findi_Some. split.
  - exists (g x). by rewrite list_lookup_alter_eq, Hx.
  - intros j y Hj. rewrite list_lookup_alter_ne by lia. by apply (proj1 (findi_None f l) Hn).
Qed.

Lemma newmq_found key s i s1 :
  findkey key s = None → run (newmq key) s (Some i) s1 →
  findkey key s1 = Some i ∧ (i < length (mqs s))%nat ∧ mqmask s1 = Z.lor (mqmask s) (u32 (Z.shiftl 1 (Z.of_nat i))).
Proof.
  intros Hn E. unfold newmq in E. rewrite (bind_Ret _ _ _ _ _ (run_get s)) in E.
  destruct (findi (λ q, mq_status q =? 0) (mqs s)) as [j|] eqn:Ej; [|done].
  destruct (findi_lookup _ _ _ Ej) as (x & Hx & _).
  apply bind_Ret_inv in E as (r & s' & E0 & E). unfold on_mem in E0.
  destruct (kalloc (mq_mem s)) as [[r' k]| |]; [|done..]. injection E0 as -> <-.
  rewrite (bind_Ret _ _ _ _ _ (run_upd_mq _ _ _)) in E. destruct r as [pa|]; [|done].
  rewrite (bind_Ret _ _ _ _ _ (run_upd_mq _ _ _)) in E. apply bind_Ret_inv in E as ([] & s'' & E1 & E).
  unfold on_mem, fill in E1. cbn in E1. injection E1 as <-.
  rewrite !(bind_Ret _ _ _ _ _ (run_upd_mem _ _)), (bind_Ret _ _ _ _ _ (run_upd_mq _ _ _)), (bind_Ret _ _ _ _ _ (run_modify _ _)) in E.
  injection E as <- <-. split_and!; [|by eapply lookup_lt_Some|done]. unfold findkey in *. cbn [mqs update field_set].
  rewrite findi_alter by done. eapply findi_new.
  - rewrite findi_alter by done. exact Hn.
  - by rewrite list_lookup_alter_eq, Hx.
  - cbn. by rewrite Z.eqb_refl.
Qed.

(** Once [sys_mqget] has returned a queue for a key, every further call
    with that key, whichever process makes it, returns the same queue and
    changes nothing: the mask that says whether the caller holds the queue is
    that of the first process of the table, so the second user of a queue is
    not counted. *)
Theorem mqget_counts_once key i s s1 :
  length (mqs s) = MQMAX → run (sys_mqget key) s (Some i) s1 → run (sys_mqget key) s1 (Some i) s1.
Proof.
  intros Hlen E. assert (findkey (i32 key) s1 = Some i ∧ bit (mqmask s1) i = true) as [Hf Hb].
  { unfold sys_mqget in E. rewrite (bind_Ret _ _ _ _ _ (run_get s)) in E.
    destruct (findkey (i32 key) s) as [j|] eqn:Ej.
    - assert (j < 32)%nat as Hj by (unfold findkey in Ej; apply findi_lt in Ej; rewrite Hlen in Ej; unfold MQMAX in Ej; lia).
      destruct (bit (mqmask s) j) eqn:Eb; cbn [negb] in E; [injection E as <- <-; done|].
      injection E as <- <-. split; [|by apply bit_set_bit]. unfold findkey in *. cbn [mqs update field_set].
      by rewrite findi_alter.
    - destruct (newmq_found _ _ _ _ Ej E) as (? & Hi & ->). split; [done|]. apply bit_set_bit.
      rewrite Hlen in Hi. unfold MQMAX in Hi. lia. }
  unfold sys_mqget. rewrite (bind_Ret _ _ _ _ _ (run_get s1)), Hf, Hb. done.
Qed.

(** ** A queue on a concrete machine *)

Definition mq_start : mqstate := MqState (replicate MQMAX mq0) 0 0 0 0 ks_init.
Definition mq_one : mqstate := after (sys_mqget 7) mq_start.
Definition q_one : mq := Mq 7 1 pg_ex PGSIZE 16 1.

Lemma mqget_counts_once_witness : run (sys_mqget 7) mq_one (Some 0%nat) mq_one.
Proof.
  apply (mqget_counts_once 7 0 mq_start mq_one); [reflexivity|].
  apply run_after. vm_compute. reflexivity.
Defined.

(** The eight bytes of the message are the address of the page itself: the
    receiver sees the [next] pointer stored there. *)
Lemma msgrcv_reads_sender_address_witness :
  ∃ s1 s2, run (sys_msgsnd 2 0 5 [0; 0xf0; 0xff; 0x87; 0; 0; 0; 0] 8) mq_one (Some 0) s1 ∧
    run (sys_msgrcv 2 0 5 8) s1 (Some (mem_read 8 0x87fff000 (mq_mem s1))) s2.
Proof.
  replace 0x87fff000 with (ld 8 0 [0; 0xf0; 0xff; 0x87; 0; 0; 0; 0]) by (vm_compute; reflexivity).
  refine (msgrcv_reads_sender_address 1 0 q_one pg_ex 5 8 [0; 0xf0; 0xff; 0x87; 0; 0; 0; 0] mq_one _ _ _ _ _ _ _ _ _ _ _ _).
  - apply Nat.ltb_lt. reflexivity.
  - vm_compute. reflexivity.
  - discriminate.
  - reflexivity.
  - split; reflexivity.
  - reflexivity.
  - split; [apply Z.ltb_lt|apply Z.ltb_lt]; reflexivity.
  - vm_compute. reflexivity.
  - split; vm_compute; reflexivity.
  - reflexivity.
  - split; apply Z.leb_le; reflexivity.
  - lia.
Defined.
