(* ===== verification/ShareMem.v ===== *)
(** * sharemem.c: shared memory

    Eight segments of up to four pages, mapped below KERNBASE in the address
    space of the process that attaches them.  The variable [proc] of the file is
    the process table, so the process whose table, boundary and mask the code
    uses is the first of the table, whoever calls; [shmproc] holds its fields.
    Functions whose C result is an [int] return the converted value. *)

From stdpp Require Import gmap.
From S2P Require Import Prelude Bytes PageAlloc Kalloc Memory Vm VmUser.

Definition MAX_SHM_PGNUM : Z := 4.

Record sharemem := ShareMem {
  sh_refcount : Z;
  sh_pagenum : Z;
  sh_physaddr : list Z;
}.
#[export] Instance sharemem_fields : Fields sharemem := λ m, ShareMem (sh_refcount m) (sh_pagenum m) (sh_physaddr m).

Record shmproc := ShmProc {
  p_pagetable : Z;
  p_sz : Z;
  p_shm : Z;                            (* uint *)
  p_shmkeymask : Z;                     (* uint *)
  p_shmva : list Z;
}.
#[export] Instance shmproc_fields : Fields shmproc := λ p,
  ShmProc (p_pagetable p) (p_sz p) (p_shm p) (p_shmkeymask p) (p_shmva p).

Record shmstate := ShmState {
  shmtab : list sharemem;
  proc0 : shmproc;
  sm_mem : kstate;
}.
#[export] Instance shmstate_fields : Fields shmstate := λ s, ShmState (shmtab s) (proc0 s) (sm_mem s).

Definition on_kmem {A} (m : ST kstate A) : ST shmstate A := λ s,
  match m (sm_mem s) with
  | Ret (a, k) => Ret (a, s <| sm_mem := k |>)
  | Panic msg => Panic msg
  | Blocks => Blocks
  end.
Definition shm0 : sharemem := ShareMem 0 0 [0; 0; 0; 0].
Definition upd_shm (k : nat) (f : sharemem → sharemem) : ST shmstate () := modify (λ s, s <| shmtab ::= alter f k |>).
Definition get_shm (k : nat) : ST shmstate sharemem := gets (λ s, default shm0 (shmtab s !! k)).

Section code.
Context (kend : Z).

Definition sharememinit : ST shmstate () := modify (λ s, s <| shmtab ::= fmap (λ m, m <| sh_refcount := 0 |>) |>).

Definition shmkeyused (key mask : Z) : bool :=
  if 8 <? key then false else negb (Z.land (Z.shiftr mask key) 1 =? 0).

(** The loop of [deallocshm], down from [a]. *)
Fixpoint deallocshm_loop (n : nat) (pagetable oldshm a : Z) : ST kstate () :=
  match n with
  | O => mret ()
  | S n' =>
      if oldshm <=? a then
        r ← walk pagetable a false;
        _ ← match r with
            | None => mret ()
            | Some e =>
                s ← get;
                if has (pte_ld e s) PTE_V then
                  let pa := PTE2PA (pte_ld e s) in
                  if pa =? 0 then panic "kfree: found a null physical address"
                  else
                    _ ← kfree kend pa;
                    pte_st e 0
                else mret ()
            end;
        deallocshm_loop n' pagetable oldshm (u64 (a - PGSIZE))
      else mret ()
  end.

Definition deallocshm (pagetable oldshm newshm : Z) : ST kstate Z :=
  if newshm <=? oldshm then mret (i32 oldshm)
  else
    let a := PGROUNDDOWN (u64 (newshm - PGSIZE)) in
    _ ← deallocshm_loop (Z.to_nat (a / PGSIZE + 2)) pagetable oldshm a;
    mret (i32 newshm).

(** The loop of [allocshm]; the result is its return value and [phyaddr]. *)
Fixpoint allocshm_loop (n : nat) (pagetable a oldshm newshm : Z) (i : nat) (phyaddr : list Z) : ST kstate (Z * list Z) :=
  match n with
  | O => mret (i32 newshm, phyaddr)
  | S n' =>
      if a <? oldshm then
        r ← kalloc;
        match r with
        | None => _ ← deallocshm pagetable newshm oldshm; mret (0, phyaddr)
        | Some mem =>
            _ ← fill mem 0;
            m ← mappages pagetable a PGSIZE mem (Z.lor PTE_W PTE_U);
            if negb (m =? 0) then
              _ ← kfree kend mem;
              _ ← deallocshm pagetable newshm oldshm;
              mret (0, phyaddr)
            else allocshm_loop n' pagetable (a + PGSIZE) oldshm newshm (i + 1) (<[i := mem]> phyaddr)
        end
      else mret (i32 newshm, phyaddr)
  end.

Definition bad_shm_range (oldshm newshm sz : Z) : bool :=
  negb (Z.land oldshm 0xFFF =? 0) || negb (Z.land newshm 0xFFF =? 0) || (KERNBASE <? oldshm) || (newshm <? sz).

Definition allocshm (pagetable oldshm newshm sz : Z) (phyaddr : list Z) : ST kstate (Z * list Z) :=
  if bad_shm_range oldshm newshm sz then mret (0, phyaddr)
  else allocshm_loop (Z.to_nat ((oldshm - newshm) / PGSIZE + 1)) pagetable newshm oldshm newshm 0 phyaddr.

Fixpoint mapshm_loop (n : nat) (pagetable a oldshm newshm : Z) (physaddr : list Z) : ST kstate Z :=
  match n with
  | O => mret (i32 newshm)
  | S n' =>
      if a <? oldshm then
        m ← mappages pagetable a PGSIZE (default 0 (head physaddr)) (Z.lor PTE_W PTE_U);
        if m <? 0 then mret 0
        else mapshm_loop n' pagetable (a + PGSIZE) oldshm newshm (tail physaddr)
      else mret (i32 newshm)
  end.

Definition mapshm (pagetable oldshm newshm sz : Z) (physaddr : list Z) : ST kstate Z :=
  if bad_shm_range oldshm newshm sz then mret 0
  else mapshm_loop (Z.to_nat ((oldshm - newshm) / PGSIZE + 1)) pagetable newshm oldshm newshm physaddr.

Definition shmadd (key pagenum : Z) (physaddr : list Z) : ST shmstate Z :=
  if (8 <=? key) || (pagenum <=? 0) || (MAX_SHM_PGNUM <? pagenum) then mret (-1)
  else
    _ ← upd_shm (Z.to_nat key) (λ m,
          m <| sh_refcount := 1 |> <| sh_pagenum := pagenum |>
            <| sh_physaddr ::= λ old, take (Z.to_nat pagenum) physaddr ++ drop (Z.to_nat pagenum) old |>);
    mret 0.

(** The boundary and mask of the process after an attachment. *)
Definition attach (key shm : Z) (p : shmproc) : shmproc :=
  p <| p_shm := u32 shm |> <| p_shmkeymask ::= λ m, Z.lor m (u32 (Z.shiftl 1 key)) |>.
Definition set_shmva (key shm : Z) : ST shmstate () :=
  modify (λ s, s <| proc0 ::= λ p, p <| p_shmva ::= <[Z.to_nat key := shm]> |> |>).

(** [junk] is what the local array [phyaddr] holds on entry; -1 is [None]. *)
Definition shmgetat (junk : list Z) (key num : Z) : ST shmstate (option Z) :=
  if (8 <=? key) || (MAX_SHM_PGNUM <? num) then mret None
  else
    s ← get;
    let p := proc0 s in
    let shm := p_shm p in
    m ← get_shm (Z.to_nat key);
    r ← (if sh_refcount m =? 0 then
           a ← on_kmem (allocshm (p_pagetable p) shm (u64 (shm - num * PGSIZE)) (p_sz p) junk);
           let '(shm, phyaddr) := (u64 a.1, a.2) in
           if shm =? 0 then mret None
           else
             _ ← set_shmva key shm;
             _ ← shmadd key num phyaddr;
             mret (Some shm)
         else
           let phyaddr := take (Z.to_nat num) (sh_physaddr m) ++ drop (Z.to_nat num) junk in
           a ← on_kmem (mapshm (p_pagetable p) shm shm (p_sz p) phyaddr);
           let shm := u64 a in
           if shm =? 0 then mret None
           else
             _ ← set_shmva key shm;
             _ ← upd_shm (Z.to_nat key) (λ m, m <| sh_refcount ::= λ r, i32 (r + 1) |>);
             mret (Some shm));
    match r with
    | None => mret None
    | Some shm =>
        _ ← modify (λ s, s <| proc0 ::= attach key shm |>);
        mret (Some shm)
    end.

Definition shmaddcount (mask : Z) : ST shmstate () :=
  for_loop 0 8 (λ key,
    if shmkeyused (Z.of_nat key) mask then upd_shm key (λ m, m <| sh_refcount ::= λ r, i32 (r + 1) |>) else mret ()).

(** A load by the kernel through its own table, as [kvminit] sets it up: RAM is
    mapped one to one, [mmio] is what a mapped device register returns, any
    other address traps. *)
Context (mmio : Z → Z).
Definition device_mapped (a : Z) : bool :=
  existsb (λ r, (r.1 <=? a) && (a <? r.1 + r.2))
    [(UART0, PGSIZE); (VIRTIO0, PGSIZE); (0x30000000, 0x10000000); (0x40000000, 0x20000);
     (CLINT, 0x10000); (PLIC, 0x400000)].
Definition kernel_load (a : Z) : ST kstate Z :=
  if (KERNBASE <=? a) && (a <? PHYSTOP) then gets (mem_ld 8 a)
  else if device_mapped a then mret (mmio a)
  else panic "kerneltrap".

Definition shmrm (key : nat) : ST shmstate Z :=
  if 8 <=? Z.of_nat key then mret (-1)
  else
    m ← get_shm key;
    _ ← for_loop 0 (Z.to_nat (sh_pagenum m)) (λ i,
          let pte := PA2PTE (default 0 (sh_physaddr m !! i)) in
          if pte =? 0 then mret ()
          else
            v ← on_kmem (kernel_load pte);
            if has v PTE_V then on_kmem (kfree kend (PTE2PA v)) else mret ());
    _ ← upd_shm key (λ m, m <| sh_refcount := 0 |>);
    mret 0.

Definition shmrelease (pagetable shm keymask : Z) : ST shmstate Z :=
  _ ← on_kmem (deallocshm pagetable shm KERNBASE);
  _ ← for_loop 0 8 (λ k,
        if shmkeyused (Z.of_nat k) keymask then
          _ ← upd_shm k (λ m, m <| sh_refcount ::= λ r, i32 (r - 1) |>);
          m ← get_shm k;
          if sh_refcount m =? 0 then _ ← shmrm k; mret () else mret ()
        else mret ());
  mret 0.

Definition shmrefcount (key : Z) (s : shmstate) : Z :=
  if 8 <=? key then -1 else sh_refcount (default shm0 (shmtab s !! Z.to_nat key)).
End code.

(** ** deallocshm *)

Section proofs.
Context (kend pt : Z).
Implicit Types (s : kstate).

Lemma aligned_add a n : a mod PGSIZE = 0 → (a + n * PGSIZE) mod PGSIZE = 0.
Proof. intros H. by rewrite Z_mod_plus_full. Qed.

Lemma deallocshm_loop_run oldshm j n s :
  (j < n)%nat → k_ok kend s → pt_ok kend s pt → user_ok kend s pt → oldshm mod PGSIZE = 0 →
  PGSIZE ≤ oldshm → oldshm + Z.of_nat j * PGSIZE ≤ USERTOP →
  ∃ s', run (deallocshm_loop kend n pt oldshm (oldshm + Z.of_nat j * PGSIZE - PGSIZE)) s () s' ∧
    unmapped kend true oldshm (oldshm + Z.of_nat j * PGSIZE) s pt s' ∧ user_ok kend s' pt.
Proof.
  assert (0 < PGSIZE) as Hpos by done. assert (USERTOP < MAXVA ∧ MAXVA = 2 ^ 38) as [Et Em] by done.
  revert n s. induction j as [|j IH]; intros n s Hn Hk Hok Hus Hal Hlo Hmax; (destruct n as [|n]; [lia|]); cbn [deallocshm_loop].
  { destruct (Z.leb_spec oldshm (oldshm + Z.of_nat 0 * PGSIZE - PGSIZE)); [lia|].
    exists s. split_and!; [done| |done]. apply unmapped_refl; [done..|lia]. }
  pose proof (Z.mul_nonneg_nonneg (Z.of_nat j) PGSIZE ltac:(lia) ltac:(done)). rewrite Nat2Z.inj_succ in *.
  replace (oldshm + Z.succ (Z.of_nat j) * PGSIZE - PGSIZE) with (oldshm + Z.of_nat j * PGSIZE) by lia.
  set (a := oldshm + Z.of_nat j * PGSIZE) in *. assert (a mod PGSIZE = 0) as Hala by (by apply aligned_add).
  destruct (Z.leb_spec oldshm a); [|lia]. rewrite (bind_Ret _ _ _ _ _ (walk_find s pt a ltac:(lia))).
  set (body := match _ with Some _ => _ | None => _ end).
  assert (∃ s1, run body s () s1 ∧ unmapped kend true a (a + PGSIZE) s pt s1) as (s1 & E1 & U1).
  { destruct (decide (has (lpte s pt a) PTE_V = true)) as [Hm|Hm].
    - destruct (node s pt (path a)) as [q|] eqn:Eq; [|unfold lpte in Hm; by rewrite Eq in Hm].
      destruct (clear_entry kend true pt a s q) as (s1 & E1 & U1); [done..|lia|done|done|].
      destruct (us_page _ _ _ Hus a ltac:(lia) Hm) as ((_ & Hv & _) & _). pose proof (ko_pos kend s Hk).
      eexists. split; [|exact U1]. unfold body. cbn [fmap option_fmap option_map].
      rewrite (bind_Ret _ _ _ _ _ (run_get s)), (lpte_at s pt a q Eq), Hm.
      destruct (Z.eqb_spec (PTE2PA (lpte s pt a)) 0); [lia|]. rewrite (bind_Ret _ _ _ _ _ E1). done.
    - exists s. split.
      + unfold body. destruct (node s pt (path a)) as [q|] eqn:Eq; [|done]. cbn [fmap option_fmap option_map].
        rewrite (bind_Ret _ _ _ _ _ (run_get s)), (lpte_at s pt a q Eq). by rewrite (not_true_is_false _ Hm).
      + apply unmapped_refl; [done..|]. intros va _ Hin. rewrite (lpte_page s pt va a); [done|by apply same_page]. }
  rewrite (bind_Ret _ _ _ _ _ E1), u64_small by lia.
  pose proof (unmapped_user _ _ _ _ _ _ _ Hala (aligned_add a 1 Hala) ltac:(lia) Hus ltac:(by rewrite Z.mul_1_l)) as Hus1.
  destruct (IH n s1 ltac:(lia) (um_k _ _ _ _ _ _ _ U1) (um_pt _ _ _ _ _ _ _ U1) Hus1 Hal Hlo ltac:(lia)) as (s2 & E2 & U2 & Hus2).
  exists s2. split_and!; [done| |done].
  apply (unmapped_union _ _ a (a + PGSIZE) oldshm a _ _ _ s1); [lia| |lia|lia|done..].
  intros va va' H1 H2. unfold PGSIZE in *. Z.to_euclidean_division_equations. lia.
Qed.

Lemma deallocshm_run oldshm newshm s :
  k_ok kend s → pt_ok kend s pt → user_ok kend s pt → oldshm mod PGSIZE = 0 → newshm mod PGSIZE = 0 →
  PGSIZE ≤ oldshm ≤ newshm → newshm ≤ USERTOP →
  ∃ r s', run (deallocshm kend pt oldshm newshm) s r s' ∧ unmapped kend true oldshm newshm s pt s' ∧ user_ok kend s' pt.
Proof.
  intros Hk Hok Hus Hao Han Hle Hmax. unfold deallocshm. assert (USERTOP < MAXVA ∧ MAXVA = 2 ^ 38) as [Et Em] by done.
  destruct (Z.leb_spec newshm oldshm).
  - eexists _, s. split_and!; [done| |done]. apply unmapped_refl; [done..|lia].
  - assert (0 < PGSIZE) by done. rewrite u64_small by lia. set (j := Z.to_nat ((newshm - oldshm) / PGSIZE)).
    assert (newshm = oldshm + Z.of_nat j * PGSIZE) as En.
    { unfold j. unfold PGSIZE in *. Z.to_euclidean_division_equations. lia. }
    assert (PGROUNDDOWN (newshm - PGSIZE) = newshm - PGSIZE) as ->.
    { rewrite PGROUNDDOWN_eq. unfold PGSIZE in *. Z.to_euclidean_division_equations. lia. }
    destruct (deallocshm_loop_run oldshm j (Z.to_nat ((newshm - PGSIZE) / PGSIZE + 2)) s) as (s' & E & U & Hus'); [|done..|lia|lia|].
    { unfold j. unfold PGSIZE in *. Z.to_euclidean_division_equations. lia. }
    rewrite <- En in E, U. eexists _, s'. split_and!; [|done..]. by rewrite (bind_Ret _ _ _ _ _ E).
Qed.

(** ** allocshm *)

Definition shm_perm : Z := Z.lor PTE_W PTE_U.

Lemma shm_perm_leaf : leaf_perm shm_perm.
Proof. split; [split; [apply Z.leb_le|apply Z.ltb_lt]; reflexivity|by vm_compute]. Qed.

(** [phys] lists the pages mapped from [lo] up to [hi]. *)
Definition lists_pages (lo hi : Z) (phys : list Z) s : Prop :=
  ∀ k : nat, lo + Z.of_nat k * PGSIZE < hi → phys !! k = Some (PTE2PA (lpte s pt (lo + Z.of_nat k * PGSIZE))).

Lemma lists_pages_snoc lo j phys s s3 q :
  lo mod PGSIZE = 0 → 0 ≤ lo → lo + Z.of_nat j * PGSIZE < MAXVA → (j < length phys)%nat → 0 < kend → valid kend q →
  lists_pages lo (lo + Z.of_nat j * PGSIZE) phys s →
  (∀ va, 0 ≤ va < MAXVA → lpte s3 pt va =
     if decide (lo + Z.of_nat j * PGSIZE ≤ va < lo + Z.of_nat j * PGSIZE + PGSIZE) then new_pte q shm_perm else lpte s pt va) →
  lists_pages lo (lo + Z.of_nat j * PGSIZE + PGSIZE) (<[j := q]> phys) s3.
Proof.
  intros Hal Hlo Hmax Hj Hend Hq Hl Hm k Hk. assert (0 < PGSIZE) by done.
  assert (Z.of_nat k * PGSIZE < (Z.of_nat j + 1) * PGSIZE) as Hkj by lia.
  apply Z.mul_lt_mono_pos_r in Hkj; [|done].
  assert (0 ≤ Z.of_nat k * PGSIZE ≤ Z.of_nat j * PGSIZE) as Hkm.
  { split; [apply Z.mul_nonneg_nonneg; [lia|done]|]. apply Z.mul_le_mono_nonneg_r; [done|lia]. }
  rewrite Hm by lia. destruct (decide (k = j)) as [->|Hne].
  - rewrite list_lookup_insert_eq, decide_True by (done || lia). f_equal. symmetry.
    apply (new_pte_pa kend); [done|done|apply shm_perm_leaf].
  - assert ((Z.of_nat k + 1) * PGSIZE ≤ Z.of_nat j * PGSIZE) by (apply Z.mul_le_mono_nonneg_r; [done|lia]).
    rewrite list_lookup_insert_ne, decide_False by (done || lia). apply Hl. lia.
Qed.

Lemma allocshm_loop_run s0 newshm oldshm n j phys s :
  newshm mod PGSIZE = 0 → oldshm mod PGSIZE = 0 → PGSIZE ≤ newshm → oldshm ≤ KERNBASE →
  newshm + Z.of_nat j * PGSIZE ≤ oldshm → oldshm - newshm < (Z.of_nat j + Z.of_nat n) * PGSIZE →
  oldshm - newshm ≤ Z.of_nat (length phys) * PGSIZE →
  grown kend pt shm_perm s0 newshm (newshm + Z.of_nat j * PGSIZE) s → lists_pages newshm (newshm + Z.of_nat j * PGSIZE) phys s →
  (∀ va, 0 ≤ va < MAXVA → newshm ≤ va < oldshm → has (lpte s0 pt va) PTE_V ≠ true) →
  ∃ r phys' s', run (allocshm_loop kend n pt (newshm + Z.of_nat j * PGSIZE) oldshm newshm j phys) s (r, phys') s' ∧
    (r = i32 newshm ∧ grown kend pt shm_perm s0 newshm oldshm s' ∧ lists_pages newshm oldshm phys' s' ∨
     r = 0 ∧ restored kend pt s0 s').
Proof.
  intros Han Hao Hlo Hhi. assert (0 < PGSIZE) as Hpos by done. assert (USERTOP < MAXVA ∧ MAXVA = 2 ^ 38) as [Et Em] by done.
  assert (KERNBASE = 2 ^ 31 ∧ KERNBASE ≤ USERTOP) as [Ek Eu] by done. revert j phys s. induction n as [|n IH]; intros j phys s Hj Hn Hlen G Hl Hun.
  all: set (a := newshm + Z.of_nat j * PGSIZE) in *; cbn [allocshm_loop].
  { unfold a in *. lia. }
  destruct (Z.ltb_spec a oldshm) as [Hlt|Hge].
  2:{ assert (a = oldshm) as Ea by lia. rewrite Ea in *. eexists _, phys, s. split; [done|]. by left. }
  pose proof (Z.mul_nonneg_nonneg (Z.of_nat j) PGSIZE ltac:(lia) ltac:(done)).
  assert (a mod PGSIZE = 0) as Hala by (by apply aligned_add).
  assert (a + PGSIZE ≤ oldshm) as Hnext by (unfold PGSIZE in *; Z.to_euclidean_division_equations; lia).
  assert (∀ s' (ph : list Z), grown kend pt shm_perm s0 newshm a s' →
    ∃ r phys' s2, run (_ ← deallocshm kend pt newshm oldshm; mret (0, ph)) s' (r, phys') s2 ∧ r = 0 ∧ restored kend pt s0 s2) as Hback.
  { intros s' ph G'. destruct (deallocshm_run newshm oldshm s' (gw_k _ _ _ _ _ _ _ G') (gw_pt _ _ _ _ _ _ _ G') (gw_user _ _ _ _ _ _ _ G'))
      as (r & s2 & E & U & Hus2); [done|done|lia|lia|].
    exists 0, ph, s2. rewrite (bind_Ret _ _ _ _ _ E). split_and!; [done..|].
    apply (grown_unmapped kend pt shm_perm shm_perm_leaf s0 newshm a oldshm s'); [lia|done..]. }
  destruct (fresh_zero kend pt s (gw_k _ _ _ _ _ _ _ G) (gw_pt _ _ _ _ _ _ _ G) (gw_user _ _ _ _ _ _ _ G)) as [(q & s1 & E1 & Hf)|E1].
  2:{ rewrite (bind_Ret _ _ _ _ _ E1). destruct (Hback s phys G) as (r & ph & s2 & E & ? & ?). exists r, ph, s2. split; [exact E|by right]. }
  rewrite (bind_Ret _ _ _ _ _ E1). unfold fill. rewrite (bind_Ret _ _ _ _ _ (run_modify _ _)).
  set (s2 := s1 <| k_page ::= fupd q (page_of 0) |>) in *.
  assert (has (lpte s2 pt a) PTE_V ≠ true) as Hnm.
  { rewrite (fz_lpte _ _ _ _ _ Hf), (gw_out _ _ _ _ _ _ _ G) by lia. apply Hun; lia. }
  destruct (mappages_page kend pt a q shm_perm s2 (fz_k _ _ _ _ _ Hf) (fz_pt _ _ _ _ _ Hf)) as (r & s3 & E3 & F & [[-> Hm]|[-> Hm]]);
    [done|lia|apply Hf|apply shm_perm_leaf|done|..]; fold shm_perm; rewrite (bind_Ret _ _ _ _ _ E3).
  - change (negb (0 =? 0)) with false. cbv iota.
    replace (j + 1)%nat with (S j) by lia.
    assert (newshm + Z.of_nat (S j) * PGSIZE = a + PGSIZE) as Es by (unfold a; lia).
    destruct (IH (S j) (<[j := q]> phys) s3) as (r & ph & s4 & E & H4); rewrite ?Es in *; try done; try lia.
    + rewrite length_insert. lia.
    + apply (grown_map kend pt shm_perm shm_perm_leaf s0 newshm a s q s2); [lia|done|lia|lia|done..].
    + assert ((j < length phys)%nat) as Hjl.
      { destruct (decide (j < length phys)%nat) as [|Hge]; [done|exfalso].
        assert (Z.of_nat (length phys) * PGSIZE ≤ Z.of_nat j * PGSIZE) by (apply Z.mul_le_mono_nonneg_r; [done|lia]). lia. }
      apply (lists_pages_snoc newshm j phys s s3 q); [done|lia|fold a; lia|done|apply (ko_pos kend s), G|apply Hf|done|].
      intros va Hva. rewrite Hm, (fz_lpte _ _ _ _ _ Hf) by done. done.
    + exists r, ph, s4. split; [exact E|exact H4].
  - change (negb (-1 =? 0)) with true. cbv iota.
    destruct (undo_frame kend pt s q s2 s3 (gw_pt _ _ _ _ _ _ _ G) Hf F) as (s4 & E4 & F4 & Hl4). rewrite (bind_Ret _ _ _ _ _ E4).
    destruct (Hback s4 phys) as (r & ph & s5 & E & ? & ?); [|exists r, ph, s5; split; [exact E|by right]].
    apply (grown_frame kend pt shm_perm shm_perm_leaf s0 newshm a s); [done..|]. intros va Hva. by rewrite Hl4, Hm, (fz_lpte _ _ _ _ _ Hf).
Qed.
End proofs.

(** ** Properties of sharemem.c *)

Lemma land_fff a : Z.land a 0xFFF = a mod PGSIZE.
Proof. change 0xFFF with (Z.ones 12). by rewrite Z.land_ones. Qed.

(** Creating a segment is all or nothing: [allocshm] maps fresh zeroed
    pages over the whole range between the new and the old boundary and records
    their physical addresses in order, or it returns 0 with the mappings,
    references and contents of the address space as they were and every page
    given back but the table pages it added. *)
Theorem allocshm_all_or_nothing kend pt oldshm newshm sz phys s :
  k_ok kend s → pt_ok kend s pt → user_ok kend s pt →
  oldshm mod PGSIZE = 0 → newshm mod PGSIZE = 0 → PGSIZE ≤ newshm → sz ≤ newshm < oldshm → oldshm ≤ KERNBASE →
  oldshm - newshm ≤ Z.of_nat (length phys) * PGSIZE →
  (∀ va, newshm ≤ va < oldshm → has (lpte s pt va) PTE_V = false) →
  ∃ r phys' s', run (allocshm kend pt oldshm newshm sz phys) s (r, phys') s' ∧
    (r = newshm ∧ grown kend pt shm_perm s newshm oldshm s' ∧ lists_pages pt newshm oldshm phys' s' ∨
     r = 0 ∧ restored kend pt s s').
Proof.
  intros Hk Hok Hus Hao Han Hlo Hsz Hhi Hlen Hun. assert (KERNBASE = 2 ^ 31) as Ek by done. assert (0 < PGSIZE) by done.
  unfold allocshm, bad_shm_range. rewrite !land_fff, Hao, Han. change (negb (0 =? 0)) with false. cbn [orb].
  destruct (Z.ltb_spec KERNBASE oldshm); [lia|]. destruct (Z.ltb_spec newshm sz); [lia|]. cbn [orb].
  destruct (allocshm_loop_run kend pt s newshm oldshm (Z.to_nat ((oldshm - newshm) / PGSIZE + 1)) 0 phys s) as (r & ph & s' & E & H4);
    rewrite ?Z.mul_0_l, ?Z.add_0_r in *; try done; try lia.
  - unfold PGSIZE in *. Z.to_euclidean_division_equations. lia.
  - apply grown_refl; [done..|]. assert (KERNBASE ≤ USERTOP) by done. lia.
  - intros k Hk'. pose proof (Z.mul_nonneg_nonneg (Z.of_nat k) PGSIZE ltac:(lia) ltac:(done)). lia.
  - intros va _ Hva. by rewrite Hun.
  - exists r, ph, s'. split; [exact E|]. rewrite i32_small in H4 by lia. exact H4.
Qed.

(** [PA2PTE] of a page of RAM is not an address the kernel maps. *)
Lemma pa2pte_unmapped pa : KERNBASE ≤ pa < PHYSTOP → ∀ mmio k, kernel_load mmio (PA2PTE pa) k = Panic "kerneltrap".
Proof.
  intros Hpa mmio k. unfold kernel_load. assert (0x20000000 ≤ PA2PTE pa < 0x22000000) as Hr.
  { unfold PA2PTE. rewrite Z.shiftl_mul_pow2, Z.shiftr_div_pow2 by lia. unfold PHYSTOP, KERNBASE in Hpa.
    Z.to_euclidean_division_equations. lia. }
  assert (KERNBASE = 0x80000000) as Ek by done. destruct (Z.leb_spec KERNBASE (PA2PTE pa)); [lia|]. cbn [andb].
  unfold device_mapped. cbn [existsb fst snd]. unfold UART0, VIRTIO0, CLINT, PLIC, PGSIZE.
  repeat match goal with |- context [?x <=? ?y] => destruct (Z.leb_spec x y); try lia end;
  repeat match goal with |- context [?x <? ?y] => destruct (Z.ltb_spec x y); try lia end; done.
Qed.

Lemma run_get_shm k m s : shmtab s !! k = Some m → run (get_shm k) s m s.
Proof. intros H. unfold get_shm, gets. by rewrite H. Qed.

(** Dropping the last reference of a segment takes the physical address of its
    first page for the address of a PTE, which the kernel does not map: the
    kernel traps. *)
Lemma shmrm_traps kend mmio key m s :
  (key < 8)%nat → shmtab s !! key = Some m → 0 < sh_pagenum m →
  (∃ pa, sh_physaddr m !! 0%nat = Some pa ∧ KERNBASE ≤ pa < PHYSTOP) →
  shmrm kend mmio key s = Panic "kerneltrap".
Proof.
  intros Hkey Hm Hn (pa & Hpa & Hr). unfold shmrm. destruct (Z.leb_spec 8 (Z.of_nat key)); [lia|].
  rewrite (bind_Ret _ _ _ _ _ (run_get_shm key m s Hm)). destruct (Z.to_nat (sh_pagenum m)) as [|n] eqn:En; [lia|].
  cbn [for_loop]. unfold mbind, ST_bind. cbv beta zeta. rewrite Hpa. change (default 0 (Some pa)) with pa. destruct (Z.eqb_spec (PA2PTE pa) 0) as [E|_].
  - exfalso. revert E. unfold PA2PTE. rewrite Z.shiftl_mul_pow2, Z.shiftr_div_pow2 by lia. unfold PHYSTOP, KERNBASE in Hr.
    Z.to_euclidean_division_equations. lia.
  - unfold on_kmem. by rewrite pa2pte_unmapped.
Qed.

(** Attaching a segment that exists returns the boundary of the process and
    maps nothing: [mapshm] is called with equal bounds. *)
Lemma shmgetat_attach kend junk key num m s r s' :
  shmtab s !! Z.to_nat key = Some m → sh_refcount m ≠ 0 →
  run (shmgetat kend junk key num) s (Some r) s' → sm_mem s' = sm_mem s.
Proof.
  intros Hm Hr E. unfold shmgetat in E. destruct ((8 <=? key) || (MAX_SHM_PGNUM <? num)); [done|].
  rewrite (bind_Ret _ _ _ _ _ (run_get s)) in E. rewrite (bind_Ret _ _ _ _ _ (run_get_shm _ m s Hm)) in E. unfold mbind, ST_bind in E.
  destruct (Z.eqb_spec (sh_refcount m) 0); [done|]. unfold on_kmem, mapshm in E.
  destruct (bad_shm_range _ _ _); [by injection E|].
  rewrite Z.sub_diag in E. cbn [Z.to_nat mapshm_loop Z.add] in E. change (Z.to_nat (0 / PGSIZE + 1)) with 1%nat in E.
  cbn [mapshm_loop] in E. rewrite Z.ltb_irrefl in E. cbn in E. destruct (_ =? 0); [done|]. by injection E as _ <-.
Qed.

(** ** A segment on a concrete machine *)

Lemma allocshm_all_or_nothing_witness :
  ∃ s', run (allocshm kend_vm pt_vm KERNBASE (KERNBASE - 2 * PGSIZE) 0 [0; 0; 0; 0]) vs_root
          (KERNBASE - 2 * PGSIZE, [PHYSTOP - 2 * PGSIZE; PHYSTOP - 5 * PGSIZE; 0; 0]) s' ∧
        grown kend_vm pt_vm shm_perm vs_root (KERNBASE - 2 * PGSIZE) KERNBASE s'.
Proof.
  destruct vs_root_ok as (Hk & Hpt & Hus & Hl).
  destruct (allocshm_all_or_nothing kend_vm pt_vm KERNBASE (KERNBASE - 2 * PGSIZE) 0 [0; 0; 0; 0] vs_root) as (r & ph & s' & E & H).
  - exact Hk.
  - exact Hpt.
  - exact Hus.
  - reflexivity.
  - reflexivity.
  - apply Z.leb_le. reflexivity.
  - split; [apply Z.leb_le|apply Z.ltb_lt]; reflexivity.
  - apply Z.leb_le. reflexivity.
  - apply Z.leb_le. reflexivity.
  - intros va _. rewrite Hl. reflexivity.
  - assert (value (allocshm kend_vm pt_vm KERNBASE (KERNBASE - 2 * PGSIZE) 0 [0; 0; 0; 0]) vs_root
            = Some (KERNBASE - 2 * PGSIZE, [PHYSTOP - 2 * PGSIZE; PHYSTOP - 5 * PGSIZE; 0; 0])) as Ev by (vm_compute; reflexivity).
    unfold value in Ev. rewrite E in Ev. injection Ev as -> ->. exists s'. split; [exact E|].
    destruct H as [(_ & G & _)|[H _]]; [exact G|discriminate H].
Defined.
