(* ===== verification/File.v ===== *)
(** * file.c: open files

    The table of open files and the calls that dispatch on the kind of a file:
    pipes of [Pipe], inodes of [Fs] inside transactions of [Log], and devices
    and sockets, which are parameters.  A file, a pipe and an inode are indices
    into their tables. *)

From stdpp Require Import gmap.
From S2P Require Import Prelude Bytes BufCache Log LogDisk Pipe Fs.

Definition NFILE : nat := 100.
Definition NDEV : Z := 10.

Inductive ftype := FD_NONE | FD_PIPE | FD_INODE | FD_DEVICE | FD_SOCK.
#[export] Instance ftype_eq_dec : EqDecision ftype.
Proof. solve_decision. Defined.

Record file := File {
  f_type : ftype;
  f_ref : Z;
  f_readable : bool;
  f_writable : bool;
  f_pipe : nat;
  f_ip : nat;
  f_sock : Z;                           (* the address of the socket *)
  f_off : Z;
  f_major : Z;
  f_lock_type : Z;
}.
#[export] Instance file_fields : Fields file := λ f,
  File (f_type f) (f_ref f) (f_readable f) (f_writable f) (f_pipe f) (f_ip f) (f_sock f) (f_off f) (f_major f) (f_lock_type f).

Definition file0 : file := File FD_NONE 0 false false 0 0 0 0 0 0.

(** ** The table *)

Definition filealloc : ST (list file) (option nat) :=
  t ← get;
  match findi (λ f, f_ref f =? 0) t with
  | Some f => _ ← modify (alter (λ x, x <| f_ref := 1 |>) f); mret (Some f)
  | None => mret None
  end.

Definition filedup (f : nat) : ST (list file) nat :=
  t ← get;
  if f_ref (default file0 (t !! f)) <? 1 then panic "filedup"
  else _ ← modify (alter (λ x, x <| f_ref ::= λ r, i32 (r + 1) |>) f); mret f.

(** The part of [fileclose] under the lock: the copy [ff] when the last
    reference goes. *)
Definition fileclose_ref (f : nat) : ST (list file) (option file) :=
  t ← get;
  if f_ref (default file0 (t !! f)) <? 1 then panic "fileclose"
  else
    _ ← modify (alter (λ x, x <| f_ref ::= λ r, i32 (r - 1) |>) f);
    t ← get;
    let ff := default file0 (t !! f) in
    if 0 <? f_ref ff then mret None
    else
      _ ← modify (alter (λ x, x <| f_ref := 0 |> <| f_type := FD_NONE |>) f);
      mret (Some ff).

(** ** The calls *)

Record fdstate (C : Type) := FdState {
  ftable : list file;
  pipes : list pipe;
  fd_fs : fstate (lstate C);
  fd_killed : bool;                     (* myproc()->killed *)
}.
Arguments FdState {C} ftable pipes fd_fs fd_killed.
Arguments ftable {C} _.
Arguments pipes {C} _.
Arguments fd_fs {C} _.
Arguments fd_killed {C} _.
#[export] Instance fdstate_fields C : Fields (fdstate C) := λ s, FdState (ftable s) (pipes s) (fd_fs s) (fd_killed s).

Section code.
Context {C : Type} `{!BufCache C}.
Abbreviation FdS := (fdstate C).

(** The devices by major number and the sockets. *)
Context (dev_read dev_write : Z → option (Z → Z → ST FdS Z)).
Context (sockread sockwrite : Z → Z → Z → ST FdS Z) (sockclose : Z → ST FdS ()).

Definition on_ftable {A} (m : ST (list file) A) : ST FdS A := λ s,
  match m (ftable s) with
  | Ret (a, t) => Ret (a, s <| ftable := t |>)
  | Panic msg => Panic msg
  | Blocks => Blocks
  end.
Definition on_fs {A} (m : ST (fstate (lstate C)) A) : ST FdS A := λ s,
  match m (fd_fs s) with
  | Ret (a, x) => Ret (a, s <| fd_fs := x |>)
  | Panic msg => Panic msg
  | Blocks => Blocks
  end.
Definition the_file (f : nat) : ST FdS file := gets (λ s, default file0 (ftable s !! f)).
Definition the_pipe (p : nat) : ST FdS pipe := gets (λ s, default (pipe_init []) (pipes s !! p)).
Definition add_off (f : nat) (r : Z) : ST FdS () :=
  modify (λ s, s <| ftable ::= alter (λ x, x <| f_off ::= λ o, u32 (o + r) |>) f |>).

Definition fileclose (f : nat) : ST FdS () :=
  ff ← on_ftable (fileclose_ref f);
  match ff with
  | None => mret ()
  | Some ff =>
      match f_type ff with
      | FD_PIPE => modify (λ s, s <| pipes ::= alter (λ p, (pipeclose (f_writable ff) p).1) (f_pipe ff) |>)
      | FD_INODE | FD_DEVICE =>
          _ ← on_fs (on_disk begin_op);
          _ ← on_fs (iput (f_ip ff));
          on_fs (on_disk end_op)
      | FD_SOCK => sockclose (f_sock ff)
      | FD_NONE => mret ()
      end
  end.

(** [struct stat] as its bytes: dev, ino, type, mode, nlink, padding, size. *)
Fixpoint le_bytes (n : nat) (v : Z) : list Z :=
  match n with
  | O => []
  | S n' => v mod 256 :: le_bytes n' (v / 256)
  end.
Definition stat_bytes (st : stat) : list Z :=
  le_bytes 4 (st_dev st) ++ le_bytes 4 (st_ino st) ++ le_bytes 1 (st_type st) ++ le_bytes 1 (st_mode st) ++
  le_bytes 2 (st_nlink st) ++ le_bytes 4 0 ++ le_bytes 8 (st_size st).

Definition filestat (f : nat) (addr : Z) : ST FdS Z :=
  x ← the_file f;
  match f_type x with
  | FD_INODE | FD_DEVICE =>
      _ ← on_fs (ilock (f_ip x));
      st ← on_fs (stati (f_ip x));
      _ ← on_fs (iunlock (f_ip x));
      ok ← on_fs (either_copyout true addr (stat_bytes st));
      mret (if (ok : bool) then 0 else -1)
  | _ => mret (-1)
  end.

Definition fileread (f : nat) (addr n : Z) : ST FdS Z :=
  x ← the_file f;
  if negb (f_readable x) then mret (-1)
  else match f_type x with
  | FD_PIPE =>
      p ← the_pipe (f_pipe x);
      s ← get;
      let '(res, p', um') := piperead (um (fd_fs s)) addr n (fd_killed s) p in
      match res with
      | PSleep _ => blocks
      | PRet r =>
          _ ← modify (λ s, s <| pipes ::= <[f_pipe x := p']> |> <| fd_fs ::= λ fs, fs <| um := um' |> |>);
          mret r
      end
  | FD_DEVICE =>
      if (f_major x <? 0) || (NDEV <=? f_major x) then mret (-1)
      else match dev_read (f_major x) with
           | None => mret (-1)
           | Some read => read addr n
           end
  | FD_INODE =>
      _ ← on_fs (ilock (f_ip x));
      i ← on_fs (the_inode (f_ip x));
      if Z.land (i_mode i) 1 =? 0 then
        _ ← on_fs (iunlock (f_ip x));
        mret (-1)
      else
        r ← on_fs (readi (f_ip x) true addr (f_off x) (u32 n));
        _ ← (if 0 <? r then add_off f r else mret ());
        _ ← on_fs (iunlock (f_ip x));
        mret r
  | FD_SOCK => sockread (f_sock x) addr n
  | FD_NONE => panic "fileread"
  end.

Definition max_write : Z := (MAXOPBLOCKS - 1 - 1 - 2) / 2 * Z.of_nat BSIZE.

(** The loop of [filewrite] from [i]; the result is the final [i], or [None]
    where the mode forbids writing. *)
Fixpoint filewrite_loop (fuel : nat) (f : nat) (addr i n : Z) : ST FdS (option Z) :=
  if i <? n then
    match fuel with
    | O => mret (Some i)
    | S fuel' =>
        x ← the_file f;
        let n1 := Z.min (n - i) max_write in
        _ ← on_fs (on_disk begin_op);
        _ ← on_fs (ilock (f_ip x));
        ino ← on_fs (the_inode (f_ip x));
        if Z.land (i_mode ino) 2 =? 0 then
          _ ← on_fs (iunlock (f_ip x));
          _ ← on_fs (on_disk end_op);
          mret None
        else
          r ← on_fs (writei (f_ip x) true (u64 (addr + i)) (f_off x) n1);
          _ ← (if 0 <? r then add_off f r else mret ());
          _ ← on_fs (iunlock (f_ip x));
          _ ← on_fs (on_disk end_op);
          if r <? 0 then mret (Some i)
          else if negb (r =? n1) then panic "short filewrite"
          else filewrite_loop fuel' f addr (i + r) n
    end
  else mret (Some i).

Definition filewrite (f : nat) (addr n : Z) : ST FdS Z :=
  x ← the_file f;
  if negb (f_writable x) then mret (-1)
  else match f_type x with
  | FD_PIPE =>
      p ← the_pipe (f_pipe x);
      s ← get;
      let '(res, p') := pipewrite (um (fd_fs s)) addr n (fd_killed s) p in
      match res with
      | PSleep _ => blocks
      | PRet r => _ ← modify (λ s, s <| pipes ::= <[f_pipe x := p']> |>); mret r
      end
  | FD_DEVICE =>
      if (f_major x <? 0) || (NDEV <=? f_major x) then mret (-1)
      else match dev_write (f_major x) with
           | None => mret (-1)
           | Some write => write addr n
           end
  | FD_INODE =>
      i ← filewrite_loop (Z.to_nat (n / max_write + 1)) f addr 0 n;
      mret (match i with None => -1 | Some i => if i =? n then n else -1 end)
  | FD_SOCK => sockwrite (f_sock x) addr n
  | FD_NONE => panic "filewrite"
  end.
End code.

(** ** The table counts references *)

(** The calls of the rest of the kernel on the table, with the number of
    references of each file that it holds; a holder may set the other fields. *)
Inductive file_step : list file * list Z → list file * list Z → Prop :=
| fs_alloc t f t' own : run filealloc t (Some f) t' → file_step (t, own) (t', <[f := 1]> own)
| fs_none t t' own : run filealloc t None t' → file_step (t, own) (t', own)
| fs_dup t f t' own n :
    own !! f = Some n → 0 < n < 2 ^ 31 - 1 → run (filedup f) t f t' → file_step (t, own) (t', <[f := n + 1]> own)
| fs_close t f ff t' own n :
    own !! f = Some n → 0 < n → run (fileclose_ref f) t ff t' → file_step (t, own) (t', <[f := n - 1]> own)
| fs_set t f g own n :
    own !! f = Some n → 0 < n → (∀ x, f_ref (g x) = f_ref x) → file_step (t, own) (alter g f t, own).

Definition table_ok (t : list file) (own : list Z) : Prop :=
  f_ref <$> t = own ∧ Forall (λ n, 0 ≤ n < 2 ^ 31) own.

Lemma table_lookup t own f n : table_ok t own → own !! f = Some n → ∃ x, t !! f = Some x ∧ f_ref x = n ∧ 0 ≤ n < 2 ^ 31.
Proof.
  intros [<- Hr] Hn. rewrite Forall_lookup in Hr. specialize (Hr f n Hn). rewrite list_lookup_fmap in Hn.
  destruct (t !! f) as [x|]; [|done]. injection Hn as <-. by exists x.
Qed.

Lemma table_set t own f x g m :
  table_ok t own → t !! f = Some x → f_ref (g x) = m → 0 ≤ m < 2 ^ 31 → table_ok (alter g f t) (<[f := m]> own).
Proof.
  intros [<- Hr] Hx Hm Hb. split; [|by apply Forall_insert]. by rewrite (alter_insert g t f x Hx), list_fmap_insert, Hm.
Qed.

Lemma filealloc_run t :
  (∃ f x, t !! f = Some x ∧ f_ref x = 0 ∧ run filealloc t (Some f) (alter (λ x, x <| f_ref := 1 |>) f t)) ∨
  (run filealloc t None t ∧ ∀ f x, t !! f = Some x → f_ref x ≠ 0).
Proof.
  unfold filealloc. rewrite (bind_Ret _ _ _ _ _ (run_get t)). destruct (findi _ t) as [f|] eqn:E.
  - left. destruct (findi_lookup _ _ _ E) as (x & Hx & Hz%Z.eqb_eq). by exists f, x.
  - right. split; [done|]. intros f x Hx. apply Z.eqb_neq. by apply (proj1 (findi_None _ t) E f x).
Qed.

Lemma filedup_run t f x :
  t !! f = Some x → 0 < f_ref x < 2 ^ 31 - 1 → run (filedup f) t f (alter (λ x, x <| f_ref ::= λ r, i32 (r + 1) |>) f t).
Proof.
  intros Hx Hr. unfold filedup. rewrite (bind_Ret _ _ _ _ _ (run_get t)), Hx. change (default file0 (Some x)) with x.
  by destruct (Z.ltb_spec (f_ref x) 1); [lia|].
Qed.

(** The file as the last [fileclose] leaves it. *)
Definition closed (x : file) : file := x <| f_ref := 0 |> <| f_type := FD_NONE |>.

Lemma fileclose_ref_run t f x :
  t !! f = Some x → 0 < f_ref x < 2 ^ 31 →
  run (fileclose_ref f) t (if decide (f_ref x = 1) then Some (x <| f_ref := 0 |>) else None)
    (alter (λ y, if decide (f_ref x = 1) then closed y else y <| f_ref ::= λ r, r - 1 |>) f t).
Proof.
  intros Hx Hr. unfold fileclose_ref. rewrite (bind_Ret _ _ _ _ _ (run_get t)), Hx.
  change (default file0 (Some x)) with x. destruct (Z.ltb_spec (f_ref x) 1); [lia|].
  rewrite (bind_Ret _ _ _ _ _ (run_modify _ _)), (bind_Ret _ _ _ _ _ (run_get _)), list_lookup_alter_eq, Hx.
  cbn [fmap option_fmap option_map]. match goal with |- context [default file0 (Some ?y)] => change (default file0 (Some y)) with y end.
  cbn [f_ref update field_set]. rewrite i32_small by lia.
  destruct (decide (f_ref x = 1)) as [E1|E1].
  - rewrite E1. change (0 <? 1 - 1) with false. cbv iota. rewrite (bind_Ret _ _ _ _ _ (run_modify _ _)).
    unfold mret, ST_ret. rewrite !(alter_insert _ _ _ _ Hx), (alter_insert _ _ f _ (list_lookup_insert_eq _ _ _ ltac:(by eapply lookup_lt_Some))).
    by rewrite list_insert_insert_eq.
  - destruct (Z.ltb_spec 0 (f_ref x - 1)); [|lia]. unfold mret, ST_ret. rewrite !(alter_insert _ _ _ _ Hx).
    cbn [f_ref update field_set]. by rewrite i32_small by lia.
Qed.

Lemma file_step_ok t own t' own' : table_ok t own → file_step (t, own) (t', own') → table_ok t' own'.
Proof.
  intros Hok H. inversion H; subst.
  - rename select (run filealloc _ _ _) into E. destruct (filealloc_run t) as [(g & x & Hx & _ & E')|[E' _]]; rewrite E in E'; [|done].
    injection E' as -> ->. by apply (table_set t own g x).
  - rename select (run filealloc _ _ _) into E. destruct (filealloc_run t) as [(g & x & Hx & _ & E')|[E' _]]; rewrite E in E'; [done|].
    by injection E' as ->.
  - rename select (run (filedup _) _ _ _) into E. destruct (table_lookup t own f n) as (x & Hx & <- & _); [done..|].
    rewrite (filedup_run t f x Hx) in E by lia. injection E as <-.
    apply (table_set t own f x); [done|done|cbn; apply i32_small; lia|lia].
  - rename select (run (fileclose_ref _) _ _ _) into E. destruct (table_lookup t own f n) as (x & Hx & <- & ?); [done..|].
    rewrite (fileclose_ref_run t f x Hx) in E by lia. injection E as <- <-.
    apply (table_set t own f x); [done|done|case_decide as E1; cbn; lia|lia].
  - destruct (table_lookup t own' f n) as (x & Hx & Hn & ?); [done..|].
    replace own' with (<[f := n]> own') by (by rewrite list_insert_id).
    apply (table_set t own' f x); [done|done|by rewrite <- Hn|lia].
Qed.

(** Starting from the empty table, whatever the kernel does with it:
    [filealloc] returns a file that nobody references and fails only when all
    NFILE files are referenced; duplicating or closing a file that is held never
    panics; and a close hands the file over for release exactly when it was the
    last reference, with the contents the file had, leaving the entry free. *)
Theorem ftable_exclusive t own :
  rtc file_step (replicate NFILE file0, replicate NFILE 0) (t, own) →
  f_ref <$> t = own ∧
  (∀ f t', run filealloc t (Some f) t' → own !! f = Some 0) ∧
  (∀ t', run filealloc t None t' → ∀ f n, own !! f = Some n → 0 < n) ∧
  (∀ f n, own !! f = Some n → 0 < n < 2 ^ 31 - 1 → ∃ t', run (filedup f) t f t') ∧
  (∀ f n, own !! f = Some n → 0 < n → ∃ x t', t !! f = Some x ∧
     run (fileclose_ref f) t (if decide (n = 1) then Some (x <| f_ref := 0 |>) else None) t' ∧
     (n = 1 → t' !! f = Some (closed x)) ∧ ∀ g, g ≠ f → t' !! g = t !! g).
Proof.
  intros H. assert (table_ok t own) as Hok.
  { change (table_ok (t, own).1 (t, own).2). assert (table_ok (replicate NFILE file0) (replicate NFILE 0)) as H0.
    { split; [by rewrite fmap_replicate|]. by apply Forall_replicate. }
    revert H0. change (replicate NFILE file0) with (replicate NFILE file0, replicate NFILE 0).1 at 1.
    change (replicate NFILE 0) with (replicate NFILE file0, replicate NFILE 0).2 at 2.
    induction H as [|[t1 o1] [t2 o2] z Hs _ IH]; [done|]. intros H1. apply IH. by eapply file_step_ok. }
  split; [apply Hok|]. split_and!.
  - intros f t' E. destruct (filealloc_run t) as [(g & x & Hx & Hz & E')|[E' _]]; rewrite E in E'; [|done].
    injection E' as -> _. destruct Hok as [<- _]. by rewrite list_lookup_fmap, Hx, <- Hz.
  - intros t' E f n Hn. destruct (table_lookup t own f n Hok Hn) as (x & Hx & <- & ?).
    destruct (filealloc_run t) as [(g & y & _ & _ & E')|[_ Hall]]; [by rewrite E in E'|]. specialize (Hall f x Hx). lia.
  - intros f n Hn Hr. destruct (table_lookup t own f n Hok Hn) as (x & Hx & <- & ?). eexists. by apply (filedup_run t f x).
  - intros f n Hn Hr. destruct (table_lookup t own f n Hok Hn) as (x & Hx & <- & ?). eexists x, _.
    split_and!; [done|apply fileclose_ref_run; [done|lia]| |].
    + intros E1. rewrite list_lookup_alter_eq, Hx. cbn [fmap option_fmap option_map]. by rewrite decide_True.
    + intros g Hg. by apply list_lookup_alter_ne.
Qed.

Lemma ftable_exclusive_witness :
  ∃ t', run (fileclose_ref 0) (after (filedup 0) (after filealloc (replicate NFILE file0))) None t'.
Proof.
  destruct (ftable_exclusive (after (filedup 0) (after filealloc (replicate NFILE file0)))
              (<[0%nat := 1 + 1]> (<[0%nat := 1]> (replicate NFILE 0))))
    as (_ & _ & _ & _ & H).
  - eapply rtc_l; [apply (fs_alloc _ 0), run_after; reflexivity|].
    apply rtc_once. apply (fs_dup _ 0%nat _ (<[0%nat := 1]> (replicate NFILE 0)) 1); [reflexivity|lia|apply run_after; reflexivity].
  - destruct (H 0%nat (1 + 1) eq_refl ltac:(lia)) as (x & t' & _ & E & _). exists t'. exact E.
Defined.
