(* ===== verification/Mbuf.v ===== *)
(** * net.h and net.c: packet buffers, byte order and the checksum

    A packet buffer is a page that starts with [struct mbuf].  Its bytes are
    those from [buf] to the end of the page, of which the first [MBUF_SIZE] are
    the array of the struct; [head] is an offset into them.  The four calls that
    move the ends of a packet are code over one buffer.  The Internet checksum
    is compared with its definition: the one's complement of the sum of the
    16-bit words. *)

From S2P Require Import Prelude Bytes PageAlloc.

(** ** Packet buffers *)

Definition MBUF_SIZE : Z := 2048.
Definition MBUF_DEFAULT_HEADROOM : Z := 128.

(** The offset of [buf] in [struct mbuf], and the bytes from there to the end
    of the page. *)
Definition MBUF_BUF : Z := 20.
Definition MBUF_ROOM : Z := PGSIZE - MBUF_BUF.
Arguments MBUF_SIZE : simpl never.
Arguments MBUF_ROOM : simpl never.

Record mbuf := Mbuf {
  m_next : Z;                           (* the address of the next buffer, or 0 *)
  m_head : Z;
  m_len : Z;
  m_buf : list Z;
}.
#[export] Instance mbuf_fields : Fields mbuf := λ m, Mbuf (m_next m) (m_head m) (m_len m) (m_buf m).

Definition mbufpull (len : Z) : ST mbuf (option Z) :=
  m ← get;
  if m_len m <? len then mret None
  else
    _ ← modify (λ m, m <| m_len ::= λ l, l - len |> <| m_head ::= λ h, h + len |>);
    mret (Some (m_head m)).

Definition mbufpush (len : Z) : ST mbuf Z :=
  _ ← modify (λ m, m <| m_head ::= λ h, h - len |>);
  m ← get;
  if m_head m <? 0 then panic "mbufpush"
  else
    _ ← modify (λ m, m <| m_len ::= λ l, u32 (l + len) |>);
    mret (m_head m).

Definition mbufput (len : Z) : ST mbuf Z :=
  m ← get;
  let tmp := m_head m + m_len m in
  _ ← modify (λ m, m <| m_len ::= λ l, u32 (l + len) |>);
  m ← get;
  if MBUF_SIZE <? m_len m then panic "mbufput" else mret tmp.

Definition mbuftrim (len : Z) : ST mbuf (option Z) :=
  m ← get;
  if m_len m <? len then mret None
  else
    _ ← modify (λ m, m <| m_len ::= λ l, l - len |>);
    m ← get;
    mret (Some (m_head m + m_len m)).

(** The page of a new buffer: [kalloc] fills pages with 5. *)
Definition mbuf_new (headroom : Z) : mbuf :=
  Mbuf 0 headroom 0 (replicate (Z.to_nat MBUF_SIZE) 0 ++ replicate (Z.to_nat (MBUF_ROOM - MBUF_SIZE)) 5).

(** The bytes of the packet. *)
Definition packet (m : mbuf) : list Z := take (Z.to_nat (m_len m)) (drop (Z.to_nat (m_head m)) (m_buf m)).

(** ** Byte order *)

Definition bswaps (val : Z) : Z :=
  u16 (Z.lor (Z.shiftl (Z.land val 0x00ff) 8) (Z.shiftr (Z.land val 0xff00) 8)).
Definition bswapl (val : Z) : Z :=
  u32 (Z.lor (Z.lor (Z.lor (Z.shiftl (Z.land val 0x000000ff) 24) (Z.shiftl (Z.land val 0x0000ff00) 8))
    (Z.shiftr (Z.land val 0x00ff0000) 8)) (Z.shiftr (Z.land val 0xff000000) 24)).

Abbreviation ntohs := bswaps (only parsing).
Abbreviation htons := bswaps (only parsing).
Abbreviation ntohl := bswapl (only parsing).
Abbreviation htonl := bswapl (only parsing).

(** ** The checksum *)

(** The loop over the words and the odd byte. *)
Fixpoint cksum_loop (w : list Z) (sum : Z) : Z :=
  match w with
  | a :: b :: w => cksum_loop w (u32 (sum + (a + 256 * b)))
  | [a] => u32 (sum + a)
  | [] => sum
  end.

Definition in_cksum (d : list Z) : Z :=
  let sum := cksum_loop d 0 in
  let sum := u32 (Z.land sum 0xffff + Z.shiftr sum 16) in
  let sum := u32 (sum + Z.shiftr sum 16) in
  u16 (Z.lnot sum).

(** ** Laws of the buffer calls *)

(** The packet lies in the page of its buffer. *)
Definition mbuf_ok (m : mbuf) : Prop :=
  0 ≤ m_head m ∧ 0 ≤ m_len m ∧ m_head m + m_len m ≤ MBUF_ROOM ∧
  length (m_buf m) = Z.to_nat MBUF_ROOM ∧ is_bytes (m_buf m).

Lemma mbuf_new_ok h : 0 ≤ h ≤ MBUF_SIZE → mbuf_ok (mbuf_new h).
Proof.
  intros Hh. unfold mbuf_ok, mbuf_new. cbn [m_head m_len m_buf]. change MBUF_ROOM with 4076. change MBUF_SIZE with 2048 in *.
  rewrite length_app, !length_replicate. split_and!; try lia.
  apply Forall_app. split; apply Forall_replicate; unfold is_byte; lia.
Qed.

Lemma length_packet m : mbuf_ok m → length (packet m) = Z.to_nat (m_len m).
Proof. intros (? & ? & ? & Hl & _). unfold packet. rewrite length_take, length_drop, Hl. lia. Qed.

Lemma mbufpull_run len m : 0 ≤ len ≤ m_len m → mbuf_ok m →
  let m' := m <| m_len ::= λ l, l - len |> <| m_head ::= λ h, h + len |> in
  run (mbufpull len) m (Some (m_head m)) m' ∧ mbuf_ok m' ∧ packet m' = drop (Z.to_nat len) (packet m).
Proof.
  intros Hl (? & ? & ? & ? & ?). cbv zeta. split_and!.
  - unfold mbufpull. step_with (run_get m). by destruct (Z.ltb_spec (m_len m) len); [lia|].
  - split_and!; cbn; (lia || done).
  - unfold packet. cbn. rewrite skipn_firstn_comm, drop_drop. f_equal; [lia|]. f_equal. lia.
Qed.

Lemma mbufpull_short len m : m_len m < len → run (mbufpull len) m None m.
Proof. intros Hl. unfold mbufpull. step_with (run_get m). by destruct (Z.ltb_spec (m_len m) len); [|lia]. Qed.

Lemma mbuftrim_run len m : 0 ≤ len ≤ m_len m → mbuf_ok m →
  let m' := m <| m_len ::= λ l, l - len |> in
  run (mbuftrim len) m (Some (m_head m + m_len m - len)) m' ∧ mbuf_ok m' ∧ packet m' = take (Z.to_nat (m_len m - len)) (packet m).
Proof.
  intros Hl (? & ? & ? & ? & ?). cbv zeta. split_and!.
  - unfold mbuftrim. step_with (run_get m). destruct (Z.ltb_spec (m_len m) len); [lia|].
    step_with (run_modify (λ m, m <| m_len ::= λ l, l - len |>) m). step_with (run_get (m <| m_len ::= λ l, l - len |>)).
    unfold mret, ST_ret. cbn. repeat f_equal. lia.
  - split_and!; cbn; (lia || done).
  - unfold packet. cbn. rewrite take_take. f_equal. lia.
Qed.

Lemma mbufpush_run len m : 0 ≤ len ≤ m_head m → mbuf_ok m →
  let m' := m <| m_head ::= λ h, h - len |> <| m_len ::= λ l, l + len |> in
  run (mbufpush len) m (m_head m - len) m' ∧ mbuf_ok m'.
Proof.
  intros Hl (? & ? & ? & ? & ?). change MBUF_ROOM with 4076 in *. cbv zeta. split.
  - unfold mbufpush. step_with (run_modify (λ m, m <| m_head ::= λ h, h - len |>) m).
    step_with (run_get (m <| m_head ::= λ h, h - len |>)). cbn [m_head update field_set].
    destruct (Z.ltb_spec (m_head m - len) 0); [lia|].
    unfold modify, mbind, ST_bind, mret, ST_ret. cbn. by rewrite u32_small by lia.
  - split_and!; cbn; change MBUF_ROOM with 4076; (lia || done).
Qed.

Lemma mbufput_run len m : 0 ≤ len → m_len m + len ≤ MBUF_SIZE → 0 ≤ m_len m →
  run (mbufput len) m (m_head m + m_len m) (m <| m_len ::= λ l, l + len |>).
Proof.
  change MBUF_SIZE with 2048. intros. unfold mbufput. step_with (run_get m).
  unfold modify, get, mbind, ST_bind, mret, ST_ret. cbn. rewrite u32_small by lia. change MBUF_SIZE with 2048.
  by destruct (Z.ltb_spec 2048 (m_len m + len)); [lia|].
Qed.

(** ** Byte order as arithmetic *)

Lemma land_byte v k : 0 ≤ k → Z.land v (Z.shiftl 255 k) = (v / 2 ^ k) mod 256 * 2 ^ k.
Proof.
  intros Hk. rewrite <- Z.shiftl_mul_pow2 by lia. change 256 with (2 ^ 8). rewrite <- Z.land_ones by lia.
  rewrite <- Z.shiftr_div_pow2 by lia. apply Z.bits_inj'. intros n Hn. rewrite Z.land_spec, !Z.shiftl_spec by lia.
  destruct (Z.ltb_spec n k) as [|].
  - rewrite !(Z.testbit_neg_r _ (n - k)) by lia. by rewrite andb_false_r.
  - rewrite Z.land_spec, Z.shiftr_spec by lia. by replace (n - k + k) with n by lia.
Qed.

Lemma lor_add a b n : 0 ≤ n → 0 ≤ b < 2 ^ n → Z.lor (a * 2 ^ n) b = a * 2 ^ n + b.
Proof.
  intros Hn Hb. assert (Z.land (a * 2 ^ n) b = 0) as H0.
  { rewrite <- Z.shiftl_mul_pow2 by lia. apply Z.bits_inj'. intros k Hk. rewrite Z.land_spec, Z.shiftl_spec, Z.bits_0 by lia.
    destruct (Z.ltb_spec k n); [by rewrite Z.testbit_neg_r by lia|].
    by rewrite (proj2 (proj1 (word_bits n b Hn) Hb) k), andb_false_r. }
  by rewrite Z.add_nocarry_lxor, Z.lxor_lor.
Qed.

Lemma bswaps_eq v : bswaps v = v mod 256 * 256 + (v / 256) mod 256.
Proof.
  unfold bswaps. change 0xff with (Z.shiftl 255 0). change 0xff00 with (Z.shiftl 255 8).
  rewrite !land_byte, Z.shiftl_mul_pow2, Z.shiftr_div_pow2, Z.div_mul by lia.
  change (2 ^ 0) with 1. rewrite Z.div_1_r, Z.mul_1_r.
  pose proof (Z.mod_pos_bound v 256). pose proof (Z.mod_pos_bound (v / 2 ^ 8) 256).
  rewrite lor_add by lia. unfold u16. rewrite Z.mod_small by lia. done.
Qed.

Lemma bswapl_eq v : bswapl v =
  v mod 256 * 2 ^ 24 + (v / 2 ^ 8) mod 256 * 2 ^ 16 + (v / 2 ^ 16) mod 256 * 2 ^ 8 + (v / 2 ^ 24) mod 256.
Proof.
  unfold bswapl. change 0xff with (Z.shiftl 255 0). change 0xff00 with (Z.shiftl 255 8).
  change 0xff0000 with (Z.shiftl 255 16). change 0xff000000 with (Z.shiftl 255 24).
  rewrite !land_byte, !Z.shiftl_mul_pow2, !Z.shiftr_div_pow2, Z.div_mul by lia. change (2 ^ 0) with 1. rewrite Z.div_1_r, Z.mul_1_r.
  replace ((v / 2 ^ 16) mod 256 * 2 ^ 16 / 2 ^ 8) with ((v / 2 ^ 16) mod 256 * 2 ^ 8)
    by (generalize ((v / 2 ^ 16) mod 256); intros; Z.to_euclidean_division_equations; lia).
  replace ((v / 2 ^ 8) mod 256 * 2 ^ 8 * 2 ^ 8) with ((v / 2 ^ 8) mod 256 * 2 ^ 16) by lia.
  pose proof (Z.mod_pos_bound v 256). pose proof (Z.mod_pos_bound (v / 2 ^ 8) 256).
  pose proof (Z.mod_pos_bound (v / 2 ^ 16) 256). pose proof (Z.mod_pos_bound (v / 2 ^ 24) 256).
  rewrite (lor_add (v mod 256) _ 24) by lia.
  replace (v mod 256 * 2 ^ 24 + (v / 2 ^ 8) mod 256 * 2 ^ 16) with ((v mod 256 * 2 ^ 8 + (v / 2 ^ 8) mod 256) * 2 ^ 16) by lia.
  rewrite (lor_add _ _ 16) by lia.
  match goal with |- context [Z.lor ?a _] => replace a with ((v mod 256 * 2 ^ 16 + (v / 2 ^ 8) mod 256 * 2 ^ 8 + (v / 2 ^ 16) mod 256) * 2 ^ 8) by lia end.
  rewrite (lor_add _ _ 8) by lia. unfold u32. rewrite Z.mod_small by lia. lia.
Qed.

Lemma bswaps_range v : 0 ≤ bswaps v < 2 ^ 16.
Proof. apply Z.mod_pos_bound. lia. Qed.
Lemma bswapl_range v : 0 ≤ bswapl v < 2 ^ 32.
Proof. apply Z.mod_pos_bound. lia. Qed.

Lemma bswaps_bswaps v : 0 ≤ v < 2 ^ 16 → bswaps (bswaps v) = v.
Proof. intros Hv. rewrite !bswaps_eq. Z.to_euclidean_division_equations. lia. Qed.

(** The bytes of a field in the byte order of the network. *)
Lemma bswapl_bytes a b c d : is_byte a → is_byte b → is_byte c → is_byte d →
  bswapl (a * 2 ^ 24 + b * 2 ^ 16 + c * 2 ^ 8 + d) = d * 2 ^ 24 + c * 2 ^ 16 + b * 2 ^ 8 + a.
Proof.
  unfold is_byte. intros. rewrite bswapl_eq. repeat f_equal; Z.to_euclidean_division_equations; lia.
Qed.

Lemma bswapl_bswapl v : 0 ≤ v < 2 ^ 32 → bswapl (bswapl v) = v.
Proof.
  intros Hv. rewrite (bswapl_eq v), bswapl_bytes by (apply Z.mod_pos_bound; lia).
  Z.to_euclidean_division_equations. lia.
Qed.

(** ** The checksum as a sum

    [wsum] is the sum of the 16-bit words, [ones_sum] its residue modulo 65535
    as one's complement addition gives it: 0 only for the sum 0. *)

Fixpoint wsum (d : list Z) : Z :=
  match d with
  | a :: b :: d => a + 256 * b + wsum d
  | [a] => a
  | [] => 0
  end.
Definition ones_sum (w : Z) : Z := if w =? 0 then 0 else (w - 1) mod 65535 + 1.

(** Induction over a list two elements at a time. *)
Lemma pairs_ind {A} (P : list A → Prop) :
  P [] → (∀ a, P [a]) → (∀ a b d, P d → P (a :: b :: d)) → ∀ d, P d.
Proof. intros H0 H1 H2. fix IH 1. intros [|a [|b d]]; [done|apply H1|apply H2, IH]. Qed.

Lemma wsum_bound d : is_bytes d → 0 ≤ wsum d ≤ 65535 * ((Z.of_nat (length d) + 1) / 2).
Proof.
  induction d as [|a|a b d IH] using pairs_ind; intros Hd; cbn [wsum length]; [done| |].
  - apply Forall_inv in Hd. unfold is_byte in Hd. change ((Z.of_nat 1 + 1) / 2) with 1. lia.
  - inversion_clear Hd as [|? ? Ha Hd']. inversion_clear Hd' as [|? ? Hb Hd]. specialize (IH Hd). unfold is_byte in *.
    replace ((Z.of_nat (S (S (length d))) + 1) / 2) with ((Z.of_nat (length d) + 1) / 2 + 1); [lia|].
    Z.to_euclidean_division_equations. lia.
Qed.

Lemma cksum_loop_wsum d : is_bytes d → ∀ s, 0 ≤ s → s + wsum d < 2 ^ 32 → cksum_loop d s = s + wsum d.
Proof.
  induction d as [|a|a b d IH] using pairs_ind; intros Hd s Hs; cbn [wsum cksum_loop]; [lia| |].
  - apply Forall_inv in Hd. unfold is_byte in Hd. intros. by rewrite u32_small by lia.
  - inversion_clear Hd as [|? ? Ha Hd']. inversion_clear Hd' as [|? ? Hb Hd].
    intros Hlt. pose proof (wsum_bound d Hd). unfold is_byte in *. rewrite u32_small by lia. rewrite IH; [lia|done|lia|lia].
Qed.

(** Folding the carries twice leaves the one's complement sum. *)
Lemma fold_carries w : 0 ≤ w < 2 ^ 32 →
  let s := w mod 2 ^ 16 + w / 2 ^ 16 in 0 ≤ s < 2 ^ 17 ∧ (s + s / 2 ^ 16) mod 2 ^ 16 = ones_sum w.
Proof.
  intros Hw. cbv zeta. assert (w / 2 ^ 16 < 2 ^ 16) by (apply Z.div_lt_upper_bound; lia).
  pose proof (Z.mod_pos_bound w (2 ^ 16)). pose proof (Z.div_pos w (2 ^ 16)).
  split; [lia|]. unfold ones_sum. destruct (Z.eqb_spec w 0) as [->|]; [done|].
  pose proof (Z.div_mod w (2 ^ 16)) as Hdm. set (q := w / 2 ^ 16) in *. set (r := w mod 2 ^ 16) in *.
  replace (w - 1) with (2 ^ 16 * q + r - 1) by lia.
  destruct (decide (r + q < 2 ^ 16)).
  - rewrite (Z.div_small (r + q)), Z.add_0_r, Z.mod_small by lia.
    replace (2 ^ 16 * q + r - 1) with (r + q - 1 + q * 65535) by lia. rewrite Z_mod_plus_full, Z.mod_small; lia.
  - replace ((r + q) / 2 ^ 16) with 1 by (apply (Z.div_unique _ _ _ (r + q - 2 ^ 16)); lia).
    replace (2 ^ 16 * q + r - 1) with (r + q - 1 - 65535 + (q + 1) * 65535) by lia. rewrite Z_mod_plus_full.
    rewrite (Z.mod_small _ 65535) by lia.
    replace (r + q + 1) with (r + q + 1 - 2 ^ 16 + 1 * 2 ^ 16) by lia. rewrite Z_mod_plus_full, Z.mod_small; lia.
Qed.

Lemma ones_sum_range w : 0 ≤ w → 0 ≤ ones_sum w ≤ 65535.
Proof. unfold ones_sum. intros. case_match; [lia|]. pose proof (Z.mod_pos_bound (w - 1) 65535). lia. Qed.

Lemma ones_sum_full w : 0 ≤ w → ones_sum w = 65535 ↔ 0 < w ∧ (65535 | w).
Proof.
  unfold ones_sum. intros Hw. destruct (Z.eqb_spec w 0); [lia|]. split.
  - intros H. split; [lia|]. exists ((w - 1) / 65535 + 1). pose proof (Z.div_mod (w - 1) 65535). lia.
  - intros [_ [k ->]]. replace (k * 65535 - 1) with (65534 + (k - 1) * 65535) by lia. by rewrite Z_mod_plus_full.
Qed.

Lemma ones_sum_divide w : 0 ≤ w → (65535 | w - ones_sum w).
Proof.
  unfold ones_sum. intros Hw. destruct (Z.eqb_spec w 0) as [->|]; [by exists 0|].
  exists ((w - 1) / 65535). pose proof (Z.div_mod (w - 1) 65535). lia.
Qed.

Lemma in_cksum_eq d : is_bytes d → Z.of_nat (length d) ≤ 2 ^ 16 → in_cksum d = 65535 - ones_sum (wsum d).
Proof.
  intros Hd Hl. pose proof (wsum_bound d Hd) as Hb. assert (wsum d < 2 ^ 32) as Hlt.
  { assert ((Z.of_nat (length d) + 1) / 2 ≤ 2 ^ 15 + 1); [|lia]. apply Z.div_le_upper_bound; [lia|]. lia. }
  unfold in_cksum. rewrite cksum_loop_wsum by (done || lia). rewrite Z.add_0_l. change 0xffff with (Z.ones 16).
  rewrite Z.land_ones, !Z.shiftr_div_pow2 by lia. change (Z.ones 16) with 65535. destruct (fold_carries (wsum d) ltac:(lia)) as [Hs Hf].
  rewrite (u32_small (_ mod _ + _)) by lia. set (s := wsum d mod 2 ^ 16 + wsum d / 2 ^ 16) in *.
  assert (0 ≤ s / 2 ^ 16 < 2) by (split; [apply Z.div_pos; lia|apply Z.div_lt_upper_bound; lia]).
  rewrite u32_small by lia. rewrite <- Hf. unfold u16, Z.lnot.
  generalize (s + s / 2 ^ 16). intros z. pose proof (Z.mod_pos_bound z (2 ^ 16)). pose proof (Z.div_mod z (2 ^ 16)).
  replace (Z.pred (- z)) with (65535 - z mod 2 ^ 16 + (- (z / 2 ^ 16) - 1) * 2 ^ 16) by lia.
  rewrite Z_mod_plus_full. apply Z.mod_small. lia.
Qed.

Lemma is_bytes_word d1 a b d2 : is_bytes d1 → is_byte a → is_byte b → is_bytes d2 → is_bytes (d1 ++ [a; b] ++ d2).
Proof. intros. apply Forall_app; split; [done|]. constructor; [done|]. by constructor. Qed.

(** The word of two bytes at an even offset. *)
Lemma wsum_word d1 a b d2 : Nat.Even (length d1) → wsum (d1 ++ [a; b] ++ d2) = wsum d1 + (a + 256 * b) + wsum d2.
Proof.
  induction d1 as [|x|x y d IH] using pairs_ind; intros He; cbn [app wsum]; [lia|by apply Nat.even_spec in He|].
  specialize (IH ltac:(by apply Nat.Even_succ_succ)). cbn [app] in IH. lia.
Qed.

(** A header that carries its checksum passes the check of the receiver: the
    word of the checksum was 0 when the sum was taken. *)
Lemma cksum_accepts d1 d2 : is_bytes d1 → is_bytes d2 → Nat.Even (length d1) →
  Z.of_nat (length d1) + 2 + Z.of_nat (length d2) ≤ 2 ^ 16 →
  let c := in_cksum (d1 ++ [0; 0] ++ d2) in in_cksum (d1 ++ [c mod 256; c / 256] ++ d2) = 0.
Proof.
  intros H1 H2 He Hl c.
  pose proof (wsum_bound d1 H1) as [? _]. pose proof (wsum_bound d2 H2) as [? _].
  assert (is_byte 0) as Hz by (unfold is_byte; lia).
  assert (c = 65535 - ones_sum (wsum d1 + wsum d2)) as Ec.
  { unfold c. rewrite in_cksum_eq, (wsum_word _ _ _ _ He); [do 2 f_equal; lia| |rewrite !length_app; cbn; lia].
    by apply is_bytes_word. }
  pose proof (ones_sum_range (wsum d1 + wsum d2) ltac:(lia)) as Hr.
  assert (is_byte (c mod 256) ∧ is_byte (c / 256)) as [Hb0 Hb1].
  { unfold is_byte. split; [apply Z.mod_pos_bound; lia|]. split; [apply Z.div_pos; lia|apply Z.div_lt_upper_bound; lia]. }
  rewrite in_cksum_eq, (wsum_word _ _ _ _ He); [|by apply is_bytes_word|rewrite !length_app; cbn; lia].
  replace (c mod 256 + 256 * (c / 256)) with c by (pose proof (Z.div_mod c 256); lia).
  cut (ones_sum (wsum d1 + c + wsum d2) = 65535); [lia|]. apply ones_sum_full; [lia|].
  destruct (ones_sum_divide (wsum d1 + wsum d2) ltac:(lia)) as [k Hk]. split.
  - destruct (decide (wsum d1 + wsum d2 = 0)) as [E|]; [|lia]. rewrite E in Ec. change (ones_sum 0) with 0 in Ec. lia.
  - exists (k + 1). lia.
Qed.

(** C39. The Internet checksum of net.c: [in_cksum] is the one's complement of
    the one's complement sum of the 16-bit words; a header whose checksum field
    was filled in with it is accepted; and a header that is accepted is no
    longer accepted after one word of it has changed, the change between 0 and
    0xffff excepted. *)
Theorem in_cksum_correct d1 d2 a b :
  is_bytes (d1 ++ [a; b] ++ d2) → Nat.Even (length d1) → Z.of_nat (length (d1 ++ [a; b] ++ d2)) ≤ 2 ^ 16 →
  in_cksum (d1 ++ [a; b] ++ d2) = 65535 - ones_sum (wsum (d1 ++ [a; b] ++ d2)) ∧
  (let c := in_cksum (d1 ++ [0; 0] ++ d2) in in_cksum (d1 ++ [c mod 256; c / 256] ++ d2) = 0) ∧
  ∀ a' b', is_byte a' → is_byte b' → in_cksum (d1 ++ [a; b] ++ d2) = 0 → in_cksum (d1 ++ [a'; b'] ++ d2) = 0 →
    a' = a ∧ b' = b ∨ a + 256 * b = 0 ∧ a' + 256 * b' = 65535 ∨ a + 256 * b = 65535 ∧ a' + 256 * b' = 0.
Proof.
  intros Hd He Hl. pose proof (in_cksum_eq _ Hd Hl) as Heq. split; [done|].
  pose proof Hd as [H1 Hd2]%Forall_app. inversion_clear Hd2 as [|? ? Ha Hd3]. inversion_clear Hd3 as [|? ? Hb H2].
  rewrite !length_app in Hl. cbn [length] in Hl. split; [apply cksum_accepts; (done || lia)|].
  intros a' b' Ha' Hb' E E'. rewrite Heq in E. rewrite in_cksum_eq in E'.
  2:{ by apply is_bytes_word. }
  2:{ rewrite !length_app. cbn [length]. lia. }
  rewrite (wsum_word _ _ _ _ He) in E. rewrite (wsum_word _ _ _ _ He) in E'. pose proof (wsum_bound d1 H1) as [? _]. pose proof (wsum_bound d2 H2) as [? _].
  unfold is_byte in *.
  destruct (proj1 (ones_sum_full (wsum d1 + (a + 256 * b) + wsum d2) ltac:(lia)) ltac:(lia)) as [_ [k Hk]].
  destruct (proj1 (ones_sum_full (wsum d1 + (a' + 256 * b') + wsum d2) ltac:(lia)) ltac:(lia)) as [_ [k' Hk']].
  assert (k' = k ∨ k' = k + 1 ∨ k' = k - 1) as Hkk by lia; destruct Hkk as [-> | [-> | ->]]; [left|right; left|right; right]; lia.
Qed.

Lemma in_cksum_correct_witness :
  let d := [0x45; 0; 0; 36; 0; 0; 0; 0; 100; 17] in
  in_cksum (d ++ [0; 0] ++ [10; 0; 2; 15; 10; 0; 2; 2]) = 0xb93e ∧ in_cksum (d ++ [0x3e; 0xb9] ++ [10; 0; 2; 15; 10; 0; 2; 2]) = 0.
Proof.
  intros d. destruct (in_cksum_correct d [10; 0; 2; 15; 10; 0; 2; 2] 0 0) as (_ & H & _).
  - unfold is_bytes, is_byte. repeat constructor; lia.
  - by exists 5%nat.
  - vm_compute. done.
  - split; [vm_compute; reflexivity|exact H].
Defined.
