(* ===== verification/Packet.v ===== *)
(** * net.c: protocol headers

    The part of the net_tx_ functions that prepends and fills in one header, as
    code over the packet buffer, and what the packet is afterwards: the bytes of
    the header in network order, then the packet as it was. *)

From S2P Require Import Prelude Bytes PageAlloc Mbuf.

(** ** Sizes and field values (net.h) *)

Definition ETHADDR_LEN : nat := 6.
Definition ETH_SIZE : Z := 14.
Definition IP_SIZE : Z := 20.
Definition UDP_SIZE : Z := 8.
Definition ARP_SIZE : Z := 28.
Definition ETHTYPE_IP : Z := 0x0800.
Definition ETHTYPE_ARP : Z := 0x0806.
Definition IPPROTO_UDP : Z := 17.
Definition ARP_HRD_ETHER : Z := 1.
Definition ARP_OP_REQUEST : Z := 1.
Definition ARP_OP_REPLY : Z := 2.
Definition MAKE_IP_ADDR (a b c d : Z) : Z :=
  Z.lor (Z.lor (Z.lor (Z.shiftl a 24) (Z.shiftl b 16)) (Z.shiftl c 8)) d.
Definition IP_VHL : Z := Z.lor (Z.shiftl 4 4) (Z.shiftr 20 2).
Definition local_ip0 : Z := MAKE_IP_ADDR 10 0 2 15.
Definition local_mac0 : list Z := [0x52; 0x54; 0x00; 0x12; 0x34; 0x56].
Definition broadcast_mac : list Z := replicate ETHADDR_LEN 0xff.

(** ** Filling in a header *)

Definition set_buf (f : list Z → list Z) : ST mbuf () := modify (λ m, m <| m_buf ::= f |>).

Definition eth_fields (mac : list Z) (ethtype : Z) (o : nat) : ST mbuf () :=
  _ ← set_buf (splice (o + 6) mac);
  _ ← set_buf (splice (o + 0) broadcast_mac);
  set_buf (st 2 (o + 12) (htons ethtype)).
Definition eth_header (mac : list Z) (ethtype : Z) : ST mbuf () :=
  o ← mbufpush ETH_SIZE;
  eth_fields mac ethtype (Z.to_nat o).

Definition ip_fields (local_ip proto dip : Z) (o : nat) : ST mbuf () :=
  _ ← set_buf (splice (o + 0) (replicate 20 0));
  _ ← set_buf (st 1 (o + 0) IP_VHL);
  _ ← set_buf (st 1 (o + 9) proto);
  _ ← set_buf (st 4 (o + 12) (htonl local_ip));
  _ ← set_buf (st 4 (o + 16) (htonl dip));
  len ← gets m_len;
  _ ← set_buf (st 2 (o + 2) (htons (u16 len)));
  _ ← set_buf (st 1 (o + 8) 100);
  d ← gets m_buf;
  set_buf (st 2 (o + 10) (in_cksum (take 20 (drop o d)))).
Definition ip_header (local_ip proto dip : Z) : ST mbuf () :=
  o ← mbufpush IP_SIZE;
  ip_fields local_ip proto dip (Z.to_nat o).

Definition udp_fields (sport dport : Z) (o : nat) : ST mbuf () :=
  _ ← set_buf (st 2 (o + 0) (htons sport));
  _ ← set_buf (st 2 (o + 2) (htons dport));
  len ← gets m_len;
  _ ← set_buf (st 2 (o + 4) (htons (u16 len)));
  set_buf (st 2 (o + 6) 0).
Definition udp_header (sport dport : Z) : ST mbuf () :=
  o ← mbufpush UDP_SIZE;
  udp_fields sport dport (Z.to_nat o).

Definition arp_fields (op : Z) (mac : list Z) (local_ip : Z) (dmac : list Z) (dip : Z) (o : nat) : ST mbuf () :=
  _ ← set_buf (st 2 (o + 0) (htons ARP_HRD_ETHER));
  _ ← set_buf (st 2 (o + 2) (htons ETHTYPE_IP));
  _ ← set_buf (st 1 (o + 4) (Z.of_nat ETHADDR_LEN));
  _ ← set_buf (st 1 (o + 5) 4);
  _ ← set_buf (st 2 (o + 6) (htons op));
  _ ← set_buf (splice (o + 8) mac);
  _ ← set_buf (st 4 (o + 14) (htonl local_ip));
  _ ← set_buf (splice (o + 18) dmac);
  set_buf (st 4 (o + 24) (htonl dip)).
Definition arp_header (op : Z) (mac : list Z) (local_ip : Z) (dmac : list Z) (dip : Z) : ST mbuf () :=
  o ← mbufput ARP_SIZE;
  arp_fields op mac local_ip dmac dip (Z.to_nat o).

(** ** Stores inside a header *)

Section stores.
#[local] Transparent ld st.

Lemma st_app n k v pre h post : (k + n ≤ length h)%nat →
  st n (length pre + k) v (pre ++ h ++ post) = pre ++ st n k v h ++ post.
Proof.
  revert k v h. induction n as [|n IH]; intros k v h Hk; cbn [st]; [done|].
  rewrite insert_app_r, insert_app_l by lia. rewrite <- Nat.add_succ_r. apply IH. rewrite length_insert. lia.
Qed.

Lemma ld_app n k pre h post : (k + n ≤ length h)%nat → ld n (length pre + k) (pre ++ h ++ post) = ld n k h.
Proof.
  revert k. induction n as [|n IH]; intros k Hk; cbn [ld]; [done|]. rewrite <- Nat.add_succ_r, IH by lia. f_equal.
  unfold byte_at. by rewrite lookup_app_r, lookup_app_l, Nat.add_comm, Nat.add_sub by lia.
Qed.

Lemma st_2 k v h : st 2 k v h = <[S k := (v / 256) mod 256]> (<[k := v mod 256]> h).
Proof. done. Qed.
Lemma st_1 k v h : st 1 k v h = <[k := v mod 256]> h.
Proof. done. Qed.
Lemma st_4 k v h : st 4 k v h =
  <[S (S (S k)) := (v / 256 / 256 / 256) mod 256]> (<[S (S k) := (v / 256 / 256) mod 256]>
    (<[S k := (v / 256) mod 256]> (<[k := v mod 256]> h))).
Proof. done. Qed.
Lemma ld_1 k d : ld 1 k d = byte_at d k.
Proof. cbn. lia. Qed.
Lemma ld_2 k d : ld 2 k d = byte_at d k + 256 * byte_at d (S k).
Proof. cbn. lia. Qed.
Lemma ld_4 k d : ld 4 k d =
  byte_at d k + 256 * (byte_at d (S k) + 256 * (byte_at d (S (S k)) + 256 * byte_at d (S (S (S k))))).
Proof. cbn. lia. Qed.
End stores.

Lemma splice_app k bs pre h post : (k + length bs ≤ length h)%nat →
  splice (length pre + k) bs (pre ++ h ++ post) = pre ++ splice k bs h ++ post.
Proof.
  intros Hk. unfold splice. rewrite take_app_add', <- Nat.add_assoc, drop_app_add' by done.
  rewrite take_app_le, drop_app_le by lia. by rewrite <- !app_assoc.
Qed.

(** ** Fields in network order *)

Definition be16 (v : Z) : list Z := [(v / 256) mod 256; v mod 256].
Definition be32 (v : Z) : list Z := [(v / 2 ^ 24) mod 256; (v / 2 ^ 16) mod 256; (v / 2 ^ 8) mod 256; v mod 256].

Lemma htons_bytes v : bswaps v mod 256 = (v / 256) mod 256 ∧ (bswaps v / 256) mod 256 = v mod 256.
Proof. rewrite bswaps_eq. split; Z.to_euclidean_division_equations; lia. Qed.

Lemma htonl_bytes v :
  bswapl v mod 256 = (v / 2 ^ 24) mod 256 ∧ (bswapl v / 256) mod 256 = (v / 2 ^ 16) mod 256 ∧
  (bswapl v / 256 / 256) mod 256 = (v / 2 ^ 8) mod 256 ∧ (bswapl v / 256 / 256 / 256) mod 256 = v mod 256.
Proof.
  rewrite bswapl_eq, !Z.div_div by lia.
  pose proof (Z.mod_pos_bound v 256). pose proof (Z.mod_pos_bound (v / 2 ^ 8) 256).
  pose proof (Z.mod_pos_bound (v / 2 ^ 16) 256). pose proof (Z.mod_pos_bound (v / 2 ^ 24) 256).
  generalize dependent (v mod 256). generalize dependent ((v / 2 ^ 8) mod 256).
  generalize dependent ((v / 2 ^ 16) mod 256). generalize dependent ((v / 2 ^ 24) mod 256). intros.
  split_and!; Z.to_euclidean_division_equations; lia.
Qed.

Lemma htons_st k v h : st 2 k (bswaps v) h = <[S k := v mod 256]> (<[k := (v / 256) mod 256]> h).
Proof. rewrite st_2. destruct (htons_bytes v) as [-> ->]. done. Qed.
Lemma htonl_st k v h : st 4 k (bswapl v) h =
  <[S (S (S k)) := v mod 256]> (<[S (S k) := (v / 2 ^ 8) mod 256]>
    (<[S k := (v / 2 ^ 16) mod 256]> (<[k := (v / 2 ^ 24) mod 256]> h))).
Proof. rewrite st_4. destruct (htonl_bytes v) as (-> & -> & -> & ->). done. Qed.

(** Reading a field back. *)
Lemma be16_val v : 0 ≤ v < 2 ^ 16 → bswaps ((v / 256) mod 256 + 256 * (v mod 256)) = v.
Proof. intros Hv. rewrite bswaps_eq. Z.to_euclidean_division_equations. lia. Qed.
Lemma be32_val v : 0 ≤ v < 2 ^ 32 →
  bswapl ((v / 2 ^ 24) mod 256 + 256 * ((v / 2 ^ 16) mod 256 + 256 * ((v / 2 ^ 8) mod 256 + 256 * (v mod 256)))) = v.
Proof.
  intros Hv. pose proof (Z.mod_pos_bound v 256). pose proof (Z.mod_pos_bound (v / 2 ^ 8) 256).
  pose proof (Z.mod_pos_bound (v / 2 ^ 16) 256). pose proof (Z.mod_pos_bound (v / 2 ^ 24) 256).
  match goal with |- bswapl ?x = _ => replace x with (v mod 256 * 2 ^ 24 + (v / 2 ^ 8) mod 256 * 2 ^ 16 + (v / 2 ^ 16) mod 256 * 2 ^ 8 + (v / 2 ^ 24) mod 256) by lia end.
  rewrite bswapl_bytes by (apply Z.mod_pos_bound; lia). Z.to_euclidean_division_equations. lia.
Qed.

Lemma be16_bytes v : is_bytes (be16 v).
Proof. repeat constructor; apply Z.mod_pos_bound; lia. Qed.
Lemma be32_bytes v : is_bytes (be32 v).
Proof. repeat constructor; apply Z.mod_pos_bound; lia. Qed.

(** ** What a header adds to the packet *)

(** [b'] is [b] with [hdr] in front of its packet. *)
Definition prepended (hdr : list Z) (b b' : mbuf) : Prop :=
  mbuf_ok b' ∧ m_next b' = m_next b ∧ m_head b' = m_head b - Z.of_nat (length hdr) ∧
  m_len b' = m_len b + Z.of_nat (length hdr) ∧ packet b' = hdr ++ packet b.

(** The buffer around the place of a header of [n] bytes. *)
Lemma split_head b n : mbuf_ok b → 0 ≤ n ≤ m_head b →
  ∃ pre h post, m_buf b = pre ++ h ++ post ∧ Z.of_nat (length pre) = m_head b - n ∧ Z.of_nat (length h) = n ∧
    packet b = take (Z.to_nat (m_len b)) post.
Proof.
  intros (? & ? & ? & Hl & _) Hn. set (k := Z.to_nat (m_head b - n)). change MBUF_ROOM with 4076 in *.
  exists (take k (m_buf b)), (take (Z.to_nat n) (drop k (m_buf b))), (drop (Z.to_nat n) (drop k (m_buf b))).
  rewrite !take_drop. split; [done|]. rewrite !length_take, length_drop, Hl. split_and!; [lia..|].
  unfold packet. rewrite drop_drop. do 2 f_equal. lia.
Qed.

Lemma prepend_intro b hdr pre h post : mbuf_ok b → is_bytes hdr → m_buf b = pre ++ h ++ post →
  Z.of_nat (length hdr) ≤ m_head b → Z.of_nat (length pre) = m_head b - Z.of_nat (length hdr) → length h = length hdr →
  packet b = take (Z.to_nat (m_len b)) post →
  prepended hdr b (Mbuf (m_next b) (m_head b - Z.of_nat (length hdr)) (m_len b + Z.of_nat (length hdr)) (pre ++ hdr ++ post)).
Proof.
  intros (? & ? & ? & Hl & Hb) Hh Hm Hle Hpre Hlen Hp. unfold prepended, mbuf_ok, packet at 1. cbn [m_next m_head m_len m_buf].
  rewrite Hm in Hl, Hb. rewrite !length_app in Hl. apply Forall_app in Hb as [Hb1 [_ Hb2]%Forall_app].
  split_and!; try (done || lia).
  - rewrite !length_app. lia.
  - by repeat (apply Forall_app; split).
  - rewrite drop_app_length' by lia. rewrite Hp, take_app_ge by lia. do 2 f_equal. lia.
Qed.

(** One header: pushes [n] bytes and fills them in with stores into them. *)
Lemma header_run b n hdr (code : nat → ST mbuf ()) : mbuf_ok b → Z.of_nat (length hdr) = n → n ≤ m_head b → is_bytes hdr →
  (∀ pre h post nx hd, length h = length hdr →
     run (code (length pre)) (Mbuf nx hd (m_len b + n) (pre ++ h ++ post)) ()
       (Mbuf nx hd (m_len b + n) (pre ++ hdr ++ post))) →
  ∃ b', run (o ← mbufpush n; code (Z.to_nat o)) b () b' ∧ prepended hdr b b'.
Proof.
  intros Hok Hn Hle Hb Hcode. destruct (split_head b n Hok ltac:(lia)) as (pre & h & post & Hm & Hpre & Hh & Hp).
  destruct (mbufpush_run n b ltac:(lia) Hok) as [E _]. step_with E. pose proof Hok as (? & ? & ? & _).
  replace (Z.to_nat (m_head b - n)) with (length pre) by lia.
  eexists. split; [|by apply (prepend_intro b hdr pre h post); lia || done].
  cbn [update field_set m_next m_head m_len m_buf]. rewrite Hm, Hn, <- Hpre. apply Hcode; lia.
Qed.

(** The bytes of the headers. *)
Definition udp_bytes (sport dport len : Z) : list Z := be16 sport ++ be16 dport ++ be16 len ++ [0; 0].
Definition eth_bytes (mac : list Z) (ethtype : Z) : list Z := broadcast_mac ++ mac ++ be16 ethtype.

(** Stores into the header [h] of [pre ++ h ++ post], with [h] spelled out. *)
Ltac spell H :=
  match type of H with
  | length ?l = _ =>
      repeat (let x := fresh "x" in destruct l as [|x l]; [discriminate H|]; apply (f_equal pred) in H; cbn [length pred] in H);
      apply nil_length_inv in H; subst l
  end.
Ltac header_length := repeat first [rewrite length_st | rewrite splice_length by header_length]; cbn; lia.
Ltac header_stores H :=
  spell H;
  repeat (first [rewrite st_app by header_length | rewrite splice_app by header_length]);
  rewrite ?htons_st, ?htonl_st, ?st_1, ?st_2.

Lemma udp_header_run b sport dport : mbuf_ok b → UDP_SIZE ≤ m_head b →
  ∃ b', run (udp_header sport dport) b () b' ∧ prepended (udp_bytes sport dport (u16 (m_len b + UDP_SIZE))) b b'.
Proof.
  intros Hok Hh. apply (header_run b UDP_SIZE _ (udp_fields sport dport)); try done.
  - repeat (apply Forall_app; split); try apply be16_bytes. by repeat constructor.
  - intros pre h post nx hd Hl. cbn [length app udp_bytes be16] in Hl.
    unfold udp_fields, set_buf, modify, gets, mbind, ST_bind. cbn [update field_set m_next m_head m_len m_buf].
    header_stores Hl. reflexivity.
Qed.

Lemma eth_header_run b mac ethtype : mbuf_ok b → ETH_SIZE ≤ m_head b → is_bytes mac → length mac = ETHADDR_LEN →
  ∃ b', run (eth_header mac ethtype) b () b' ∧ prepended (eth_bytes mac ethtype) b b'.
Proof.
  intros Hok Hh Hmac Hm. apply (header_run b ETH_SIZE _ (eth_fields mac ethtype)); try done.
  - unfold eth_bytes. rewrite !length_app, Hm. done.
  - repeat (apply Forall_app; split); [apply Forall_replicate; unfold is_byte; lia|done|apply be16_bytes].
  - intros pre h post nx hd Hl. unfold eth_bytes in Hl. rewrite !length_app, Hm in Hl. cbn in Hl. unfold ETHADDR_LEN in Hm.
    unfold eth_fields, set_buf, modify, mbind, ST_bind. cbn [update field_set m_next m_head m_len m_buf].
    spell Hm. header_stores Hl. reflexivity.
Qed.

(** The IP header: without its checksum, and as it is sent. *)
Definition ip_front (len proto : Z) : list Z := [IP_VHL; 0] ++ be16 len ++ [0; 0; 0; 0; 100; proto mod 256].
Definition ip_addrs (lip dip : Z) : list Z := be32 lip ++ be32 dip.
Definition ip_sum (len proto lip dip : Z) : Z := in_cksum (ip_front len proto ++ [0; 0] ++ ip_addrs lip dip).
Definition ip_bytes (len proto lip dip : Z) : list Z :=
  let c := ip_sum len proto lip dip in ip_front len proto ++ [c mod 256; (c / 256) mod 256] ++ ip_addrs lip dip.

Lemma ip_front_bytes len proto : is_bytes (ip_front len proto).
Proof. repeat constructor; try done; apply Z.mod_pos_bound; lia. Qed.
Lemma ip_addrs_bytes lip dip : is_bytes (ip_addrs lip dip).
Proof. apply Forall_app; split; apply be32_bytes. Qed.
Lemma ip_bytes_bytes len proto lip dip : is_bytes (ip_bytes len proto lip dip).
Proof. apply is_bytes_word; [apply ip_front_bytes|apply Z.mod_pos_bound; lia..|apply ip_addrs_bytes]. Qed.

Lemma ip_bytes_accepted len proto lip dip : in_cksum (ip_bytes len proto lip dip) = 0.
Proof.
  unfold ip_bytes. set (c := ip_sum _ _ _ _). replace ((c / 256) mod 256) with (c / 256).
  - apply (cksum_accepts (ip_front len proto)); [apply ip_front_bytes|apply ip_addrs_bytes|by exists 5%nat|done].
  - assert (0 ≤ c < 2 ^ 16) by (apply Z.mod_pos_bound; lia). Z.to_euclidean_division_equations. lia.
Qed.

Lemma ip_header_run b lip proto dip : mbuf_ok b → IP_SIZE ≤ m_head b →
  ∃ b', run (ip_header lip proto dip) b () b' ∧ prepended (ip_bytes (u16 (m_len b + IP_SIZE)) proto lip dip) b b'.
Proof.
  intros Hok Hh. apply (header_run b IP_SIZE _ (ip_fields lip proto dip)); try done.
  - apply ip_bytes_bytes.
  - intros pre h post nx hd Hl. change (length h = 20%nat) in Hl.
    unfold ip_fields, set_buf, modify, gets, mbind, ST_bind. cbn [update field_set m_next m_head m_len m_buf].
    header_stores Hl. rewrite drop_app_length, take_app_length' by done.
    match goal with |- context [in_cksum ?x] =>
      assert (x = ip_front (u16 (m_len b + IP_SIZE)) proto ++ [0; 0] ++ ip_addrs lip dip) as -> by reflexivity end.
    unfold ip_bytes, ip_sum. generalize (in_cksum (ip_front (u16 (m_len b + IP_SIZE)) proto ++ [0; 0] ++ ip_addrs lip dip)).
    reflexivity.
Qed.

Definition arp_bytes (op : Z) (mac : list Z) (lip : Z) (dmac : list Z) (dip : Z) : list Z :=
  be16 ARP_HRD_ETHER ++ be16 ETHTYPE_IP ++ [Z.of_nat ETHADDR_LEN; 4] ++ be16 op ++ mac ++ be32 lip ++ dmac ++ be32 dip.

Lemma arp_header_run b op mac lip dmac dip : mbuf_ok b → m_len b = 0 → m_head b + ARP_SIZE ≤ MBUF_ROOM →
  is_bytes mac → is_bytes dmac → length mac = ETHADDR_LEN → length dmac = ETHADDR_LEN →
  ∃ b', run (arp_header op mac lip dmac dip) b () b' ∧ mbuf_ok b' ∧ m_next b' = m_next b ∧ m_head b' = m_head b ∧
    packet b' = arp_bytes op mac lip dmac dip.
Proof.
  intros Hok Hz Hh Hmac Hdmac Hm Hd. pose proof Hok as (? & _ & _ & Hl & Hb). change MBUF_ROOM with 4076 in *.
  change ARP_SIZE with 28 in *.
  assert (∃ pre h post, m_buf b = pre ++ h ++ post ∧ length pre = Z.to_nat (m_head b) ∧ length h = 28%nat) as (pre & h & post & Hs & Hpre & H28).
  { exists (take (Z.to_nat (m_head b)) (m_buf b)), (take 28 (drop (Z.to_nat (m_head b)) (m_buf b))),
      (drop 28 (drop (Z.to_nat (m_head b)) (m_buf b))). rewrite !take_drop, !length_take, length_drop, Hl. split_and!; [done|lia..]. }
  exists (Mbuf (m_next b) (m_head b) 28 (pre ++ arp_bytes op mac lip dmac dip ++ post)). unfold ETHADDR_LEN in Hm, Hd.
  rewrite Hs in Hl, Hb. rewrite !length_app in Hl. apply Forall_app in Hb as [Hb1 [_ Hb2]%Forall_app].
  assert (length (arp_bytes op mac lip dmac dip) = 28%nat) as Hla by (unfold arp_bytes; rewrite !length_app, Hm, Hd; done).
  split_and!; try done.
  - unfold arp_header. step_with (mbufput_run ARP_SIZE b ltac:(done) ltac:(rewrite Hz; done) ltac:(lia)).
    rewrite Hz, Z.add_0_r, <- Hpre. unfold arp_fields, set_buf, modify, mbind, ST_bind.
    cbn [update field_set m_next m_head m_len m_buf]. rewrite Hs, Hz. spell Hm. spell Hd. header_stores H28. reflexivity.
  - unfold mbuf_ok. cbn [m_head m_len m_buf]. change MBUF_ROOM with 4076. rewrite !length_app, Hla. split_and!; try lia.
    repeat (apply Forall_app; split); try (done || apply be16_bytes || apply be32_bytes). by repeat constructor.
  - unfold packet. cbn [m_head m_len m_buf]. rewrite drop_app_length' by lia. rewrite take_app_length' by (rewrite Hla; lia). done.
Qed.

(** ** A datagram on the wire *)

Definition udp_frame (mac : list Z) (sip dip sport dport : Z) (bs : list Z) : list Z :=
  let n := Z.of_nat (length bs) in
  eth_bytes mac ETHTYPE_IP ++ ip_bytes (u16 (n + UDP_SIZE + IP_SIZE)) IPPROTO_UDP sip dip ++
  udp_bytes sport dport (u16 (n + UDP_SIZE)) ++ bs.

Lemma udp_frame_bytes mac sip dip sport dport bs : is_bytes mac → is_bytes bs → is_bytes (udp_frame mac sip dip sport dport bs).
Proof.
  intros Hm Hb. apply Forall_app. split; [|apply Forall_app; split; [apply ip_bytes_bytes|apply Forall_app; split; [|done]]].
  - repeat (apply Forall_app; split); [apply Forall_replicate; unfold is_byte; lia|done|apply be16_bytes].
  - repeat (apply Forall_app; split); try apply be16_bytes. by repeat constructor.
Qed.

(** The fields the receiver looks at, in a buffer that starts with a frame. *)
Lemma udp_frame_fields mac sip dip sport dport bs tail :
  length mac = ETHADDR_LEN → 0 ≤ sip < 2 ^ 32 → 0 ≤ dip < 2 ^ 32 → 0 ≤ sport < 2 ^ 16 → 0 ≤ dport < 2 ^ 16 →
  let n := Z.of_nat (length bs) in let d := udp_frame mac sip dip sport dport bs ++ tail in
  bswaps (ld 2 12 d) = ETHTYPE_IP ∧ ld 1 14 d = IP_VHL ∧ in_cksum (take 20 (drop 14 d)) = 0 ∧ bswaps (ld 2 20 d) = 0 ∧
  bswapl (ld 4 30 d) = dip ∧ ld 1 23 d = IPPROTO_UDP ∧ bswaps (ld 2 16 d) = u16 (n + UDP_SIZE + IP_SIZE) ∧
  bswaps (ld 2 38 d) = u16 (n + UDP_SIZE) ∧ bswapl (ld 4 26 d) = sip ∧ bswaps (ld 2 34 d) = sport ∧ bswaps (ld 2 36 d) = dport ∧
  drop 42 d = bs ++ tail.
Proof.
  intros Hm Hsip Hdip Hsp Hdp n d. unfold ETHADDR_LEN in Hm.
  assert (in_cksum (take 20 (drop 14 d)) = 0) as Hc.
  { unfold d, udp_frame. rewrite <- !app_assoc.
    rewrite drop_app_length' by (unfold eth_bytes; rewrite !length_app, Hm; done). rewrite take_app_length' by done. apply ip_bytes_accepted. }
  pose proof (be16_val ETHTYPE_IP ltac:(done)) as H1. pose proof (be32_val dip Hdip) as H2. pose proof (be32_val sip Hsip) as H3.
  pose proof (be16_val sport Hsp) as H4. pose proof (be16_val dport Hdp) as H5.
  pose proof (be16_val (u16 (n + UDP_SIZE + IP_SIZE)) (Z.mod_pos_bound (n + UDP_SIZE + IP_SIZE) (2 ^ 16) ltac:(lia))) as H6.
  pose proof (be16_val (u16 (n + UDP_SIZE)) (Z.mod_pos_bound (n + UDP_SIZE) (2 ^ 16) ltac:(lia))) as H7.
  rewrite Hc. unfold d, udp_frame, ip_bytes in *. clear Hc. fold n. generalize (ip_sum (u16 (n + UDP_SIZE + IP_SIZE)) IPPROTO_UDP sip dip).
  intros c. spell Hm. rewrite !ld_1, !ld_2, !ld_4. unfold byte_at.
  split_and!; (exact H1 || exact H2 || exact H3 || exact H4 || exact H5 || exact H6 || exact H7 || reflexivity).
Qed.
