(* ===== verification/Net.v ===== *)
(** * net.c and e1000.c: the protocols and the network card

    Buffers live in a heap by address: [n_mbufs] has the pages that hold a
    packet buffer, and an access through a pointer that is not one of them
    faults (the trap handler panics).  Packets leave through the transmit ring
    of the card and arrive in its receive ring.  The device itself is in the
    step relation of [Socket]: it reports descriptors as done and stores the
    packets that arrive.  The sockets a packet is delivered to are those of
    sysnet.c; their list, threaded through [next], is the order of a Rocq list. *)

From stdpp Require Import gmap.
From S2P Require Import Prelude Bytes PageAlloc Mbuf Packet.

(** ** State *)

Record mbufq := Mbufq { q_first : Z; q_last : Z }.      (* struct mbufq: head, tail *)
#[export] Instance mbufq_fields : Fields mbufq := λ q, Mbufq (q_first q) (q_last q).

Record sock := Sock {
  so_raddr : Z;
  so_lport : Z;
  so_rport : Z;
  so_rxq : mbufq;
  so_type : Z;
  so_state : Z;
  so_seq : Z;
  so_ack : Z;
  so_listening : Z;
  so_pending : Z;
}.
#[export] Instance sock_fields : Fields sock := λ s,
  Sock (so_raddr s) (so_lport s) (so_rport s) (so_rxq s) (so_type s) (so_state s) (so_seq s) (so_ack s)
    (so_listening s) (so_pending s).

Record tx_desc := TxDesc { td_addr : Z; td_length : Z; td_cmd : Z; td_status : Z }.
#[export] Instance tx_desc_fields : Fields tx_desc := λ d, TxDesc (td_addr d) (td_length d) (td_cmd d) (td_status d).
Record rx_desc := RxDesc { rd_addr : Z; rd_length : Z; rd_status : Z }.
#[export] Instance rx_desc_fields : Fields rx_desc := λ d, RxDesc (rd_addr d) (rd_length d) (rd_status d).

Definition TX_RING_SIZE : nat := 16.
Definition RX_RING_SIZE : nat := 16.
Definition E1000_TXD_STAT_DD : Z := 1.
Definition E1000_RXD_STAT_DD : Z := 1.
Definition E1000_TXD_CMD_EOP : Z := 1.
Definition E1000_TXD_CMD_RS : Z := 8.

Record net (K : Type) := Net {
  n_pages : K;
  n_mbufs : gmap Z mbuf;
  n_sockets : list Z;                   (* the list [sockets] *)
  n_sock : gmap Z sock;
  tx_ring : list tx_desc;
  tx_mbufs : list Z;
  rx_ring : list rx_desc;
  rx_mbufs : list Z;
  reg_tdt : Z;                          (* regs[E1000_TDT] *)
  reg_rdt : Z;                          (* regs[E1000_RDT] *)
  local_ip : Z;
  local_mac : list Z;
}.
Arguments Net {K}.
Arguments n_pages {K} _.
Arguments n_mbufs {K} _.
Arguments n_sockets {K} _.
Arguments n_sock {K} _.
Arguments tx_ring {K} _.
Arguments tx_mbufs {K} _.
Arguments rx_ring {K} _.
Arguments rx_mbufs {K} _.
Arguments reg_tdt {K} _.
Arguments reg_rdt {K} _.
Arguments local_ip {K} _.
Arguments local_mac {K} _.
#[export] Instance net_fields K : Fields (net K) := λ s,
  Net (n_pages s) (n_mbufs s) (n_sockets s) (n_sock s) (tx_ring s) (tx_mbufs s) (rx_ring s) (rx_mbufs s)
    (reg_tdt s) (reg_rdt s) (local_ip s) (local_mac s).

Section code.
Context {K : Type} `{!PageAlloc K}.
Abbreviation NetS := (net K).

(** A trap in the kernel. *)
Definition kerneltrap {A} : ST NetS A := panic "kerneltrap".

Definition on_pages {A} (f : ST K A) : ST NetS A := λ s,
  match f (n_pages s) with
  | Ret (a, k) => Ret (a, s <| n_pages := k |>)
  | Panic msg => Panic msg
  | Blocks => Blocks
  end.

(** Code on the buffer at address [m]. *)
Definition on_mbuf {A} (m : Z) (f : ST mbuf A) : ST NetS A := λ s,
  match n_mbufs s !! m with
  | None => kerneltrap s
  | Some b =>
      match f b with
      | Ret (a, b') => Ret (a, s <| n_mbufs ::= <[m := b']> |>)
      | Panic msg => Panic msg
      | Blocks => Blocks
      end
  end.
Definition load {A} (m : Z) (f : list Z → A) : ST NetS A := on_mbuf m (gets (λ b, f (m_buf b))).
Definition mlen (m : Z) : ST NetS Z := on_mbuf m (gets m_len).

Definition on_sock {A} (a : Z) (f : ST sock A) : ST NetS A := λ s,
  match n_sock s !! a with
  | None => kerneltrap s
  | Some b =>
      match f b with
      | Ret (x, b') => Ret (x, s <| n_sock ::= <[a := b']> |>)
      | Panic msg => Panic msg
      | Blocks => Blocks
      end
  end.

(** ** Buffers *)

Definition mbufalloc (headroom : Z) : ST NetS Z :=
  if MBUF_SIZE <? headroom then mret 0
  else
    m ← on_pages palloc;
    match m with
    | None => mret 0
    | Some m => _ ← modify (λ s, s <| n_mbufs ::= <[m := mbuf_new headroom]> |>); mret m
    end.

Definition mbuffree (m : Z) : ST NetS () :=
  _ ← on_pages (pfree m);
  modify (λ s, s <| n_mbufs ::= delete m |>).

Definition mbufq_pushtail (q : mbufq) (m : Z) : ST NetS mbufq :=
  _ ← on_mbuf m (modify (λ b, b <| m_next := 0 |>));
  if q_first q =? 0 then mret (Mbufq m m)
  else
    _ ← on_mbuf (q_last q) (modify (λ b, b <| m_next := m |>));
    mret (q <| q_last := m |>).

Definition mbufq_pophead (q : mbufq) : ST NetS (Z * mbufq) :=
  if q_first q =? 0 then mret (0, q)
  else
    next ← on_mbuf (q_first q) (gets m_next);
    mret (q_first q, q <| q_first := next |>).

Definition mbufq_empty (q : mbufq) : bool := q_first q =? 0.
Definition mbufq_init (q : mbufq) : mbufq := q <| q_first := 0 |>.

(** ** The transmit ring *)

Definition tx0 : tx_desc := TxDesc 0 0 0 0.
Definition rx0 : rx_desc := RxDesc 0 0 0.

Definition e1000_transmit (m : Z) : ST NetS Z :=
  s ← get;
  let ind := Z.to_nat (reg_tdt s) in
  let desc := default tx0 (tx_ring s !! ind) in
  if Z.land (td_status desc) E1000_TXD_STAT_DD =? 0 then mret (-1)
  else
    let old := default 0 (tx_mbufs s !! ind) in
    _ ← (if old =? 0 then mret ()
         else _ ← mbuffree old; modify (λ s, s <| tx_mbufs ::= <[ind := 0]> |>));
    b ← on_mbuf m get;
    _ ← modify (λ s, s <| tx_ring ::= alter (λ d, d <| td_addr := m + MBUF_BUF + m_head b |>
                             <| td_length := u16 (m_len b) |>
                             <| td_cmd := Z.lor E1000_TXD_CMD_EOP E1000_TXD_CMD_RS |>) ind |>
                       <| tx_mbufs ::= <[ind := m]> |>
                       <| reg_tdt ::= λ r, u32 (r + 1) mod Z.of_nat TX_RING_SIZE |>);
    mret 0.

(** ** Sending *)

Definition net_tx_eth (m ethtype : Z) : ST NetS () :=
  s ← get;
  _ ← on_mbuf m (eth_header (local_mac s) ethtype);
  r ← e1000_transmit m;
  if r =? 0 then mret () else mbuffree m.

Definition net_tx_ip (m proto dip : Z) : ST NetS () :=
  s ← get;
  _ ← on_mbuf m (ip_header (local_ip s) proto dip);
  net_tx_eth m ETHTYPE_IP.

Definition net_tx_udp (m dip sport dport : Z) : ST NetS () :=
  _ ← on_mbuf m (udp_header sport dport);
  net_tx_ip m IPPROTO_UDP dip.

Definition net_tx_arp (op : Z) (dmac : list Z) (dip : Z) : ST NetS Z :=
  m ← mbufalloc MBUF_DEFAULT_HEADROOM;
  if m =? 0 then mret (-1)
  else
    s ← get;
    _ ← on_mbuf m (arp_header op (local_mac s) (local_ip s) dmac dip);
    _ ← net_tx_eth m ETHTYPE_ARP;
    mret 0.

(** ** Delivery (sysnet.c) *)

(** The first socket of the list that satisfies [f]. *)
Fixpoint find_sock (f : Z → sock → bool) (l : list Z) : ST NetS (option Z) :=
  match l with
  | [] => mret None
  | si :: l =>
      b ← on_sock si get;
      if f si b then mret (Some si) else find_sock f l
  end.

Definition receives (raddr lport rport : Z) (si : sock) : bool :=
  (so_raddr si =? raddr) && (so_lport si =? lport) && (so_rport si =? rport) ||
  negb (so_listening si =? 0) && (so_lport si =? lport) && (so_raddr si =? 0).

Definition sockrecvudp (m raddr lport rport : Z) : ST NetS () :=
  s ← get;
  r ← find_sock (λ _, receives raddr lport rport) (n_sockets s);
  match r with
  | None => mbuffree m
  | Some si =>
      b ← on_sock si get;
      q ← mbufq_pushtail (so_rxq b) m;
      on_sock si (modify (λ b, b <| so_rxq := q |>))
  end.

(** ** Receiving *)

Definition net_rx_arp (m : Z) : ST NetS () :=
  o ← on_mbuf m (mbufpull ARP_SIZE);
  match o with
  | None => mbuffree m
  | Some o =>
      let o := Z.to_nat o in
      d ← load m id;
      if negb (ntohs (ld 2 o d) =? ARP_HRD_ETHER) || negb (ntohs (ld 2 (o + 2) d) =? ETHTYPE_IP) ||
         negb (ld 1 (o + 4) d =? Z.of_nat ETHADDR_LEN) || negb (ld 1 (o + 5) d =? 4)
      then mbuffree m
      else
        let tip := ntohl (ld 4 (o + 24) d) in
        s ← get;
        if negb (ntohs (ld 2 (o + 6) d) =? ARP_OP_REQUEST) || negb (tip =? local_ip s) then mbuffree m
        else
          let smac := take ETHADDR_LEN (drop (o + 8) d) in
          let sip := ntohl (ld 4 (o + 14) d) in
          _ ← net_tx_arp ARP_OP_REPLY smac sip;
          mbuffree m
  end.

(** [iphdr] is the offset of the IP header in the buffer. *)
Definition net_rx_udp (m len : Z) (iphdr : nat) : ST NetS () :=
  o ← on_mbuf m (mbufpull UDP_SIZE);
  match o with
  | None => mbuffree m
  | Some o =>
      let o := Z.to_nat o in
      d ← load m id;
      if negb (ntohs (ld 2 (o + 4) d) =? len) then mbuffree m
      else
        let len := u16 (len - UDP_SIZE) in
        mlen ← mlen m;
        if mlen <? len then mbuffree m
        else
          _ ← on_mbuf m (mbuftrim (u32 (mlen - len)));
          let sip := ntohl (ld 4 (iphdr + 12) d) in
          let sport := ntohs (ld 2 o d) in
          let dport := ntohs (ld 2 (o + 2) d) in
          sockrecvudp m sip dport sport
  end.

Definition net_rx_ip (m : Z) : ST NetS () :=
  o ← on_mbuf m (mbufpull IP_SIZE);
  match o with
  | None => mbuffree m
  | Some o =>
      let o := Z.to_nat o in
      d ← load m id;
      s ← get;
      if negb (ld 1 o d =? IP_VHL) then mbuffree m
      else if negb (in_cksum (take 20 (drop o d)) =? 0) then mbuffree m
      else if negb (htons (ld 2 (o + 6) d) =? 0) then mbuffree m
      else if negb (htonl (ld 4 (o + 16) d) =? local_ip s) then mbuffree m
      else if negb (ld 1 (o + 9) d =? IPPROTO_UDP) then mbuffree m
      else net_rx_udp m (u16 (ntohs (ld 2 (o + 2) d) - IP_SIZE)) o
  end.

Definition net_rx (m : Z) : ST NetS () :=
  o ← on_mbuf m (mbufpull ETH_SIZE);
  match o with
  | None => mbuffree m
  | Some o =>
      type ← load m (λ d, ntohs (ld 2 (Z.to_nat o + 12) d));
      if type =? ETHTYPE_IP then net_rx_ip m
      else if type =? ETHTYPE_ARP then net_rx_arp m
      else mbuffree m
  end.

(** ** The receive ring *)

(** The body of the loop of [e1000_recv], for the packet of descriptor [ind]. *)
Definition recv_one (ind : nat) (desc : rx_desc) (m : Z) : ST NetS () :=
  _ ← on_mbuf m (modify (λ b, b <| m_len := rd_length desc |>));
  _ ← net_rx m;
  m ← mbufalloc 0;
  _ ← modify (λ s, s <| rx_mbufs ::= <[ind := m]> |>);
  b ← on_mbuf m get;
  modify (λ s, s <| rx_ring ::= alter (λ d, d <| rd_addr := m + MBUF_BUF + m_head b |> <| rd_status := 0 |>) ind |>
                 <| reg_rdt := Z.of_nat ind |>).

(** The loop of [e1000_recv] for at most [fuel] packets: [Blocks] when there
    are more. *)
Fixpoint e1000_recv (fuel : nat) : ST NetS () :=
  s ← get;
  let ind := Z.to_nat (u32 (reg_rdt s + 1) mod Z.of_nat RX_RING_SIZE) in
  let desc := default rx0 (rx_ring s !! ind) in
  if Z.land (rd_status desc) E1000_RXD_STAT_DD =? 0 then mret ()
  else
    match fuel with
    | O => blocks
    | S fuel' => _ ← recv_one ind desc (default 0 (rx_mbufs s !! ind)); e1000_recv fuel'
    end.

(** Filling the receive ring: the loop of [e1000_init] from [i]. *)
Fixpoint init_rx (i n : nat) : ST NetS () :=
  match n with
  | O => mret ()
  | S n' =>
      m ← mbufalloc 0;
      _ ← modify (λ s, s <| rx_mbufs ::= <[i := m]> |>);
      if m =? 0 then panic "e1000"
      else
        b ← on_mbuf m get;
        _ ← modify (λ s, s <| rx_ring ::= alter (λ d, d <| rd_addr := m + MBUF_BUF + m_head b |>) i |>);
        init_rx (S i) n'
  end.

(** The rings that [e1000_init] sets up; the other registers configure the
    card. *)
Definition e1000_init : ST NetS () :=
  _ ← modify (λ s, s <| tx_ring := replicate TX_RING_SIZE (tx0 <| td_status := E1000_TXD_STAT_DD |>) |>
                     <| tx_mbufs := replicate TX_RING_SIZE 0 |>
                     <| reg_tdt := 0 |>
                     <| rx_ring := replicate RX_RING_SIZE rx0 |>);
  _ ← init_rx 0 RX_RING_SIZE;
  modify (λ s, s <| reg_rdt := Z.of_nat RX_RING_SIZE - 1 |>).
End code.
