(* ===== verification/NetInv.v ===== *)
(** * Ownership of packet buffers

    Every page that holds a packet buffer is held once: by the receive ring or
    the code that handles a packet, by the transmit ring, or by the queue of one
    socket.  The calls of net.c and e1000.c keep this whatever bytes a packet
    consists of, so that no buffer is freed twice, used after it was freed, or
    lost. *)

From stdpp Require Import gmap.
From S2P Require Import Prelude Bytes PageAlloc Mbuf Packet Net.

(** ** Linked queues of buffers *)

(** The chain of [next] pointers from [a] is the list [l]. *)
Fixpoint mseg (h : gmap Z mbuf) (a : Z) (l : list Z) : Prop :=
  match l with
  | [] => a = 0
  | x :: l => a = x ∧ x ≠ 0 ∧ ∃ b, h !! x = Some b ∧ mseg h (m_next b) l
  end.
Definition mqueue (h : gmap Z mbuf) (q : mbufq) (l : list Z) : Prop :=
  mseg h (q_first q) l ∧ ∀ x, last l = Some x → q_last q = x.

Lemma mseg_ext h h' l : ∀ a, mseg h a l → (∀ x, x ∈ l → m_next <$> h !! x = m_next <$> h' !! x) → mseg h' a l.
Proof.
  induction l as [|x l IH]; intros a H He; [done|]. destruct H as (-> & Hx & b & Hb & Hs). split_and!; [done..|].
  pose proof (He x ltac:(constructor)) as E. rewrite Hb in E. destruct (h' !! x) as [b'|] eqn:Hb'; [|done]. injection E as E.
  exists b'. split; [done|]. rewrite <- E. apply IH; [done|]. intros y Hy. apply He. by right.
Qed.

Lemma mqueue_ext h h' q l : mqueue h q l → (∀ x, x ∈ l → m_next <$> h !! x = m_next <$> h' !! x) → mqueue h' q l.
Proof. intros [Hs Hl] He. split; [|done]. by eapply mseg_ext. Qed.

Lemma mqueue_insert h m b' q l : mqueue h q l → m ∉ l → mqueue (<[m := b']> h) q l.
Proof.
  intros Hq Hm. apply (mqueue_ext h); [done|]. intros x Hx. by rewrite lookup_insert_ne by set_solver.
Qed.
Lemma mqueue_delete h m q l : mqueue h q l → m ∉ l → mqueue (delete m h) q l.
Proof.
  intros Hq Hm. apply (mqueue_ext h); [done|]. intros x Hx. by rewrite lookup_delete_ne by set_solver.
Qed.

Lemma mqueue_empty h q l : mqueue h q l → mbufq_empty q = true ↔ l = [].
Proof.
  intros [Hs _]. unfold mbufq_empty. rewrite Z.eqb_eq. destruct l as [|x l]; [done|].
  destruct Hs as (-> & Hx & _). split; [done|]. intros [=].
Qed.

Lemma mseg_snoc h a l t m b : mseg h a (l ++ [t]) → m ∉ l ++ [t] → m ≠ 0 → h !! m = Some b → NoDup (l ++ [t]) →
  ∀ bt, h !! t = Some bt → mseg (<[t := bt <| m_next := m |>]> (<[m := b <| m_next := 0 |>]> h)) a (l ++ [t; m]).
Proof.
  intros Hs Hm H0 Hb Hnd bt Ht. revert a Hs. induction l as [|x l IH]; intros a; cbn [app mseg].
  - intros (-> & ? & _). assert (t ≠ m) by set_solver. split_and!; [done..|].
    exists (bt <| m_next := m |>). rewrite lookup_insert_eq. split; [done|]. cbn. split_and!; [done..|].
    exists (b <| m_next := 0 |>). rewrite lookup_insert_ne, lookup_insert_eq by done. done.
  - intros (-> & Hx & bx & Hbx & Hs). apply NoDup_cons in Hnd as [Hnx Hnd]. split_and!; [done..|]. exists bx.
    rewrite !lookup_insert_ne by set_solver. split; [done|]. apply IH; [set_solver|done..].
Qed.

(** The buffers and the sockets of a state. *)
Definition tx_owned {K} (s : net K) : list Z := filter (λ m, m ≠ 0) (tx_mbufs s).
Definition queued (Q : Z → list Z) (l : list Z) : list Z := l ≫= Q.

Section inv.
Context {K : Type} `{!PageAlloc K} `{!PageAllocSpec K}.
(** The sockets that running code holds outside the list. *)
Context (held : list Z).
Implicit Types (s : net K) (fl own : list Z) (Q : Z → list Z).

Definition all_socks s : list Z := held ++ n_sockets s.

(** The pages that hold a packet buffer are those of [own], each of them once. *)
Record heap_ok (own : list Z) s : Prop := {
  ho_pages : pwf (n_pages s);
  ho_nodup : NoDup own;
  ho_dom : ∀ m, m ∈ own ↔ is_Some (n_mbufs s !! m);
  ho_buf : ∀ m b, n_mbufs s !! m = Some b → m ≠ 0 ∧ refs (n_pages s) m = 1 ∧ mbuf_ok b;
}.

Record socks_ok (Q : Z → list Z) s : Prop := {
  so_nodup : NoDup (all_socks s);
  so_dom : ∀ a, a ∈ all_socks s ↔ is_Some (n_sock s !! a);
  so_page : ∀ a b, n_sock s !! a = Some b → a ≠ 0 ∧ refs (n_pages s) a = 1 ∧ n_mbufs s !! a = None;
  so_queue : ∀ a b, n_sock s !! a = Some b → mqueue (n_mbufs s) (so_rxq b) (Q a);
}.

Record rings_ok s : Prop := {
  ri_tx : length (tx_ring s) = TX_RING_SIZE;
  ri_txm : length (tx_mbufs s) = TX_RING_SIZE;
  ri_tdt : 0 ≤ reg_tdt s < Z.of_nat TX_RING_SIZE;
  ri_mac : length (local_mac s) = ETHADDR_LEN ∧ is_bytes (local_mac s);
}.

(** [fl] are the buffers that running code and the receive ring hold: every
    buffer is held there, by the transmit ring, or by the queue of a socket. *)
Definition net_inv fl s : Prop :=
  ∃ Q, heap_ok (fl ++ tx_owned s ++ queued Q (all_socks s)) s ∧ socks_ok Q s ∧ rings_ok s.

(** What sending and delivering leave alone: the receive ring, the list of
    sockets, and the buffers [fl] that others hold. *)
Definition rx_frame fl s s' : Prop :=
  rx_ring s' = rx_ring s ∧ rx_mbufs s' = rx_mbufs s ∧ reg_rdt s' = reg_rdt s ∧ local_ip s' = local_ip s ∧
  local_mac s' = local_mac s ∧ n_sockets s' = n_sockets s ∧ ∀ m, m ∈ fl → n_mbufs s' !! m = n_mbufs s !! m.

#[export] Instance rx_frame_preorder fl : PreOrder (rx_frame fl).
Proof.
  split; [done|]. unfold rx_frame. intros x y z (? & ? & ? & ? & ? & ? & H) (? & ? & ? & ? & ? & ? & H'). split_and!; try congruence.
  intros m Hm. by rewrite H', H.
Qed.

Lemma rx_frame_sub fl fl' s s' : rx_frame fl s s' → fl' ⊆ fl → rx_frame fl' s s'.
Proof. unfold rx_frame. intros (? & ? & ? & ? & ? & ? & H) Hs. split_and!; [done..|]. intros m Hm. apply H. set_solver. Qed.

#[export] Instance heap_ok_proper : Proper ((≡ₚ) ==> eq ==> iff) heap_ok.
Proof.
  assert (∀ own own' s, own ≡ₚ own' → heap_ok own s → heap_ok own' s) as H.
  { intros own own' s E [H1 H2 H3 H4]. split; [done|by rewrite <- E|intros m; by rewrite <- E|done]. }
  intros own own' E s ? <-. split; by apply H.
Qed.

#[export] Instance net_inv_proper : Proper ((≡ₚ) ==> eq ==> iff) net_inv.
Proof.
  intros fl fl' E s ? <-. unfold net_inv. by setoid_rewrite E.
Qed.

Lemma on_mbuf_run {A} m (f : ST mbuf A) s b x b' :
  n_mbufs s !! m = Some b → run f b x b' → run (on_mbuf m f) s x (s <| n_mbufs ::= <[m := b']> |>).
Proof. intros Hb E. unfold on_mbuf. by rewrite Hb, E. Qed.

Lemma on_mbuf_read {A} m (f : ST mbuf A) s b x : n_mbufs s !! m = Some b → run f b x b → run (on_mbuf m f) s x s.
Proof. intros Hb E. rewrite (on_mbuf_run m f s b x b Hb E). cbn. rewrite insert_id by done. by destruct s. Qed.

(** A buffer in the hands of running code. *)
Lemma net_inv_held m fl s : net_inv (m :: fl) s → ∃ b, n_mbufs s !! m = Some b ∧ mbuf_ok b ∧ m ≠ 0.
Proof.
  intros (Q & Hh & _). destruct (proj1 (ho_dom _ _ Hh m) ltac:(set_solver)) as [b Hb]. exists b.
  destruct (ho_buf _ _ Hh m b Hb) as (? & _ & ?). done.
Qed.

Lemma not_queued Q s m fl a b : heap_ok (m :: fl ++ tx_owned s ++ queued Q (all_socks s)) s → socks_ok Q s →
  n_sock s !! a = Some b → m ∉ Q a.
Proof.
  intros Hh Hs Hb Hm. pose proof (ho_nodup _ _ Hh) as [Hn _]%NoDup_cons. apply Hn.
  rewrite !elem_of_app. right. right. apply list_elem_of_bind. exists a. split; [done|]. apply (so_dom _ _ Hs). by rewrite Hb.
Qed.

Lemma net_inv_set m fl s b b' : net_inv (m :: fl) s → n_mbufs s !! m = Some b → mbuf_ok b' →
  net_inv (m :: fl) (s <| n_mbufs ::= <[m := b']> |>).
Proof.
  intros (Q & Hh & Hs & Hr) Hb Hok. exists Q. split_and!; [| |by destruct Hr].
  - destruct Hh as [H1 H2 H3 H4]. split; [done..| |]; cbn [n_mbufs n_pages update field_set].
    + intros x. rewrite lookup_insert_is_Some, <- H3. split; [|intros [<-|[_ ?]]; [set_solver|done]].
      intros Hx. destruct (decide (m = x)); [by left|by right].
    + intros x y. rewrite lookup_insert_Some. intros [[<- <-]|[_ Hy]]; [|by apply H4]. destruct (H4 m b Hb) as (? & ? & _). done.
  - split; cbn [n_mbufs n_pages n_sock n_sockets update field_set]; [apply Hs..| |].
    + intros a x Hx. destruct (so_page _ _ Hs a x Hx) as (? & ? & Hn). split_and!; [done..|].
      rewrite lookup_insert_ne; [done|]. intros ->. congruence.
    + intros a x Hx. apply mqueue_insert; [by apply (so_queue _ _ Hs)|by apply (not_queued Q s m fl a x)].
Qed.

Lemma rx_frame_set m fl s b : net_inv (m :: fl) s → rx_frame fl s (s <| n_mbufs ::= <[m := b]> |>).
Proof.
  intros (Q & Hh & _). split_and!; [done..|]. intros x Hx. cbn. rewrite lookup_insert_ne; [done|]. intros <-.
  pose proof (ho_nodup _ _ Hh) as [Hm _]%NoDup_cons. set_solver.
Qed.

Lemma on_pages_run {A} (f : ST K A) s x k : run f (n_pages s) x k → run (on_pages f) s x (s <| n_pages := k |>).
Proof. intros E. unfold on_pages. by rewrite E. Qed.

(** A change of the page table that leaves the counts of the pages in use. *)
Lemma net_inv_pages fl s k : net_inv fl s → pwf k → (∀ p, 0 < refs (n_pages s) p → refs k p = refs (n_pages s) p) →
  net_inv fl (s <| n_pages := k |>).
Proof.
  intros (Q & Hh & Hs & Hr) Hk He. exists Q. split_and!; [| |by destruct Hr].
  - destruct Hh as [H1 H2 H3 H4]. split; [done..|]. cbn. intros m b Hb. destruct (H4 m b Hb) as (? & E & ?).
    by rewrite He, E by lia.
  - destruct Hs as [H1 H2 H3 H4]. split; [done..| |done]. cbn. intros a b Hb. destruct (H3 a b Hb) as (? & E & ?).
    by rewrite He, E by lia.
Qed.

(** A page nobody refers to is neither a buffer nor a socket. *)
Lemma net_inv_fresh fl s p : net_inv fl s → refs (n_pages s) p = 0 → n_mbufs s !! p = None ∧ n_sock s !! p = None.
Proof.
  intros (Q & Hh & Hs & _) Hp. split; apply eq_None_not_Some; intros [b Hb].
  - destruct (ho_buf _ _ Hh p b Hb) as (_ & ? & _). lia.
  - destruct (so_page _ _ Hs p b Hb) as (_ & ? & _). lia.
Qed.

Lemma net_inv_new fl s p b : net_inv fl s → n_mbufs s !! p = None → n_sock s !! p = None → p ≠ 0 → refs (n_pages s) p = 1 →
  mbuf_ok b → net_inv (p :: fl) (s <| n_mbufs ::= <[p := b]> |>).
Proof.
  intros (Q & Hh & Hs & Hr) Hm Hsk H0 Hp Hb. exists Q. split_and!; [| |by destruct Hr].
  - destruct Hh as [H1 H2 H3 H4]. split; cbn [n_mbufs n_pages update field_set]; [done| | |].
    + constructor; [|done]. intros [x Hx]%H3. congruence.
    + intros x. rewrite lookup_insert_is_Some'. cbn [app]. rewrite elem_of_cons. rewrite (H3 x). naive_solver.
    + intros x y. rewrite lookup_insert_Some. intros [[<- <-]|[_ Hy]]; [done|by apply H4].
  - split; cbn [n_mbufs n_pages n_sock n_sockets update field_set]; [apply Hs..| |].
    + intros a x Hx. destruct (so_page _ _ Hs a x Hx) as (? & ? & Hn). split_and!; [done..|].
      rewrite lookup_insert_ne; [done|]. intros ->. congruence.
    + intros a x Hx. apply mqueue_insert; [by apply (so_queue _ _ Hs)|]. intros Hin.
      destruct (proj1 (ho_dom _ _ Hh p)) as [y Hy]; [|congruence]. rewrite !elem_of_app. right. right.
      apply list_elem_of_bind. exists a. split; [done|]. apply (so_dom _ _ Hs). by rewrite Hx.
Qed.

Lemma mbufalloc_spec fl s h : net_inv fl s → 0 ≤ h ≤ MBUF_SIZE →
  ∃ m s', run (mbufalloc h) s m s' ∧ rx_frame fl s s' ∧
    ((m = 0 ∧ net_inv fl s') ∨ (m ≠ 0 ∧ net_inv (m :: fl) s' ∧ n_mbufs s' !! m = Some (mbuf_new h))).
Proof.
  intros Hi Hh. pose proof Hi as (Q & Hho & _). destruct (palloc_spec (n_pages s) (ho_pages _ _ Hho)) as (r & k & E & Hk & Hr).
  unfold mbufalloc. destruct (Z.ltb_spec MBUF_SIZE h); [lia|]. step_with (on_pages_run palloc s r k E). destruct r as [p|].
  - destruct Hr as (H0 & _ & Hpos & Hk'). destruct (net_inv_fresh fl s p Hi H0) as [Hm Hsk].
    assert (net_inv fl (s <| n_pages := k |>)) as Hi1.
    { apply net_inv_pages; [done..|]. intros x Hx. rewrite Hk'. unfold fupd. rewrite decide_False; [done|]. intros ->. lia. }
    do 2 eexists. split; [reflexivity|]. split.
    { split_and!; [done..|]. intros x Hx. cbn. rewrite lookup_insert_ne; [done|]. intros <-.
      destruct (proj1 (ho_dom _ _ Hho p)) as [y Hy]; [set_solver|congruence]. }
    right. split_and!; [lia| |by cbn; rewrite lookup_insert_eq].
    apply (net_inv_new fl (s <| n_pages := k |>)); try done; [lia| |by apply mbuf_new_ok].
    cbn. rewrite Hk'. unfold fupd. by rewrite decide_True.
  - do 2 eexists. split; [reflexivity|]. split; [done|]. left. split; [done|]. apply net_inv_pages; [done..|]. intros x _. apply Hr.
Qed.

(** Allocating a buffer leaves the sockets and the transmit ring alone. *)
Definition tx_frame s s' : Prop :=
  n_sock s' = n_sock s ∧ tx_ring s' = tx_ring s ∧ tx_mbufs s' = tx_mbufs s ∧ reg_tdt s' = reg_tdt s.

Lemma mbufalloc_frame h s m s' : run (mbufalloc h) s m s' → tx_frame s s'.
Proof.
  unfold mbufalloc, on_pages. case_match; [by intros [= _ <-]|]. unfold mbind, ST_bind. destruct (palloc (n_pages s)) as [[[p|] k]| |]; [..|done|done].
  - by intros [= _ <-].
  - by intros [= _ <-].
Qed.

Lemma net_inv_free m fl s k : net_inv (m :: fl) s → pwf k → (∀ x, x ≠ m → refs k x = refs (n_pages s) x) →
  net_inv fl (s <| n_pages := k |> <| n_mbufs ::= delete m |>).
Proof.
  intros Hi Hk Hne. pose proof Hi as (Q & Hh & Hs & Hr). destruct (net_inv_held m fl s Hi) as (b & Hb & _).
  exists Q. split_and!; [| |by destruct Hr].
  - destruct Hh as [H1 H2 H3 H4]. cbn [app] in H2, H3. apply NoDup_cons in H2 as [Hn H2]. split; cbn [n_mbufs n_pages update field_set]; [done..| |].
    + intros x. rewrite lookup_delete_is_Some, <- H3, elem_of_cons. split; [|naive_solver].
      intros Hx. split; [|by right]. intros ->. by apply Hn.
    + intros x y. rewrite lookup_delete_Some. intros [Hx Hy]. rewrite Hne by done. by apply H4.
  - split; cbn [n_mbufs n_pages n_sock n_sockets update field_set]; [apply Hs..| |].
    + intros a x Hx. destruct (so_page _ _ Hs a x Hx) as (? & ? & Hn). split_and!; [done| |].
      * rewrite Hne; [done|]. intros ->. congruence.
      * by rewrite lookup_delete_None; right.
    + intros a x Hx. apply mqueue_delete; [by apply (so_queue _ _ Hs)|by apply (not_queued Q s m fl a x)].
Qed.

Lemma mbuffree_run m own s : heap_ok own s → m ∈ own → ∃ k, pwf k ∧ (∀ x, x ≠ m → refs k x = refs (n_pages s) x) ∧
  run (mbuffree m) s () (s <| n_pages := k |> <| n_mbufs ::= delete m |>).
Proof.
  intros Hh Hm. destruct (proj1 (ho_dom _ _ Hh m) Hm) as [b Hb]. destruct (ho_buf _ _ Hh m b Hb) as (H0 & Hp & _).
  destruct (pfree_spec (n_pages s) m (ho_pages _ _ Hh)) as (k & E & Hk & Hk'); [lia|]. exists k. split; [done|]. split.
  - intros x Hx. rewrite Hk'. unfold fupd. by rewrite decide_False.
  - unfold mbuffree. by step_with (on_pages_run (pfree m) s () k E).
Qed.

Lemma mbuffree_spec m fl s : net_inv (m :: fl) s → ∃ s', run (mbuffree m) s () s' ∧ rx_frame fl s s' ∧ net_inv fl s'.
Proof.
  intros Hi. pose proof Hi as (Q & Hh & _). destruct (mbuffree_run m _ s Hh ltac:(set_solver)) as (k & Hk & Hne & E).
  eexists. split; [exact E|]. split; [|by apply net_inv_free]. split_and!; [done..|]. intros x Hx. cbn.
  pose proof (ho_nodup _ _ Hh) as [Hm _]%NoDup_cons. rewrite lookup_delete_ne; [done|]. intros <-. set_solver.
Qed.

(** The slots of the transmit ring. *)
Lemma filter_insert_slot (l : list Z) i x y : l !! i = Some x →
  filter (λ m, m ≠ 0) (<[i := y]> l) ++ filter (λ m, m ≠ 0) [x] ≡ₚ filter (λ m, m ≠ 0) [y] ++ filter (λ m, m ≠ 0) l.
Proof.
  intros Hx. rewrite (insert_take_drop _ _ _ ltac:(by eapply lookup_lt_Some)).
  rewrite <- (take_drop_middle l i x Hx) at 3. rewrite (cons_middle y), (cons_middle x), !filter_app, <- !app_assoc.
  rewrite Permutation_app_swap_app. apply Permutation_app_head, Permutation_app_head, Permutation_app_comm.
Qed.

(** A slot is emptied, its buffer now held by running code; and filled. *)
Lemma net_inv_tx fl s ind x y : net_inv (filter (λ m, m ≠ 0) [y] ++ fl) s → tx_mbufs s !! ind = Some x →
  net_inv (filter (λ m, m ≠ 0) [x] ++ fl) (s <| tx_mbufs ::= <[ind := y]> |>).
Proof.
  intros (Q & Hh & Hs & Hr) Hx. exists Q. split_and!.
  - enough (heap_ok (filter (λ m, m ≠ 0) [x] ++ fl ++ tx_owned (s <| tx_mbufs ::= <[ind := y]> |>) ++ queued Q (all_socks s)) s) as H.
    { rewrite <- app_assoc. destruct H as [H1 H2 H3 H4]. by split. }
    rewrite <- app_assoc in Hh. unfold tx_owned in *. cbn [tx_mbufs update field_set].
    assert (∀ A B C D E : list Z, A ++ B ≡ₚ C ++ D → C ++ E ++ D ++ queued Q (all_socks s) ≡ₚ B ++ E ++ A ++ queued Q (all_socks s)) as Hp.
    { intros A B C D E HP. rewrite (Permutation_app_swap_app C E), (app_assoc C D), <- HP, <- app_assoc.
      rewrite (Permutation_app_swap_app A B). apply Permutation_app_swap_app. }
    by rewrite (Hp _ _ _ _ fl (filter_insert_slot _ _ _ y Hx)) in Hh.
  - by destruct Hs.
  - destruct Hr. split; cbn; [done|by rewrite length_insert|done..].
Qed.

Lemma net_inv_ring fl s r t : net_inv fl s → length r = TX_RING_SIZE → 0 ≤ t < Z.of_nat TX_RING_SIZE →
  net_inv fl (s <| tx_ring := r |> <| reg_tdt := t |>).
Proof.
  intros (Q & [] & [] & []) Hl Ht. exists Q. by split_and!; split.
Qed.

Lemma e1000_transmit_spec m fl s : net_inv (m :: fl) s →
  ∃ r s', run (e1000_transmit m) s r s' ∧ rx_frame fl s s' ∧ ((r = 0 ∧ net_inv fl s') ∨ (r = -1 ∧ net_inv (m :: fl) s')).
Proof.
  intros Hi. unfold e1000_transmit. step_with (run_get s). case_match; [by eexists _, _; split_and!; [reflexivity|done|right]|].
  pose proof Hi as (Q & Hh & Hs & Hr). set (ind := Z.to_nat (reg_tdt s)).
  destruct (lookup_lt_is_Some_2 (tx_mbufs s) ind) as [old Hold]; [rewrite (ri_txm _ Hr); pose proof (ri_tdt _ Hr); lia|].
  rewrite Hold. cbn [default]. unfold id.
  assert (∃ s1, run (if old =? 0 then mret () else _ ← mbuffree old; modify (λ s, s <| tx_mbufs ::= <[ind := 0]> |>)) s () s1 ∧
    net_inv (m :: fl) s1 ∧ tx_mbufs s1 !! ind = Some 0 ∧ rx_frame fl s s1) as (s1 & E1 & Hi1 & Hs1 & Hf1).
  { destruct (Z.eqb_spec old 0) as [->|H0]; [by exists s|].
    assert (old ∈ m :: fl ++ tx_owned s ++ queued Q (all_socks s)) as Hin.
    { right. rewrite !elem_of_app. right. left. apply list_elem_of_filter. split; [done|]. by eapply list_elem_of_lookup_2. }
    destruct (mbuffree_run old _ s Hh Hin) as (k & Hk & Hne & E). step_with E. eexists. split; [reflexivity|]. split_and!; [|by cbn; rewrite list_lookup_insert_eq; [|by eapply lookup_lt_Some]|].
    2:{ split_and!; [done..|]. intros x Hx. cbn. rewrite lookup_delete_ne; [done|]. intros <-.
        pose proof (ho_nodup _ _ Hh) as [_ Hnd]%NoDup_cons. apply NoDup_app in Hnd as (_ & Hd & _). apply (Hd old Hx).
        apply elem_of_app. left. apply list_elem_of_filter. split; [done|]. by eapply list_elem_of_lookup_2. }
    pose proof (net_inv_tx (m :: fl) s ind old 0 Hi Hold) as Hi0. rewrite filter_cons_True, filter_nil in Hi0 by done.
    exact (net_inv_free old (m :: fl) _ k Hi0 Hk Hne). }
  step_with E1. destruct (net_inv_held m fl s1 Hi1) as (b & Hb & Hok & Hm0).
  step_with (on_mbuf_read m get s1 b b Hb eq_refl). eexists _, _. split; [reflexivity|]. split; [done|]. left. split; [done|].
  pose proof (net_inv_tx fl s1 ind 0 m) as Hi2. rewrite filter_cons_True, filter_nil in Hi2 by done. specialize (Hi2 Hi1 Hs1).
  refine (net_inv_ring fl _ (alter _ ind (tx_ring s1)) _ Hi2 _ _).
  - rewrite length_alter. by destruct Hi1 as (? & _ & _ & []).
  - apply Z.mod_pos_bound. done.
Qed.

(** ** Sending *)

Lemma net_tx_eth_spec m ethtype fl s b : net_inv (m :: fl) s → n_mbufs s !! m = Some b → ETH_SIZE ≤ m_head b →
  ∃ s', run (net_tx_eth m ethtype) s () s' ∧ rx_frame fl s s' ∧ net_inv fl s'.
Proof.
  intros Hi Hb Hh. pose proof Hi as (Q & Hho & _ & Hr). destruct (ho_buf _ _ Hho m b Hb) as (_ & _ & Hok).
  unfold net_tx_eth. step_with (run_get s). destruct (eth_header_run b (local_mac s) ethtype Hok Hh) as (b' & E & Hp); [apply Hr..|].
  step_with (on_mbuf_run m _ s b () b' Hb E). pose proof (net_inv_set m fl s b b' Hi Hb (proj1 Hp)) as Hi1.
  destruct (e1000_transmit_spec m fl _ Hi1) as (r & s2 & E2 & Hf2 & [[-> Hi2]|[-> Hi2]]); step_with E2.
  - eexists. split; [reflexivity|]. split; [|done]. etransitivity; [by apply rx_frame_set|done].
  - destruct (mbuffree_spec m fl s2 Hi2) as (s3 & E3 & Hf3 & Hi3). exists s3. split; [exact E3|]. split; [|done].
    etransitivity; [by apply rx_frame_set|]. by etransitivity.
Qed.

Lemma net_tx_ip_spec m proto dip fl s b : net_inv (m :: fl) s → n_mbufs s !! m = Some b → ETH_SIZE + IP_SIZE ≤ m_head b →
  ∃ s', run (net_tx_ip m proto dip) s () s' ∧ rx_frame fl s s' ∧ net_inv fl s'.
Proof.
  intros Hi Hb Hh. pose proof Hi as (Q & Hho & _ & Hr). destruct (ho_buf _ _ Hho m b Hb) as (_ & _ & Hok).
  unfold ETH_SIZE, IP_SIZE in Hh.
  unfold net_tx_ip. step_with (run_get s). destruct (ip_header_run b (local_ip s) proto dip Hok) as (b' & E & Hp); [unfold IP_SIZE; lia|].
  step_with (on_mbuf_run m _ s b () b' Hb E). pose proof (net_inv_set m fl s b b' Hi Hb (proj1 Hp)) as Hi1.
  destruct (net_tx_eth_spec m ETHTYPE_IP fl _ b' Hi1) as (s2 & E2 & Hf2 & Hi2); [cbn; by rewrite lookup_insert_eq| |].
  - destruct Hp as (_ & _ & -> & _). change (Z.of_nat (length _)) with 20. unfold ETH_SIZE. lia.
  - exists s2. split; [exact E2|]. split; [|done]. etransitivity; [by apply rx_frame_set|done].
Qed.

Lemma net_tx_udp_spec m dip sport dport fl s b : net_inv (m :: fl) s → n_mbufs s !! m = Some b → ETH_SIZE + IP_SIZE + UDP_SIZE ≤ m_head b →
  ∃ s', run (net_tx_udp m dip sport dport) s () s' ∧ rx_frame fl s s' ∧ net_inv fl s'.
Proof.
  intros Hi Hb Hh. pose proof Hi as (Q & Hho & _ & Hr). destruct (ho_buf _ _ Hho m b Hb) as (_ & _ & Hok).
  unfold ETH_SIZE, IP_SIZE, UDP_SIZE in Hh.
  unfold net_tx_udp. destruct (udp_header_run b sport dport Hok) as (b' & E & Hp); [unfold UDP_SIZE; lia|].
  step_with (on_mbuf_run m _ s b () b' Hb E). pose proof (net_inv_set m fl s b b' Hi Hb (proj1 Hp)) as Hi1.
  destruct (net_tx_ip_spec m IPPROTO_UDP dip fl _ b' Hi1) as (s2 & E2 & Hf2 & Hi2); [cbn; by rewrite lookup_insert_eq| |].
  - destruct Hp as (_ & _ & -> & _). change (Z.of_nat (length _)) with 8. unfold ETH_SIZE, IP_SIZE. lia.
  - exists s2. split; [exact E2|]. split; [|done]. etransitivity; [by apply rx_frame_set|done].
Qed.

Lemma net_tx_arp_spec op dmac dip fl s : net_inv fl s → is_bytes dmac → length dmac = ETHADDR_LEN →
  ∃ r s', run (net_tx_arp op dmac dip) s r s' ∧ rx_frame fl s s' ∧ net_inv fl s'.
Proof.
  intros Hi Hd Hl. unfold net_tx_arp.
  destruct (mbufalloc_spec fl s MBUF_DEFAULT_HEADROOM Hi) as (m & s1 & E1 & Hf1 & H1); [done|]. step_with E1.
  destruct H1 as [[-> Hi1]|(Hm & Hi1 & Hb)]; [by eexists _, _|]. destruct (Z.eqb_spec m 0); [done|].
  step_with (run_get s1). pose proof Hi1 as (Q & _ & _ & Hr).
  destruct (arp_header_run (mbuf_new MBUF_DEFAULT_HEADROOM) op (local_mac s1) (local_ip s1) dmac dip) as (b' & E & Hok & _ & Hh & _);
    [by apply mbuf_new_ok|done|done|apply Hr|done|apply Hr|done|].
  step_with (on_mbuf_run m _ s1 _ () b' Hb E). pose proof (net_inv_set m fl s1 _ b' Hi1 Hb Hok) as Hi2.
  destruct (net_tx_eth_spec m ETHTYPE_ARP fl _ b' Hi2) as (s3 & E3 & Hf3 & Hi3); [cbn; by rewrite lookup_insert_eq|by rewrite Hh|].
  step_with E3. eexists _, _. split; [reflexivity|]. split; [|done]. etransitivity; [exact Hf1|]. etransitivity; [by apply rx_frame_set|done].
Qed.

(** ** Queues *)

(** The heaps differ only in [next] pointers. *)
Definition unlinked (b : mbuf) : mbuf := b <| m_next := 0 |>.
Definition relinked (h h' : gmap Z mbuf) : Prop := ∀ x, unlinked <$> h' !! x = unlinked <$> h !! x.

Lemma relinked_lookup h h' x b' : relinked h h' → h' !! x = Some b' → ∃ b, h !! x = Some b ∧ unlinked b = unlinked b'.
Proof. intros Hr Hx. specialize (Hr x). rewrite Hx in Hr. destruct (h !! x) as [b|]; [|done]. exists b. split; [done|]. by apply (inj Some) in Hr. Qed.

Lemma relinked_insert h h' x b b' : relinked h h' → h !! x = Some b → unlinked b' = unlinked b → relinked h (<[x := b']> h').
Proof.
  intros Hr Hx E y. destruct (decide (x = y)) as [<-|]; [|by rewrite lookup_insert_ne].
  rewrite lookup_insert_eq, Hx. cbn. by rewrite E.
Qed.

Lemma heap_ok_relinked own s h' : heap_ok own s → relinked (n_mbufs s) h' → heap_ok own (s <| n_mbufs := h' |>).
Proof.
  intros [H1 H2 H3 H4] Hr. split; cbn; [done..| |].
  - intros m. rewrite H3. specialize (Hr m). destruct (n_mbufs s !! m), (h' !! m); done.
  - intros m b' Hb'. destruct (relinked_lookup _ _ _ _ Hr Hb') as (b & Hb & E). destruct (H4 m b Hb) as (? & ? & Hok).
    split_and!; [done..|]. destruct b, b'. by injection E as <- <- <-.
Qed.

Lemma mseg_elem h l : ∀ a x, mseg h a l → x ∈ l → x ≠ 0 ∧ is_Some (h !! x).
Proof.
  induction l as [|y l IH]; intros a x; [set_solver|]. intros (-> & Hy & b & Hb & Hs). rewrite elem_of_cons.
  intros [->|Hx]; [by rewrite Hb|by eapply IH].
Qed.

Lemma mbufq_pushtail_run s q l m b : mqueue (n_mbufs s) q l → NoDup (m :: l) → m ≠ 0 → n_mbufs s !! m = Some b →
  ∃ q' h', run (mbufq_pushtail q m) s q' (s <| n_mbufs := h' |>) ∧ mqueue h' q' (l ++ [m]) ∧ relinked (n_mbufs s) h' ∧
    ∀ x, x ∉ m :: l → h' !! x = n_mbufs s !! x.
Proof.
  intros Hq [Hm Hnd]%NoDup_cons H0 Hb. unfold mbufq_pushtail.
  step_with (on_mbuf_run m (modify (λ b, b <| m_next := 0 |>)) s b () _ Hb eq_refl).
  assert (relinked (n_mbufs s) (<[m := b <| m_next := 0 |>]> (n_mbufs s))) as Hr by (by eapply relinked_insert).
  destruct l as [|y l' _] using rev_ind.
  - destruct Hq as [Hs _]. cbn in Hs. rewrite Hs, Z.eqb_refl. eexists _, _. split; [reflexivity|]. split_and!; [|done|].
    + split; cbn; [|by intros x [= <-]]. split_and!; [done..|]. eexists. by rewrite lookup_insert_eq.
    + intros x Hx. rewrite lookup_insert_ne; [done|set_solver].
  - destruct (Z.eqb_spec (q_first q) 0) as [E|].
    { destruct Hq as [Hs _]. destruct l'; destruct Hs as (? & ? & _); congruence. }
    pose proof (mseg_elem _ _ _ y (proj1 Hq) ltac:(set_solver)) as [Hy0 [bt Hbt]].
    assert (q_last q = y) as -> by (apply Hq; apply last_snoc). assert (y ≠ m) by set_solver.
    assert (<[m := b <| m_next := 0 |>]> (n_mbufs s) !! y = Some bt) as Hy by (by rewrite lookup_insert_ne).
    step_with (on_mbuf_run y (modify (λ b, b <| m_next := m |>)) (s <| n_mbufs ::= <[m := b <| m_next := 0 |>]> |>) bt () _ Hy eq_refl).
    eexists _, _. split; [reflexivity|]. split_and!.
    + rewrite <- app_assoc. split; [apply mseg_snoc; try done; apply Hq|]. intros x. rewrite (app_assoc l' [y] [m]), last_snoc. by intros [= <-].
    + by eapply relinked_insert.
    + intros x Hx. assert (m ≠ x ∧ y ≠ x) as [? ?] by (split; intros ->; apply Hx; set_solver). rewrite lookup_insert_ne by done. cbn [n_mbufs update field_set]. by rewrite lookup_insert_ne.
Qed.

Lemma mbufq_pophead_run s q x l : mqueue (n_mbufs s) q (x :: l) →
  ∃ q', run (mbufq_pophead q) s (x, q') s ∧ mqueue (n_mbufs s) q' l.
Proof.
  intros [(E & Hx & b & Hb & Hs) Hl]. unfold mbufq_pophead. rewrite E. destruct (Z.eqb_spec x 0); [done|].
  step_with (on_mbuf_read x (gets m_next) s b (m_next b) Hb eq_refl). eexists. split; [reflexivity|]. split; [done|].
  intros y Hy. cbn. apply Hl. destruct l; [done|]. exact Hy.
Qed.

(** ** Delivery *)

(** The first socket of the list that satisfies [f]. *)
Fixpoint first_sock (f : Z → sock → bool) (h : gmap Z sock) (l : list Z) : option Z :=
  match l with
  | [] => None
  | a :: l => match h !! a with Some b => if f a b then Some a else first_sock f h l | None => None end
  end.

Lemma on_sock_read {A} a (f : ST sock A) s b x : n_sock s !! a = Some b → run f b x b → run (on_sock a f) s x s.
Proof. intros Hb E. unfold on_sock. rewrite Hb, E. cbn. rewrite insert_id by done. by destruct s. Qed.
Lemma on_sock_run {A} a (f : ST sock A) s b x b' :
  n_sock s !! a = Some b → run f b x b' → run (on_sock a f) s x (s <| n_sock ::= <[a := b']> |>).
Proof. intros Hb E. unfold on_sock. by rewrite Hb, E. Qed.

Lemma find_sock_run f l s : (∀ a, a ∈ l → is_Some (n_sock s !! a)) → run (find_sock f l) s (first_sock f (n_sock s) l) s.
Proof.
  induction l as [|a l IH]; intros Hl; [done|]. cbn [find_sock first_sock]. destruct (Hl a ltac:(set_solver)) as [b Hb].
  step_with (on_sock_read a get s b b Hb eq_refl). rewrite Hb. destruct (f a b); [done|]. apply IH. set_solver.
Qed.

Lemma first_sock_Some f h l a : first_sock f h l = Some a → a ∈ l ∧ ∃ b, h !! a = Some b ∧ f a b = true.
Proof.
  induction l as [|x l IH]; [done|]. cbn. destruct (h !! x) as [b|] eqn:Hb; [|done]. destruct (f x b) eqn:Hf.
  - intros [= ->]. set_solver.
  - intros [Hin Hex]%IH. split; [by right|done].
Qed.

Lemma queued_ext Q Q' l : (∀ a, a ∈ l → Q' a = Q a) → queued Q' l = queued Q l.
Proof.
  unfold queued. induction l as [|x l IH]; intros H; [done|]. rewrite !bind_cons, (H x), IH; set_solver.
Qed.

Lemma queued_fupd Q l a v : NoDup l → a ∈ l → queued (fupd a v Q) l ++ Q a ≡ₚ v ++ queued Q l.
Proof.
  intros Hnd (l1 & l2 & ->)%list_elem_of_split. rewrite NoDup_app, NoDup_cons in Hnd. destruct Hnd as (_ & H1 & H2 & _).
  unfold queued. rewrite !bind_app, !bind_cons. fold (queued (fupd a v Q) l1) (queued (fupd a v Q) l2) (queued Q l1) (queued Q l2).
  rewrite fupd_eq, !(queued_ext Q (fupd a v Q)) by (intros x Hx; apply fupd_ne; set_solver).
  rewrite <- !app_assoc, (Permutation_app_swap_app (queued Q l1) v). do 2 apply Permutation_app_head. apply Permutation_app_comm.
Qed.

Lemma queued_snoc Q l a m : NoDup l → a ∈ l → queued (fupd a (Q a ++ [m]) Q) l ≡ₚ m :: queued Q l.
Proof.
  intros Hnd Ha. apply (Permutation_app_inv_r (Q a)). rewrite queued_fupd by done.
  rewrite (Permutation_app_comm (m :: _)), <- app_assoc. done.
Qed.

Lemma queued_disj Q l a x z : NoDup (queued Q l) → a ∈ l → x ∈ l → a ≠ x → z ∈ Q x → z ∉ Q a.
Proof.
  unfold queued. induction l as [|y l IH]; intros Hnd Ha Hx Hne Hz Hza; [set_solver|]. rewrite bind_cons, NoDup_app in Hnd.
  destruct Hnd as (_ & Hd & Hnd). apply elem_of_cons in Ha as [->|Ha], Hx as [->|Hx]; [done| | |by apply IH].
  - apply (Hd z Hza), list_elem_of_bind. by exists x.
  - apply (Hd z Hz), list_elem_of_bind. by exists a.
Qed.

(** A buffer is appended to the queue of a socket. *)
Lemma net_inv_enqueue m fl s a b q' h' Q :
  heap_ok (m :: fl ++ tx_owned s ++ queued Q (all_socks s)) s → socks_ok Q s → rings_ok s → n_sock s !! a = Some b →
  mqueue h' q' (Q a ++ [m]) → relinked (n_mbufs s) h' → (∀ x, x ∉ m :: Q a → h' !! x = n_mbufs s !! x) →
  net_inv fl (s <| n_mbufs := h' |> <| n_sock ::= <[a := b <| so_rxq := q' |>]> |>).
Proof.
  intros Hh Hs Hr Hb Hq Hl Hx. assert (a ∈ all_socks s) as Ha by (apply (so_dom _ _ Hs); by rewrite Hb).
  exists (fupd a (Q a ++ [m]) Q). split_and!; [| |by destruct Hr].
  - apply (heap_ok_relinked _ _ h') in Hh; [|done].
    enough (heap_ok (fl ++ tx_owned s ++ queued (fupd a (Q a ++ [m]) Q) (all_socks s)) (s <| n_mbufs := h' |>)) as [] by by split.
    revert Hh. apply heap_ok_proper; [|done]. rewrite (queued_snoc Q) by (done || apply Hs). rewrite !app_assoc. symmetry. apply Permutation_middle.
  - pose proof Hh as Hh0. destruct Hs as [H1 H2 H3 H4]. split; cbn [n_sockets n_sock n_pages n_mbufs update field_set].
    + done.
    + intros x. rewrite lookup_insert_is_Some', H2. split; [by right|]. intros [<-|?]; [by rewrite Hb|done].
    + intros x y Hy. assert (is_Some (n_sock s !! x)) as [z Hz].
      { rewrite <- H2. apply lookup_insert_Some in Hy as [[<- _]|[_ Hy]]; [done|]. apply H2. by rewrite Hy. }
      destruct (H3 x z Hz) as (? & ? & Hn). split_and!; [done..|]. specialize (Hl x). rewrite Hn in Hl. by destruct (h' !! x).
    + intros x y. rewrite lookup_insert_Some. intros [[<- <-]|[Hne Hy]]; [by rewrite fupd_eq|].
      rewrite fupd_ne by done. apply (mqueue_ext (n_mbufs s)); [by apply H4|]. intros z Hz. rewrite Hx; [done|].
      intros [->|Hza]%elem_of_cons; [by apply (not_queued Q s m fl x y Hh0)|].
      pose proof (ho_nodup _ _ Hh0) as [_ [_ [_ Hnd%NoDup_app]]%NoDup_app]%NoDup_cons. destruct Hnd as (_ & _ & Hnd).
      by eapply (queued_disj Q (all_socks s) a x z); eauto; apply H2.
Qed.

Lemma sockrecvudp_spec m raddr lport rport fl s : net_inv (m :: fl) s →
  ∃ s', run (sockrecvudp m raddr lport rport) s () s' ∧ rx_frame fl s s' ∧ net_inv fl s'.
Proof.
  intros Hi. pose proof Hi as (Q & Hh & Hs & Hr). unfold sockrecvudp. step_with (run_get s).
  step_with (find_sock_run (λ _, receives raddr lport rport) (n_sockets s) s ltac:(intros a Ha; apply (so_dom _ _ Hs), elem_of_app; by right)).
  destruct (first_sock _ _ _) as [a|] eqn:Hf; [|by apply mbuffree_spec].
  destruct (first_sock_Some _ _ _ _ Hf) as (Ha0 & b & Hb & _). assert (a ∈ all_socks s) as Ha by (apply elem_of_app; by right). step_with (on_sock_read a get s b b Hb eq_refl).
  destruct (net_inv_held m fl s Hi) as (mb & Hmb & _ & H0).
  pose proof (ho_nodup _ _ Hh) as [_ [_ [_ Hnd%NoDup_app]]%NoDup_app]%NoDup_cons. destruct Hnd as (_ & _ & Hnd).
  destruct (mbufq_pushtail_run s (so_rxq b) (Q a) m mb) as (q' & h' & E & Hq' & Hl & Hx); [by apply (so_queue _ _ Hs)| |done..|].
  - apply NoDup_cons. split; [by apply (not_queued Q s m fl a b)|]. apply list_elem_of_split in Ha as (l1 & l2 & E). rewrite E in Hnd.
    unfold queued in Hnd. rewrite bind_app, bind_cons in Hnd. apply NoDup_app in Hnd as (_ & _ & Hnd). by apply NoDup_app in Hnd as (? & _).
  - step_with E. eexists. split; [apply (on_sock_run a _ (s <| n_mbufs := h' |>) b); [done|reflexivity]|].
    split; [|by apply (net_inv_enqueue m fl s a b q' h' Q)]. split_and!; [done..|]. intros x Hxf. cbn. apply Hx.
    pose proof (ho_nodup _ _ Hh) as [Hnm Hnd2]%NoDup_cons. apply NoDup_app in Hnd2 as (_ & Hd & _). intros [->|Hxa]%elem_of_cons; [set_solver|].
    apply (Hd x Hxf). apply elem_of_app. right. apply list_elem_of_bind. by exists a.
Qed.

(** ** Receiving: whatever the bytes of the packet *)

(** [c] returns and keeps the invariant, the buffers [fl] held. *)
Definition consumes (c : ST (net K) ()) fl s : Prop := ∃ s', run c s () s' ∧ rx_frame fl s s' ∧ net_inv fl s'.

Lemma consumes_after c fl s s1 : rx_frame fl s s1 → consumes c fl s1 → ∃ s', run c s1 () s' ∧ rx_frame fl s s' ∧ net_inv fl s'.
Proof. intros Hf (s' & E & Hf' & Hi). exists s'. split; [done|]. split; [by etransitivity|done]. Qed.

Lemma mbuffree_consumes m fl s : net_inv (m :: fl) s → consumes (mbuffree m) fl s.
Proof. apply mbuffree_spec. Qed.

(** Pulling a header of [n] bytes, and code for both outcomes. *)
Lemma pull_consumes n m fl s (f : option Z → ST (net K) ()) : net_inv (m :: fl) s → 0 ≤ n →
  consumes (f None) fl s →
  (∀ o b s', net_inv (m :: fl) s' → n_mbufs s' !! m = Some b → 0 ≤ o → o + n ≤ MBUF_ROOM → consumes (f (Some o)) fl s') →
  consumes (o ← on_mbuf m (mbufpull n); f o) fl s.
Proof.
  intros Hi Hn H0 H1. destruct (net_inv_held m fl s Hi) as (b & Hb & Hok & _). destruct (decide (m_len b < n)).
  - unfold consumes. by step_with (on_mbuf_read m _ s b None Hb (mbufpull_short n b ltac:(done))).
  - destruct (mbufpull_run n b ltac:(lia) Hok) as (E & Hok' & _). unfold consumes.
    step_with (on_mbuf_run m _ s b _ _ Hb E). apply (consumes_after _); [by apply rx_frame_set|]. eapply H1; [by eapply net_inv_set| | |].
    + cbn [n_mbufs update field_set]. by rewrite lookup_insert_eq.
    + apply Hok.
    + destruct Hok as (? & ? & ? & _). lia.
Qed.

Lemma load_consumes {A} (g : list Z → A) m fl s b (f : A → ST (net K) ()) : n_mbufs s !! m = Some b →
  consumes (f (g (m_buf b))) fl s → consumes (x ← load m g; f x) fl s.
Proof. intros Hb H. unfold consumes, load. by step_with (on_mbuf_read m (gets (λ b, g (m_buf b))) s b _ Hb eq_refl). Qed.

Lemma net_rx_udp_consumes m len iphdr fl s : net_inv (m :: fl) s → consumes (net_rx_udp m len iphdr) fl s.
Proof.
  intros Hi. apply pull_consumes; [done|done|by apply mbuffree_consumes|]. clear Hi. intros o b s1 Hi Hb Ho _.
  apply (load_consumes _ m _ _ b); [done|]. case_match; [by apply mbuffree_consumes|].
  unfold consumes, mlen. step_with (on_mbuf_read m (gets m_len) s1 b _ Hb eq_refl).
  destruct (Z.ltb_spec (m_len b) (u16 (len - UDP_SIZE))); [by apply mbuffree_spec|].
  destruct (net_inv_held m fl s1 Hi) as (b' & Hb' & Hok & _). rewrite Hb in Hb'. injection Hb' as <-.
  pose proof Hok as (? & ? & ? & _). assert (0 ≤ u16 (len - UDP_SIZE)) by (apply Z.mod_pos_bound; lia).
  change MBUF_ROOM with 4076 in *. rewrite u32_small by lia.
  destruct (mbuftrim_run (m_len b - u16 (len - UDP_SIZE)) b ltac:(lia) Hok) as (E & Hok' & _).
  step_with (on_mbuf_run m _ s1 b _ _ Hb E). apply (consumes_after _); [by apply rx_frame_set|]. apply sockrecvudp_spec. by eapply net_inv_set.
Qed.

Lemma net_rx_ip_consumes m fl s : net_inv (m :: fl) s → consumes (net_rx_ip m) fl s.
Proof.
  intros Hi. apply pull_consumes; [done|done|by apply mbuffree_consumes|]. clear Hi. intros o b s1 Hi Hb Ho _.
  apply (load_consumes _ m _ _ b); [done|]. unfold consumes. step_with (run_get s1).
  repeat (case_match; [by apply mbuffree_spec|]). by apply net_rx_udp_consumes.
Qed.

Lemma net_rx_arp_consumes m fl s : net_inv (m :: fl) s → consumes (net_rx_arp m) fl s.
Proof.
  intros Hi. apply pull_consumes; [done|done|by apply mbuffree_consumes|]. clear Hi. intros o b s1 Hi Hb Ho Ho'.
  apply (load_consumes _ m _ _ b); [done|]. case_match; [by apply mbuffree_consumes|]. unfold consumes. step_with (run_get s1).
  case_match; [by apply mbuffree_spec|]. destruct (net_inv_held m fl s1 Hi) as (b' & Hb' & (? & ? & ? & Hl & Hby) & _).
  rewrite Hb in Hb'. injection Hb' as <-. change MBUF_ROOM with 4076 in *. unfold ARP_SIZE in Ho'.
  destruct (net_tx_arp_spec ARP_OP_REPLY (take ETHADDR_LEN (drop (Z.to_nat o + 8) (id (m_buf b)))) (bswapl (ld 4 (Z.to_nat o + 14) (id (m_buf b)))) (m :: fl) s1 Hi)
    as (r & s2 & E & Hf & Hi2).
  - by apply Forall_take, Forall_drop.
  - unfold id. rewrite length_take, length_drop, Hl. unfold ETHADDR_LEN. lia.
  - step_with E. apply (consumes_after _); [by eapply rx_frame_sub, list_subseteq_cons|]. by apply mbuffree_consumes.
Qed.

Lemma net_rx_spec m fl s : net_inv (m :: fl) s → ∃ s', run (net_rx m) s () s' ∧ rx_frame fl s s' ∧ net_inv fl s'.
Proof.
  intros Hi. apply (pull_consumes ETH_SIZE m); [done|done|by apply mbuffree_consumes|]. clear Hi. intros o b s1 Hi Hb Ho _.
  apply (load_consumes _ m _ _ b); [done|]. case_match; [by apply net_rx_ip_consumes|].
  case_match; [by apply net_rx_arp_consumes|by apply mbuffree_consumes].
Qed.

(** ** The receive ring *)

(** Between interrupts: the buffers held are those of the receive ring, ready
    for the card, which stores at most [MBUF_SIZE] bytes in each. *)
Record net_ok s : Prop := {
  no_inv : net_inv (rx_mbufs s) s;
  no_rxm : length (rx_mbufs s) = RX_RING_SIZE;
  no_rx : length (rx_ring s) = RX_RING_SIZE;
  no_rdt : 0 ≤ reg_rdt s < Z.of_nat RX_RING_SIZE;
  no_head : ∀ m b, m ∈ rx_mbufs s → n_mbufs s !! m = Some b → m_head b = 0;
  no_len : ∀ d, d ∈ rx_ring s → 0 ≤ rd_length d ≤ MBUF_SIZE;
}.

Definition rx_done (d : rx_desc) : bool := negb (Z.land (rd_status d) E1000_RXD_STAT_DD =? 0).

Lemma insert_Permutation (l : list Z) i x : (i < length l)%nat → <[i := x]> l ≡ₚ x :: delete i l.
Proof. intros Hi. rewrite insert_take_drop, delete_take_drop by done. symmetry. apply Permutation_middle. Qed.

Lemma net_inv_rx fl s l r t : net_inv fl s → net_inv fl (s <| rx_mbufs := l |> <| rx_ring := r |> <| reg_rdt := t |>).
Proof. intros (Q & [] & [] & []). exists Q. by split_and!; split. Qed.

(** The outcome of one packet is a state with the descriptor handed back to the
    card, or a fault when there is no page for the next packet. *)
Lemma recv_one_spec s ind desc m : net_ok s → rx_ring s !! ind = Some desc → rx_mbufs s !! ind = Some m →
  (∃ s', run (recv_one ind desc m) s () s' ∧ net_ok s' ∧ reg_rdt s' = Z.of_nat ind ∧
     tally rx_done (rx_ring s') = tally rx_done (rx_ring s) - (if rx_done desc then 1 else 0)) ∨
  (recv_one ind desc m s = Panic "kerneltrap" ∧ ∃ s1 s2, run (mbufalloc 0) s1 0 s2 ∧ pwf (n_pages s1)).
Proof.
  intros [Hi Hlm Hlr Hrd Hh Hl] Hd Hm. pose proof (Hl desc ltac:(by eapply list_elem_of_lookup_2)) as Hdl.
  pose proof (delete_Permutation (rx_mbufs s) ind m Hm) as Hp. rewrite Hp in Hi. set (fl := delete ind (rx_mbufs s)) in *.
  destruct (net_inv_held m fl s Hi) as (b & Hb & Hok & _). assert (m_head b = 0) as Hb0 by (apply (Hh m); [by eapply list_elem_of_lookup_2|done]).
  assert (mbuf_ok (b <| m_len := rd_length desc |>)) as Hok'.
  { destruct Hok as (? & ? & ? & ? & ?). split_and!; cbn; try (done || lia). rewrite Hb0. change MBUF_SIZE with 2048 in *.
    change MBUF_ROOM with 4076. lia. }
  unfold recv_one. step_with (on_mbuf_run m (modify (λ b, b <| m_len := rd_length desc |>)) s b () _ Hb eq_refl).
  pose proof (net_inv_set m fl s b _ Hi Hb Hok') as Hi1. pose proof (rx_frame_set m fl s (b <| m_len := rd_length desc |>) Hi) as Hf1.
  destruct (net_rx_spec m fl _ Hi1) as (s2 & E2 & Hf2 & Hi2). step_with E2.
  destruct (mbufalloc_spec fl s2 0 Hi2) as (m' & s3 & E3 & Hf3 & H3); [done|]. step_with E3.
  assert (rx_frame fl s s3) as (Fr & Fm & Ft & _ & _ & _ & Fb) by (etransitivity; [exact Hf1|by etransitivity]). clear Hf1 Hf2 Hf3.
  step_with (run_modify (λ s, s <| rx_mbufs ::= <[ind := m']> |>) s3). destruct H3 as [[-> Hi3]|(Hm' & Hi3 & Hb3)].
  - right. split; [|exists s2, s3; split; [done|]; by destruct Hi2 as (? & [] & _)].
    destruct Hi3 as (Q & Hh3 & _). unfold on_mbuf at 1, mbind, ST_bind. cbn [n_mbufs update field_set].
    destruct (n_mbufs s3 !! 0) as [x|] eqn:Hx; [|done]. by destruct (ho_buf _ _ Hh3 0 x Hx).
  - left. eexists. split; [erewrite bind_Ret by (by apply (on_mbuf_read m' get _ (mbuf_new 0))); reflexivity|].
    assert (ind < length (rx_mbufs s))%nat as Hlt by (by eapply lookup_lt_Some). cbn [reg_rdt rx_ring update field_set]. split_and!; [|done|].
    + split; cbn [rx_mbufs rx_ring reg_rdt n_mbufs update field_set]; rewrite ?Fr, ?Fm.
      * apply (net_inv_proper _ _ (insert_Permutation _ _ _ Hlt) _ _ eq_refl). exact (net_inv_rx (m' :: fl) s3 _ _ _ Hi3).
      * by rewrite length_insert.
      * by rewrite length_alter.
      * apply lookup_lt_Some in Hd. rewrite Hlr in Hd. lia.
      * intros x y. rewrite insert_Permutation by done. rewrite elem_of_cons. fold fl. intros [->|Hx]; [rewrite Hb3; by intros [= <-]|].
        rewrite Fb by done. apply Hh. rewrite Hp. by right.
      * intros d [i Hdi]%list_elem_of_lookup. destruct (decide (i = ind)) as [->|].
        -- rewrite list_lookup_alter_eq, Hd in Hdi. by injection Hdi as <-.
        -- rewrite list_lookup_alter_ne in Hdi by done. apply Hl. by eapply list_elem_of_lookup_2.
    + rewrite Fr, (alter_insert_eq _ _ _ _ Hd), (tally_insert _ _ _ desc) by done.
      change (if rx_done (RxDesc _ _ 0) then 1 else 0) with 0. lia.
Qed.

(** The loop of [e1000_recv] returns after at most one turn per descriptor. *)
Lemma e1000_recv_spec fuel s : net_ok s → tally rx_done (rx_ring s) ≤ Z.of_nat fuel →
  (∃ s', run (e1000_recv fuel) s () s' ∧ net_ok s') ∨
  (e1000_recv fuel s = Panic "kerneltrap" ∧ ∃ s1 s2, run (mbufalloc 0) s1 0 s2 ∧ pwf (n_pages s1)).
Proof.
  revert s. induction fuel as [|fuel IH]; intros s Hok Ht; cbn [e1000_recv]; step_with (run_get s).
  all: set (ind := Z.to_nat (u32 (reg_rdt s + 1) mod Z.of_nat RX_RING_SIZE)).
  all: assert (ind < RX_RING_SIZE)%nat as Hind by (pose proof (Z.mod_pos_bound (u32 (reg_rdt s + 1)) (Z.of_nat RX_RING_SIZE)); unfold RX_RING_SIZE in *; lia).
  all: destruct (lookup_lt_is_Some_2 (rx_ring s) ind) as [d Hd]; [by rewrite (no_rx _ Hok)|]; rewrite Hd; cbn [default]; unfold id.
  all: destruct (Z.land (rd_status d) E1000_RXD_STAT_DD =? 0) eqn:Hdd; [by left; exists s|].
  all: assert (rx_done d = true) as Hrd by (unfold rx_done; by rewrite Hdd).
  - pose proof (tally_insert rx_done (rx_ring s) ind d d Hd). pose proof (tally_bound rx_done (<[ind := rx0]> (rx_ring s))).
    pose proof (tally_insert rx_done (rx_ring s) ind d rx0 Hd) as Ht0. rewrite Hrd in Ht0. change (rx_done rx0) with false in Ht0. cbv iota in Ht0. lia.
  - destruct (lookup_lt_is_Some_2 (rx_mbufs s) ind) as [m Hm]; [by rewrite (no_rxm _ Hok)|]. rewrite Hm. cbn [default]. unfold id.
    destruct (recv_one_spec s ind d m Hok Hd Hm) as [(s' & E & Hok' & _ & Ht')|[E Hmem]].
    + step_with E. rewrite Hrd in Ht'. apply IH; [done|]. lia.
    + right. split; [|done]. unfold mbind, ST_bind. by rewrite E.
Qed.
End inv.
