(* ===== verification/Socket.v ===== *)
(** * sysnet.c: sockets

    A socket is a page with [struct sock]; the list of sockets is that of [Net].
    Reading and writing a socket are code over the network state that also take
    the memory of the calling process; the calls that also use the table of open
    files and the descriptors of the process run over [sysst].  Arguments of
    system calls are arguments of the definitions.  [ram a] are the bytes of
    physical memory from address [a] to its end, which only a read with a
    negative length reaches. *)

From stdpp Require Import gmap.
From S2P Require Import Prelude Bytes BufCache Log LogDisk PageAlloc Pipe Fs File Mbuf Packet Net NetInv.

Definition AF_INET : Z := 2.
Definition SOCK_DGRAM : Z := 1.
Definition SOCK_STREAM : Z := 2.
Definition TCP_CLOSED : Z := 0.
Definition TCP_LISTEN : Z := 1.
Definition TCP_ESTABLISHED : Z := 4.
Definition NOFILE : nat := 16.

(** A socket before it is initialised: [kalloc] fills pages with 5. *)
Definition sock_junk : sock :=
  Sock 0x05050505 0x0505 0x0505 (Mbufq 0x0505050505050505 0x0505050505050505) 0x05050505 0x05050505 0x05050505
    0x05050505 0x05050505 0x0505050505050505.

(** ** Sockets over the network state *)

Section code.
Context {K : Type} `{!PageAlloc K}.
Abbreviation NetS := (net K).
Context (ram : Z → list Z).

(** [*pos = si->next] for the first [pos] that points to [si]. *)
Fixpoint unlink (si : Z) (l : list Z) : list Z :=
  match l with
  | [] => []
  | a :: l => if a =? si then l else a :: unlink si l
  end.

(** The loop that frees the pending packets. *)
Fixpoint free_pending (fuel : nat) (si : Z) : ST NetS () :=
  b ← on_sock si get;
  if mbufq_empty (so_rxq b) then mret ()
  else
    match fuel with
    | O => blocks
    | S fuel' =>
        r ← mbufq_pophead (so_rxq b);
        _ ← on_sock si (modify (λ b, b <| so_rxq := r.2 |>));
        _ ← mbuffree r.1;
        free_pending fuel' si
    end.

Definition free_sock (si : Z) : ST NetS () :=
  _ ← on_pages (pfree si);
  modify (λ s, s <| n_sock ::= delete si |>).

Definition sockclose (si : Z) : ST NetS () :=
  _ ← modify (λ s, s <| n_sockets ::= unlink si |>);
  s ← get;
  _ ← free_pending (size (n_mbufs s)) si;
  free_sock si.

(** The page of a socket, and the socket in the list. *)
Definition new_sock : ST NetS (option Z) :=
  p ← on_pages palloc;
  match p with
  | None => mret None
  | Some si => _ ← modify (λ s, s <| n_sock ::= <[si := sock_junk]> |>); mret (Some si)
  end.
Definition add_sock (si : Z) : ST NetS () := modify (λ s, s <| n_sockets ::= cons si |>).

Definition sockread (um : umem) (killed : bool) (si addr n : Z) : ST NetS (Z * umem) :=
  b ← on_sock si get;
  if mbufq_empty (so_rxq b) && negb killed then blocks
  else if killed then mret (-1, um)
  else
    r ← mbufq_pophead (so_rxq b);
    let m := r.1 in
    _ ← on_sock si (modify (λ b, b <| so_rxq := r.2 |>));
    p ← on_mbuf m get;
    let len := if n <? i32 (m_len p) then n else i32 (m_len p) in
    let src := drop (Z.to_nat (m_head p)) (m_buf p) in
    if len <? 0 then
      let '(ok, um) := copyout_um addr (src ++ ram (m + PGSIZE)) um in
      if (ok : bool) then kerneltrap else _ ← mbuffree m; mret (-1, um)
    else
      let '(ok, um) := copyout_um addr (take (Z.to_nat len) src) um in
      _ ← mbuffree m;
      mret (if (ok : bool) then len else -1, um).

Definition sockwrite (um : umem) (si addr n : Z) : ST NetS Z :=
  m ← mbufalloc MBUF_DEFAULT_HEADROOM;
  if m =? 0 then mret (-1)
  else
    o ← on_mbuf m (mbufput (u32 n));
    let '(ok, bs) := copyin_um addr (Z.to_nat n) um in
    _ ← on_mbuf m (set_buf (splice (Z.to_nat o) bs));
    if negb (ok : bool) then _ ← mbuffree m; mret (-1)
    else
      b ← on_sock si get;
      _ ← net_tx_udp m (so_raddr b) (so_lport b) (so_rport b);
      mret n.

(** The part of [sys_bind] on the list of sockets. *)
Definition sock_bind (si port : Z) : ST NetS Z :=
  s ← get;
  r ← find_sock (λ a b, negb (a =? si) && (so_lport b =? port)) (n_sockets s);
  match r with
  | Some _ => mret (-1)
  | None => _ ← on_sock si (modify (λ b, b <| so_lport := u16 port |>)); mret 0
  end.

(** The part of [sys_accept] that moves the queue of [si], found as [b], to the
    new socket. *)
Definition sock_move (si newsi : Z) (b : sock) : ST NetS () :=
  _ ← on_sock newsi (modify (λ n, n <| so_lport := so_lport b |> <| so_type := SOCK_STREAM |>
         <| so_state := TCP_ESTABLISHED |> <| so_listening := 0 |> <| so_rxq := so_rxq b |>));
  on_sock si (modify (λ b, b <| so_rxq ::= mbufq_init |>)).

Definition sock_listen (si : Z) : ST NetS Z :=
  b ← on_sock si get;
  if negb (so_type b =? SOCK_STREAM) || (so_lport b =? 0) then mret (-1)
  else
    _ ← on_sock si (modify (λ b, b <| so_listening := 1 |> <| so_state := TCP_LISTEN |>));
    mret 0.
End code.

(** ** System calls *)

Record sysst (C K : Type) := Sysst {
  sy_fd : fdstate C;
  sy_net : net K;
  sy_ofile : list (option nat);         (* myproc()->ofile *)
}.
Arguments Sysst {C K}.
Arguments sy_fd {C K} _.
Arguments sy_net {C K} _.
Arguments sy_ofile {C K} _.
#[export] Instance sysst_fields C K : Fields (sysst C K) := λ s, Sysst (sy_fd s) (sy_net s) (sy_ofile s).

Section calls.
Context {C : Type} `{!BufCache C} {K : Type} `{!PageAlloc K}.
Abbreviation SysS := (sysst C K).
Context (ram : Z → list Z).

Definition on_net {A} (f : ST (net K) A) : ST SysS A := λ s,
  match f (sy_net s) with
  | Ret (a, n) => Ret (a, s <| sy_net := n |>)
  | Panic msg => Panic msg
  | Blocks => Blocks
  end.
Definition on_fds {A} (f : ST (fdstate C) A) : ST SysS A := λ s,
  match f (sy_fd s) with
  | Ret (a, x) => Ret (a, s <| sy_fd := x |>)
  | Panic msg => Panic msg
  | Blocks => Blocks
  end.
Definition set_file (f : nat) (g : file → file) : ST SysS () := on_fds (on_ftable (modify (alter g f))).

(** [fileclose] of file.c: the files that are not sockets are closed by [File]. *)
Definition sys_fileclose (f : nat) : ST SysS () :=
  x ← on_fds (the_file f);
  _ ← on_fds (fileclose (λ _, mret ()) f);
  if bool_decide (f_type x = FD_SOCK) && (f_ref x =? 1) then on_net (sockclose (f_sock x)) else mret ().

Definition fdalloc (f : nat) : ST SysS Z :=
  s ← get;
  match findi (λ o, bool_decide (o = None)) (sy_ofile s) with
  | None => mret (-1)
  | Some fd => _ ← modify (λ s, s <| sy_ofile ::= <[fd := Some f]> |>); mret (Z.of_nat fd)
  end.

Definition argfd (fd : Z) : ST SysS (option nat) :=
  s ← get;
  mret (if (fd <? 0) || (Z.of_nat NOFILE <=? fd) then None else default None (sy_ofile s !! Z.to_nat fd)).

(** [fdalloc] of a new file, which is closed when there is no descriptor left. *)
Definition fd_or_close (f : nat) : ST SysS Z :=
  fd ← fdalloc f;
  if fd <? 0 then _ ← sys_fileclose f; mret (-1) else mret fd.

Definition sock_file (si : Z) (x : file) : file :=
  x <| f_type := FD_SOCK |> <| f_readable := true |> <| f_writable := true |> <| f_sock := si |>.

Definition sockalloc (raddr lport rport : Z) : ST SysS (Z * option nat) :=
  f ← on_fds (on_ftable filealloc);
  match f with
  | None => mret (-1, None)
  | Some f =>
      si ← on_net new_sock;
      match si with
      | None => _ ← sys_fileclose f; mret (-1, Some f)
      | Some si =>
          _ ← on_net (on_sock si (modify (λ b, b <| so_raddr := raddr |> <| so_lport := lport |> <| so_rport := rport |>
                                                 <| so_rxq ::= mbufq_init |>)));
          _ ← set_file f (sock_file si);
          s ← get;
          dup ← on_net (find_sock (λ _ b, (so_raddr b =? raddr) && (so_lport b =? lport) && (so_rport b =? rport)) (n_sockets (sy_net s)));
          match dup with
          | Some _ =>
              _ ← on_net (free_sock si);
              _ ← sys_fileclose f;
              mret (-1, Some f)
          | None => _ ← on_net (add_sock si); mret (0, Some f)
          end
      end
  end.

(** The ports are truncated to 16 bits by the call of [sockalloc]. *)
Definition sys_connect (raddr lport rport : Z) : ST SysS Z :=
  r ← sockalloc (u32 raddr) (u16 lport) (u16 rport);
  match r with
  | (0, Some f) => fd_or_close f
  | _ => mret (-1)
  end.

Definition sys_socket (domain type : Z) : ST SysS Z :=
  if negb (domain =? AF_INET) then mret (-1)
  else if negb (type =? SOCK_DGRAM) && negb (type =? SOCK_STREAM) then mret (-1)
  else
    f ← on_fds (on_ftable filealloc);
    match f with
    | None => mret (-1)
    | Some f =>
        si ← on_net new_sock;
        match si with
        | None => _ ← sys_fileclose f; mret (-1)
        | Some si =>
            _ ← on_net (on_sock si (modify (λ b, b <| so_raddr := 0 |> <| so_lport := 0 |> <| so_rport := 0 |>
                   <| so_type := type |> <| so_state := TCP_CLOSED |> <| so_seq := 0 |> <| so_ack := 0 |>
                   <| so_listening := 0 |> <| so_pending := 0 |> <| so_rxq ::= mbufq_init |>)));
            _ ← set_file f (sock_file si);
            _ ← on_net (add_sock si);
            fd_or_close f
        end
    end.

(** The socket behind a descriptor. *)
Definition argsock (fd : Z) : ST SysS (option Z) :=
  f ← argfd fd;
  match f with
  | None => mret None
  | Some f => x ← on_fds (the_file f); mret (if bool_decide (f_type x = FD_SOCK) then Some (f_sock x) else None)
  end.

Definition sys_bind (fd port : Z) : ST SysS Z :=
  si ← argsock fd;
  match si with None => mret (-1) | Some si => on_net (sock_bind si port) end.

Definition sys_listen (fd : Z) : ST SysS Z :=
  si ← argsock fd;
  match si with None => mret (-1) | Some si => on_net (sock_listen si) end.

Definition sys_accept (fd : Z) : ST SysS Z :=
  si ← argsock fd;
  match si with
  | None => mret (-1)
  | Some si =>
      b ← on_net (on_sock si get);
      if so_listening b =? 0 then mret (-1)
      else
        s ← get;
        if mbufq_empty (so_rxq b) && negb (fd_killed (sy_fd s)) then blocks
        else if fd_killed (sy_fd s) then mret (-1)
        else
          newf ← on_fds (on_ftable filealloc);
          match newf with
          | None => mret (-1)
          | Some newf =>
              newsi ← on_net new_sock;
              match newsi with
              | None => _ ← sys_fileclose newf; mret (-1)
              | Some newsi =>
                  _ ← on_net (sock_move si newsi b);
                  _ ← set_file newf (sock_file newsi);
                  _ ← on_net (add_sock newsi);
                  fd_or_close newf
              end
          end
  end.

Definition the_um (s : SysS) : umem := um (fd_fs (sy_fd s)).
Definition set_um (m : umem) : ST SysS () := on_fds (on_fs (modify (λ s, s <| um := m |>))).

Definition sys_recv (fd addr n : Z) : ST SysS Z :=
  si ← argsock fd;
  match si with
  | None => mret (-1)
  | Some si =>
      s ← get;
      r ← on_net (sockread ram (the_um s) (fd_killed (sy_fd s)) si addr n);
      _ ← set_um r.2;
      mret r.1
  end.

Definition sys_send (fd addr n : Z) : ST SysS Z :=
  si ← argsock fd;
  match si with
  | None => mret (-1)
  | Some si => s ← get; on_net (sockwrite (the_um s) si addr n)
  end.
End calls.

(** ** The calls keep the ownership of buffers *)

Section safety.
Context {K : Type} `{!PageAlloc K} `{!PageAllocSpec K}.
Implicit Types (s : net K) (fl held : list Z) (um : umem).

Lemma net_inv_sock held fl s a b b' : net_inv held fl s → n_sock s !! a = Some b → so_rxq b' = so_rxq b →
  net_inv held fl (s <| n_sock ::= <[a := b']> |>).
Proof.
  intros (Q & Hh & [H1 H2 H3 H4] & []) Hb Hq. exists Q. split_and!; [destruct Hh; by split| |by split].
  split; cbn [n_sockets n_sock n_pages n_mbufs update field_set]; [done|..].
  - intros x. rewrite lookup_insert_is_Some', H2. split; [by right|]. intros [<-|?]; [by rewrite Hb|done].
  - intros x y. rewrite lookup_insert_Some. intros [[<- _]|[_ Hy]]; eauto.
  - intros x y. rewrite lookup_insert_Some. intros [[<- <-]|[_ Hy]]; [rewrite Hq|]; eauto.
Qed.

(** The first packet of the queue of a socket is taken over. *)
Lemma net_inv_dequeue held fl s a b m l q' Q :
  heap_ok (fl ++ tx_owned s ++ queued Q (all_socks held s)) s → socks_ok held Q s → rings_ok s → n_sock s !! a = Some b →
  Q a = m :: l → mqueue (n_mbufs s) q' l → net_inv held (m :: fl) (s <| n_sock ::= <[a := b <| so_rxq := q' |>]> |>).
Proof.
  intros Hh [H1 H2 H3 H4] [] Hb Ea Hq. assert (a ∈ all_socks held s) as Ha by (apply H2; by rewrite Hb).
  exists (fupd a l Q). split_and!; [| |by split].
  - assert (queued Q (all_socks held s) ≡ₚ m :: queued (fupd a l Q) (all_socks held s)) as E.
    { apply (Permutation_app_inv_l l). rewrite <- queued_fupd by done. rewrite Ea. rewrite Permutation_app_comm. cbn [app].
      apply Permutation_middle. }
    rewrite E, !app_assoc, <- Permutation_middle, <- !app_assoc in Hh. destruct Hh; by split.
  - split; cbn [n_sockets n_sock n_pages n_mbufs update field_set]; [done|..].
    + intros x. rewrite lookup_insert_is_Some', H2. split; [by right|]. intros [<-|?]; [by rewrite Hb|done].
    + intros x y. rewrite lookup_insert_Some. intros [[<- _]|[_ Hy]]; eauto.
    + intros x y. rewrite lookup_insert_Some. intros [[<- <-]|[Hne Hy]]; [by rewrite fupd_eq|]. rewrite fupd_ne by done. eauto.
Qed.

Lemma dequeue_run held fl s a b : net_inv held fl s → n_sock s !! a = Some b → mbufq_empty (so_rxq b) = false →
  ∃ m q', run (mbufq_pophead (so_rxq b)) s (m, q') s ∧ net_inv held (m :: fl) (s <| n_sock ::= <[a := b <| so_rxq := q' |>]> |>).
Proof.
  intros (Q & Hh & Hs & Hr) Hb He. pose proof (so_queue _ _ _ Hs a b Hb) as Hq. destruct (Q a) as [|m l] eqn:Ea.
  - apply (mqueue_empty _ _ _) in Hq. destruct Hq as [_ Hq]. rewrite Hq in He; done.
  - destruct (mbufq_pophead_run s (so_rxq b) m l Hq) as (q' & E & Hq'). exists m, q'. split; [done|]. by eapply net_inv_dequeue.
Qed.

Lemma copyin_um_bytes um a n : (∀ a x, um a = Some x → is_byte x) →
  is_bytes (copyin_um a n um).2 ∧ (length (copyin_um a n um).2 ≤ n)%nat.
Proof.
  intros Hum. revert a. induction n as [|n IH]; intros a; cbn; [split; [constructor|lia]|]. destruct (um a) as [x|] eqn:Hx; cbn; [|split; [constructor|lia]].
  destruct (IH (a + 1)) as [Hb Hl]. destruct (copyin_um (a + 1) n um) as [ok bs]. cbn in *. split; [|lia]. constructor; eauto.
Qed.

Lemma is_bytes_splice o bs d : is_bytes bs → is_bytes d → is_bytes (splice o bs d).
Proof. intros Hb Hd. unfold splice. repeat (apply Forall_app; split); [by apply Forall_take|done|by apply Forall_drop]. Qed.

(** The buffer of [sockwrite] with [bs] copied into it. *)
Definition filled (n : Z) (bs : list Z) : mbuf :=
  (mbuf_new MBUF_DEFAULT_HEADROOM) <| m_len ::= λ l, l + n |> <| m_buf ::= splice (Z.to_nat MBUF_DEFAULT_HEADROOM) bs |>.

Lemma filled_ok n bs : 0 ≤ n ≤ MBUF_SIZE → is_bytes bs → Z.of_nat (length bs) ≤ n → mbuf_ok (filled n bs).
Proof.
  intros Hn Hb Hl. destruct (mbuf_new_ok MBUF_DEFAULT_HEADROOM ltac:(done)) as (_ & _ & _ & Hlen & Hby).
  unfold filled, mbuf_ok. cbn [m_head m_len m_buf update field_set mbuf_new] in *. change MBUF_SIZE with 2048 in *.
  change MBUF_ROOM with 4076 in *. change MBUF_DEFAULT_HEADROOM with 128 in *.
  split_and!; [lia..| |by apply is_bytes_splice]. rewrite splice_length; [done|]. rewrite Hlen. lia.
Qed.

Lemma filled_packet n bs : 0 ≤ n ≤ MBUF_SIZE → Z.of_nat (length bs) = n → packet (filled n bs) = bs.
Proof.
  intros Hn Hl. unfold packet, filled, splice. cbn [m_head m_len m_buf update field_set mbuf_new].
  change MBUF_DEFAULT_HEADROOM with 128. change MBUF_SIZE with 2048 in *.
  rewrite drop_app_length' by (rewrite length_take, length_app, !length_replicate; lia).
  rewrite take_app_length' by lia. done.
Qed.

(** [sockwrite] up to the packet: the buffer it sends. *)
Lemma sockwrite_run held fl s um si addr n ok bs : net_inv held fl s → 0 ≤ n ≤ MBUF_SIZE →
  (∀ a x, um a = Some x → is_byte x) → copyin_um addr (Z.to_nat n) um = (ok, bs) →
  ∃ m s1, rx_frame fl s s1 ∧ tx_frame s s1 ∧
    ((net_inv held fl s1 ∧ run (sockwrite um si addr n) s (-1) s1) ∨
     (net_inv held (m :: fl) s1 ∧ n_mbufs s1 !! m = Some (filled n bs) ∧
      sockwrite um si addr n s =
        (if negb ok then _ ← mbuffree m; mret (-1)
         else b ← on_sock si get; _ ← net_tx_udp m (so_raddr b) (so_lport b) (so_rport b); mret n) s1)).
Proof.
  intros Hi Hn Hum Hc. destruct (copyin_um_bytes um addr (Z.to_nat n) Hum) as [Hbs Hlen].
  unfold sockwrite. rewrite Hc in *. cbn [snd] in Hbs, Hlen.
  destruct (mbufalloc_spec held fl s MBUF_DEFAULT_HEADROOM Hi) as (m & s1 & E1 & Hf1 & H1); [done|].
  pose proof (mbufalloc_frame _ _ _ _ E1) as Ht1. destruct H1 as [[-> Hi1]|(Hm & Hi1 & Hb)].
  { exists 0, s1. split; [done|]. split; [done|]. left. split; [done|]. by step_with E1. }
  exists m, (s1 <| n_mbufs ::= <[m := filled n bs]> |>). change MBUF_SIZE with 2048 in Hn.
  split; [etransitivity; [done|by eapply rx_frame_set]|]. split; [done|]. right. split_and!.
  - eapply net_inv_set; [done..|]. apply filled_ok; [by change MBUF_SIZE with 2048|done|lia].
  - cbn [n_mbufs update field_set]. by rewrite lookup_insert_eq.
  - step_with E1. destruct (Z.eqb_spec m 0); [done|]. rewrite u32_small by lia.
    assert (run (mbufput n) (mbuf_new MBUF_DEFAULT_HEADROOM) (MBUF_DEFAULT_HEADROOM + 0) ((mbuf_new MBUF_DEFAULT_HEADROOM) <| m_len ::= λ l, l + n |>)) as E2.
    { apply (mbufput_run n (mbuf_new MBUF_DEFAULT_HEADROOM)); [lia| |done]. change MBUF_SIZE with 2048. cbn. lia. }
    step_with (on_mbuf_run m _ s1 _ _ _ Hb E2).
    erewrite bind_Ret; [|eapply on_mbuf_run; [apply lookup_insert_eq|reflexivity]]. cbn beta iota.
    cbn [n_mbufs update field_set]. rewrite insert_insert_eq. reflexivity.
Qed.

Lemma sock_held held fl s si : net_inv held fl s → si ∈ held ++ n_sockets s → ∃ b, n_sock s !! si = Some b.
Proof. intros (Q & _ & Hs & _) Hsi. by apply (so_dom _ _ _ Hs) in Hsi as [b Hb]; exists b. Qed.

Lemma sockwrite_spec held fl s um si addr n : net_inv held fl s → si ∈ n_sockets s → 0 ≤ n ≤ MBUF_SIZE →
  (∀ a x, um a = Some x → is_byte x) →
  ∃ r s', run (sockwrite um si addr n) s r s' ∧ rx_frame fl s s' ∧ net_inv held fl s'.
Proof.
  intros Hi Hsi Hn Hum. destruct (copyin_um addr (Z.to_nat n) um) as [ok bs] eqn:Hc.
  destruct (sockwrite_run held fl s um si addr n ok bs Hi Hn Hum Hc) as (m & s1 & Hf1 & (Hk & _) & [[Hi1 E]|(Hi1 & Hb & E)]).
  { by exists (-1), s1. }
  rewrite E. destruct ok; cbn [negb].
  - destruct (sock_held held fl s si Hi) as [b Hsb]; [apply elem_of_app; by right|]. rewrite <- Hk in Hsb.
    step_with (on_sock_read si get s1 b b Hsb eq_refl).
    destruct (net_tx_udp_spec held m (so_raddr b) (so_lport b) (so_rport b) fl s1 _ Hi1 Hb) as (s2 & E2 & Hf2 & Hi2); [done|].
    step_with E2. eexists _, _. split; [reflexivity|]. split; [by etransitivity|done].
  - destruct (mbuffree_spec held m fl s1 Hi1) as (s2 & E2 & Hf2 & Hi2). step_with E2. eexists _, _. split; [reflexivity|].
    split; [by etransitivity|done].
Qed.

(** A length of a process that is negative or above [MBUF_SIZE] panics the
    kernel. *)
Lemma sockwrite_panics um si addr n s m s1 : run (mbufalloc MBUF_DEFAULT_HEADROOM) s m s1 → m ≠ 0 →
  n_mbufs s1 !! m = Some (mbuf_new MBUF_DEFAULT_HEADROOM) → - 2 ^ 31 ≤ n < 2 ^ 31 → n < 0 ∨ MBUF_SIZE < n →
  sockwrite um si addr n s = Panic "mbufput".
Proof.
  intros E Hm Hb Hn Hbad. unfold sockwrite. step_with E. destruct (Z.eqb_spec m 0); [done|]. unfold mbind at 1, ST_bind, on_mbuf. rewrite Hb.
  assert (MBUF_SIZE < u32 n) as Hu.
  { change MBUF_SIZE with 2048 in *. unfold u32. destruct (decide (0 ≤ n)); [rewrite Z.mod_small; lia|].
    replace n with (n + 2 ^ 32 + (-1) * 2 ^ 32) by lia. rewrite Z_mod_plus_full, Z.mod_small; lia. }
  unfold mbufput, mbind, ST_bind, get, modify. cbn [m_len mbuf_new update field_set]. rewrite Z.add_0_l.
  pose proof (u32_range n). rewrite (u32_small (u32 n)) by lia. by destruct (Z.ltb_spec MBUF_SIZE (u32 n)); [|lia].
Qed.

(** A write of any length. *)
Lemma sockwrite_any held fl s um si addr n : net_inv held fl s → si ∈ n_sockets s → - 2 ^ 31 ≤ n < 2 ^ 31 →
  (∀ a x, um a = Some x → is_byte x) →
  (∃ r s', run (sockwrite um si addr n) s r s' ∧ rx_frame fl s s' ∧ net_inv held fl s') ∨
  ((n < 0 ∨ MBUF_SIZE < n) ∧ sockwrite um si addr n s = Panic "mbufput").
Proof.
  intros Hi Hsi Hn Hum. destruct (decide (0 ≤ n ≤ MBUF_SIZE)); [left; by apply sockwrite_spec|].
  destruct (mbufalloc_spec held fl s MBUF_DEFAULT_HEADROOM Hi) as (m & s1 & E & Hf & [[-> Hi1]|(Hm & _ & Hb)]); [done| |].
  - left. unfold sockwrite. step_with E. eexists _, _. split; [reflexivity|]. done.
  - right. split; [lia|]. apply (sockwrite_panics um si addr n s m s1); try done. lia.
Qed.

(** A read of any length: a negative one copies whatever lies behind the packet
    until the memory of the process ends, and traps if that has no end. *)
Lemma sockread_spec held fl s ram um killed si addr n : net_inv held fl s → si ∈ n_sockets s →
  (∃ b, n_sock s !! si = Some b ∧ mbufq_empty (so_rxq b) = true ∧ killed = false ∧ sockread ram um killed si addr n s = Blocks) ∨
  (∃ r s', run (sockread ram um killed si addr n) s r s' ∧ rx_frame fl s s' ∧ net_inv held fl s') ∨
  (n < 0 ∧ sockread ram um killed si addr n s = Panic "kerneltrap").
Proof.
  intros Hi Hsi. destruct (sock_held held fl s si Hi) as [b Hb]; [apply elem_of_app; by right|].
  unfold sockread. rewrite (bind_Ret _ _ _ _ _ (on_sock_read si get s b b Hb eq_refl)). cbn beta iota.
  destruct (mbufq_empty (so_rxq b)) eqn:He, killed; cbn [andb negb];
    [right; left; by eexists _, s|left; by exists b|right; left; by eexists _, s|right].
  destruct (dequeue_run held fl s si b Hi Hb He) as (m & q' & E1 & Hi1). rewrite (bind_Ret _ _ _ _ _ E1). cbn beta iota.
  rewrite (bind_Ret _ _ _ _ _ (on_sock_run si (modify (λ b, b <| so_rxq := q' |>)) s b () _ Hb eq_refl)). cbn beta iota.
  destruct (net_inv_held held m fl _ Hi1) as (p & Hp & Hok & _). rewrite (bind_Ret _ _ _ _ _ (on_mbuf_read m get _ p p Hp eq_refl)). cbn beta iota.
  destruct Hok as (? & ? & ? & _). change MBUF_ROOM with 4076 in *. rewrite i32_small by lia.
  set (len := if n <? m_len p then n else m_len p).
  destruct (mbuffree_spec held m fl _ Hi1) as (s2 & E2 & Hf2 & Hi2).
  destruct (Z.ltb_spec len 0) as [Hlen|Hlen]; destruct (copyout_um _ _ um) as [ok um'].
  - destruct ok; [right|left].
    + split; [|done]. unfold len in Hlen. destruct (Z.ltb_spec n (m_len p)); lia.
    + step_with E2. eexists _, _. split; [reflexivity|]. split; [by etransitivity|done].
  - left. step_with E2. eexists _, _. split; [reflexivity|]. split; [by etransitivity|done].
Qed.
(** ** Sockets in and out of the list *)

Lemma queued_perm Q l l' : l ≡ₚ l' → queued Q l ≡ₚ queued Q l'.
Proof. intros E. unfold queued. by rewrite E. Qed.

Lemma net_inv_socks held held' fl s l' : held ++ n_sockets s ≡ₚ held' ++ l' → net_inv held fl s →
  net_inv held' fl (s <| n_sockets := l' |>).
Proof.
  intros E (Q & Hh & Hs & Hr). exists Q. split_and!; [| |by destruct Hr].
  - unfold all_socks in *. rewrite (queued_perm Q _ _ E) in Hh. destruct Hh; by split.
  - destruct Hs as [H1 H2 H3 H4]. unfold all_socks in *. split; unfold all_socks; cbn [n_sockets n_sock n_pages n_mbufs update field_set].
    + by rewrite <- E.
    + intros a. by rewrite <- E.
    + done.
    + done.
Qed.

Lemma unlink_perm si l : si ∈ l → l ≡ₚ si :: unlink si l.
Proof.
  induction l as [|a l IH]; [set_solver|]. intros Hin. cbn. destruct (Z.eqb_spec a si) as [->|Hne]; [done|].
  rewrite (IH ltac:(set_solver)) at 1. constructor.
Qed.

Lemma free_pending_spec held fl si : ∀ fuel s, net_inv held fl s → si ∈ held ++ n_sockets s → (size (n_mbufs s) ≤ fuel)%nat →
  ∃ s' b, run (free_pending fuel si) s () s' ∧ rx_frame fl s s' ∧ net_inv held fl s' ∧ n_sock s' !! si = Some b ∧ mbufq_empty (so_rxq b) = true.
Proof.
  induction fuel as [|fuel IH]; intros s Hi Hsi Hsz; destruct (sock_held held fl s si Hi Hsi) as [b Hb]; cbn [free_pending];
    step_with (on_sock_read si get s b b Hb eq_refl); destruct (mbufq_empty (so_rxq b)) eqn:He; try (by exists s, b).
  - destruct (dequeue_run held fl s si b Hi Hb He) as (m & q' & _ & Hi1). destruct (net_inv_held held m fl _ Hi1) as (p & Hp & _).
    cbn in Hp. assert (n_mbufs s = ∅) as E0 by (apply map_size_empty_inv; lia). by rewrite E0 in Hp.
  - destruct (dequeue_run held fl s si b Hi Hb He) as (m & q' & E1 & Hi1). step_with E1.
    step_with (on_sock_run si (modify (λ b, b <| so_rxq := q' |>)) s b () _ Hb eq_refl).
    destruct (net_inv_held held m fl _ Hi1) as (p & Hp & _). pose proof Hi1 as (Q & Hh & _).
    destruct (mbuffree_run m _ _ Hh ltac:(set_solver)) as (k & Hk & Hne & E2). destruct (mbuffree_spec held m fl _ Hi1) as (s2 & E2' & Hf2 & Hi2).
    rewrite E2 in E2'. injection E2' as <-. step_with E2. 
    destruct (IH _ Hi2) as (s3 & b3 & E3 & Hf3 & Hi3 & Hb3 & He3); [done| |exists s3, b3; split_and!; [done|by etransitivity|done..]].
    cbn [n_mbufs update field_set]. rewrite map_size_delete_Some; [|by exists p]. lia.
Qed.

Lemma free_sock_spec held fl s si b : net_inv (si :: held) fl s → n_sock s !! si = Some b → mbufq_empty (so_rxq b) = true →
  ∃ s', run (free_sock si) s () s' ∧ rx_frame fl s s' ∧ net_inv held fl s'.
Proof.
  intros (Q & Hh & Hs & Hr) Hb He. destruct (so_page _ _ _ Hs si b Hb) as (_ & Hp & Hn).
  destruct (pfree_spec (n_pages s) si (ho_pages _ _ Hh)) as (k & E & Hk & Hk'); [lia|]. unfold free_sock.
  step_with (on_pages_run (pfree si) s () k E). eexists. split; [reflexivity|]. split; [done|].
  assert (∀ x, x ≠ si → refs k x = refs (n_pages s) x) as Hne by (intros x Hx; rewrite Hk'; by apply fupd_ne).
  assert (Q si = []) as EQ by (by apply (mqueue_empty _ _ _ (so_queue _ _ _ Hs si b Hb))).
  exists Q. destruct Hs as [H1 H2 H3 H4]. unfold all_socks in *. cbn [app] in *. split_and!; [| |by destruct Hr].
  - destruct Hh as [P1 P2 P3 P4]. unfold queued in *. rewrite bind_cons, EQ in P2, P3. split; [done|done|done|].
    cbn [n_mbufs n_pages update field_set]. intros m x Hx. rewrite Hne; [by apply P4|]. intros ->. congruence.
  - apply NoDup_cons in H1 as [Hni H1]. split; unfold all_socks; cbn [n_sockets n_sock n_pages n_mbufs update field_set].
    + done.
    + intros a. rewrite lookup_delete_is_Some, <- H2, elem_of_cons. split; [|naive_solver].
      intros Ha. split; [|by right]. intros ->. done.
    + intros a x. rewrite lookup_delete_Some. intros [Ha Hx]. rewrite Hne by done. eauto.
    + intros a x. rewrite lookup_delete_Some. intros [Ha Hx]. eauto.
Qed.

Lemma sockclose_spec fl s si : net_inv [] fl s → si ∈ n_sockets s →
  ∃ s', run (sockclose si) s () s' ∧ net_inv [] fl s' ∧ n_sockets s' = unlink si (n_sockets s) ∧
    rx_ring s' = rx_ring s ∧ rx_mbufs s' = rx_mbufs s ∧ reg_rdt s' = reg_rdt s ∧ (∀ m, m ∈ fl → n_mbufs s' !! m = n_mbufs s !! m).
Proof.
  intros Hi Hsi. unfold sockclose. step_with (run_modify (λ s : net K, s <| n_sockets ::= unlink si |>) s).
  assert (net_inv [si] fl (s <| n_sockets ::= unlink si |>)) as Hi1 by (by apply (net_inv_socks [] [si] fl s (unlink si (n_sockets s)) (unlink_perm si _ Hsi))).
  set (s1 := s <| n_sockets ::= unlink si |>) in *. step_with (run_get s1).
  destruct (free_pending_spec [si] fl si _ s1 Hi1 ltac:(set_solver) (le_n _)) as (s2 & b & E2 & Hf2 & Hi2 & Hb & He). step_with E2.
  destruct (free_sock_spec [] fl s2 si b Hi2 Hb He) as (s3 & E3 & Hf3 & Hi3). exists s3. split; [done|]. split; [done|].
  assert (rx_frame fl s1 s3) as (-> & -> & -> & _ & _ & -> & Hm) by (by etransitivity). done.
Qed.
Lemma net_inv_new_sock held fl s p b : net_inv held fl s → n_mbufs s !! p = None → n_sock s !! p = None → p ≠ 0 →
  refs (n_pages s) p = 1 → q_first (so_rxq b) = 0 → net_inv (p :: held) fl (s <| n_sock ::= <[p := b]> |>).
Proof.
  intros (Q & Hh & [H1 H2 H3 H4] & []) Hm Hsk H0 Hp Hq. exists (fupd p [] Q). unfold all_socks in *. cbn [app] in *.
  assert (p ∉ held ++ n_sockets s) as Hni by (rewrite H2, Hsk; by intros [? [=]]). split_and!; [| |by split].
  - unfold queued. rewrite bind_cons, fupd_eq. cbn [app].
    rewrite (queued_ext Q (fupd p [] Q)) by (intros a Ha; apply fupd_ne; set_solver). destruct Hh; by split.
  - split; unfold all_socks; cbn [app n_sockets n_sock n_pages n_mbufs update field_set].
    + by apply NoDup_cons.
    + intros a. rewrite lookup_insert_is_Some', elem_of_cons, H2. naive_solver.
    + intros a x. rewrite lookup_insert_Some. intros [[<- <-]|[_ Hx]]; eauto.
    + intros a x. rewrite lookup_insert_Some. intros [[<- <-]|[Hne Hx]]; [rewrite fupd_eq; by split|rewrite fupd_ne by done; eauto].
Qed.

(** A page is taken for a socket, which is then filled in. *)
Lemma new_sock_spec held fl s (f : sock → sock) : net_inv held fl s → q_first (so_rxq (f sock_junk)) = 0 →
  ∃ r s', run new_sock s r s' ∧
    match r with
    | None => rx_frame fl s s' ∧ net_inv held fl s'
    | Some p => ∃ s2, run (on_sock p (modify f)) s' () s2 ∧ rx_frame fl s s2 ∧ net_inv (p :: held) fl s2 ∧
        n_sock s2 = <[p := f sock_junk]> (n_sock s) ∧ n_sock s !! p = None
    end.
Proof.
  intros Hi Hf. pose proof Hi as (Q & Hho & _). destruct (palloc_spec (n_pages s) (ho_pages _ _ Hho)) as (r & k & E & Hk & Hr).
  unfold new_sock. step_with (on_pages_run palloc s r k E). destruct r as [p|].
  - destruct Hr as (H0 & _ & Hpos & Hk'). destruct (net_inv_fresh held fl s p Hi H0) as [Hm Hsk].
    assert (net_inv held fl (s <| n_pages := k |>)) as Hi1.
    { apply net_inv_pages; [done..|]. intros x Hx. rewrite Hk'. apply fupd_ne. intros ->. lia. }
    do 2 eexists. split; [reflexivity|]. exists (s <| n_pages := k |> <| n_sock ::= <[p := f sock_junk]> |>). split_and!; try done.
    + erewrite on_sock_run; [|apply lookup_insert_eq|reflexivity]. cbn [n_sock update field_set]. by rewrite insert_insert_eq.
    + apply (net_inv_new_sock held fl (s <| n_pages := k |>)); try done; [lia|]. cbn. rewrite Hk'. apply fupd_eq.
  - do 2 eexists. split; [reflexivity|]. split; [done|]. apply net_inv_pages; [done..|]. intros x _. apply Hr.
Qed.

(** The queue of a socket moves to a socket with an empty one. *)
Lemma sock_move_spec held fl s si nsi b nb : net_inv held fl s → n_sock s !! si = Some b → n_sock s !! nsi = Some nb → si ≠ nsi →
  mbufq_empty (so_rxq nb) = true → ∃ s', run (sock_move si nsi b) s () s' ∧ rx_frame fl s s' ∧ net_inv held fl s'.
Proof.
  intros (Q & Hh & [H1 H2 H3 H4] & []) Hb Hnb Hne He.
  pose (b1 := nb <| so_lport := so_lport b |> <| so_type := SOCK_STREAM |> <| so_state := TCP_ESTABLISHED |> <| so_listening := 0 |> <| so_rxq := so_rxq b |>).
  pose (b2 := b <| so_rxq ::= mbufq_init |>). exists (s <| n_sock := <[si := b2]> (<[nsi := b1]> (n_sock s)) |>). split.
  { unfold sock_move. erewrite bind_Ret; [|eapply on_sock_run; [exact Hnb|reflexivity]]. cbn beta iota.
    unfold on_sock. cbn [n_sock update field_set]. rewrite lookup_insert_ne by done. by rewrite Hb. }
  split; [done|]. assert (so_rxq b1 = so_rxq b) as Q1 by done. assert (q_first (so_rxq b2) = 0) as Q2 by done. clearbody b1 b2.
  assert (Q nsi = []) as EQ by (by apply (mqueue_empty _ _ _ (H4 nsi nb Hnb))).
  assert (si ∈ all_socks held s ∧ nsi ∈ all_socks held s) as [Hs1 Hs2] by (rewrite !H2, Hb, Hnb; done).
  exists (fupd nsi (Q si) (fupd si [] Q)). split_and!; [| |by split].
  - assert (queued (fupd nsi (Q si) (fupd si [] Q)) (all_socks held s) ≡ₚ queued Q (all_socks held s)) as E.
    { pose proof (queued_fupd (fupd si [] Q) _ nsi (Q si) H1 Hs2) as E1. rewrite fupd_ne, EQ, app_nil_r in E1 by done.
      etransitivity; [exact E1|]. etransitivity; [apply Permutation_app_comm|]. exact (queued_fupd Q _ si [] H1 Hs1). }
    enough (heap_ok (fl ++ tx_owned s ++ queued (fupd nsi (Q si) (fupd si [] Q)) (all_socks held s)) s) as [] by by split. by rewrite E.
  - split; cbn [n_sockets n_sock n_pages n_mbufs update field_set]; [done|..].
    + intros a. rewrite !lookup_insert_is_Some', H2. split; [by right; right|]. intros [<-|[<-|?]]; [by rewrite Hb|by rewrite Hnb|done].
    + intros a x. rewrite !lookup_insert_Some. intros [[<- _]|[_ [[<- _]|[_ Hx]]]]; eauto.
    + intros a x. rewrite !lookup_insert_Some. intros [[<- <-]|[Ha [[<- <-]|[Ha' Hx]]]].
      * rewrite fupd_ne, fupd_eq by done. by split.
      * rewrite fupd_eq, Q1. by apply H4.
      * rewrite !fupd_ne by done. eauto.
Qed.
End safety.
