(* ===== verification/NetSpec.v ===== *)
(** * The network as a whole

    The calls of the kernel on the network and the steps of the card, as a step
    relation, and what holds in every state it reaches; the way of a datagram
    from a socket to a socket; and what the driver and sysnet.c get wrong. *)

From stdpp Require Import gmap.
From S2P Require Import Prelude Bytes BufCache Log LogDisk PageAlloc Kalloc Pipe Fs FsData File Mbuf Packet Net NetInv Socket.

Section system.
Context {K : Type} `{!PageAlloc K} `{!PageAllocSpec K}.
Context (ram : Z → list Z).
Implicit Types (s : net K) (um : umem).

(** ** The card *)

(** Descriptor [i] of the transmit ring gets the status [v]. *)
Definition card_reports (i : nat) (v : Z) s : net K := s <| tx_ring ::= alter (λ d, d <| td_status := v |>) i |>.

(** The packet [bs] arrives in buffer [m] of descriptor [i]. *)
Definition card_stores (i : nat) (m : Z) (bs : list Z) s : net K :=
  s <| n_mbufs ::= alter (λ b, b <| m_buf ::= splice 0 bs |>) m |>
    <| rx_ring ::= alter (λ d, d <| rd_length := Z.of_nat (length bs) |> <| rd_status := E1000_RXD_STAT_DD |>) i |>.

(** A new socket, with the fields [f] and an empty queue, enters the list. *)
Definition sock_open (f : sock → sock) : ST (net K) (option Z) :=
  si ← new_sock;
  match si with
  | None => mret None
  | Some si => _ ← on_sock si (modify f); _ ← add_sock si; mret (Some si)
  end.

(** The sockets of [sys_accept]: a new one that takes the queue of [si]. *)
Definition sock_accept (si : Z) : ST (net K) (option Z) :=
  b ← on_sock si get;
  r ← new_sock;
  match r with
  | None => mret None
  | Some n => _ ← on_sock n (modify (λ b, b <| so_rxq ::= mbufq_init |>)); _ ← sock_move si n b; _ ← add_sock n; mret (Some n)
  end.

(** What [sockalloc] does to the sockets, for [connect]: a new socket with the
    address and the ports, which enters the list unless a socket there has the
    same; then its page is freed, and the close of its file closes it. *)
Definition same_peer (raddr lport rport : Z) (b : sock) : bool :=
  (so_raddr b =? raddr) && (so_lport b =? lport) && (so_rport b =? rport).

Definition sock_connect (raddr lport rport : Z) : ST (net K) (option Z) :=
  si ← new_sock;
  match si with
  | None => mret None
  | Some si =>
      _ ← on_sock si (modify (λ b, b <| so_raddr := raddr |> <| so_lport := lport |> <| so_rport := rport |>
                                     <| so_rxq ::= mbufq_init |>));
      s ← get;
      dup ← find_sock (λ _, same_peer raddr lport rport) (n_sockets s);
      match dup with
      | Some _ => _ ← free_sock si; _ ← sockclose si; mret None
      | None => _ ← add_sock si; mret (Some si)
      end
  end.

(** A call or an interrupt is one step, if it returns; the lengths are any
    [int]. *)
Definition is_int (n : Z) : Prop := - 2 ^ 31 ≤ n < 2 ^ 31.

Inductive net_step : net K → net K → Prop :=
| st_reports i v s : net_step s (card_reports i v s)
| st_stores i m bs s :
    rx_mbufs s !! i = Some m → is_bytes bs → Z.of_nat (length bs) ≤ MBUF_SIZE → net_step s (card_stores i m bs s)
| st_intr s s' : run (e1000_recv RX_RING_SIZE) s () s' → net_step s s'
| st_read s si um killed addr n r s' :
    si ∈ n_sockets s → is_int n → run (sockread ram um killed si addr n) s r s' → net_step s s'
| st_write s si um addr n r s' :
    si ∈ n_sockets s → is_int n → (∀ a x, um a = Some x → is_byte x) → run (sockwrite um si addr n) s r s' → net_step s s'
| st_connect s raddr lport rport r s' : run (sock_connect raddr lport rport) s r s' → net_step s s'
| st_open s f r s' : q_first (so_rxq (f sock_junk)) = 0 → run (sock_open f) s r s' → net_step s s'
| st_accept s si r s' : si ∈ n_sockets s → run (sock_accept si) s r s' → net_step s s'
| st_bind s si port r s' : si ∈ n_sockets s → run (sock_bind si port) s r s' → net_step s s'
| st_listen s si r s' : si ∈ n_sockets s → run (sock_listen si) s r s' → net_step s s'
| st_close s si s' : si ∈ n_sockets s → run (sockclose si) s () s' → net_step s s'.

(** ** Every step keeps the invariant *)

Lemma net_ok_frame s s' : net_ok [] s → net_inv [] (rx_mbufs s) s' → rx_ring s' = rx_ring s → rx_mbufs s' = rx_mbufs s →
  reg_rdt s' = reg_rdt s → (∀ m, m ∈ rx_mbufs s → n_mbufs s' !! m = n_mbufs s !! m) → net_ok [] s'.
Proof.
  intros [H1 H2 H3 H4 H5 H6] Hi Er Em Et Hb. split; rewrite ?Er, ?Em, ?Et; try done.
  intros m b Hm. rewrite Hb by done. by apply H5.
Qed.

Lemma net_ok_rx_frame s s' : net_ok [] s → net_inv [] (rx_mbufs s) s' → rx_frame (rx_mbufs s) s s' → net_ok [] s'.
Proof. intros Hok Hi (? & ? & ? & _ & _ & _ & ?). by eapply net_ok_frame. Qed.

Lemma card_reports_ok i v s : net_ok [] s → net_ok [] (card_reports i v s).
Proof.
  intros Hok. eapply net_ok_frame; try done. destruct (no_inv _ _ Hok) as (Q & [] & [] & []). exists Q. split_and!; split; try done.
  cbn. by rewrite length_alter.
Qed.

Lemma card_stores_ok i m bs s : net_ok [] s → rx_mbufs s !! i = Some m → is_bytes bs → Z.of_nat (length bs) ≤ MBUF_SIZE →
  net_ok [] (card_stores i m bs s).
Proof.
  intros [H1 H2 H3 H4 H5 H6] Hm Hbs Hl. pose proof (delete_Permutation (rx_mbufs s) i m Hm) as Hp.
  assert (m ∈ rx_mbufs s) as Hin by (by eapply list_elem_of_lookup_2). pose proof H1 as Hi. rewrite Hp in Hi.
  destruct (net_inv_held [] m _ s Hi) as (b & Hb & Hok & _).
  assert (mbuf_ok (b <| m_buf ::= splice 0 bs |>)) as Hok'.
  { destruct Hok as (? & ? & ? & Hlen & ?). change MBUF_ROOM with 4076 in *. change MBUF_SIZE with 2048 in *.
    split_and!; cbn; try (done || lia); [|by apply is_bytes_splice]. rewrite splice_length; [done|]. rewrite Hlen. lia. }
  pose proof (net_inv_set [] m _ s b _ Hi Hb Hok') as Hi'. rewrite <- Hp in Hi'.
  set (b' := b <| m_buf ::= splice 0 bs |>) in *.
  assert (alter (λ b, b <| m_buf ::= splice 0 bs |>) m (n_mbufs s) = <[m := b']> (n_mbufs s)) as Ea.
  { apply map_eq. intros x. destruct (decide (m = x)) as [<-|]; [by rewrite lookup_alter_eq, lookup_insert_eq, Hb|by rewrite lookup_alter_ne, lookup_insert_ne]. }
  assert (m_head b' = 0) as Hb0 by (cbn; by apply (H5 m)). clearbody b'. unfold card_stores.
  change (update n_mbufs (alter (λ b, b <| m_buf ::= splice 0 bs |>) m) s) with (s <| n_mbufs := alter (λ b, b <| m_buf ::= splice 0 bs |>) m (n_mbufs s) |>).
  rewrite Ea. split; cbn [rx_mbufs rx_ring reg_rdt n_mbufs update field_set]; try done.
  - destruct Hi' as (Q & [] & [] & []). exists Q. by split_and!; split.
  - by rewrite length_alter.
  - intros x y Hx. rewrite lookup_insert_Some. intros [[<- <-]|[_ Hy]]; [done|by apply (H5 x)].
  - intros d [j Hd]%list_elem_of_lookup. destruct (decide (j = i)) as [->|].
    + rewrite list_lookup_alter_eq in Hd. destruct (rx_ring s !! i); [|done]. injection Hd as <-. cbn. lia.
    + rewrite list_lookup_alter_ne in Hd by done. apply H6. by eapply list_elem_of_lookup_2.
Qed.

Lemma add_sock_ok s si : net_ok [] s → ∀ s', net_inv [si] (rx_mbufs s) s' → rx_frame (rx_mbufs s) s s' →
  net_ok [] (s' <| n_sockets ::= cons si |>).
Proof.
  intros Hok s' Hi (? & ? & ? & _ & _ & _ & ?). apply (net_ok_frame s); try done.
  exact (net_inv_socks [si] [] _ s' (si :: n_sockets s') (reflexivity _) Hi).
Qed.

Lemma sock_open_spec s f : net_ok [] s → q_first (so_rxq (f sock_junk)) = 0 → ∃ r s', run (sock_open f) s r s' ∧ net_ok [] s'.
Proof.
  intros Hok Hf. destruct (new_sock_spec [] _ s f (no_inv _ _ Hok) Hf) as (r & s1 & E1 & H1). unfold sock_open. step_with E1.
  destruct r as [p|].
  - destruct H1 as (s2 & E2 & Hf2 & Hi2 & _). step_with E2. eexists _, _. split; [reflexivity|]. by apply (add_sock_ok s).
  - destruct H1 as [Hf1 Hi1]. eexists _, _. split; [reflexivity|]. by eapply net_ok_rx_frame.
Qed.

Lemma sockclose_freed s si : n_sock s !! si = None → sockclose si s = Panic "kerneltrap".
Proof.
  intros Hn. unfold sockclose. rewrite (bind_Ret _ _ _ _ _ (run_modify _ _)), (bind_Ret _ _ _ _ _ (run_get _)).
  unfold mbind at 1, ST_bind. destruct (size _); cbn [free_pending]; unfold mbind at 1, ST_bind, on_sock; cbn [n_sock update field_set]; by rewrite Hn.
Qed.

Lemma sock_connect_spec s raddr lport rport : net_ok [] s →
  (∃ r s', run (sock_connect raddr lport rport) s r s' ∧ net_ok [] s') ∨
  (sock_connect raddr lport rport s = Panic "kerneltrap" ∧
   ∃ a b, a ∈ n_sockets s ∧ n_sock s !! a = Some b ∧ same_peer raddr lport rport b = true).
Proof.
  intros Hok. unfold sock_connect.
  destruct (new_sock_spec [] _ s (λ b, b <| so_raddr := raddr |> <| so_lport := lport |> <| so_rport := rport |> <| so_rxq ::= mbufq_init |>)
    (no_inv _ _ Hok)) as (r & s1 & E1 & H1); [done|]. rewrite (bind_Ret _ _ _ _ _ E1). cbn beta iota.
  destruct r as [p|]; [|destruct H1 as [Hf1 Hi1]; left; eexists _, _; split; [reflexivity|]; by eapply net_ok_rx_frame].
  destruct H1 as (s2 & E2 & Hf2 & Hi2 & Hk & Hp). rewrite (bind_Ret _ _ _ _ _ E2), (bind_Ret _ _ _ _ _ (run_get s2)). cbn beta iota.
  rewrite (bind_Ret _ _ _ _ _ (find_sock_run (λ _, same_peer raddr lport rport) (n_sockets s2) s2
    (λ a Ha, sock_held [p] _ s2 a Hi2 (proj2 (elem_of_app _ _ _) (or_intror Ha))))). cbn beta iota.
  destruct (first_sock _ _ _) as [a|] eqn:Hf; [right|left].
  - destruct (free_sock_spec [] _ s2 p (sock_junk <| so_raddr := raddr |> <| so_lport := lport |> <| so_rport := rport |> <| so_rxq ::= mbufq_init |>) Hi2)
      as (s3 & E3 & _); [by rewrite Hk, lookup_insert_eq|done|].
    rewrite (bind_Ret _ _ _ _ _ E3). cbn beta iota. split.
    + unfold mbind, ST_bind. rewrite (sockclose_freed s3 p); [done|].
      unfold free_sock in E3. apply bind_Ret_inv in E3 as ([] & y & _ & [= <-]). cbn. apply lookup_delete_eq.
    + destruct (first_sock_Some _ _ _ _ Hf) as (Ha & b & Hb & Hsame). destruct Hf2 as (_ & _ & _ & _ & _ & Hsl & _).
      rewrite Hsl in Ha. exists a, b. split_and!; [done| |done]. destruct (sock_held [] _ s a (no_inv _ _ Hok) Ha) as [c Hc].
      rewrite Hk, lookup_insert_ne in Hb; [done|]. intros ->. congruence.
  - eexists _, _. split; [reflexivity|]. by apply (add_sock_ok s).
Qed.

Lemma sock_accept_spec s si : net_ok [] s → si ∈ n_sockets s → ∃ r s', run (sock_accept si) s r s' ∧ net_ok [] s'.
Proof.
  intros Hok Hsi. destruct (sock_held [] _ s si (no_inv _ _ Hok) Hsi) as [b Hb]. unfold sock_accept.
  step_with (on_sock_read si get s b b Hb eq_refl).
  destruct (new_sock_spec [] _ s (λ b : sock, b <| so_rxq ::= mbufq_init |>) (no_inv _ _ Hok)) as (r & s1 & E1 & H1); [done|]. step_with E1.
  destruct r as [p|].
  - destruct H1 as (s2 & E2 & Hf2 & Hi2 & Hk & Hp). step_with E2. assert (si ≠ p) as Hne by (intros ->; congruence).
    destruct (sock_move_spec [p] _ s2 si p b (sock_junk <| so_rxq ::= mbufq_init |>) Hi2) as (s3 & E3 & Hf3 & Hi3); [|by rewrite Hk, lookup_insert_eq|done|done|].
    { by rewrite Hk, lookup_insert_ne by done. }
    step_with E3. eexists _, _. split; [reflexivity|]. apply (add_sock_ok s); [done..|]. by etransitivity.
  - destruct H1 as [Hf1 Hi1]. eexists _, _. split; [reflexivity|]. by eapply net_ok_rx_frame.
Qed.

Lemma sock_fields_ok s si b b' : net_ok [] s → n_sock s !! si = Some b → so_rxq b' = so_rxq b →
  net_ok [] (s <| n_sock ::= <[si := b']> |>).
Proof. intros Hok Hb Hq. apply (net_ok_frame s); try done. by apply (net_inv_sock [] _ s si b); [apply no_inv| |]. Qed.

Lemma sock_bind_spec s si port : net_ok [] s → si ∈ n_sockets s → ∃ r s', run (sock_bind si port) s r s' ∧ net_ok [] s'.
Proof.
  intros Hok Hsi. destruct (sock_held [] _ s si (no_inv _ _ Hok) Hsi) as [b Hb]. unfold sock_bind. step_with (run_get s).
  step_with (find_sock_run (λ a b, negb (a =? si) && (so_lport b =? port)) (n_sockets s) s (λ a Ha, sock_held [] _ s a (no_inv _ _ Hok) Ha)).
  destruct (first_sock _ _ _) as [a|]; [by eexists _, s|].
  step_with (on_sock_run si (modify (λ b, b <| so_lport := u16 port |>)) s b () _ Hb eq_refl). eexists _, _. split; [reflexivity|].
  by eapply sock_fields_ok.
Qed.

Lemma sock_listen_spec s si : net_ok [] s → si ∈ n_sockets s → ∃ r s', run (sock_listen si) s r s' ∧ net_ok [] s'.
Proof.
  intros Hok Hsi. destruct (sock_held [] _ s si (no_inv _ _ Hok) Hsi) as [b Hb]. unfold sock_listen.
  step_with (on_sock_read si get s b b Hb eq_refl). case_match; [by eexists _, s|].
  step_with (on_sock_run si (modify (λ b, b <| so_listening := 1 |> <| so_state := TCP_LISTEN |>)) s b () _ Hb eq_refl).
  eexists _, _. split; [reflexivity|]. by eapply sock_fields_ok.
Qed.

Lemma sockclose_ok s si : net_ok [] s → si ∈ n_sockets s → ∃ s', run (sockclose si) s () s' ∧ net_ok [] s'.
Proof.
  intros Hok Hsi. destruct (sockclose_spec _ s si (no_inv _ _ Hok) Hsi) as (s' & E & Hi & _ & ? & ? & ? & ?).
  exists s'. split; [done|]. by eapply net_ok_frame.
Qed.

Lemma net_step_ok s s' : net_ok [] s → net_step s s' → net_ok [] s'.
Proof.
  intros Hok H. destruct H as [i v s|i m bs s Hm Hb Hl|s s' E|s si um killed addr n r s' Hsi Hn E|s si um addr n r s' Hsi Hn Hum E
    |s raddr lport rport r s' E|s f r s' Hf E|s si r s' Hsi E|s si port r s' Hsi E|s si r s' Hsi E|s si s' Hsi E].
  - by apply card_reports_ok.
  - by apply card_stores_ok.
  - pose proof (tally_bound rx_done (rx_ring s)) as Ht. rewrite (no_rx _ _ Hok) in Ht.
    destruct (e1000_recv_spec [] RX_RING_SIZE s Hok) as [(s2 & E2 & Hok2)|[E2 _]]; [lia| |congruence]. by destruct (run_det _ _ _ _ _ _ E E2) as [_ ->].
  - destruct (sockread_spec [] _ s ram um killed si addr n (no_inv _ _ Hok) Hsi) as [(b & _ & _ & _ & E2)|[(r2 & s2 & E2 & Hf & Hi)|[_ E2]]]; [congruence| |congruence].
    destruct (run_det _ _ _ _ _ _ E E2) as [_ ->]. by eapply net_ok_rx_frame.
  - destruct (sockwrite_any [] _ s um si addr n (no_inv _ _ Hok) Hsi Hn Hum) as [(r2 & s2 & E2 & Hf & Hi)|[_ E2]]; [|congruence].
    destruct (run_det _ _ _ _ _ _ E E2) as [_ ->]. by eapply net_ok_rx_frame.
  - destruct (sock_connect_spec s raddr lport rport Hok) as [(r2 & s2 & E2 & Hok2)|[E2 _]]; [|congruence].
    by destruct (run_det _ _ _ _ _ _ E E2) as [_ ->].
  - destruct (sock_open_spec s f Hok Hf) as (r2 & s2 & E2 & Hok2). by destruct (run_det _ _ _ _ _ _ E E2) as [_ ->].
  - destruct (sock_accept_spec s si Hok Hsi) as (r2 & s2 & E2 & Hok2). by destruct (run_det _ _ _ _ _ _ E E2) as [_ ->].
  - destruct (sock_bind_spec s si port Hok Hsi) as (r2 & s2 & E2 & Hok2). by destruct (run_det _ _ _ _ _ _ E E2) as [_ ->].
  - destruct (sock_listen_spec s si Hok Hsi) as (r2 & s2 & E2 & Hok2). by destruct (run_det _ _ _ _ _ _ E E2) as [_ ->].
  - destruct (sockclose_ok s si Hok Hsi) as (s2 & E2 & Hok2). by destruct (run_det _ _ _ _ _ _ E E2) as [_ ->].
Qed.
(** ** The state the driver starts from *)

Definition net_boot s : Prop :=
  pwf (n_pages s) ∧ n_mbufs s = ∅ ∧ n_sockets s = [] ∧ n_sock s = ∅ ∧ length (rx_mbufs s) = RX_RING_SIZE ∧
  length (local_mac s) = ETHADDR_LEN ∧ is_bytes (local_mac s).

(** The receive ring filled up to entry [i]. *)
Definition rx_filled (i : nat) s : Prop :=
  net_inv [] (take i (rx_mbufs s)) s ∧ length (rx_mbufs s) = RX_RING_SIZE ∧ length (rx_ring s) = RX_RING_SIZE ∧
  (∀ m b, m ∈ take i (rx_mbufs s) → n_mbufs s !! m = Some b → m_head b = 0) ∧ (∀ d, d ∈ rx_ring s → rd_length d = 0).

Lemma init_rx_spec n : ∀ i s, rx_filled i s → (i + n = RX_RING_SIZE)%nat →
  (∃ s', run (init_rx i n) s () s' ∧ rx_filled RX_RING_SIZE s') ∨ init_rx i n s = Panic "e1000".
Proof.
  induction n as [|n IH]; intros i s (Hi & Hlm & Hlr & Hh & Hd) Hin; cbn [init_rx].
  { left. exists s. split; [done|]. by rewrite Nat.add_0_r in Hin; subst. }
  destruct (mbufalloc_spec [] _ s 0 Hi) as (m & s1 & E1 & (Fr & Fm & _ & _ & _ & _ & Fb) & H1); [done|]. step_with E1.
  step_with (run_modify (λ s : net K, s <| rx_mbufs ::= <[i := m]> |>) s1). destruct H1 as [[-> _]|(Hm & Hi1 & Hb)]; [by right|].
  destruct (Z.eqb_spec m 0); [done|]. erewrite bind_Ret by (by apply (on_mbuf_read m get _ (mbuf_new 0))).
  cbn beta iota. erewrite bind_Ret by apply run_modify. apply IH; [|lia].
  assert (take (S i) (<[i := m]> (rx_mbufs s)) = take i (rx_mbufs s) ++ [m]) as Et.
  { rewrite (take_S_r _ _ m) by (apply list_lookup_insert_eq; lia). by rewrite take_insert_ge. }
  unfold rx_filled. cbn [rx_mbufs rx_ring n_mbufs update field_set]. rewrite Fm, Fr, Et, length_insert, length_alter. split_and!; try done.
  - assert (net_inv [] (take i (rx_mbufs s) ++ [m]) s1) as Hi2 by (by rewrite <- Permutation_cons_append).
    destruct Hi2 as (Q & [] & [] & []). exists Q. by split_and!; split.
  - intros x b Hx. apply elem_of_app in Hx as [Hx| ->%list_elem_of_singleton]; [rewrite Fb by done; by apply Hh|rewrite Hb; by intros [= <-]].
  - intros d [j Hj]%list_elem_of_lookup. destruct (decide (j = i)) as [->|].
    + rewrite list_lookup_alter_eq in Hj. destruct (rx_ring s !! i) as [d0|] eqn:Hd0; [|done]. injection Hj as <-. cbn.
      apply Hd. by eapply list_elem_of_lookup_2.
    + rewrite list_lookup_alter_ne in Hj by done. apply Hd. by eapply list_elem_of_lookup_2.
Qed.

Lemma e1000_init_spec s : net_boot s → (∃ s', run e1000_init s () s' ∧ net_ok [] s') ∨ e1000_init s = Panic "e1000".
Proof.
  intros (Hk & Hm & Hl & Hsk & Hlm & Hmac & Hmb). unfold e1000_init. rewrite (bind_Ret _ _ _ _ _ (run_modify _ _)). cbn beta iota.
  match goal with |- context [(init_rx _ _ ≫= _) ?x] => set (s1 := x) end.
  assert (rx_filled 0 s1) as Hf.
  { unfold rx_filled. cbn [s1 rx_mbufs rx_ring n_mbufs update field_set take]. split_and!; [|done|done|set_solver|].
    2:{ intros d Hd. apply elem_of_replicate in Hd as [-> _]. done. }
    exists (λ _, []). unfold tx_owned, all_socks. cbn [s1 tx_mbufs n_sockets update field_set]. rewrite Hl. split_and!.
    - split; cbn [s1 n_pages n_mbufs update field_set]; rewrite ?Hm; [done|constructor| |done].
      intros m. rewrite lookup_empty. split; [by intros ?%elem_of_nil|by intros [? [=]]].
    - split; unfold all_socks; cbn [s1 n_sockets n_sock n_mbufs update field_set]; rewrite ?Hl, ?Hsk; [constructor| |done..].
      intros a. rewrite lookup_empty. split; [by intros ?%elem_of_nil|by intros [? [=]]].
    - by split. }
  destruct (init_rx_spec RX_RING_SIZE 0 s1 Hf eq_refl) as [(s2 & E & Hi & Hlm2 & Hlr2 & Hh2 & Hd2)|E]; [left|right].
  - step_with E. eexists. split; [reflexivity|]. rewrite take_ge in Hi, Hh2 by lia. split; try done.
    + destruct Hi as (Q & [] & [] & []). exists Q. by split_and!; split.
    + cbn [rx_ring update field_set]. intros d Hd. by rewrite Hd2.
  - unfold mbind, ST_bind. by rewrite E.
Qed.

(** C28. Whatever packets arrive and whatever socket calls the kernel makes, with
    any lengths and addresses, each call and each interrupt being one step:
    every packet buffer is at all times in exactly one place, a slot of the
    receive ring, a slot of the transmit ring or the queue of one socket.  From
    there a write returns, or panics in [mbufput] if its length is negative or
    above 2048; a read returns or waits for a packet, or traps if its length is
    negative; a close returns; a connect returns, or traps if a socket has the
    same address and ports (it is the one use after free); an interrupt handles
    the packets it finds in at most one turn per descriptor, and fails only when
    no page is left for the next one. *)
Theorem net_buffers_safe s0 s1 s : net_boot s0 → run e1000_init s0 () s1 → rtc net_step s1 s →
  (∃ Q, NoDup (rx_mbufs s ++ tx_owned s ++ queued Q (n_sockets s)) ∧
     (∀ m, m ∈ rx_mbufs s ++ tx_owned s ++ queued Q (n_sockets s) ↔ is_Some (n_mbufs s !! m)) ∧
     ∀ si b, n_sock s !! si = Some b → mqueue (n_mbufs s) (so_rxq b) (Q si)) ∧
  (∀ si um addr n, si ∈ n_sockets s → is_int n → (∀ a x, um a = Some x → is_byte x) →
     (∃ r s', run (sockwrite um si addr n) s r s') ∨
     ((n < 0 ∨ MBUF_SIZE < n) ∧ sockwrite um si addr n s = Panic "mbufput")) ∧
  (∀ si um killed addr n, si ∈ n_sockets s → is_int n →
     (∃ r s', run (sockread ram um killed si addr n) s r s') ∨
     (sockread ram um killed si addr n s = Blocks ∧ killed = false) ∨
     (n < 0 ∧ sockread ram um killed si addr n s = Panic "kerneltrap")) ∧
  (∀ raddr lport rport,
     (∃ r s', run (sock_connect raddr lport rport) s r s') ∨
     (sock_connect raddr lport rport s = Panic "kerneltrap" ∧
      ∃ a b, a ∈ n_sockets s ∧ n_sock s !! a = Some b ∧ same_peer raddr lport rport b = true)) ∧
  (∀ si, si ∈ n_sockets s → ∃ s', run (sockclose si) s () s' ∧ n_sockets s' = unlink si (n_sockets s)) ∧
  ((∃ s', run (e1000_recv RX_RING_SIZE) s () s') ∨
   (e1000_recv RX_RING_SIZE s = Panic "kerneltrap" ∧ ∃ s2 s3, run (mbufalloc 0) s2 0 s3 ∧ pwf (n_pages s2))).
Proof.
  intros Hb E0 Hr. destruct (e1000_init_spec s0 Hb) as [(s2 & E2 & Hok)|E2]; [|congruence]. destruct (run_det _ _ _ _ _ _ E0 E2) as [_ <-].
  apply (rtc_invariant _ (net_ok [])) in Hr as Hoks; [|by intros; eapply net_step_ok|done]. clear Hok.
  pose proof (no_inv _ _ Hoks) as Hi. split_and!.
  - destruct Hi as (Q & [] & [] & _). by exists Q.
  - intros si um addr n Hsi Hn Hum. destruct (sockwrite_any [] _ s um si addr n Hi Hsi Hn Hum) as [(r & s' & E & _)|[Hb' E]]; eauto.
  - intros si um killed addr n Hsi Hn. destruct (sockread_spec [] _ s ram um killed si addr n Hi Hsi) as [(b & _ & _ & Hk & E)|[(r & s' & E & _)|E]]; eauto.
  - intros raddr lport rport. destruct (sock_connect_spec s raddr lport rport Hoks) as [(r & s' & E & _)|E]; eauto.
  - intros si Hsi. destruct (sockclose_spec _ s si Hi Hsi) as (s' & E & _ & Hl & _). eauto.
  - pose proof (tally_bound rx_done (rx_ring s)) as Ht. rewrite (no_rx _ _ Hoks) in Ht.
    destruct (e1000_recv_spec [] RX_RING_SIZE s Hoks) as [(s' & E & _)|[E Hx]]; [lia|by left; exists s'|by right].
Qed.
(** ** The way of a datagram *)

(** Descriptor [i] tells the card to send the packet of buffer [m]. *)
Definition tx_holds (i : nat) (m : Z) (b : mbuf) s : Prop :=
  tx_mbufs s !! i = Some m ∧ n_mbufs s !! m = Some b ∧
  ∃ d, tx_ring s !! i = Some d ∧ td_addr d = m + MBUF_BUF + m_head b ∧ td_length d = Z.of_nat (length (packet b)).

Definition tx_ready s : Prop :=
  ∃ d, tx_ring s !! Z.to_nat (reg_tdt s) = Some d ∧ Z.land (td_status d) E1000_TXD_STAT_DD ≠ 0.

Lemma e1000_transmit_run held m fl s b : net_inv held (m :: fl) s → n_mbufs s !! m = Some b → tx_ready s →
  ∃ s', run (e1000_transmit m) s 0 s' ∧ tx_holds (Z.to_nat (reg_tdt s)) m b s'.
Proof.
  intros Hi Hb (d & Hd & Hdd). pose proof Hi as (Q & Hh & Hs & Hr). destruct (ho_buf _ _ Hh m b Hb) as (Hm0 & _ & Hok).
  unfold e1000_transmit. step_with (run_get s). set (ind := Z.to_nat (reg_tdt s)) in *. rewrite Hd. cbn [default]. unfold id.
  destruct (Z.eqb_spec (Z.land (td_status d) E1000_TXD_STAT_DD) 0); [done|].
  destruct (lookup_lt_is_Some_2 (tx_mbufs s) ind) as [old Hold]; [rewrite (ri_txm _ Hr); pose proof (ri_tdt _ Hr); lia|].
  rewrite Hold. cbn [default]. unfold id.
  assert (∃ s1, run (if old =? 0 then mret () else _ ← mbuffree old; modify (λ s, s <| tx_mbufs ::= <[ind := 0]> |>)) s () s1 ∧
    n_mbufs s1 !! m = Some b ∧ tx_ring s1 = tx_ring s ∧ length (tx_mbufs s1) = length (tx_mbufs s)) as (s1 & E1 & Hb1 & Hr1 & Hl1).
  { destruct (Z.eqb_spec old 0) as [->|H0]; [by exists s|].
    assert (old ∈ tx_owned s) as Hin by (apply list_elem_of_filter; split; [done|]; by eapply list_elem_of_lookup_2).
    destruct (mbuffree_run old _ s Hh) as (k & Hk & Hne & E); [rewrite !elem_of_app; right; by left|]. step_with E.
    eexists. split; [reflexivity|]. cbn [n_mbufs tx_ring tx_mbufs update field_set]. rewrite length_insert. split_and!; [|done..].
    rewrite lookup_delete_ne; [done|]. intros ->. pose proof (ho_nodup _ _ Hh) as [Hn _]%NoDup_cons. apply Hn.
    rewrite !elem_of_app. right. by left. }
  step_with E1. step_with (on_mbuf_read m get s1 b b Hb1 eq_refl). eexists. split; [reflexivity|].
  split_and!; cbn [tx_mbufs n_mbufs tx_ring update field_set].
  - apply list_lookup_insert_eq. rewrite Hl1. by eapply lookup_lt_Some.
  - done.
  - eexists. split; [rewrite list_lookup_alter_eq, Hr1, Hd; reflexivity|]. split; [done|]. cbn.
    rewrite (length_packet b Hok). destruct Hok as (? & ? & ? & _). change MBUF_ROOM with 4076 in *. unfold u16. rewrite Z.mod_small; lia.
Qed.

Lemma net_tx_udp_frame held m dip sport dport fl s b : net_inv held (m :: fl) s → n_mbufs s !! m = Some b →
  ETH_SIZE + IP_SIZE + UDP_SIZE ≤ m_head b → tx_ready s →
  ∃ s' b', run (net_tx_udp m dip sport dport) s () s' ∧ tx_holds (Z.to_nat (reg_tdt s)) m b' s' ∧
    packet b' = udp_frame (local_mac s) (local_ip s) dip sport dport (packet b).
Proof.
  intros Hi Hb Hh Hrdy. pose proof Hi as (Q & Hho & _ & Hr). destruct (ho_buf _ _ Hho m b Hb) as (_ & _ & Hok).
  unfold ETH_SIZE, IP_SIZE, UDP_SIZE in Hh. pose proof (length_packet b Hok) as Hlp. pose proof Hok as (_ & ? & _).
  unfold net_tx_udp. destruct (udp_header_run b sport dport Hok) as (b1 & E1 & Hok1 & _ & Hh1 & Hl1 & Hp1); [unfold UDP_SIZE; lia|].
  step_with (on_mbuf_run m _ s b () b1 Hb E1). pose proof (net_inv_set held m fl s b b1 Hi Hb Hok1) as Hi1.
  change (Z.of_nat (length (udp_bytes _ _ _))) with UDP_SIZE in Hh1, Hl1.
  unfold net_tx_ip. step_with (run_get (s <| n_mbufs ::= <[m := b1]> |>)).
  destruct (ip_header_run b1 (local_ip s) IPPROTO_UDP dip Hok1) as (b2 & E2 & Hok2 & _ & Hh2 & Hl2 & Hp2); [unfold IP_SIZE, UDP_SIZE in *; lia|].
  assert (<[m := b1]> (n_mbufs s) !! m = Some b1) as Hb1 by apply lookup_insert_eq.
  step_with (on_mbuf_run m _ (s <| n_mbufs ::= <[m := b1]> |>) b1 () b2 Hb1 E2).
  pose proof (net_inv_set held m fl _ b1 b2 Hi1 Hb1 Hok2) as Hi2. change (Z.of_nat (length (ip_bytes _ _ _ _))) with IP_SIZE in Hh2, Hl2.
  match type of Hi2 with net_inv _ _ ?x => set (s2 := x) in * end. unfold net_tx_eth. step_with (run_get s2).
  destruct (eth_header_run b2 (local_mac s) ETHTYPE_IP Hok2) as (b3 & E3 & Hok3 & _ & Hh3 & Hl3 & Hp3); [unfold ETH_SIZE, IP_SIZE, UDP_SIZE in *; lia|apply Hr..|].
  assert (n_mbufs s2 !! m = Some b2) as Hb2 by apply lookup_insert_eq.
  step_with (on_mbuf_run m _ s2 b2 () b3 Hb2 E3). pose proof (net_inv_set held m fl s2 b2 b3 Hi2 Hb2 Hok3) as Hi3.
  destruct (e1000_transmit_run held m fl (s2 <| n_mbufs ::= <[m := b3]> |>) b3 Hi3) as (s4 & E4 & Ht); [apply lookup_insert_eq|exact Hrdy|].
  step_with E4. exists s4, b3. split; [done|]. split; [exact Ht|]. rewrite Hp3, Hp2, Hp1. unfold udp_frame. rewrite Hlp, Z2Nat.id by lia.
  rewrite Hl1. done.
Qed.
(** The first socket that takes datagrams for these ports, with an empty queue. *)
Definition listens s (dsi : Z) (sip sport dport : Z) : Prop :=
  first_sock (λ _, receives sip dport sport) (n_sock s) (n_sockets s) = Some dsi ∧
  ∃ d, n_sock s !! dsi = Some d ∧ mbufq_empty (so_rxq d) = true.

(** The queue of the socket is the one packet [bs] in buffer [m]. *)
Definition has_packet s (dsi m : Z) (bs : list Z) : Prop :=
  ∃ d b, n_sock s !! dsi = Some d ∧ so_rxq d = Mbufq m m ∧ n_mbufs s !! m = Some b ∧ m_next b = 0 ∧ packet b = bs ∧
    m_len b = Z.of_nat (length bs) ∧ m ≠ 0.

Lemma sockrecvudp_run held m sip sport dport fl s b dsi : net_inv held (m :: fl) s → n_mbufs s !! m = Some b →
  listens s dsi sip sport dport → ∃ s', run (sockrecvudp m sip dport sport) s () s' ∧ has_packet s' dsi m (packet b).
Proof.
  intros Hi Hb (Hf & d & Hd & He). pose proof Hi as (Q & Hh & Hs & _). destruct (ho_buf _ _ Hh m b Hb) as (H0 & _ & Hok).
  unfold sockrecvudp. step_with (run_get s).
  step_with (find_sock_run (λ _, receives sip dport sport) (n_sockets s) s ltac:(intros a Ha; apply (so_dom _ _ _ Hs), elem_of_app; by right)).
  rewrite Hf. step_with (on_sock_read dsi get s d d Hd eq_refl). unfold mbufq_pushtail.
  unfold mbufq_empty in He. rewrite He. rewrite (bind_Ret (_ ← _; _) _ s (Mbufq m m) (s <| n_mbufs ::= <[m := b <| m_next := 0 |>]> |>)).
  2:{ by step_with (on_mbuf_run m (modify (λ b, b <| m_next := 0 |>)) s b () _ Hb eq_refl). }
  eexists. split; [by eapply on_sock_run|]. exists (d <| so_rxq := Mbufq m m |>), (b <| m_next := 0 |>).
  cbn [n_sock n_mbufs update field_set]. rewrite !lookup_insert_eq. split_and!; try done.
  - cbn. rewrite length_packet by done. destruct Hok as (_ & ? & _). lia.
Qed.

(** One layer: the header is pulled and the buffer stays in the hands of the code. *)
Lemma pull_layer held n m fl s b : net_inv held (m :: fl) s → n_mbufs s !! m = Some b →
  0 ≤ n ≤ m_len b → ∃ s1 b1, run (on_mbuf m (mbufpull n)) s (Some (m_head b)) s1 ∧ net_inv held (m :: fl) s1 ∧
    n_mbufs s1 !! m = Some b1 ∧ m_buf b1 = m_buf b ∧ m_head b1 = m_head b + n ∧ m_len b1 = m_len b - n ∧
    local_ip s1 = local_ip s ∧ n_sock s1 = n_sock s ∧ n_sockets s1 = n_sockets s.
Proof.
  intros Hi Hb Hn. destruct (net_inv_held held m fl s Hi) as (b' & Hb' & Hok & _). rewrite Hb in Hb'. injection Hb' as <-.
  destruct (mbufpull_run n b Hn Hok) as (E & Hok' & _). eexists _, _. split; [exact (on_mbuf_run m _ s b _ _ Hb E)|].
  split; [by eapply net_inv_set|]. split; [apply lookup_insert_eq|]. done.
Qed.

Lemma net_rx_frame held m mac sip dip sport dport bs tail fl s b dsi : net_inv held (m :: fl) s → n_mbufs s !! m = Some b →
  m_head b = 0 → m_buf b = udp_frame mac sip dip sport dport bs ++ tail → 42 + Z.of_nat (length bs) ≤ m_len b →
  length mac = ETHADDR_LEN → 0 ≤ sip < 2 ^ 32 → 0 ≤ dip < 2 ^ 32 → 0 ≤ sport < 2 ^ 16 → 0 ≤ dport < 2 ^ 16 →
  local_ip s = dip → listens s dsi sip sport dport →
  ∃ s', run (net_rx m) s () s' ∧ has_packet s' dsi m bs.
Proof.
  intros Hi Hb Hh Hm Hl Hmac Hsip Hdip Hsp Hdp Hip Hli. destruct (net_inv_held held m fl s Hi) as (b' & Hb' & Hok & _).
  rewrite Hb in Hb'. injection Hb' as <-. pose proof (proj1 (proj2 (proj2 Hok))) as Hroom. change MBUF_ROOM with 4076 in Hroom. clear Hok.
  destruct (udp_frame_fields mac sip dip sport dport bs tail Hmac Hsip Hdip Hsp Hdp)
    as (F1 & F2 & F3 & F4 & F5 & F6 & F7 & F8 & F9 & F10 & F11 & F12). rewrite <- Hm in *. cbv zeta in *.
  unfold UDP_SIZE, IP_SIZE, u16 in F7, F8. rewrite Z.mod_small in F7, F8 by lia.
  unfold net_rx. destruct (pull_layer held ETH_SIZE m fl s b Hi Hb)
    as (s1 & b1 & E1 & Hi1 & Hb1 & Em1 & Eh1 & El1 & Eip1 & Ek1 & Es1); [unfold ETH_SIZE; lia|]. step_with E1. rewrite Hh.
  unfold load at 1. step_with (on_mbuf_read m (gets (λ b, ntohs (ld 2 (Z.to_nat 0 + 12) (m_buf b)))) s1 b1 _ Hb1 eq_refl).
  change (Z.to_nat 0 + 12)%nat with 12%nat. rewrite Em1, F1. cbn [Z.eqb ETHTYPE_IP Pos.eqb].
  unfold net_rx_ip. destruct (pull_layer held IP_SIZE m fl s1 b1 Hi1 Hb1) as (s2 & b2 & E2 & Hi2 & Hb2 & Em2 & Eh2 & El2 & Eip2 & Ek2 & Es2);
    [unfold IP_SIZE, ETH_SIZE in *; lia|]. step_with E2. rewrite Eh1, Hh.
  unfold load at 1. step_with (on_mbuf_read m (gets (λ b, id (m_buf b))) s2 b2 _ Hb2 eq_refl). step_with (run_get s2).
  change (Z.to_nat (0 + ETH_SIZE)) with 14%nat. unfold id. cbn [Nat.add]. rewrite Em2, Em1, F2, F3, F4, F5, F6, F7, Eip2, Eip1, Hip, !Z.eqb_refl.
  cbn [negb]. change IP_SIZE with 20 in *. change ETH_SIZE with 14 in *.
  replace (u16 (Z.of_nat (length bs) + 8 + 20 - 20)) with (Z.of_nat (length bs) + 8) by (unfold u16; rewrite Z.mod_small; lia).
  unfold net_rx_udp. destruct (pull_layer held UDP_SIZE m fl s2 b2 Hi2 Hb2) as (s3 & b3 & E3 & Hi3 & Hb3 & Em3 & Eh3 & El3 & Eip3 & Ek3 & Es3);
    [unfold UDP_SIZE; lia|]. step_with E3. rewrite Eh2, Eh1, Hh.
  unfold load at 1. step_with (on_mbuf_read m (gets (λ b, id (m_buf b))) s3 b3 _ Hb3 eq_refl).
  change (Z.to_nat (0 + 14 + 20)) with 34%nat. unfold id. cbn [Nat.add]. rewrite Em3, Em2, Em1, F8, Z.eqb_refl. cbn [negb].
  unfold mlen. step_with (on_mbuf_read m (gets m_len) s3 b3 _ Hb3 eq_refl). change UDP_SIZE with 8 in *.
  replace (u16 (Z.of_nat (length bs) + 8 - 8)) with (Z.of_nat (length bs)) by (unfold u16; rewrite Z.mod_small; lia).
  destruct (Z.ltb_spec (m_len b3) (Z.of_nat (length bs))); [lia|]. rewrite u32_small by lia.
  destruct (net_inv_held held m fl s3 Hi3) as (b' & Hb' & Hok3 & _). rewrite Hb3 in Hb'. injection Hb' as <-.
  destruct (mbuftrim_run (m_len b3 - Z.of_nat (length bs)) b3 ltac:(lia) Hok3) as (E4 & Hok4 & Hp4). set (b4 := b3 <| m_len ::= _ |>) in *.
  step_with (on_mbuf_run m _ s3 b3 _ _ Hb3 E4). rewrite F9, F10, F11.
  pose proof (net_inv_set held m fl s3 b3 b4 Hi3 Hb3 Hok4) as Hi4.
  destruct (sockrecvudp_run held m sip sport dport fl _ b4 dsi Hi4) as (s5 & E5 & H5); [apply lookup_insert_eq| |].
  - unfold listens in *. cbn [n_sock n_sockets update field_set]. by rewrite Ek3, Ek2, Ek1, Es3, Es2, Es1.
  - exists s5. split; [exact E5|]. revert H5. rewrite Hp4. unfold packet. rewrite Em3, Em2, Em1, Eh3, Eh2, Eh1, Hh.
    change (Z.to_nat (0 + 14 + 20 + 8)) with 42%nat. rewrite F12, take_take, take_app_length' by lia. done.
Qed.
Lemma mbufalloc_keeps held fl h s m s' x b : net_inv held fl s → run (mbufalloc h) s m s' → n_mbufs s !! x = Some b →
  n_mbufs s' !! x = Some b.
Proof.
  intros Hi E Hx. pose proof Hi as (Q & Hh & _). destruct (palloc_spec (n_pages s) (ho_pages _ _ Hh)) as (r & k & Ep & _ & Hr).
  unfold mbufalloc in E. destruct (MBUF_SIZE <? h); [by injection E as _ <-|].
  rewrite (bind_Ret _ _ _ _ _ (on_pages_run palloc s r k Ep)) in E. destruct r as [p|]; [|by injection E as _ <-].
  destruct Hr as (H0 & _). destruct (net_inv_fresh held fl s p Hi H0) as [Hm _]. injection E as _ <-. cbn.
  rewrite lookup_insert_ne; [done|]. intros ->. congruence.
Qed.

Lemma sockread_packet held fl s um dsi m bs addr n : net_inv held fl s → has_packet s dsi m bs → Z.of_nat (length bs) ≤ n →
  (∀ j, 0 ≤ j < Z.of_nat (length bs) → is_Some (um (addr + j))) →
  ∃ um' s', run (sockread ram um false dsi addr n) s (Z.of_nat (length bs), um') s' ∧
    ∀ j, 0 ≤ j < Z.of_nat (length bs) → um' (addr + j) = Some (byte_at bs (Z.to_nat j)).
Proof.
  intros Hi (d & b & Hd & Hq & Hb & Hn & Hp & Hl & H0) Hle Hum. unfold sockread. step_with (on_sock_read dsi get s d d Hd eq_refl).
  assert (mbufq_empty (so_rxq d) = false) as He by (rewrite Hq; by apply Z.eqb_neq). rewrite He. cbn [andb negb].
  destruct (dequeue_run held fl s dsi d Hi Hd He) as (m' & q' & E1 & Hi1).
  assert (m' = m) as ->.
  { unfold mbufq_pophead in E1. rewrite Hq in E1. cbn [q_first] in E1. destruct (Z.eqb_spec m 0); [done|].
    rewrite (bind_Ret _ _ _ _ _ (on_mbuf_read m (gets m_next) s b _ Hb eq_refl)) in E1. by injection E1 as <- _. }
  step_with E1. step_with (on_sock_run dsi (modify (λ b, b <| so_rxq := q' |>)) s d () _ Hd eq_refl).
  erewrite bind_Ret by (by apply (on_mbuf_read m get _ b)). cbn beta iota.
  destruct (net_inv_held held m fl _ Hi1) as (b' & Hb' & (? & ? & ? & _) & _). cbn [n_mbufs update field_set] in Hb'.
  rewrite Hb in Hb'. injection Hb' as <-. change MBUF_ROOM with 4076 in *. rewrite i32_small by lia.
  destruct (Z.ltb_spec n (m_len b)); [lia|]. destruct (Z.ltb_spec (m_len b) 0); [lia|]. fold (packet b). rewrite Hp.
  destruct (copyout_um_ok bs addr um Hum) as (um' & -> & Hum').
  destruct (mbuffree_spec held m fl _ Hi1) as (s2 & E2 & _). step_with E2. rewrite Hl. exists um', s2. split; [done|].
  intros j Hj. rewrite Hum', decide_True by lia. do 2 f_equal. lia.
Qed.

(** One packet of the ring: it ends up in the queue of its socket. *)
Lemma recv_one_frame s ind desc m mac sip dip sport dport bs tail b dsi s' : net_ok [] s → rx_mbufs s !! ind = Some m →
  rx_ring s !! ind = Some desc → n_mbufs s !! m = Some b → m_buf b = udp_frame mac sip dip sport dport bs ++ tail →
  42 + Z.of_nat (length bs) ≤ rd_length desc →
  length mac = ETHADDR_LEN → 0 ≤ sip < 2 ^ 32 → 0 ≤ dip < 2 ^ 32 → 0 ≤ sport < 2 ^ 16 → 0 ≤ dport < 2 ^ 16 →
  local_ip s = dip → listens s dsi sip sport dport →
  run (recv_one ind desc m) s () s' → has_packet s' dsi m bs.
Proof.
  intros [Hi Hlm Hlr Hrd Hh Hl] Hm Hd Hb Hbuf Hlen Hmac Hsip Hdip Hsp Hdp Hip Hli E.
  pose proof (Hl desc ltac:(by eapply list_elem_of_lookup_2)) as Hdl. change MBUF_SIZE with 2048 in Hdl.
  pose proof (delete_Permutation (rx_mbufs s) ind m Hm) as Hp. rewrite Hp in Hi. set (fl := delete ind (rx_mbufs s)) in *.
  assert (m_head b = 0) as Hb0 by (apply (Hh m); [by eapply list_elem_of_lookup_2|done]).
  destruct (net_inv_held [] m fl s Hi) as (b' & Hb' & Hok & _). rewrite Hb in Hb'. injection Hb' as <-.
  set (b1 := b <| m_len := rd_length desc |>).
  assert (mbuf_ok b1) as Hok1.
  { destruct Hok as (? & ? & ? & ? & ?). unfold b1. split_and!; cbn; try (done || lia). rewrite Hb0. change MBUF_ROOM with 4076. lia. }
  unfold recv_one in E. rewrite (bind_Ret _ _ _ _ _ (on_mbuf_run m (modify (λ b, b <| m_len := rd_length desc |>)) s b () b1 Hb eq_refl)) in E.
  pose proof (net_inv_set [] m fl s b b1 Hi Hb Hok1) as Hi1.
  destruct (net_rx_frame [] m mac sip dip sport dport bs tail fl (s <| n_mbufs ::= <[m := b1]> |>) b1 dsi Hi1) as (s2 & E2 & H2);
    try done; [apply lookup_insert_eq|].
  destruct (net_rx_spec [] m fl _ Hi1) as (s2' & E2' & _ & Hi2). destruct (run_det _ _ _ _ _ _ E2 E2') as [_ <-].
  rewrite (bind_Ret _ _ _ _ _ E2) in E. destruct (mbufalloc_spec [] fl s2 0 Hi2) as (m' & s3 & E3 & _ & _); [done|].
  rewrite (bind_Ret _ _ _ _ _ E3) in E. destruct (mbufalloc_frame _ _ _ _ E3) as (Hk & _).
  assert (has_packet s3 dsi m bs) as H3.
  { destruct H2 as (d & x & Hx1 & Hx2 & Hx3 & Hx). exists d, x. rewrite Hk. split; [done|]. split; [done|]. split; [by eapply mbufalloc_keeps|done]. }
  apply bind_Ret_inv in E as ([] & s4 & [= <-] & E). apply bind_Ret_inv in E as (x & s5 & E5 & [= <-]).
  unfold on_mbuf in E5. cbn [n_mbufs update field_set] in E5. destruct (n_mbufs s3 !! m') as [y|] eqn:Hy; [|done]. injection E5 as <- <-.
  destruct H3 as (d & z & Hz1 & Hz2 & Hz3 & Hz). exists d, z. split; [done|]. split; [done|]. split; [|done].
  cbn [n_mbufs update field_set]. by rewrite insert_id.
Qed.

Lemma e1000_recv_done fuel s d m : let ind := Z.to_nat (u32 (reg_rdt s + 1) mod Z.of_nat RX_RING_SIZE) in
  rx_ring s !! ind = Some d → rx_mbufs s !! ind = Some m → rx_done d = true →
  e1000_recv (S fuel) s = (_ ← recv_one ind d m; e1000_recv fuel) s.
Proof.
  intros ind Hd Hm Hr. cbn [e1000_recv]. step_with (run_get s). fold ind. rewrite Hd, Hm. cbn [default]. unfold id.
  unfold rx_done in Hr. apply negb_true_iff in Hr. by rewrite Hr.
Qed.

Lemma e1000_recv_idle fuel s : (∀ i d, rx_ring s !! i = Some d → rx_done d = false) → run (e1000_recv fuel) s () s.
Proof.
  intros Hz. assert (∀ i, Z.land (rd_status (default rx0 (rx_ring s !! i))) E1000_RXD_STAT_DD =? 0 = true) as H.
  { intros i. destruct (rx_ring s !! i) as [d|] eqn:Hd; [|done]. apply negb_false_iff, (Hz i d Hd). }
  destruct fuel; cbn [e1000_recv]; step_with (run_get s); by rewrite H.
Qed.

(** The interrupt for one datagram. *)
Lemma e1000_recv_frame s ind m mac sip dip sport dport bs pad dsi s' : net_ok [] s →
  ind = Z.to_nat (u32 (reg_rdt s + 1) mod Z.of_nat RX_RING_SIZE) →
  rx_mbufs s !! ind = Some m → (∀ d, d ∈ rx_ring s → rx_done d = false) →
  let frame := udp_frame mac sip dip sport dport bs in
  is_bytes (frame ++ pad) → Z.of_nat (length (frame ++ pad)) ≤ MBUF_SIZE →
  length mac = ETHADDR_LEN → 0 ≤ sip < 2 ^ 32 → 0 ≤ dip < 2 ^ 32 → 0 ≤ sport < 2 ^ 16 → 0 ≤ dport < 2 ^ 16 →
  local_ip s = dip → listens s dsi sip sport dport →
  run (e1000_recv RX_RING_SIZE) (card_stores ind m (frame ++ pad) s) () s' → net_ok [] s' ∧ has_packet s' dsi m bs.
Proof.
  intros Hok Hind Hm Hnd frame Hby Hlen Hmac Hsip Hdip Hsp Hdp Hip Hli E.
  pose proof (card_stores_ok ind m (frame ++ pad) s Hok Hm Hby Hlen) as Hok1.
  destruct (net_inv_held [] m (delete ind (rx_mbufs s)) s) as (b & Hb & _).
  { apply (net_inv_proper [] _ _ (symmetry (delete_Permutation _ _ _ Hm)) _ _ eq_refl). apply Hok. }
  destruct (lookup_lt_is_Some_2 (rx_ring s) ind) as [d Hd].
  { rewrite (no_rx _ _ Hok), <- (no_rxm _ _ Hok). by eapply lookup_lt_Some. }
  set (d1 := d <| rd_length := Z.of_nat (length (frame ++ pad)) |> <| rd_status := E1000_RXD_STAT_DD |>).
  assert (rx_ring (card_stores ind m (frame ++ pad) s) !! ind = Some d1) as Hd1 by (cbn; by rewrite list_lookup_alter_eq, Hd).
  assert (n_mbufs (card_stores ind m (frame ++ pad) s) !! m = Some (b <| m_buf ::= splice 0 (frame ++ pad) |>)) as Hb1
    by (cbn; by rewrite lookup_alter_eq, Hb).
  assert (tally rx_done (rx_ring (card_stores ind m (frame ++ pad) s)) = 1) as Ht.
  { cbn [rx_ring card_stores update field_set]. rewrite (alter_insert_eq _ _ _ _ Hd), (tally_insert _ _ _ d) by done.
    rewrite (Hnd d) by (by eapply list_elem_of_lookup_2). assert (tally rx_done (rx_ring s) = 0) as ->; [|done].
    apply tally_zero. intros j x Hx. apply Hnd. by eapply list_elem_of_lookup_2. }
  set (s1 := card_stores ind m (frame ++ pad) s) in *. subst ind.
  set (ind := Z.to_nat (u32 (reg_rdt s + 1) mod Z.of_nat RX_RING_SIZE)) in *.
  change (run (e1000_recv (S 15)) s1 () s') in E. rewrite (e1000_recv_done 15 s1 d1 m Hd1 Hm eq_refl) in E.
  change (Z.to_nat (u32 (reg_rdt s1 + 1) mod Z.of_nat RX_RING_SIZE)) with ind in E.
  apply bind_Ret_inv in E as ([] & s2 & E1 & E2).
  destruct (recv_one_spec [] s1 ind d1 m Hok1 Hd1 Hm) as [(s2' & E1' & Hok2 & _ & Ht2)|[E1' _]]; [|congruence].
  destruct (run_det _ _ _ _ _ _ E1 E1') as [_ <-]. rewrite Ht in Ht2. change (rx_done d1) with true in Ht2. cbv iota in Ht2.
  assert (s' = s2) as ->.
  { rewrite e1000_recv_idle in E2 by exact (proj1 (tally_zero _ _) Ht2). by injection E2 as <-. }
  split; [done|]. eapply (recv_one_frame s1 ind d1 m mac sip dip sport dport bs (pad ++ drop (0 + length (frame ++ pad)) (m_buf b)));
    [done|done|exact Hd1|exact Hb1| | |done..|exact Hip|exact Hli|exact E1].
  - unfold splice. cbn [m_buf update field_set]. by rewrite take_0, <- !app_assoc.
  - cbn [d1 rd_length update field_set]. rewrite length_app. unfold frame, udp_frame. rewrite !length_app. cbv zeta.
    unfold eth_bytes. rewrite !length_app, Hmac. change (length broadcast_mac) with 6%nat. change (length (be16 _)) with 2%nat.
    change (length (ip_bytes _ _ _ _)) with 20%nat. change (length (udp_bytes _ _ _)) with 8%nat. unfold ETHADDR_LEN. lia.
Qed.

(** C34. A datagram of at most 2006 bytes gets through: what [sockwrite] puts
    into the transmit ring, padded by the card and received by a host with the
    address it is sent to, is delivered by the interrupt handler to the socket
    bound to the ports, and reading that socket returns the length and the bytes
    that were written. *)
Theorem udp_roundtrip s si b um addr n (f : Z → Z) s' :
  net_ok [] s → si ∈ n_sockets s → n_sock s !! si = Some b → tx_ready s →
  0 ≤ local_ip s < 2 ^ 32 → 0 ≤ so_raddr b < 2 ^ 32 → 0 ≤ so_lport b < 2 ^ 16 → 0 ≤ so_rport b < 2 ^ 16 →
  0 ≤ n ≤ 2006 → (∀ a x, um a = Some x → is_byte x) → (∀ j, 0 ≤ j < n → um (addr + j) = Some (f j)) →
  run (sockwrite um si addr n) s n s' →
  ∃ m p, tx_holds (Z.to_nat (reg_tdt s)) m p s' ∧
    ∀ r ind rm dsi pad r2 um2 addr2 n2,
      net_ok [] r → local_ip r = so_raddr b → ind = Z.to_nat (u32 (reg_rdt r + 1) mod Z.of_nat RX_RING_SIZE) →
      rx_mbufs r !! ind = Some rm → (∀ d, d ∈ rx_ring r → rx_done d = false) →
      listens r dsi (local_ip s) (so_lport b) (so_rport b) →
      is_bytes pad → Z.of_nat (length (packet p ++ pad)) ≤ MBUF_SIZE →
      run (e1000_recv RX_RING_SIZE) (card_stores ind rm (packet p ++ pad) r) () r2 →
      n ≤ n2 → (∀ j, 0 ≤ j < n → is_Some (um2 (addr2 + j))) →
      ∃ um3 r3, run (sockread ram um2 false dsi addr2 n2) r2 (n, um3) r3 ∧ ∀ j, 0 ≤ j < n → um3 (addr2 + j) = Some (f j).
Proof.
  intros Hok Hsi Hb Hrdy Hlip Hra Hlp Hrp Hn Hum Hf E. pose proof (no_inv _ _ Hok) as Hi.
  pose proof (copyin_um_ok um addr (Z.to_nat n) f ltac:(intros j Hj; apply Hf; lia)) as Hc. set (bs := (λ j, f (Z.of_nat j)) <$> seq 0 (Z.to_nat n)) in *.
  assert (Z.of_nat (length bs) = n) as Hlbs by (unfold bs; rewrite length_fmap, length_seq; lia).
  assert (∀ j, 0 ≤ j < n → byte_at bs (Z.to_nat j) = f j) as Hbyte.
  { intros j Hj. unfold byte_at, bs. rewrite list_lookup_fmap, lookup_seq_lt by lia. cbn. f_equal. lia. }
  destruct (sockwrite_run [] (rx_mbufs s) s um si addr n true bs Hi ltac:(change MBUF_SIZE with 2048; lia) Hum Hc)
    as (m & s1 & (_ & _ & _ & Fip & Fmac & Fs & _) & (Hk & Htr & _ & Htd) & [[_ E1]|(Hi1 & Hb1 & E1)]).
  { rewrite E in E1. injection E1 as E1 _. lia. }
  rewrite E1 in E. cbn [negb] in E. rewrite <- Hk in Hb. rewrite (bind_Ret _ _ _ _ _ (on_sock_read si get s1 b b Hb eq_refl)) in E.
  destruct (net_tx_udp_frame [] m (so_raddr b) (so_lport b) (so_rport b) _ s1 _ Hi1 Hb1) as (s2 & p & E2 & Ht & Hp).
  { done. }
  { unfold tx_ready. by rewrite Htr, Htd. }
  rewrite (bind_Ret _ _ _ _ _ E2) in E. injection E as <-. rewrite filled_packet in Hp by (done || (change MBUF_SIZE with 2048; lia)).
  rewrite Htd in Ht. exists m, p. split; [done|].
  intros r ind rm dsi pad r2 um2 addr2 n2 Hokr Hip Hind Hrm Hnd Hli Hpad Hlen Er Hn2 Hum2.
  assert (is_bytes bs) as Hbb.
  { destruct (copyin_um_bytes um addr (Z.to_nat n) Hum) as [Hbb _]. by rewrite Hc in Hbb. }
  destruct Hi as (_ & _ & _ & [_ _ _ [Hmac Hmacb]]). rewrite Hp, Fip, Fmac in *.
  destruct (e1000_recv_frame r ind rm (local_mac s) (local_ip s) (so_raddr b) (so_lport b) (so_rport b) bs pad dsi r2) as [Hok2 Hpk]; try done.
  { apply Forall_app. split; [by apply udp_frame_bytes|done]. }
  destruct (sockread_packet [] _ r2 um2 dsi rm bs addr2 n2 (no_inv _ _ Hok2) Hpk) as (um3 & r3 & E3 & H3); [lia|by rewrite Hlbs|].
  rewrite Hlbs in E3, H3. exists um3, r3. split; [done|]. intros j Hj. rewrite H3, Hbyte by done. done.
Qed.
End system.
