(* ===== verification/NetExample.v ===== *)
(** * The network on a concrete machine

    What sysnet.c and the driver get wrong, and runs of the code over kalloc.c
    with 24 pages for the theorems of [NetSpec]: two hosts with a socket each. *)

From stdpp Require Import gmap.
From S2P Require Import Prelude Bytes BufCache Bio Log LogDisk PageAlloc Kalloc Pipe Fs FsData FsExample File Mbuf Packet Net NetInv Socket NetSpec.

(** ** Defects *)

Section defects.
Context {K : Type} `{!PageAlloc K} `{!PageAllocSpec K}.
Implicit Types (s : net K).

(** The driver never clears the status of a descriptor it hands to the card:
    when every descriptor is done, as [e1000_init] leaves them, any number of
    packets is accepted although the card reports none, and the buffer of the
    packet that waits in the slot is freed. *)
Theorem transmit_overruns held m fl s old :
  net_inv held (m :: fl) s → (∀ i d, tx_ring s !! i = Some d → td_status d = E1000_TXD_STAT_DD) →
  tx_mbufs s !! Z.to_nat (reg_tdt s) = Some old → old ≠ 0 →
  ∃ s', run (e1000_transmit m) s 0 s' ∧ n_mbufs s' !! old = None ∧
    ∀ i d, tx_ring s' !! i = Some d → td_status d = E1000_TXD_STAT_DD.
Proof.
  intros Hi Hst Hold H0. pose proof Hi as (Q & Hh & _ & Hr). destruct (net_inv_held held m fl s Hi) as (b & Hb & _).
  unfold e1000_transmit. step_with (run_get s). set (ind := Z.to_nat (reg_tdt s)) in *.
  destruct (lookup_lt_is_Some_2 (tx_ring s) ind) as [d Hd]; [rewrite (ri_tx _ Hr), <- (ri_txm _ Hr); by eapply lookup_lt_Some|].
  rewrite Hd. cbn [default]. unfold id. rewrite (Hst ind d Hd). change (Z.land E1000_TXD_STAT_DD E1000_TXD_STAT_DD =? 0) with false. cbv iota. rewrite Hold. cbn [default]. unfold id.
  destruct (Z.eqb_spec old 0); [done|]. cbv iota.
  assert (old ∈ tx_owned s) as Hin by (apply list_elem_of_filter; split; [done|]; by eapply list_elem_of_lookup_2).
  assert (old ≠ m) as Hne. { intros ->. pose proof (ho_nodup _ _ Hh) as [Hn _]%NoDup_cons. apply Hn. rewrite !elem_of_app. right. by left. }
  destruct (mbuffree_run old _ s Hh) as (k & _ & _ & E); [rewrite !elem_of_app; right; by left|].
  set (s1 := s <| n_pages := k |> <| n_mbufs ::= delete old |> <| tx_mbufs ::= <[ind := 0]> |>).
  assert (run (_ ← mbuffree old; modify (λ s, s <| tx_mbufs ::= <[ind := 0]> |>)) s () s1) as E1 by (by step_with E). step_with E1. assert (n_mbufs s1 !! m = Some b) as Hb1 by (cbn; by rewrite lookup_delete_ne).
  step_with (on_mbuf_read m get s1 b b Hb1 eq_refl). eexists. split; [reflexivity|]. cbn [n_mbufs tx_ring s1 update field_set].
  split; [apply lookup_delete_eq|]. intros i x Hx. destruct (decide (i = ind)) as [->|].
  - rewrite list_lookup_alter_eq, Hd in Hx. injection Hx as <-. cbn. eauto.
  - rewrite list_lookup_alter_ne in Hx by done. eauto.
Qed.

(** A copy that ends at the first unmapped byte. *)
Lemma copyout_um_before bs : ∀ a m x, x < a → (copyout_um a bs m).2 x = m x.
Proof.
  induction bs as [|y bs IH]; intros a m x Hx; cbn [copyout_um]; [done|]. destruct (m a); [|done].
  rewrite IH by lia. apply fupd_ne. lia.
Qed.

Lemma copyout_um_stops bs : ∀ k a m, (∀ j, 0 ≤ j < Z.of_nat k → is_Some (m (a + j))) → m (a + Z.of_nat k) = None →
  (k < length bs)%nat → (copyout_um a bs m).1 = false ∧
    ∀ j, (j < k)%nat → (copyout_um a bs m).2 (a + Z.of_nat j) = Some (byte_at bs j).
Proof.
  induction bs as [|y bs IH]; intros k a m Hm Hn Hk; cbn [length] in Hk; [lia|]. cbn [copyout_um]. destruct k as [|k].
  - rewrite Z.add_0_r in Hn. rewrite Hn. split; [done|lia].
  - destruct (Hm 0 ltac:(lia)) as [z Hz]. rewrite Z.add_0_r in Hz. rewrite Hz.
    destruct (IH k (a + 1) (fupd a (Some y) m)) as [E Hm']; [| |lia|].
    + intros j Hj. rewrite fupd_ne by lia. replace (a + 1 + j) with (a + (j + 1)) by lia. apply Hm. lia.
    + rewrite fupd_ne by lia. by replace (a + 1 + Z.of_nat k) with (a + Z.of_nat (S k)) by lia.
    + split; [done|]. intros [|j] Hj.
      * rewrite copyout_um_before, Z.add_0_r by lia. apply fupd_eq.
      * replace (a + Z.of_nat (S j)) with (a + 1 + Z.of_nat j) by lia. apply Hm'. lia.
Qed.

(** A read with a negative length copies the buffer beyond the packet, and the
    memory of the kernel beyond the buffer, to the process until its memory
    ends. *)
Theorem sockread_leaks ram held fl s um dsi m bs addr n k : net_inv held fl s → has_packet s dsi m bs → n < 0 →
  (∀ j, 0 ≤ j < Z.of_nat k → is_Some (um (addr + j))) → um (addr + Z.of_nat k) = None →
  ∃ p um' s', n_mbufs s !! m = Some p ∧ packet p = bs ∧
    let src := drop (Z.to_nat (m_head p)) (m_buf p) ++ ram (m + PGSIZE) in
    ((k < length src)%nat → run (sockread ram um false dsi addr n) s (-1, um') s' ∧
      ∀ j, (j < k)%nat → um' (addr + Z.of_nat j) = Some (byte_at src j)).
Proof.
  intros Hi (d & b & Hd & Hq & Hb & Hnx & Hp & Hl & H0) Hn Hum Hend.
  assert (mbufq_empty (so_rxq d) = false) as He by (rewrite Hq; by apply Z.eqb_neq).
  destruct (dequeue_run held fl s dsi d Hi Hd He) as (m' & q' & E1 & Hi1).
  assert (m' = m) as ->.
  { unfold mbufq_pophead in E1. rewrite Hq in E1. cbn [q_first] in E1. destruct (Z.eqb_spec m 0); [done|].
    rewrite (bind_Ret _ _ _ _ _ (on_mbuf_read m (gets m_next) s b _ Hb eq_refl)) in E1. by injection E1 as <- _. }
  destruct (mbuffree_spec held m fl _ Hi1) as (s2 & E2 & _). set (src := drop (Z.to_nat (m_head b)) (m_buf b) ++ ram (m + PGSIZE)).
  exists b, (copyout_um addr src um).2, s2. split; [done|]. split; [done|]. cbv zeta. fold src. intros Hk.
  destruct (copyout_um_stops src k addr um Hum Hend Hk) as [Ef Hj]. split; [|exact Hj].
  unfold sockread. step_with (on_sock_read dsi get s d d Hd eq_refl). rewrite He. cbn [andb negb]. step_with E1.
  step_with (on_sock_run dsi (modify (λ b, b <| so_rxq := q' |>)) s d () _ Hd eq_refl).
  erewrite bind_Ret by (by apply (on_mbuf_read m get _ b)). cbn beta iota.
  assert (n < i32 (m_len b)) as Hlt.
  { destruct (net_inv_held held m fl _ Hi1) as (b' & Hb' & (? & ? & ? & _) & _). cbn [n_mbufs update field_set] in Hb'.
    rewrite Hb in Hb'. injection Hb' as <-. change MBUF_ROOM with 4076 in *. rewrite i32_small; lia. }
  destruct (Z.ltb_spec n (i32 (m_len b))); [|lia]. destruct (Z.ltb_spec n 0); [|lia].
  match goal with |- context [copyout_um addr ?x um] => change x with src end. clearbody src.
  destruct (copyout_um addr src um) as [ok um']. cbn [fst snd] in *. subst ok. cbv iota. by step_with E2.
Qed.

(** The check of [sys_bind] compares the whole argument with the 16-bit ports:
    it never finds a port above 65535 in use, and stores it truncated. *)
Theorem bind_truncates held fl s si b port : net_inv held fl s → n_sock s !! si = Some b → si ∈ n_sockets s →
  (∀ a x, n_sock s !! a = Some x → 0 ≤ so_lport x < 2 ^ 16) → 2 ^ 16 ≤ port →
  run (sock_bind si port) s 0 (s <| n_sock ::= <[si := b <| so_lport := port mod 2 ^ 16 |>]> |>).
Proof.
  intros Hi Hb Hsi Hp Hport. unfold sock_bind. step_with (run_get s).
  step_with (find_sock_run (λ a b, negb (a =? si) && (so_lport b =? port)) (n_sockets s) s
    (λ a Ha, sock_held held fl s a Hi (proj2 (elem_of_app _ _ _) (or_intror Ha)))).
  destruct (first_sock _ _ _) as [a|] eqn:Hf.
  - destruct (first_sock_Some _ _ _ _ Hf) as (_ & x & Hx & Hfx). apply andb_true_iff in Hfx as [_ Hfx%Z.eqb_eq]. specialize (Hp a x Hx). lia.
  - by step_with (on_sock_run si (modify (λ b, b <| so_lport := u16 port |>)) s b () _ Hb eq_refl).
Qed.
End defects.

(** ** A second connection with the same ports *)

Section connect.
Context {C : Type} `{!BufCache C} {K : Type} `{!PageAlloc K} `{!PageAllocSpec K}.
Implicit Types (s : sysst C K).

Lemma on_net_run {A} (f : ST (net K) A) s a n : run f (sy_net s) a n → run (on_net f) s a (s <| sy_net := n |>).
Proof. intros E. unfold on_net. by rewrite E. Qed.
Lemma on_fds_run {A} (f : ST (fdstate C) A) s a x : run f (sy_fd s) a x → run (on_fds f) s a (s <| sy_fd := x |>).
Proof. intros E. unfold on_fds. by rewrite E. Qed.
Lemma on_fds_read {A} (f : ST (fdstate C) A) s a : run f (sy_fd s) a (sy_fd s) → run (on_fds f) s a s.
Proof. intros E. rewrite (on_fds_run f s a _ E). by destruct s. Qed.
Lemma on_ftable_run {A} (f : ST (list file) A) (x : fdstate C) a t : run f (ftable x) a t → run (on_ftable f) x a (x <| ftable := t |>).
Proof. intros E. unfold on_ftable. by rewrite E. Qed.

Lemma first_sock_exists f h l a b : (∀ x, x ∈ l → is_Some (h !! x)) → a ∈ l → h !! a = Some b → f a b = true →
  ∃ a', first_sock f h l = Some a'.
Proof.
  induction l as [|x l IH]; intros Hl Ha Hb Hf; [set_solver|]. cbn. destruct (Hl x ltac:(set_solver)) as [y Hy]. rewrite Hy.
  destruct (f x y) eqn:E; [eauto|]. apply IH; try done; [set_solver|]. apply elem_of_cons in Ha as [->|]; [congruence|done].
Qed.

(** The last close of a file that is a socket whose page is gone. *)
Lemma close_dead_socket s f x : ftable (sy_fd s) !! f = Some x → f_type x = FD_SOCK → f_ref x = 1 →
  n_sock (sy_net s) !! f_sock x = None → sys_fileclose f s = Panic "kerneltrap".
Proof.
  intros Hf Ht Hr Hn. unfold sys_fileclose.
  assert (run (the_file f) (sy_fd s) x (sy_fd s)) as E1 by (unfold the_file, gets; by rewrite Hf).
  step_with (on_fds_read _ s _ E1).
  pose proof (fileclose_ref_run (ftable (sy_fd s)) f x Hf ltac:(lia)) as E2. rewrite decide_True in E2 by done.
  assert (∃ y, run (fileclose (λ _, mret ()) f) (sy_fd s) () y) as [y E3].
  { unfold fileclose. step_with (on_ftable_run _ (sy_fd s) _ _ E2). cbn [f_type update field_set]. rewrite Ht. by eexists. }
  step_with (on_fds_run _ s () y E3). rewrite bool_decide_true by done. rewrite Hr. cbn [andb Z.eqb Pos.eqb]. unfold on_net. cbn [sy_net update field_set].
  by rewrite sockclose_freed.
Qed.

(** [connect] with the address and the ports of an existing socket brings
    the kernel down: [sockalloc] frees the page of the new socket and then closes
    its file, whose type is already that of a socket, so that [sockclose] works
    on the freed page. *)
Theorem connect_twice_faults s fl raddr lport rport a b si n1 :
  net_inv [] fl (sy_net s) → a ∈ n_sockets (sy_net s) → n_sock (sy_net s) !! a = Some b →
  so_raddr b = u32 raddr → so_lport b = u16 lport → so_rport b = u16 rport →
  (∃ f x, ftable (sy_fd s) !! f = Some x ∧ f_ref x = 0) → run new_sock (sy_net s) (Some si) n1 →
  sys_connect raddr lport rport s = Panic "kerneltrap".
Proof.
  intros Hi Ha Hb E1 E2 E3 (f0 & x0 & Hf0 & Hx0) En. unfold sys_connect.
  enough (sockalloc (u32 raddr) (u16 lport) (u16 rport) s = Panic "kerneltrap") as E by (unfold mbind, ST_bind; by rewrite E).
  unfold sockalloc. destruct (filealloc_run (ftable (sy_fd s))) as [(f & x & Hf & Hx & Ef)|[_ Hno]]; [|by apply Hno in Hf0].
  step_with (on_fds_run _ s _ _ (on_ftable_run _ (sy_fd s) _ _ Ef)).
  set (t1 := alter (λ x, x <| f_ref := 1 |>) f (ftable (sy_fd s))). set (s1 := s <| sy_fd := (sy_fd s) <| ftable := t1 |> |>).
  step_with (on_net_run new_sock s1 _ n1 En).
  destruct (new_sock_spec [] fl (sy_net s) (λ b, b <| so_raddr := u32 raddr |> <| so_lport := u16 lport |> <| so_rport := u16 rport |> <| so_rxq ::= mbufq_init |>) Hi)
    as (r & n1' & En' & Hn); [done|]. destruct (run_det _ _ _ _ _ _ En En') as [<- <-]. destruct Hn as (n2 & Em & Hfr & Hi2 & Hk & Hp).
  erewrite bind_Ret by (apply on_net_run; exact Em). cbn beta iota.
  set (s2 := s1 <| sy_net := n1 |> <| sy_net := n2 |>).
  assert (run (set_file f (sock_file si)) s2 () (s2 <| sy_fd := (sy_fd s1) <| ftable := alter (sock_file si) f t1 |> |>)) as Es by done.
  step_with Es. set (s3 := s2 <| sy_fd := _ |>). step_with (run_get s3).
  assert (∀ z, z ∈ n_sockets n2 → is_Some (n_sock n2 !! z)) as Hall.
  { intros z Hz. destruct (sock_held [si] fl n2 z Hi2) as [y Hy]; [apply elem_of_app; by right|]. by rewrite Hy. }
  destruct Hfr as (_ & _ & _ & _ & _ & Hsl & _).
  destruct (first_sock_exists (λ _ b, (so_raddr b =? u32 raddr) && (so_lport b =? u16 lport) && (so_rport b =? u16 rport)) (n_sock n2) (n_sockets n2) a b)
    as [a' Hfs]; [done|by rewrite Hsl|rewrite Hk, lookup_insert_ne; [done|intros ->; congruence]|by rewrite E1, E2, E3, !Z.eqb_refl|].
  pose proof (find_sock_run (λ _ b, (so_raddr b =? u32 raddr) && (so_lport b =? u16 lport) && (so_rport b =? u16 rport)) (n_sockets n2) n2 Hall) as Efs.
  rewrite Hfs in Efs. erewrite bind_Ret by (apply on_net_run; exact Efs). cbn beta iota.
  assert (n_sock n2 !! si = Some (sock_junk <| so_raddr := u32 raddr |> <| so_lport := u16 lport |> <| so_rport := u16 rport |> <| so_rxq ::= mbufq_init |>)) as Hsi
    by (rewrite Hk; apply lookup_insert_eq).
  destruct (free_sock_spec [] fl n2 si _ Hi2 Hsi) as (n3 & E5 & _); [done|].
  assert (n_sock n3 !! si = None) as Hn3.
  { unfold free_sock in E5. apply bind_Ret_inv in E5 as ([] & y & _ & [= <-]). cbn. apply lookup_delete_eq. }
  erewrite bind_Ret by (apply on_net_run; exact E5). cbn beta iota. unfold mbind, ST_bind.
  rewrite (close_dead_socket _ f (sock_file si (x <| f_ref := 1 |>))); try done.
  cbn. unfold t1. by rewrite !list_lookup_alter_eq, Hf.
Qed.
End connect.

(** ** Two hosts *)

(** The last 24 pages of memory. *)
Definition kend_net : Z := PHYSTOP - 24 * PGSIZE.
Definition ks_net : kstate := after (kinit kend_net) (k0 (λ _, []) 0).
#[local] Existing Instance kalloc_pages | 100.

Lemma ks_net_run : run (kinit kend_net) (k0 (λ _, []) 0) () ks_net.
Proof. refine (run_after (kinit kend_net) (k0 (λ _, []) 0) () _). vm_compute. reflexivity. Qed.

Lemma ks_net_ok : pwf (PageAllocSpec := kalloc_spec kend_net) ks_net.
Proof.
  assert (0 < kend_net ≤ PHYSTOP) as Hk by (unfold kend_net, PHYSTOP, KERNBASE, PGSIZE; lia).
  destruct (kinit_ok kend_net Hk (λ _, []) 0) as (s0 & E0 & Hok & _); [apply Nat.ltb_lt; reflexivity|].
  destruct (run_det _ _ _ _ _ _ ks_net_run E0) as [_ ->]. exact Hok.
Qed.

#[local] Opaque ks_net.

Section hosts.
#[local] Instance pages_net : PageAlloc kstate := kalloc_pages kend_net.
#[local] Instance spec_net : PageAllocSpec kstate := kalloc_spec kend_net.

Definition host0 (ip : Z) : net kstate :=
  Net ks_net ∅ [] ∅ [] [] [] (replicate RX_RING_SIZE 0) 0 0 ip local_mac0.
Definition host1 (ip : Z) : net kstate := after e1000_init (host0 ip).
(** With a socket for the ports [lport] and [rport] of the host [raddr]. *)
Definition peer (raddr lport rport : Z) (b : sock) : sock :=
  b <| so_raddr := raddr |> <| so_lport := lport |> <| so_rport := rport |> <| so_rxq ::= mbufq_init |>.
Definition host2 (ip raddr lport rport : Z) : net kstate := after (sock_open (peer raddr lport rport)) (host1 ip).

Definition ip_a : Z := MAKE_IP_ADDR 10 0 2 15.
Definition ip_b : Z := MAKE_IP_ADDR 10 0 2 2.
Definition host_a : net kstate := host2 ip_a ip_b 2000 25.
Definition host_b : net kstate := host2 ip_b ip_a 25 2000.
Definition sock_ex : Z := default 0 (head (n_sockets host_a)).

Lemma host0_boot ip : net_boot (host0 ip).
Proof. split; [exact ks_net_ok|]. unfold host0. split_and!; try reflexivity. repeat constructor; unfold is_byte; lia. Qed.

Lemma host1_run ip : ip = ip_a ∨ ip = ip_b → run e1000_init (host0 ip) () (host1 ip).
Proof. intros [->| ->]; refine (run_after e1000_init _ () _); vm_compute; reflexivity. Qed.

Lemma host_a_run : run (sock_open (peer ip_b 2000 25)) (host1 ip_a) (Some sock_ex) host_a.
Proof. refine (run_after (sock_open (peer ip_b 2000 25)) (host1 ip_a) (Some sock_ex) _). vm_compute. reflexivity. Qed.
Lemma host_b_run : run (sock_open (peer ip_a 25 2000)) (host1 ip_b) (Some sock_ex) host_b.
Proof. refine (run_after (sock_open (peer ip_a 25 2000)) (host1 ip_b) (Some sock_ex) _). vm_compute. reflexivity. Qed.

Lemma host1_ok ip : ip = ip_a ∨ ip = ip_b → net_ok [] (host1 ip).
Proof.
  intros Hip. pose proof (host1_run ip Hip) as E. destruct (e1000_init_spec _ (host0_boot ip)) as [(s & E1 & Hok)|E1].
  - destruct (run_det _ _ _ _ _ _ E E1) as [_ ->]. exact Hok.
  - rewrite E in E1. discriminate E1.
Qed.

Lemma host2_ok ip raddr lport rport : ip = ip_a ∨ ip = ip_b →
  run (sock_open (peer raddr lport rport)) (host1 ip) (Some sock_ex) (host2 ip raddr lport rport) → net_ok [] (host2 ip raddr lport rport).
Proof.
  intros Hip E. destruct (sock_open_spec _ (peer raddr lport rport) (host1_ok ip Hip)) as (r & s & E1 & Hok); [reflexivity|].
  destruct (run_det _ _ _ _ _ _ E E1) as [_ ->]. exact Hok.
Qed.
Lemma host_a_ok : net_ok [] host_a.
Proof. apply host2_ok; [by left|exact host_a_run]. Qed.
Lemma host_b_ok : net_ok [] host_b.
Proof. apply host2_ok; [by right|exact host_b_run]. Qed.

Lemma sockets_a : n_sockets host_a = [sock_ex].
Proof. vm_compute. reflexivity. Qed.
Lemma sockets_b : n_sockets host_b = [sock_ex].
Proof. vm_compute. reflexivity. Qed.
Lemma sock_a : n_sock host_a !! sock_ex = Some (peer ip_b 2000 25 sock_junk).
Proof. vm_compute. reflexivity. Qed.
Lemma sock_b : n_sock host_b !! sock_ex = Some (peer ip_a 25 2000 sock_junk).
Proof. vm_compute. reflexivity. Qed.

(** The five bytes at 64 of [um_ex], sent by the first host to the second. *)
Definition host_sent : net kstate := after (sockwrite um_ex sock_ex 64 5) host_a.
Definition m_sent : Z := default 0 (tx_mbufs host_sent !! 0%nat).
Definition p_sent : mbuf := default (mbuf_new 0) (n_mbufs host_sent !! m_sent).
Definition m_recv : Z := default 0 (rx_mbufs host_b !! 0%nat).
Definition host_gets : net kstate := after (e1000_recv RX_RING_SIZE) (card_stores 0 m_recv (packet p_sent ++ [0; 0]) host_b).

Lemma host_sent_run : run (sockwrite um_ex sock_ex 64 5) host_a 5 host_sent.
Proof. refine (run_after (sockwrite um_ex sock_ex 64 5) host_a 5 _). vm_compute. reflexivity. Qed.
Lemma host_gets_run : run (e1000_recv RX_RING_SIZE) (card_stores 0 m_recv (packet p_sent ++ [0; 0]) host_b) () host_gets.
Proof. refine (run_after (e1000_recv RX_RING_SIZE) (card_stores 0 m_recv (packet p_sent ++ [0; 0]) host_b) () _). vm_compute. reflexivity. Qed.
Lemma m_sent_slot : tx_mbufs host_sent !! 0%nat = Some m_sent.
Proof. vm_compute. reflexivity. Qed.
Lemma p_sent_buf : n_mbufs host_sent !! m_sent = Some p_sent.
Proof. vm_compute. reflexivity. Qed.
Lemma m_recv_slot : rx_mbufs host_b !! 0%nat = Some m_recv.
Proof. vm_compute. reflexivity. Qed.
Lemma packet_sent_len : length (packet p_sent) = 47%nat.
Proof. vm_compute. reflexivity. Qed.
Lemma tx_ready_a : tx_ready host_a.
Proof. exists (default tx0 (tx_ring host_a !! 0%nat)). split; vm_compute; [reflexivity|discriminate]. Qed.
Lemma rx_idle_b : ∀ d, d ∈ rx_ring host_b → rx_done d = false.
Proof. intros d Hd. assert (Forall (λ d, rx_done d = false) (rx_ring host_b)) as H by (vm_compute; repeat constructor). by apply (proj1 (Forall_forall _ _) H). Qed.
Lemma listens_b : listens host_b sock_ex ip_a 2000 25.
Proof. split; [vm_compute; reflexivity|]. exists (peer ip_a 25 2000 sock_junk). split; [exact sock_b|reflexivity]. Qed.
Lemma hosts_regs : reg_tdt host_a = 0 ∧ reg_rdt host_b = 15 ∧ local_ip host_a = ip_a ∧ local_ip host_b = ip_b.
Proof. vm_compute. done. Qed.

#[local] Opaque host_a host_b host_sent host_gets m_sent p_sent m_recv sock_ex.

Lemma lookup_same {A} {o : option A} {a b} : o = Some a → o = Some b → a = b.
Proof. congruence. Qed.

Lemma um_ex_bytes a x : um_ex a = Some x → is_byte x.
Proof. unfold um_ex. destruct (Z.leb_spec 64 a), (Z.ltb_spec a 69); cbn [andb]; intros [= <-]; unfold is_byte; lia. Qed.
Lemma um_ex_get j : 0 ≤ j < 5 → um_ex (64 + j) = Some (10 + j).
Proof. intros Hj. unfold um_ex. destruct (Z.leb_spec 64 (64 + j)), (Z.ltb_spec (64 + j) 69); try lia. cbn [andb]. f_equal. lia. Qed.

Lemma net_buffers_safe_witness : ∃ s, run (sockclose sock_ex) host_a () s.
Proof.
  destruct (net_buffers_safe (λ _, []) (host0 ip_a) (host1 ip_a) host_a) as (_ & _ & _ & _ & H & _).
  - exact (host0_boot ip_a).
  - apply host1_run. by left.
  - apply rtc_once. apply (st_open (λ _, []) _ (peer ip_b 2000 25) (Some sock_ex)); [reflexivity|exact host_a_run].
  - destruct (H sock_ex) as (s & E & _); [rewrite sockets_a; by left|]. exists s. exact E.
Defined.

Lemma udp_roundtrip_witness : ∃ um s, run (sockread (λ _, []) um_ex false sock_ex 64 5) host_gets (5, um) s ∧ um 68 = Some 14.
Proof.
  destruct hosts_regs as (Ht & Hd & Ha & Hb).
  destruct (udp_roundtrip (λ _, []) host_a sock_ex (peer ip_b 2000 25 sock_junk) um_ex 64 5 (λ j, 10 + j) host_sent) as (m & p & (Hm & Hp & _) & H).
  - exact host_a_ok.
  - rewrite sockets_a. by left.
  - exact sock_a.
  - exact tx_ready_a.
  - rewrite Ha. vm_compute. split; [discriminate|reflexivity].
  - vm_compute. split; [discriminate|reflexivity].
  - vm_compute. split; [discriminate|reflexivity].
  - vm_compute. split; [discriminate|reflexivity].
  - lia.
  - exact um_ex_bytes.
  - exact um_ex_get.
  - exact host_sent_run.
  - rewrite Ht in Hm. change (Z.to_nat 0) with 0%nat in Hm. apply (lookup_same m_sent_slot) in Hm as <-. apply (lookup_same p_sent_buf) in Hp as <-.
    destruct (H host_b 0%nat m_recv sock_ex [0; 0] host_gets um_ex 64 5) as (um & s & E & Hu).
    + exact host_b_ok.
    + rewrite Hb. reflexivity.
    + rewrite Hd. reflexivity.
    + exact m_recv_slot.
    + exact rx_idle_b.
    + rewrite Ha. exact listens_b.
    + repeat constructor; unfold is_byte; lia.
    + rewrite length_app, packet_sent_len. vm_compute. discriminate.
    + exact host_gets_run.
    + lia.
    + intros j Hj. rewrite um_ex_get by exact Hj. by eexists.
    + exists um, s. split; [exact E|]. exact (Hu 4 ltac:(lia)).
Defined.

(** The kernel of the first host, with one entry of the file table. *)
Definition sys_a : sysst bcache kstate := Sysst (FdState [file0] [] fs0 false) host_a [].
Definition net_a1 : net kstate := after new_sock host_a.
Definition sock_new : Z := default 0 (default None (value new_sock host_a)).

Lemma net_a1_run : run new_sock host_a (Some sock_new) net_a1.
Proof. refine (run_after new_sock host_a (Some sock_new) _). vm_compute. reflexivity. Qed.

Lemma connect_twice_faults_witness : sys_connect ip_b 2000 25 sys_a = Panic "kerneltrap".
Proof.
  apply (connect_twice_faults sys_a (rx_mbufs host_a) ip_b 2000 25 sock_ex (peer ip_b 2000 25 sock_junk) sock_new net_a1).
  - exact (no_inv _ _ host_a_ok).
  - change (sock_ex ∈ n_sockets host_a). rewrite sockets_a. by left.
  - exact sock_a.
  - reflexivity.
  - reflexivity.
  - reflexivity.
  - exists 0%nat, file0. split; reflexivity.
  - exact net_a1_run.
Defined.
End hosts.
