(* ===== verification/SysPath.v ===== *)
(** * System calls on paths (sysfile.c)

    The calls of sysfile.c that work on the file system alone.  Integer and
    pointer arguments are given as fetched; strings are copied from user memory
    into a buffer on the kernel stack, as [argstr] does.  The addresses of the
    buffers and of the string literals are parameters. *)

From stdpp Require Import gmap.
From S2P Require Import Prelude Bytes BufCache Log LogDisk CString Pipe Fs File.

Definition T_FILE : Z := 2.
Definition T_DEVICE : Z := 3.
Definition T_SYMLINK : Z := 4.
Definition O_WRONLY : Z := 1.
Definition O_RDWR : Z := 2.
Definition O_NOFOLLOW : Z := 4.
Definition O_CREATE : Z := 0x200.
Definition O_TRUNC : Z := 0x400.
Definition MAX_SYMLINK_DEPTH : nat := 10.
Definition X_OK : Z := 1.
Definition W_OK : Z := 2.
Definition R_OK : Z := 4.

(** [copyinstr] (vm.c): was there a NUL, and the bytes copied. *)
Fixpoint copyinstr_um (a : Z) (max : nat) (m : umem) : bool * list Z :=
  match max with
  | O => (false, [])
  | S max' =>
      match m a with
      | None => (false, [])
      | Some x =>
          if x =? 0 then (true, [0])
          else let '(ok, bs) := copyinstr_um (a + 1) max' m in (ok, x :: bs)
      end
  end.

Section code.
Context {C : Type} `{!BufCache C}.
Abbreviation FsS := (fstate (lstate C)).

(** The [struct dirent] of fs.c and of the calls, the array [name] of [namei]
    and of the calls, the string literals. *)
Context (de nm name dot dotdot : Z).
Implicit Types (ip dp : nat).

Definition op_begin : ST FsS () := on_disk begin_op.
Definition op_end : ST FsS () := on_disk end_op.

(** [end_op(); return r;] *)
Definition ends {A} (r : A) : ST FsS A := _ ← op_end; mret r.

Definition argstr (addr buf : Z) : ST FsS bool :=
  s ← get;
  let '(ok, bs) := copyinstr_um addr MAXPATH (um s) in
  _ ← modify (λ s, s <| km ::= km_put buf bs |>);
  mret ok.

Definition add_nlink (ip : nat) (d : Z) : ST FsS () :=
  _ ← upd_inode ip (λ i, i <| i_nlink ::= λ n, i16 (n + d) |>);
  iupdate ip.

(** The label [bad] of [sys_link]. *)
Definition link_bad (ip : nat) : ST FsS Z :=
  _ ← ilock ip;
  _ ← add_nlink ip (-1);
  _ ← iunlockput ip;
  ends (-1).

Definition sys_link (old new uold unew : Z) : ST FsS Z :=
  ok ← argstr uold old;
  if negb ok then mret (-1)
  else
  ok ← argstr unew new;
  if negb ok then mret (-1)
  else
  _ ← op_begin;
  r ← namei de nm old;
  match r with
  | None => ends (-1)
  | Some ip =>
      _ ← ilock ip;
      i ← the_inode ip;
      if i_type i =? T_DIR then _ ← iunlockput ip; ends (-1)
      else
        _ ← add_nlink ip 1;
        _ ← iunlock ip;
        r ← nameiparent de new name;
        match r with
        | None => link_bad ip
        | Some dp =>
            _ ← ilock dp;
            d ← the_inode dp;
            i ← the_inode ip;
            r ← (if i_dev d =? i_dev i then dirlink de dp name (i_inum i) else mret (-1));
            _ ← iunlockput dp;
            if r <? 0 then link_bad ip
            else _ ← iput ip; ends 0
        end
  end.

Fixpoint isdirempty_loop (n : nat) (dp : nat) (off : Z) : ST FsS bool :=
  match n with
  | O => mret true
  | S n' =>
      i ← the_inode dp;
      if off <? i_size i then
        r ← readi dp false de off DIRENT_SIZE;
        if negb (r =? DIRENT_SIZE) then panic "isdirempty: readi"
        else
          m ← gets km;
          if negb (de_inum de m =? 0) then mret false else isdirempty_loop n' dp (off + DIRENT_SIZE)
      else mret true
  end.

Definition isdirempty (dp : nat) : ST FsS bool :=
  i ← the_inode dp; isdirempty_loop (S (Z.to_nat (i_size i / DIRENT_SIZE))) dp (2 * DIRENT_SIZE).

(** [memset(&de, 0, sizeof(de)); writei(dp, 0, &de, off, sizeof(de))]. *)
Definition erase_dirent (dp : nat) (off : Z) : ST FsS Z :=
  _ ← modify (λ s, s <| km ::= memset_loop de 0 (Z.to_nat DIRENT_SIZE) |>);
  writei dp false de off DIRENT_SIZE.

(** The label [bad] of [sys_unlink]. *)
Definition unlink_bad (dp : nat) : ST FsS Z := _ ← iunlockput dp; ends (-1).

Definition sys_unlink (path upath : Z) : ST FsS Z :=
  ok ← argstr upath path;
  if negb ok then mret (-1)
  else
  _ ← op_begin;
  r ← nameiparent de path name;
  match r with
  | None => ends (-1)
  | Some dp =>
      _ ← ilock dp;
      m ← gets km;
      if (namecmp name dot m =? 0) || (namecmp name dotdot m =? 0) then unlink_bad dp
      else
        r ← dirlookup de dp name;
        match r with
        | None => unlink_bad dp
        | Some (ip, off) =>
            _ ← ilock ip;
            i ← the_inode ip;
            if i_nlink i <? 1 then panic "unlink: nlink < 1"
            else
            full ← (if i_type i =? T_DIR then e ← isdirempty ip; mret (negb e) else mret false);
            if (full : bool) then _ ← iunlockput ip; unlink_bad dp
            else
              r ← erase_dirent dp off;
              if negb (r =? DIRENT_SIZE) then panic "unlink: writei"
              else
                i ← the_inode ip;
                _ ← (if i_type i =? T_DIR then add_nlink dp (-1) else mret ());
                _ ← iunlockput dp;
                _ ← add_nlink ip (-1);
                _ ← iunlockput ip;
                ends 0
        end
  end.

(** Returns a locked inode. *)
Definition create (path type major minor : Z) : ST FsS (option nat) :=
  r ← nameiparent de path name;
  match r with
  | None => mret None
  | Some dp =>
      _ ← ilock dp;
      r ← dirlookup de dp name;
      match r with
      | Some (ip, _) =>
          _ ← iunlockput dp;
          _ ← ilock ip;
          i ← the_inode ip;
          if (type =? T_FILE) && ((i_type i =? T_FILE) || (i_type i =? T_DEVICE)) then mret (Some ip)
          else _ ← iunlockput ip; mret None
      | None =>
          d ← the_inode dp;
          ip ← ialloc (i_dev d) type;
          _ ← ilock ip;
          _ ← upd_inode ip (λ i, i <| i_major := i16 major |> <| i_minor := i16 minor |> <| i_nlink := 1 |> <| i_type := type |>);
          _ ← iupdate ip;
          i ← the_inode ip;
          _ ← (if type =? T_DIR then
                 _ ← add_nlink dp 1;
                 r ← dirlink de ip dot (i_inum i);
                 if r <? 0 then panic "create dots"
                 else
                   r ← dirlink de ip dotdot (i_inum d);
                   if r <? 0 then panic "create dots" else mret ()
               else mret ());
          r ← dirlink de dp name (i_inum i);
          if r <? 0 then panic "create: dirlink"
          else _ ← iunlockput dp; mret (Some ip)
      end
  end.

(** [iunlockput(ip); end_op(); return r;] *)
Definition drops {A} (ip : nat) (r : A) : ST FsS A := _ ← iunlockput ip; ends r.

Definition sys_mkdir (path upath : Z) : ST FsS Z :=
  _ ← op_begin;
  ok ← argstr upath path;
  if negb ok then ends (-1)
  else
    r ← create path T_DIR 0 0;
    match r with None => ends (-1) | Some ip => drops ip 0 end.

Definition sys_mknod (path upath major minor : Z) : ST FsS Z :=
  _ ← op_begin;
  ok ← argstr upath path;
  if negb ok then ends (-1)
  else
    r ← create path T_DEVICE major minor;
    match r with None => ends (-1) | Some ip => drops ip 0 end.

Definition sys_chdir (path upath : Z) : ST FsS Z :=
  _ ← op_begin;
  ok ← argstr upath path;
  if negb ok then ends (-1)
  else
    r ← namei de nm path;
    match r with
    | None => ends (-1)
    | Some ip =>
        _ ← ilock ip;
        i ← the_inode ip;
        if negb (i_type i =? T_DIR) then drops ip (-1)
        else
          _ ← iunlock ip;
          s ← get;
          _ ← iput (cwd s);
          _ ← op_end;
          _ ← modify (λ s, s <| cwd := ip |>);
          mret 0
    end.

(** ** The inode of [sys_open]: locked, inside the transaction; or none, with
    the transaction ended *)

Fixpoint follow (n : nat) (path : Z) (ip : nat) : ST FsS (option nat) :=
  match n with
  | O => mret (Some ip)
  | S n' =>
      r ← readi ip false path 0 (Z.of_nat MAXPATH);
      if negb (r =? Z.of_nat MAXPATH) then drops ip None
      else
        _ ← iunlockput ip;
        r ← namei de nm path;
        match r with
        | None => ends None
        | Some ip =>
            _ ← ilock ip;
            i ← the_inode ip;
            if negb (i_type i =? T_SYMLINK) then mret (Some ip) else follow n' path ip
        end
  end.

Definition open_path (path omode : Z) : ST FsS (option nat) :=
  if negb (Z.land omode O_CREATE =? 0) then
    r ← create path T_FILE 0 0;
    match r with None => ends None | Some ip => mret (Some ip) end
  else
    r ← namei de nm path;
    match r with
    | None => ends None
    | Some ip =>
        _ ← ilock ip;
        i ← the_inode ip;
        if (i_type i =? T_DIR) && negb (omode =? 0) then drops ip None else mret (Some ip)
    end.

Definition open_inode (path omode : Z) : ST FsS (option nat) :=
  r ← open_path path omode;
  match r with
  | None => mret None
  | Some ip =>
      i ← the_inode ip;
      if (i_type i =? T_DEVICE) && ((i_major i <? 0) || (NDEV <=? i_major i)) then drops ip None
      else if (i_type i =? T_SYMLINK) && (Z.land omode O_NOFOLLOW =? 0) then
        r ← follow MAX_SYMLINK_DEPTH path ip;
        match r with
        | None => mret None
        | Some ip => i ← the_inode ip; if i_type i =? T_SYMLINK then drops ip None else mret (Some ip)
        end
      else mret (Some ip)
  end.

Definition sys_symlink (path target utarget upath : Z) : ST FsS Z :=
  ok ← argstr utarget target;
  if negb ok then mret (-1)
  else
  ok ← argstr upath path;
  if negb ok then mret (-1)
  else
  _ ← op_begin;
  r ← create path T_SYMLINK 0 0;
  match r with
  | None => ends (-1)
  | Some ip =>
      r ← writei ip false target 0 (Z.of_nat MAXPATH);
      if r <? Z.of_nat MAXPATH then drops ip (-1) else drops ip 0
  end.

Definition sys_mkf (path upath : Z) : ST FsS Z :=
  ok ← argstr upath path;
  if negb ok then mret (-1)
  else
  _ ← op_begin;
  r ← create path T_FILE 0 0;
  match r with
  | None => ends (-1)
  | Some ip => _ ← op_end; i ← the_inode ip; mret (i_inum i)
  end.

(** [argstr(path); begin_op(); ip = namei(path); ilock(ip); k(ip)]. *)
Definition with_path (path upath : Z) (k : nat → ST FsS Z) : ST FsS Z :=
  ok ← argstr upath path;
  if negb ok then mret (-1)
  else
  _ ← op_begin;
  r ← namei de nm path;
  match r with
  | None => ends (-1)
  | Some ip => _ ← ilock ip; k ip
  end.

Definition sys_chmod (path upath mode : Z) : ST FsS Z :=
  with_path path upath (λ ip,
    _ ← upd_inode ip (λ i, i <| i_mode := u8 mode |>);
    _ ← iupdate ip;
    _ ← iunlock ip;
    ends 0).

Definition copy_result (ok : bool) : Z := if ok then 0 else -1.

Definition sys_geti (path upath addrsout : Z) : ST FsS Z :=
  with_path path upath (λ ip,
    i ← the_inode ip;
    _ ← iunlock ip;
    _ ← op_end;
    ok ← either_copyout true addrsout (concat (le_bytes 4 <$> i_addrs i) ++ le_bytes 4 (i_size i));
    mret (copy_result ok)).

(** Reads a block outside a transaction. *)
Definition sys_recoveri (blockno bufout : Z) : ST FsS Z :=
  b ← bread 1 blockno;
  d ← data b;
  ok ← either_copyout true bufout d;
  _ ← brelse b;
  mret (copy_result ok).

Definition sys_getcwd (addr : Z) : ST FsS Z :=
  ok ← either_copyout true addr [SLASH; 0];
  mret (if (ok : bool) then addr else -1).

Definition access_mode (mode file_mode : Z) : Z :=
  if (negb (Z.land mode R_OK =? 0) && (Z.land file_mode 4 =? 0)) ||
     (negb (Z.land mode W_OK =? 0) && (Z.land file_mode 2 =? 0)) ||
     (negb (Z.land mode X_OK =? 0) && (Z.land file_mode 1 =? 0))
  then -1 else 0.

Definition sys_access (path upath mode : Z) : ST FsS Z :=
  with_path path upath (λ ip,
    i ← the_inode ip;
    if mode =? 0 then drops ip 0 else drops ip (access_mode mode (i_mode i))).

Definition sys_chown (uid path upath : Z) : ST FsS Z :=
  ok ← argstr upath path;
  if negb ok then mret (-1)
  else if negb (uid =? 0) then mret (-1)
  else
    _ ← op_begin;
    r ← namei de nm path;
    match r with
    | None => ends (-1)
    | Some ip => _ ← ilock ip; _ ← iupdate ip; drops ip 0
    end.

Definition sys_kstat (path upath st_addr : Z) : ST FsS Z :=
  with_path path upath (λ ip,
    st ← stati ip;
    _ ← drops ip ();
    ok ← either_copyout true st_addr (stat_bytes st);
    mret (copy_result ok)).

Definition sys_truncate (path upath length : Z) : ST FsS Z :=
  ok ← argstr upath path;
  if negb ok || (length <? 0) then mret (-1)
  else
  _ ← op_begin;
  r ← namei de nm path;
  match r with
  | None => ends (-1)
  | Some ip =>
      _ ← ilock ip;
      i ← the_inode ip;
      if negb (i_type i =? T_FILE) then drops ip (-1)
      else
        _ ← (if length =? 0 then itrunc ip
             else if length <? i_size i then _ ← upd_inode ip (λ i, i <| i_size := length |>); iupdate ip
             else mret ());
        drops ip 0
  end.

(** [sys_rename]: is the source a directory named [.] or [..]?  [None] when it
    has no parent. *)
Definition rename_dots (old : Z) : ST FsS (option bool) :=
  r ← nameiparent de old name;
  match r with
  | None => mret None
  | Some olddp =>
      m ← gets km;
      let b := (namecmp name dot m =? 0) || (namecmp name dotdot m =? 0) in
      _ ← iput olddp;
      mret (Some b)
  end.

Definition rename_fail (ip : nat) : ST FsS Z := _ ← iput ip; ends (-1).

(** The new entry; [false] when the call failed and is over. *)
Definition rename_link (new : Z) (ip : nat) : ST FsS bool :=
  r ← nameiparent de new name;
  match r with
  | None => _ ← rename_fail ip; mret false
  | Some dp =>
      _ ← ilock dp;
      existing ← dirlookup de dp name;
      match existing with
      | Some (x, _) => _ ← iput x; _ ← iunlockput dp; _ ← rename_fail ip; mret false
      | None =>
          i ← the_inode ip;
          r ← dirlink de dp name (i_inum i);
          _ ← iunlockput dp;
          if r <? 0 then _ ← rename_fail ip; mret false else mret true
      end
  end.

Definition rename_unlink (old : Z) (ip : nat) : ST FsS Z :=
  r ← nameiparent de old name;
  match r with
  | None => rename_fail ip
  | Some dp =>
      _ ← ilock dp;
      r ← dirlookup de dp name;
      match r with
      | None => _ ← iunlockput dp; rename_fail ip
      | Some (_, off) =>
          r ← erase_dirent dp off;
          _ ← iunlockput dp;
          if negb (r =? DIRENT_SIZE) then rename_fail ip
          else _ ← iput ip; ends 0
      end
  end.

Definition sys_rename (old new uold unew : Z) : ST FsS Z :=
  ok ← argstr uold old;
  if negb ok then mret (-1)
  else
  ok ← argstr unew new;
  if negb ok then mret (-1)
  else
  _ ← op_begin;
  r ← namei de nm old;
  match r with
  | None => ends (-1)
  | Some ip =>
      _ ← ilock ip;
      i ← the_inode ip;
      b ← (if i_type i =? T_DIR then rename_dots old else mret (Some false));
      match b with
      | None | Some true => drops ip (-1)
      | Some false =>
          _ ← iunlock ip;
          ok ← rename_link new ip;
          if (ok : bool) then rename_unlink old ip else mret (-1)
      end
  end.
End code.
