(* ===== verification/SysDir.v ===== *)
(** * Removing a name

    The parts of [sys_unlink] and [sys_rename] that work on the entries of a
    directory: the test that a directory is empty, and the erased entry. *)

From stdpp Require Import gmap.
From S2P Require Import Prelude Bytes BufCache Bio Log LogDisk CString Pipe Fs FsAlloc FsMap FsData FsPath FsExample FsDir File SysPath.

Section proofs.
Context {C : Type} `{!BufCache C} (dev lo hi : Z) `{!LogDiskSpec (lstate C) dev lo hi} (ds : Z).
Implicit Types (s : fstate (lstate C)) (v : dview) (i : inode).

Lemma isdirempty_loop_run n : ∀ k s v dp i de (j : nat), file_inv dev lo hi ds k s v dp i → dir_ok v i → bytes_ok (km s) →
  (dir_len i < j + n)%nat →
  ∃ s', scratch de s s' ∧ drep (disk s') v ∧
    run (isdirempty_loop de n dp (Z.of_nat j * DIRENT_SIZE)) s (forallb unused (drop j (entries v i))) s'.
Proof.
  induction n as [|n IH]; intros k s v dp i de j Hi Hd Hb Hj.
  { exists s. split; [by apply scratch_refl|]. split; [apply Hi|]. by rewrite drop_ge by (rewrite entries_length; lia). }
  pose proof (dir_len_size v i Hd) as Hsz. cbn [isdirempty_loop]. step_with (run_the_inode s dp i (fi_ip _ _ _ _ _ _ _ _ _ Hi)).
  destruct (Z.ltb_spec (Z.of_nat j * DIRENT_SIZE) (i_size i)) as [Hlt|Hge]; [|exists s].
  2:{ split; [by apply scratch_refl|]. split; [apply Hi|]. unfold DIRENT_SIZE in *. by rewrite drop_ge by (rewrite entries_length; lia). }
  assert (j < dir_len i)%nat as Hj' by (unfold DIRENT_SIZE in *; lia).
  destruct (read_entry dev lo hi ds k s v dp i de j Hi Hd Hj' Hb) as (s1 & E1 & S1 & R1 & Ee). step_with E1. rewrite Z.eqb_refl. cbn [negb].
  step_with (run_gets km s1). rewrite (drop_S _ (entry_at v (i_addrs i) j)) by (by apply entries_lookup). cbn [forallb].
  replace (de_inum de (km s1) =? 0) with (unused (entry_at v (i_addrs i) j)) by (by rewrite <- Ee). destruct (unused _) eqn:Em; cbn [negb andb].
  - destruct (IH k s1 v dp i de (S j)) as (s2 & S2 & R2 & E2); [by eapply scratch_inv|done|apply S1|lia|].
    exists s2. split; [by eapply scratch_trans|]. split; [done|].
    by replace (Z.of_nat j * DIRENT_SIZE + DIRENT_SIZE) with (Z.of_nat (S j) * DIRENT_SIZE) by lia.
  - by exists s1.
Qed.

Lemma isdirempty_run k s v dp i de : file_inv dev lo hi ds k s v dp i → dir_ok v i → bytes_ok (km s) →
  ∃ s', run (isdirempty de dp) s (forallb unused (drop 2 (entries v i))) s' ∧ scratch de s s' ∧ drep (disk s') v.
Proof.
  intros Hi Hd Hb. unfold isdirempty. step_with (run_the_inode s dp i (fi_ip _ _ _ _ _ _ _ _ _ Hi)).
  destruct (isdirempty_loop_run (S (dir_len i)) k s v dp i de 2 Hi Hd Hb) as (s' & ? & ? & E); [lia|]. by exists s'.
Qed.
End proofs.

(** C18. Erasing an entry as [sys_unlink] and [sys_rename] do takes exactly its
    name out of the directory: the name is not found any more, every other name
    is found where it was, and no name becomes ambiguous; and [isdirempty] tells
    exactly whether the directory has an entry beyond the first two. *)
Theorem unlink_entry_correct {C : Type} `{!BufCache C} (dev lo hi : Z) `{!LogDiskSpec (lstate C) dev lo hi} ds k n
    (s : fstate (lstate C)) v dp i de name j e :
  dir_pre dev lo hi ds (9 * wfuel DIRENT_SIZE + (1 + k)) s v dp i de name → has_free (3 * wfuel DIRENT_SIZE + n) (sb s) v →
  inum_ok s i → dir_unique (entries v i) → entries v i !! j = Some e → unused e = false →
  (∃ s' v' i', run (erase_dirent de dp (Z.of_nat j * DIRENT_SIZE)) s DIRENT_SIZE s' ∧ dir_pre dev lo hi ds k s' v' dp i' de name ∧
     has_free n (sb s') v' ∧ dir_unique (entries v' i') ∧
     ∀ nm, dir_find nm (entries v' i') = if decide (nm = e.2) then None else dir_find nm (entries v i)) ∧
  (∃ s', run (isdirempty de dp) s (forallb unused (drop 2 (entries v i))) s' ∧ scratch de s s' ∧ drep (disk s') v).
Proof.
  intros Hp Hn Hino Hu He Hin. pose proof (lookup_lt_Some _ _ _ He) as Hj. rewrite entries_length in Hj. split.
  - destruct (erase_run dev lo hi ds k n s v dp i de name j Hp Hn Hino Hj) as (s' & v' & i' & E & Hp' & Hn' & Ee).
    exists s', v', i'. split; [unfold erase_dirent; by rewrite (bind_Ret _ _ _ _ _ (run_modify _ _))|].
    split; [done|]. split; [done|]. rewrite Ee. split; [by apply dir_unique_erase|]. intros nm. by eapply dir_find_erase.
  - destruct Hp as [Hi Hd _ Hb _]. by eapply isdirempty_run.
Qed.

(** ** A directory with three entries *)

Definition dirent_bytes (inum : Z) (nm : list Z) : list Z := [inum; 0] ++ nm ++ replicate (14 - length nm) 0.
Definition dir_block : block :=
  dirent_bytes 5 [46] ++ dirent_bytes 1 [46; 46] ++ dirent_bytes 9 [97; 98] ++ replicate 976 0.
Definition disk_dir : gmap Z block := {[45 := replicate 5 255 ++ [127] ++ replicate 1018 0; 46 := dir_block]}.
Definition inode_dir : inode := dir_fs <| i_size := 48 |> <| i_addrs := 46 :: replicate 12 0 |>.
Definition fs_three : fstate (lstate bcache) :=
  FState sb_fs (inode_dir :: replicate 49 inode0) 0 7 um_fs km_dir (LState log_fs (binit 7 7 disk_dir)).
Definition view_dir : dview := DView (dread disk_dir) [] [] [].

Lemma rep_dir : drep (disk fs_three) view_dir.
Proof.
  apply (boot_rep 1 7 7 disk_dir log_fs); [done| |apply log_fs_ok|done|done].
  intros b x. unfold disk_dir. rewrite lookup_insert_Some, lookup_singleton_Some. intros [[_ <-]|[_ [_ <-]]]; reflexivity.
Qed.

Lemma used_dir : forallb (λ n, used sb_fs view_dir (Z.of_nat n)) (seq 0 47) = true.
Proof. vm_compute. reflexivity. Qed.

Lemma used_dir_at b : 0 ≤ b < 47 → used sb_fs view_dir b = true.
Proof. intros Hb. pose proof used_dir as H. rewrite forallb_forall in H. rewrite <- (Z2Nat.id b) by lia. apply H, in_seq. lia. Qed.

Lemma slot_dir p : slot (dv_mem view_dir) (i_addrs inode_dir) p = if decide (p = PAddr 0) then 46 else 0.
Proof.
  assert (∀ k, default 0 (i_addrs inode_dir !! k) = if decide (k = 0%nat) then 46 else 0) as H.
  { intros [|k]; [done|]. cbn [i_addrs inode_dir update field_set]. change ((46 :: replicate 12 0) !! S k) with (replicate 12 0 !! k).
    destruct (replicate 12 0 !! k) eqn:E; [|done]. by apply lookup_replicate in E as [-> _]. }
  destruct p as [k| | |]; unfold slot; rewrite !H; [|by rewrite ?decide_False by done..]. repeat case_decide; simplify_eq; done.
Qed.

Lemma file_inv_dir k : (k ≤ 29)%nat → file_inv 1 2 32 46 k fs_three view_dir 0 inode_dir.
Proof.
  intros Hk. split; [split|done|done| |done].
  - apply layout_fs.
  - apply rep_dir.
  - intros b Hb. apply used_dir_at. lia.
  - constructor.
  - split; [unfold spare|unfold log_space]; cbn; unfold NBUF, LOGSIZE, MAXOPBLOCKS; lia.
  - split; [done| |].
    + intros p _. rewrite slot_dir. case_decide; [|done]. intros _. split; [cbn; lia|]. apply used_dir_at. lia.
    + intros p q _ _. rewrite !slot_dir. repeat case_decide; congruence.
Qed.

Lemma dir_ok_three : dir_ok view_dir inode_dir.
Proof.
  assert (∀ o, 0 ≤ o < 48 → fpos o = PAddr 0) as Hp.
  { intros o Ho. unfold fpos, tpos. rewrite (Z.div_small o BSZ) by (unfold BSZ; lia). done. }
  split; [reflexivity|reflexivity|vm_compute; split; discriminate| |].
  - intros o Ho. cbn in Ho. rewrite slot_dir, Hp by lia. by rewrite decide_True.
  - intros o Ho. cbn in Ho. unfold fbyte. rewrite slot_dir, Hp by lia. rewrite decide_True by done. rewrite Z.mod_small by (unfold BSZ; lia).
    assert (Forall is_byte dir_block) as Hb.
    { unfold dir_block, dirent_bytes. repeat (apply Forall_app; split); try (repeat constructor; unfold is_byte; lia); apply Forall_replicate; unfold is_byte; lia. }
    change (dv_mem view_dir 46) with dir_block. unfold byte_at. destruct (dir_block !! Z.to_nat o) as [x|] eqn:E; [exact (Forall_lookup_1 _ _ _ _ Hb E)|].
    unfold is_byte. cbn. lia.
Qed.

Lemma entries_three : entries view_dir inode_dir = [(5, [46]); (1, [46; 46]); (9, [97; 98])].
Proof. vm_compute. reflexivity. Qed.

Lemma dir_pre_three k : (k ≤ 29)%nat → dir_pre 1 2 32 46 k fs_three view_dir 0 inode_dir 200 100.
Proof.
  intros Hk. destruct (dir_pre_fs 0 ltac:(lia)) as [_ _ [Hr Hu] Hb Ha]. split; [by apply file_inv_dir|apply dir_ok_three| |exact Hb|exact Ha].
  assert (∀ p i, icache fs_three !! p = Some i → live i → p = 0%nat) as H.
  { intros [|p] i Hi; [done|]. change (replicate 49 inode0 !! p = Some i) in Hi. apply lookup_replicate in Hi as [-> _]. unfold live. cbn. lia. }
  split.
  - constructor; [done|]. by apply Forall_replicate.
  - intros p q i j Hp Hq Li Lj _ _. by rewrite (H p i Hp Li), (H q j Hq Lj).
Qed.

Lemma unlink_entry_correct_witness : ∃ s' v' i', run (erase_dirent 200 0 32) fs_three DIRENT_SIZE s' ∧ dir_find [97; 98] (entries v' i') = None ∧
  dir_find [46] (entries v' i') = Some 0%nat.
Proof.
  destruct (unlink_entry_correct 1 2 32 46 0 0 fs_three view_dir 0 inode_dir 200 100 2 (9, [97; 98])) as [(s' & v' & i' & E & _ & _ & _ & H) _].
  - apply dir_pre_three. vm_compute. lia.
  - exists [47; 48; 49; 50; 51; 52]. split; [repeat constructor; set_solver|split; [done|]]. repeat constructor; vm_compute; congruence.
  - unfold inum_ok. cbn. lia.
  - rewrite entries_three. intros [|[|[|x]]] [|[|[|y]]] e e'; cbn; intros; simplify_eq; done.
  - rewrite entries_three. reflexivity.
  - reflexivity.
  - exists s', v', i'. split; [exact E|]. rewrite !H, entries_three. split; reflexivity.
Defined.
