(* ===== verification/SysFile.v ===== *)
(** * System calls on file descriptors (sysfile.c)

    The descriptor table of the process over the file table, the file system
    and the sockets; the arguments are given as fetched. *)

From stdpp Require Import gmap.
From S2P Require Import Prelude Bytes BufCache Log LogDisk CString PageAlloc Pipe Fs FsPath File Mbuf Packet Net NetInv Socket SysPath.

Definition LOCK_SH : Z := 1.
Definition LOCK_EX : Z := 2.
Definition LOCK_UN : Z := 4.

(** The size of a [struct linux_dirent], with its padding. *)
Definition LD_SIZE : Z := 28.

Section code.
Context {C : Type} `{!BufCache C} {K : Type} `{!PageAlloc K}.
Abbreviation SysS := (sysst C K).
Context (ram : Z → list Z) (dev_read dev_write : Z → option (Z → Z → ST (fdstate C) Z)).
Context (de nm name dot dotdot : Z).

Definition sys_fs {A} (m : ST (fstate (lstate C)) A) : ST SysS A := on_fds (on_fs m).
Definition set_fd (fd : nat) (f : option nat) : ST SysS () := modify (λ s, s <| sy_ofile ::= <[fd := f]> |>).
Definition filedup_sys (f : nat) : ST SysS nat := on_fds (on_ftable (filedup f)).

(** [if (argfd(0, 0, &f) < 0) return -1; k(f)] *)
Definition with_fd (fd : Z) (k : nat → ST SysS Z) : ST SysS Z :=
  f ← argfd fd;
  match f with None => mret (-1) | Some f => k f end.

Definition sys_dup (fd : Z) : ST SysS Z :=
  with_fd fd (λ f,
    fd ← fdalloc f;
    if fd <? 0 then mret (-1) else _ ← filedup_sys f; mret fd).

(** [fileread] and [filewrite]; the sockets are those of sysnet.c. *)
Definition sys_read (fd p n : Z) : ST SysS Z :=
  with_fd fd (λ f,
    x ← on_fds (the_file f);
    if f_readable x && bool_decide (f_type x = FD_SOCK) then
      s ← get;
      r ← on_net (sockread ram (the_um s) (fd_killed (sy_fd s)) (f_sock x) p n);
      _ ← set_um r.2;
      mret r.1
    else on_fds (fileread dev_read (λ _ _ _, mret (-1)) f p n)).

Definition sys_write (fd p n : Z) : ST SysS Z :=
  with_fd fd (λ f,
    x ← on_fds (the_file f);
    if f_writable x && bool_decide (f_type x = FD_SOCK) then
      s ← get; on_net (sockwrite (the_um s) (f_sock x) p n)
    else on_fds (filewrite dev_write (λ _ _ _, mret (-1)) f p n)).

Definition sys_close (fd : Z) : ST SysS Z :=
  with_fd fd (λ f,
    _ ← set_fd (Z.to_nat fd) None;
    _ ← sys_fileclose f;
    mret 0).

Definition sys_fstat (fd st : Z) : ST SysS Z := with_fd fd (λ f, on_fds (filestat f st)).

(** The file of [sys_open]. *)
Definition open_file (ip : nat) (i : inode) (omode : Z) (x : file) : file :=
  let x := if i_type i =? T_DEVICE then x <| f_type := FD_DEVICE |> <| f_major := i_major i |>
           else x <| f_type := FD_INODE |> <| f_off := 0 |> in
  x <| f_ip := ip |> <| f_readable := Z.land omode O_WRONLY =? 0 |>
    <| f_writable := negb (Z.land omode O_WRONLY =? 0) || negb (Z.land omode O_RDWR =? 0) |>.

Definition sys_open (path upath omode : Z) : ST SysS Z :=
  ok ← sys_fs (argstr upath path);
  if negb ok then mret (-1)
  else
  _ ← sys_fs op_begin;
  r ← sys_fs (open_inode de nm name dot dotdot path omode);
  match r with
  | None => mret (-1)
  | Some ip =>
      f ← on_fds (on_ftable filealloc);
      match f with
      | None => sys_fs (drops ip (-1))
      | Some f =>
          fd ← fdalloc f;
          if fd <? 0 then
            _ ← sys_fileclose f;
            sys_fs (drops ip (-1))
          else
            i ← sys_fs (the_inode ip);
            _ ← set_file f (open_file ip i omode);
            _ ← (if negb (Z.land omode O_TRUNC =? 0) && (i_type i =? T_FILE) then sys_fs (itrunc ip) else mret ());
            _ ← sys_fs (iunlock ip);
            _ ← sys_fs op_end;
            mret fd
      end
  end.

(** [pipealloc] (pipe.c): [page] is what the page of the pipe holds, or none
    when [kalloc] fails. *)
Definition pipe_file (pi : nat) (w : bool) (x : file) : file :=
  x <| f_type := FD_PIPE |> <| f_readable := negb w |> <| f_writable := w |> <| f_pipe := pi |>.

Definition pipealloc (page : option (list Z)) : ST SysS (option (nat * nat)) :=
  f0 ← on_fds (on_ftable filealloc);
  match f0 with
  | None => mret None
  | Some f0 =>
      f1 ← on_fds (on_ftable filealloc);
      match f1, page with
      | None, _ => _ ← sys_fileclose f0; mret None
      | Some f1, None => _ ← sys_fileclose f0; _ ← sys_fileclose f1; mret None
      | Some f1, Some junk =>
          s ← get;
          let pi := length (pipes (sy_fd s)) in
          _ ← on_fds (modify (λ s, s <| pipes ::= λ l, l ++ [pipe_init junk] |>));
          _ ← set_file f0 (pipe_file pi false);
          _ ← set_file f1 (pipe_file pi true);
          mret (Some (f0, f1))
      end
  end.

Definition close_both (rf wf : nat) : ST SysS Z := _ ← sys_fileclose rf; _ ← sys_fileclose wf; mret (-1).

Definition sys_pipe (page : option (list Z)) (fdarray : Z) : ST SysS Z :=
  r ← pipealloc page;
  match r with
  | None => mret (-1)
  | Some (rf, wf) =>
      fd0 ← fdalloc rf;
      if fd0 <? 0 then close_both rf wf
      else
      fd1 ← fdalloc wf;
      if fd1 <? 0 then
        _ ← set_fd (Z.to_nat fd0) None;
        close_both rf wf
      else
        ok ← sys_fs (either_copyout true fdarray (le_bytes 4 fd0));
        ok ← (if (ok : bool) then sys_fs (either_copyout true (u64 (fdarray + 4)) (le_bytes 4 fd1)) else mret false);
        if (ok : bool) then mret 0
        else
          _ ← set_fd (Z.to_nat fd0) None;
          _ ← set_fd (Z.to_nat fd1) None;
          close_both rf wf
  end.

Definition sys_dup_new (fd newfd : Z) : ST SysS Z :=
  with_fd fd (λ f,
    if (newfd <? 0) || (Z.of_nat NOFILE <=? newfd) then mret (-1)
    else
      old ← argfd newfd;
      _ ← (match old with None => mret () | Some g => sys_fileclose g end);
      newfd ← fdalloc f;
      if newfd <? 0 then mret (-1) else _ ← filedup_sys f; mret newfd).

Definition sys_dup2 (oldfd newfd : Z) : ST SysS Z :=
  if (oldfd <? 0) || (Z.of_nat NOFILE <=? oldfd) || (newfd <? 0) || (Z.of_nat NOFILE <=? newfd) then mret (-1)
  else
    with_fd oldfd (λ f,
      if oldfd =? newfd then mret newfd
      else
        old ← argfd newfd;
        _ ← (match old with None => mret () | Some g => sys_fileclose g end);
        _ ← set_fd (Z.to_nat newfd) (Some f);
        _ ← filedup_sys f;
        mret newfd).

(** [newoff] is an [int], the fields are unsigned. *)
Definition sys_lseek (fd offset whence : Z) : ST SysS Z :=
  with_fd fd (λ f,
    x ← on_fds (the_file f);
    if negb (bool_decide (f_type x = FD_INODE)) then mret (-1)
    else
      newoff ← (if whence =? 0 then mret (Some offset)
                else if whence =? 1 then mret (Some (i32 (f_off x + offset)))
                else if whence =? 2 then
                  _ ← sys_fs (ilock (f_ip x));
                  i ← sys_fs (the_inode (f_ip x));
                  _ ← sys_fs (iunlock (f_ip x));
                  mret (Some (i32 (i_size i + offset)))
                else mret None);
      match newoff with
      | None => mret (-1)
      | Some newoff =>
          if newoff <? 0 then mret (-1)
          else _ ← set_file f (λ x, x <| f_off := newoff |>); mret newoff
      end).

(** [readi] of the next entry of a directory into [de]: no entry left, or its
    inode number. *)
Definition next_dirent (ip : nat) (off : Z) : ST SysS (option Z) :=
  r ← sys_fs (readi ip false de off DIRENT_SIZE);
  if negb (r =? DIRENT_SIZE) then mret None
  else s ← get; mret (Some (de_inum de (km (fd_fs (sy_fd s))))).

(** The bytes of kernel memory from [a] on, copied to the process. *)
Definition copyout_km (dst a : Z) (n : nat) : ST SysS bool :=
  s ← get; sys_fs (either_copyout true dst (km_get a n (km (fd_fs (sy_fd s))))).

Fixpoint readdir_loop (fuel : nat) (f ip : nat) (buf nread count : Z) : ST SysS (option Z) :=
  match fuel with
  | O => mret (Some nread)
  | S fuel' =>
      x ← on_fds (the_file f);
      i ← sys_fs (the_inode ip);
      if (nread <? count) && (f_off x <? i_size i) then
        e ← next_dirent ip (f_off x);
        match e with
        | None => mret (Some nread)
        | Some inum =>
            _ ← on_fds (add_off f DIRENT_SIZE);
            if inum =? 0 then readdir_loop fuel' f ip buf nread count
            else
              ok ← copyout_km (u64 (buf + nread * DIRENT_SIZE)) de (Z.to_nat DIRENT_SIZE);
              if (ok : bool) then readdir_loop fuel' f ip buf (nread + 1) count else mret None
        end
      else mret (Some nread)
  end.

Definition sys_readdir (fd buf count : Z) : ST SysS Z :=
  with_fd fd (λ f,
    x ← on_fds (the_file f);
    if negb (bool_decide (f_type x = FD_INODE)) then mret (-1)
    else
      _ ← sys_fs (ilock (f_ip x));
      i ← sys_fs (the_inode (f_ip x));
      if negb (i_type i =? T_DIR) then _ ← sys_fs (iunlock (f_ip x)); mret (-1)
      else
        r ← readdir_loop (Z.to_nat (i_size i / DIRENT_SIZE + 1)) f (f_ip x) buf 0 count;
        _ ← sys_fs (iunlock (f_ip x));
        mret (default (-1) r)).

(** The stores into the [struct linux_dirent] at [ld]. *)
Definition fill_ld (ld inum off : Z) : ST SysS () :=
  sys_fs (modify (λ s, s <| km ::= λ m,
    mset (ld + 10 + Z.of_nat DIRSIZ) 0
      (memmove (ld + 10) (de + 2) DIRSIZ (km_put ld (le_bytes 4 inum ++ le_bytes 4 (u32 off) ++ le_bytes 2 LD_SIZE) m)) |>)).

Fixpoint getdents_loop (fuel : nat) (ld : Z) (ip : nat) (buf nread offset count : Z) : ST SysS (Z * Z) :=
  match fuel with
  | O => mret (nread, offset)
  | S fuel' =>
      i ← sys_fs (the_inode ip);
      if (u32 offset <? i_size i) && (nread + LD_SIZE <=? u64 count) then
        e ← next_dirent ip (u32 offset);
        match e with
        | None => mret (nread, offset)
        | Some inum =>
            let offset := i32 (offset + DIRENT_SIZE) in
            if inum =? 0 then getdents_loop fuel' ld ip buf nread offset count
            else
              _ ← fill_ld ld inum offset;
              ok ← copyout_km (u64 (buf + nread)) ld (Z.to_nat LD_SIZE);
              if (ok : bool) then getdents_loop fuel' ld ip buf (nread + LD_SIZE) offset count else mret (nread, offset)
        end
      else mret (nread, offset)
  end.

Definition sys_getdents (ld fd buf count : Z) : ST SysS Z :=
  with_fd fd (λ f,
    x ← on_fds (the_file f);
    if negb (bool_decide (f_type x = FD_INODE)) then mret (-1)
    else
      _ ← sys_fs (ilock (f_ip x));
      i ← sys_fs (the_inode (f_ip x));
      if negb (i_type i =? T_DIR) then _ ← sys_fs (iunlock (f_ip x)); mret (-1)
      else
        r ← getdents_loop (Z.to_nat (i_size i / DIRENT_SIZE + 1)) ld (f_ip x) buf 0 (i32 (f_off x)) count;
        _ ← set_file f (λ x, x <| f_off := u32 r.2 |>);
        _ ← sys_fs (iunlock (f_ip x));
        mret r.1).

(** The lock types of a file; [None] is a refusal. *)
Definition flock_type (op t : Z) : option Z :=
  let lock_type := Z.land op (Z.lor LOCK_SH (Z.lor LOCK_EX LOCK_UN)) in
  if lock_type =? LOCK_UN then Some 0
  else if lock_type =? LOCK_SH then if t =? LOCK_EX then None else Some LOCK_SH
  else if lock_type =? LOCK_EX then if negb (t =? 0) then None else Some LOCK_EX
  else Some t.

Definition sys_flock (fd operation : Z) : ST SysS Z :=
  with_fd fd (λ f,
    x ← on_fds (the_file f);
    if negb (bool_decide (f_type x = FD_INODE)) then mret (-1)
    else
      _ ← sys_fs (ilock (f_ip x));
      x ← on_fds (the_file f);
      r ← (match flock_type operation (f_lock_type x) with
           | None => mret (-1)
           | Some t => _ ← set_file f (λ x, x <| f_lock_type := t |>); mret 0
           end);
      _ ← sys_fs (iunlock (f_ip x));
      mret r).
End code.
