(* ===== verification/SysSpec.v ===== *)
(** * Descriptors and the references they hold

    A small program logic for what a call does to the reference counts of the
    file table, and the accounting it gives: the count of a file is the number of
    descriptors of the process that refer to it and the references held
    elsewhere, whatever calls the process makes. *)

From stdpp Require Import gmap.
From S2P Require Import Prelude Bytes BufCache Bio Log LogDisk CString PageAlloc Kalloc Pipe Fs FsPath FsExample File Mbuf Packet Net NetInv Socket SysPath SysFile.

(** ** Partial-correctness triples *)

Definition triple {S A : Type} (P : S → Prop) (m : ST S A) (Q : A → S → Prop) : Prop :=
  ∀ s a s', P s → run m s a s' → Q a s'.

Create HintDb triples discriminated.

Section triples.
Context {S A B : Type}.
Implicit Types (P : S → Prop).

Lemma triple_ret P a (Q : A → S → Prop) : (∀ s, P s → Q a s) → triple P (mret a) Q.
Proof. intros H s b s' Hs [= <- <-]. by apply H. Qed.
Lemma triple_bind P (m : ST S A) R (k : A → ST S B) Q : triple P m R → (∀ a, triple (R a) (k a) Q) → triple P (m ≫= k) Q.
Proof. intros Hm Hk s b s' Hs E. apply bind_Ret_inv in E as (a & s1 & E1 & E2). eapply Hk; [|exact E2]. by eapply Hm. Qed.
Lemma triple_weaken P P' (m : ST S A) (Q Q' : A → S → Prop) :
  (∀ s, P s → P' s) → (∀ a s, Q' a s → Q a s) → triple P' m Q' → triple P m Q.
Proof. intros HP HQ H s a s' Hs E. eapply HQ, H; [by apply HP|done]. Qed.
Lemma triple_pure P (φ : Prop) (m : ST S A) Q : (φ → triple P m Q) → triple (λ s, P s ∧ φ) m Q.
Proof. intros H s a s' [Hs Hφ]. by apply H. Qed.
Lemma triple_post P (m : ST S A) (Q Q' : A → S → Prop) : (∀ a s, Q' a s → Q a s) → triple P m Q' → triple P m Q.
Proof. by apply triple_weaken. Qed.
Lemma triple_panic P msg (Q : A → S → Prop) : triple P (panic msg) Q.
Proof. by intros s a s' _ [=]. Qed.
Lemma triple_blocks P (Q : A → S → Prop) : triple P blocks Q.
Proof. by intros s a s' _ [=]. Qed.
Lemma triple_get P : triple P get (λ a s, s = a ∧ P s).
Proof. by intros s a s' Hs [= <- <-]. Qed.
End triples.

(** Code that keeps [P]. *)
Abbreviation stays P m := (triple P m (λ _, P)).
Lemma stays_get {S} (P : S → Prop) : stays P get.
Proof. by intros s a s' Hs [= <- <-]. Qed.
Lemma stays_gets {S A} (P : S → Prop) (f : S → A) : stays P (gets f).
Proof. by intros s a s' Hs [= <- <-]. Qed.
Lemma stays_ret {S A} (P : S → Prop) (a : A) : stays P (mret a).
Proof. by apply triple_ret. Qed.
Lemma stays_bind {S A B} (P : S → Prop) (m : ST S A) (k : A → ST S B) : stays P m → (∀ a, stays P (k a)) → stays P (m ≫= k).
Proof. intros Hm Hk. by eapply triple_bind. Qed.
#[export] Hint Resolve stays_get stays_gets stays_ret stays_bind triple_panic triple_blocks : triples.

(** Proves [stays P m] by the shape of [m], with the hints for its calls. *)
Ltac stay :=
  repeat first
    [ done
    | solve [eauto with triples nocore]
    | apply stays_ret | apply triple_panic | apply triple_blocks | apply stays_get | apply stays_gets
    | apply stays_bind; [|intros ?]
    | match goal with
      | |- triple _ (if ?b then _ else _) _ => destruct b
      | |- triple _ (match ?x with _ => _ end) _ => destruct x eqn:?
      | |- triple _ (let '(_, _) := ?x in _) _ => destruct x
      end ].

(** ** References *)

Section code.
Context {C : Type} `{!BufCache C} {K : Type} `{!PageAlloc K}.
Abbreviation SysS := (sysst C K).
Implicit Types (s : SysS) (h : nat → Z).

Definition fd_count (l : list (option nat)) (f : nat) : Z := tally (λ o, bool_decide (o = Some f)) l.
Definition files s : list file := ftable (sy_fd s).

(** [h f] references of file [f] are held elsewhere. *)
Record refs_ok h s : Prop := RefsOk {
  rf_ref : ∀ f x, files s !! f = Some x → f_ref x = h f + fd_count (sy_ofile s) f;
  rf_int : ∀ f x, files s !! f = Some x → 0 ≤ f_ref x < 2 ^ 31;
  rf_file : ∀ fd f, sy_ofile s !! fd = Some (Some f) → is_Some (files s !! f);
  rf_len : length (sy_ofile s) = NOFILE;
}.

(** The file table and the descriptors as far as the counts go. *)
Definition same_refs s s' : Prop := sy_ofile s' = sy_ofile s ∧ f_ref <$> files s' = f_ref <$> files s.

Lemma refs_same h s s' : same_refs s s' → refs_ok h s → refs_ok h s'.
Proof.
  intros [Ho Hf] [H1 H2 H3 H4]. assert (∀ f x, files s' !! f = Some x → ∃ y, files s !! f = Some y ∧ f_ref y = f_ref x) as L.
  { intros f x Hx. apply (f_equal (.!! f)) in Hf. rewrite !list_lookup_fmap, Hx in Hf. destruct (files s !! f) as [y|]; [|done].
    injection Hf as Hf. by exists y. }
  split; rewrite ?Ho; [| | |done].
  - intros f x Hx. destruct (L f x Hx) as (y & Hy & <-). by apply H1.
  - intros f x Hx. destruct (L f x Hx) as (y & Hy & <-). by eapply H2.
  - intros fd f Hfd. destruct (H3 fd f Hfd) as [y Hy]. apply (f_equal (.!! f)) in Hf. rewrite !list_lookup_fmap, Hy in Hf.
    by destruct (files s' !! f).
Qed.

(** The counts, with the descriptors and the size of the table. *)
Definition owns h (o : list (option nat)) (n : nat) s : Prop := refs_ok h s ∧ sy_ofile s = o ∧ length (files s) = n.

Lemma owns_same h o n s s' : same_refs s s' → owns h o n s → owns h o n s'.
Proof.
  intros Hs (Hr & <- & <-). split; [by eapply refs_same|]. destruct Hs as [Ho Hf]. split; [done|].
  apply (f_equal length) in Hf. by rewrite !length_fmap in Hf.
Qed.

(** ** Code that leaves the counts alone *)

Lemma stays_on_net {A} (m : ST (net K) A) h o n : stays (owns h o n) (on_net m).
Proof.
  intros s a s' Hs E. unfold on_net in E. destruct (m (sy_net s)) as [[b z]| |]; [|done..]. injection E as <- <-. by apply (owns_same h o n s).
Qed.
Lemma stays_sys_fs {A} (m : ST (fstate (lstate C)) A) h o n : stays (owns h o n) (sys_fs m).
Proof.
  intros s a s' Hs E. unfold sys_fs, on_fds, on_fs in E. destruct (m (fd_fs (sy_fd s))) as [[b z]| |]; [|done..].
  injection E as <- <-. by apply (owns_same h o n s).
Qed.
Lemma stays_set_file f g h o n : (∀ x, f_ref (g x) = f_ref x) → stays (owns h o n) (set_file f g).
Proof.
  intros Hg s a s' Hs [= <- <-]. apply (owns_same h o n s); [|done]. split; [done|]. unfold files. cbn.
  apply list_eq. intros j. rewrite !list_lookup_fmap. destruct (decide (j = f)) as [->|]; [|by rewrite list_lookup_alter_ne].
  rewrite list_lookup_alter_eq. destruct (ftable (sy_fd s) !! f); cbn; [by rewrite Hg|done].
Qed.

(** Code of file.c. *)
Definition fd_same (x y : fdstate C) : Prop := f_ref <$> ftable y = f_ref <$> ftable x.
Lemma stays_on_fds {A} (m : ST (fdstate C) A) h o n : (∀ x, stays (fd_same x) m) → stays (owns h o n) (on_fds m).
Proof.
  intros Hm s a s' Hs E. unfold on_fds in E. destruct (m (sy_fd s)) as [[b z]| |] eqn:E1; [|done..]. injection E as <- <-.
  apply (owns_same h o n s); [|done]. split; [done|]. by eapply (Hm (sy_fd s)), E1.
Qed.
Lemma fd_stays_on_fs {A} (m : ST (fstate (lstate C)) A) x : stays (fd_same x) (on_fs m).
Proof. intros y a y' Hy E. unfold on_fs in E. destruct (m (fd_fs y)) as [[b z]| |]; [|done..]. by injection E as <- <-. Qed.
Lemma fd_stays_modify (g : fdstate C → fdstate C) x : (∀ y, f_ref <$> ftable (g y) = f_ref <$> ftable y) → stays (fd_same x) (modify g).
Proof. intros Hg y a y' Hy [= <- <-]. unfold fd_same. by rewrite Hg. Qed.
Lemma fd_stays_the_file f x : stays (fd_same x) (the_file f).
Proof. apply stays_gets. Qed.
Lemma fd_stays_the_pipe f x : stays (fd_same x) (the_pipe f).
Proof. apply stays_gets. Qed.
Lemma fd_stays_add_off f r x : stays (fd_same x) (add_off f r).
Proof.
  apply fd_stays_modify. intros y. cbn. apply list_eq. intros j. rewrite !list_lookup_fmap.
  destruct (decide (j = f)) as [->|]; [|by rewrite list_lookup_alter_ne]. rewrite list_lookup_alter_eq. by destruct (ftable y !! f).
Qed.
End code.
#[export] Hint Resolve stays_on_net stays_sys_fs fd_stays_on_fs fd_stays_the_file fd_stays_the_pipe fd_stays_add_off : triples.

(** ** Code that moves references *)

(** [d] more references of file [f]. *)
Definition hadd (h : nat → Z) (f : nat) (d : Z) : nat → Z := λ g, if decide (g = f) then h g + d else h g.

Section refs.
Context {C : Type} `{!BufCache C} {K : Type} `{!PageAlloc K}.
Abbreviation SysS := (sysst C K).
Implicit Types (s : SysS) (h : nat → Z).
Abbreviation own := (owns (C := C) (K := K)).

Lemma refs_ext h h' s : (∀ f, h f = h' f) → refs_ok h s → refs_ok h' s.
Proof. intros E [H1 H2 H3 H4]. split; try done. intros f x Hx. rewrite <- E. by apply H1. Qed.

(** A file whose count changes by [d]. *)
Lemma refs_count h s s' f x y d : refs_ok h s → files s !! f = Some x → f_ref y = f_ref x + d → 0 ≤ f_ref y < 2 ^ 31 →
  sy_ofile s' = sy_ofile s → files s' = <[f := y]> (files s) → refs_ok (hadd h f d) s'.
Proof.
  intros [H1 H2 H3 H4] Hx Hd Hy Eo Ef. pose proof (lookup_lt_Some _ _ _ Hx) as Hl. split; rewrite ?Eo, ?Ef; [| | |done].
  - intros g z Hz. unfold hadd. case_decide as Hg; [subst g|rewrite list_lookup_insert_ne in Hz by done; by apply H1].
    rewrite list_lookup_insert_eq in Hz by done. injection Hz as <-. rewrite Hd, (H1 f x Hx). lia.
  - intros g z Hz. apply list_lookup_insert_Some in Hz as [(_ & <- & _)|[_ Hz]]; [done|by eapply H2].
  - intros fd g Hg. apply lookup_lt_is_Some. rewrite length_insert. apply lookup_lt_is_Some. by eapply H3.
Qed.

(** A descriptor that changes from [o] to [o']. *)
Definition points (o : option nat) (f : nat) : Z := if bool_decide (o = Some f) then 1 else 0.

Lemma refs_fd h s fd o o' : refs_ok h s → sy_ofile s !! fd = Some o → (∀ f, o' = Some f → is_Some (files s !! f)) →
  refs_ok (λ f, h f + points o f - points o' f) (s <| sy_ofile ::= <[fd := o']> |>).
Proof.
  intros [H1 H2 H3 H4] Ho Ho'. split; cbn; [|done| |by rewrite length_insert].
  - intros f x Hx. rewrite (H1 f x Hx). unfold fd_count, points. rewrite (tally_insert _ _ _ o) by done. cbv beta. lia.
  - intros fd' f Hf. apply list_lookup_insert_Some in Hf as [(_ & E & _)|[_ Hf]]; [by apply Ho'|by eapply H3].
Qed.

Lemma owns_count h o n s s' f x y d : owns h o n s → files s !! f = Some x → f_ref y = f_ref x + d → 0 ≤ f_ref y < 2 ^ 31 →
  sy_ofile s' = sy_ofile s → files s' = <[f := y]> (files s) → owns (hadd h f d) o n s'.
Proof.
  intros (Hr & <- & <-) Hx Hd Hy Eo Ef. split; [by eapply refs_count|]. split; [done|]. by rewrite Ef, length_insert.
Qed.

Lemma filealloc_triple h o n : triple (own h o n) (on_fds (on_ftable filealloc))
  (λ r s, match r with None => own h o n s | Some f => own (hadd h f 1) o n s ∧ (f < n)%nat end).
Proof.
  intros s r s' Hs E. unfold on_fds, on_ftable in E. destruct (filealloc_run (files s)) as [(f & x & Hx & H0 & E1)|[E1 _]].
  - unfold files in E1. rewrite E1 in E. injection E as <- <-. rewrite (alter_insert _ _ _ _ Hx). split.
    + by apply (owns_count h o n s _ f x (x <| f_ref := 1 |>) 1 Hs Hx); [cbn; lia|..].
    + destruct Hs as (_ & _ & <-). by eapply lookup_lt_Some.
  - unfold files in E1. rewrite E1 in E. injection E as <- <-. by apply (owns_same h o n s).
Qed.

Lemma fdalloc_triple h o n f : (f < n)%nat → triple (own h o n) (fdalloc f)
  (λ r s, if r <? 0 then own h o n s
          else own (hadd h f (-1)) (<[Z.to_nat r := Some f]> o) n s ∧ o !! Z.to_nat r = Some None).
Proof.
  intros Hf s r s' Hs E. unfold fdalloc in E. rewrite (bind_Ret _ _ _ _ _ (run_get s)) in E.
  destruct (findi _ (sy_ofile s)) as [fd|] eqn:Ef; [|by injection E as <- <-].
  destruct (findi_lookup _ _ _ Ef) as (x & Ho & Hn%bool_decide_eq_true). subst x. injection E as <- <-.
  destruct (Z.ltb_spec (Z.of_nat fd) 0); [lia|]. rewrite Nat2Z.id. destruct Hs as (Hr & <- & <-). split; [|done]. split; [|done].
  eapply refs_ext; [|apply (refs_fd h s fd None (Some f) Hr Ho)]. 2:{ intros ? [= <-]. by apply lookup_lt_is_Some. }
  intros g. unfold hadd, points. rewrite (bool_decide_false (None = Some g)) by done.
  case_decide as Hg; [subst|]; case_bool_decide; simplify_eq; lia.
Qed.

Lemma set_fd_triple h o n fd x y : o !! fd = Some x → (∀ f, y = Some f → (f < n)%nat) →
  triple (own h o n) (set_fd fd y) (λ _ s, own (λ f, h f + points x f - points y f) (<[fd := y]> o) n s).
Proof.
  intros Hx Hy s r s' (Hr & <- & <-) E. injection E as _ <-. split; [|done]. apply refs_fd; [done|done|].
  intros f Hf. apply lookup_lt_is_Some. by apply Hy.
Qed.

Lemma filedup_triple h o n f : h f < 2 ^ 30 → triple (own h o n) (filedup_sys f) (λ _, own (hadd h f 1) o n).
Proof.
  intros Hh s r s' Hs E. unfold filedup_sys, on_fds, on_ftable, filedup in E. unfold mbind at 1, ST_bind in E. cbn [get] in E.
  destruct (ftable (sy_fd s) !! f) as [x|] eqn:Hx; [|done]. change (default file0 (Some x)) with x in E.
  destruct (Z.ltb_spec (f_ref x) 1); [done|]. injection E as _ <-. pose proof Hs as (Hr & _).
  pose proof (rf_ref _ _ Hr f x Hx) as Hf. pose proof (tally_bound (λ o, bool_decide (o = Some f)) (sy_ofile s)) as Ht.
  rewrite (rf_len _ _ Hr) in Ht. unfold NOFILE, fd_count in *. pose proof (rf_int _ _ Hr f x Hx).
  rewrite (alter_insert _ _ _ _ Hx). by eapply (owns_count h o n s _ f x _ 1 Hs Hx); [..|reflexivity]; cbn; rewrite ?i32_small by lia; try lia.
Qed.

Lemma fileclose_triple h o n f : triple (own h o n) (sys_fileclose f) (λ _, own (hadd h f (-1)) o n).
Proof.
  unfold sys_fileclose. eapply triple_bind; [apply stays_on_fds; intros; apply fd_stays_the_file|]. intros x0. cbn beta.
  eapply (triple_bind _ _ (λ _, own (hadd h f (-1)) o n)); [|intros ?; stay].
  intros s r s' Hs E. unfold on_fds, fileclose in E. unfold mbind at 1, ST_bind, on_ftable in E.
  destruct (ftable (sy_fd s) !! f) as [x|] eqn:Hx.
  - destruct (decide (0 < f_ref x)) as [Hr|Hr].
    + pose proof Hs as (Hok & _). pose proof (rf_int _ _ Hok f x Hx) as Hi. rewrite (fileclose_ref_run _ f x Hx) in E by lia.
      match type of E with context [update ftable ?g (sy_fd s)] => set (y := update ftable g (sy_fd s)) in E end.
      match type of E with context [?m y] => assert (stays (fd_same y) m) as Hm end.
      { stay. apply fd_stays_modify. done. }
      match type of E with context [?m y] => destruct (m y) as [[u z]| |] eqn:Em; [|done..] end. injection E as _ <-.
      specialize (Hm y u z eq_refl Em). apply (owns_same _ _ _ (s <| sy_fd := y |>)); [by split|]. unfold y.
      rewrite (alter_insert _ _ _ _ Hx). by eapply (owns_count h o n s _ f x _ (-1) Hs Hx); [..|reflexivity]; case_decide; cbn; try lia.
    + unfold fileclose_ref in E. rewrite (bind_Ret _ _ _ _ _ (run_get _)) in E. rewrite Hx in E. change (default file0 (Some x)) with x in E.
      by destruct (Z.ltb_spec (f_ref x) 1); [|lia].
  - unfold fileclose_ref in E. rewrite (bind_Ret _ _ _ _ _ (run_get _)) in E. by rewrite Hx in E.
Qed.

Lemma argfd_triple h o n fd : triple (own h o n) (argfd fd)
  (λ r s, own h o n s ∧ match r with
          | None => 0 ≤ fd < Z.of_nat NOFILE → o !! Z.to_nat fd = Some None
          | Some f => (f < n)%nat ∧ 0 ≤ fd < Z.of_nat NOFILE ∧ o !! Z.to_nat fd = Some (Some f)
          end).
Proof.
  intros s r s' Hs [= <- <-]. split; [done|]. destruct Hs as (Hr & <- & <-).
  destruct (Z.ltb_spec fd 0), (Z.leb_spec (Z.of_nat NOFILE) fd); cbn [orb]; try lia.
  destruct (lookup_lt_is_Some_2 (sy_ofile s) (Z.to_nat fd)) as [x Hx]; [rewrite (rf_len _ _ Hr); lia|]. rewrite Hx. cbn. unfold id.
  destruct x as [f|]; [|done]. split; [|done]. destruct (rf_file _ _ Hr _ _ Hx) as [y Hy]. by eapply lookup_lt_Some.
Qed.
Lemma argfd_quiet h o n fd : stays (own h o n) (argfd fd).
Proof. apply stays_bind; [apply stays_get|intros; apply stays_ret]. Qed.
Lemma the_file_quiet h o n f : stays (own h o n) (on_fds (the_file f)).
Proof. apply stays_on_fds. intros. apply fd_stays_the_file. Qed.
Lemma set_um_quiet h o n m : stays (own h o n) (set_um m).
Proof. apply stays_sys_fs. Qed.
End refs.
#[export] Hint Resolve argfd_quiet the_file_quiet set_um_quiet : triples.

(** ** The calls *)

Section calls.
Context {C : Type} `{!BufCache C} {K : Type} `{!PageAlloc K}.
Abbreviation SysS := (sysst C K).
Abbreviation own := (owns (C := C) (K := K)).
Context (ram : Z → list Z) (dev_read dev_write : Z → option (Z → Z → ST (fdstate C) Z)).
Context (de nm name dot dotdot : Z).
Implicit Types (s : SysS) (h : nat → Z) (o : list (option nat)) (n : nat).

(** Devices leave the file table alone. *)
Definition dev_quiet (dev : Z → option (Z → Z → ST (fdstate C) Z)) : Prop :=
  ∀ major f addr cnt x, dev major = Some f → stays (fd_same x) (f addr cnt).
Hypotheses (read_quiet : dev_quiet dev_read) (write_quiet : dev_quiet dev_write).

Lemma fileread_quiet f addr cnt x : stays (fd_same x) (fileread dev_read (λ _ _ _, mret (-1)) f addr cnt).
Proof.
  unfold fileread. stay; first [by apply fd_stays_modify|by eapply read_quiet].
Qed.

Lemma filewrite_loop_quiet fuel : ∀ f addr i cnt x, stays (fd_same x) (filewrite_loop fuel f addr i cnt).
Proof. induction fuel as [|fuel IH]; intros f addr i cnt x; cbn [filewrite_loop]; stay. Qed.

Lemma filewrite_quiet f addr cnt x : stays (fd_same x) (filewrite dev_write (λ _ _ _, mret (-1)) f addr cnt).
Proof.
  unfold filewrite. stay; first [by apply fd_stays_modify|by eapply write_quiet|apply filewrite_loop_quiet].
Qed.


(** *** Calls that move no reference *)

Ltac quiet := stay; first [apply stays_set_file; done | apply stays_on_fds; intros; first
  [apply fd_stays_the_file | apply fd_stays_add_off | by apply fileread_quiet | by apply filewrite_quiet | apply fd_stays_modify; done]].

Lemma sys_read_quiet h o n fd p cnt : stays (own h o n) (sys_read ram dev_read fd p cnt).
Proof. unfold sys_read, with_fd. quiet. Qed.
Lemma sys_write_quiet h o n fd p cnt : stays (own h o n) (sys_write dev_write fd p cnt).
Proof. unfold sys_write, with_fd. quiet. Qed.
Lemma sys_fstat_quiet h o n fd st : stays (own h o n) (sys_fstat fd st).
Proof. unfold sys_fstat, with_fd, filestat. stay. apply stays_on_fds. intros. stay. Qed.
Lemma sys_lseek_quiet h o n fd offset whence : stays (own h o n) (sys_lseek fd offset whence).
Proof. unfold sys_lseek, with_fd. quiet. Qed.

Lemma next_dirent_quiet h o n ip off : stays (own h o n) (next_dirent de ip off).
Proof. unfold next_dirent. stay. Qed.
Lemma copyout_km_quiet h o n dst a cnt : stays (own h o n) (copyout_km dst a cnt).
Proof. unfold copyout_km. stay. Qed.
Lemma readdir_loop_quiet fuel : ∀ h o n f ip buf nread count, stays (own h o n) (readdir_loop de fuel f ip buf nread count).
Proof.
  induction fuel as [|fuel IH]; intros; cbn [readdir_loop]; stay; first [apply next_dirent_quiet|apply copyout_km_quiet|quiet].
Qed.
Lemma sys_readdir_quiet h o n fd buf count : stays (own h o n) (sys_readdir de fd buf count).
Proof. unfold sys_readdir, with_fd. stay. apply readdir_loop_quiet. Qed.

Lemma getdents_loop_quiet fuel : ∀ h o n ld ip buf nread offset count,
  stays (own h o n) (getdents_loop de fuel ld ip buf nread offset count).
Proof.
  induction fuel as [|fuel IH]; intros; cbn [getdents_loop]; stay; first [apply next_dirent_quiet|apply copyout_km_quiet|apply stays_sys_fs].
Qed.
Lemma sys_getdents_quiet h o n ld fd buf count : stays (own h o n) (sys_getdents de ld fd buf count).
Proof. unfold sys_getdents, with_fd. stay; first [apply getdents_loop_quiet|quiet]. Qed.
Lemma sys_flock_quiet h o n fd op : stays (own h o n) (sys_flock fd op).
Proof. unfold sys_flock, with_fd. quiet. Qed.

Lemma argsock_quiet h o n fd : stays (own h o n) (argsock fd).
Proof. unfold argsock. stay. Qed.
#[local] Hint Resolve argsock_quiet : triples.
Lemma sys_recv_quiet h o n fd addr cnt : stays (own h o n) (sys_recv ram fd addr cnt).
Proof. unfold sys_recv. stay. Qed.
Lemma sys_send_quiet h o n fd addr cnt : stays (own h o n) (sys_send fd addr cnt).
Proof. unfold sys_send. stay. Qed.
Lemma sys_bind_quiet h o n fd port : stays (own h o n) (sys_bind fd port).
Proof. unfold sys_bind. stay. Qed.
Lemma sys_listen_quiet h o n fd : stays (own h o n) (sys_listen fd).
Proof. unfold sys_listen. stay. Qed.

(** *** Calls that move references *)

Lemma owns_refs h h' o n s : (∀ f, h f = h' f) → own h o n s → refs_ok h' s.
Proof. intros E (Hr & _). by eapply refs_ext. Qed.

(** Solves [h f = h' f] for moved references. *)
Ltac balance := try intros ?; unfold hadd, points in *; repeat (case_decide || case_bool_decide); simplify_eq; lia.

Lemma with_fd_triple h o n fd (k : nat → ST SysS Z) Q : (∀ s, own h o n s → Q (-1) s) →
  (∀ f, (f < n)%nat → 0 ≤ fd < Z.of_nat NOFILE → o !! Z.to_nat fd = Some (Some f) → triple (own h o n) (k f) Q) →
  triple (own h o n) (with_fd fd k) Q.
Proof.
  intros H1 Hk. unfold with_fd. eapply triple_bind; [apply argfd_triple|]. intros [f|]; cbn beta iota.
  - apply triple_pure. intros (? & ? & ?). by apply Hk.
  - apply triple_ret. intros s [Hs _]. by apply H1.
Qed.

Lemma close_owned h o n f h' : (∀ g, h g = hadd h' f 1 g) → triple (own h o n) (sys_fileclose f) (λ _, own h' o n).
Proof.
  intros E. eapply triple_post; [|apply fileclose_triple]. intros _ s (Hr & ? & ?). split; [|done].
  eapply refs_ext, Hr. intros g. specialize (E g). unfold hadd in *. case_decide; lia.
Qed.

Lemma sys_dup_refs h o n fd : (∀ f, h f < 2 ^ 30) → triple (own h o n) (sys_dup fd) (λ _, refs_ok h).
Proof.
  intros Hh. apply with_fd_triple; [intros s Hs; apply Hs|]. intros f Hf _ _. eapply triple_bind; [by apply fdalloc_triple|]. intros r. cbn beta.
  destruct (r <? 0); [apply triple_ret; intros s Hs; apply Hs|]. apply triple_pure. intros _.
  eapply triple_bind; [apply filedup_triple|intros ?; cbn beta; apply triple_ret].
  - specialize (Hh f). unfold hadd. case_decide; lia.
  - intros s. apply owns_refs. balance.
Qed.

Lemma sys_close_refs h o n fd : triple (own h o n) (sys_close fd) (λ _, refs_ok h).
Proof.
  apply with_fd_triple; [intros s Hs; apply Hs|]. intros f Hf _ Ho. eapply triple_bind; [by apply (set_fd_triple h o n _ _ None Ho)|]. intros ?. cbn beta.
  eapply triple_bind; [apply (close_owned _ _ _ _ h)|intros ?; cbn beta; apply triple_ret; intros s Hs; apply Hs]. balance.
Qed.

Lemma sys_dup2_refs h o n oldfd newfd : (∀ f, h f < 2 ^ 30) → triple (own h o n) (sys_dup2 oldfd newfd) (λ _, refs_ok h).
Proof.
  intros Hh. unfold sys_dup2. destruct (Z.ltb_spec oldfd 0), (Z.leb_spec (Z.of_nat NOFILE) oldfd), (Z.ltb_spec newfd 0), (Z.leb_spec (Z.of_nat NOFILE) newfd);
    cbn [orb]; try (apply triple_ret; intros s Hs; apply Hs).
  apply with_fd_triple; [intros s Hs; apply Hs|]. intros f Hf _ Ho. destruct (oldfd =? newfd); [apply triple_ret; intros s Hs; apply Hs|].
  eapply triple_bind; [apply argfd_triple|]. intros old. cbn beta. apply triple_pure. intros Hold.
  assert (o !! Z.to_nat newfd = Some old) as Ho2 by (destruct old; [apply Hold|by apply Hold]).
  eapply (triple_bind _ _ (λ _, own (λ g, h g - points old g) o n)).
  { destruct old as [g|]; [apply close_owned; balance|]. apply triple_ret. intros s (Hr & ? & ?). split; [|done]. eapply refs_ext, Hr. balance. }
  intros ?. cbn beta. eapply triple_bind; [apply (set_fd_triple _ o n _ old (Some f) Ho2); by intros ? [= <-]|]. intros ?. cbn beta.
  eapply triple_bind; [apply filedup_triple|intros ?; cbn beta; apply triple_ret; intros s; apply owns_refs; balance].
  specialize (Hh f). unfold points. repeat case_bool_decide; lia.
Qed.

Lemma fd_or_close_refs h o n f : (f < n)%nat → triple (own (hadd h f 1) o n) (fd_or_close f) (λ _, refs_ok h).
Proof.
  intros Hf. unfold fd_or_close. eapply triple_bind; [by apply fdalloc_triple|]. intros r. cbn beta. destruct (r <? 0).
  - eapply triple_bind; [by apply (close_owned _ _ _ _ h)|intros ?; cbn beta; apply triple_ret; intros s Hs; apply Hs].
  - apply triple_ret. intros s [Hs _]. eapply owns_refs, Hs. balance.
Qed.

(** Steps over code that moves nothing. *)
Ltac calm := eapply triple_bind; [solve [stay]|intros ?; cbn beta].
Ltac over := apply triple_ret; intros s Hs; apply Hs.

Lemma quiet_refs {A} h o n (m : ST SysS A) : stays (own h o n) m → triple (own h o n) m (λ _, refs_ok h).
Proof. apply triple_post. intros _ s Hs. apply Hs. Qed.

Lemma open_file_ref ip i omode x : f_ref (open_file ip i omode x) = f_ref x.
Proof. unfold open_file. by destruct (i_type i =? T_DEVICE). Qed.

Lemma sys_open_refs h o n path upath omode : triple (own h o n) (sys_open de nm name dot dotdot path upath omode) (λ _, refs_ok h).
Proof.
  unfold sys_open. calm. destruct (negb _); [over|]. calm. calm. case_match; [|over].
  eapply triple_bind; [apply filealloc_triple|]. intros [f|]; cbn beta iota; [|apply quiet_refs; stay].
  apply triple_pure. intros Hf. eapply triple_bind; [by apply fdalloc_triple|]. intros r. cbn beta. destruct (r <? 0).
  - eapply triple_bind; [by apply (close_owned _ _ _ _ h)|intros ?; cbn beta]. apply quiet_refs. stay.
  - apply triple_pure. intros _. calm. eapply triple_bind; [apply stays_set_file; intros x; apply open_file_ref|intros ?; cbn beta].
    calm. calm. calm. apply triple_ret. intros s. apply owns_refs. balance.
Qed.

Lemma pipealloc_triple h o n page : triple (own h o n) (pipealloc page)
  (λ r s, match r with None => own h o n s | Some (f0, f1) => own (hadd (hadd h f0 1) f1 1) o n s ∧ (f0 < n)%nat ∧ (f1 < n)%nat end).
Proof.
  unfold pipealloc. eapply triple_bind; [apply filealloc_triple|]. intros [f0|]; cbn beta iota; [|by apply triple_ret].
  apply triple_pure. intros H0. eapply triple_bind; [apply filealloc_triple|]. intros [f1|]; cbn beta iota.
  - apply triple_pure. intros H1. destruct page as [junk|].
    + calm. eapply triple_bind; [apply stays_on_fds; intros; by apply fd_stays_modify|intros ?; cbn beta].
      eapply triple_bind; [by apply stays_set_file|intros ?; cbn beta]. eapply triple_bind; [by apply stays_set_file|intros ?; cbn beta].
      by apply triple_ret.
    + eapply triple_bind; [apply (close_owned _ _ _ _ (hadd h f1 1)); balance|intros ?; cbn beta].
      eapply triple_bind; [by apply (close_owned _ _ _ _ h)|intros ?; cbn beta]. by apply triple_ret.
  - eapply triple_bind; [by apply (close_owned _ _ _ _ h)|intros ?; cbn beta]. by apply triple_ret.
Qed.

Lemma close_both_refs h o n rf wf h' : (∀ f, h' f = hadd (hadd h rf 1) wf 1 f) → triple (own h' o n) (close_both rf wf) (λ _, refs_ok h).
Proof.
  intros E. unfold close_both. eapply triple_bind; [apply (close_owned _ _ _ _ (hadd h wf 1))|intros ?; cbn beta].
  { intros g. rewrite E. balance. }
  eapply triple_bind; [by apply (close_owned _ _ _ _ h)|intros ?; cbn beta]. over.
Qed.

Lemma sys_pipe_refs h o n page fdarray : triple (own h o n) (sys_pipe page fdarray) (λ _, refs_ok h).
Proof.
  unfold sys_pipe. eapply triple_bind; [apply pipealloc_triple|]. intros [[rf wf]|]; cbn beta iota; [|over].
  apply triple_pure. intros [H0 H1]. eapply triple_bind; [by apply fdalloc_triple|]. intros fd0. cbn beta. destruct (fd0 <? 0); [by apply close_both_refs|].
  apply triple_pure. intros Ho. assert (∀ x, <[Z.to_nat fd0 := x]> o !! Z.to_nat fd0 = Some x) as Hl
    by (intros; apply list_lookup_insert_eq; by eapply lookup_lt_Some).
  eapply triple_bind; [by apply fdalloc_triple|]. intros fd1. cbn beta. destruct (fd1 <? 0).
  { eapply triple_bind; [by apply (set_fd_triple _ _ _ _ _ None (Hl _))|intros ?; cbn beta]. apply close_both_refs. balance. }
  apply triple_pure. intros Ho1. calm. calm. case_match; [apply triple_ret; intros s; apply owns_refs; balance|].
  assert (Z.to_nat fd1 ≠ Z.to_nat fd0) as Hne by (intros E; rewrite E, Hl in Ho1; done).
  eapply triple_bind; [apply (set_fd_triple _ _ _ (Z.to_nat fd0) (Some rf) None); [by rewrite list_lookup_insert_ne|done]|intros ?; cbn beta].
  eapply triple_bind; [apply (set_fd_triple _ _ _ (Z.to_nat fd1) (Some wf) None); [|done]|intros ?; cbn beta].
  { rewrite list_lookup_insert_ne by done. apply list_lookup_insert_eq. by eapply lookup_lt_Some. }
  apply close_both_refs. balance.
Qed.

Lemma sys_socket_refs h o n domain type : triple (own h o n) (sys_socket domain type) (λ _, refs_ok h).
Proof.
  unfold sys_socket. destruct (negb _); [over|]. destruct (_ && _); [over|]. eapply triple_bind; [apply filealloc_triple|].
  intros [f|]; cbn beta iota; [|over]. apply triple_pure. intros Hf. calm. case_match.
  - calm. eapply triple_bind; [by apply stays_set_file|intros ?; cbn beta]. calm. by apply fd_or_close_refs.
  - eapply triple_bind; [by apply (close_owned _ _ _ _ h)|intros ?; cbn beta]. over.
Qed.

Lemma sys_accept_refs h o n fd : triple (own h o n) (sys_accept fd) (λ _, refs_ok h).
Proof.
  unfold sys_accept. calm. case_match; [|over]. calm. destruct (_ =? 0); [over|]. calm. destruct (_ && _); [apply triple_blocks|].
  case_match; [over|]. eapply triple_bind; [apply filealloc_triple|]. intros [f|]; cbn beta iota; [|over]. apply triple_pure. intros Hf. calm. case_match.
  - calm. eapply triple_bind; [by apply stays_set_file|intros ?; cbn beta]. calm. by apply fd_or_close_refs.
  - eapply triple_bind; [by apply (close_owned _ _ _ _ h)|intros ?; cbn beta]. over.
Qed.

Lemma sys_connect_refs h o n raddr lport rport : triple (own h o n) (sys_connect raddr lport rport) (λ _, refs_ok h).
Proof.
  unfold sys_connect. apply (triple_bind _ _ (λ r s, match r with (0, Some f) => own (hadd h f 1) o n s ∧ (f < n)%nat | _ => own h o n s end)).
  - unfold sockalloc. eapply triple_bind; [apply filealloc_triple|]. intros [f|]; cbn beta iota; [|by apply triple_ret].
    apply triple_pure. intros Hf. calm. case_match.
    + calm. eapply triple_bind; [by apply stays_set_file|intros ?; cbn beta]. calm. calm. case_match.
      * calm. eapply triple_bind; [by apply (close_owned _ _ _ _ h)|intros ?; cbn beta]. by apply triple_ret.
      * calm. by apply triple_ret.
    + eapply triple_bind; [by apply (close_owned _ _ _ _ h)|intros ?; cbn beta]. by apply triple_ret.
  - intros [[] [f|]]; cbn beta iota; try over. apply triple_pure. intros Hf. by apply fd_or_close_refs.
Qed.

(** ** Runs of a process *)

(** The calls on descriptors but [sys_dup_new], and any call that works on the
    file system alone ([sys_link], [sys_unlink], ...). *)
Inductive fd_call : SysS → SysS → Prop :=
| fd_dup s fd r s' : run (sys_dup fd) s r s' → fd_call s s'
| fd_dup2 s fd fd' r s' : run (sys_dup2 fd fd') s r s' → fd_call s s'
| fd_close s fd r s' : run (sys_close fd) s r s' → fd_call s s'
| fd_open s path upath omode r s' : run (sys_open de nm name dot dotdot path upath omode) s r s' → fd_call s s'
| fd_pipe s page fdarray r s' : run (sys_pipe page fdarray) s r s' → fd_call s s'
| fd_socket s domain type r s' : run (sys_socket domain type) s r s' → fd_call s s'
| fd_accept s fd r s' : run (sys_accept fd) s r s' → fd_call s s'
| fd_connect s raddr lport rport r s' : run (sys_connect raddr lport rport) s r s' → fd_call s s'
| fd_read s fd p cnt r s' : run (sys_read ram dev_read fd p cnt) s r s' → fd_call s s'
| fd_write s fd p cnt r s' : run (sys_write dev_write fd p cnt) s r s' → fd_call s s'
| fd_recv s fd p cnt r s' : run (sys_recv ram fd p cnt) s r s' → fd_call s s'
| fd_send s fd p cnt r s' : run (sys_send fd p cnt) s r s' → fd_call s s'
| fd_fstat s fd st r s' : run (sys_fstat fd st) s r s' → fd_call s s'
| fd_lseek s fd off whence r s' : run (sys_lseek fd off whence) s r s' → fd_call s s'
| fd_readdir s fd buf cnt r s' : run (sys_readdir de fd buf cnt) s r s' → fd_call s s'
| fd_getdents s ld fd buf cnt r s' : run (sys_getdents de ld fd buf cnt) s r s' → fd_call s s'
| fd_flock s fd op r s' : run (sys_flock fd op) s r s' → fd_call s s'
| fd_bind s fd port r s' : run (sys_bind fd port) s r s' → fd_call s s'
| fd_listen s fd r s' : run (sys_listen fd) s r s' → fd_call s s'
| fd_path s (m : ST (fstate (lstate C)) Z) r s' : run (sys_fs m) s r s' → fd_call s s'.

Lemma fd_call_refs h s s' : (∀ f, h f < 2 ^ 30) → refs_ok h s → fd_call s s' → refs_ok h s'.
Proof.
  intros Hh Hr H. assert (own h (sy_ofile s) (length (files s)) s) as Hs by done.
  assert (∀ (m : ST SysS Z) r, triple (own h (sy_ofile s) (length (files s))) m (λ _, refs_ok h) → run m s r s' → refs_ok h s') as T
    by (intros m r Hm E; by eapply Hm).
  destruct H; (eapply T; [|eassumption]); first
    [ by apply sys_dup_refs | by apply sys_dup2_refs | apply sys_close_refs | apply sys_open_refs | apply sys_pipe_refs
    | apply sys_socket_refs | apply sys_accept_refs | apply sys_connect_refs | apply quiet_refs; first
      [ apply sys_read_quiet | apply sys_write_quiet | apply sys_recv_quiet | apply sys_send_quiet | apply sys_fstat_quiet
      | apply sys_lseek_quiet | apply sys_readdir_quiet | apply sys_getdents_quiet | apply sys_flock_quiet | apply sys_bind_quiet
      | apply sys_listen_quiet | apply stays_sys_fs ] ].
Qed.

(** [sys_dup_new] closes the file of the descriptor [newfd], which stays as it
    is. *)
Definition fd_file s (fd : Z) : option nat :=
  if (fd <? 0) || (Z.of_nat NOFILE <=? fd) then None else default None (sy_ofile s !! Z.to_nat fd).
Definition dup_new_drops s (fd newfd : Z) : option nat :=
  match fd_file s fd with Some _ => fd_file s newfd | None => None end.
Definition stale_add (g : option nat) (D : nat → Z) : nat → Z := match g with Some g => hadd D g 1 | None => D end.

Lemma sys_dup_new_refs h s fd newfd r s' : refs_ok h s → (∀ f, h f < 2 ^ 30) → run (sys_dup_new fd newfd) s r s' →
  refs_ok (match dup_new_drops s fd newfd with Some g => hadd h g (-1) | None => h end) s'.
Proof.
  intros Hr Hh E.
  assert (triple (own h (sy_ofile s) (length (files s))) (sys_dup_new fd newfd)
    (λ _, refs_ok (match dup_new_drops s fd newfd with Some g => hadd h g (-1) | None => h end))) as T; [|by eapply T].
  clear E. unfold sys_dup_new, with_fd. eapply triple_bind; [apply argfd_triple|]. intros f. cbn beta. apply triple_pure. intros Hf.
  assert (f = fd_file s fd) as Ef.
  { unfold fd_file. destruct f as [f|]; [destruct Hf as (_ & Hfd & Hf)|];
      destruct (Z.ltb_spec fd 0), (Z.leb_spec (Z.of_nat NOFILE) fd); cbn [orb]; try done; try lia; by rewrite Hf. }
  unfold dup_new_drops. rewrite <- Ef. destruct f as [f|]; [|apply triple_ret; by intros t (Ht & _)]. destruct Hf as (Hl & _).
  destruct (_ || _) eqn:Eb.
  { unfold fd_file. rewrite Eb. apply triple_ret. by intros t (Ht & _). }
  eapply triple_bind; [apply argfd_triple|]. intros old. cbn beta. apply triple_pure. intros Hold.
  assert (old = fd_file s newfd) as <-.
  { unfold fd_file. rewrite Eb. destruct (Z.ltb_spec newfd 0), (Z.leb_spec (Z.of_nat NOFILE) newfd); try done.
    destruct old as [g|]; [destruct Hold as (_ & _ & ->)|rewrite Hold by lia]; done. }
  set (h' := match old with Some g => hadd h g (-1) | None => h end).
  assert (∀ x, h' x < 2 ^ 30) as Hh'.
  { intros x. specialize (Hh x). unfold h', hadd. destruct old; [|done]. case_decide; lia. }
  eapply (triple_bind _ _ (λ _, own h' (sy_ofile s) (length (files s)))).
  { unfold h'. destruct old; [apply fileclose_triple|by apply triple_ret]. }
  intros ?. cbn beta. eapply triple_bind; [by apply fdalloc_triple|]. intros i. cbn beta.
  destruct (Z.ltb_spec i 0); [apply triple_ret; by intros t (Ht & _)|]. apply triple_pure. intros Hi.
  eapply triple_bind; [apply filedup_triple; specialize (Hh' f); unfold hadd; case_decide; lia|]. intros ?. cbn beta. apply triple_ret.
  intros t (Ht & _). eapply refs_ext, Ht. intros z. unfold hadd. repeat case_decide; lia.
Qed.

(** All of them; the second component counts for each file the references
    [sys_dup_new] has dropped without removing a descriptor. *)
Inductive fd_step : SysS * (nat → Z) → SysS * (nat → Z) → Prop :=
| fd_plain s s' D : fd_call s s' → fd_step (s, D) (s', D)
| fd_dup_new s fd newfd r s' D :
    run (sys_dup_new fd newfd) s r s' → fd_step (s, D) (s', stale_add (dup_new_drops s fd newfd) D).

Definition fd_inv h (x : SysS * (nat → Z)) : Prop := refs_ok (λ f, h f - x.2 f) x.1 ∧ ∀ f, 0 ≤ x.2 f.

Lemma fd_step_inv h x y : (∀ f, h f < 2 ^ 30) → fd_inv h x → fd_step x y → fd_inv h y.
Proof.
  intros Hh [Hr HD] H. assert (∀ f, h f - x.2 f < 2 ^ 30) as Hb by (intros f; specialize (Hh f); specialize (HD f); lia).
  destruct H as [s s' D H|s fd newfd r s' D E]; cbn in *.
  - split; [|done]. by eapply fd_call_refs.
  - pose proof (sys_dup_new_refs _ _ _ _ _ _ Hr Hb E) as Hr'. destruct (dup_new_drops s fd newfd) as [g|]; [|by split].
    split; cbn.
    + eapply refs_ext, Hr'. intros f. unfold hadd. case_decide; lia.
    + intros f. unfold hadd. specialize (HD f). case_decide; lia.
Qed.

(** A descriptor that is open can be duplicated. *)
Lemma sys_dup_returns h s fd f : refs_ok h s → 0 ≤ h f < 2 ^ 30 → 0 ≤ fd → sy_ofile s !! Z.to_nat fd = Some (Some f) →
  ∃ r s', run (sys_dup fd) s r s'.
Proof.
  intros Hr Hh Hfd Ho. pose proof (lookup_lt_Some _ _ _ Ho) as Hl. rewrite (rf_len _ _ Hr) in Hl.
  assert (run (argfd fd) s (Some f) s) as E.
  { unfold argfd. step_with (run_get s). rewrite Ho. destruct (Z.ltb_spec fd 0), (Z.leb_spec (Z.of_nat NOFILE) fd); try lia. done. }
  unfold sys_dup, with_fd. step_with E. unfold fdalloc. destruct (findi (λ z : option nat, bool_decide (z = None)) (sy_ofile s)) as [x|] eqn:Ex.
  2:{ erewrite bind_Ret by (step_with (run_get s); rewrite Ex; reflexivity). by eexists _, _. }
  erewrite bind_Ret by (step_with (run_get s); rewrite Ex; reflexivity). destruct (Z.ltb_spec (Z.of_nat x) 0); [lia|]. cbn beta iota.
  destruct (rf_file _ _ Hr _ _ Ho) as [y Hy]. pose proof (rf_ref _ _ Hr f y Hy) as Hc.
  assert (0 < fd_count (sy_ofile s) f ≤ Z.of_nat NOFILE) as Hcnt.
  { pose proof (tally_bound (λ z, bool_decide (z = Some f)) (sy_ofile s)) as Hb. rewrite (rf_len _ _ Hr) in Hb. unfold fd_count.
    split; [|lia]. destruct (decide (tally (λ z, bool_decide (z = Some f)) (sy_ofile s) = 0)) as [Hz|]; [|lia].
    rewrite tally_zero in Hz. specialize (Hz _ _ Ho). by rewrite bool_decide_true in Hz. }
  pose proof (filedup_run (files s) f y Hy ltac:(unfold NOFILE in *; lia)) as Ed.
  eexists _, _. unfold filedup_sys. erewrite bind_Ret; [reflexivity|]. unfold on_fds, on_ftable. cbn [sy_fd update field_set].
  unfold files in Ed. by rewrite Ed.
Qed.
End calls.

(** ** Theorems *)

(** C23. Whatever calls on descriptors and on the file system a process makes,
    with whatever arguments, and whether they succeed or fail: the reference count
    of every file is the number of descriptors of the process that refer to it
    plus the references held elsewhere, less the references that [sys_dup_new] has
    dropped while it left their descriptor in place.  For a file with none of the
    latter, no descriptor refers to it after it was released, and an open
    descriptor of it can always be duplicated without a panic. *)
Theorem fd_refs_exact {C : Type} `{!BufCache C} {K : Type} `{!PageAlloc K} ram dev_read dev_write de nm name dot dotdot
    (h : nat → Z) (s s' : sysst C K) (stale : nat → Z) :
  dev_quiet dev_read → dev_quiet dev_write → (∀ f, 0 ≤ h f < 2 ^ 30) → refs_ok h s →
  rtc (fd_step ram dev_read dev_write de nm name dot dotdot) (s, λ _, 0) (s', stale) →
  (∀ f x, files s' !! f = Some x → f_ref x = h f - stale f + fd_count (sy_ofile s') f) ∧
  (∀ fd f, sy_ofile s' !! fd = Some (Some f) → stale f = 0 → ∃ x, files s' !! f = Some x ∧ 0 < f_ref x) ∧
  (∀ fd f, 0 ≤ fd → sy_ofile s' !! Z.to_nat fd = Some (Some f) → stale f = 0 → ∃ r s2, run (sys_dup fd) s' r s2).
Proof.
  intros Hdr Hdw Hh Hr H. assert (fd_inv h (s', stale)) as [Hr' HD].
  { eapply (rtc_invariant _ (fd_inv h) (s, λ _, 0)); [|split; [|intros f; cbn; lia]|exact H].
    - intros a b Ha Hab. eapply fd_step_inv; [exact Hdr|exact Hdw| |done|exact Hab]. intros f. apply Hh.
    - cbn. eapply refs_ext, Hr. intros f. lia. }
  cbn in Hr', HD. split_and!; [apply Hr'| |].
  - intros fd f Ho H0. destruct (rf_file _ _ Hr' _ _ Ho) as [x Hx]. exists x. split; [done|]. rewrite (rf_ref _ _ Hr' f x Hx). specialize (Hh f).
    unfold fd_count. pose proof (tally_bound (λ o, bool_decide (o = Some f)) (sy_ofile s')) as Hb.
    destruct (decide (tally (λ o, bool_decide (o = Some f)) (sy_ofile s') = 0)) as [Hz|]; [|lia].
    rewrite tally_zero in Hz. specialize (Hz _ _ Ho). by rewrite bool_decide_true in Hz.
  - intros fd f Hfd Ho H0. eapply sys_dup_returns; [exact Hr'| |done|done]. specialize (Hh f). lia.
Qed.

(** [sys_dup_new] closes the file of the descriptor it is to reuse but leaves
    the descriptor in place, and takes another one: when that was the last
    reference, the descriptor refers to a released file. *)
Theorem dup_new_dangles {C : Type} `{!BufCache C} {K : Type} `{!PageAlloc K} (h : nat → Z) (s s' : sysst C K) fd newfd f g x r :
  refs_ok h s → (∀ f, h f < 2 ^ 30) → 0 ≤ fd < 16 → 0 ≤ newfd < 16 → sy_ofile s !! Z.to_nat fd = Some (Some f) →
  sy_ofile s !! Z.to_nat newfd = Some (Some g) → g ≠ f → files s !! g = Some x → f_ref x = 1 →
  run (sys_dup_new fd newfd) s r s' → 0 ≤ r → sy_ofile s' !! Z.to_nat newfd = Some (Some g) ∧ ∃ y, files s' !! g = Some y ∧ f_ref y = 0.
Proof.
  intros Hr Hh Hfd Hnew Hf Hg Hne Hx Hx1 E Hr0.
  assert (triple (owns h (sy_ofile s) (length (files s))) (sys_dup_new fd newfd)
    (λ r s', 0 ≤ r → ∃ i, sy_ofile s !! i = Some None ∧ owns (hadd h g (-1)) (<[i := Some f]> (sy_ofile s)) (length (files s)) s')) as T.
  { apply with_fd_triple; [intros ? _; lia|]. intros f' Hl _ Hf'. rewrite Hf in Hf'. injection Hf' as <-.
    destruct (Z.ltb_spec newfd 0), (Z.leb_spec (Z.of_nat NOFILE) newfd); cbn [orb]; [lia..| |]; [unfold NOFILE in *; lia|].
    eapply triple_bind; [apply argfd_triple|]. intros old. cbn beta. apply triple_pure. intros Hold.
    assert (old = Some g) as -> by (destruct old as [z|]; [destruct Hold as (_ & _ & Hold)|specialize (Hold Hnew)]; congruence).
    eapply triple_bind; [apply fileclose_triple|]. intros ?. cbn beta. eapply triple_bind; [by apply fdalloc_triple|]. intros i. cbn beta.
    destruct (Z.ltb_spec i 0); [apply triple_ret; lia|]. apply triple_pure. intros Hi.
    eapply triple_bind; [apply filedup_triple; specialize (Hh f); unfold hadd; repeat case_decide; lia|]. intros ?. cbn beta. apply triple_ret.
    intros t Ht _. exists (Z.to_nat i). split; [done|]. destruct Ht as (Ht & ? & ?). split; [|done]. eapply refs_ext, Ht.
    intros z. unfold hadd. repeat case_decide; lia. }
  destruct (T s r s' ltac:(done) E Hr0) as (i & Hi & Hr' & Ho & Hlen). assert (i ≠ Z.to_nat newfd) as Hine by (intros ->; congruence).
  rewrite Ho. split; [by rewrite list_lookup_insert_ne|]. destruct (lookup_lt_is_Some_2 (files s') g) as [y Hy].
  { rewrite Hlen. by eapply lookup_lt_Some. }
  exists y. split; [done|]. rewrite (rf_ref _ _ Hr' g y Hy), Ho. unfold fd_count. rewrite (tally_insert _ _ i None (Some f) Hi). cbv beta.
  rewrite !bool_decide_false by congruence. pose proof (rf_ref _ _ Hr g x Hx) as Hc. unfold fd_count in Hc. unfold hadd.
  rewrite decide_True by done. lia.
Qed.

(** ** A concrete process *)

Section example.
#[local] Instance pages_ex : PageAlloc kstate := kalloc_pages kend_ex.

Definition no_dev : Z → option (Z → Z → ST (fdstate bcache) Z) := λ _, None.
Definition net_ex : net kstate := Net ks_init ∅ [] ∅ [] [] [] [] 0 0 0 [].
Definition proc_ex : sysst bcache kstate := Sysst (FdState (replicate 4 file0) [] fs0 false) net_ex (replicate NOFILE None).

(** With the two ends of a pipe open, and with the first duplicated. *)
Definition proc_pipe : sysst bcache kstate := after (sys_pipe (Some []) 4096) proc_ex.
Definition proc_dup : sysst bcache kstate := after (sys_dup 0) proc_pipe.
Definition proc_bad : sysst bcache kstate := after (sys_dup_new 0 1) proc_pipe.

Lemma proc_pipe_run : run (sys_pipe (Some []) 4096) proc_ex 0 proc_pipe.
Proof. refine (run_after (sys_pipe (Some []) 4096) proc_ex 0 _). vm_compute. reflexivity. Qed.
Lemma proc_dup_run : run (sys_dup 0) proc_pipe 2 proc_dup.
Proof. refine (run_after (sys_dup 0) proc_pipe 2 _). vm_compute. reflexivity. Qed.
Lemma proc_bad_run : run (sys_dup_new 0 1) proc_pipe 2 proc_bad.
Proof. refine (run_after (sys_dup_new 0 1) proc_pipe 2 _). vm_compute. reflexivity. Qed.

Lemma proc_ex_refs : refs_ok (λ _, 0) proc_ex.
Proof.
  assert (∀ f x, files proc_ex !! f = Some x → x = file0) as Hf by (intros f x Hx; by apply lookup_replicate in Hx as [-> _]).
  split; [| | |reflexivity].
  - intros f x Hx. rewrite (Hf f x Hx). reflexivity.
  - intros f x Hx. rewrite (Hf f x Hx). by vm_compute.
  - intros fd f Hx. apply lookup_replicate in Hx as [[=] _].
Qed.

Lemma no_dev_quiet : dev_quiet no_dev.
Proof. by intros major f addr cnt x [=]. Qed.

Lemma fd_refs_exact_witness :
  (∃ x, files proc_dup !! 0%nat = Some x ∧ f_ref x = 2) ∧ (∃ x, files proc_bad !! 1%nat = Some x ∧ f_ref x = 0 - 1 + 1).
Proof.
  split.
  - destruct (fd_refs_exact (λ _, []) no_dev no_dev 0 16 32 48 50 (λ _, 0) proc_ex proc_dup (λ _, 0)) as (H & _).
    + exact no_dev_quiet.
    + exact no_dev_quiet.
    + intros f. lia.
    + exact proc_ex_refs.
    + eapply rtc_l; [apply fd_plain; eapply fd_pipe; exact proc_pipe_run|]. apply rtc_once, fd_plain. eapply fd_dup. exact proc_dup_run.
    + destruct (lookup_lt_is_Some_2 (files proc_dup) 0) as [x Hx]; [vm_compute; lia|]. exists x. split; [exact Hx|].
      rewrite (H 0%nat x Hx). vm_compute. reflexivity.
  - destruct (fd_refs_exact (λ _, []) no_dev no_dev 0 16 32 48 50 (λ _, 0) proc_ex proc_bad (hadd (λ _, 0) 1 1)) as (H & _).
    + exact no_dev_quiet.
    + exact no_dev_quiet.
    + intros f. lia.
    + exact proc_ex_refs.
    + eapply rtc_l; [apply fd_plain; eapply fd_pipe; exact proc_pipe_run|]. apply rtc_once.
      exact (fd_dup_new _ _ _ _ _ _ _ _ proc_pipe 0 1 2 proc_bad (λ _, 0) proc_bad_run).
    + destruct (lookup_lt_is_Some_2 (files proc_bad) 1) as [x Hx]; [vm_compute; lia|]. exists x. split; [exact Hx|].
      rewrite (H 1%nat x Hx). vm_compute. reflexivity.
Defined.

Lemma dup_new_dangles_witness : sy_ofile proc_bad !! 1%nat = Some (Some 1%nat) ∧ ∃ y, files proc_bad !! 1%nat = Some y ∧ f_ref y = 0.
Proof.
  apply (dup_new_dangles (λ _, 0) proc_pipe proc_bad 0 1 0 1 (default file0 (files proc_pipe !! 1%nat)) 2).
  - eapply (fd_call_refs (λ _, []) no_dev no_dev 0 16 32 48 50 no_dev_quiet no_dev_quiet (λ _, 0) proc_ex); [done|exact proc_ex_refs|].
    eapply fd_pipe. exact proc_pipe_run.
  - done.
  - lia.
  - lia.
  - vm_compute. reflexivity.
  - vm_compute. reflexivity.
  - done.
  - vm_compute. reflexivity.
  - vm_compute. reflexivity.
  - exact proc_bad_run.
  - done.
Defined.
End example.
