(* ===== verification/Proc.v ===== *)
(** * proc.c: the process table

    [struct proc] and the operations that change only the table: sleep, wakeup,
    kill, exit's last part, the scan of wait, reparenting.  The scheduling
    fields are the [task] of [Sched].  A pointer to a process is its index; the
    address of entry [i], which the code uses as a sleep channel, is
    [proc_at i].  Each operation is the code under the locks of the processes
    it changes. *)

From stdpp Require Import functions.
From S2P Require Import Prelude ProcTable Sched.

Definition NOFILE : nat := 16.
Definition NVMA : nat := 16.

(** ** struct proc *)

Record vm_area := VmArea {
  v_used : bool;
  v_addr : Z;
  v_len : Z;
  v_prot : Z;
  v_flags : Z;
  v_fd : Z;
  v_file : nat;
  v_offset : Z;
}.
#[export] Instance vm_area_fields : Fields vm_area := λ v,
  VmArea (v_used v) (v_addr v) (v_len v) (v_prot v) (v_flags v) (v_fd v) (v_file v) (v_offset v).
Definition vma0 : vm_area := VmArea false 0 0 0 0 0 0 0.

(** User and group, mask of new files, process group and session. *)
Record creds := Creds { uid : Z; gid : Z; umask : Z; pgid : Z; sid : Z }.
#[export] Instance creds_fields : Fields creds := λ c, Creds (uid c) (gid c) (umask c) (pgid c) (sid c).

Record signals := Signals { pending_signals : Z; signal_handlers : list Z; paused : Z }.
#[export] Instance signals_fields : Fields signals := λ g, Signals (pending_signals g) (signal_handlers g) (paused g).

Record alarm := Alarm { alarm_interval : Z; alarm_handler : Z; alarm_ticks : Z; alarm_goingoff : Z }.

(** Checkpoint, capability, affinity, freezer and control-group fields. *)
Record services := Services {
  checkpointed : Z; checkpoint_id : Z;
  caps_effective : Z; caps_permitted : Z; caps_inheritable : Z; caps_bounding : Z;
  sv_affinity : Z; sv_preferred : Z; last_cpu : Z;
  frozen : Z; freeze_reason : Z; freeze_prio : Z;
  cgroup_id : Z;
}.

#[export] Instance services_fields : Fields services := λ v,
  Services (checkpointed v) (checkpoint_id v) (caps_effective v) (caps_permitted v) (caps_inheritable v) (caps_bounding v)
    (sv_affinity v) (sv_preferred v) (last_cpu v) (frozen v) (freeze_reason v) (freeze_prio v) (cgroup_id v).

(** Shared memory and message queues. *)
Record ipc := Ipc { shm : Z; shmkeymask : Z; shmva : list Z; ipc_mqmask : Z }.
#[export] Instance ipc_fields : Fields ipc := λ m, Ipc (shm m) (shmkeymask m) (shmva m) (ipc_mqmask m).

Record proc := Proc {
  tk : task;
  parent : option nat;
  chan : Z;
  killed : Z;
  xstate : Z;
  kstack : Z;
  sz : Z;
  pagetable : Z;
  trapframe : Z;
  context : list Z;                     (* ra, sp, s0 .. s11 *)
  ofile : list (option nat);
  p_cwd : option nat;
  name : list Z;
  trace_mask : Z;
  vma : list vm_area;
  times : Z * Z * Z;                    (* wait_time, cpu_time, dyn_priority *)
  pthread : option nat;
  ustack : Z;
  com : ipc;
  alm : alarm;
  alarm_trapframe : Z;
  cr : creds;
  sig : signals;
  sv : services;
}.
#[export] Instance proc_fields : Fields proc := λ p,
  Proc (tk p) (parent p) (chan p) (killed p) (xstate p) (kstack p) (sz p) (pagetable p) (trapframe p) (context p)
    (ofile p) (p_cwd p) (name p) (trace_mask p) (vma p) (times p) (pthread p) (ustack p) (com p) (alm p)
    (alarm_trapframe p) (cr p) (sig p) (sv p).

Definition state (p : proc) : procstate := t_state (tk p).
Definition pid (p : proc) : Z := t_pid (tk p).
Definition set_state (x : procstate) (p : proc) : proc := p <| tk ::= λ t, t <| t_state := x |> |>.
Definition set_pid (x : Z) (p : proc) : proc := p <| tk ::= λ t, t <| t_pid := x |> |>.

(** A zeroed entry of the table. *)
Definition proc0 : proc :=
  Proc task0 None 0 0 0 0 0 0 0 [] (replicate NOFILE None) None [] 0 (replicate NVMA vma0) (0, 0, 0) None 0
    (Ipc 0 0 (replicate 8 0) 0) (Alarm 0 0 0 0) 0 (Creds 0 0 0 0 0) (Signals 0 (replicate 32 0) 0)
    (Services 0 0 0 0 0 0 0 0 0 0 0 0 0).

Abbreviation ptable := (list proc).

Section code.
Context (proc_at : nat → Z).

(** ** sleep and wakeup *)

(** What sleep does to the process before it calls sched, and after. *)
Definition sleep_enter (c : Z) (p : proc) : proc := set_state SLEEPING (p <| chan := c |>).
Definition sleep_leave (p : proc) : proc := p <| chan := 0 |>.

Definition sleeps_on (c : Z) (p : proc) : bool := bool_decide (state p = SLEEPING) && (chan p =? c).
Definition wake (c : Z) (p : proc) : proc := if sleeps_on c p then set_state RUNNABLE p else p.

Definition wakeup (c : Z) (t : ptable) : ptable := wake c <$> t.

Definition wakeupOneProc (c : Z) (t : ptable) : ptable :=
  match findi (sleeps_on c) t with
  | Some i => alter (set_state RUNNABLE) i t
  | None => t
  end.

Definition wakeup1 (i : nat) (t : ptable) : ptable := alter (wake (proc_at i)) i t.

(** ** kill *)

Definition kill_one (p : proc) : proc :=
  let p := p <| killed := 1 |> in
  if bool_decide (state p = SLEEPING) then set_state RUNNABLE p else p.

Definition kill (x : Z) (t : ptable) : Z * ptable :=
  match findi (λ p, pid p =? x) t with
  | Some i => (0, alter kill_one i t)
  | None => (-1, t)
  end.

(** ** exit and wait *)

(** Children of [i] go to init. *)
Definition adopt (i : nat) (initproc : option nat) (p : proc) : proc :=
  if bool_decide (parent p = Some i) then p <| parent := initproc |> else p.
Definition reparent (i : nat) (initproc : option nat) (t : ptable) : ptable := adopt i initproc <$> t.

(** exit, after the files are closed: wake init, find the parent (the creating
    thread when there is none), give the children away, wake the parent, become
    a zombie.  [None] is the fault on a null parent pointer. *)
Definition original_parent (p : proc) : option nat :=
  if bool_decide (parent p = None) && bool_decide (pthread p ≠ None) then pthread p else parent p.

(** The part under the locks of the parent and of the process. *)
Definition exit_rest (i par initproc : nat) (status : Z) (t : ptable) : ptable :=
  alter (λ p, set_state ZOMBIE (p <| xstate := status |>)) i (wakeup1 par (reparent i (Some initproc) t)).

Definition exit_finish (i initproc : nat) (status : Z) (t : ptable) : option ptable :=
  let t := wakeup1 initproc t in
  p ← t !! i;
  par ← original_parent p;
  Some (exit_rest i par initproc status t).

(** The scan of wait and waitpid for process [i]: the first zombie child among
    those [sel] selects, or whether there are such children. *)
Inductive wait_scan := Zombie (j : nat) | Kids (havekids : bool).

Definition is_kid (i : nat) (sel : proc → bool) (p : proc) : bool := bool_decide (parent p = Some i) && sel p.
Definition scan_kids (i : nat) (sel : proc → bool) (t : ptable) : wait_scan :=
  match findi (λ p, is_kid i sel p && bool_decide (state p = ZOMBIE)) t with
  | Some j => Zombie j
  | None => Kids (existsb (is_kid i sel) t)
  end.

(** wait accepts any child; waitpid one pid, or any for -1. *)
Definition any_kid (p : proc) : bool := true.
Definition kid_pid (x : Z) (p : proc) : bool := (x =? -1) || (pid p =? x).

(** What wait and waitpid do when the scan finds no zombie: return -1, or
    sleep on the own entry. *)
Definition wait_idle (i : nat) (havekids : bool) (t : ptable) : option ptable :=
  p ← t !! i;
  if negb havekids || negb (killed p =? 0) then None else Some (alter (sleep_enter (proc_at i)) i t).

Definition procnum (t : ptable) : Z := Z.of_nat (length (filter (λ p, state p ≠ UNUSED) t)).
End code.

(** ** Runs of the table *)

(** A state of the table, and for each process that sleeps inside wait or
    waitpid the children it waits for. *)
Abbreviation waiting := (nat → option (proc → bool)).

Section steps.
Context (proc_at : nat → Z) (init : nat).

(** A new process: fork sets its parent before it becomes runnable. *)
Definition born (i : nat) (x : Z) (p : proc) : proc :=
  set_state RUNNABLE (p <| parent := Some i |> <| tk ::= task_alloc x |>).
(** What freeproc does to the fields of the table. *)
Definition freed (p : proc) : proc :=
  set_state UNUSED (set_pid 0 (p <| parent := None |> <| chan := 0 |> <| killed := 0 |> <| xstate := 0 |>)).

Definition runs (i : nat) (t : ptable) : Prop := ∃ p, t !! i = Some p ∧ state p = RUNNING.

Inductive ptable_step : ptable * waiting → ptable * waiting → Prop :=
| PWait i sel t t' W :
    runs i t → sel = any_kid ∨ (∃ x, sel = kid_pid x) → scan_kids i sel t = Kids true →
    wait_idle proc_at i true t = Some t' → ptable_step (t, W) (t', <[i := Some sel]> W)
| PSleep i c t W : runs i t → ptable_step (t, W) (alter (sleep_enter c) i t, W)
| PWakeup c t W : ptable_step (t, W) (wakeup c t, W)
| PKill x t W : ptable_step (t, W) ((kill x t).2, W)
| PRun i p t W :
    t !! i = Some p → state p = RUNNABLE →
    ptable_step (t, W) (alter (λ p, sleep_leave (set_state RUNNING p)) i t, <[i := None]> W)
| PYield i t W : runs i t → ptable_step (t, W) (alter (set_state RUNNABLE) i t, W)
| PWakeInit t W : ptable_step (t, W) (wakeup1 proc_at init t, W)
| PExit i par p status t W :
    (* the parent was read before its lock was taken: it is the parent, or the
       process has been given to init since *)
    i ≠ init → t !! i = Some p → state p = RUNNING → original_parent p = Some par ∨ parent p = Some init →
    ptable_step (t, W) (exit_rest proc_at i par init status t, W)
| PFork i j x p t W :
    runs i t → t !! j = Some p → state p = UNUSED → ptable_step (t, W) (alter (born i x) j t, W)
| PReap i sel j t W :
    runs i t → scan_kids i sel t = Zombie j → ptable_step (t, W) (alter freed j t, W).

(** A process asleep in wait sleeps on its own entry, and none of the children
    it waits for is a zombie. *)
Definition wait_ok (t : ptable) (W : waiting) : Prop :=
  (∀ i p, t !! i = Some p → state p = RUNNING → W i = None) ∧
  ∀ i p sel, i ≠ init → t !! i = Some p → state p = SLEEPING → W i = Some sel →
    chan p = proc_at i ∧ (sel = any_kid ∨ ∃ x, sel = kid_pid x) ∧
    ∀ j q, t !! j = Some q → is_kid i sel q = true → state q ≠ ZOMBIE.

(** A change of an entry that starts no sleep, makes no zombie and gives no
    zombie to another process than init. *)
Definition quiet (p p' : proc) : Prop :=
  (state p' = RUNNING → state p = RUNNING) ∧
  (state p' = SLEEPING → state p = SLEEPING ∧ chan p' = chan p) ∧
  (state p' = ZOMBIE → state p = ZOMBIE ∧ pid p' = pid p ∧ (parent p' = parent p ∨ parent p' = Some init)).

Lemma quiet_refl p : quiet p p.
Proof. split; [done|]. split; [done|]. intros H. split; [done|]. split; [done|by left]. Qed.

(** The children a process waits for depend on their pid and parent only. *)
Lemma is_kid_ext i sel p q :
  sel = any_kid ∨ (∃ x, sel = kid_pid x) → parent p = parent q → pid p = pid q → is_kid i sel p = is_kid i sel q.
Proof. intros [->|(x & ->)] E1 E2; unfold is_kid, any_kid, kid_pid; by rewrite E1, ?E2. Qed.

Lemma is_kid_parent i sel p : is_kid i sel p = true → parent p = Some i.
Proof. unfold is_kid. intros [H%bool_decide_eq_true _]%andb_prop. done. Qed.

Lemma wait_ok_quiet t t' W :
  wait_ok t W → (∀ j q', t' !! j = Some q' → ∃ q, t !! j = Some q ∧ quiet q q') → wait_ok t' W.
Proof.
  intros [H1 H2] Hq. split.
  - intros i p' Hi Hs. destruct (Hq _ _ Hi) as (p & Hp & Hr & _ & _). eauto.
  - intros i p' sel Hne Hi Hs HW. destruct (Hq _ _ Hi) as (p & Hp & _ & Hsl & _). destruct (Hsl Hs) as [Hsp ->].
    destruct (H2 i p sel Hne Hp Hsp HW) as (Hc & Hsel & Hz). split; [done|]. split; [done|].
    intros j q' Hj Hk Hzq. destruct (Hq _ _ Hj) as (q & Hq' & _ & _ & Hzz). destruct (Hzz Hzq) as (Hzq' & Hpid & Hpar).
    apply (Hz j q Hq'); [|done]. destruct Hpar as [Hpar|Hpar].
    + by rewrite <-(is_kid_ext i sel q' q).
    + apply is_kid_parent in Hk. congruence.
Qed.

Lemma quiet_alter (t : ptable) f j : (∀ q, t !! j = Some q → quiet q (f q)) →
  ∀ k q', alter f j t !! k = Some q' → ∃ q, t !! k = Some q ∧ quiet q q'.
Proof.
  intros Hf k q'. destruct (decide (k = j)) as [->|].
  - rewrite list_lookup_alter_eq. destruct (t !! j) as [q|]; [|done]. intros [= <-]. exists q. split; [done|by apply Hf].
  - rewrite list_lookup_alter_ne by done. intros H. exists q'. split; [exact H|apply quiet_refl].
Qed.

Lemma quiet_fmap (t : ptable) f : (∀ q, quiet q (f q)) → ∀ k q', (f <$> t) !! k = Some q' → ∃ q, t !! k = Some q ∧ quiet q q'.
Proof. intros Hf k q' (q & -> & Hq)%list_lookup_fmap_Some_1. eauto. Qed.

Lemma quiet_wake c p : quiet p (wake c p).
Proof. unfold wake. destruct (sleeps_on c p); [by unfold quiet|apply quiet_refl]. Qed.

Lemma quiet_kill p : quiet p (kill_one p).
Proof. unfold kill_one. case_bool_decide; [by unfold quiet|]. split; [done|]. split; [done|].
  intros H'. split; [done|]. split; [done|by left].
Qed.

Lemma quiet_adopt i p : quiet p (adopt i (Some init) p).
Proof.
  unfold adopt. case_bool_decide; [|apply quiet_refl]. split; [done|]. split; [done|].
  intros H'. split; [done|]. split; [done|by right].
Qed.
End steps.

Lemma scan_kids_none i sel t b j q :
  scan_kids i sel t = Kids b → t !! j = Some q → is_kid i sel q = true → state q ≠ ZOMBIE.
Proof.
  unfold scan_kids. destruct (findi _ t) eqn:E; [done|]. intros _ Hj Hk Hz.
  rewrite findi_None in E. specialize (E _ _ Hj). cbn in E. rewrite Hk, (bool_decide_eq_true_2 _ Hz) in E. done.
Qed.

Section invariant.
Context (proc_at : nat → Z) (init : nat).

Lemma wake_woken c p : state (wake c p) = SLEEPING → chan (wake c p) ≠ c.
Proof.
  unfold wake, sleeps_on. destruct (_ && _) eqn:E; [done|]. intros Hs Hc. rewrite (bool_decide_eq_true_2 _ Hs) in E.
  cbn in E. lia.
Qed.

Lemma wake_parent c p : parent (wake c p) = parent p.
Proof. unfold wake. by destruct (sleeps_on c p). Qed.

(** The entry of a process that becomes a zombie. *)
Lemma wait_ok_zombie t W i status :
  wait_ok proc_at init t W →
  (∀ p k q, t !! i = Some p → parent p = Some k → k ≠ init → t !! k = Some q → state q = SLEEPING → chan q ≠ proc_at k) →
  wait_ok proc_at init (alter (λ p, set_state ZOMBIE (p <| xstate := status |>)) i t) W.
Proof.
  intros [H1 H2] Hpar. split.
  - intros k p. destruct (decide (k = i)) as [->|]; [|rewrite list_lookup_alter_ne by done; eauto].
    rewrite list_lookup_alter_eq. destruct (t !! i); [|done]. by intros [= <-].
  - intros k p sel Hne. destruct (decide (k = i)) as [->|Hki].
    { rewrite list_lookup_alter_eq. destruct (t !! i); [|done]. by intros [= <-]. }
    rewrite list_lookup_alter_ne by done. intros Hk Hs HW. destruct (H2 k p sel Hne Hk Hs HW) as (Hc & Hsel & Hz).
    split; [done|]. split; [done|]. intros j q. destruct (decide (j = i)) as [->|]; [|rewrite list_lookup_alter_ne by done; eauto].
    rewrite list_lookup_alter_eq. destruct (t !! i) as [x|] eqn:Ei; [|done]. intros [= <-] Hkid%is_kid_parent _.
    by apply (Hpar x k p eq_refl Hkid Hne Hk Hs).
Qed.

Lemma wait_ok_exit t W i par p status :
  wait_ok proc_at init t W → t !! i = Some p → original_parent p = Some par ∨ parent p = Some init →
  wait_ok proc_at init (exit_rest proc_at i par init status t) W.
Proof.
  intros H Hp Hpar. unfold exit_rest. set (t2 := reparent i (Some init) t).
  assert (wait_ok proc_at init t2 W) as H2.
  { eapply wait_ok_quiet; [exact H|]. refine (quiet_fmap init _ _ _). apply quiet_adopt. }
  apply wait_ok_zombie.
  { eapply wait_ok_quiet; [exact H2|]. refine (quiet_alter init _ _ _ _). intros. apply quiet_wake. }
  intros x k q Hx Hk Hne Hq Hs.
  assert (parent p = Some k) as Hpk.
  { unfold wakeup1 in Hx. assert (∃ y, t2 !! i = Some y ∧ parent y = Some k) as (y & Hy & Hyk).
    { destruct (decide (i = par)) as [->|]; [|rewrite list_lookup_alter_ne in Hx by done; eauto].
      rewrite list_lookup_alter_eq in Hx. destruct (t2 !! par) as [y|]; [|done]. injection Hx as <-.
      rewrite wake_parent in Hk. eauto. }
    unfold t2, reparent in Hy. rewrite list_lookup_fmap, Hp in Hy. injection Hy as <-. unfold adopt in Hyk.
    case_bool_decide; [|done]. cbn in Hyk. congruence. }
  destruct Hpar as [Hpar|]; [|congruence].
  unfold original_parent in Hpar. rewrite Hpk in Hpar. cbn in Hpar. simplify_eq.
  unfold wakeup1 in Hq. rewrite list_lookup_alter_eq in Hq. destruct (t2 !! par) as [y|]; [|done]. injection Hq as <-.
  by apply wake_woken.
Qed.

Lemma wait_ok_sleep t W i c :
  wait_ok proc_at init t W → runs i t → wait_ok proc_at init (alter (sleep_enter c) i t) W.
Proof.
  intros [H1 H2] (p & Hp & Hrun). pose proof (H1 i p Hp Hrun) as HW. split.
  - intros k x. destruct (decide (k = i)) as [->|]; [done|]. rewrite list_lookup_alter_ne by done. eauto.
  - intros k x sel Hne. destruct (decide (k = i)) as [->|]; [congruence|]. rewrite list_lookup_alter_ne by done.
    intros Hk Hs HWk. destruct (H2 k x sel Hne Hk Hs HWk) as (Hc & Hsel & Hz). split; [done|]. split; [done|].
    intros j q. destruct (decide (j = i)) as [->|]; [|rewrite list_lookup_alter_ne by done; eauto].
    rewrite list_lookup_alter_eq. destruct (t !! i); [|done]. by intros [= <-].
Qed.

Lemma wait_ok_wait t t' W i sel :
  wait_ok proc_at init t W → runs i t → sel = any_kid ∨ (∃ x, sel = kid_pid x) → scan_kids i sel t = Kids true →
  wait_idle proc_at i true t = Some t' → wait_ok proc_at init t' (<[i := Some sel]> W).
Proof.
  intros H Hrun Hsel Hscan E. pose proof (wait_ok_sleep t W i (proc_at i) H Hrun) as [H1 H2].
  destruct Hrun as (p & Hp & Hst). unfold wait_idle in E. rewrite Hp in E. cbn in E. destruct (negb _); [done|].
  injection E as <-. split.
  - intros k x. destruct (decide (k = i)) as [->|]; [|rewrite fn_lookup_insert_ne by done; eauto].
    rewrite list_lookup_alter_eq, Hp. by intros [= <-].
  - intros k x sel' Hne. destruct (decide (k = i)) as [->|]; [|rewrite fn_lookup_insert_ne by done; eauto].
    rewrite list_lookup_alter_eq, Hp, fn_lookup_insert. intros [= <-] _ [= <-]. split; [done|]. split; [done|].
    intros j q. destruct (decide (j = i)) as [->|].
    + rewrite list_lookup_alter_eq, Hp. by intros [= <-].
    + rewrite list_lookup_alter_ne by done. by apply scan_kids_none with (b := true).
Qed.

Lemma wait_ok_run t W i :
  wait_ok proc_at init t W →
  wait_ok proc_at init (alter (λ p, sleep_leave (set_state RUNNING p)) i t) (<[i := None]> W).
Proof.
  intros [H1 H2]. split.
  - intros k p. destruct (decide (k = i)) as [->|]; [by rewrite fn_lookup_insert|].
    rewrite fn_lookup_insert_ne, list_lookup_alter_ne by done. eauto.
  - intros k p sel Hne. destruct (decide (k = i)) as [->|]; [by rewrite fn_lookup_insert|].
    rewrite fn_lookup_insert_ne, list_lookup_alter_ne by done. intros Hk Hs HWk.
    destruct (H2 k p sel Hne Hk Hs HWk) as (Hc & Hsel & Hz). split; [done|]. split; [done|].
    intros j q. destruct (decide (j = i)) as [->|]; [|rewrite list_lookup_alter_ne by done; eauto].
    rewrite list_lookup_alter_eq. destruct (t !! i); [|done]. by intros [= <-].
Qed.

Lemma wait_ok_step tw tw' :
  wait_ok proc_at init tw.1 tw.2 → ptable_step proc_at init tw tw' → wait_ok proc_at init tw'.1 tw'.2.
Proof.
  intros H Hstep. destruct Hstep as [i sel t t' W Hr Hsel Hscan E|i c t W Hr|c t W|x t W|i p t W Hi Hs|i t W Hr
    |t W|i par p status t W Hne Hp Hs Hpar|i j x p t W Hr Hj Hs|i sel j t W Hr Hscan]; cbn in *.
  - by eapply wait_ok_wait.
  - by apply wait_ok_sleep.
  - eapply wait_ok_quiet; [exact H|]. refine (quiet_fmap init _ _ _). apply quiet_wake.
  - unfold kill. destruct (findi _ t); [|done]. eapply wait_ok_quiet; [exact H|]. refine (quiet_alter init _ _ _ _).
    intros. apply quiet_kill.
  - by eapply wait_ok_run.
  - eapply wait_ok_quiet; [exact H|]. refine (quiet_alter init _ _ _ _). intros q _. by unfold quiet.
  - eapply wait_ok_quiet; [exact H|]. refine (quiet_alter init _ _ _ _). intros. apply quiet_wake.
  - by eapply wait_ok_exit.
  - eapply wait_ok_quiet; [exact H|]. refine (quiet_alter init _ _ _ _). intros q _. by unfold quiet.
  - eapply wait_ok_quiet; [exact H|]. refine (quiet_alter init _ _ _ _). intros q _. by unfold quiet.
Qed.
End invariant.

(** The table when init is the only process. *)
Definition ptable_boot (init : nat) : ptable := <[init := set_pid 1 (set_state RUNNING proc0)]> (replicate NPROC proc0).

Lemma wait_ok_boot proc_at init : wait_ok proc_at init (ptable_boot init) (λ _, None).
Proof. split; done. Qed.

(** C22. No exit is missed by wait: in every interleaving of wait, waitpid,
    exit (whose parent may be exchanged for init between the moment it is read
    and the moment it is locked), fork, kill, sleep, wakeup and scheduling, a
    process other than init that sleeps in wait or waitpid has no zombie among
    the children it waits for.  (For init, which inherits zombies, it fails:
    [init_misses_exit].) *)
Theorem wait_misses_no_exit proc_at init t W i p sel j q :
  rtc (ptable_step proc_at init) (ptable_boot init, λ _, None) (t, W) →
  i ≠ init → t !! i = Some p → state p = SLEEPING → W i = Some sel →
  t !! j = Some q → is_kid i sel q = true → state q ≠ ZOMBIE.
Proof.
  intros Hreach Hne Hi Hs HW Hj Hk.
  assert (wait_ok proc_at init (t, W).1 (t, W).2) as [_ H].
  { eapply (rtc_invariant _ (λ tw, wait_ok proc_at init tw.1 tw.2)); [apply wait_ok_step| |exact Hreach].
    apply wait_ok_boot. }
  by apply (H i p sel Hne Hi Hs HW) with (j := j).
Qed.

(** ** Runs *)

Section run.
Definition at_ex (i : nat) : Z := 0x80010000 + 1000 * Z.of_nat i.
Abbreviation step := (ptable_step at_ex 0).

(** A step that changes the table only. *)
Definition go (f : ptable → ptable) (tw : ptable * waiting) : ptable * waiting := (f tw.1, tw.2).

Definition fork_ex (i j : nat) (x : Z) : ptable → ptable := alter (born i x) j.
Definition run_ex (i : nat) (tw : ptable * waiting) : ptable * waiting :=
  (alter (λ p, sleep_leave (set_state RUNNING p)) i tw.1, <[i := None]> tw.2).

Lemma fork_step i j x t W : runs i t → (∃ p, t !! j = Some p ∧ state p = UNUSED) → step (t, W) (fork_ex i j x t, W).
Proof. intros Hr (p & Hp & Hs). by eapply PFork. Qed.

Lemma run_step i tw : (∃ p, tw.1 !! i = Some p ∧ state p = RUNNABLE) → step tw (run_ex i tw).
Proof. destruct tw as [t W]. intros (p & Hp & Hs). by eapply PRun. Qed.

(** init forks process 1, which forks process 2 and waits for it. *)
Definition tw_family : ptable * waiting :=
  run_ex 2 (go (fork_ex 1 2 3) (run_ex 1 (go (fork_ex 0 1 2) (ptable_boot 0, λ _, None)))).
Definition tw_waits : ptable * waiting :=
  (alter (sleep_enter (at_ex 1)) 1%nat tw_family.1, <[1%nat := Some any_kid]> tw_family.2).

Ltac entry := vm_compute; eexists; split; reflexivity.

Lemma tw_waits_reach : rtc step (ptable_boot 0, λ _, None) tw_waits.
Proof.
  eapply rtc_l. { apply (fork_step 0 1 2); entry. }
  eapply rtc_l. { apply (run_step 1); entry. }
  eapply rtc_l. { apply (fork_step 1 2 3); entry. }
  eapply rtc_l. { apply (run_step 2); entry. }
  eapply rtc_l; [|apply rtc_refl].
  apply (PWait at_ex 0 1 any_kid); [entry|by left|vm_compute; reflexivity|vm_compute; reflexivity].
Qed.

Lemma wait_misses_no_exit_witness :
  (state <$> tw_waits.1 !! 1%nat) = Some SLEEPING ∧
  ∃ q, tw_waits.1 !! 2%nat = Some q ∧ is_kid 1 any_kid q = true ∧ state q ≠ ZOMBIE.
Proof.
  split; [vm_compute; reflexivity|]. eexists. split; [vm_compute; reflexivity|]. split; [vm_compute; reflexivity|].
  refine (wait_misses_no_exit at_ex 0 tw_waits.1 tw_waits.2 1 (default proc0 (tw_waits.1 !! 1%nat)) any_kid 2 _ _ _ _ _ _ _ _).
  - exact tw_waits_reach.
  - discriminate.
  - vm_compute. reflexivity.
  - vm_compute. reflexivity.
  - vm_compute. reflexivity.
  - vm_compute. reflexivity.
  - vm_compute. reflexivity.
Defined.

Definition exit_ex (i par : nat) : ptable → ptable := exit_rest at_ex i par 0 7.

Lemma exit_step i par t W :
  i ≠ 0%nat → (∃ p, t !! i = Some p ∧ state p = RUNNING ∧ original_parent p = Some par) → step (t, W) (exit_ex i par t, W).
Proof. intros Hi (p & Hp & Hs & Ho). by eapply PExit; [..|left]. Qed.

(** Process 3, a child of 2, a child of 1, a child of init, has exited.  Process
    2 exits: it wakes init; init finds no zombie and goes to sleep; then 2 gives
    the zombie to init and wakes its own parent. *)
Definition tw_line : ptable * waiting :=
  go (exit_ex 3 2) (run_ex 3 (go (fork_ex 2 3 4) tw_family)).
Definition tw_init_waits : ptable * waiting :=
  (alter (sleep_enter (at_ex 0)) 0%nat (wakeup1 at_ex 0 tw_line.1), <[0%nat := Some any_kid]> tw_line.2).

(** init can sleep in wait while it has a zombie child. *)
Theorem init_misses_exit :
  ∃ t W p q, rtc step (ptable_boot 0, λ _, None) (t, W) ∧ t !! 0%nat = Some p ∧ state p = SLEEPING ∧ W 0%nat = Some any_kid ∧
    t !! 3%nat = Some q ∧ is_kid 0 any_kid q = true ∧ state q = ZOMBIE.
Proof.
  exists (exit_ex 2 1 tw_init_waits.1), tw_init_waits.2. eexists _, _. split; [|vm_compute; split_and!; reflexivity].
  eapply rtc_l. { apply (fork_step 0 1 2); entry. }
  eapply rtc_l. { apply (run_step 1); entry. }
  eapply rtc_l. { apply (fork_step 1 2 3); entry. }
  eapply rtc_l. { apply (run_step 2); entry. }
  eapply rtc_l. { apply (fork_step 2 3 4); entry. }
  eapply rtc_l. { apply (run_step 3); entry. }
  eapply rtc_l. { apply (exit_step 3 2); [done|]. vm_compute. eexists. split_and!; reflexivity. }
  eapply rtc_l. { apply PWakeInit. }
  eapply rtc_l. { apply (PWait at_ex 0 0 any_kid); [entry|by left|vm_compute; reflexivity|vm_compute; reflexivity]. }
  eapply rtc_l; [|apply rtc_refl]. apply (exit_step 2 1); [done|]. vm_compute. eexists. split_and!; reflexivity.
Qed.
End run.
