(* ===== verification/Freezer.v ===== *)
(** * freezer.c: freezing and thawing processes

    The flags are fields of the process table of [Proc]; the freezer keeps a
    table of records and counters.  [ticks] is the clock at a call.  A call
    takes the lock of a process and the lock of the freezer one after the
    other; here it is one step. *)

From S2P Require Import Prelude ProcTable Sched Proc.

Definition FREEZE_STATE_THAWED : Z := 0.
Definition FREEZE_STATE_FROZEN : Z := 2.
Definition FREEZE_REASON_LOWMEM : Z := 3.
Definition FREEZE_REASON_CGROUP : Z := 5.
Definition FREEZE_PRIO_CRITICAL : Z := 0.
Definition FREEZE_PRIO_BACKGROUND : Z := 4.
Definition FREEZE_PRIO_CACHED : Z := 5.
Definition MAX_FROZEN_PROCS : nat := 32.

Record frozen_proc := FrozenProc {
  r_used : bool;
  r_pid : Z;
  r_state : Z;
  r_reason : Z;
  r_prio : Z;
  freeze_time : Z;
  thaw_time : Z;
  frozen_duration : Z;
}.
#[export] Instance frozen_proc_fields : Fields frozen_proc := λ r,
  FrozenProc (r_used r) (r_pid r) (r_state r) (r_reason r) (r_prio r) (freeze_time r) (thaw_time r) (frozen_duration r).
Definition record0 : frozen_proc := FrozenProc false 0 0 0 0 0 0 0.

Record freezer := Freezer {
  records : list frozen_proc;
  frozen_count : Z;
  auto_freeze_enabled : Z;
  auto_freeze_threshold : Z;
  freeze_timeout : Z;
  total_freezes : Z;
  total_thaws : Z;
  total_frozen_time : Z;
  oom_freezes : Z;
  fz_procs : ptable;
}.
#[export] Instance freezer_fields : Fields freezer := λ s,
  Freezer (records s) (frozen_count s) (auto_freeze_enabled s) (auto_freeze_threshold s) (freeze_timeout s)
    (total_freezes s) (total_thaws s) (total_frozen_time s) (oom_freezes s) (fz_procs s).

Definition freezer_init (t : ptable) : freezer := Freezer (replicate MAX_FROZEN_PROCS record0) 0 1 80 3000 0 0 0 0 t.

Definition live (p : proc) : bool := negb (bool_decide (state p = UNUSED)).
Definition is_frozen_flag (p : proc) : bool := negb (frozen (sv p) =? 0).
Definition find_live (x : Z) (t : ptable) : option nat := findi (λ p, (pid p =? x) && live p) t.

Definition find_frozen_record (x : Z) (s : freezer) : option nat := findi (λ r, r_used r && (r_pid r =? x)) (records s).
Definition alloc_frozen_record (s : freezer) : option nat := findi (λ r, negb (r_used r)) (records s).

(** ** Freezing and thawing *)

Definition freeze_flag (reason : Z) (p : proc) : proc :=
  p <| sv ::= λ v, v <| frozen := 1 |> <| freeze_reason := reason |> |>.
Definition thaw_flag (p : proc) : proc := p <| sv ::= λ v, v <| frozen := 0 |> <| freeze_reason := 0 |> |>.

Definition record_freeze (x reason ticks : Z) (s : freezer) : freezer :=
  let slot := match find_frozen_record x s with Some i => Some i | None => alloc_frozen_record s end in
  let s := match slot with
           | Some i =>
               s <| records ::= alter (λ r, r <| r_used := true |> <| r_pid := x |> <| r_state := FREEZE_STATE_FROZEN |>
                                              <| r_reason := reason |> <| freeze_time := ticks |>) i |>
                 <| frozen_count ::= λ n, i32 (n + 1) |>
           | None => s
           end in
  let s := s <| total_freezes ::= λ n, u64 (n + 1) |> in
  if reason =? FREEZE_REASON_LOWMEM then s <| oom_freezes ::= λ n, u64 (n + 1) |> else s.

Definition freeze_process (x reason ticks : Z) (s : freezer) : Z * freezer :=
  match find_live x (fz_procs s) with
  | None => (-1, s)
  | Some i =>
      if is_frozen_flag (default Proc.proc0 (fz_procs s !! i)) then (0, s)
      else if x =? 1 then (-1, s)
      else (0, record_freeze x reason ticks (s <| fz_procs ::= alter (freeze_flag reason) i |>))
  end.

Definition record_thaw (x ticks : Z) (s : freezer) : freezer :=
  let s := match find_frozen_record x s with
           | Some i =>
               let elapsed := u64 (ticks - freeze_time (default record0 (records s !! i))) in
               s <| records ::= alter (λ r, r <| thaw_time := ticks |> <| frozen_duration ::= λ n, u64 (n + elapsed) |>
                                              <| r_state := FREEZE_STATE_THAWED |> <| r_used := false |>) i |>
                 <| total_frozen_time ::= λ n, u64 (n + elapsed) |> <| frozen_count ::= λ n, i32 (n - 1) |>
           | None => s
           end in
  s <| total_thaws ::= λ n, u64 (n + 1) |>.

Definition thaw_process (x ticks : Z) (s : freezer) : Z * freezer :=
  match find_live x (fz_procs s) with
  | None => (-1, s)
  | Some i =>
      if negb (is_frozen_flag (default Proc.proc0 (fz_procs s !! i))) then (0, s)
      else (0, record_thaw x ticks (s <| fz_procs ::= alter thaw_flag i |>))
  end.

(** The loop [for (p = proc; p < &proc[NPROC]; p++) if (sel p && call(p->pid) == 0) count++]. *)
Fixpoint count_procs (sel : proc → bool) (call : Z → freezer → Z * freezer) (i n : nat) (s : freezer) : Z * freezer :=
  match n with
  | O => (0, s)
  | S n' =>
      let p := default Proc.proc0 (fz_procs s !! i) in
      if sel p then
        let '(r, s) := call (pid p) s in
        let '(c, s) := count_procs sel call (S i) n' s in
        ((if r =? 0 then 1 else 0) + c, s)
      else count_procs sel call (S i) n' s
  end.

Definition in_group (x : Z) (p : proc) : bool := live p && (cgroup_id (sv p) =? x).
Definition freeze_cgroup (x ticks : Z) (s : freezer) : Z * freezer :=
  count_procs (in_group x) (λ p, freeze_process p FREEZE_REASON_CGROUP ticks) 0 NPROC s.
Definition thaw_cgroup (x ticks : Z) (s : freezer) : Z * freezer :=
  count_procs (λ p, in_group x p && is_frozen_flag p) (λ p, thaw_process p ticks) 0 NPROC s.

(** ** Priorities and automatic freezing *)

Definition freeze_set_priority (x prio : Z) (s : freezer) : Z * freezer :=
  if (prio <? FREEZE_PRIO_CRITICAL) || (FREEZE_PRIO_CACHED <? prio) then (-1, s)
  else match find_live x (fz_procs s) with
  | Some i => (0, s <| fz_procs ::= alter (λ p, p <| sv ::= λ v, v <| freeze_prio := prio |> |>) i |>)
  | None => (-1, s)
  end.

Definition expendable (prio : Z) (p : proc) : bool := live p && negb (is_frozen_flag p) && (prio <=? freeze_prio (sv p)).
Definition auto_pass (prio ticks : Z) (s : freezer) : Z * freezer :=
  count_procs (expendable prio) (λ p, freeze_process p FREEZE_REASON_LOWMEM ticks) 0 NPROC s.
Definition auto_freeze_background (ticks : Z) (s : freezer) : Z * freezer :=
  if auto_freeze_enabled s =? 0 then (0, s)
  else
    let '(n1, s) := auto_pass FREEZE_PRIO_CACHED ticks s in
    let '(n2, s) := auto_pass FREEZE_PRIO_BACKGROUND ticks s in
    (n1 + n2, s).

Definition is_frozen (x : Z) (s : freezer) : Z :=
  match find_live x (fz_procs s) with
  | Some i => frozen (sv (default Proc.proc0 (fz_procs s !! i)))
  | None => 0
  end.
Definition freezer_set_auto (b : Z) (s : freezer) : Z * freezer := (0, s <| auto_freeze_enabled := b |>).
Definition freezer_set_timeout (t : Z) (s : freezer) : Z * freezer :=
  if t <? 0 then (-1, s) else (0, s <| freeze_timeout := t |>).

(** ** What the loops do to the table

    Live processes have different pids. *)

Definition pids_distinct (t : ptable) : Prop :=
  ∀ i j p q, t !! i = Some p → t !! j = Some q → live p = true → live q = true → pid p = pid q → i = j.

Lemma find_live_at t i p : pids_distinct t → t !! i = Some p → live p = true → find_live (pid p) t = Some i.
Proof.
  intros Hd Hp Hl. destruct (findi_is_Some (λ q, (pid q =? pid p) && live q) t i p Hp) as [j Hj]; [by rewrite Z.eqb_refl, Hl|].
  unfold find_live. rewrite Hj. apply findi_lookup in Hj as (q & Hq & [E%Z.eqb_eq Hlq]%andb_prop). f_equal.
  by apply (Hd j i q p).
Qed.

(** A change of flags keeps pid and liveness. *)
Definition keeps_id (f : proc → proc) : Prop := ∀ p, pid (f p) = pid p ∧ live (f p) = live p.

Lemma pids_distinct_alter t f i : keeps_id f → pids_distinct t → pids_distinct (alter f i t).
Proof.
  intros Hf Hd. assert (∀ j q, alter f i t !! j = Some q → ∃ p, t !! j = Some p ∧ pid q = pid p ∧ live q = live p) as Hback.
  { intros j q. destruct (decide (j = i)) as [->|]; [|rewrite list_lookup_alter_ne by done; eauto].
    rewrite list_lookup_alter_eq. destruct (t !! i) as [p|]; [|done]. intros [= <-]. exists p. by destruct (Hf p) as [-> ->]. }
  intros j k p q (p' & Hp & -> & ->)%Hback (q' & Hq & -> & ->)%Hback. by apply Hd.
Qed.

Section loop.
Context (sel : proc → bool) (call : Z → freezer → Z * freezer) (res : proc → Z) (act : proc → proc).
Hypothesis sel_live : ∀ p, sel p = true → live p = true.
Hypothesis act_id : keeps_id act.
Hypothesis call_spec : ∀ s i p, pids_distinct (fz_procs s) → fz_procs s !! i = Some p → live p = true →
  (call (pid p) s).1 = res p ∧ fz_procs (call (pid p) s).2 = alter act i (fz_procs s).

Lemma count_procs_spec n : ∀ i s, pids_distinct (fz_procs s) → (i + n = length (fz_procs s))%nat →
  (count_procs sel call i n s).1 = tally (λ p, sel p && (res p =? 0)) (drop i (fz_procs s)) ∧
  fz_procs (count_procs sel call i n s).2 = take i (fz_procs s) ++ ((λ p, if sel p then act p else p) <$> drop i (fz_procs s)).
Proof.
  induction n as [|n IH]; intros i s Hd Hi; cbn [count_procs].
  { rewrite drop_ge, take_ge by lia. cbn. by rewrite app_nil_r. }
  destruct (lookup_lt_is_Some_2 (fz_procs s) i) as [p Hp]; [lia|]. rewrite Hp. cbn [default from_option id].
  rewrite (drop_S _ _ _ Hp), fmap_cons. cbn [tally]. destruct (sel p) eqn:Es.
  - destruct (call_spec s i p Hd Hp (sel_live p Es)) as [Hr Hs]. destruct (call (pid p) s) as [r s'] eqn:Ec. cbn in Hr, Hs.
    destruct (IH (S i) s') as [H1 H2].
    { rewrite Hs. by apply pids_distinct_alter. }
    { rewrite Hs, length_alter. lia. }
    destruct (count_procs sel call (S i) n s') as [c s'']. cbn [fst snd] in *.
    rewrite (alter_insert_eq _ _ _ _ Hp) in Hs. rewrite Hs, drop_insert_lt in H1, H2 by lia. subst r c. split; [done|].
    rewrite H2, (take_S_r _ i (act p)) by (apply list_lookup_insert_eq; lia). rewrite take_insert_ge, <-app_assoc by lia. done.
  - destruct (IH (S i) s Hd ltac:(lia)) as [H1 H2]. rewrite H1, H2, (take_S_r _ _ _ Hp), <-app_assoc. done.
Qed.
End loop.

Definition freeze_res (p : proc) : Z := if is_frozen_flag p then 0 else if pid p =? 1 then -1 else 0.
Definition freeze_act (reason : Z) (p : proc) : proc :=
  if is_frozen_flag p || (pid p =? 1) then p else freeze_flag reason p.

Lemma freeze_act_id reason : keeps_id (freeze_act reason).
Proof. intros p. unfold freeze_act. by destruct (_ || _). Qed.

Lemma record_freeze_procs x reason ticks s : fz_procs (record_freeze x reason ticks s) = fz_procs s.
Proof.
  unfold record_freeze. destruct (find_frozen_record x s); [|destruct (alloc_frozen_record s)]; by destruct (reason =? FREEZE_REASON_LOWMEM).
Qed.

Lemma alter_id_eq {A} (f : A → A) i (l : list A) x : l !! i = Some x → f x = x → alter f i l = l.
Proof. intros Hx Hf. rewrite (alter_insert_eq _ _ _ _ Hx), Hf. by apply list_insert_id. Qed.

Lemma freeze_process_spec reason ticks s i p :
  pids_distinct (fz_procs s) → fz_procs s !! i = Some p → live p = true →
  (freeze_process (pid p) reason ticks s).1 = freeze_res p ∧
  fz_procs (freeze_process (pid p) reason ticks s).2 = alter (freeze_act reason) i (fz_procs s).
Proof.
  intros Hd Hp Hl. unfold freeze_process. rewrite (find_live_at _ _ _ Hd Hp Hl), Hp. cbn [default from_option id].
  unfold freeze_res. destruct (is_frozen_flag p) eqn:Ef; [|destruct (pid p =? 1) eqn:E1].
  - split; [done|]. symmetry. apply (alter_id_eq _ _ _ _ Hp). unfold freeze_act. by rewrite Ef.
  - split; [done|]. symmetry. apply (alter_id_eq _ _ _ _ Hp). unfold freeze_act. by rewrite E1, orb_true_r.
  - split; [done|]. cbn [snd]. rewrite record_freeze_procs. cbn. rewrite !(alter_insert_eq _ _ _ _ Hp). unfold freeze_act.
    by rewrite Ef, E1.
Qed.

Lemma live_table_loop (sel : proc → bool) reason ticks s :
  (∀ p, sel p = true → live p = true) → pids_distinct (fz_procs s) → length (fz_procs s) = NPROC →
  let '(c, s') := count_procs sel (λ p, freeze_process p reason ticks) 0 NPROC s in
  c = tally (λ p, sel p && (freeze_res p =? 0)) (fz_procs s) ∧
  fz_procs s' = (λ p, if sel p then freeze_act reason p else p) <$> fz_procs s.
Proof.
  intros Hsel Hd Hlen. destruct (count_procs_spec sel (λ p, freeze_process p reason ticks) freeze_res (freeze_act reason)
    Hsel (freeze_act_id reason) (freeze_process_spec reason ticks) NPROC 0 s Hd ltac:(lia)) as [H1 H2].
  destruct (count_procs _ _ _ _ _) as [c s']. by rewrite drop_0 in H1, H2.
Qed.

(** The processes that automatic freezing takes. *)
Definition is_victim (p : proc) : bool := expendable FREEZE_PRIO_BACKGROUND p && negb (pid p =? 1).

(** The passes for cached and for background processes together. *)
Lemma two_passes p :
  let q := if expendable FREEZE_PRIO_CACHED p then freeze_act FREEZE_REASON_LOWMEM p else p in
  (if is_victim p then 1 else 0) =
    (if expendable FREEZE_PRIO_CACHED p && (freeze_res p =? 0) then 1 else 0) +
    (if expendable FREEZE_PRIO_BACKGROUND q && (freeze_res q =? 0) then 1 else 0) ∧
  (if expendable FREEZE_PRIO_BACKGROUND q then freeze_act FREEZE_REASON_LOWMEM q else q) =
    (if is_victim p then freeze_flag FREEZE_REASON_LOWMEM p else p).
Proof.
  unfold is_victim, expendable, freeze_act, freeze_res.
  assert (∀ r, live (freeze_flag r p) = live p ∧ is_frozen_flag (freeze_flag r p) = true) as Hf by done.
  destruct (Hf FREEZE_REASON_LOWMEM) as [Hl Hfr].
  destruct (live p) eqn:El, (is_frozen_flag p) eqn:Ef, (pid p =? 1) eqn:E1,
    (Z.leb_spec FREEZE_PRIO_CACHED (freeze_prio (sv p))), (Z.leb_spec FREEZE_PRIO_BACKGROUND (freeze_prio (sv p)));
    cbn [andb orb negb Z.eqb]; rewrite ?El, ?Ef, ?E1, ?Hl, ?Hfr; cbn [andb orb negb];
    unfold FREEZE_PRIO_CACHED, FREEZE_PRIO_BACKGROUND in *; try lia; try done;
    destruct (Z.leb_spec 4 (freeze_prio (sv p))); first [lia|done].
Qed.

(** Automatic freezing equals its specification: it freezes exactly the live
    processes other than init that are not frozen and have background priority
    or lower, with the reason LOWMEM, leaves every other process as it was, and
    returns how many it froze; nothing happens when it is disabled. *)
Theorem auto_freeze_correct ticks s :
  pids_distinct (fz_procs s) → length (fz_procs s) = NPROC →
  let '(n, s') := auto_freeze_background ticks s in
  if auto_freeze_enabled s =? 0 then n = 0 ∧ s' = s
  else n = tally is_victim (fz_procs s) ∧
       fz_procs s' = (λ p, if is_victim p then freeze_flag FREEZE_REASON_LOWMEM p else p) <$> fz_procs s.
Proof.
  intros Hd Hlen. unfold auto_freeze_background. destruct (auto_freeze_enabled s =? 0); [done|]. unfold auto_pass.
  assert (∀ prio p, expendable prio p = true → live p = true) as Hsel by (intros prio p [[? _]%andb_prop _]%andb_prop; done).
  pose proof (live_table_loop (expendable FREEZE_PRIO_CACHED) FREEZE_REASON_LOWMEM ticks s (Hsel _) Hd Hlen) as H1.
  destruct (count_procs _ _ _ _ s) as [n1 s1]. destruct H1 as [-> H1].
  pose proof (live_table_loop (expendable FREEZE_PRIO_BACKGROUND) FREEZE_REASON_LOWMEM ticks s1 (Hsel _)) as H2.
  destruct (count_procs _ _ _ _ s1) as [n2 s2]. destruct H2 as [-> H2].
  { rewrite H1. intros i j p q. rewrite !list_lookup_fmap. destruct (fz_procs s !! i) as [p0|] eqn:Ep; [|done].
    destruct (fz_procs s !! j) as [q0|] eqn:Eq; [|done]. intros [= <-] [= <-].
    assert (∀ x, pid (if expendable FREEZE_PRIO_CACHED x then freeze_act FREEZE_REASON_LOWMEM x else x) = pid x ∧
                 live (if expendable FREEZE_PRIO_CACHED x then freeze_act FREEZE_REASON_LOWMEM x else x) = live x) as Hid.
    { intros x. destruct (expendable _ x); [apply freeze_act_id|done]. }
    destruct (Hid p0) as [-> ->], (Hid q0) as [-> ->]. by apply Hd. }
  { by rewrite H1, length_fmap. }
  rewrite H1 in H2 |- *. rewrite tally_fmap. split.
  - symmetry. apply tally_add. intros x. apply two_passes.
  - rewrite H2, <-list_fmap_compose. apply list_fmap_ext. intros _ x _. apply two_passes.
Qed.

(** ** The records *)

Inductive fz_step (ticks : Z) : freezer → freezer → Prop :=
| FzFreeze x reason s : fz_step ticks s (freeze_process x reason ticks s).2
| FzThaw x s : fz_step ticks s (thaw_process x ticks s).2
| FzPriority x prio s : fz_step ticks s (freeze_set_priority x prio s).2
| FzAuto b s : fz_step ticks s (freezer_set_auto b s).2
| FzTimeout t s : fz_step ticks s (freezer_set_timeout t s).2.

Definition rec_used : list frozen_proc → Z := tally r_used.

Record fz_ok (s : freezer) : Prop := FzOk {
  fz_len : length (records s) = MAX_FROZEN_PROCS;
  fz_pids : pids_distinct (fz_procs s);
  fz_count : frozen_count s = rec_used (records s);
  fz_recs : ∀ i j r q, records s !! i = Some r → records s !! j = Some q → r_used r = true → r_used q = true →
              r_pid r = r_pid q → i = j;
  fz_flag : ∀ i r, records s !! i = Some r → r_used r = true →
              ∃ k p, fz_procs s !! k = Some p ∧ live p = true ∧ pid p = r_pid r ∧ is_frozen_flag p = true;
}.

Lemma find_live_lookup x t i : find_live x t = Some i → ∃ p, t !! i = Some p ∧ pid p = x ∧ live p = true.
Proof. intros (p & Hp & [E%Z.eqb_eq Hl]%andb_prop)%findi_lookup. eauto. Qed.

(** The invariant looks at three fields only. *)
Lemma fz_ok_ext s s' : fz_ok s → records s' = records s → frozen_count s' = frozen_count s → fz_procs s' = fz_procs s → fz_ok s'.
Proof. intros [H1 H2 H3 H4 H5] Er Ec Ep. split; by rewrite ?Er, ?Ec, ?Ep. Qed.

(** A change of one process that keeps its pid and does not thaw a process that
    has a record. *)
Lemma fz_ok_alter s i f :
  fz_ok s → keeps_id f →
  (∀ p r k, fz_procs s !! i = Some p → records s !! k = Some r → r_used r = true → r_pid r = pid p → live p = true →
     is_frozen_flag (f p) = true) →
  fz_ok (s <| fz_procs ::= alter f i |>).
Proof.
  intros [H1 H2 H3 H4 H5] Hf Hfl. split; cbn; [done|by apply pids_distinct_alter|done|done|].
  intros k r Hk Hu. destruct (H5 k r Hk Hu) as (j & p & Hp & Hl & Hpid & Hfz). destruct (decide (j = i)) as [->|Hne].
  - exists i, (f p). rewrite list_lookup_alter_eq, Hp. destruct (Hf p) as [-> ->]. split; [done|]. split; [done|]. split; [done|].
    by apply (Hfl p r k).
  - exists j, p. by rewrite list_lookup_alter_ne by done.
Qed.

Lemma freeze_ok x reason ticks s : fz_ok s → fz_ok (freeze_process x reason ticks s).2.
Proof.
  intros Hok. unfold freeze_process. destruct (find_live x (fz_procs s)) as [i|] eqn:Ei; [|done].
  apply find_live_lookup in Ei as (p & Hp & Hpid & Hl). rewrite Hp. cbn [default from_option id].
  destruct (is_frozen_flag p) eqn:Ef; [done|]. destruct (x =? 1); [done|]. cbn [snd].
  assert (∀ k r, records s !! k = Some r → r_used r = true → r_pid r ≠ x) as Hfresh.
  { intros k r Hk Hu E. destruct (fz_flag _ Hok k r Hk Hu) as (j & q & Hq & Hlq & Hpq & Hfq).
    assert (j = i) as -> by (apply (fz_pids _ Hok j i q p); congruence). congruence. }
  set (s1 := s <| fz_procs ::= alter (freeze_flag reason) i |>).
  assert (fz_ok s1) as Hok1 by (apply fz_ok_alter; done).
  assert (fz_procs s1 !! i = Some (freeze_flag reason p)) as Hp1 by (unfold s1; cbn; by rewrite list_lookup_alter_eq, Hp).
  assert (find_frozen_record x s1 = None) as En.
  { apply findi_None. intros k r Hk. change (records s1) with (records s) in Hk. specialize (Hfresh k r Hk).
    destruct (r_used r); [|done]. cbn. by apply Z.eqb_neq, Hfresh. }
  unfold record_freeze. rewrite En. destruct (alloc_frozen_record s1) as [k|] eqn:Ek.
  2: { destruct (reason =? _); by apply (fz_ok_ext s1). }
  apply findi_lookup in Ek as (r & Hr & Hu%negb_true_iff).
  match goal with |- context [alter ?f k] => set (g := f) end.
  set (s2 := s1 <| records ::= alter g k |> <| frozen_count ::= λ n, i32 (n + 1) |>).
  assert (fz_ok s2) as Hok2; [|destruct (reason =? _); by apply (fz_ok_ext s2)].
  assert (records s2 = <[k := g r]> (records s1)) as Er by (unfold s2; cbn; by apply alter_insert_eq).
  pose proof (tally_bound r_used (records s1)) as Hb. rewrite (fz_len _ Hok1) in Hb. change (Z.of_nat MAX_FROZEN_PROCS) with 32 in Hb.
  split.
  - by rewrite Er, length_insert, (fz_len _ Hok1).
  - apply (fz_pids _ Hok1).
  - rewrite Er. unfold rec_used. rewrite (tally_insert _ _ _ _ _ Hr), Hu.
    change (frozen_count s2) with (i32 (frozen_count s1 + 1)). change (r_used (g r)) with true.
    rewrite (fz_count _ Hok1). unfold rec_used. rewrite i32_small; lia.
  - rewrite Er. intros a b ra rb [(-> & <- & _)|[Ha Hra]]%list_lookup_insert_Some [(-> & <- & _)|[Hb' Hrb]]%list_lookup_insert_Some;
      [done| | |by apply (fz_recs _ Hok1)].
    + intros _ Hub E. by destruct (Hfresh b rb Hrb Hub).
    + intros Hua _ E. by destruct (Hfresh a ra Hra Hua).
  - rewrite Er. intros a ra [(-> & <- & _)|[Ha Hra]]%list_lookup_insert_Some Hua; [|by apply (fz_flag _ Hok1 a)].
    exists i, (freeze_flag reason p). split; [exact Hp1|]. done.
Qed.

Lemma thaw_ok x ticks s : fz_ok s → fz_ok (thaw_process x ticks s).2.
Proof.
  intros Hok. unfold thaw_process. destruct (find_live x (fz_procs s)) as [i|] eqn:Ei; [|done].
  apply find_live_lookup in Ei as (p & Hp & Hpid & Hl). destruct (negb _); [done|]. cbn [snd]. unfold record_thaw.
  set (s1 := s <| fz_procs ::= alter thaw_flag i |>).
  destruct (find_frozen_record x s1) as [k|] eqn:Ek.
  - apply findi_lookup in Ek as (r & Hr & [Hu Hx%Z.eqb_eq]%andb_prop). change (records s1) with (records s) in Hr.
    match goal with |- context [alter ?f k] => set (g := f) end.
    assert (alter g k (records s) = <[k := g r]> (records s)) as Er by (by apply alter_insert_eq).
    pose proof (tally_bound r_used (records s)) as Hb. rewrite (fz_len _ Hok) in Hb. change (Z.of_nat MAX_FROZEN_PROCS) with 32 in Hb.
    split; cbn; rewrite ?Er.
    + by rewrite length_insert, (fz_len _ Hok).
    + apply pids_distinct_alter; [done|apply (fz_pids _ Hok)].
    + unfold rec_used. rewrite (tally_insert _ _ _ _ _ Hr), Hu, (fz_count _ Hok). unfold rec_used.
      rewrite i32_small; [cbn; lia|]. lia.
    + intros a b ra rb [(-> & <- & _)|[Ha Hra]]%list_lookup_insert_Some [(-> & <- & _)|[Hb' Hrb]]%list_lookup_insert_Some;
        [done|done|done|by apply (fz_recs _ Hok)].
    + intros a ra [(-> & <- & _)|[Ha Hra]]%list_lookup_insert_Some Hua; [done|].
      destruct (fz_flag _ Hok a ra Hra Hua) as (j & q & Hq & Hlq & Hpq & Hfq). exists j, q.
      rewrite list_lookup_alter_ne; [done|]. intros ->. destruct Ha. symmetry. apply (fz_recs _ Hok a k ra r); try done. congruence.
  - apply (fz_ok_ext s1); [|done..]. apply fz_ok_alter; [done|done|]. intros q r k Hq Hk Hu E _. exfalso.
    unfold find_frozen_record in Ek. rewrite findi_None in Ek. specialize (Ek k r Hk). assert (q = p) as -> by congruence.
    rewrite Hu in Ek. cbn in Ek. apply Z.eqb_neq in Ek. congruence.
Qed.

Lemma fz_step_ok ticks s s' : fz_ok s → fz_step ticks s s' → fz_ok s'.
Proof.
  intros Hok Hs. destruct Hs as [x reason s|x s|x prio s|b s|t s].
  - by apply freeze_ok.
  - by apply thaw_ok.
  - unfold freeze_set_priority. destruct (_ || _); [done|]. destruct (find_live x (fz_procs s)) as [i|]; [|done].
    apply fz_ok_alter; [done|done|]. intros p r k Hp Hk Hu E Hl.
    destruct (fz_flag _ Hok k r Hk Hu) as (j & q & Hq & Hlq & Hpq & Hfq).
    assert (j = i) as -> by (apply (fz_pids _ Hok j i q p); congruence). assert (q = p) as -> by congruence. exact Hfq.
  - by apply (fz_ok_ext s).
  - unfold freezer_set_timeout. destruct (t <? 0); [done|]. by apply (fz_ok_ext s).
Qed.

(** The freezer's books, for a table whose live processes have different
    pids, after any sequence of calls at any times: [frozen_count] is the number
    of records in use, and the records in use name different live processes
    that are frozen. *)
Theorem freezer_invariant t s :
  pids_distinct t → rtc (λ s s', ∃ ticks, fz_step ticks s s') (freezer_init t) s →
  frozen_count s = tally r_used (records s) ∧ 0 ≤ frozen_count s ≤ 32 ∧
  (∀ i j r q, records s !! i = Some r → records s !! j = Some q → r_used r = true → r_used q = true →
     r_pid r = r_pid q → i = j) ∧
  (∀ i r, records s !! i = Some r → r_used r = true → is_frozen (r_pid r) s ≠ 0).
Proof.
  intros Hd Hr. assert (fz_ok s) as Hok.
  { eapply (rtc_invariant (λ s s', ∃ ticks, fz_step ticks s s') fz_ok); [|apply FzOk|exact Hr].
    - intros s0 s1 H0 [ticks Hs]. by eapply fz_step_ok.
    - reflexivity.
    - exact Hd.
    - reflexivity.
    - intros i j r q [-> _]%lookup_replicate_1. done.
    - intros i r [-> _]%lookup_replicate_1. done. }
  pose proof (tally_bound r_used (records s)) as Hb. rewrite (fz_len _ Hok) in Hb. change (Z.of_nat MAX_FROZEN_PROCS) with 32 in Hb.
  pose proof (fz_count _ Hok) as Hc. unfold rec_used in Hc. split; [done|]. split; [lia|]. split; [apply (fz_recs _ Hok)|].
  intros i r Hi Hu. destruct (fz_flag _ Hok i r Hi Hu) as (j & q & Hq & Hl & Hpid & Hf). unfold is_frozen.
  rewrite <-Hpid, (find_live_at _ _ _ (fz_pids _ Hok) Hq Hl), Hq. cbn. unfold is_frozen_flag in Hf. by apply negb_true_iff, Z.eqb_neq in Hf.
Qed.

(** ** A run *)

(** init and two background processes. *)
Definition fz_table : ptable :=
  (λ x, set_pid x (set_state RUNNABLE Proc.proc0 <| sv ::= λ v, v <| freeze_prio := 4 |> |>)) <$> [1; 2; 3].

Definition fz_full : ptable := fz_table ++ replicate 61 Proc.proc0.

Lemma fz_full_distinct : pids_distinct fz_full.
Proof.
  assert (∀ i p, fz_full !! i = Some p → live p = true → (i < 3)%nat ∧ pid p = Z.of_nat i + 1) as H.
  { intros i p Hi Hl. do 3 (destruct i as [|i]; [injection Hi as <-; split; [lia|reflexivity]|]).
    change (fz_full !! S (S (S i))) with (replicate 61 Proc.proc0 !! i) in Hi. apply lookup_replicate_1 in Hi as [-> _]. done. }
  intros i j p q Hi Hj Hp Hq E. destruct (H _ _ Hi Hp), (H _ _ Hj Hq). lia.
Qed.

Lemma auto_freeze_correct_witness :
  let '(n, s') := auto_freeze_background 7 (freezer_init fz_full) in
  n = 2 ∧ (is_frozen_flag <$> take 3 (fz_procs s')) = [false; true; true].
Proof.
  pose proof (auto_freeze_correct 7 (freezer_init fz_full) fz_full_distinct eq_refl) as H.
  destruct (auto_freeze_background 7 (freezer_init fz_full)) as [n s']. cbn [auto_freeze_enabled freezer_init Z.eqb] in H.
  destruct H as [-> H]. split; [vm_compute; reflexivity|]. rewrite H. vm_compute. reflexivity.
Defined.

Lemma freezer_invariant_witness :
  let s := (freeze_process 3 1 9 (freeze_process 2 1 8 (freezer_init fz_full)).2).2 in
  frozen_count s = tally r_used (records s) ∧ frozen_count s = 2.
Proof.
  intros s. split; [|vm_compute; reflexivity].
  refine (proj1 (freezer_invariant fz_full s fz_full_distinct _)).
  eapply rtc_l; [exists 8; apply (FzFreeze 8 2 1)|]. eapply rtc_l; [exists 9; apply (FzFreeze 9 3 1)|]. apply rtc_refl.
Defined.
