(* ===== verification/ProcLife.v ===== *)
(** * proc.c: creating and ending processes

    allocproc, freeproc, fork, exit, wait, waitpid, clone, join, growproc and
    userinit over the components they call: page tables and memory ([Vm]),
    shared memory ([ShareMem]), message queues ([MsgQueue]), open files and
    inodes ([File], [Fs]).  [me] is the index of the calling process.  A
    dereference of a null pointer by the kernel is the panic of kerneltrap. *)

From stdpp Require Import gmap.
From S2P Require Import Prelude Bytes BufCache Log LogDisk CString Pipe Fs PageAlloc Kalloc Memory Vm VmUser.
From S2P Require Import ProcTable Sched Proc MsgQueue ShareMem File.

Definition TRAPFRAME : Z := TRAMPOLINE - PGSIZE.
Definition KSTACK (i : nat) : Z := TRAMPOLINE - (Z.of_nat i + 1) * 2 * PGSIZE.

(** ** The kernel state *)

Record psys (C : Type) := Psys {
  procs : ptable;
  nextpid : Z;
  initproc : option nat;
  kmem : kstate;
  shms : list sharemem;
  mqst : mqstate;                       (* its memory and mask are set at each call *)
  fds : fdstate C;
}.
Arguments Psys {C} _ _ _ _ _ _ _.
Arguments procs {C} _.
Arguments nextpid {C} _.
Arguments initproc {C} _.
Arguments kmem {C} _.
Arguments shms {C} _.
Arguments mqst {C} _.
Arguments fds {C} _.
#[export] Instance psys_fields C : Fields (psys C) := λ s,
  Psys (procs s) (nextpid s) (initproc s) (kmem s) (shms s) (mqst s) (fds s).

Section code.
Context {C : Type} `{!BufCache C}.
Abbreviation Sys := (psys C).
Context (kend trampoline forkret : Z) (proc_at : nat → Z) (mmio : Z → Z).
Context (dev_write : Z → option (Z → Z → ST (fdstate C) Z)).
Context (sockwrite : Z → Z → Z → ST (fdstate C) Z) (sockclose : Z → ST (fdstate C) ()).

(** Runs code of a component on its part of the state. *)
Definition zoom {S T A : Type} (part : T → S) (put : S → T → T) (m : ST S A) : ST T A := λ s,
  match m (part s) with
  | Ret (a, x) => Ret (a, put x s)
  | Panic msg => Panic msg
  | Blocks => Blocks
  end.

Definition the_proc (i : nat) : ST Sys proc := gets (λ s, default Proc.proc0 (procs s !! i)).
Definition upd (i : nat) (f : proc → proc) : ST Sys () := modify (λ s, s <| procs ::= alter f i |>).

Definition on_memory {A} (m : ST kstate A) : ST Sys A := zoom kmem (λ k s, s <| kmem := k |>) m.

(** The variable [proc] of sharemem.c and messagequeue.c is the first entry of
    the table. *)
Definition shm_view (s : Sys) : shmstate :=
  let p := default Proc.proc0 (procs s !! 0%nat) in
  ShmState (shms s) (ShmProc (pagetable p) (sz p) (shm (com p)) (shmkeymask (com p)) (shmva (com p))) (kmem s).
Definition shm_put (x : shmstate) (s : Sys) : Sys :=
  s <| shms := shmtab x |> <| kmem := sm_mem x |>
    <| procs ::= alter (λ p, p <| com ::= λ c,
         c <| shm := p_shm (ShareMem.proc0 x) |> <| shmkeymask := p_shmkeymask (ShareMem.proc0 x) |>
           <| shmva := p_shmva (ShareMem.proc0 x) |> |>) 0%nat |>.
Definition on_shm {A} (m : ST shmstate A) : ST Sys A := zoom shm_view shm_put m.

Definition mq_view (s : Sys) : mqstate :=
  (mqst s) <| mqmask := ipc_mqmask (com (default Proc.proc0 (procs s !! 0%nat))) |> <| mq_mem := kmem s |>.
Definition mq_put (x : mqstate) (s : Sys) : Sys :=
  s <| mqst := x |> <| kmem := mq_mem x |>
    <| procs ::= alter (λ p, p <| com ::= λ c, c <| ipc_mqmask := mqmask x |> |>) 0%nat |>.
Definition on_mq {A} (m : ST mqstate A) : ST Sys A := zoom mq_view mq_put m.

(** User memory as the process sees it through its page table. *)
Definition user_view (k : kstate) (pt : Z) (a : Z) : option Z :=
  let pte := lpte k pt (PGROUNDDOWN a) in
  if has pte PTE_V && has pte PTE_U then Some (mget (PTE2PA pte + a mod PGSIZE) k) else None.

(** The file system as process [me] uses it. *)
Definition fd_view (me : nat) (s : Sys) : fdstate C :=
  let p := default Proc.proc0 (procs s !! me) in
  (fds s) <| fd_killed := negb (killed p =? 0) |>
    <| fd_fs ::= λ x, x <| cwd := default 0%nat (p_cwd p) |> <| mypid := pid p |> <| um := user_view (kmem s) (pagetable p) |> |>.
Definition on_fd {A} (me : nat) (m : ST (fdstate C) A) : ST Sys A := zoom (fd_view me) (λ x s, s <| fds := x |>) m.
Definition on_inodes {A} (me : nat) (m : ST (fstate (lstate C)) A) : ST Sys A := on_fd me (on_fs m).

(** ** Page tables of processes *)

Definition proc_pagetable (tf : Z) : ST kstate (option Z) :=
  r ← uvmcreate;
  match r with
  | None => mret None
  | Some pt =>
      m ← mappages pt TRAMPOLINE PGSIZE trampoline (Z.lor PTE_R PTE_X);
      if m <? 0 then _ ← uvmfree kend pt 0; mret None
      else
        m ← mappages pt TRAPFRAME PGSIZE tf (Z.lor PTE_R PTE_W);
        if m <? 0 then
          _ ← uvmunmap kend pt TRAMPOLINE 1 false;
          _ ← uvmfree kend pt 0;
          mret None
        else mret (Some pt)
  end.

Definition proc_freepagetable (pt size : Z) : ST kstate () :=
  _ ← uvmunmap kend pt TRAMPOLINE 1 false;
  _ ← uvmunmap kend pt TRAPFRAME 1 false;
  uvmfree kend pt size.

(** ** allocproc and freeproc *)

Definition allocpid : ST Sys Z :=
  s ← get;
  _ ← modify (λ s, s <| nextpid := i32 (nextpid s + 1) |>);
  mret (nextpid s).

(** shmrelease on the page table 0: the walk reads address 0 if there is a
    range to release. *)
Definition shmrelease_null (sh mask : Z) : ST Sys () :=
  if sh <? KERNBASE then panic "kerneltrap"
  else _ ← on_shm (shmrelease kend mmio 0 sh mask); mret ().

Definition clear_name (nm : list Z) : list Z := <[0%nat := 0]> nm.

Definition freeproc (i : nat) : ST Sys () :=
  p ← the_proc i;
  _ ← (if negb (trapframe p =? 0) then on_memory (kfree kend (trapframe p)) else mret ());
  _ ← upd i (λ p, p <| trapframe := 0 |>);
  _ ← (if negb (pagetable p =? 0) then on_memory (proc_freepagetable (pagetable p) (sz p)) else mret ());
  _ ← (if negb (alarm_trapframe p =? 0) then on_memory (kfree kend (alarm_trapframe p)) else mret ());
  _ ← upd i (λ p, set_state UNUSED (set_pid 0
        (p <| alarm_trapframe := 0 |> <| pagetable := 0 |> <| sz := 0 |> <| parent := None |>
           <| name ::= clear_name |> <| chan := 0 |> <| killed := 0 |> <| xstate := 0 |>
           <| alm := Alarm 0 0 0 0 |>)));
  _ ← shmrelease_null (shm (com p)) (shmkeymask (com p));
  upd i (λ p, p <| com ::= λ c, c <| shm := KERNBASE |> <| shmkeymask := 0 |> |>).

(** What allocproc assigns before and after it has the trap frames. *)
Definition alloc_first (x : Z) (p : proc) : proc :=
  set_pid x (p <| com ::= λ c, c <| ipc_mqmask := 0 |> <| shm := KERNBASE |> <| shmkeymask := 0 |> |>
               <| tk ::= λ t, t <| priority := 10 |> |> <| times := (0, 0, 10) |> <| trace_mask := 0 |>).
Definition alloc_second (p : proc) : proc :=
  p <| alm := Alarm 0 0 0 0 |> <| cr := Creds 0 0 18 (pid p) (pid p) |>
    <| sig := Signals 0 (replicate 32 0) 0 |> <| tk ::= task_alloc (pid p) |>
    <| sv := Services 0 0 0 0xFFFFFFFF 0 0xFFFFFFFF 0xFF (-1) (-1) 0 0 4 0 |>.
Definition alloc_third (p : proc) : proc :=
  p <| context := [forkret; u64 (kstack p + PGSIZE)] ++ replicate 12 0 |> <| vma := replicate NVMA vma0 |>.

Definition allocproc : ST Sys (option nat) :=
  s ← get;
  match findi (λ p, bool_decide (state p = UNUSED)) (procs s) with
  | None => mret None
  | Some i =>
      x ← allocpid;
      _ ← upd i (alloc_first x);
      tf ← on_memory kalloc;
      _ ← upd i (λ p, p <| trapframe := default 0 tf |>);
      match tf with
      | None => mret None
      | Some tf =>
          af ← on_memory kalloc;
          _ ← upd i (λ p, p <| alarm_trapframe := default 0 af |>);
          match af with
          | None => mret None
          | Some _ =>
              _ ← upd i alloc_second;
              pt ← on_memory (proc_pagetable tf);
              _ ← upd i (λ p, p <| pagetable := default 0 pt |>);
              match pt with
              | None => _ ← freeproc i; mret None
              | Some _ => _ ← upd i alloc_third; mret (Some i)
              end
          end
      end
  end.

(** ** Set-up *)

(** procinit, for the entries from [i] on; [kpt] is the kernel page table. *)
Definition procinit_one (kpt : Z) (i : nat) : ST Sys () :=
  r ← on_memory kalloc;
  match r with
  | None => panic "kalloc"
  | Some pa =>
      _ ← on_memory (kvmmap kpt (KSTACK i) pa PGSIZE (Z.lor PTE_R PTE_W));
      upd i (λ p, p <| kstack := KSTACK i |>)
  end.
Definition procinit (kpt : Z) : ST Sys () := for_loop 0 NPROC (procinit_one kpt).

Definition initcode : list Z :=
  [0x17; 0x05; 0x00; 0x00; 0x13; 0x05; 0x45; 0x02; 0x97; 0x05; 0x00; 0x00; 0x93; 0x85; 0x35; 0x02;
   0x93; 0x08; 0x70; 0x00; 0x73; 0x00; 0x00; 0x00; 0x93; 0x08; 0x20; 0x00; 0x73; 0x00; 0x00; 0x00;
   0xef; 0xf0; 0x9f; 0xff; 0x2f; 0x69; 0x6e; 0x69; 0x74; 0x00; 0x00; 0x24; 0x00; 0x00; 0x00; 0x00;
   0x00; 0x00; 0x00; 0x00].

(** safestrcpy between the 16-byte name arrays of two processes. *)
Definition name_copy : list Z → list Z → list Z := safestrcpy_field 16.

(** Registers of a trap frame by their offset. *)
Definition tf_epc : Z := 24.
Definition tf_sp : Z := 48.
Definition tf_s0 : Z := 96.
Definition tf_a0 : Z := 112.
Definition tf_size : Z := 288.
Definition set_reg (tf off v : Z) : ST Sys () := on_memory (modify (mem_st 8 (tf + off) v)).

(** [namei("/")] is a parameter of the call: the addresses of its buffers and
    of the string. *)
Definition userinit (de nm path : Z) : ST Sys () :=
  r ← allocproc;
  _ ← modify (λ s, s <| initproc := r |>);
  match r with
  | None => panic "kerneltrap"
  | Some i =>
      p ← the_proc i;
      _ ← on_memory (uvminit (pagetable p) initcode (Z.of_nat (length initcode)));
      _ ← upd i (λ p, p <| sz := PGSIZE |>);
      _ ← set_reg (trapframe p) tf_epc 0;
      _ ← set_reg (trapframe p) tf_sp PGSIZE;
      _ ← upd i (λ p, p <| name := name_copy (name p) [105; 110; 105; 116; 99; 111; 100; 101; 0] |>);
      ip ← on_inodes i (namei de nm path);
      upd i (λ p, set_state RUNNABLE (p <| p_cwd := ip |>))
  end.

(** ** growproc: sizes are [uint] here *)

Definition growproc (me : nat) (n : Z) : ST Sys Z :=
  p ← the_proc me;
  let size := u32 (sz p) in
  if 0 <? n then
    r ← on_memory (uvmalloc kend (pagetable p) size (u32 (size + n)));
    if u32 r =? 0 then mret (-1)
    else _ ← upd me (λ p, p <| sz := u32 r |>); mret 0
  else if n <? 0 then
    r ← on_memory (uvmdealloc kend (pagetable p) size (u32 (size + n)));
    _ ← upd me (λ p, p <| sz := u32 r |>);
    mret 0
  else _ ← upd me (λ p, p <| sz := size |>); mret 0.

(** ** fork *)

(** The descriptors and the current directory of [me] for [np]. *)
Definition dup_files (me np : nat) : ST Sys () :=
  for_loop 0 NOFILE (λ i,
    p ← the_proc me;
    match default None (ofile p !! i) with
    | Some f => _ ← on_fd me (on_ftable (filedup f)); upd np (λ q, q <| ofile ::= <[i := Some f]> |>)
    | None => mret ()
    end).
Definition dup_cwd (me np : nat) : ST Sys () :=
  p ← the_proc me;
  match p_cwd p with
  | Some ip => _ ← on_inodes me (idup ip); upd np (λ q, q <| p_cwd := Some ip |>)
  | None => panic "kerneltrap"
  end.
Definition dup_vmas (me np : nat) : ST Sys () :=
  for_loop 0 NVMA (λ i,
    p ← the_proc me;
    let v := default vma0 (vma p !! i) in
    if v_used v then
      _ ← upd np (λ q, q <| vma ::= <[i := v]> |>);
      _ ← on_fd me (on_ftable (filedup (v_file v)));
      mret ()
    else mret ()).

(** The shared-memory fields come from the first entry of the table, which the
    code names [proc], not from the caller. *)
Definition fork_shm (np : nat) : ST Sys () :=
  p0 ← the_proc 0;
  _ ← upd np (λ q, q <| com ::= λ c, c <| shm := shm (com p0) |> <| shmkeymask := shmkeymask (com p0) |> |>);
  _ ← for_loop 0 8 (λ i,
        if shmkeyused (Z.of_nat i) (shmkeymask (com p0)) then
          upd np (λ q, q <| com ::= λ c, c <| shmva ::= <[i := default 0 (shmva (com p0) !! i)]> |> |>)
        else mret ());
  on_shm (shmaddcount (shmkeymask (com p0))).

Definition inherit (p q : proc) : proc :=
  set_state RUNNABLE q <| trace_mask := trace_mask p |> <| cr := cr p |>
    <| sig := Signals 0 (signal_handlers (sig p)) 0 |>.

Definition fork (me : nat) : ST Sys Z :=
  r ← allocproc;
  match r with
  | None => mret (-1)
  | Some np =>
      p ← the_proc me;
      q ← the_proc np;
      m ← on_memory (uvmcopy kend (pagetable p) (pagetable q) (sz p));
      if m <? 0 then _ ← freeproc np; mret (-1)
      else
        _ ← fork_shm np;
        p ← the_proc me;
        _ ← on_mq (addmqcount (ipc_mqmask (com p)));
        _ ← upd np (λ q, q <| com ::= λ c, c <| ipc_mqmask := ipc_mqmask (com p) |> |>
                           <| sz := sz p |> <| parent := Some me |>);
        _ ← on_memory (modify (mem_move (trapframe q) (trapframe p) tf_size));
        _ ← set_reg (trapframe q) tf_a0 0;
        _ ← dup_files me np;
        _ ← dup_cwd me np;
        _ ← dup_vmas me np;
        p ← the_proc me;
        _ ← upd np (λ q, inherit p (q <| name := name_copy (name q) (name p) |>));
        mret (pid q)
  end.

(** ** exit *)

Definition MAP_SHARED : Z := 1.
Definition PROT_WRITE : Z := 2.

Definition close_files (me : nat) : ST Sys () :=
  for_loop 0 NOFILE (λ fd,
    p ← the_proc me;
    match default None (ofile p !! fd) with
    | Some f => _ ← on_fd me (fileclose sockclose f); upd me (λ p, p <| ofile ::= <[fd := None]> |>)
    | None => mret ()
    end).
Definition unmap_vmas (me : nat) : ST Sys () :=
  for_loop 0 NVMA (λ i,
    p ← the_proc me;
    let v := default vma0 (vma p !! i) in
    if v_used v then
      _ ← (if (v_flags v =? MAP_SHARED) && negb (Z.land (v_prot v) PROT_WRITE =? 0) then
             _ ← on_fd me (filewrite dev_write sockwrite (v_file v) (v_addr v) (v_len v)); mret ()
           else mret ());
      _ ← on_fd me (fileclose sockclose (v_file v));
      _ ← on_memory (uvmunmap kend (pagetable p) (v_addr v) (u64 (Z.quot (v_len v) PGSIZE)) true);
      upd me (λ p, p <| vma ::= alter (λ v, v <| v_used := false |>) i |>)
    else mret ()).

(** Up to the switch to the scheduler, from which a zombie does not return. *)
Definition exit (me : nat) (status : Z) : ST Sys () :=
  s ← get;
  if bool_decide (initproc s = Some me) then panic "init exiting"
  else
    _ ← close_files me;
    _ ← unmap_vmas me;
    p ← the_proc me;
    _ ← on_inodes me (on_disk begin_op);
    _ ← (match p_cwd p with
         | Some ip => on_inodes me (iput ip)
         | None => panic "kerneltrap"
         end);
    _ ← on_inodes me (on_disk end_op);
    _ ← upd me (λ p, p <| p_cwd := None |>);
    s ← get;
    match initproc s with
    | None => panic "kerneltrap"
    | Some ini =>
        match exit_finish proc_at me ini status (procs s) with
        | None => panic "kerneltrap"
        | Some t => modify (λ s, s <| procs := t |>)
        end
    end.

(** ** wait and waitpid: one pass of their loop; [Blocks] is the sleep in it *)

Definition copy_status (me j : nat) (addr : Z) : ST Sys Z :=
  p ← the_proc me;
  np ← the_proc j;
  if addr =? 0 then mret 0 else on_memory (copyout kend (pagetable p) addr (le_bytes 4 (u32 (xstate np)))).

Definition wait_rest (me : nat) (havekids : bool) : ST Sys Z :=
  s ← get;
  match wait_idle proc_at me havekids (procs s) with
  | None => mret (-1)
  | Some _ => blocks
  end.

Definition wait (me : nat) (addr : Z) : ST Sys Z :=
  s ← get;
  match scan_kids me any_kid (procs s) with
  | Zombie j =>
      np ← the_proc j;
      _ ← on_mq (releasemq2 kend (ipc_mqmask (com np)));
      _ ← upd j (λ p, p <| com ::= λ c, c <| ipc_mqmask := 0 |> |>);
      r ← copy_status me j addr;
      if r <? 0 then mret (-1)
      else _ ← freeproc j; mret (pid np)
  | Kids havekids => wait_rest me havekids
  end.

Definition waitpid (me : nat) (x addr : Z) : ST Sys Z :=
  s ← get;
  match scan_kids me (kid_pid x) (procs s) with
  | Zombie j =>
      np ← the_proc j;
      r ← copy_status me j addr;
      if r <? 0 then mret (-1)
      else _ ← freeproc j; mret (pid np)
  | Kids havekids => wait_rest me havekids
  end.

(** ** Threads *)

(** clone up to the first release of the new entry's lock; the entry is still
    UNUSED then. *)
Definition clone_start (me : nat) (fcn arg stack : Z) : ST Sys (option nat) :=
  r ← allocproc;
  match r with
  | None => mret None
  | Some np =>
      p ← the_proc me;
      _ ← upd np (λ q, q <| pagetable := pagetable p |> <| sz := sz p |> <| pthread := Some me |>
                         <| ustack := stack |> <| parent := None |>);
      q ← the_proc np;
      _ ← on_memory (modify (mem_move (trapframe q) (trapframe p) tf_size));
      st ← on_memory kalloc;
      _ ← set_reg (trapframe q) tf_epc fcn;
      _ ← set_reg (trapframe q) tf_sp (u64 (stack + 4096 - 16));
      _ ← set_reg (trapframe q) tf_s0 (u64 (stack + 4096 - 16));
      _ ← set_reg (trapframe q) tf_a0 0;
      match st with
      | None => panic "kerneltrap"
      | Some pg =>
          _ ← on_memory (modify (mem_st 8 (pg + 4096 - 16 + 8) arg));
          _ ← on_memory (modify (mem_st 8 (pg + 4096 - 16) 0xffffffffffffffff));
          bs ← on_memory (gets (mem_read 4096 pg));
          _ ← on_memory (copyout kend (pagetable p) stack bs);
          _ ← dup_files me np;
          _ ← dup_cwd me np;
          p ← the_proc me;
          _ ← upd np (λ q, q <| name := name_copy (name q) (name p) |>);
          mret (Some np)
      end
  end.

Definition clone (me : nat) (fcn arg stack : Z) : ST Sys Z :=
  r ← clone_start me fcn arg stack;
  match r with
  | None => mret (-1)
  | Some np =>
      q ← the_proc np;
      _ ← upd np (set_state RUNNABLE);
      mret (pid q)
  end.

Definition is_thread_of (me : nat) (p : proc) : bool := bool_decide (pthread p = Some me).

Definition join (me : nat) (stackaddrout : Z) : ST Sys Z :=
  s ← get;
  match findi (λ p, is_thread_of me p && bool_decide (state p = ZOMBIE)) (procs s) with
  | Some j =>
      p ← the_proc j;
      _ ← on_memory (kfree kend (kstack p));
      _ ← upd j (λ p, set_state UNUSED (set_pid 0
            (p <| kstack := 0 |> <| parent := None |> <| pthread := None |> <| name ::= clear_name |> <| killed := 0 |>)));
      _ ← on_memory (copyout kend (pagetable p) stackaddrout (le_bytes 8 (ustack p)));
      mret (pid p)
  | None => wait_rest me (existsb (is_thread_of me) (procs s))
  end.
End code.

(** ** Growing and shrinking a process *)

Section grow.
Context {C : Type} (kend : Z).
Implicit Types (s : psys C) (k : kstate).

(** A process with another size, over another memory. *)
Definition resized (me : nat) (z : Z) k s : psys C :=
  s <| kmem := k |> <| procs ::= alter (λ p, p <| sz := z |>) me |>.

Lemma on_memory_run {A} (m : ST kstate A) s a k : run m (kmem s) a k → run (on_memory m) s a (s <| kmem := k |>).
Proof. intros E. unfold on_memory, zoom. by rewrite E. Qed.

Lemma the_proc_run me p s : procs s !! me = Some p → run (the_proc me) s p s.
Proof. intros E. unfold the_proc, gets. by rewrite E. Qed.

Lemma shrink_run me p s n :
  procs s !! me = Some p → k_ok kend (kmem s) → pt_ok kend (kmem s) (pagetable p) → user_ok kend (kmem s) (pagetable p) →
  0 ≤ sz p < 2 ^ 32 → - 2 ^ 31 ≤ n ≤ 0 →
  ∃ k', run (growproc kend me n) s 0 (resized me (if sz p <? - n then sz p else sz p + n) k' s) ∧
    (if sz p <? - n then k' = kmem s
     else unmapped kend true (PGROUNDUP (sz p + n)) (PGROUNDUP (sz p)) (kmem s) (pagetable p) k').
Proof.
  intros Hp Hk Hpt Hus Hsz Hn. assert (2 ^ 32 < USERTOP) as Htop by done.
  unfold growproc. step_with (the_proc_run _ _ _ Hp). rewrite (u32_small (sz p)) by lia.
  destruct (Z.ltb_spec 0 n); [lia|]. destruct (Z.ltb_spec n 0) as [Hneg|Hz].
  - destruct (Z.ltb_spec (sz p) (- n)) as [Hover|Hle].
    + assert (u32 (sz p + n) = sz p + n + 2 ^ 32) as ->.
      { unfold u32. rewrite <-(Z_mod_plus_full _ 1), Z.mul_1_l, Z.mod_small; lia. }
      exists (kmem s). split; [|done].
      assert (run (uvmdealloc kend (pagetable p) (sz p) (sz p + n + 2 ^ 32)) (kmem s) (sz p) (kmem s)) as E.
      { unfold uvmdealloc. by rewrite (proj2 (Z.leb_le _ _)) by lia. }
      rewrite (bind_Ret _ _ _ _ _ (on_memory_run _ s _ _ E)).
      rewrite (u32_small (sz p)) by lia. done.
    + rewrite (u32_small (sz p + n)) by lia.
      destruct (uvmdealloc_run kend (pagetable p) (kmem s) (sz p) (sz p + n)) as (k' & E & U & _); [done..|lia|lia|].
      exists k'. rewrite (bind_Ret _ _ _ _ _ (on_memory_run _ s _ _ E)), (u32_small (sz p + n)) by lia. done.
  - assert (n = 0) as -> by lia. rewrite (proj2 (Z.ltb_ge _ _)) by lia. exists (kmem s). rewrite Z.add_0_r.
    split; [done|]. apply unmapped_refl; [done..|lia].
Qed.

Lemma grow_run me p s n :
  procs s !! me = Some p → k_ok kend (kmem s) → pt_ok kend (kmem s) (pagetable p) → user_ok kend (kmem s) (pagetable p) →
  0 ≤ sz p → 0 < n → sz p + n < 2 ^ 32 →
  (∀ va, PGROUNDUP (sz p) ≤ va < PGROUNDUP (sz p + n) → has (lpte (kmem s) (pagetable p) va) PTE_V = false) →
  ∃ r k', (r = 0 ∧ run (growproc kend me n) s r (resized me (sz p + n) k' s) ∧
             grown kend (pagetable p) user_perm (kmem s) (PGROUNDUP (sz p)) (PGROUNDUP (sz p + n)) k') ∨
          (r = -1 ∧ run (growproc kend me n) s r (s <| kmem := k' |>) ∧ restored kend (pagetable p) (kmem s) k').
Proof.
  intros Hp Hk Hpt Hus Hsz Hn Hmax Hun. assert (2 ^ 32 < USERTOP) as Htop by done.
  destruct (uvmalloc_run kend (pagetable p) (sz p) (sz p + n) (kmem s)) as (r & k' & E & H); [done..|lia|lia|done|].
  unfold growproc.
  destruct H as [[-> G]|[-> R]]; [exists 0, k'; left|exists (-1), k'; right]; (split; [done|]); (split; [|done]);
    step_with (the_proc_run _ _ _ Hp); rewrite (u32_small (sz p)), (u32_small (sz p + n)), (proj2 (Z.ltb_lt 0 n)) by lia;
    rewrite (bind_Ret _ _ _ _ _ (on_memory_run _ s _ _ E)).
  - rewrite !(u32_small (sz p + n)), (proj2 (Z.eqb_neq (sz p + n) 0)) by lia. done.
  - done.
Qed.
End grow.

(** ** What the calls leave alone

    A view is what is looked at of a process: its state, pid, parent or killed
    flag.  [keeps v m] says that [m] leaves the view [v] of every process. *)

Section keeps.
Context {C X : Type} (v : proc → X).
Implicit Types (s : psys C).

Definition views s : list X := v <$> procs s.

Definition keeps {A : Type} (m : ST (psys C) A) : Prop := ∀ s a s', run m s a s' → views s' = views s.

Lemma keeps_ret {A} (a : A) : keeps (mret a).
Proof. intros s b s' [= _ <-]. done. Qed.
Lemma keeps_panic {A} msg : keeps (panic msg : ST _ A).
Proof. by intros s b s'. Qed.
Lemma keeps_blocks {A} : keeps (blocks : ST _ A).
Proof. by intros s b s'. Qed.
Lemma keeps_get : keeps get.
Proof. intros s b s' [= _ <-]. done. Qed.
Lemma keeps_read {A} (f : psys C → A) : keeps (gets f).
Proof. intros s b s' [= _ <-]. done. Qed.

Lemma keeps_then {A B} (m : ST (psys C) A) (k : A → ST (psys C) B) : keeps m → (∀ a, keeps (k a)) → keeps (m ≫= k).
Proof. intros Hm Hk s b s'' (a & s' & E1 & E2)%bind_Ret_inv. by rewrite (Hk _ _ _ _ E2), (Hm _ _ _ E1). Qed.

Lemma keeps_zoom {S A} (part : psys C → S) put (m : ST S A) :
  (∀ x s, views (put x s) = views s) → keeps (zoom part put m).
Proof. intros H s a s'. unfold zoom. destruct (m (part s)) as [[b x]| |]; [|done..]. intros [= _ <-]. apply H. Qed.

Lemma views_alter f i s : (∀ p, v (f p) = v p) → v <$> alter f i (procs s) = views s.
Proof.
  intros H. apply list_eq. intros j. unfold views. rewrite !list_lookup_fmap. destruct (decide (j = i)) as [->|].
  - rewrite list_lookup_alter_eq. destruct (procs s !! i); simpl; [by rewrite H|done].
  - by rewrite list_lookup_alter_ne.
Qed.

Lemma keeps_upd i f : (∀ p, v (f p) = v p) → keeps (upd i f).
Proof. intros H s a s' [= _ <-]. by apply views_alter. Qed.

Lemma keeps_modify f : (∀ s, procs (f s) = procs s) → keeps (modify f).
Proof. intros H s a s' [= _ <-]. unfold views. by rewrite H. Qed.

Lemma keeps_for i n body : (∀ k, keeps (body k)) → keeps (for_loop i n body).
Proof.
  intros H. revert i. induction n as [|n IH]; intros i; [apply keeps_ret|]. apply keeps_then; [apply H|]. intros _. apply IH.
Qed.

Lemma keeps_memory {A} (m : ST kstate A) : keeps (on_memory m).
Proof. by apply keeps_zoom. Qed.
Lemma keeps_shm {A} (m : ST shmstate A) : (∀ p f, v (p <| com ::= f |>) = v p) → keeps (on_shm m).
Proof. intros H. apply keeps_zoom. intros x s. refine (views_alter _ 0 s _). intros p. apply H. Qed.
Lemma keeps_mq {A} (m : ST mqstate A) : (∀ p f, v (p <| com ::= f |>) = v p) → keeps (on_mq m).
Proof. intros H. apply keeps_zoom. intros x s. refine (views_alter _ 0 s _). intros p. apply H. Qed.
Lemma keeps_fd {A} me (m : ST (fdstate C) A) : keeps (on_fd me m).
Proof. by apply keeps_zoom. Qed.

(** An update that sets the view of an entry. *)
Lemma upd_view i f x s s' : (∀ p, v (f p) = x) → run (upd i f) s () s' → views s' = <[i := x]> (views s).
Proof.
  intros H [= <-]. unfold views. cbn. apply list_eq. intros j. rewrite list_lookup_fmap.
  destruct (decide (j = i)) as [->|Hne].
  - rewrite list_lookup_alter_eq. destruct (procs s !! i) as [p|] eqn:E; simpl.
    + rewrite H, list_lookup_insert_eq; [done|]. rewrite length_fmap. by eapply lookup_lt_Some.
    + symmetry. apply lookup_ge_None_2. rewrite length_insert, length_fmap. by apply lookup_ge_None_1.
  - by rewrite list_lookup_alter_ne, list_lookup_insert_ne, list_lookup_fmap.
Qed.
End keeps.

Create HintDb keeps.
#[export] Hint Resolve keeps_ret keeps_panic keeps_blocks keeps_get keeps_read keeps_memory keeps_fd : keeps.
#[export] Hint Extern 1 (keeps _ (upd _ _)) => (apply keeps_upd; done) : keeps.
#[export] Hint Extern 1 (keeps _ (modify _)) => (apply keeps_modify; done) : keeps.
#[export] Hint Extern 1 (keeps _ (on_shm _)) => (apply keeps_shm; done) : keeps.
#[export] Hint Extern 1 (keeps _ (on_mq _)) => (apply keeps_mq; done) : keeps.

(** Walks through the binds, branches and loops of a call. *)
Ltac keeps :=
  repeat first
    [ progress intros
    | solve [eauto with keeps]
    | apply keeps_then
    | apply keeps_for
    | match goal with |- keeps _ (match ?x with _ => _ end) => destruct x end ].

(** Opens one bind of a run; if its first part keeps the view, notes that. *)
Ltac keep v E :=
  match type of E with
  | ?m ?t = Ret (_, ?t') =>
      let H := fresh "K" in
      assert (views v t' = views v t) as H
        by (refine ((_ : keeps v m) _ _ _ E);
            unfold the_proc, set_reg, dup_files, dup_cwd, dup_vmas, fork_shm, on_inodes, allocpid, shmrelease_null; keeps)
  end.
Ltac open v E :=
  let a := fresh "a" in let t := fresh "t" in let E1 := fresh "E" in
  apply bind_Ret_inv in E as (a & t & E1 & E); try keep v E1.
(** Case analysis on the branch a run takes. *)
Ltac branch E := match type of E with (match ?x with _ => _ end) _ = _ => destruct x end.

Section life.
Context {C : Type} `{!BufCache C}.
Abbreviation Sys := (psys C).
Context (kend trampoline forkret : Z) (proc_at : nat → Z) (mmio : Z → Z).
Implicit Types (s : Sys).

(** freeproc makes the entry UNUSED and leaves the states of the others. *)
Lemma freeproc_states i s s' : run (freeproc kend mmio i) s () s' → views state s' = <[i := UNUSED]> (views state s).
Proof.
  intros E. unfold freeproc in E. do 5 open state E. apply bind_Ret_inv in E as ([] & tx & Ex & E). open state E. keep state E.
  apply (upd_view state _ _ UNUSED) in Ex; [|done]. congruence.
Qed.

Lemma freeproc_keeps i s s' :
  views state s !! i = Some UNUSED → run (freeproc kend mmio i) s () s' → views state s' = views state s.
Proof. intros Hi E. rewrite (freeproc_states _ _ _ E). by apply list_insert_id. Qed.

(** The first unused entry depends on the states only. *)
Definition first_unused (s : Sys) : option nat := findi (λ p, bool_decide (state p = UNUSED)) (procs s).

Lemma findi_fmap {A B} (g : A → B) (f : B → bool) l : findi (λ x, f (g x)) l = findi f (g <$> l).
Proof. induction l as [|x l IH]; simpl; [done|]. by rewrite IH. Qed.

Lemma first_unused_states s : first_unused s = findi (λ x, bool_decide (x = UNUSED)) (views state s).
Proof. unfold first_unused, views. by rewrite <-(findi_fmap state (λ x : procstate, bool_decide (x = UNUSED))). Qed.

Lemma first_unused_lookup s i : first_unused s = Some i → views state s !! i = Some UNUSED.
Proof.
  rewrite first_unused_states. intros (x & Hx & H)%findi_lookup. apply bool_decide_eq_true in H. by subst.
Qed.

(** allocproc takes the first unused entry, and leaves every state as it was:
    the entry is UNUSED until its creator sets it. *)
Lemma allocproc_states r s s' :
  run (allocproc kend trampoline forkret mmio) s r s' →
  views state s' = views state s ∧ (r = None ∨ r = first_unused s).
Proof.
  intros E. unfold allocproc in E. apply bind_Ret_inv in E as (s0 & s1 & E1 & E). injection E1 as <- <-.
  fold (first_unused s) in E. destruct (first_unused s) as [i|] eqn:Ei; [|injection E as <- <-; by split; [|left]].
  pose proof (first_unused_lookup _ _ Ei) as Hi.
  do 4 open state E. branch E; [|injection E as <- <-; split; [congruence|by left]].
  do 2 open state E. branch E; [|injection E as <- <-; split; [congruence|by left]].
  do 3 open state E. branch E.
  - open state E. injection E as <- <-. split; [congruence|by right].
  - apply bind_Ret_inv in E as ([] & tx & Ex & E). injection E as <- <-.
    apply freeproc_keeps in Ex; [|congruence]. split; [congruence|by left].
Qed.

Definition ident (p : proc) : Z * option nat * Z := (killed p, parent p, pid p).

Lemma ident_views s s' :
  views ident s = views ident s' →
  views killed s = views killed s' ∧ views parent s = views parent s' ∧ views pid s = views pid s'.
Proof.
  intros E. split_and!;
    [apply (f_equal (fmap (λ x : Z * option nat * Z, x.1.1))) in E|apply (f_equal (fmap (λ x : Z * option nat * Z, x.1.2))) in E
    |apply (f_equal (fmap (λ x : Z * option nat * Z, x.2))) in E];
    unfold views in *; by rewrite <-!list_fmap_compose in E.
Qed.

(** A new entry has the next pid, and the killed flag its slot had. *)
Lemma allocproc_fields i s s' :
  run (allocproc kend trampoline forkret mmio) s (Some i) s' →
  views killed s' = views killed s ∧ views parent s' = views parent s ∧ views pid s' = <[i := nextpid s]> (views pid s) ∧
  first_unused s = Some i.
Proof.
  intros E. pose proof E as [_ [|Hf]]%allocproc_states; [done|]. rewrite <-Hf.
  unfold allocproc in E. apply bind_Ret_inv in E as (s0 & s1 & E1 & E). injection E1 as <- <-.
  fold (first_unused s) in E. rewrite <-Hf in E.
  apply bind_Ret_inv in E as (x & s2 & E2 & E). injection E2 as <- <-.
  apply bind_Ret_inv in E as ([] & s3 & E3 & E).
  assert (views ident s' = views ident s3) as (-> & -> & ->)%ident_views.
  { clear E3. do 2 open ident E. branch E; [|done]. do 2 open ident E. branch E; [|done]. do 3 open ident E. branch E.
    - open ident E. injection E as <-. congruence.
    - by apply bind_Ret_inv in E as ([] & tx & Ex & E). }
  assert (views pid s3 = <[i := nextpid s]> (views pid s)) as -> by (by apply (upd_view pid _ _ (nextpid s)) in E3).
  keep killed E3. keep parent E3. split_and!; done.
Qed.
#[local] Opaque allocproc.

(** What the first part of clone does to the states. *)
Lemma clone_start_states me fcn arg stack np s s' :
  run (clone_start kend trampoline forkret mmio me fcn arg stack) s (Some np) s' →
  views state s' = views state s ∧ first_unused s = Some np.
Proof.
  intros E. unfold clone_start in E. apply bind_Ret_inv in E as (o & s1 & E1 & E).
  apply allocproc_states in E1 as [K1 Ho]. destruct o as [i|]; [|done]. destruct Ho as [|Ho]; [done|].
  do 9 open state E. branch E; [|done]. do 8 open state E. injection E as -> <-. split; [congruence|done].
Qed.

Lemma view_lookup {X} (v : proc → X) i s x : views v s !! i = Some x → v (default Proc.proc0 (procs s !! i)) = x.
Proof. unfold views. rewrite list_lookup_fmap. destruct (procs s !! i); [|done]. by intros [= <-]. Qed.

Lemma view_index {X Y} (v : proc → X) (w : proc → Y) i s x : views v s !! i = Some x → (i < length (views w s))%nat.
Proof. intros H%lookup_lt_Some. unfold views in *. by rewrite !length_fmap in *. Qed.

Lemma fork_run me s r s' :
  run (fork kend trampoline forkret mmio me) s r s' →
  (r = -1 ∧ views state s' = views state s) ∨
  (∃ np, first_unused s = Some np ∧ r = nextpid s ∧ views state s' = <[np := RUNNABLE]> (views state s) ∧
     views pid s' = <[np := nextpid s]> (views pid s) ∧ views parent s' = <[np := Some me]> (views parent s)).
Proof.
  intros E. unfold fork in E. apply bind_Ret_inv in E as (o & s1 & E1 & E).
  pose proof (allocproc_states _ _ _ E1) as [K1 Ho]. destruct o as [np|]; [|injection E as <- <-; left; by split].
  destruct Ho as [|Ho]; [done|]. pose proof (first_unused_lookup _ _ (eq_sym Ho)) as Hnp.
  destruct (allocproc_fields _ _ _ E1) as (_ & Hpar & Hpid & _). clear E1.
  apply bind_Ret_inv in E as (p & t1 & Ep & E). injection Ep as _ <-.
  apply bind_Ret_inv in E as (q & t2 & Eq & E). injection Eq as Eq <-.
  assert (pid q = nextpid s) as Hq.
  { rewrite <-Eq. apply view_lookup. rewrite Hpid. apply list_lookup_insert_eq. by eapply view_index. }
  apply bind_Ret_inv in E as (m & t3 & E3 & E). keep state E3. keep pid E3. keep parent E3. branch E.
  - apply bind_Ret_inv in E as ([] & tx & Ex & E). injection E as <- <-. left. split; [done|].
    apply freeproc_keeps in Ex; congruence.
  - right. exists np. do 3 (apply bind_Ret_inv in E as (? & ? & E1 & E); keep state E1; keep pid E1; keep parent E1; clear E1).
    apply bind_Ret_inv in E as ([] & t4 & E4 & E). keep state E4. keep pid E4.
    apply (upd_view parent _ _ (Some me)) in E4; [|done].
    do 6 (apply bind_Ret_inv in E as (? & ? & E1 & E); keep state E1; keep pid E1; keep parent E1; clear E1).
    apply bind_Ret_inv in E as ([] & tx & Ex & E). injection E as <- <-. keep pid Ex. keep parent Ex.
    apply (upd_view state _ _ RUNNABLE) in Ex; [|done]. split_and!; congruence.
Qed.

Lemma wait_run me addr j s r s' :
  scan_kids me any_kid (procs s) = Zombie j → run (wait kend proc_at mmio me addr) s r s' →
  (r = -1 ∧ views state s' = views state s) ∨
  (r = pid (default Proc.proc0 (procs s !! j)) ∧ views state s' = <[j := UNUSED]> (views state s)).
Proof.
  intros Hz E. unfold wait in E. apply bind_Ret_inv in E as (s0 & s1 & E1 & E). injection E1 as <- <-. rewrite Hz in E.
  apply bind_Ret_inv in E as (np & t1 & Ep & E). injection Ep as <- <-. do 2 open state E.
  apply bind_Ret_inv in E as (c & t3 & Ec & E). unfold copy_status in Ec. keep state Ec. branch E.
  - injection E as <- <-. left. split; [done|congruence].
  - right. apply bind_Ret_inv in E as ([] & tx & Ex & E). injection E as <- <-. apply freeproc_states in Ex.
    split; [done|congruence].
Qed.
End life.
