(* ===== verification/ProcSpec.v ===== *)
(** * proc.c: what fork, wait, clone, join and kill do

    Theorems on the calls of [ProcLife], and a machine on which they run: 24
    pages of memory, a first process with one page of user memory, its children
    and threads. *)

From stdpp Require Import gmap.
From S2P Require Import Prelude Bytes BufCache Bio Log LogDisk CString Pipe Fs FsExample PageAlloc Kalloc Memory Vm VmUser.
From S2P Require Import ProcTable Sched Proc MsgQueue ShareMem File ProcLife.

(** ** Calls that work on one entry

    [touches i m]: the other entries are as before.  The shared-memory and
    message-queue fields are left out: the code keeps those of the first entry up
    to date whoever calls it. *)

Definition strip (p : proc) : proc := p <| com := Ipc 0 0 [] 0 |>.

Section touches.
Context {C : Type}.
Implicit Types (s : psys C) (i : nat).

Definition others i s : list proc := <[i := Proc.proc0]> (views strip s).
Definition touches {A} i (m : ST (psys C) A) : Prop := ∀ s a s', run m s a s' → others i s' = others i s.

Lemma touches_keeps {A} i (m : ST (psys C) A) : keeps strip m → touches i m.
Proof. intros H s a s' E. unfold others. by rewrite (H _ _ _ E). Qed.
Lemma touches_upd i f : touches i (upd (C := C) i f).
Proof.
  intros s a s' [= _ <-]. unfold others, views. cbn. apply list_eq. intros j. destruct (decide (j = i)) as [->|].
  - destruct (decide (i < length (procs s))%nat) as [Hl|Hl].
    + by rewrite !list_lookup_insert_eq by (rewrite length_fmap, ?length_alter; lia).
    + rewrite !list_insert_ge by (rewrite length_fmap, ?length_alter; lia). rewrite !list_lookup_fmap, list_lookup_alter_eq.
      by rewrite lookup_ge_None_2 by lia.
  - by rewrite !list_lookup_insert_ne, !list_lookup_fmap, list_lookup_alter_ne.
Qed.
Lemma touches_then {A B} i (m : ST (psys C) A) (k : A → ST (psys C) B) : touches i m → (∀ a, touches i (k a)) → touches i (m ≫= k).
Proof. intros Hm Hk s b s'' (a & s' & E1 & E2)%bind_Ret_inv. by rewrite (Hk _ _ _ _ E2), (Hm _ _ _ E1). Qed.
Lemma touches_for i j n body : (∀ k, touches i (body k)) → touches i (for_loop (S := psys C) j n body).
Proof.
  intros H. revert j. induction n as [|n IH]; intros j; [apply touches_keeps, keeps_ret|].
  cbn [for_loop]. apply touches_then; [apply H|]. intros _. apply IH.
Qed.

Lemma others_lookup i j s s' p :
  others i s' = others i s → j ≠ i → procs s !! j = Some p → ∃ p', procs s' !! j = Some p' ∧ strip p' = strip p.
Proof.
  intros E Hj Hp. apply (f_equal (.!! j)) in E. unfold others, views in E.
  rewrite !list_lookup_insert_ne, !list_lookup_fmap, Hp in E by done. destruct (procs s' !! j) as [p'|]; [|done]. apply (inj Some) in E. by exists p'.
Qed.
End touches.

Ltac touch :=
  repeat first
    [ progress intros
    | progress unfold the_proc, set_reg, dup_files, dup_cwd, dup_vmas, fork_shm, on_inodes, allocpid, shmrelease_null, freeproc
    | solve [apply touches_keeps; eauto with keeps nocore]
    | apply touches_upd
    | apply touches_then
    | apply touches_for
    | match goal with |- touches _ (match ?x with _ => _ end) => destruct x end ].

Section files.
Context {C : Type} `{!BufCache C}.
Context (kend trampoline forkret : Z) (proc_at : nat → Z) (mmio : Z → Z).
Implicit Types (s : psys C).

Lemma freeproc_touches i : touches (C := C) i (freeproc kend mmio i).
Proof. touch. Qed.

Lemma allocproc_touches i r s s' :
  first_unused s = Some i → run (allocproc kend trampoline forkret mmio) s r s' → others i s' = others i s.
Proof.
  intros Hi E. unfold allocproc in E. apply bind_Ret_inv in E as (s0 & s1 & E1 & E). injection E1 as <- <-.
  fold (first_unused s) in E. rewrite Hi in E. revert E.
  match goal with |- ?m s = _ → _ => assert (touches i m) as Ht; [touch|] end. by apply Ht.
Qed.

Lemma upd_view_at {X} (v : proc → X) i f x y s s' :
  views v s !! i = Some x → (∀ p, v p = x → v (f p) = y) → run (upd i f) s () s' → views v s' = <[i := y]> (views v s).
Proof.
  intros Hx H [= <-]. unfold views in *. cbn. apply list_eq. intros j. rewrite list_lookup_fmap.
  rewrite list_lookup_fmap in Hx. destruct (procs s !! i) as [p|] eqn:E; [|done]. injection Hx as Hx.
  destruct (decide (j = i)) as [->|Hne].
  - rewrite list_lookup_alter_eq, E. simpl. rewrite (H p Hx), list_lookup_insert_eq; [done|].
    rewrite length_fmap. by eapply lookup_lt_Some.
  - by rewrite list_lookup_alter_ne, list_lookup_insert_ne, list_lookup_fmap.
Qed.

(** The descriptors of a slot after those below [i] are fds_copied into it. *)
Definition fds_copied (i : nat) (fs : list (option nat)) : list (option nat) := take i fs ++ replicate (NOFILE - i) None.

Lemma fds_copied_S i fs x : length fs = NOFILE → fs !! i = Some x → <[i := x]> (fds_copied i fs) = fds_copied (S i) fs.
Proof.
  intros Hl Hx. pose proof (lookup_lt_Some _ _ _ Hx). unfold fds_copied.
  rewrite (take_S_r _ _ _ Hx), insert_app_r_alt, length_take, Nat.min_l, Nat.sub_diag by (rewrite ?length_take; lia).
  rewrite <-app_assoc. f_equal. destruct (NOFILE - i)%nat eqn:E; [lia|].
  replace (NOFILE - S i)%nat with n by lia. done.
Qed.

Lemma dup_loop me np fs n : ∀ i s s', me ≠ np → length fs = NOFILE → (i + n = NOFILE)%nat →
  views ofile s !! me = Some fs → views ofile s !! np = Some (fds_copied i fs) →
  run (for_loop i n (λ i,
    p ← the_proc me;
    match default None (ofile p !! i) with
    | Some f => _ ← on_fd me (on_ftable (filedup f)); upd np (λ q, q <| ofile ::= <[i := Some f]> |>)
    | None => mret ()
    end)) s () s' → views ofile s' = <[np := fs]> (views ofile s).
Proof.
  induction n as [|n IH]; intros i s s' Hne Hl Hi Hme Hnp E.
  - injection E as <-. unfold fds_copied in Hnp. rewrite take_ge in Hnp by lia.
    replace (NOFILE - i)%nat with 0%nat in Hnp by lia. rewrite app_nil_r in Hnp.
    symmetry. by apply list_insert_id.
  - cbn [for_loop] in E. apply bind_Ret_inv in E as ([] & s1 & E1 & E).
    assert (∃ x, fs !! i = Some x) as [x Hx] by (apply lookup_lt_is_Some; lia).
    apply bind_Ret_inv in E1 as (p & t & Ep & E1). injection Ep as Ep <-.
    assert (ofile p = fs) as Hp by (rewrite <-Ep; by apply view_lookup).
    rewrite Hp, Hx in E1. cbn [default from_option] in E1.
    assert (views ofile s1 = <[np := fds_copied (S i) fs]> (views ofile s)) as Hs1.
    { destruct x as [f|].
      - apply bind_Ret_inv in E1 as (a & t1 & Ea & E1). keep ofile Ea.
        eapply (upd_view_at ofile) in E1; [by rewrite E1, K|by rewrite K|]. intros q Hq. cbn. rewrite Hq. by apply fds_copied_S.
      - injection E1 as <-. symmetry. apply list_insert_id. rewrite Hnp, <-(fds_copied_S i fs None Hl Hx). f_equal. symmetry.
        apply list_insert_id. unfold fds_copied. rewrite lookup_app_r, length_take by (rewrite length_take; lia).
        apply lookup_replicate_2. lia. }
    apply IH in E; [|done|done|lia| |].
    + by rewrite E, Hs1, list_insert_insert_eq.
    + by rewrite Hs1, list_lookup_insert_ne.
    + rewrite Hs1, Nat.add_1_r. apply list_lookup_insert_eq. by eapply lookup_lt_Some.
Qed.
Lemma dup_files_views me np fs s s' :
  me ≠ np → length fs = NOFILE → views ofile s !! me = Some fs → views ofile s !! np = Some (replicate NOFILE None) →
  run (dup_files me np) s () s' → views ofile s' = <[np := fs]> (views ofile s).
Proof. intros ? ? ? ?. by apply (dup_loop me np fs NOFILE 0). Qed.

Lemma dup_cwd_views me np w s s' :
  views p_cwd s !! me = Some w → run (dup_cwd me np) s () s' → views p_cwd s' = <[np := w]> (views p_cwd s).
Proof.
  intros Hw E. unfold dup_cwd in E. apply bind_Ret_inv in E as (p & t & Ep & E). injection Ep as Ep <-.
  assert (p_cwd p = w) as Hp by (rewrite <-Ep; by apply view_lookup). rewrite Hp in E. destruct w as [ip|]; [|done].
  apply bind_Ret_inv in E as (a & t1 & Ea & E). unfold on_inodes in Ea. keep p_cwd Ea.
  apply (upd_view p_cwd _ _ (Some ip)) in E; [|done]. by rewrite E, K.
Qed.

(** allocproc leaves the open files and the current directory of the slots. *)
Definition fds_of (p : proc) : list (option nat) * option nat := (ofile p, p_cwd p).

Lemma allocproc_fds i s s' : run (allocproc kend trampoline forkret mmio) s (Some i) s' → views fds_of s' = views fds_of s.
Proof.
  intros E. unfold allocproc in E. open fds_of E. injection E0 as -> ->. destruct (findi _ _) as [k|]; [|done].
  do 4 open fds_of E. branch E; [|done]. do 2 open fds_of E. branch E; [|done]. do 3 open fds_of E. branch E.
  - open fds_of E. injection E as _ <-. congruence.
  - by apply bind_Ret_inv in E as ([] & tx & Ex & E).
Qed.

Lemma fds_views s s' :
  views fds_of s = views fds_of s' → views ofile s = views ofile s' ∧ views p_cwd s = views p_cwd s'.
Proof.
  intros E. split;
    [apply (f_equal (fmap (λ x : list (option nat) * option nat, x.1))) in E
    |apply (f_equal (fmap (λ x : list (option nat) * option nat, x.2))) in E];
    unfold views in *; by rewrite <-!list_fmap_compose in E.
Qed.

(** A process starts with no open file in its slot. *)
Definition slots_clean s : Prop :=
  ∀ i q, procs s !! i = Some q → state q = UNUSED → ofile q = replicate NOFILE None.

Lemma view_of {X} (v : proc → X) i p s : procs s !! i = Some p → views v s !! i = Some (v p).
Proof. intros H. unfold views. by rewrite list_lookup_fmap, H. Qed.

Lemma view_at {X} (v : proc → X) i s x : views v s !! i = Some x → ∃ p, procs s !! i = Some p ∧ v p = x.
Proof. unfold views. intros (p & -> & Hp)%list_lookup_fmap_Some_1. by eauto. Qed.

Lemma fork_shares me p r s s' :
  procs s !! me = Some p → state p = RUNNING → length (ofile p) = NOFILE → slots_clean s →
  run (fork kend trampoline forkret mmio me) s r s' → r ≠ -1 →
  ∃ np, first_unused s = Some np ∧ views ofile s' = <[np := ofile p]> (views ofile s) ∧
    views p_cwd s' = <[np := p_cwd p]> (views p_cwd s).
Proof.
  intros Hp Hrun Hlen Hclean E Hr. unfold fork in E. apply bind_Ret_inv in E as (o & s1 & E1 & E).
  destruct o as [np|]; [|by injection E as <- <-].
  pose proof (allocproc_fields _ _ _ _ _ _ _ E1) as (_ & _ & _ & Hf).
  pose proof (allocproc_fds _ _ _ E1) as [Ko Kc]%fds_views.
  pose proof (first_unused_lookup _ _ Hf) as (q0 & Hq0 & Hu)%view_at.
  assert (me ≠ np) as Hne by (intros ->; rewrite Hp in Hq0; congruence). exists np. split; [done|].
  do 2 (apply bind_Ret_inv in E as (? & ? & E2 & E); keep ofile E2; keep p_cwd E2; clear E2).
  apply bind_Ret_inv in E as (m & t3 & E3 & E). keep ofile E3. keep p_cwd E3. branch E.
  { apply bind_Ret_inv in E as ([] & tx & Ex & E). by injection E as <- <-. }
  do 6 (apply bind_Ret_inv in E as (? & ? & E2 & E); keep ofile E2; keep p_cwd E2; clear E2).
  apply bind_Ret_inv in E as ([] & t4 & E4 & E). keep p_cwd E4.
  apply (dup_files_views me np (ofile p)) in E4; [|done|done|..].
  2: { rewrite <-(view_of ofile me p s Hp). congruence. }
  2: { transitivity (views ofile s !! np); [congruence|]. rewrite (view_of ofile np q0 s Hq0). by rewrite (Hclean np q0). }
  apply bind_Ret_inv in E as ([] & t5 & E5 & E). keep ofile E5.
  apply (dup_cwd_views me np (p_cwd p)) in E5; [|rewrite <-(view_of p_cwd me p s Hp); congruence].
  do 3 (apply bind_Ret_inv in E as (? & ? & E2 & E); keep ofile E2; keep p_cwd E2; clear E2).
  injection E as _ <-. split; congruence.
Qed.
Lemma allocproc_full s : first_unused s = None → run (allocproc kend trampoline forkret mmio) s None s.
Proof. intros H. unfold allocproc. rewrite (bind_Ret _ _ s s s eq_refl). unfold first_unused in H. by rewrite H. Qed.

#[local] Opaque allocproc.

(** fork fails because there is no memory for a new entry, or because the user
    memory cannot be copied; in each case only the new entry is touched. *)
Lemma fork_outcome me p np r s s' :
  procs s !! me = Some p → me ≠ np → first_unused s = Some np → run (fork kend trampoline forkret mmio me) s r s' →
  others np s' = others np s ∧
  ((r = -1 ∧ run (allocproc kend trampoline forkret mmio) s None s') ∨
   ∃ s1 q m k', run (allocproc kend trampoline forkret mmio) s (Some np) s1 ∧ procs s1 !! np = Some q ∧
     run (uvmcopy kend (pagetable p) (pagetable q) (sz p)) (kmem s1) m k' ∧
     if m <? 0 then r = -1 else r = nextpid s).
Proof.
  intros Hp Hne Hnp E. split.
  { unfold fork in E. apply bind_Ret_inv in E as (o & s1 & E1 & E). rewrite <- (allocproc_touches np o s s1 Hnp E1).
    destruct o as [i|]; [|by injection E as <- <-]. pose proof E1 as [_ [|Hi]]%allocproc_states; [done|].
    assert (i = np) as -> by congruence. revert E.
    match goal with |- ?m s1 = _ → _ => assert (touches np m) as Ht; [touch|] end. by apply Ht. }
  unfold fork in E. apply bind_Ret_inv in E as (o & s1 & E1 & E). pose proof (allocproc_touches np o s s1 Hnp E1) as Ho.
  destruct o as [i|]; [right|left; by injection E as <- <-].
  pose proof E1 as [Hst [|Hi]]%allocproc_states; [done|]. assert (i = np) as -> by congruence.
  destruct (allocproc_fields _ _ _ _ _ _ _ E1) as (_ & _ & Hpid & _).
  destruct (others_lookup np me s s1 p Ho Hne Hp) as (p1 & Hp1 & Es).
  assert (pagetable p1 = pagetable p ∧ sz p1 = sz p) as [Ept Esz].
  { apply (f_equal (λ x, (pagetable x, sz x))) in Es. by injection Es. }
  assert (∃ q, procs s1 !! np = Some q) as [q Hq].
  { pose proof (first_unused_lookup _ _ Hnp) as Hl. rewrite <- Hst in Hl. destruct (view_at state np s1 _ Hl) as (q & ? & _). by exists q. }
  assert (pid q = nextpid s) as Hqp.
  { apply (view_of pid) in Hq. rewrite Hpid, list_lookup_insert_eq in Hq; [by injection Hq|].
    pose proof (first_unused_lookup _ _ Hnp) as Hl. by eapply view_index. }
  apply bind_Ret_inv in E as (p' & t1 & Ep & E). injection Ep as Ep <-. rewrite Hp1 in Ep. cbn in Ep. subst p'.
  apply bind_Ret_inv in E as (q' & t2 & Eq & E). injection Eq as Eq <-. rewrite Hq in Eq. cbn in Eq. subst q'.
  apply bind_Ret_inv in E as (m & t3 & E3 & E). unfold on_memory, zoom in E3.
  destruct (uvmcopy kend (pagetable p1) (pagetable q) (sz p1) (kmem s1)) as [[m' k']| |] eqn:Em; [|done..].
  injection E3 as <- _. rewrite Ept, Esz in Em. exists s1, q, m', k'. split_and!; [done..|].
  destruct (m' <? 0).
  - apply bind_Ret_inv in E as ([] & tx & Ex & E). by injection E as <- <-.
  - do 11 (apply bind_Ret_inv in E as (? & ? & _ & E)). injection E as <- _. done.
Qed.

Lemma fork_killed me r s s' i :
  run (fork kend trampoline forkret mmio me) s r s' → r ≠ -1 → first_unused s = Some i →
  views killed s' !! i = views killed s !! i.
Proof.
  intros E Hr Hi. unfold fork in E. apply bind_Ret_inv in E as (o & s1 & E1 & E).
  destruct o as [np|]; [|by injection E as <- <-].
  pose proof (allocproc_fields _ _ _ _ _ _ _ E1) as (Kk & _ & _ & _).
  do 2 (apply bind_Ret_inv in E as (? & ? & E2 & E); keep killed E2; clear E2).
  apply bind_Ret_inv in E as (m & t3 & E3 & E). keep killed E3. branch E.
  { apply bind_Ret_inv in E as ([] & tx & Ex & E). by injection E as <- <-. }
  do 11 (apply bind_Ret_inv in E as (? & ? & E2 & E); keep killed E2; clear E2).
  injection E as _ <-. congruence.
Qed.
End files.


(** [growproc]: growing is all or nothing (the size changes by [n] and fresh
    zeroed pages are mapped, or the result is -1 and the address space is as it
    was); shrinking unmaps and frees exactly the pages above the new size; a
    shrink by more than the size changes nothing and still reports success.
    Sizes are below 4 GB, where the [uint] arithmetic of the code is exact. *)
Theorem growproc_correct {C : Type} kend me p (s : psys C) n :
  procs s !! me = Some p → k_ok kend (kmem s) → pt_ok kend (kmem s) (pagetable p) → user_ok kend (kmem s) (pagetable p) →
  0 ≤ sz p < 2 ^ 32 → - 2 ^ 31 ≤ n → sz p + n < 2 ^ 32 →
  (∀ va, PGROUNDUP (sz p) ≤ va < PGROUNDUP (sz p + n) → has (lpte (kmem s) (pagetable p) va) PTE_V = false) →
  ∃ r s' k', run (growproc kend me n) s r s' ∧
    if 0 <? n then
      (r = 0 ∧ s' = resized me (sz p + n) k' s ∧
         grown kend (pagetable p) user_perm (kmem s) (PGROUNDUP (sz p)) (PGROUNDUP (sz p + n)) k') ∨
      (r = -1 ∧ s' = s <| kmem := k' |> ∧ restored kend (pagetable p) (kmem s) k')
    else
      r = 0 ∧
      if sz p <? - n then s' = resized me (sz p) k' s ∧ k' = kmem s
      else s' = resized me (sz p + n) k' s ∧
           unmapped kend true (PGROUNDUP (sz p + n)) (PGROUNDUP (sz p)) (kmem s) (pagetable p) k'.
Proof.
  intros Hp Hk Hpt Hus Hsz Hn Hmax Hun. destruct (Z.ltb_spec 0 n) as [Hpos|Hneg].
  - destruct (grow_run kend me p s n) as (r & k' & H); [done..|lia|done|done|done|].
    destruct H as [(-> & E & G)|(-> & E & R)]; eexists _, _, k'; (split; [exact E|]); [left|right]; done.
  - destruct (shrink_run kend me p s n) as (k' & E & H); [done..|]. eexists _, _, k'. split; [exact E|]. split; [done|].
    by destruct (sz p <? - n).
Qed.

(** C27. fork that returns: without a free entry it returns -1 and changes
    nothing.  With [np] the first unused entry, no other entry of the table
    changes (the shared-memory and message-queue fields aside), and either there
    was no memory for a new process, and the result is -1; or [allocproc] gave
    [np], and the copy of the user memory into its page table failed, and the
    result is -1; in these cases every process is in the state it was.  Or the
    copy succeeded, the result is the next pid and [np] is a runnable process
    with that pid, a child of the caller, with the caller's open files and
    current directory. *)
Theorem fork_correct {C} `{!BufCache C} kend trampoline forkret mmio me p (s : psys C) r s' :
  procs s !! me = Some p → state p = RUNNING → length (ofile p) = NOFILE → slots_clean s → 0 < nextpid s →
  run (fork kend trampoline forkret mmio me) s r s' →
  match first_unused s with
  | None => r = -1 ∧ s' = s
  | Some np =>
      (∀ j q, j ≠ np → procs s !! j = Some q → ∃ q', procs s' !! j = Some q' ∧ strip q' = strip q) ∧
      ((r = -1 ∧ views state s' = views state s ∧ run (allocproc kend trampoline forkret mmio) s None s') ∨
       ∃ s1 q m k', run (allocproc kend trampoline forkret mmio) s (Some np) s1 ∧ procs s1 !! np = Some q ∧
         run (uvmcopy kend (pagetable p) (pagetable q) (sz p)) (kmem s1) m k' ∧
         if m <? 0 then r = -1 ∧ views state s' = views state s
         else r = nextpid s ∧ views state s' = <[np := RUNNABLE]> (views state s) ∧
           views pid s' = <[np := nextpid s]> (views pid s) ∧ views parent s' = <[np := Some me]> (views parent s) ∧
           views ofile s' = <[np := ofile p]> (views ofile s) ∧ views p_cwd s' = <[np := p_cwd p]> (views p_cwd s))
  end.
Proof.
  intros Hp Hrun Hlen Hclean Hpid E. destruct (first_unused s) as [np|] eqn:Hnp.
  2:{ unfold fork in E. rewrite (bind_Ret _ _ _ _ _ (allocproc_full kend trampoline forkret mmio s Hnp)) in E. by injection E as <- <-. }
  assert (me ≠ np) as Hne.
  { intros ->. pose proof (first_unused_lookup _ _ Hnp) as (q0 & Hq0 & Hu)%view_at. congruence. }
  destruct (fork_outcome kend trampoline forkret mmio me p np r s s' Hp Hne Hnp E) as [Ho Hr].
  split; [intros j q Hj Hq; by eapply others_lookup|].
  pose proof (fork_run _ _ _ _ _ _ _ _ E) as [[-> Hst]|(np' & Hnp' & Hr' & Hst & Hpi & Hpa)].
  - destruct Hr as [[_ Ha]|(s1 & q & m & k' & Ha & Hq & Hm & Hm0)]; [by left|right]. exists s1, q, m, k'. split_and!; [done..|].
    destruct (m <? 0); [done|lia].
  - destruct Hr as [[-> Ha]|(s1 & q & m & k' & Ha & Hq & Hm & Hm0)]; [lia|right]. exists s1, q, m, k'. split_and!; [done..|].
    destruct (m <? 0); [lia|]. assert (np' = np) as -> by congruence. split_and!; try done.
    all: destruct (fork_shares kend trampoline forkret mmio me p r s s') as (np' & Hnp2 & Hof & Hc); [done..|lia|];
      assert (np' = np) as -> by congruence; done.
Qed.


(** clone drops the lock of the new entry while the entry is still unused:
    a process that allocates an entry before clone goes on gets the same one. *)
Theorem clone_slot_race {C} `{!BufCache C} kend trampoline forkret mmio me fcn arg stack np i (s s' s'' : psys C) :
  run (clone_start kend trampoline forkret mmio me fcn arg stack) s (Some np) s' →
  run (allocproc kend trampoline forkret mmio) s' (Some i) s'' → i = np.
Proof.
  intros E1 E2. apply clone_start_states in E1 as [Hv Hf]. apply allocproc_fields in E2 as (_ & _ & _ & Hi).
  rewrite first_unused_states, Hv, <-first_unused_states, Hf in Hi. by injection Hi.
Qed.

(** join of a finished thread stops the kernel: it hands the kernel stack,
    which is mapped high in the kernel's address space, to kfree. *)
Theorem join_panics {C} kend proc_at me stackaddrout (s : psys C) j p :
  findi (λ p, is_thread_of me p && bool_decide (state p = ZOMBIE)) (procs s) = Some j →
  procs s !! j = Some p → kstack p = KSTACK j → (j < NPROC)%nat →
  join kend proc_at me stackaddrout s = Panic "kfree".
Proof.
  intros Hf Hp Hk Hj. unfold join. rewrite (bind_Ret _ _ s s s eq_refl), Hf, (bind_Ret _ _ _ _ _ (the_proc_run _ _ _ Hp)).
  assert (PHYSTOP <= KSTACK j) as Hbig.
  { unfold KSTACK, NPROC in *. assert (PHYSTOP + 256 * PGSIZE <= TRAMPOLINE) by done. assert (0 < PGSIZE) by done. nia. }
  assert (kfree kend (kstack p) (kmem s) = Panic "kfree") as E.
  { unfold kfree, bad_page. rewrite Hk, (proj2 (Z.leb_le PHYSTOP _)) by done. by rewrite orb_true_r. }
  unfold on_memory, zoom, mbind, ST_bind. by rewrite E.
Qed.

(** kill(0) reports success and marks the first unused entry, whose pid is
    0, as killed; allocproc does not clear the mark, so the next process that
    fork creates is killed from the start. *)
Theorem kill_zero {C} `{!BufCache C} kend trampoline forkret mmio (s : psys C) i :
  (∀ j p, procs s !! j = Some p → (pid p = 0 ↔ state p = UNUSED)) → first_unused s = Some i →
  ∃ t, kill 0 (procs s) = (0, t) ∧
    ∀ me r s', run (fork kend trampoline forkret mmio me) (s <| procs := t |>) r s' → r ≠ -1 →
      views killed s' !! i = Some 1.
Proof.
  intros Hpid Hi. exists (alter kill_one i (procs s)).
  assert (findi (λ p, pid p =? 0) (procs s) = Some i) as Ek.
  { rewrite <-Hi. apply findi_ext. intros x [j Hj]%list_elem_of_lookup_1. specialize (Hpid j x Hj).
    case_bool_decide; [apply Z.eqb_eq; by apply Hpid|apply Z.eqb_neq; tauto]. }
  split; [unfold kill; by rewrite Ek|]. intros me r s' E Hr.
  pose proof (first_unused_lookup _ _ Hi) as Hv. apply view_at in Hv as (q & Hq & Hu).
  rewrite (fork_killed kend trampoline forkret mmio me r _ s' i E Hr).
  - unfold views. cbn. rewrite list_lookup_fmap, list_lookup_alter_eq, Hq. cbn. unfold kill_one. by destruct (bool_decide _).
  - rewrite <-Hi, !first_unused_states. f_equal. unfold views. cbn. apply list_eq. intros j. rewrite !list_lookup_fmap.
    destruct (decide (j = i)) as [->|]; [|by rewrite list_lookup_alter_ne].
    rewrite list_lookup_alter_eq, Hq. cbn. unfold kill_one. rewrite bool_decide_eq_false_2; [done|].
    change (state q ≠ SLEEPING). by rewrite Hu.
Qed.

Section run.
Definition kend_proc : Z := PHYSTOP - 24 * PGSIZE.
Definition tramp_ex : Z := KERNBASE + 0x7000.
Definition forkret_ex : Z := KERNBASE + 0x1234.
Definition mem_proc : kstate := after (kinit kend_proc) (k0 (λ _, []) 0).
Definition proc_ex : proc := Proc.proc0 <| name := replicate 16 0 |>.
Definition sys_boot : psys bcache :=
  Psys (imap (λ i p, p <| kstack := KSTACK i |>) (replicate NPROC proc_ex)) 1 (Some 0%nat) mem_proc
    (replicate 8 (ShareMem 0 0 (replicate 8 0))) (MqState (replicate 8 mq0) 0 0 0 0 mem_proc)
    (FdState (replicate NFILE file0) [] fs0 false).
Abbreviation alloc_ex := (allocproc (C := bcache) kend_proc tramp_ex forkret_ex (λ _, 0)).
Definition sys_one : psys bcache :=
  after (_ ← upd 0 (λ p, set_state RUNNING (p <| p_cwd := Some 0%nat |> <| sz := PGSIZE |>));
         p ← the_proc 0; on_memory (uvminit (pagetable p) initcode 52)) (after alloc_ex sys_boot).
Abbreviation fork_ex0 := (fork (C := bcache) kend_proc tramp_ex forkret_ex (λ _, 0) 0).
Definition sys_two : psys bcache := after fork_ex0 sys_one.
Definition init_ex : proc := default Proc.proc0 (procs sys_one !! 0%nat).

Lemma sys_two_run : run fork_ex0 sys_one 2 sys_two.
Proof. refine (run_after fork_ex0 sys_one 2 _). vm_compute. reflexivity. Qed.

Lemma clean_ex s : forallb (λ q, bool_decide (ofile q = replicate NOFILE None)) (procs (C := bcache) s) = true → slots_clean s.
Proof.
  intros H i q Hq _. apply list_elem_of_lookup_2, list_elem_of_In in Hq. rewrite forallb_forall in H.
  by specialize (H q Hq); apply bool_decide_eq_true in H.
Qed.

Lemma fork_correct_witness :
  run fork_ex0 sys_one 2 sys_two ∧ views state sys_two = <[1%nat := RUNNABLE]> (views state sys_one) ∧
  views ofile sys_two = <[1%nat := ofile init_ex]> (views ofile sys_one).
Proof.
  split; [exact sys_two_run|].
  assert (first_unused sys_one = Some 1%nat) as Hf by (vm_compute; reflexivity).
  assert (match first_unused sys_one with Some np => views state sys_two = <[np := RUNNABLE]> (views state sys_one) ∧
            views ofile sys_two = <[np := ofile init_ex]> (views ofile sys_one) | None => False end) as H; [|by rewrite Hf in H].
  pose proof (fork_correct kend_proc tramp_ex forkret_ex (λ _, 0) 0 init_ex sys_one 2 sys_two) as H.
  rewrite Hf in H |- *. destruct H as [_ [(Hr & _)|(s1 & q & m & k' & _ & _ & _ & H)]].
  - vm_compute. reflexivity.
  - vm_compute. reflexivity.
  - vm_compute. reflexivity.
  - apply clean_ex. vm_compute. reflexivity.
  - vm_compute. reflexivity.
  - exact sys_two_run.
  - discriminate Hr.
  - destruct (m <? 0).
    + destruct H as [Hr _]. discriminate Hr.
    + destruct H as (_ & Hst & _ & _ & Ho & _). split; [exact Hst|exact Ho].
Defined.

Abbreviation wait_ex addr := (wait (C := bcache) kend_proc at_ex (λ _, 0) 0 addr).


Abbreviation clone_ex := (clone_start (C := bcache) kend_proc tramp_ex forkret_ex (λ _, 0) 0 64 5 0).
Definition sys_thread : psys bcache := after clone_ex sys_one.

Lemma clone_slot_race_witness :
  run clone_ex sys_one (Some 1%nat) sys_thread ∧ run alloc_ex sys_thread (Some 1%nat) (after alloc_ex sys_thread).
Proof.
  assert (run clone_ex sys_one (Some 1%nat) sys_thread) as E1.
  { refine (run_after clone_ex sys_one (Some 1%nat) _). vm_compute. reflexivity. }
  assert (∃ i, value alloc_ex sys_thread = Some (Some i)) as [i Hi] by (vm_compute; eexists; reflexivity).
  pose proof (run_after alloc_ex sys_thread (Some i) Hi) as E2.
  pose proof (clone_slot_race kend_proc tramp_ex forkret_ex (λ _, 0) 0 64 5 0 1 i sys_one sys_thread _ E1 E2) as ->.
  split; [exact E1|exact E2].
Defined.

Definition sys_joins : psys bcache := sys_thread <| procs ::= alter (set_state ZOMBIE) 1%nat |>.

Lemma join_panics_witness : join kend_proc at_ex 0 128 sys_joins = Panic "kfree".
Proof.
  assert (∃ p, procs sys_joins !! 1%nat = Some p ∧ kstack p = KSTACK 1) as (p & Hp & Hk)
    by (vm_compute; eexists; split; reflexivity).
  refine (join_panics kend_proc at_ex 0 128 sys_joins 1 p _ Hp Hk _).
  - vm_compute. reflexivity.
  - apply Nat.ltb_lt. reflexivity.
Defined.

Definition sys_killed : psys bcache := sys_one <| procs := (kill 0 (procs sys_one)).2 |>.

Lemma kill_zero_witness :
  run fork_ex0 sys_killed 2 (after fork_ex0 sys_killed) ∧ views killed (after fork_ex0 sys_killed) !! 1%nat = Some 1.
Proof.
  assert (run fork_ex0 sys_killed 2 (after fork_ex0 sys_killed)) as E.
  { refine (run_after fork_ex0 sys_killed 2 _). vm_compute. reflexivity. }
  split; [exact E|].
  destruct (kill_zero kend_proc tramp_ex forkret_ex (λ _, 0) sys_one 1) as (t & Ht & H).
  - intros j p Hj.
    assert (forallb (λ p, bool_decide (pid p = 0 ↔ state p = UNUSED)) (procs sys_one) = true) as Hall by (vm_compute; reflexivity).
    apply list_elem_of_lookup_2, list_elem_of_In in Hj. rewrite forallb_forall in Hall.
    by specialize (Hall p Hj); apply bool_decide_eq_true in Hall.
  - vm_compute. reflexivity.
  - assert (sys_killed = sys_one <| procs := t |>) as Hk by (unfold sys_killed; by rewrite Ht).
    rewrite Hk in E |- *. refine (H 0%nat 2 _ E _). discriminate.
Defined.

Definition sys_grow : psys bcache :=
  sys_boot <| kmem := vs_user |> <| procs ::= alter (λ p, p <| sz := 5000 |> <| pagetable := pt_vm |>) 0%nat |>.

Lemma growproc_correct_witness :
  ∃ k', run (growproc kend_vm 0 4000) sys_grow 0 (resized 0 9000 k' sys_grow) ∧
    grown kend_vm pt_vm user_perm vs_user (PGROUNDUP 5000) (PGROUNDUP 9000) k'.
Proof.
  assert (∃ p, procs sys_grow !! 0%nat = Some p ∧ sz p = 5000 ∧ pagetable p = pt_vm) as (p & Hp & Hsz & Hpt)
    by (vm_compute; eexists; split; [reflexivity|split; reflexivity]).
  destruct (growproc_correct kend_vm 0 p sys_grow 4000) as (r & s' & k' & E & H); rewrite ?Hsz, ?Hpt.
  - exact Hp.
  - exact (gw_k _ _ _ _ _ _ _ vs_user_ok).
  - exact (gw_pt _ _ _ _ _ _ _ vs_user_ok).
  - exact (gw_user _ _ _ _ _ _ _ vs_user_ok).
  - lia.
  - lia.
  - lia.
  - intros va Hva. change (kmem sys_grow) with vs_user. change (PGROUNDUP (5000 + 4000)) with 12288 in Hva.
    change (PGROUNDUP 5000) with 8192 in Hva.
    rewrite (gw_out _ _ _ _ _ _ _ vs_user_ok) by (change MAXVA with 274877906944; lia).
    destruct vs_root_ok as (_ & _ & _ & Hl). rewrite Hl. reflexivity.
  - rewrite Hsz, Hpt in H. exists k'. destruct H as [(-> & -> & G)|(-> & _ & _)].
    + split; [exact E|exact G].
    + exfalso. assert (value (growproc kend_vm 0 4000) sys_grow = Some 0) as Ev by (vm_compute; reflexivity).
      unfold value in Ev. rewrite E in Ev. discriminate Ev.
Defined.
End run.
