(* ===== verification/SysProc.v ===== *)
(** * sysproc.c: system calls on processes

    Credentials, process groups and sessions, signals, semaphores, the environment
    and the host name, sbrk and sleep.  Arguments are what argint, argaddr and
    argstr deliver; [me] is the index of the calling process.  A string argument
    is the buffer it was copied to. *)

From S2P Require Import Prelude ProcTable Sched Proc PageAlloc Kalloc Memory Vm BufCache ProcLife.

(** ** Credentials *)

Definition with_creds (f : creds → creds) (p : proc) : proc := p <| cr ::= f |>.

Definition sys_setuid (me : nat) (u : Z) (t : ptable) : Z * ptable :=
  let p := default Proc.proc0 (t !! me) in
  if negb (uid (cr p) =? 0) && negb (u =? uid (cr p)) then (-1, t)
  else (0, alter (with_creds (λ c, c <| uid := u |>)) me t).

Definition sys_setgid (me : nat) (g : Z) (t : ptable) : Z * ptable :=
  let p := default Proc.proc0 (t !! me) in
  if negb (uid (cr p) =? 0) && negb (g =? gid (cr p)) then (-1, t)
  else (0, alter (with_creds (λ c, c <| gid := g |>)) me t).

Record user := User { us_uid : Z; us_gid : Z; username : list Z; password : list Z; active : bool }.

(** root/root, user/user, guest/guest, and five entries that are not active. *)
Definition users : list user :=
  [User 0 0 [114; 111; 111; 116] [114; 111; 111; 116] true;
   User 1000 1000 [117; 115; 101; 114] [117; 115; 101; 114] true;
   User 1001 1000 [103; 117; 101; 115; 116] [103; 117; 101; 115; 116] true] ++ replicate 5 (User 0 0 [] [] false).

(** [for (j = 0; j < 16 && stored[j]; j++) if (stored[j] != given[j])]: the loop
    ends with the stored string. *)
Fixpoint matches (stored given : list Z) : bool :=
  match stored with
  | [] => true
  | c :: stored' => match given with d :: given' => (c =? d) && matches stored' given' | [] => false end
  end.

Definition sys_login (me : nat) (name pw : list Z) (t : ptable) : Z * ptable :=
  match findi (λ u, active u && matches (username u) name && matches (password u) pw) users with
  | Some i =>
      let u := default (User 0 0 [] [] false) (users !! i) in
      (us_uid u, alter (with_creds (λ c, c <| uid := us_uid u |> <| gid := us_gid u |>)) me t)
  | None => (-1, t)
  end.

Definition sys_sudo (me : nat) (pw : list Z) (t : ptable) : Z * ptable :=
  if matches [114; 111; 111; 116] pw then (0, alter (with_creds (λ c, c <| uid := 0 |> <| gid := 0 |>)) me t) else (-1, t).

(** ** Process groups, sessions, priorities *)

Definition pid_index (x : Z) (t : ptable) : option nat := findi (λ p, pid p =? x) t.

Definition sys_setpgid (me : nat) (x g : Z) (t : ptable) : Z * ptable :=
  let p := default Proc.proc0 (t !! me) in
  let x := if x =? 0 then pid p else x in
  let g := if g =? 0 then x else g in
  match pid_index x t with
  | None => (-1, t)
  | Some i =>
      let q := default Proc.proc0 (t !! i) in
      if negb (bool_decide (i = me)) && negb (bool_decide (parent q = Some me)) then (-1, t)
      else (0, alter (with_creds (λ c, c <| pgid := g |>)) i t)
  end.

Definition sys_getpgid (me : nat) (x : Z) (t : ptable) : Z :=
  if x =? 0 then pgid (cr (default Proc.proc0 (t !! me)))
  else match pid_index x t with Some i => pgid (cr (default Proc.proc0 (t !! i))) | None => -1 end.

Definition sys_getsid (me : nat) (x : Z) (t : ptable) : Z :=
  if x =? 0 then sid (cr (default Proc.proc0 (t !! me)))
  else match pid_index x t with Some i => sid (cr (default Proc.proc0 (t !! i))) | None => -1 end.

Definition sys_setsid (me : nat) (t : ptable) : Z * ptable :=
  let p := default Proc.proc0 (t !! me) in
  if (pgid (cr p) =? pid p) && (1 <? tally (λ q, (pgid (cr q) =? pgid (cr p)) && negb (bool_decide (state q = UNUSED))) t)
  then (-1, t)
  else (pid p, alter (with_creds (λ c, c <| sid := pid p |> <| pgid := pid p |>)) me t).

Definition sys_nice (me : nat) (inc : Z) (t : ptable) : Z * ptable :=
  let p := default Proc.proc0 (t !! me) in
  let x := i32 (priority (tk p) + inc) in
  let x := if x <? 0 then 0 else x in
  let x := if 20 <? x then 20 else x in
  (x, alter (λ p, p <| tk ::= λ k, k <| priority := x |> |>) me t).

Definition sys_getppid (me : nat) (t : ptable) : Z :=
  match parent (default Proc.proc0 (t !! me)) with Some i => pid (default Proc.proc0 (t !! i)) | None => 0 end.

(** ** Signals *)

Definition SIGKILL : Z := 9.
Definition SIGTERM : Z := 15.

Definition sys_signal (me : nat) (signum handler : Z) (t : ptable) : Z * ptable :=
  if (signum <? 1) || (32 <=? signum) then (-1, t)
  else if signum =? SIGKILL then (-1, t)
  else
    (default 0 (signal_handlers (sig (default Proc.proc0 (t !! me))) !! Z.to_nat signum),
     alter (λ p, p <| sig ::= λ g, g <| signal_handlers ::= <[Z.to_nat signum := handler]> |> |>) me t).

Definition post_signal (signum : Z) (p : proc) : proc :=
  let p := p <| sig ::= λ g, g <| pending_signals ::= λ m, u32 (Z.lor m (Z.shiftl 1 signum)) |> |> in
  if (signum =? SIGKILL) || (signum =? SIGTERM) then p <| killed := 1 |> else p.
Definition must_wake (p : proc) : bool := negb (paused (sig p) =? 0) || bool_decide (state p = SLEEPING).

Definition sys_sigkill (proc_at : nat → Z) (x signum : Z) (t : ptable) : Z * ptable :=
  if (signum <? 1) || (32 <=? signum) then (-1, t)
  else
    match pid_index x t with
    | None => (-1, t)
    | Some i =>
        let p := default Proc.proc0 (t !! i) in
        if must_wake p then (0, wakeup (proc_at i) (alter (λ p, set_state RUNNABLE (post_signal signum p)) i t))
        else (0, alter (post_signal signum) i t)
    end.

(** [sys_pause], to its sleep and from a wakeup. *)
Inductive pause_res := PauseRet (v : Z) | PauseSleep.
Definition pause_loop (proc_at : nat → Z) (me : nat) (t : ptable) : pause_res * ptable :=
  let p := default Proc.proc0 (t !! me) in
  if (pending_signals (sig p) =? 0) && (killed p =? 0) then (PauseSleep, alter (sleep_enter (proc_at me)) me t)
  else (PauseRet (if killed p =? 0 then 0 else -1), alter (λ p, p <| sig ::= λ g, g <| paused := 0 |> |>) me t).
Definition sys_pause (proc_at : nat → Z) (me : nat) (t : ptable) : pause_res * ptable :=
  pause_loop proc_at me (alter (λ p, p <| sig ::= λ g, g <| paused := 1 |> |>) me t).
Definition pause_resume (proc_at : nat → Z) (me : nat) (t : ptable) : pause_res * ptable :=
  pause_loop proc_at me (alter sleep_leave me t).

(** ** Semaphores *)

Definition SEM_MAX_NUM : nat := 128.
Record sem := Sem { allocated : Z; resource_count : Z }.
#[export] Instance sem_fields : Fields sem := λ m, Sem (allocated m) (resource_count m).
Record semsys := SemSys { sems : list sem; sem_used_count : Z; sem_procs : ptable }.
#[export] Instance semsys_fields : Fields semsys := λ s, SemSys (sems s) (sem_used_count s) (sem_procs s).

Definition initsem (t : ptable) : semsys := SemSys (replicate SEM_MAX_NUM (Sem 0 0)) 0 t.

Definition sys_sem_create (n : Z) (s : semsys) : Z * semsys :=
  if n <=? 0 then (-1, s)
  else
    match findi (λ m, allocated m =? 0) (sems s) with
    | Some id => (Z.of_nat id, s <| sems ::= <[id := Sem 1 n]> |> <| sem_used_count ::= λ c, i32 (c + 1) |>)
    | None => (-1, s)
    end.

Definition bad_sem (id : Z) : bool := (id <? 0) || (Z.of_nat SEM_MAX_NUM <=? id).

Definition sys_sem_free (id : Z) (s : semsys) : Z * semsys :=
  if bad_sem id then (-1, s)
  else if allocated (default (Sem 0 0) (sems s !! Z.to_nat id)) =? 1
  then (0, s <| sems ::= <[Z.to_nat id := Sem 0 0]> |> <| sem_used_count ::= λ c, i32 (c - 1) |>)
  else (0, s).

(** [sem_at id] is the address of the semaphore, the channel of its sleepers.
    The second component of the result is whether the caller sleeps; it
    returns 0 when it is woken. *)
Definition sys_sem_p (sem_at : Z → Z) (me : nat) (id : Z) (s : semsys) : Z * bool * semsys :=
  if bad_sem id then (-1, false, s)
  else
    let s := s <| sems ::= alter (λ m, m <| resource_count ::= λ c, i32 (c - 1) |>) (Z.to_nat id) |> in
    if resource_count (default (Sem 0 0) (sems s !! Z.to_nat id)) <? 0
    then (0, true, s <| sem_procs ::= alter (sleep_enter (sem_at id)) me |>)
    else (0, false, s).

Definition sys_sem_v (sem_at : Z → Z) (id : Z) (s : semsys) : Z * semsys :=
  if bad_sem id then (-1, s)
  else
    let s := s <| sems ::= alter (λ m, m <| resource_count ::= λ c, i32 (c + 1) |>) (Z.to_nat id) |> in
    if resource_count (default (Sem 0 0) (sems s !! Z.to_nat id)) <=? 0
    then (0, s <| sem_procs ::= wakeup (sem_at id) |>)
    else (0, s).

(** ** The environment and the host name: strings without their terminator *)

Definition MAX_ENV_VARS : nat := 32.
Definition MAX_ENV_NAME : nat := 32.
Definition MAX_ENV_VALUE : nat := 128.
Record env_var := EnvVar { e_name : list Z; e_value : list Z; e_used : bool }.

Definition sys_setenv (name value : list Z) (l : list env_var) : Z * list env_var :=
  match findi (λ v, e_used v && bool_decide (e_name v = name)) l with
  | Some i => (0, alter (λ v, EnvVar (e_name v) (take (MAX_ENV_VALUE - 1) value) true) i l)
  | None =>
      match findi (λ v, negb (e_used v)) l with
      | Some i => (0, <[i := EnvVar (take (MAX_ENV_NAME - 1) name) (take (MAX_ENV_VALUE - 1) value) true]> l)
      | None => (-1, l)
      end
  end.

(** The bytes [sys_getenv] passes to [copyout] for a buffer of [len] bytes; a
    length that makes the count negative is [None]: the count is then converted
    to an unsigned 64-bit one. *)
Definition env_bytes (value : list Z) (len : Z) : option (list Z) :=
  let vlen := Z.of_nat (length value) in
  let vlen := if len <=? vlen then len - 1 else vlen in
  if vlen + 1 <? 0 then None else Some (take (Z.to_nat (vlen + 1)) (value ++ [0])).

Definition sys_getenv (name : list Z) (len : Z) (l : list env_var) : option (option (list Z)) :=
  match findi (λ v, e_used v && bool_decide (e_name v = name)) l with
  | Some i => Some (env_bytes (e_value (default (EnvVar [] [] false) (l !! i))) len)
  | None => None
  end.

(** ** sbrk, sleep *)

Section sbrk.
Context {C : Type} `{!BufCache C} (kend : Z).

Definition sys_sbrk (me : nat) (n : Z) : ST (psys C) Z :=
  p ← the_proc me;
  let addr := i32 (sz p) in
  if 0 <? n then _ ← upd me (λ p, p <| sz := u64 (sz p + n) |>); mret addr
  else if 0 <? u64 (sz p + n) then
    r ← on_memory (uvmdealloc kend (pagetable p) (sz p) (u64 (sz p + n)));
    _ ← upd me (λ p, p <| sz := r |>);
    mret addr
  else mret (-1).
End sbrk.

(** The test of the loop of [sys_sleep]: the int is converted to unsigned. *)
Definition sleep_more (ticks ticks0 n : Z) : bool := u32 (ticks - ticks0) <? u32 n.

(** ** Root *)

(** The calls that touch credentials, by any process, without the password of
    root. *)
Inductive cred_step : ptable → ptable → Prop :=
| CrSetuid me u t : cred_step t (sys_setuid me u t).2
| CrSetgid me g t : cred_step t (sys_setgid me g t).2
| CrLogin me name pw t : matches [114; 111; 111; 116] pw = false → cred_step t (sys_login me name pw t).2
| CrSudo me pw t : matches [114; 111; 111; 116] pw = false → cred_step t (sys_sudo me pw t).2
| CrSetpgid me x g t : cred_step t (sys_setpgid me x g t).2
| CrSetsid me t : cred_step t (sys_setsid me t).2.

Definition is_root (t : ptable) (i : nat) : bool := uid (cr (default Proc.proc0 (t !! i))) =? 0.

Lemma alter_root (f : creds → creds) me t i : (∀ c, uid (f c) = uid c) → is_root (alter (with_creds f) me t) i = is_root t i.
Proof.
  intros Hf. unfold is_root. destruct (decide (i = me)) as [->|]; [|by rewrite list_lookup_alter_ne].
  rewrite list_lookup_alter_eq. destruct (t !! me); cbn; [by rewrite Hf|done].
Qed.

Lemma set_root u g t me i : (u ≠ 0 ∨ is_root t me = true) → is_root t i = false →
  is_root (alter (with_creds (λ c, c <| uid := u |> <| gid ::= g |>)) me t) i = false.
Proof.
  intros Hu Hi. unfold is_root in *. destruct (decide (i = me)) as [->|]; [|by rewrite list_lookup_alter_ne].
  rewrite list_lookup_alter_eq. destruct (t !! me) as [p|]; [|done]. cbn in *. destruct Hu as [Hu|Hu]; [by apply Z.eqb_neq|congruence].
Qed.

Lemma login_not_root name pw i : matches [114; 111; 111; 116] pw = false →
  findi (λ u, active u && matches (username u) name && matches (password u) pw) users = Some i →
  us_uid (default (User 0 0 [] [] false) (users !! i)) ≠ 0.
Proof.
  intros Hpw Hf. apply findi_lookup in Hf as (u & Hu & Hm). rewrite Hu.
  destruct i as [|[|[|i]]]; [injection Hu as <-..|]; cbn in *; [by rewrite Hpw, andb_false_r in Hm|done|done|].
  destruct i as [|[|[|[|[|i]]]]]; [injection Hu as <-; done..|done].
Qed.

Lemma cred_step_root t t' i : cred_step t t' → is_root t i = false → is_root t' i = false.
Proof.
  intros Hst Hi. destruct Hst as [me u t|me g t|me name pw t Hpw|me pw t Hpw|me x g t|me t].
  - unfold sys_setuid. destruct (negb _ && negb _) eqn:E; [done|]. cbn.
    unfold is_root in *. destruct (decide (i = me)) as [->|]; [|by rewrite list_lookup_alter_ne].
    rewrite list_lookup_alter_eq. destruct (t !! me) as [p|]; [|done]. cbn in *. rewrite Hi in E. cbn in E.
    apply negb_false_iff, Z.eqb_eq in E. by rewrite E.
  - unfold sys_setgid. destruct (negb _ && negb _); [done|]. cbn [snd]. by rewrite alter_root.
  - unfold sys_login. destruct (findi _ users) as [k|] eqn:Hf; [|done]. apply login_not_root in Hf; [|done]. cbn.
    apply (set_root _ (λ _, us_gid (default (User 0 0 [] [] false) (users !! k)))); [by left|done].
  - unfold sys_sudo. by rewrite Hpw.
  - unfold sys_setpgid. destruct (pid_index _ _); [|done]. destruct (negb _ && negb _); [done|]. cbn [snd]. by rewrite alter_root.
  - unfold sys_setsid. destruct (_ && _); [done|]. cbn [snd]. by rewrite alter_root.
Qed.

(** Whoever is not root stays so, in any sequence of the calls of any processes
    in which the password of root is not given. *)
Lemma no_root_escalation t t' i : rtc cred_step t t' → is_root t i = false → is_root t' i = false.
Proof. intros Hr Hi. revert Hr. apply (rtc_invariant cred_step (λ t, is_root t i = false)); [|done]. intros s u Hs Hst. by eapply cred_step_root. Qed.

(** A password is accepted when the stored one is a prefix of it: rootkit. *)
Lemma login_accepts_extensions me t :
  let given := [114; 111; 111; 116; 107; 105; 116; 0; 0; 0; 0; 0; 0; 0; 0; 0] in
  (sys_login me given given t).1 = 0 ∧ (sys_sudo me given t).1 = 0.
Proof. done. Qed.

(** ** The environment is a map *)

Section env.
Context (l : list env_var) (name value : list Z).
Context (Hn : (length name < MAX_ENV_NAME)%nat) (Hv : (length value < MAX_ENV_VALUE)%nat).
Local Notation has x := (λ v, e_used v && bool_decide (e_name v = x)).

Lemma findi_insert_same {A} (f : A → bool) (k : list A) i x : (i < length k)%nat → f x = true →
  (∀ j y, (j < i)%nat → k !! j = Some y → f y = false) → findi f (<[i := x]> k) = Some i.
Proof.
  intros Hi Hx Hlt. apply findi_Some. split; [exists x; by rewrite list_lookup_insert_eq|].
  intros j y Hj. rewrite list_lookup_insert_ne by lia. by apply Hlt.
Qed.

Lemma findi_insert_other {A} (f : A → bool) (k : list A) i x y : k !! i = Some y → f y = false → f x = false →
  findi f (<[i := x]> k) = findi f k.
Proof.
  intros Hk Hy Hx. revert i Hk. induction k as [|z k IH]; intros [|i] Hk; [done|done| |].
  - injection Hk as ->. cbn. by rewrite Hx, Hy.
  - cbn. change (<[i := x]> k) with (<[i := x]> k). destruct (f z); [done|]. by rewrite IH.
Qed.

(** Where [setenv] puts the value. *)
Lemma setenv_place l' : sys_setenv name value l = (0, l') →
  ∃ i v, l !! i = Some v ∧ l' = <[i := EnvVar name value true]> l ∧ (has name v = true ∨ e_used v = false) ∧
    ∀ j y, (j < i)%nat → l !! j = Some y → has name y = false.
Proof.
  unfold sys_setenv. rewrite !take_ge by (unfold MAX_ENV_NAME, MAX_ENV_VALUE in *; lia).
  destruct (findi (has name) l) as [i|] eqn:E.
  - apply findi_Some in E as [(v & Hi & Hh) Hlt]. intros [= <-]. exists i, v. split_and!; [done| |by left|done].
    apply andb_true_iff in Hh as [_ Hh%bool_decide_eq_true]. rewrite (alter_insert_eq _ _ _ _ Hi). by rewrite Hh.
  - destruct (findi (λ v, negb (e_used v)) l) as [i|] eqn:E2; [|done]. apply findi_Some in E2 as [(v & Hi & Hh) _].
    intros [= <-]. exists i, v. split_and!; [done..|right; by apply negb_true_iff|]. intros j y _ Hj.
    rewrite findi_None in E. by eapply E.
Qed.

(** What was set is read back, and the other names keep their values. *)
Lemma env_roundtrip l' len : sys_setenv name value l = (0, l') → Z.of_nat (length value) < len →
  sys_getenv name len l' = Some (Some (value ++ [0])) ∧ ∀ x n, x ≠ name → sys_getenv x n l' = sys_getenv x n l.
Proof using Hn Hv.
  intros E Hlen. destruct (setenv_place l' E) as (i & v & Hi & -> & Hold & Hlt). unfold sys_getenv. split.
  - rewrite findi_insert_same with (i := i); [|by eapply lookup_lt_Some|cbn; by rewrite bool_decide_true|done].
    rewrite list_lookup_insert_eq by (by eapply lookup_lt_Some). cbn [e_value default id from_option]. unfold env_bytes.
    rewrite (proj2 (Z.leb_gt _ _)) by lia. rewrite (proj2 (Z.ltb_ge _ _)) by lia. rewrite take_ge; [done|].
    rewrite length_app. cbn. lia.
  - intros x n Hx. rewrite (findi_insert_other _ _ i _ v); [|done| |cbn; by rewrite bool_decide_false].
    + destruct (findi _ l) as [k|] eqn:Ek; [|done]. do 4 f_equal. rewrite list_lookup_insert_ne; [done|]. intros ->.
      apply findi_lookup in Ek as (y & Hy & Hh). rewrite Hi in Hy. injection Hy as <-.
      apply andb_true_iff in Hh as [Hu Hh%bool_decide_eq_true]. destruct Hold as [Ho|Ho]; [|congruence].
      apply andb_true_iff in Ho as [_ Ho%bool_decide_eq_true]. congruence.
    + destruct Hold as [Ho|Ho]; [|by rewrite Ho]. apply andb_true_iff in Ho as [_ Ho%bool_decide_eq_true].
      rewrite bool_decide_false by congruence. by rewrite andb_false_r.
Qed.
End env.

(** ** Semaphores *)

(** Three processes ask for the one resource of a semaphore; two sleep.  One
    release wakes both of them, and neither looks at the count again: both go
    on with the resource. *)
Definition sem_demo : semsys :=
  let sem_at := λ id, 0x80010000 + 32 * id in
  let t := (λ k, set_state RUNNING (set_pid k Proc.proc0)) <$> [1; 2; 3] in
  let s := (sys_sem_create 1 (initsem t)).2 in
  let s := (sys_sem_p sem_at 0 0 s).2 in
  let s := (sys_sem_p sem_at 1 0 s).2 in
  let s := (sys_sem_p sem_at 2 0 s).2 in
  (sys_sem_v sem_at 0 s).2.

Lemma sem_release_wakes_all :
  resource_count (default (Sem 0 0) (sems sem_demo !! 0%nat)) = -1 ∧
  state <$> sem_procs sem_demo = [RUNNING; RUNNABLE; RUNNABLE].
Proof. by vm_compute. Qed.

(** ** Signals *)

(** A signal ends a pause: the process is runnable, and when it runs its call
    returns. *)
Lemma sigkill_ends_pause proc_at x signum t i p : 1 ≤ signum < 32 → pid_index x t = Some i → t !! i = Some p →
  state p = SLEEPING → 0 ≤ pending_signals (sig p) < 2 ^ 32 →
  ∃ t' p', sys_sigkill proc_at x signum t = (0, t') ∧ t' !! i = Some p' ∧ state p' = RUNNABLE ∧
    ∃ v, (pause_resume proc_at i t').1 = PauseRet v.
Proof.
  intros Hs Hf Hp Hst Hr. unfold sys_sigkill. rewrite Hf, Hp. cbn [default from_option id].
  destruct (Z.ltb_spec signum 1); [lia|]. destruct (Z.leb_spec 32 signum); [lia|]. cbn [orb].
  assert (must_wake p = true) as -> by (unfold must_wake; rewrite (bool_decide_true (state p = SLEEPING)) by done; apply orb_true_r).
  set (p1 := set_state RUNNABLE (post_signal signum p)).
  assert (Hi : wakeup (proc_at i) (alter (λ p, set_state RUNNABLE (post_signal signum p)) i t) !! i = Some p1).
  { unfold wakeup. rewrite list_lookup_fmap, list_lookup_alter_eq, Hp. cbn. f_equal. }
  eexists _, p1. split; [done|]. split; [exact Hi|]. split; [done|].
  unfold pause_resume, pause_loop. rewrite list_lookup_alter_eq, Hi. cbn [fmap option_fmap option_map default from_option id].
  assert (Hpend : pending_signals (sig (sleep_leave p1)) ≠ 0).
  { assert (Heq : pending_signals (sig (sleep_leave p1)) = u32 (Z.lor (pending_signals (sig p)) (Z.shiftl 1 signum))).
    { unfold p1, post_signal. by destruct (_ || _). }
    rewrite Heq. pose proof (word_lor 32 (pending_signals (sig p)) (Z.shiftl 1 signum) ltac:(lia) Hr) as Hw.
    rewrite u32_small.
    - intros Hz. apply (f_equal (λ z, Z.testbit z signum)) in Hz. rewrite Z.lor_spec, flag_bit, bool_decide_true, orb_true_r, Z.bits_0 in Hz by lia. done.
    - apply Hw. rewrite Z.shiftl_1_l. split; [apply Z.pow_nonneg; lia|]. apply Z.pow_lt_mono_r; lia. }
  rewrite (proj2 (Z.eqb_neq _ _) Hpend). cbn. eauto.
Qed.

(** ** sbrk and sleep *)

(** Growing has no bound, and shrinking by more than the size is reported as a
    success that changes nothing. *)
Lemma sbrk_grows {C : Type} `{!BufCache C} kend me n (s : psys C) p : procs s !! me = Some p → 0 < n →
  run (sys_sbrk kend me n) s (i32 (sz p)) (s <| procs ::= alter (λ p, p <| sz := u64 (sz p + n) |>) me |>).
Proof.
  intros Hp Hn. unfold sys_sbrk, mbind, ST_bind. cbn -[u64 i32]. rewrite Hp. cbn -[u64 i32].
  by rewrite (proj2 (Z.ltb_lt 0 n) Hn).
Qed.

Lemma sbrk_shrink_ignored {C : Type} `{!BufCache C} kend me n (s : psys C) p : procs s !! me = Some p →
  0 ≤ sz p < 2 ^ 32 → - 2 ^ 31 ≤ n → sz p < - n →
  ∃ s', run (sys_sbrk kend me n) s (i32 (sz p)) s' ∧ kmem s' = kmem s ∧ procs s' !! me = Some p.
Proof.
  intros Hp Hsz Hn Hlt. assert (Hu : u64 (sz p + n) = sz p + n + 2 ^ 64).
  { unfold u64. rewrite <-(Z_mod_plus_full _ 1), Z.mul_1_l, Z.mod_small; lia. }
  unfold sys_sbrk, mbind, ST_bind. cbn -[u64 i32 Z.pow]. rewrite Hp. cbn -[u64 i32 Z.pow].
  rewrite (proj2 (Z.ltb_ge 0 n)) by lia. rewrite Hu. rewrite (proj2 (Z.ltb_lt 0 _)) by lia.
  unfold on_memory, zoom, uvmdealloc. rewrite (proj2 (Z.leb_le (sz p) _)) by lia. cbn -[u64 i32 Z.pow].
  eexists. split; [done|]. split; [done|]. cbn. rewrite list_lookup_alter_eq, Hp. cbn. by destruct p.
Qed.

(** A negative time is a long one. *)
Lemma sleep_negative ticks0 k n : 0 ≤ ticks0 < 2 ^ 32 → - 2 ^ 31 ≤ n < 0 → 0 ≤ k < 2 ^ 31 →
  sleep_more (u32 (ticks0 + k)) ticks0 n = true.
Proof.
  intros Ht Hn Hk. unfold sleep_more. rewrite u32_sub_idemp. replace (ticks0 + k - ticks0) with k by lia. apply Z.ltb_lt.
  rewrite u32_small by lia. unfold u32. rewrite <-(Z_mod_plus_full _ 1), Z.mul_1_l, Z.mod_small; lia.
Qed.
